(* ===== verification/_CoqProject ===== *)
-Q . S2P
Prelude.v
Heap.v
MemoryPool.v
FixedPool.v
SharedMemory.v
GlobalMemory.v
RingBuffer.v
Pack.v
Http2.v
WebSocket.v
Mqtt.v
Channel.v
Hash.v
Table.v
Base64.v
SwString.v
Protocol.v
CoChannel.v
HeapRoot.v
Timer.v
Buffer.v
AsyncWrite.v
LruCache.v
Http.v
Coroutine.v
Dns.v
HttpPort.v
Pipe.v
Sessions.v
Dispatch.v
Redis.v
NetSocket.v
CoSocket.v
Reactor.v
ReactorLoop.v
Connection.v
MimeType.v
StaticHandler.v
Proxy.v
ProcessPool.v
Manager.v
File.v
TaskWorker.v
AsyncThreads.v
FileLock.v
CoWait.v
CoSystem.v
Client.v
