(* ===== verification/Prelude.v ===== *)
(** * OpenSwoole: a verification development of the core library

    OpenSwoole is an asynchronous, coroutine-based network engine for PHP.  Its C++ core
    (src/src, src/include) holds the data structures, the protocols, the timers, the
    buffered I/O, the coroutines and the multi-process server on which the PHP bindings
    (src/ext-src) are built.  This library models the parts of the core that carry its
    logic, definition by definition, and proves what makes them correct.

    ** How the parts work together

    An event loop ([Reactor], [ReactorLoop]) waits for the sockets of a process and calls
    their handlers.  A server accepts connections and gives each a session ([Sessions]).  A
    readable connection is handled by its port ([HttpPort], [Protocol]): the bytes go into the
    connection's buffer ([SwString]), are cut into packages by length, delimiter or the
    HTTP parser ([Http], [Http2], [WebSocket], [Mqtt], [Redis], with the integers of [Pack]), and
    every package is dispatched to a worker ([Dispatch]) through a pipe, in chunks if need
    be ([Pipe]); requests for files are answered before that ([StaticHandler], with the types
    of [MimeType]).  The answers come back the same way and leave through the connection's
    output, which also pauses, resumes and closes it ([Connection]), and the buffered write
    path ([Buffer], [AsyncWrite]).  Inside a process, timers ([Timer] on the heap [Heap])
    and coroutines ([Coroutine], [CoChannel]) order the work, coroutines read and write through
    sockets that wait for them ([CoSocket] over [NetSocket]), if need be through a proxy
    ([Proxy]), names are resolved by [Dns] and cached in [LruCache];
    blocking calls run in a pool of threads ([AsyncThreads]), and coroutines wait for time, events,
    signals, child processes and file locks without blocking the others ([CoSystem], [CoWait],
    [FileLock]); between processes data is shared by the table ([Table],
    [Hash]), the channel ([Channel]) and the pools ([FixedPool], [GlobalMemory] and [RingBuffer] over
    [SharedMemory]).  The manager process ([Manager]) starts the workers and replaces those that
    exit; the task workers, which take work off the event workers ([TaskWorker], with large data
    in files, [File]), and the processes of a user's own pool are kept by [ProcessPool].

    ** Which file models what

    - [Prelude]: this file; result codes of include/openswoole.h, machine integers as [Z]
      with explicit wrap-around, bounds-checked loads and stores of a memory block, byte
      order, tactics and the lemmas on lists and lengths that all files share, and the
      refinement of a run of operations ([exec_refines]).
    - [Heap], [HeapRoot]: core/heap.cc, the array heap of the timer; nodes are locations,
      with the position each node records.
    - [MemoryPool], [FixedPool]: the pool interface as a type class and
      memory/fixed_pool.cc, with the slices' doubly linked list in a store.
    - [SharedMemory], [GlobalMemory], [RingBuffer]: memory/shared_memory.cc,
      global_memory.cc and ring_buffer.cc; the last two are instances of the interface of
      pools with blocks of any size ([BlockPool] of [MemoryPool]).
    - [Pack], [Base64], [Hash]: openswoole_unpack and the byte swaps, protocol/base64.cc,
      the hashes of openswoole_hash.h and core/crc32.cc.
    - [SwString]: core/string.cc and openswoole_string.h.
    - [Protocol]: protocol/base.cc, framing by length and by delimiter over a socket.
    - [Http2], [WebSocket], [Mqtt]: the framing of protocol/http2.cc, websocket.cc, mqtt.cc.
    - [Http]: protocol/http.cc, the request parser and the URL coding.
    - [Redis]: protocol/redis.cc, the commands and the replies.
    - [NetSocket], [CoSocket]: the blocking and vectored transfers of network/socket.cc and
      the sockets of coroutine/socket.cc, in a state monad whose results include a coroutine
      that is left waiting.
    - [Proxy]: openswoole_proxy.h, the SOCKS 5 and HTTP handshakes of coroutine/socket.cc and
      network/client.cc.
    - [Client]: network/client.cc, the event-driven TCP client and the order of its callbacks.
    - [MimeType], [StaticHandler]: protocol/mime_type.cc; server/static_handler.cc and
      select_static_handler of protocol/http.cc over a file system.
    - [Reactor], [ReactorLoop]: openswoole_reactor.h with reactor/epoll.cc, poll.cc and
      select.cc as instances of one interface; their dispatch loops and reactor/base.cc.
    - [Connection]: send_to_connection of server/master.cc, the writable and close handlers
      of reactor_thread.cc and the flags of process.cc and base.cc.
    - [HttpPort]: the read handlers of server/port.cc.
    - [Channel], [Table]: core/channel.cc and memory/table.cc, the shared-memory structures,
      byte for byte and row for row.
    - [Timer]: core/timer.cc, with callbacks that call the timer again.
    - [Buffer], [AsyncWrite]: memory/buffer.cc; the writes of reactor/base.cc, network/socket.cc
      and the kernel's answers.
    - [LruCache]: openswoole_lru_cache.h, with the list's iterators.
    - [Coroutine], [CoChannel]: coroutine/base.cc and context.cc with saved continuations;
      coroutine/channel.cc with the waiting coroutines.
    - [Dns]: network/dns.cc, queries and answers.
    - [Pipe]: server/process.cc, worker.cc and reactor_thread.cc, the messages between
      processes.
    - [Sessions]: the session and connection lists of server/master.cc.
    - [Dispatch]: schedule_worker of server/master.cc and the dispatch of process.cc.
    - [ProcessPool], [Manager]: the supervision of os/process_pool.cc and server/manager.cc over a
      kernel of processes that exit, are waited for and forked again.
    - [File]: os/file.cc, whole-buffer transfers and the contents of a file.
    - [TaskWorker]: server/task_worker.cc, the worker loop of os/process_pool.cc, os/msg_queue.cc
      and network/stream.cc: tasks, their answers and the ways they travel.
    - [AsyncThreads]: os/async_thread.cc with async of coroutine/system.cc, the main thread and
      the pool's threads as interleaved steps over a heap of events.
    - [FileLock], [CoWait], [CoSystem]: coroutine/file_lock.cc, os/wait.cc and the waits of
      coroutine/system.cc, each call cut at its suspensions.

    ** How the code is modelled

    A C++ object is a record, an enum an inductive type, a pointer into an object an index
    or a location, [goto] labels are an inductive type with one step function, and an
    operation returns the new state.  The option monad carries the faults: [None] is a
    failed assertion, an access outside a block, a null or dangling pointer, or exhausted
    fuel, so a theorem that an operation returns [Some] excludes all of these.  Result codes
    and error returns are values inside [Some].  Machine integers wrap where the code's do
    ([u8] ... [i64]).  What the code takes from outside is a parameter: the contents of new
    memory ([fresh]), the kernel's answers to reads and sends, the callbacks, the clock.

    Loops that are not structural run on fuel.  The theorems state that the fuel suffices,
    not only what holds of a result: a bound linear in the bytes and events for the read
    handlers ([HttpPort], [Protocol]) and for the packets of a coroutine socket ([CoSocket]),
    the number of chunks left for chunked bodies, the
    length of the data for the chunks of a pipe message, the number of due timers and
    allowed calls for [select], the number of rows for the table.  Where the code itself can
    loop for ever this is a theorem too ([Http.chunked_length_loops],
    [Dns.name_pointer_loops], [Pipe.unknown_chunk_sticks]).

    ** What the theorems show

    - Refinement of an abstract data type for every sequence of calls: the heap is a
      priority queue (C1), the ring channel a bounded FIFO (C13), the table a finite map
      with iteration (C17, C18), the LRU cache an LRU list (C34), sessions a map that
      never confuses two connections (C14).
    - Safety: the files a request for a static file can reach (C15).
    - Memory: the fixed pool's exhaustion is exact (C2), the blocks of the global memory stay
      inside its pages and apart (C16), the ring buffer in a mapping with room
      for its excess length is a set of separate byte arrays (C19).
    - Equivalence with a plain definition: unrolled masking (C9), the meaning of the
      packed integers ([Pack]); the three event loops watch the same events (C7).
    - Supervision: a process pool and the manager of a server keep every worker alive through
      exits, reloads and messages (C6, C36).
    - Round trips: the SOCKS handshake, WebSocket frames, Base64, DNS names (C5,
      C10, C21, C26), the answers to tasks through messages and files (C35), Redis commands (C25); reassembly of fragments (C12).
    - Streams, whatever the network or the kernel does: packages by length and delimiter
      (C23, C24), the same for a coroutine that waits for them (C20), chunked bodies
      and pipelined requests of HTTP (C37, C39), the write path (C32), whole-buffer sends
      of a coroutine (C31), the output of a connection up to its close (C3), messages to and
      from the workers in any interleaving (C8, C40), the answers of a DNS server (C33).
    - Scheduling: timers fire when due, once and in order, unless a newer timer holds them up (C29); coroutines resume and yield
      as a stack and see the reason of their wake-up (C4, [Coroutine]); the coroutine channel loses
      no wake-up and never gets stuck (C27, C28); the choice of a worker (C30).
    - Concurrency: in every interleaving of the thread pool no event is lost, used after its
      deletion or returned twice, and the pool comes to rest with its queue empty (C38, C22);
      exclusive file locks are granted in order and nobody is stranded (C11); the waits of
      [CoWait] and [CoSystem] return once; the callbacks of a TCP client come in order ([Client]).
    - Defects, proved from the faithful definitions: the lemmas and examples that the
      findings of the manifest name.

    ** What the theorems assume

    The comment of each property names its conditions.  Lengths fit the fields that hold
    them (writes below 4 GiB, pages below 2 GiB), and the system is as good as the code takes
    it to be ([flock] and [fork] succeed, no process number is used twice, a pipe that is full
    is tried again).  Where the code itself does not check a condition, an example or a lemma
    shows what happens without it: [FixedPool.single_slice_alloc_faults] for C2,
    [Connection.data_behind_close] for C3, [Proxy.split_reply_refused] for C5,
    [Reactor.select_limit_off_by_one] for C7, [Pipe.last_chunk_refused] for C8 and C40,
    [FileLock.failed_lock_strands] for C11, [StaticHandler.index_name_overruns] for C15,
    [GlobalMemory.alloc_size_wraps] for C16, [RingBuffer.ring_overruns_block] for C19,
    [AsyncThreads.failed_pipe_dangles] for C22, [Timer.due_timer_waits] for C29,
    [Dispatch.idle_missed_at_wrap] for C30, [AsyncWrite.huge_write_cut] for C32,
    [Dns.rdata_overflows] for C33, [TaskWorker.stream_answer_leaves_file] for C35 and
    [Http.cut_size_line] for C37.

    ** What is not modelled

    System calls and the thin layers over them (most of src/src/os, lock/, the io_uring
    and kqueue loops).  TLS and DTLS
    (calls into OpenSSL), c-ares, brotli and zlib.  The PHP bindings (src/ext-src), which
    need the semantics of the PHP engine, and third-party code.  Allocation failure, and
    concurrent access to the shared-memory structures, which the code guards by locks.
    Datagrams, the blocking connect and the files of network/client.cc, network/stream.cc, the
    child's side of a fork and the user's hooks. *)

From stdpp Require Export base list gmap numbers option strings.
From Stdlib Require Export ZArith Lia ZifyNat.
From Stdlib Require String Ascii.
Open Scope Z_scope.

(** ** Result codes of include/openswoole.h *)

Definition OSW_OK : Z := 0.
Definition OSW_ERR : Z := -1.
Definition OSW_CONTINUE : Z := 1.
Definition OSW_WAIT : Z := 2.
Definition OSW_CLOSE : Z := 3.
Definition OSW_ERROR : Z := 4.
Definition OSW_READY : Z := 5.

(** ** Automation *)

(** Linear arithmetic with division and remainder by constants. *)
Ltac zdiv := Z.to_euclidean_division_equations; lia.
Ltac ndiv := zify; Z.to_euclidean_division_equations; lia.

(** Case analysis on every integer comparison the goal tests. *)
Ltac case_Z :=
  repeat match goal with
  | |- context [?x <? ?y] => destruct (Z.ltb_spec x y)
  | |- context [?x <=? ?y] => destruct (Z.leb_spec x y)
  | |- context [?x =? ?y] => destruct (Z.eqb_spec x y)
  | |- context [?x >? ?y] => rewrite (Z.gtb_ltb x y)
  | |- context [?x >=? ?y] => rewrite (Z.geb_leb x y)
  end.

(** Equality of concatenations up to association. *)
Ltac app_eq := repeat first [progress cbn [app] | rewrite <- app_assoc]; reflexivity.

Create HintDb osw discriminated.

(** ** Machine integers: a [w]-bit value is a [Z], wrap-around is explicit *)

Definition wrap (w z : Z) : Z := z mod 2 ^ w.
Definition swrap (w z : Z) : Z := (z + 2 ^ (w - 1)) mod 2 ^ w - 2 ^ (w - 1).

Definition u8 : Z → Z := wrap 8.
Definition u16 : Z → Z := wrap 16.
Definition u32 : Z → Z := wrap 32.
Definition u64 : Z → Z := wrap 64.
Definition i8 : Z → Z := swrap 8.
Definition i16 : Z → Z := swrap 16.
Definition i32 : Z → Z := swrap 32.
Definition i64 : Z → Z := swrap 64.

Lemma wrap_range w z : 0 <= w → 0 <= wrap w z < 2 ^ w.
Proof. intros. apply Z.mod_pos_bound. lia. Qed.

Lemma wrap_small w z : 0 <= z < 2 ^ w → wrap w z = z.
Proof. intros. by apply Z.mod_small. Qed.

Lemma swrap_small w z :
  1 <= w → - 2 ^ (w - 1) <= z < 2 ^ (w - 1) → swrap w z = z.
Proof.
  intros Hw Hz. unfold swrap.
  assert (2 ^ w = 2 * 2 ^ (w - 1)) as E.
  { rewrite <- Z.pow_succ_r by lia. f_equal. lia. }
  rewrite Z.mod_small; lia.
Qed.

Lemma swrap_range w z : 1 <= w → - 2 ^ (w - 1) <= swrap w z < 2 ^ (w - 1).
Proof.
  intros Hw. unfold swrap.
  assert (2 ^ w = 2 * 2 ^ (w - 1)) as E.
  { rewrite <- Z.pow_succ_r by lia. f_equal. lia. }
  pose proof (Z.mod_pos_bound (z + 2 ^ (w - 1)) (2 ^ w)).
  assert (0 < 2 ^ (w - 1)) by (apply Z.pow_pos_nonneg; lia). lia.
Qed.

Lemma u8_small z : 0 <= z < 256 → u8 z = z.
Proof. apply (wrap_small 8). Qed.
Lemma u16_small z : 0 <= z < 65536 → u16 z = z.
Proof. apply (wrap_small 16). Qed.
Lemma u32_small z : 0 <= z < 4294967296 → u32 z = z.
Proof. apply (wrap_small 32). Qed.
Lemma u64_small z : 0 <= z < 18446744073709551616 → u64 z = z.
Proof. apply (wrap_small 64). Qed.
Lemma i32_small z : -2147483648 <= z < 2147483648 → i32 z = z.
Proof. apply (swrap_small 32). lia. Qed.
Lemma i64_small z : -9223372036854775808 <= z < 9223372036854775808 → i64 z = z.
Proof. apply (swrap_small 64). lia. Qed.

(** [OSW_MEM_ALIGNED_SIZE(size)]: round up to a multiple of 8 ([sizeof(unsigned
    long)]), computed in 64 bits and truncated by the variable it is stored in. *)
Definition OSW_MEM_ALIGNED_SIZE (size : Z) : Z := Z.land (u64 (size + 7)) (u64 (Z.lnot 7)).

Lemma aligned_size_eq size :
  0 <= size < 2 ^ 64 - 7 → OSW_MEM_ALIGNED_SIZE size = 8 * ((size + 7) / 8).
Proof.
  intros H. unfold OSW_MEM_ALIGNED_SIZE. rewrite (u64_small (size + 7)) by lia.
  set (x := size + 7). assert (0 <= x < 2 ^ 64) by lia.
  replace (8 * (x / 8)) with (Z.shiftl (Z.shiftr x 3) 3)
    by (rewrite Z.shiftl_mul_pow2, Z.shiftr_div_pow2 by lia;
        change (2 ^ 3) with 8; lia).
  apply Z.bits_inj'. intros n Hn. unfold u64, wrap.
  rewrite Z.land_spec, Z.shiftl_spec by lia.
  destruct (Z.lt_ge_cases n 64) as [Hlt|Hge].
  - rewrite Z.mod_pow2_bits_low, Z.lnot_spec by lia.
    destruct (Z.lt_ge_cases n 3) as [Hl3|Hg3].
    + rewrite Z.testbit_neg_r with (n := n - 3) by lia.
      assert (n = 0 ∨ n = 1 ∨ n = 2) as [-> | [-> | ->]] by lia;
        by rewrite andb_comm.
    + rewrite Z.shiftr_spec by lia. replace (n - 3 + 3) with n by lia.
      assert (Z.testbit 7 n = false) as ->
        by (apply Z.bits_above_log2; [lia|change (Z.log2 7) with 2; lia]).
      by rewrite andb_true_r.
  - rewrite Z.mod_pow2_bits_high by lia. rewrite andb_false_r.
    rewrite Z.shiftr_spec by lia. symmetry. apply Z.bits_above_log2; [lia|].
    destruct (Z.eq_dec x 0) as [-> | ]; [change (Z.log2 0) with 0; lia|].
    apply Z.log2_lt_pow2; [lia|].
    apply Z.lt_le_trans with (2 ^ 64); [lia|]. apply Z.pow_le_mono_r; lia.
Qed.

Lemma aligned_size_bounds size :
  0 <= size < 2 ^ 64 - 7 → size <= OSW_MEM_ALIGNED_SIZE size < size + 8.
Proof. intros H. rewrite aligned_size_eq by done. zdiv. Qed.

(** ** Byte strings and a flat memory with checked accesses *)

Definition is_byte (b : Z) : Prop := 0 <= b < 256.
Abbreviation bytes := (list Z).
Abbreviation is_bytes := (Forall is_byte).

Definition zlen {A} (l : list A) : Z := Z.of_nat (length l).

(** A C string literal as its bytes, without the terminating NUL. *)
Definition lit (s : string) : bytes :=
  (λ a, Z.of_N (Ascii.N_of_ascii a)) <$> String.list_ascii_of_string s.

(** [memcpy] out of and into an object: [None] is an access out of bounds. *)
Definition load (m : bytes) (off len : Z) : option bytes :=
  if (0 <=? off) && (0 <=? len) && (off + len <=? zlen m)
  then Some (take (Z.to_nat len) (drop (Z.to_nat off) m)) else None.

Definition store (m : bytes) (off : Z) (bs : bytes) : option bytes :=
  if (0 <=? off) && (off + zlen bs <=? zlen m)
  then Some (take (Z.to_nat off) m ++ bs ++ drop (Z.to_nat off + length bs) m)
  else None.

(** [data[i]], reading past the end is [None]. *)
Definition at_ (m : bytes) (i : Z) : option Z :=
  if 0 <=? i then m !! Z.to_nat i else None.

Lemma zlen_app {A} (l k : list A) : zlen (l ++ k) = zlen l + zlen k.
Proof. unfold zlen. rewrite length_app. lia. Qed.

Lemma zlen_nonneg {A} (l : list A) : 0 <= zlen l.
Proof. unfold zlen. lia. Qed.

Lemma zlen_nil {A} : zlen (@nil A) = 0.
Proof. done. Qed.

Lemma zlen_cons {A} (x : A) l : zlen (x :: l) = 1 + zlen l.
Proof. unfold zlen. simpl length. lia. Qed.

Lemma zlen_0 {A} (l : list A) : zlen l = 0 → l = [].
Proof. destruct l; [done|]. rewrite zlen_cons. pose proof (zlen_nonneg l). lia. Qed.

Lemma zlen_pos {A} (l : list A) : l ≠ [] → 0 < zlen l.
Proof. destruct l; [done|]. rewrite zlen_cons. pose proof (zlen_nonneg l). lia. Qed.

(** [zl]: linear arithmetic over the lengths of lists. *)
Create HintDb zlen discriminated.
#[export] Hint Rewrite @zlen_nil @zlen_cons @zlen_app : zlen.
Ltac zl_nonneg :=
  repeat match goal with
  | |- context [zlen ?l] =>
    lazymatch goal with H : 0 <= zlen l |- _ => fail | _ => pose proof (zlen_nonneg l) end
  | _ : context [zlen ?l] |- _ =>
    lazymatch goal with H : 0 <= zlen l |- _ => fail | _ => pose proof (zlen_nonneg l) end
  end.
Ltac zl := autorewrite with zlen in *; zl_nonneg; lia.

Lemma load_Some m off len :
  0 <= off → 0 <= len → off + len <= zlen m →
  load m off len = Some (take (Z.to_nat len) (drop (Z.to_nat off) m)).
Proof. intros. unfold load. by rewrite !(proj2 (Z.leb_le _ _)) by lia. Qed.

Lemma load_is_Some m off len bs :
  load m off len = Some bs →
  0 <= off ∧ 0 <= len ∧ off + len <= zlen m ∧
  bs = take (Z.to_nat len) (drop (Z.to_nat off) m).
Proof.
  unfold load. destruct (_ && _) eqn:E; [|done]. intros [= <-].
  rewrite !andb_true_iff, !Z.leb_le in E. naive_solver.
Qed.

Lemma load_length m off len bs : load m off len = Some bs → zlen bs = len.
Proof.
  intros (?&?&?&->)%load_is_Some. unfold zlen in *.
  rewrite length_take, length_drop. lia.
Qed.

Lemma store_Some m off bs :
  0 <= off → off + zlen bs <= zlen m →
  store m off bs = Some (take (Z.to_nat off) m ++ bs ++ drop (Z.to_nat off + length bs) m).
Proof. intros. unfold store. by rewrite !(proj2 (Z.leb_le _ _)) by lia. Qed.

Lemma store_is_Some m off bs m' :
  store m off bs = Some m' →
  0 <= off ∧ off + zlen bs <= zlen m ∧
  m' = take (Z.to_nat off) m ++ bs ++ drop (Z.to_nat off + length bs) m.
Proof.
  unfold store. destruct (_ && _) eqn:E; [|done]. intros [= <-].
  rewrite !andb_true_iff, !Z.leb_le in E. naive_solver.
Qed.

Lemma store_length m off bs m' : store m off bs = Some m' → zlen m' = zlen m.
Proof.
  intros (?&?&->)%store_is_Some. unfold zlen in *.
  rewrite !length_app, length_take, length_drop. lia.
Qed.

(** A load of what was just stored returns it ... *)
Lemma load_store_same m off bs m' :
  store m off bs = Some m' → load m' off (zlen bs) = Some bs.
Proof.
  intros Hs. pose proof (store_length _ _ _ _ Hs) as Hl.
  apply store_is_Some in Hs as (?&?&->).
  rewrite load_Some by (try apply zlen_nonneg; lia). unfold zlen in *. f_equal.
  rewrite drop_app_length' by (rewrite length_take; lia).
  rewrite Nat2Z.id. by rewrite take_app_length.
Qed.

(** ... and a load of a disjoint range does not see the store. *)
Lemma load_store_other m off bs m' o n :
  store m off bs = Some m' → o + n <= off ∨ off + zlen bs <= o →
  load m' o n = load m o n.
Proof.
  intros Hs Hd. pose proof (store_length _ _ _ _ Hs) as Hl.
  unfold load. rewrite Hl.
  destruct ((0 <=? o) && (0 <=? n) && (o + n <=? zlen m)) eqn:E; [|done].
  rewrite !andb_true_iff, !Z.leb_le in E. f_equal.
  apply store_is_Some in Hs as (?&?&->). unfold zlen in *.
  apply list_eq. intros i. destruct (decide (i < Z.to_nat n)%nat);
    [|by rewrite !lookup_take_ge by lia].
  rewrite !lookup_take_lt, !lookup_drop by lia. destruct Hd as [Hd|Hd].
  - rewrite lookup_app_l by (rewrite length_take; lia).
    by rewrite lookup_take_lt by lia.
  - rewrite lookup_app_r by (rewrite length_take; lia).
    rewrite length_take, lookup_app_r by lia. rewrite lookup_drop. f_equal. lia.
Qed.

(** A load inside a loaded range. *)
Lemma load_sub m off len bs o n :
  load m off len = Some bs → 0 <= o → 0 <= n → o + n <= len →
  load m (off + o) n = Some (take (Z.to_nat n) (drop (Z.to_nat o) bs)).
Proof.
  intros (?&?&?&->)%load_is_Some ???. rewrite load_Some by lia. f_equal.
  rewrite skipn_firstn_comm, drop_drop, take_take. f_equal; [lia|f_equal; lia].
Qed.

Lemma at_bounds m i c : at_ m i = Some c → 0 <= i < zlen m.
Proof.
  unfold at_, zlen. destruct (Z.leb_spec 0 i); [|done]. intros E%lookup_lt_Some. lia.
Qed.

Lemma at_inside m i : 0 <= i < zlen m → ∃ c, at_ m i = Some c.
Proof.
  intros Hi. unfold at_, zlen in *. rewrite (proj2 (Z.leb_le _ _)) by lia.
  apply lookup_lt_is_Some_2. lia.
Qed.

Lemma at_prefix (pre : bytes) b suf : at_ (pre ++ b :: suf) (zlen pre) = Some b.
Proof.
  unfold at_. rewrite (proj2 (Z.leb_le _ _)) by apply zlen_nonneg.
  unfold zlen. rewrite Nat2Z.id. by rewrite lookup_app_r, Nat.sub_diag by lia.
Qed.

Lemma load_mid pre bs suf off n :
  off = zlen pre → n = zlen bs → load (pre ++ bs ++ suf) off n = Some bs.
Proof.
  intros -> ->. rewrite load_Some by (rewrite ?zlen_app; pose proof (zlen_nonneg pre);
    pose proof (zlen_nonneg bs); pose proof (zlen_nonneg suf); lia).
  unfold zlen. by rewrite !Nat2Z.id, drop_app_length, take_app_length.
Qed.

Lemma store_mid pre old suf off bs :
  off = zlen pre → length bs = length old →
  store (pre ++ old ++ suf) off bs = Some (pre ++ bs ++ suf).
Proof.
  intros -> Hl. rewrite store_Some.
  2: apply zlen_nonneg. 2: { rewrite !zlen_app. unfold zlen. lia. }
  unfold zlen. rewrite Nat2Z.id, take_app_length, drop_app_add, Hl. by rewrite drop_app_length.
Qed.

(** A store behind a known prefix. *)
Lemma store_behind pre tail bs : zlen bs <= zlen tail →
  store (pre ++ tail) (zlen pre) bs = Some (pre ++ bs ++ drop (length bs) tail).
Proof.
  intros Hl. rewrite <- (take_drop (length bs) tail) at 1. apply store_mid; [done|].
  rewrite length_take. unfold zlen in Hl. lia.
Qed.

Lemma at_take m k i : 0 <= i < Z.of_nat k → at_ (take k m) i = at_ m i.
Proof. intros Hi. unfold at_. case_Z; [|done]. apply lookup_take_lt. lia. Qed.

Lemma load_take m k o n :
  0 <= o → 0 <= n → o + n <= Z.of_nat k → o + n <= zlen m → load (take k m) o n = load m o n.
Proof.
  intros. rewrite !load_Some; try done.
  - f_equal. rewrite skipn_firstn_comm, take_take. f_equal. lia.
  - unfold zlen in *. rewrite length_take. lia.
Qed.

Lemma load_split m o n bs :
  load m o n = Some bs → ∃ pre suf, m = pre ++ bs ++ suf ∧ zlen pre = o ∧ zlen bs = n.
Proof.
  intros H. pose proof (load_length _ _ _ _ H) as Hl. apply load_is_Some in H as (?&?&?&->).
  exists (take (Z.to_nat o) m), (drop (Z.to_nat n) (drop (Z.to_nat o) m)).
  rewrite !take_drop. split; [done|]. split; [|done].
  unfold zlen in *. rewrite length_take. lia.
Qed.

(** A store inside a range, seen through the range. *)
Lemma load_store_inside m o n old off bs m' :
  load m o n = Some old → 0 <= off → off + zlen bs <= n → store m (o + off) bs = Some m' →
  load m' o n = store old off bs.
Proof.
  intros (pre & suf & -> & <- & <-)%load_split Hoff Hn Hs.
  destruct (store old off bs) as [new|] eqn:Ho; [|by rewrite store_Some in Ho by lia].
  pose proof (store_length _ _ _ _ Ho) as Hl.
  apply store_is_Some in Ho as (_ & _ & ->).
  set (x := take (Z.to_nat off) old) in *. set (z := drop (Z.to_nat off + length bs) old) in *.
  set (y := take (length bs) (drop (Z.to_nat off) old)).
  assert (old = x ++ y ++ z) as Eo.
  { unfold x, y, z. rewrite <- drop_drop, take_drop. by rewrite take_drop. }
  assert (zlen x = off) as Hx by (unfold x, zlen in *; rewrite length_take; lia).
  assert (length y = length bs) as Hy
    by (unfold y, zlen in *; rewrite length_take, length_drop; lia).
  rewrite Eo in Hs. replace (pre ++ (x ++ y ++ z) ++ suf) with ((pre ++ x) ++ y ++ (z ++ suf))
    in Hs by app_eq.
  rewrite store_mid in Hs by (try rewrite zlen_app; lia). simplify_eq.
  replace ((pre ++ x) ++ bs ++ z ++ suf) with (pre ++ (x ++ bs ++ z) ++ suf) by app_eq.
  apply load_mid; [done|lia].
Qed.

(** ** Runs and forward simulation *)

(** The results of an abstract machine given by a step relation ... *)
Inductive runs {A O R} (step : A → O → R → A → Prop) : A → list O → list R → A → Prop :=
  | runs_nil a : runs step a [] [] a
  | runs_cons a o r a' os rs a'' :
      step a o r a' → runs step a' os rs a'' → runs step a (o :: os) (r :: rs) a''.

(** ... and those of a concrete one given by a partial step function. *)
Fixpoint exec {C O R} (f : C → O → option (R * C)) (c : C) (os : list O) :
    option (list R * C) :=
  match os with
  | [] => Some ([], c)
  | o :: os =>
    rc ← f c o;
    let '(r, c) := rc in
    rest ← exec f c os;
    let '(rs, c) := rest in Some (r :: rs, c)
  end.

(** One matching step per operation gives matching runs: the concrete machine
    never gets stuck and every result is one the abstract machine allows. *)
Lemma exec_refines {C A O R} (f : C → O → option (R * C)) (step : A → O → R → A → Prop)
    (ok : O → Prop) (rel : C → A → Prop) :
  (∀ c a o, rel c a → ok o → ∃ r c' a', f c o = Some (r, c') ∧ rel c' a' ∧ step a o r a') →
  ∀ os c a, rel c a → Forall ok os →
  ∃ rs c' a', exec f c os = Some (rs, c') ∧ rel c' a' ∧ runs step a os rs a'.
Proof.
  intros Hstep os. induction os as [|o os IH]; intros c a Hr Ho; cbn [exec].
  - exists [], c, a. split; [done|]. split; [done|constructor].
  - apply Forall_cons in Ho as [Ho Hos]. destruct (Hstep c a o Hr Ho) as (r & c1 & a1 & -> & H1 & H2).
    cbn [mbind option_bind]. destruct (IH c1 a1 H1 Hos) as (rs & c2 & a2 & -> & H3 & H4).
    cbn [mbind option_bind]. do 3 eexists. split; [done|]. split; [done|by econstructor].
Qed.

(** ** Little- and big-endian encodings of [n]-byte integers *)

Fixpoint le_bytes (n : nat) (z : Z) : bytes :=
  match n with
  | O => []
  | S n => z mod 256 :: le_bytes n (z / 256)
  end.

Fixpoint le_val (bs : bytes) : Z :=
  match bs with
  | [] => 0
  | b :: bs => b + 256 * le_val bs
  end.

Definition be_bytes (n : nat) (z : Z) : bytes := reverse (le_bytes n z).
Definition be_val (bs : bytes) : Z := le_val (reverse bs).

Lemma le_bytes_length n z : length (le_bytes n z) = n.
Proof. revert z. induction n; intros; simpl; auto. Qed.

Lemma le_bytes_is_bytes n z : is_bytes (le_bytes n z).
Proof.
  revert z. induction n; intros; simpl; constructor; auto.
  unfold is_byte. apply Z.mod_pos_bound. lia.
Qed.

Lemma le_val_bytes n z : le_val (le_bytes n z) = z mod 256 ^ Z.of_nat n.
Proof.
  revert z. induction n as [|n IH]; intros z; simpl le_bytes; simpl le_val.
  - by rewrite Z.mod_1_r.
  - rewrite IH, Nat2Z.inj_succ, Z.pow_succ_r by lia.
    rewrite Z.rem_mul_r by (try apply Z.pow_nonzero; lia). lia.
Qed.

Lemma le_val_bound bs : is_bytes bs → 0 <= le_val bs < 256 ^ zlen bs.
Proof.
  unfold zlen. induction 1 as [|b bs Hb _ IH]; cbn [le_val length].
  - cbn. lia.
  - rewrite Nat2Z.inj_succ, Z.pow_succ_r by lia. unfold is_byte in Hb. lia.
Qed.

Lemma le_bytes_val bs : is_bytes bs → le_bytes (length bs) (le_val bs) = bs.
Proof.
  induction 1 as [|b bs Hb _ IH]; [done|]. cbn [length le_bytes le_val].
  unfold is_byte in Hb. f_equal.
  - rewrite Z.mul_comm, Z.mod_add by lia. by apply Z.mod_small.
  - rewrite Z.mul_comm, Z.div_add, Z.div_small by lia. by rewrite Z.add_0_l.
Qed.

Lemma be_val_bytes n z : be_val (be_bytes n z) = z mod 256 ^ Z.of_nat n.
Proof. unfold be_val, be_bytes. by rewrite reverse_involutive, le_val_bytes. Qed.

Lemma be_bytes_length n z : length (be_bytes n z) = n.
Proof. unfold be_bytes. by rewrite length_reverse, le_bytes_length. Qed.

Lemma be_bytes_is_bytes n z : is_bytes (be_bytes n z).
Proof. apply Forall_reverse, le_bytes_is_bytes. Qed.

Lemma be_val_bound bs : is_bytes bs → 0 <= be_val bs < 256 ^ zlen bs.
Proof.
  intros H%Forall_reverse. apply le_val_bound in H. unfold zlen in *.
  by rewrite length_reverse in H.
Qed.

(** The C string at the start of an array; [None] runs past its end. *)
Fixpoint cstr (m : bytes) : option bytes :=
  match m with
  | [] => None
  | c :: m => if c =? 0 then Some [] else s ← cstr m; Some (c :: s)
  end.

Lemma cstr_nul s r : 0 ∉ s → cstr (s ++ 0 :: r) = Some s.
Proof.
  induction s as [|c s IH]; intros Hs; cbn; [done|]. apply not_elem_of_cons in Hs as [Hc Hs].
  rewrite (proj2 (Z.eqb_neq c 0)) by congruence. by rewrite IH.
Qed.
