(* ===== verification/Heap.v ===== *)
(** * Binary heap: src/core/heap.cc, include/openswoole_heap.h

    The array of node pointers is a map from indices to pointers (an index that
    was never written is absent), the [HeapNode] objects live in a store, and
    every node records its own index in [position], as in the source.  An
    operation returns [None] when it would read an uninitialised slot, follow a
    dangling pointer or write outside the allocated array. *)

From S2P Require Import Prelude.

Inductive Type_ := MIN_HEAP | MAX_HEAP.

(** [struct HeapNode]; [data] is the user's pointer. *)
Record HeapNode := MkNode { priority : Z; position : Z; data : Z }.

(** [class Heap]: [size] slots are allocated, [1 .. num - 1] are used. *)
Record Heap := MkHeap {
  num : Z; hsize : Z; type : Type_;
  nodes : gmap Z positive; store : gmap positive HeapNode }.

Definition set_pos (n : HeapNode) (i : Z) : HeapNode :=
  MkNode (priority n) i (data n).
Definition set_pri (n : HeapNode) (p : Z) : HeapNode :=
  MkNode p (position n) (data n).

Definition left (i : Z) : Z := u32 (Z.shiftl i 1).
Definition parent (i : Z) : Z := Z.shiftr i 1.

Definition make (n : Z) (t : Type_) : Heap := MkHeap 1 (u32 (n + 1)) t ∅ ∅.

Definition count (h : Heap) : Z := u32 (num h - 1).

Definition compare (t : Type_) (a b : Z) : bool :=
  match t with MIN_HEAP => a >? b | MAX_HEAP => a <? b end.

(** [nodes[i]] and [nodes[i]->priority]. *)
Definition node_at (h : Heap) (i : Z) : option positive :=
  if i <? hsize h then nodes h !! i else None.
Definition pri_of (h : Heap) (l : positive) : option Z := priority <$> store h !! l.

(** [nodes[i] = l; nodes[i]->position = i;] *)
Definition put (h : Heap) (i : Z) (l : positive) : option Heap :=
  n ← store h !! l;
  if (0 <=? i) && (i <? hsize h)
  then Some (MkHeap (num h) (hsize h) (type h) (<[i := l]> (nodes h))
                    (<[l := set_pos n i]> (store h)))
  else None.

Definition maxchild (h : Heap) (i : Z) : option Z :=
  let child_i := left i in
  if child_i >=? num h then Some 0 else
  child_node ← node_at h child_i;
  p ← pri_of h child_node;
  if child_i + 1 <? num h then
    sibling ← node_at h (child_i + 1);
    q ← pri_of h sibling;
    Some (if compare (type h) p q then child_i + 1 else child_i)
  else Some child_i.

Fixpoint bubble_up_loop (fuel : nat) (h : Heap) (i : Z) (moving : positive) : option Heap :=
  match fuel with
  | O => None
  | S fuel =>
    if i >? 1 then
      up ← node_at h (parent i);
      p ← pri_of h up;
      m ← pri_of h moving;
      if compare (type h) p m
      then h' ← put h i up; bubble_up_loop fuel h' (parent i) moving
      else put h i moving
    else put h i moving
  end.

Definition bubble_up (h : Heap) (i : Z) : option Heap :=
  moving ← node_at h i; bubble_up_loop (S (Z.to_nat i)) h i moving.

Fixpoint percolate_down_loop (fuel : nat) (h : Heap) (i : Z) (moving : positive) : option Heap :=
  match fuel with
  | O => None
  | S fuel =>
    child_i ← maxchild h i;
    if child_i =? 0 then put h i moving else
    child ← node_at h child_i;
    m ← pri_of h moving;
    c ← pri_of h child;
    if compare (type h) m c
    then h' ← put h i child; percolate_down_loop fuel h' child_i moving
    else put h i moving
  end.

Definition percolate_down (h : Heap) (i : Z) : option Heap :=
  moving ← node_at h i; percolate_down_loop (S (Z.to_nat (num h))) h i moving.

(** [push]: [realloc_ok] is the answer of [osw_realloc]; the new node is the
    fresh pointer [l] that [new] returns.  The result is the returned pointer. *)
Definition push (h : Heap) (realloc_ok : bool) (l : positive) (p : Z) (d : Z) :
    option (option positive * Heap) :=
  let grow := num h >=? hsize h in
  if grow && negb realloc_ok then Some (None, h) else
  let size' := if grow then u32 (hsize h * 2) else hsize h in
  let i := num h in
  if (i <? size') then
    let h1 := MkHeap (u32 (num h + 1)) size' (type h) (<[i := l]> (nodes h))
                     (<[l := MkNode p 0 d]> (store h)) in
    h2 ← bubble_up h1 i; Some (Some l, h2)
  else None.

Definition change_priority (h : Heap) (new_priority : Z) (l : positive) : option Heap :=
  n ← store h !! l;
  let h1 := MkHeap (num h) (hsize h) (type h) (nodes h)
                   (<[l := set_pri n new_priority]> (store h)) in
  if compare (type h) (priority n) new_priority
  then bubble_up h1 (position n) else percolate_down h1 (position n).

(** [delete node]: the object leaves the store. *)
Definition free_node (h : Heap) (l : positive) : Heap :=
  MkHeap (num h) (hsize h) (type h) (nodes h) (delete l (store h)).

(** [nodes[pos] = nodes[--num];] *)
Definition move_last (h : Heap) (pos : Z) : option Heap :=
  let num' := u32 (num h - 1) in
  last ← node_at h num';
  if (0 <=? pos) && (pos <? hsize h)
  then Some (MkHeap num' (hsize h) (type h) (<[pos := last]> (nodes h)) (store h))
  else None.

Definition remove (h : Heap) (l : positive) : option Heap :=
  n ← store h !! l;
  let pos := position n in
  h1 ← move_last h pos;
  m ← node_at h1 pos;
  q ← pri_of h1 m;
  h2 ← (if compare (type h) (priority n) q then bubble_up h1 pos else percolate_down h1 pos);
  Some (free_node h2 l).

Definition pop (h : Heap) : option (option Z * Heap) :=
  if count h =? 0 then Some (None, h) else
  head ← node_at h 1;
  h1 ← move_last h 1;
  h2 ← percolate_down h1 1;
  n ← store h2 !! head;
  Some (Some (data n), free_node h2 head).

Definition top (h : Heap) : option (option positive) :=
  if num h =? 1 then Some None else Some <$> node_at h 1.

Definition peek (h : Heap) : option (option Z) :=
  if num h =? 1 then Some None else
  l ← node_at h 1; n ← store h !! l; Some (Some (data n)).

(** ** The order on priorities and the array lemmas *)

Definition le (t : Type_) (a b : Z) : Prop := compare t a b = false.

Lemma le_spec t a b :
  le t a b ↔ match t with MIN_HEAP => a <= b | MAX_HEAP => b <= a end.
Proof. unfold le, compare. destruct t; lia. Qed.

Lemma le_refl t a : le t a a.
Proof. rewrite le_spec. destruct t; lia. Qed.

Lemma le_trans t a b c : le t a b → le t b c → le t a c.
Proof. rewrite !le_spec. destruct t; lia. Qed.

Lemma compare_le t a b : compare t a b = true → le t b a.
Proof. rewrite le_spec. unfold compare. destruct t; lia. Qed.

#[local] Hint Resolve le_refl compare_le : osw.

Lemma parent_div i : parent i = i / 2.
Proof. unfold parent. by rewrite Z.shiftr_div_pow2 by lia. Qed.

Lemma left_small i : 0 <= i < 2147483648 → left i = 2 * i.
Proof.
  intros. unfold left. rewrite Z.shiftl_mul_pow2 by lia. rewrite u32_small; lia.
Qed.

Lemma parent_iff i k : 1 <= i → parent k = i ↔ k = 2 * i ∨ k = 2 * i + 1.
Proof. intros. rewrite parent_div. zdiv. Qed.

Lemma parent_range k : 2 <= k → 1 <= parent k < k.
Proof. intros. rewrite parent_div. zdiv. Qed.

(** Heap order of the priorities [v] at the indices [1 .. n - 1]. *)
Definition ordered (t : Type_) (v : Z → Z) (n : Z) : Prop :=
  ∀ k, 2 <= k < n → le t (v (parent k)) (v k).

Definition swapv (v : Z → Z) (i j k : Z) : Z :=
  if k =? i then v j else if k =? j then v i else v k.

(** Order up to the edge above [i] (while a node moves up) and up to the edges
    below [i] (while it moves down). *)
Definition ord_up (t : Type_) (v : Z → Z) (n i : Z) : Prop :=
  (∀ k, 2 <= k < n → k ≠ i → le t (v (parent k)) (v k)) ∧
  (2 <= i → ∀ c, 2 <= c < n → parent c = i → le t (v (parent i)) (v c)).

Definition ord_down (t : Type_) (v : Z → Z) (n i : Z) : Prop :=
  (∀ k, 2 <= k < n → parent k ≠ i → le t (v (parent k)) (v k)) ∧
  (2 <= i → ∀ c, 2 <= c < n → parent c = i → le t (v (parent i)) (v c)).

Lemma ord_up_done t v n i :
  1 <= i → ord_up t v n i → (2 <= i → le t (v (parent i)) (v i)) → ordered t v n.
Proof.
  intros ? [H1 _] H2 k Hk. destruct (decide (k = i)) as [->|]; [apply H2|apply H1]; lia || done.
Qed.

Lemma ord_up_step t v n i :
  2 <= i < n → ord_up t v n i → compare t (v (parent i)) (v i) = true →
  ord_up t (swapv v i (parent i)) n (parent i).
Proof.
  intros Hi [H1 H2] Hc%compare_le. pose proof (parent_range i ltac:(lia)).
  split.
  - intros k Hk Hne. unfold swapv. destruct (Z.eqb_spec k i) as [Hki|Hki].
    { rewrite Hki. case_Z; try lia. done. }
    rewrite (proj2 (Z.eqb_neq k (parent i))) by lia.
    destruct (Z.eqb_spec (parent k) i) as [Hp|Hp]; [apply H2; lia|].
    destruct (Z.eqb_spec (parent k) (parent i)) as [Hp'|]; [|by apply H1].
    eapply le_trans; [exact Hc|]. rewrite <- Hp'. by apply H1.
  - intros Hpi c Hc' Hpc. pose proof (parent_range (parent i) Hpi). unfold swapv.
    pose proof (parent_range c ltac:(lia)).
    rewrite (proj2 (Z.eqb_neq (parent (parent i)) i)) by lia.
    rewrite (proj2 (Z.eqb_neq (parent (parent i)) (parent i))) by lia.
    destruct (Z.eqb_spec c i) as [Hci|Hci]; [apply H1; lia|].
    rewrite (proj2 (Z.eqb_neq c (parent i))) by lia.
    eapply le_trans; [apply (H1 (parent i)); lia|]. rewrite <- Hpc. apply H1; lia.
Qed.

Lemma ord_down_done t v n i :
  1 <= i → ord_down t v n i → (∀ c, 2 <= c < n → parent c = i → le t (v i) (v c)) →
  ordered t v n.
Proof.
  intros ? [H1 _] H2 k Hk. destruct (decide (parent k = i)) as [<-|]; auto.
Qed.

Lemma ord_down_step t v n i j :
  1 <= i → 2 <= j < n → parent j = i → ord_down t v n i →
  compare t (v i) (v j) = true →
  (∀ c, 2 <= c < n → parent c = i → le t (v j) (v c)) →
  ord_down t (swapv v i j) n j.
Proof.
  intros Hi Hj Hpj [H1 H2] Hc%compare_le Hmin. pose proof (parent_range j ltac:(lia)).
  split.
  - intros k Hk Hne. pose proof (parent_range k ltac:(lia)). unfold swapv.
    rewrite (proj2 (Z.eqb_neq (parent k) j)) by done.
    destruct (Z.eqb_spec (parent k) i) as [Hp|Hp].
    + rewrite (proj2 (Z.eqb_neq k i)) by lia.
      destruct (Z.eqb_spec k j); [done|]. by apply Hmin.
    + rewrite (proj2 (Z.eqb_neq k j)) by (intros ->; done).
      destruct (Z.eqb_spec k i) as [Hki|]; [|by apply H1].
      rewrite Hki. apply H2; lia.
  - intros _ c Hcn Hpc. pose proof (parent_range c ltac:(lia)). unfold swapv.
    rewrite Hpj, Z.eqb_refl, !(proj2 (Z.eqb_neq c _)) by lia.
    rewrite <- Hpc. apply H1; lia.
Qed.

(** Replacing the priority at [i] breaks the order on one side only. *)
Definition repl (v : Z → Z) (i x k : Z) : Z := if k =? i then x else v k.

Lemma ord_up_repl t v n i x :
  ordered t v n → 1 <= i → le t x (v i) → ord_up t (repl v i x) n i.
Proof.
  intros Hord Hi Hx. unfold repl. split.
  - intros k Hk Hne. rewrite (proj2 (Z.eqb_neq k i)) by done.
    destruct (Z.eqb_spec (parent k) i) as [<-|]; [|by apply Hord].
    eapply le_trans; [exact Hx|by apply Hord].
  - intros H2 c Hc Hp. pose proof (parent_range i H2). pose proof (parent_range c ltac:(lia)).
    rewrite !(proj2 (Z.eqb_neq _ _)) by lia.
    eapply le_trans; [apply (Hord i); lia|]. rewrite <- Hp. by apply Hord.
Qed.

Lemma ord_down_repl t v n i x :
  ordered t v n → 1 <= i → i < n → le t (v i) x → ord_down t (repl v i x) n i.
Proof.
  intros Hord Hi Hin Hx. unfold repl. split.
  - intros k Hk Hne. rewrite (proj2 (Z.eqb_neq (parent k) i)) by done.
    destruct (Z.eqb_spec k i) as [->|]; [|by apply Hord].
    eapply le_trans; [by apply Hord|exact Hx].
  - intros H2 c Hc Hp. pose proof (parent_range i H2). pose proof (parent_range c ltac:(lia)).
    rewrite !(proj2 (Z.eqb_neq _ _)) by lia.
    eapply le_trans; [apply (Hord i); lia|]. rewrite <- Hp. by apply Hord.
Qed.

Lemma ord_up_ext t v v' n i :
  1 <= i < n → (∀ k, 1 <= k < n → v' k = v k) → ord_up t v n i → ord_up t v' n i.
Proof.
  intros Hi Hv [H1 H2]. split.
  - intros k ? ?. pose proof (parent_range k ltac:(lia)). rewrite !Hv by lia. auto.
  - intros H c ? ?. pose proof (parent_range i H). rewrite !Hv by lia. auto.
Qed.

Lemma ord_down_ext t v v' n i :
  1 <= i < n → (∀ k, 1 <= k < n → v' k = v k) → ord_down t v n i → ord_down t v' n i.
Proof.
  intros Hi Hv [H1 H2]. split.
  - intros k ? ?. pose proof (parent_range k ltac:(lia)). rewrite !Hv by lia. auto.
  - intros H c ? ?. pose proof (parent_range i H). rewrite !Hv by lia. auto.
Qed.

Lemma ordered_mono t v n n' : n' <= n → ordered t v n → ordered t v n'.
Proof. intros ? H k ?. apply H. lia. Qed.

(** ** The representation invariant *)

(** The pointers of [1 .. num - 1] and the nodes of the store are in bijection
    through [position]; [g] is a node being deleted, no longer in the array. *)
Record wf_but (g : option positive) (h : Heap) : Prop := {
  wf_num : 1 <= num h <= hsize h;
  wf_size : hsize h < 4294967296;
  wf_max : num h <= 2147483648;
  wf_slot : ∀ i, 1 <= i < num h → ∃ l n,
    nodes h !! i = Some l ∧ store h !! l = Some n ∧ position n = i ∧ Some l ≠ g;
  wf_back : ∀ l n, store h !! l = Some n → Some l ≠ g →
    1 <= position n < num h ∧ nodes h !! position n = Some l }.

Abbreviation wf := (wf_but None).

(** The priority at an index, and the abstract content: pointer to (priority, data). *)
Definition val (h : Heap) (k : Z) : Z :=
  default 0 (l ← nodes h !! k; pri_of h l).
Definition content (h : Heap) : gmap positive (Z * Z) :=
  (λ n, (priority n, data n)) <$> store h.

(** The full invariant. *)
Definition heap_inv (h : Heap) : Prop := wf h ∧ ordered (type h) (val h) (num h).

Lemma node_at_slot g h i :
  wf_but g h → 1 <= i < num h → ∃ l n,
    node_at h i = Some l ∧ nodes h !! i = Some l ∧ store h !! l = Some n ∧
    position n = i ∧ Some l ≠ g ∧ val h i = priority n.
Proof.
  intros Hwf Hi. destruct (wf_slot _ _ Hwf i Hi) as (l&n&Hl&Hn&Hp&Hg).
  exists l, n. pose proof (wf_num _ _ Hwf). unfold node_at, val, pri_of.
  rewrite (proj2 (Z.ltb_lt _ _)) by lia. rewrite Hl. simpl. rewrite Hn. naive_solver.
Qed.

Lemma put_Some h i l n :
  store h !! l = Some n → 0 <= i < hsize h →
  put h i l = Some (MkHeap (num h) (hsize h) (type h) (<[i := l]> (nodes h))
                           (<[l := set_pos n i]> (store h))).
Proof.
  intros Hn Hi. unfold put. rewrite Hn. simpl.
  by rewrite (proj2 (Z.leb_le _ _)), (proj2 (Z.ltb_lt _ _)) by lia.
Qed.

Lemma put_is_Some h i l h' :
  put h i l = Some h' → ∃ n, store h !! l = Some n ∧ 0 <= i < hsize h ∧
    h' = MkHeap (num h) (hsize h) (type h) (<[i := l]> (nodes h))
                (<[l := set_pos n i]> (store h)).
Proof.
  unfold put. intros (n&Hn&Hh)%bind_Some. exists n.
  destruct (_ && _) eqn:E; [|done]. simplify_eq. split_and!; try done; lia.
Qed.

Lemma put_content h i l h' : put h i l = Some h' → content h' = content h.
Proof.
  intros (n&Hn&_&->)%put_is_Some. unfold content. simpl. rewrite fmap_insert. simpl.
  apply insert_id. by rewrite lookup_fmap, Hn.
Qed.

(** Exchanging the places of two nodes keeps the bijection. *)
Lemma wf_swap g F i j m nm a na :
  wf_but g F → i ≠ j →
  nodes F !! i = Some m → store F !! m = Some nm → position nm = i → Some m ≠ g →
  nodes F !! j = Some a → store F !! a = Some na → position na = j → Some a ≠ g →
  1 <= i < num F → 1 <= j < num F →
  wf_but g (MkHeap (num F) (hsize F) (type F) (<[j := m]> (<[i := a]> (nodes F)))
                   (<[m := set_pos nm j]> (<[a := set_pos na i]> (store F)))).
Proof.
  intros Hwf Hij Hmi Hm Hpm Hmg Haj Ha Hpa Hag Hi Hj.
  assert (m ≠ a) as Hma by (intros ->; simplify_eq).
  destruct Hwf as [Hn Hs Hmx Hslot Hback]. constructor; simpl; try done.
  - intros k Hk. destruct (decide (k = j)) as [->|Hkj].
    { exists m, (set_pos nm j). by rewrite !lookup_insert_eq. }
    rewrite lookup_insert_ne by done. destruct (decide (k = i)) as [->|Hki].
    { exists a, (set_pos na i). rewrite lookup_insert_eq.
      by rewrite lookup_insert_ne, lookup_insert_eq by done. }
    rewrite lookup_insert_ne by done.
    destruct (Hslot k Hk) as (l&n&Hl&Hn'&Hp&Hg). exists l, n.
    by rewrite !lookup_insert_ne by congruence.
  - intros l n. destruct (decide (l = m)) as [->|Hlm].
    { rewrite lookup_insert_eq. intros [= <-] _. simpl. by rewrite lookup_insert_eq. }
    rewrite lookup_insert_ne by done. destruct (decide (l = a)) as [->|Hla].
    { rewrite lookup_insert_eq. intros [= <-] _. simpl.
      by rewrite lookup_insert_ne, lookup_insert_eq by done. }
    rewrite lookup_insert_ne by done. intros Hl Hg.
    destruct (Hback l n Hl Hg) as [? Hln]. split; [done|].
    by rewrite !lookup_insert_ne by congruence.
Qed.

Lemma val_swap F i j m nm a na k :
  i ≠ j → m ≠ a →
  nodes F !! i = Some m → store F !! m = Some nm →
  nodes F !! j = Some a → store F !! a = Some na →
  val (MkHeap (num F) (hsize F) (type F) (<[j := m]> (<[i := a]> (nodes F)))
              (<[m := set_pos nm j]> (<[a := set_pos na i]> (store F)))) k
  = swapv (val F) i j k.
Proof.
  intros Hij Hma Hmi Hm Haj Ha. unfold val, swapv, pri_of. simpl.
  destruct (Z.eqb_spec k i) as [->|].
  { rewrite lookup_insert_ne, lookup_insert_eq by done. simpl.
    rewrite lookup_insert_ne, lookup_insert_eq by done. by rewrite Haj; simpl; rewrite Ha. }
  destruct (Z.eqb_spec k j) as [->|].
  { rewrite lookup_insert_eq. simpl. rewrite lookup_insert_eq.
    by rewrite Hmi; simpl; rewrite Hm. }
  rewrite !lookup_insert_ne by done. destruct (nodes F !! k) as [l|]; [simpl|done].
  rewrite !lookup_insert. repeat case_decide; simplify_eq; simpl; by simplify_map_eq.
Qed.

(** Filling the hole of a well-formed heap: the shape both loops rely on.  In a
    state [h] whose virtual completion [put h i m] is the well-formed [F], moving
    the pointer at [j] into the hole [i] leaves a hole at [j] whose completion is
    [F] with the two priorities exchanged. *)
Lemma put_move g h i j m F :
  put h i m = Some F → wf_but g F → 1 <= i < num h → 1 <= j < num h → i ≠ j →
  ∃ a h' F', node_at h j = Some a ∧ pri_of h a = Some (val F j) ∧
    put h i a = Some h' ∧ put h' j m = Some F' ∧ wf_but g F' ∧
    num h' = num h ∧ hsize h' = hsize h ∧ type h' = type h ∧
    content F' = content F ∧ ∀ k, val F' k = swapv (val F) i j k.
Proof.
  intros Hput Hwf Hi Hj Hij. pose proof Hput as (nm&Hm&Hb&HF)%put_is_Some.
  assert (num F = num h ∧ hsize F = hsize h) as [HnF HsF] by (by subst).
  destruct (node_at_slot g F i) as (m'&nm'&_&Hmi&Hm'&_&Hmg&Hvi); [done|lia|].
  destruct (node_at_slot g F j) as (a&na&Haj&Hnj&Ha&Hpa&Hag&Hvj); [done|lia|].
  assert (m' = m) as ->. { subst F. simpl in Hmi. rewrite lookup_insert_eq in Hmi. congruence. }
  assert (a ≠ m) as Ham.
  { intros ->. subst F. simpl in *. rewrite lookup_insert_eq in Ha. by simplify_eq. }
  assert (nodes h !! j = Some a) as Hhj.
  { subst F. simpl in Hnj. by rewrite lookup_insert_ne in Hnj by done. }
  assert (store h !! a = Some na) as Hha.
  { subst F. simpl in Ha. by rewrite lookup_insert_ne in Ha by done. }
  pose proof (wf_num _ _ Hwf).
  set (F' := MkHeap (num F) (hsize F) (type F) (<[j := m]> (<[i := a]> (nodes F)))
              (<[m := set_pos nm' j]> (<[a := set_pos na i]> (store F)))).
  set (h' := MkHeap (num h) (hsize h) (type h) (<[i := a]> (nodes h))
                    (<[a := set_pos na i]> (store h))).
  assert (put h' j m = Some F') as HF'.
  { rewrite (put_Some h' j m nm) by (simpl; rewrite ?lookup_insert_ne; done || lia).
    subst F' h' F. simpl in *. rewrite lookup_insert_eq in Hm'. simplify_eq. f_equal. f_equal.
    - by rewrite insert_insert_eq.
    - by rewrite (insert_insert_ne _ a m), insert_insert_eq by done. }
  assert (put h i a = Some h') as Hh' by (apply put_Some; [done|lia]).
  exists a, h', F'. split_and!; try done.
  - unfold node_at. by rewrite (proj2 (Z.ltb_lt _ _)) by lia.
  - unfold pri_of. rewrite Hha. simpl. by rewrite Hvj.
  - eapply wf_swap; try done; [|lia..].
    subst F. simpl in Hm'. rewrite lookup_insert_eq in Hm'. by simplify_eq.
  - by rewrite (put_content _ _ _ _ HF'), (put_content _ _ _ _ Hput), (put_content _ _ _ _ Hh').
  - intros k. by eapply val_swap.
Qed.

(** What a sift returns: a well-formed, ordered heap with the same nodes. *)
Definition sifted (g : option positive) (h F h' : Heap) : Prop :=
  wf_but g h' ∧ ordered (type h) (val h') (num h) ∧ content h' = content F ∧
  num h' = num h ∧ hsize h' = hsize h ∧ type h' = type h.

Lemma put_frame h i m F :
  put h i m = Some F → num F = num h ∧ hsize F = hsize h ∧ type F = type h.
Proof. by intros (?&_&_&->)%put_is_Some. Qed.

(** The moving node sits at [i] in the completion. *)
Lemma put_moving h i m F : put h i m = Some F → pri_of h m = Some (val F i).
Proof.
  intros (n&Hn&_&->)%put_is_Some. unfold pri_of, val. simpl.
  rewrite Hn, lookup_insert_eq. simpl. unfold pri_of. simpl. by rewrite lookup_insert_eq.
Qed.

Lemma put_sifted g h i m F :
  put h i m = Some F → wf_but g F → ordered (type h) (val F) (num h) → sifted g h F F.
Proof. intros (?&?&?)%put_frame ??. done. Qed.

Lemma sifted_trans g h h1 F F1 h' :
  num h1 = num h → hsize h1 = hsize h → type h1 = type h → content F1 = content F →
  sifted g h1 F1 h' → sifted g h F h'.
Proof.
  intros Hn Hs Ht Hc (?&Ho&?&?&?&?). rewrite Hn, Ht in Ho.
  split; [done|]. split_and!; done || congruence.
Qed.

Lemma bubble_up_loop_spec g fuel h i m F :
  put h i m = Some F → wf_but g F → 1 <= i < num h →
  ord_up (type h) (val F) (num h) i → (Z.to_nat i < fuel)%nat →
  ∃ h', bubble_up_loop fuel h i m = Some h' ∧ sifted g h F h'.
Proof.
  revert h i F. induction fuel as [|fuel IH]; intros h i F Hput Hwf Hi Hord Hfuel; [lia|].
  simpl. rewrite Z.gtb_ltb. destruct (Z.ltb_spec 1 i) as [Hi1|Hi1].
  2: { exists F. split; [done|]. apply (put_sifted _ _ _ _ _ Hput); [done|].
       apply (ord_up_done _ _ _ i); [lia|done|lia]. }
  pose proof (parent_range i ltac:(lia)).
  destruct (put_move g h i (parent i) m F) as (a&h'&F'&Ha&Hpa&Hh'&HF'&Hwf'&Hn&Hs&Ht&Hc&Hv);
    [done|done|lia|lia|lia|].
  rewrite Ha. simpl. rewrite Hpa, (put_moving _ _ _ _ Hput). simpl.
  destruct (compare _ _ _) eqn:Hcmp.
  - rewrite Hh'. simpl. destruct (IH h' (parent i) F') as (h''&Hl&Hsif); try done; try lia.
    + rewrite Hn, Ht. apply (ord_up_step _ _ (num h)) in Hcmp; [|lia|done].
      destruct Hcmp as [C1 C2]. split; intros; rewrite !Hv; auto.
    + exists h''. split; [done|]. by eapply sifted_trans.
  - exists F. split; [done|]. apply (put_sifted _ _ _ _ _ Hput); [done|].
    apply (ord_up_done _ _ _ i); [lia|done|]. by intros.
Qed.

(** [maxchild] finds the child that must come first, or 0 when there is none. *)
Lemma maxchild_spec g h i m F :
  put h i m = Some F → wf_but g F → 1 <= i < num h →
  ∃ c, maxchild h i = Some c ∧
    (c = 0 ∧ (∀ k, 2 <= k < num h → parent k ≠ i) ∨
     2 <= c < num h ∧ parent c = i ∧
     ∀ k, 2 <= k < num h → parent k = i → le (type h) (val F c) (val F k)).
Proof.
  intros Hput Hwf Hi. destruct (put_frame _ _ _ _ Hput) as (Hn&Hs&Ht).
  pose proof (wf_max _ _ Hwf). unfold maxchild. rewrite left_small by lia.
  rewrite Z.geb_leb. destruct (Z.leb_spec (num h) (2 * i)) as [Hc|Hc].
  { exists 0. split; [done|]. left. split; [done|]. intros k Hk. rewrite parent_iff by lia. lia. }
  destruct (put_move g h i (2 * i) m F) as (a&_&_&Ha&Hpa&_); try done; try lia.
  rewrite Ha. simpl. rewrite Hpa. simpl. destruct (Z.ltb_spec (2 * i + 1) (num h)) as [Hc'|Hc'].
  - destruct (put_move g h i (2 * i + 1) m F) as (b&_&_&Hb&Hpb&_); try done; try lia.
    rewrite Hb. simpl. rewrite Hpb. simpl. eexists. split; [done|]. right.
    destruct (compare _ _ _) eqn:E; rewrite parent_iff by lia;
      (split_and!; [lia..|]); intros k Hk [-> | ->]%parent_iff; auto with osw; lia.
  - exists (2 * i). split; [done|]. right. rewrite parent_iff by lia. split_and!; [lia..|].
    intros k Hk [-> | ->]%parent_iff; auto with osw; lia.
Qed.

Lemma percolate_down_loop_spec g fuel h i m F :
  put h i m = Some F → wf_but g F → 1 <= i < num h →
  ord_down (type h) (val F) (num h) i → (Z.to_nat (num h - i) < fuel)%nat →
  ∃ h', percolate_down_loop fuel h i m = Some h' ∧ sifted g h F h'.
Proof.
  revert h i F. induction fuel as [|fuel IH]; intros h i F Hput Hwf Hi Hord Hfuel; [lia|].
  simpl. destruct (maxchild_spec g h i m F Hput Hwf Hi) as (c&Hmc&[[-> Hno]|(Hc&Hpc&Hmin)]);
    rewrite Hmc; simpl.
  { exists F. split; [done|]. apply (put_sifted _ _ _ _ _ Hput); [done|].
    apply (ord_down_done _ _ _ i); [lia|done|]. intros k Hk Hp. by destruct (Hno k). }
  rewrite (proj2 (Z.eqb_neq c 0)) by lia. pose proof (parent_range c ltac:(lia)).
  destruct (put_move g h i c m F) as (a&h'&F'&Ha&Hpa&Hh'&HF'&Hwf'&Hn&Hs&Ht&Hcc&Hv);
    [done|done|lia|lia|lia|].
  rewrite Ha. simpl. rewrite Hpa, (put_moving _ _ _ _ Hput). simpl.
  destruct (compare _ _ _) eqn:Hcmp.
  - rewrite Hh'. simpl. destruct (IH h' c F') as (h''&Hl&Hsif); try done; try lia.
    + rewrite Hn, Ht. eapply ord_down_step in Hcmp; [|lia|exact Hc|done|done|done].
      destruct Hcmp as [C1 C2]. split; intros; rewrite !Hv; auto.
    + exists h''. split; [done|]. by eapply sifted_trans.
  - exists F. split; [done|]. apply (put_sifted _ _ _ _ _ Hput); [done|].
    apply (ord_down_done _ _ _ i); [lia|done|]. intros k Hk Hp.
    eapply le_trans; [exact Hcmp|]. by apply Hmin.
Qed.

Lemma bubble_up_spec g h i m F :
  node_at h i = Some m → put h i m = Some F → wf_but g F → 1 <= i < num h →
  ord_up (type h) (val F) (num h) i →
  ∃ h', bubble_up h i = Some h' ∧ sifted g h F h'.
Proof.
  intros Hm Hput Hwf Hi Hord. unfold bubble_up. rewrite Hm. cbn [mbind option_bind].
  apply (bubble_up_loop_spec g); [done..|lia].
Qed.

Lemma percolate_down_spec g h i m F :
  node_at h i = Some m → put h i m = Some F → wf_but g F → 1 <= i < num h →
  ord_down (type h) (val F) (num h) i →
  ∃ h', percolate_down h i = Some h' ∧ sifted g h F h'.
Proof.
  intros Hm Hput Hwf Hi Hord. unfold percolate_down. rewrite Hm. cbn [mbind option_bind].
  apply (percolate_down_loop_spec g); [done..|lia].
Qed.

Lemma sifted_inv h F h' : sifted None h F h' → heap_inv h' ∧ content h' = content F.
Proof. intros (?&?&?&Hn&?&Ht). unfold heap_inv. by rewrite Hn, Ht. Qed.

Lemma content_lookup h l n :
  store h !! l = Some n → content h !! l = Some (priority n, data n).
Proof. intros H. unfold content. by rewrite lookup_fmap, H. Qed.

Lemma content_inv h l p d :
  content h !! l = Some (p, d) → ∃ n, store h !! l = Some n ∧ priority n = p ∧ data n = d.
Proof.
  unfold content. rewrite lookup_fmap. intros (n&Hn&?)%fmap_Some. exists n. by simplify_eq.
Qed.

Lemma val_back g h l n :
  wf_but g h → store h !! l = Some n → Some l ≠ g → val h (position n) = priority n.
Proof.
  intros Hwf Hn Hg. destruct (wf_back _ _ Hwf l n Hn Hg) as [_ Hp].
  unfold val, pri_of. rewrite Hp. simpl. by rewrite Hn.
Qed.

(** The root precedes every node of an ordered array. *)
Lemma ordered_root t v n k : ordered t v n → 1 <= k < n → le t (v 1) (v k).
Proof.
  intros Hord [Hk Hkn]. revert Hk Hkn. induction (Z.lt_wf 1 k) as [k _ IH]. intros Hk Hkn.
  destruct (decide (k = 1)) as [->|]; [apply le_refl|].
  pose proof (parent_range k ltac:(lia)).
  eapply le_trans; [apply (IH (parent k)); lia|]. apply Hord. lia.
Qed.

Lemma root_first h l n :
  heap_inv h → store h !! l = Some n → le (type h) (val h 1) (priority n).
Proof.
  intros [Hwf Hord] Hn. rewrite <- (val_back None h l n) by done.
  apply (ordered_root _ _ (num h)); [done|]. by apply (wf_back _ _ Hwf l n Hn).
Qed.

(** *** push *)

Lemma push_spec h l p d :
  heap_inv h → store h !! l = None → num h < 2147483648 → hsize h < 2147483648 →
  ∃ h', push h true l p d = Some (Some l, h') ∧ heap_inv h' ∧
    content h' = <[l := (p, d)]> (content h).
Proof.
  intros [Hwf Hord] Hl Hn Hs. pose proof (wf_num _ _ Hwf) as Hnum. unfold push.
  rewrite andb_false_r. set (size' := if num h >=? hsize h then _ else _).
  assert (hsize h <= size' < 4294967296 ∧ num h < size') as [Hs1 Hs2].
  { subst size'. rewrite Z.geb_leb. case_Z; [|lia]. rewrite u32_small; lia. }
  rewrite (proj2 (Z.ltb_lt _ _)) by lia. rewrite u32_small by lia.
  set (h1 := MkHeap _ _ _ _ _).
  set (F := MkHeap (num h + 1) size' (type h) (<[num h := l]> (nodes h))
                   (<[l := MkNode p (num h) d]> (store h))).
  assert (put h1 (num h) l = Some F) as Hput.
  { rewrite (put_Some h1 (num h) l (MkNode p 0 d)); subst h1 F; simpl;
      [by rewrite !insert_insert_eq|by rewrite lookup_insert_eq|lia]. }
  assert (∀ k, 1 <= k < num h → val F k = val h k) as Hv.
  { intros k Hk. destruct (node_at_slot None h k) as (a&na&_&Ha&Hna&_&_&->); [done..|].
    unfold val, pri_of, F. simpl. rewrite lookup_insert_ne by lia. rewrite Ha. simpl.
    rewrite lookup_insert_ne by congruence. by rewrite Hna. }
  destruct (bubble_up_spec None h1 (num h) l F) as (h'&Hb&Hsif); try done.
  - subst h1. unfold node_at. simpl. rewrite (proj2 (Z.ltb_lt _ _)) by lia.
    by rewrite lookup_insert_eq.
  - split; subst F; simpl; try lia.
    + intros k Hk. destruct (decide (k = num h)) as [->|Hkn].
      { exists l. eexists. by rewrite !lookup_insert_eq. }
      destruct (wf_slot _ _ Hwf k) as (a&na&?&?&?&?); [lia|]. exists a, na.
      by rewrite !lookup_insert_ne by congruence.
    + intros a na. destruct (decide (a = l)) as [->|Hal].
      { rewrite lookup_insert_eq. intros [= <-] _. simpl. rewrite lookup_insert_eq. split; [lia|done]. }
      rewrite lookup_insert_ne by done. intros Ha _.
      destruct (wf_back _ _ Hwf a na Ha) as [? ?]; [done|].
      rewrite lookup_insert_ne by lia. split; [lia|done].
  - subst h1. simpl. lia.
  - subst h1. simpl. split; [|intros _ c Hc Hp; pose proof (parent_range c); lia].
    intros k Hk Hne. pose proof (parent_range k ltac:(lia)). rewrite !Hv by lia. apply Hord. lia.
  - rewrite Hb. simpl. apply sifted_inv in Hsif as [? Hc].
    exists h'. split_and!; [done|done|]. rewrite Hc. unfold F, content. simpl.
    by rewrite fmap_insert.
Qed.

(** *** remove and pop *)

Lemma free_content h l : content (free_node h l) = delete l (content h).
Proof. unfold content, free_node. simpl. by rewrite fmap_delete. Qed.

Lemma free_inv h F h' l :
  sifted (Some l) h F h' → heap_inv (free_node h' l).
Proof.
  intros (Hwf&Hord&_&Hn&_&Ht). rewrite <- Hn, <- Ht in Hord. split.
  - destruct Hwf as [? ? ? Hslot Hback]. split; try done; simpl.
    + intros k Hk. destruct (Hslot k Hk) as (a&na&?&?&?&?). exists a, na.
      by rewrite lookup_delete_ne by congruence.
    + intros a na. rewrite lookup_delete_Some. intros [? ?] _. apply Hback; [done|congruence].
  - intros k Hk. pose proof (parent_range k ltac:(simpl in *; lia)). simpl in *.
    assert (∀ j, 1 <= j < num h' → val (free_node h' l) j = val h' j) as Hv.
    { intros j Hj. destruct (node_at_slot _ _ j Hwf Hj) as (a&na&_&Ha&Hna&_&Hg&->).
      unfold val, pri_of. simpl. rewrite Ha. simpl.
      rewrite lookup_delete_ne by congruence. by rewrite Hna. }
    rewrite !Hv by lia. by apply Hord.
Qed.

(** Moving the last pointer over the one at [pos]: its completion is well-formed
    once the node [l] that was at [pos] is left out. *)
Lemma move_last_spec h l n :
  heap_inv h → store h !! l = Some n → position n < num h - 1 →
  ∃ h1 m F, move_last h (position n) = Some h1 ∧ node_at h1 (position n) = Some m ∧
    pri_of h1 m = Some (val h (num h - 1)) ∧
    put h1 (position n) m = Some F ∧ wf_but (Some l) F ∧
    num h1 = num h - 1 ∧ type h1 = type h ∧ content F = content h ∧
    ∀ k, 1 <= k < num h - 1 →
      val F k = repl (val h) (position n) (val h (num h - 1)) k.
Proof.
  intros [Hwf Hord] Hl Hlt. destruct (wf_back _ _ Hwf l n Hl) as [Hpn Hnl]; [done|].
  pose proof (wf_num _ _ Hwf). pose proof (wf_size _ _ Hwf).
  destruct (node_at_slot None h (num h - 1)) as (m&nm&Hm&Hmn&Hnm&Hpm&_&Hvm); [done|lia|].
  assert (l ≠ m) as Hlm by (intros ->; simplify_eq; lia).
  set (h1 := MkHeap (num h - 1) (hsize h) (type h) (<[position n := m]> (nodes h)) (store h)).
  set (F := MkHeap (num h - 1) (hsize h) (type h) (<[position n := m]> (nodes h))
                   (<[m := set_pos nm (position n)]> (store h))).
  exists h1, m, F. split_and!; try done.
  - unfold move_last. rewrite u32_small by lia. rewrite Hm. simpl.
    by rewrite (proj2 (Z.leb_le _ _)), (proj2 (Z.ltb_lt _ _)) by lia.
  - unfold node_at. simpl. rewrite (proj2 (Z.ltb_lt _ _)) by lia. apply lookup_insert_eq.
  - unfold pri_of. simpl. rewrite Hnm. simpl. by rewrite Hvm.
  - rewrite (put_Some h1 _ m nm) by (simpl; done || lia).
    subst h1 F. simpl. by rewrite insert_insert_eq.
  - destruct Hwf as [? ? ? Hslot Hback]. split; subst F; simpl; try lia.
    + intros k Hk. destruct (decide (k = position n)) as [->|Hkp].
      { exists m. eexists. rewrite !lookup_insert_eq. split_and!; try done. congruence. }
      destruct (Hslot k) as (a&na&?&?&?&?); [lia|]. exists a, na.
      assert (m ≠ a) by (intros <-; simplify_eq; lia).
      rewrite !lookup_insert_ne by done. split_and!; try done. congruence.
    + intros a na Ha Hal. destruct (decide (a = m)) as [->|Ham].
      { rewrite lookup_insert_eq in Ha. simplify_eq. simpl. rewrite lookup_insert_eq.
        split; [lia|done]. }
      rewrite lookup_insert_ne in Ha by done. destruct (Hback a na Ha) as [? Hna]; [done|].
      assert (position na ≠ num h - 1) by (intros E; rewrite E in Hna; congruence).
      rewrite lookup_insert_ne by (intros E; rewrite <- E in Hna; congruence).
      split; [lia|done].
  - unfold content. simpl. rewrite fmap_insert. apply insert_id. by rewrite lookup_fmap, Hnm.
  - intros k Hk. unfold repl. destruct (Z.eqb_spec k (position n)) as [->|Hkp].
    { unfold val, pri_of. simpl. rewrite lookup_insert_eq. simpl. rewrite lookup_insert_eq.
      simpl. rewrite Hmn. simpl. unfold pri_of. by rewrite Hnm. }
    destruct (node_at_slot None h k) as (a&na&_&Ha&Hna&Hpa&_&->); [done|lia|].
    unfold val, pri_of. simpl. rewrite lookup_insert_ne by done. rewrite Ha. simpl.
    rewrite lookup_insert_ne by (intros ->; simplify_eq; lia). by rewrite Hna.
Qed.

(** Deleting the node in the last slot: nothing moves. *)
Lemma move_last_same h l n :
  heap_inv h → store h !! l = Some n → position n = num h - 1 →
  ∃ h2, move_last h (position n) ≫= (λ h1, percolate_down h1 (position n)) = Some h2 ∧
    (∀ h1, move_last h (position n) = Some h1 →
       node_at h1 (position n) = Some l ∧ pri_of h1 l = Some (priority n)) ∧
    content h2 = content h ∧ heap_inv (free_node h2 l).
Proof.
  intros [Hwf Hord] Hl Hlt. destruct (wf_back _ _ Hwf l n Hl) as [Hpn Hnl]; [done|].
  pose proof (wf_num _ _ Hwf). pose proof (wf_size _ _ Hwf). pose proof (wf_max _ _ Hwf).
  set (h1 := MkHeap (num h - 1) (hsize h) (type h) (nodes h) (store h)).
  assert (node_at h (position n) = Some l) as Hat.
  { unfold node_at. by rewrite (proj2 (Z.ltb_lt _ _)) by lia. }
  assert (move_last h (position n) = Some h1) as Hml.
  { unfold move_last. rewrite u32_small by lia. rewrite <- Hlt, Hat. simpl.
    rewrite (proj2 (Z.leb_le _ _)), (proj2 (Z.ltb_lt _ _)) by lia. simpl.
    by rewrite insert_id, Hlt. }
  assert (percolate_down h1 (position n) = Some h1) as Hpd.
  { unfold percolate_down. replace (node_at h1 (position n)) with (Some l) by done.
    simpl. unfold maxchild. rewrite left_small by lia. rewrite Z.geb_leb.
    rewrite (proj2 (Z.leb_le _ _)) by (simpl; lia). simpl.
    rewrite (put_Some h1 _ l n) by (simpl; done || lia). unfold h1. simpl.
    rewrite !insert_id by (rewrite ?Hl; by destruct n). done. }
  exists h1. rewrite Hml. simpl. split_and!; [done| |done|].
  { intros ? [= <-]. split; [done|]. unfold pri_of. simpl. by rewrite Hl. }
  apply (free_inv h1 h1). split_and!; try done.
  - destruct Hwf as [? ? ? Hslot Hback]. split; simpl; try lia.
    + intros k Hk. destruct (Hslot k) as (a&na&?&?&?&?); [lia|]. exists a, na.
      split_and!; try done. intros [= ->]. simplify_eq. lia.
    + intros a na Ha Hne. destruct (Hback a na Ha) as [? Hna]; [done|]. split; [|done].
      assert (position na ≠ num h - 1); [|lia].
      intros E. rewrite E, <- Hlt in Hna. congruence.
  - intros k Hk. simpl in Hk. apply Hord. lia.
Qed.

(** A heap whose priority at [i] was replaced by [x] is repaired by the sift the
    source selects by comparing the old and the new priority. *)
Lemma replace_sift g h i m F v x :
  node_at h i = Some m → put h i m = Some F → wf_but g F → 1 <= i < num h →
  ordered (type h) v (num h) → (∀ k, 1 <= k < num h → val F k = repl v i x k) →
  ∃ h', (if compare (type h) (v i) x then bubble_up h i else percolate_down h i) = Some h' ∧
    sifted g h F h'.
Proof.
  intros Hm Hput Hwf Hi Hord Hv. destruct (compare _ _ _) eqn:Hcmp.
  - apply (bubble_up_spec _ _ _ m); try done. eapply ord_up_ext; [done|exact Hv|].
    apply ord_up_repl; [done|lia|]. by apply compare_le.
  - apply (percolate_down_spec _ _ _ m); try done. eapply ord_down_ext; [done|exact Hv|].
    by apply ord_down_repl; try lia.
Qed.

Lemma remove_spec h l p d :
  heap_inv h → content h !! l = Some (p, d) →
  ∃ h', remove h l = Some h' ∧ heap_inv h' ∧ content h' = delete l (content h).
Proof.
  intros Hinv (n&Hl&Hp&Hd)%content_inv. pose proof Hinv as [Hwf Hord].
  destruct (wf_back _ _ Hwf l n Hl) as [Hpn _]; [done|].
  unfold remove. rewrite Hl. simpl.
  destruct (decide (position n = num h - 1)) as [Hlast|Hlast].
  { destruct (move_last_same h l n Hinv Hl Hlast) as (h2&Hmv&Hat&Hc&Hfree).
    destruct (move_last h (position n)) as [h1|]; [|done]. simpl in *.
    destruct (Hat h1 eq_refl) as [Hx Hy]. rewrite Hx. simpl. rewrite Hy. simpl.
    rewrite (le_refl (type h)), Hmv. simpl.
    eexists. split_and!; [done..|]. by rewrite free_content, Hc. }
  destruct (move_last_spec h l n Hinv Hl) as (h1&m&F&Hmv&Hat&Hpm&Hput&HwfF&Hn&Ht&Hc&Hv); [lia|].
  rewrite Hmv. simpl. rewrite Hat. simpl. rewrite Hpm. simpl.
  rewrite <- (val_back None h l n) by done.
  destruct (replace_sift (Some l) h1 (position n) m F (val h) (val h (num h - 1)))
    as (h2&Hs&Hsif); try done; try lia.
  { rewrite Hn, Ht. by apply (ordered_mono _ _ (num h)); [lia|]. }
  { by rewrite Hn. }
  rewrite Ht in Hs. rewrite Hs. simpl. eexists. split_and!; [done|by eapply free_inv|].
  destruct Hsif as (_&_&Hc'&_). by rewrite free_content, Hc', Hc.
Qed.

Lemma pop_empty h : heap_inv h → content h = ∅ → pop h = Some (None, h).
Proof.
  intros [Hwf _] Hc. unfold pop, count. pose proof (wf_num _ _ Hwf). pose proof (wf_size _ _ Hwf).
  rewrite u32_small by lia. destruct (decide (num h = 1)) as [->|Hne]; [done|].
  destruct (wf_slot _ _ Hwf 1) as (l&n&_&Hl&_); [lia|].
  apply content_lookup in Hl. rewrite Hc in Hl. done.
Qed.

Lemma content_nonempty h : heap_inv h → content h ≠ ∅ → 1 < num h.
Proof.
  intros [Hwf _] Hc. destruct (map_choose _ Hc) as (l&[p d]&(n&Hl&_)%content_inv).
  destruct (wf_back _ _ Hwf l n Hl); [done|lia].
Qed.

Lemma root_slot h :
  heap_inv h → content h ≠ ∅ → ∃ l n, node_at h 1 = Some l ∧ store h !! l = Some n ∧
    position n = 1 ∧ ∀ l' p' d', content h !! l' = Some (p', d') → le (type h) (priority n) p'.
Proof.
  intros Hinv Hc. pose proof (content_nonempty h Hinv Hc). pose proof Hinv as [Hwf _].
  destruct (node_at_slot None h 1 Hwf) as (l&n&Hat&_&Hl&Hp&_&Hv); [lia|].
  exists l, n. split_and!; try done. intros l' p' d' (n'&Hl'&<-&_)%content_inv.
  rewrite <- Hv. by eapply root_first.
Qed.

Lemma pop_spec h :
  heap_inv h → content h ≠ ∅ →
  ∃ l p d h', content h !! l = Some (p, d) ∧
    (∀ l' p' d', content h !! l' = Some (p', d') → le (type h) p p') ∧
    pop h = Some (Some d, h') ∧ heap_inv h' ∧ content h' = delete l (content h).
Proof.
  intros Hinv Hc. pose proof (content_nonempty h Hinv Hc) as Hgt.
  destruct (root_slot h Hinv Hc) as (l&n&Hat&Hl&Hp&Hmin). pose proof Hinv as [Hwf Hord].
  pose proof (wf_num _ _ Hwf). pose proof (wf_size _ _ Hwf).
  assert (∃ h2, move_last h (position n) ≫= (λ h1, percolate_down h1 (position n)) = Some h2 ∧
    content h2 = content h ∧ heap_inv (free_node h2 l)) as (h2&Hs&Hc2&Hfree).
  { destruct (decide (position n = num h - 1)) as [Hlast|Hlast].
    { destruct (move_last_same h l n Hinv Hl Hlast) as (h2&?&_&?&?). by exists h2. }
    destruct (move_last_spec h l n Hinv Hl) as (h1&m&F&Hmv&Hat1&_&Hput&HwfF&Hn&Ht&HcF&Hv); [lia|].
    destruct (percolate_down_spec (Some l) h1 (position n) m F) as (h2&Hd&Hsif); try done; [lia| |].
    - rewrite Hn, Ht. eapply ord_down_ext; [lia|exact Hv|]. apply ord_down_repl; [|lia..|].
      + by apply (ordered_mono _ _ (num h)); [lia|].
      + rewrite Hp. apply (ordered_root _ _ (num h)); [done|lia].
    - exists h2. rewrite Hmv. split_and!; [done| |by eapply free_inv].
      destruct Hsif as (_&_&->&_). done. }
  rewrite Hp in Hs. exists l, (priority n), (data n), (free_node h2 l).
  split_and!; [by apply content_lookup|done| |done|by rewrite free_content, Hc2].
  unfold pop, count. rewrite u32_small, (proj2 (Z.eqb_neq _ _)) by lia.
  rewrite Hat. simpl. destruct (move_last h 1) as [h1|]; [|done]. simpl in *. rewrite Hs. simpl.
  apply content_lookup in Hl. rewrite <- Hc2 in Hl. apply content_inv in Hl as (n'&->&_&<-). done.
Qed.

Lemma top_spec h :
  heap_inv h → content h ≠ ∅ →
  ∃ l p d, top h = Some (Some l) ∧ peek h = Some (Some d) ∧ content h !! l = Some (p, d) ∧
    ∀ l' p' d', content h !! l' = Some (p', d') → le (type h) p p'.
Proof.
  intros Hinv Hc. pose proof (content_nonempty h Hinv Hc).
  destruct (root_slot h Hinv Hc) as (l&n&Hat&Hl&_&Hmin). exists l, (priority n), (data n).
  unfold top, peek. rewrite !(proj2 (Z.eqb_neq _ _)) by lia. rewrite Hat. simpl. rewrite Hl.
  split_and!; try done. by apply content_lookup.
Qed.

(** *** change_priority *)

Lemma change_priority_spec h l p d q :
  heap_inv h → content h !! l = Some (p, d) →
  ∃ h', change_priority h q l = Some h' ∧ heap_inv h' ∧
    content h' = <[l := (q, d)]> (content h).
Proof.
  intros [Hwf Hord] (n&Hl&Hp&Hd)%content_inv.
  destruct (wf_back _ _ Hwf l n Hl) as [Hpn Hnl]; [done|]. pose proof (wf_num _ _ Hwf).
  unfold change_priority. rewrite Hl. simpl. set (h1 := MkHeap _ _ _ _ _).
  assert (put h1 (position n) l = Some h1) as Hput.
  { rewrite (put_Some h1 _ l (set_pri n q)) by (simpl; rewrite ?lookup_insert_eq; done || lia).
    subst h1. simpl. by rewrite insert_insert_eq, (insert_id (nodes h)). }
  rewrite <- (val_back None h l n) by done.
  destruct (replace_sift None h1 (position n) l h1 (val h) q) as (h'&Hs&Hsif); try done.
  - unfold node_at. simpl. by rewrite (proj2 (Z.ltb_lt _ _)) by lia.
  - destruct Hwf as [? ? ? Hslot Hback]. split; try done; simpl.
    + intros k Hk. destruct (Hslot k Hk) as (a&na&?&?&?&?).
      destruct (decide (l = a)) as [->|]; simplify_eq.
      * eexists a, _. by rewrite lookup_insert_eq.
      * exists a, na. by rewrite lookup_insert_ne.
    + intros a na. destruct (decide (l = a)) as [->|].
      * rewrite lookup_insert_eq. by intros [= <-].
      * rewrite lookup_insert_ne by done. apply Hback.
  - intros k Hk. unfold repl. simpl in Hk.
    destruct (node_at_slot None h k Hwf Hk) as (a&na&_&Ha&Hna&Hpa&_&Hva).
    unfold val at 1, pri_of. simpl. rewrite Ha. simpl. rewrite lookup_insert.
    case_decide; destruct (Z.eqb_spec k (position n)); simplify_eq; simpl; try congruence.
    rewrite Hna. simpl. congruence.
  - exists h'. apply sifted_inv in Hsif as [? Hc]. split_and!; try done.
    rewrite Hc. unfold h1, content. simpl. rewrite fmap_insert. simpl. by rewrite Hd.
Qed.

(** *** The abstract priority queue and the refinement *)

Lemma make_inv n t : 0 <= n < 4294967295 → heap_inv (make n t).
Proof.
  intros Hn. unfold make. rewrite u32_small by lia. split.
  - split; simpl; try lia; intros l k Hl; by rewrite lookup_empty in Hl.
  - intros k Hk. simpl in Hk. lia.
Qed.

(** The calls a client makes; [OpPush] carries the pointer [new] returned. *)
Inductive op :=
  | OpPush (l : positive) (p d : Z)
  | OpPop
  | OpPeek
  | OpRemove (l : positive)
  | OpChange (l : positive) (q : Z).

Definition run (h : Heap) (o : op) : option (option Z * Heap) :=
  match o with
  | OpPush l p d => match push h true l p d with Some (r, h') => Some (Z.pos <$> r, h') | None => None end
  | OpPop => pop h
  | OpPeek => r ← peek h; Some (r, h)
  | OpRemove l => h' ← remove h l; Some (None, h')
  | OpChange l q => h' ← change_priority h q l; Some (None, h')
  end.

(** What the client must ensure: a fresh pointer and room, or a live pointer. *)
Definition allowed (h : Heap) (o : op) : Prop :=
  match o with
  | OpPush l _ _ => content h !! l = None ∧ num h < 2147483648 ∧ hsize h < 2147483648
  | OpRemove l | OpChange l _ => is_Some (content h !! l)
  | OpPop | OpPeek => True
  end.

(** [c] holds a first element [l] with priority [p] and datum [d]. *)
Definition first (t : Type_) (c : gmap positive (Z * Z)) (l : positive) (p d : Z) : Prop :=
  c !! l = Some (p, d) ∧ ∀ l' p' d', c !! l' = Some (p', d') → le t p p'.

(** The abstract queue: a finite map from handles to (priority, datum). *)
Inductive pq_step (t : Type_) (c : gmap positive (Z * Z)) :
    op → option Z → gmap positive (Z * Z) → Prop :=
  | pq_push l p d : pq_step t c (OpPush l p d) (Some (Z.pos l)) (<[l := (p, d)]> c)
  | pq_pop_none : c = ∅ → pq_step t c OpPop None c
  | pq_pop l p d : first t c l p d → pq_step t c OpPop (Some d) (delete l c)
  | pq_peek_none : c = ∅ → pq_step t c OpPeek None c
  | pq_peek l p d : first t c l p d → pq_step t c OpPeek (Some d) c
  | pq_remove l : pq_step t c (OpRemove l) None (delete l c)
  | pq_change l p d q : c !! l = Some (p, d) →
      pq_step t c (OpChange l q) None (<[l := (q, d)]> c).

Lemma push_realloc_failed h l p d :
  hsize h <= num h → push h false l p d = Some (None, h).
Proof. intros H. unfold push. rewrite Z.geb_leb, (proj2 (Z.leb_le _ _)) by done. done. Qed.

Lemma peek_empty h : heap_inv h → content h = ∅ → peek h = Some None.
Proof.
  intros Hinv Hc. unfold peek. destruct (Z.eqb_spec (num h) 1) as [|Hne]; [done|].
  destruct Hinv as [Hwf _]. pose proof (wf_num _ _ Hwf).
  destruct (wf_slot _ _ Hwf 1) as (l&n&_&Hl&_); [lia|].
  apply content_lookup in Hl. by rewrite Hc in Hl.
Qed.

(** C1: the pointer-and-array heap implements a priority queue.  From a heap that
    satisfies the invariant, every allowed call runs without touching freed,
    uninitialised or out-of-bounds memory, re-establishes the invariant
    (bijection of array and [position] fields, heap order) and moves the abstract
    content as the abstract queue does; [pop] and [peek] deliver a datum whose
    priority comes first. *)
Theorem heap_refines_priority_queue h o :
  heap_inv h → allowed h o →
  ∃ r h', run h o = Some (r, h') ∧ heap_inv h' ∧
    pq_step (type h) (content h) o r (content h').
Proof.
  intros Hinv Hok. destruct o as [l p d| | |l|l q]; simpl in *.
  - destruct Hok as (Hl&?&?). unfold content in Hl. rewrite lookup_fmap in Hl.
    apply fmap_None in Hl.
    destruct (push_spec h l p d) as (h'&Hr&?&Hc); try done. rewrite Hr.
    eexists _, _. split_and!; [done..|]. rewrite Hc. constructor.
  - destruct (decide (content h = ∅)) as [Hc|Hc].
    { rewrite (pop_empty h Hinv Hc). eexists _, _. split_and!; [done..|]. by constructor. }
    destruct (pop_spec h Hinv Hc) as (l&p&d&h'&?&?&Hr&?&Hc'). rewrite Hr.
    eexists _, _. split_and!; [done..|]. rewrite Hc'. by apply (pq_pop _ _ l p d).
  - destruct (decide (content h = ∅)) as [Hc|Hc].
    { rewrite (peek_empty h Hinv Hc). eexists _, _. split_and!; [done..|]. by constructor. }
    destruct (top_spec h Hinv Hc) as (l&p&d&_&Hr&?&?). rewrite Hr.
    eexists _, _. split_and!; [done..|]. by apply (pq_peek _ _ l p d).
  - destruct Hok as [[p d] Hl]. destruct (remove_spec h l p d Hinv Hl) as (h'&Hr&?&Hc).
    rewrite Hr. eexists _, _. split_and!; [done..|]. rewrite Hc. constructor.
  - destruct Hok as [[p d] Hl].
    destruct (change_priority_spec h l p d q Hinv Hl) as (h'&Hr&?&Hc). rewrite Hr.
    eexists _, _. split_and!; [done..|]. rewrite Hc. by apply (pq_change _ _ _ p).
Qed.

Lemma heap_refines_priority_queue_witness :
  ∃ r h', run (make 2 MIN_HEAP) (OpPush 1 5 7) = Some (r, h') ∧ heap_inv h' ∧
    pq_step MIN_HEAP (content (make 2 MIN_HEAP)) (OpPush 1 5 7) r (content h').
Proof.
  apply (heap_refines_priority_queue (make 2 MIN_HEAP) (OpPush 1 5 7)).
  - apply make_inv. lia.
  - vm_compute. done.
Defined.

(** A concrete run: three pushes and three pops, in order of priority. *)
Example push_pop_example :
  (h1 ← snd <$> push (make 1 MIN_HEAP) true 1 30 3;
   h2 ← snd <$> push h1 true 2 10 1;
   h3 ← snd <$> push h2 true 3 20 2;
   a ← pop h3; b ← pop a.2; c ← pop b.2; e ← pop c.2;
   Some [a.1; b.1; c.1; e.1]) = Some [Some 1; Some 2; Some 3; None].
Proof. vm_compute. reflexivity. Qed.
