(* ===== verification/MemoryPool.v ===== *)
(** * The memory-pool interface: class [MemoryPool] of include/openswoole_memory.h

    The abstract class has two virtual methods, [alloc] and [free].  [MemoryPool]
    is that signature; [MemoryPoolLaws] is what the clients of a pool rely on.
    An outer [None] is an abort or an invalid memory access; the inner [None] of
    [mp_alloc] is the null pointer. *)

From S2P Require Import Prelude.

Class MemoryPool (P : Type) := {
  mp_alloc : P → Z → option (option Z * P);
  mp_free : P → Z → option P }.

(** A pool owns a set of live blocks: [alloc] hands out a block that is not live,
    [free] takes a live one back, and neither touches the others. *)
Class MemoryPoolLaws (P : Type) `{MemoryPool P} := {
  mp_inv : P → Prop;
  mp_live : P → gset Z;
  mp_alloc_total : ∀ p n, mp_inv p → ∃ r p', mp_alloc p n = Some (r, p');
  mp_alloc_null : ∀ p n p', mp_inv p → mp_alloc p n = Some (None, p') → p' = p;
  mp_alloc_fresh : ∀ p n a p', mp_inv p → mp_alloc p n = Some (Some a, p') →
    mp_inv p' ∧ a ∉ mp_live p ∧ mp_live p' = {[a]} ∪ mp_live p;
  mp_free_live : ∀ p a, mp_inv p → a ∈ mp_live p →
    ∃ p', mp_free p a = Some p' ∧ mp_inv p' ∧ mp_live p' = mp_live p ∖ {[a]} }.

(** ** Pools whose blocks hold data

    [BlockPool] adds the accesses of a pool's client to the bytes of its blocks; [E] is what
    an allocation takes from outside (process ids, the operating system's answers).
    [BlockPoolLaws] says that the pool owns a list of live blocks, each with the length asked for, and
    that no operation changes the bytes of a block it was not asked to change. *)
Class BlockPool (P A E : Type) := {
  bp_alloc : P → E → Z → option (option A * P);
  bp_free : P → A → option P;
  bp_load : P → A → Z → Z → option bytes;
  bp_store : P → A → Z → bytes → option P }.

(** Every block of [L] has the same bytes in [p'] as in [p]. *)
Definition same_blocks `{BlockPool P A E} (L : list (A * Z)) (p p' : P) : Prop :=
  ∀ a l, (a, l) ∈ L → bp_load p' a 0 l = bp_load p a 0 l.

Class BlockPoolLaws (P A E : Type) `{BlockPool P A E} := {
  bp_inv : P → list (A * Z) → Prop;
  bp_ok : E → Z → Prop;
  bp_alloc_law : ∀ p L e n, bp_inv p L → bp_ok e n →
    ∃ r p', bp_alloc p e n = Some (r, p') ∧ same_blocks L p p' ∧
      match r with
      | None => bp_inv p' L
      | Some a => bp_inv p' (L ++ [(a, n)])
      end;
  bp_free_law : ∀ p L1 a l L2, bp_inv p (L1 ++ (a, l) :: L2) →
    ∃ p', bp_free p a = Some p' ∧ bp_inv p' (L1 ++ L2) ∧ same_blocks (L1 ++ L2) p p';
  bp_load_law : ∀ p L a l, bp_inv p L → (a, l) ∈ L →
    ∃ bs, bp_load p a 0 l = Some bs ∧ zlen bs = l;
  bp_store_law : ∀ p L1 a l L2 off bs, bp_inv p (L1 ++ (a, l) :: L2) →
    0 <= off → off + zlen bs <= l →
    ∃ p' old, bp_store p a off bs = Some p' ∧ bp_inv p' (L1 ++ (a, l) :: L2) ∧
      same_blocks (L1 ++ L2) p p' ∧
      bp_load p a 0 l = Some old ∧ bp_load p' a 0 l = store old off bs }.

(** A client that remembers its blocks in the order it got them; it accesses a block only
    inside its bounds and only while it has not freed it. *)
Inductive blk_op (E : Type) :=
  | BAlloc (e : E) (n : Z) | BFree (k : nat)
  | BWrite (k : nat) (off : Z) (bs : bytes) | BRead (k : nat).
Arguments BAlloc {E}.
Arguments BFree {E}.
Arguments BWrite {E}.
Arguments BRead {E}.

Inductive blk_res := RBlock | RNull | RData (bs : bytes) | RUnit.

Definition blk_step `{BlockPool P A E} (c : P * list (option (A * Z))) (o : blk_op E) :
    option (blk_res * (P * list (option (A * Z)))) :=
  let '(p, hs) := c in
  match o with
  | BAlloc e n =>
    '(r, p) ← bp_alloc p e n;
    Some (match r with
          | Some a => (RBlock, (p, hs ++ [Some (a, n)]))
          | None => (RNull, (p, hs))
          end)
  | BFree k =>
    match hs !! k with
    | Some (Some (a, _)) => p ← bp_free p a; Some (RUnit, (p, <[k := None]> hs))
    | _ => Some (RUnit, c)
    end
  | BWrite k off bs =>
    match hs !! k with
    | Some (Some (a, n)) =>
      if (0 <=? off) && (off + zlen bs <=? n)
      then p ← bp_store p a off bs; Some (RUnit, (p, hs)) else Some (RUnit, c)
    | _ => Some (RUnit, c)
    end
  | BRead k =>
    match hs !! k with
    | Some (Some (a, n)) => bs ← bp_load p a 0 n; Some (RData bs, c)
    | _ => Some (RUnit, c)
    end
  end.

(** What the client may rely on: its blocks are separate byte arrays. *)
Inductive blocks_step {E} : list (option bytes) → blk_op E → blk_res → list (option bytes) → Prop :=
  | bs_alloc m e n bs :
      zlen bs = n → blocks_step m (BAlloc e n) RBlock (m ++ [Some bs])
  | bs_null m e n : blocks_step m (BAlloc e n) RNull m
  | bs_free m k : blocks_step m (BFree k) RUnit (<[k := None]> m)
  | bs_write m k off bs old new :
      m !! k = Some (Some old) → store old off bs = Some new →
      blocks_step m (BWrite k off bs) RUnit (<[k := Some new]> m)
  | bs_write_no m k off bs :
      (∀ old, m !! k = Some (Some old) → store old off bs = None) →
      blocks_step m (BWrite k off bs) RUnit m
  | bs_read m k bs : m !! k = Some (Some bs) → blocks_step m (BRead k) (RData bs) m
  | bs_read_no m k : (∀ bs, m !! k ≠ Some (Some bs)) → blocks_step m (BRead k) RUnit m.

Section Client.
Context {P A E : Type} `{BlockPoolLaws P A E}.

(** The handle [h] of a block and the bytes [b] the client expects in it. *)
Definition holds (p : P) (h : option (A * Z)) (b : option bytes) : Prop :=
  match h, b with
  | Some (a, n), Some bs => bp_load p a 0 n = Some bs ∧ zlen bs = n
  | None, None => True
  | _, _ => False
  end.

Definition blk_rel (c : P * list (option (A * Z))) (m : list (option bytes)) : Prop :=
  bp_inv c.1 (omap id c.2) ∧ Forall2 (holds c.1) c.2 m.

Lemma holds_frame L p p' h b :
  same_blocks L p p' → (∀ x, h = Some x → x ∈ L) → holds p h b → holds p' h b.
Proof.
  intros Hs Hin. destruct h as [[a n]|], b as [bs|]; try done. cbn [holds].
  intros [HF ?]. split; [|done]. rewrite Hs; auto.
Qed.

Lemma live_handle (hs : list (option (A * Z))) x : x ∈ omap id hs ↔ Some x ∈ hs.
Proof. rewrite list_elem_of_omap. unfold id. naive_solver. Qed.

Lemma handles_frame p p' hs m :
  same_blocks (omap id hs) p p' → Forall2 (holds p) hs m → Forall2 (holds p') hs m.
Proof.
  intros Hs HF. apply Forall2_same_length_lookup in HF as [Hl HF].
  apply Forall2_same_length_lookup. split; [done|]. intros k h b Hh Hb.
  eapply holds_frame; eauto. intros x ->. apply live_handle. by eapply list_elem_of_lookup_2.
Qed.

Lemma handles_split (hs : list (option (A * Z))) k x :
  hs !! k = Some (Some x) →
  omap id hs = omap id (take k hs) ++ x :: omap id (drop (S k) hs).
Proof. intros Hk. rewrite <- (take_drop_middle _ _ _ Hk) at 1. by rewrite omap_app. Qed.

Lemma handles_insert (hs : list (option (A * Z))) k x y :
  hs !! k = Some x →
  omap id (<[k := y]> hs) =
    omap id (take k hs) ++ option_list y ++ omap id (drop (S k) hs).
Proof.
  intros Hk. rewrite insert_take_drop by (by eapply lookup_lt_Some).
  rewrite omap_app. by destruct y.
Qed.

(** Changing block [k] and keeping the others. *)
Lemma blk_rel_update p p' hs m k h h' b' :
  Forall2 (holds p) hs m → hs !! k = Some h →
  bp_inv p' (omap id (<[k := h']> hs)) →
  same_blocks (omap id (take k hs) ++ omap id (drop (S k) hs)) p p' →
  holds p' h' b' → blk_rel (p', <[k := h']> hs) (<[k := b']> m).
Proof.
  intros HF Hk Hi Hs Hh. split; [done|]. cbn [fst snd].
  apply Forall2_same_length_lookup in HF as [Hl HF].
  apply Forall2_same_length_lookup. split; [by rewrite !length_insert|].
  intros j x b Hx Hb. pose proof (lookup_lt_Some _ _ _ Hk).
  apply list_lookup_insert_Some in Hx as [(<-&->&_)|[Hne Hx]].
  { rewrite list_lookup_insert_eq in Hb by lia. by simplify_eq. }
  rewrite list_lookup_insert_ne in Hb by done.
  eapply holds_frame; eauto. intros y ->. apply elem_of_app. rewrite !live_handle.
  destruct (decide (j < k)%nat); [left|right]; apply list_elem_of_lookup.
  - exists j. by rewrite lookup_take_lt.
  - exists (j - S k)%nat. rewrite lookup_drop, <- Hx. f_equal. lia.
Qed.

Lemma live_block p hs m k a n :
  Forall2 (holds p) hs m → hs !! k = Some (Some (a, n)) →
  ∃ bs, m !! k = Some (Some bs) ∧ bp_load p a 0 n = Some bs ∧ zlen bs = n.
Proof.
  intros HF Hk. destruct (Forall2_lookup_l _ _ _ _ _ HF Hk) as ([bs|] & Hm & Hb); [|done].
  by exists bs.
Qed.

Lemma dead_block p hs m k :
  Forall2 (holds p) hs m → (∀ x, hs !! k ≠ Some (Some x)) → ∀ bs, m !! k ≠ Some (Some bs).
Proof.
  intros HF Hk bs Hm. destruct (Forall2_lookup_r _ _ _ _ _ HF Hm) as ([x|] & Hh & ?); [|done].
  by apply (Hk x).
Qed.

Definition blk_ok (o : blk_op E) : Prop :=
  match o with BAlloc e n => bp_ok e n | _ => True end.

Lemma blk_alloc_step p hs m e n :
  blk_rel (p, hs) m → bp_ok e n →
  ∃ r c' m', blk_step (p, hs) (BAlloc e n) = Some (r, c') ∧ blk_rel c' m' ∧
    blocks_step m (BAlloc e n) r m'.
Proof.
  intros [Hi HF] Hok. cbn [fst snd blk_step] in *.
  destruct (bp_alloc_law p _ e n Hi Hok) as (r & p' & -> & Hs & Hr). cbn [mbind option_bind].
  pose proof (handles_frame _ _ _ _ Hs HF) as HF'.
  destruct r as [a|]; [|do 3 eexists; split; [done|]; split; [by split|constructor]].
  destruct (bp_load_law _ _ a n Hr) as (bs & Hbs & Hl); [set_solver|].
  exists RBlock, (p', hs ++ [Some (a, n)]), (m ++ [Some bs]). split; [done|].
  split; [|by constructor]. split; cbn [fst snd]; [by rewrite omap_app|].
  apply Forall2_app; [done|]. by constructor.
Qed.

Lemma blk_free_step p hs m k :
  blk_rel (p, hs) m →
  ∃ r c' m', blk_step (p, hs) (BFree k) = Some (r, c') ∧ blk_rel c' m' ∧
    blocks_step m (BFree (E := E) k) r m'.
Proof.
  intros [Hi HF]. cbn [fst snd blk_step] in *.
  destruct (hs !! k) as [[[a n]|]|] eqn:Hk.
  - rewrite (handles_split _ _ _ Hk) in Hi.
    destruct (bp_free_law _ _ _ _ _ Hi) as (p' & -> & Hi' & Hs). cbn [mbind option_bind].
    do 3 eexists. split; [done|]. split; [|constructor].
    eapply blk_rel_update; eauto; [by rewrite (handles_insert _ _ _ _ Hk)|done].
  - exists RUnit, (p, hs), (<[k := None]> m). split; [done|]. split; [|constructor].
    rewrite <- (list_insert_id hs k None) at 1 by done.
    eapply blk_rel_update; eauto; [by rewrite list_insert_id|by intros ??|done].
  - exists RUnit, (p, hs), (<[k := None]> m). split; [done|]. split; [|constructor].
    rewrite list_insert_ge; [by split|].
    rewrite <- (Forall2_length _ _ _ HF). by apply lookup_ge_None.
Qed.

Lemma blk_write_step p hs m k off bs :
  blk_rel (p, hs) m →
  ∃ r c' m', blk_step (p, hs) (BWrite k off bs) = Some (r, c') ∧ blk_rel c' m' ∧
    blocks_step m (BWrite (E := E) k off bs) r m'.
Proof.
  intros [Hi HF]. cbn [fst snd blk_step] in *.
  destruct (hs !! k) as [[[a n]|]|] eqn:Hk.
  - destruct (live_block _ _ _ _ _ _ HF Hk) as (old & Hm & Hold & Hln).
    destruct (_ && _) eqn:Eb.
    + apply andb_true_iff in Eb as [Eo En]. rewrite Z.leb_le in Eo, En.
      pose proof Hi as Hi0. rewrite (handles_split _ _ _ Hk) in Hi0.
      destruct (bp_store_law _ _ _ _ _ _ _ Hi0 Eo En) as (p' & old' & -> & Hi' & Hs & Ho & Hn).
      cbn [mbind option_bind]. assert (old' = old) as -> by congruence.
      rewrite store_Some in Hn by lia.
      exists RUnit, (p', hs). eexists. split; [done|].
      split; [|econstructor; [done|]; by rewrite store_Some by lia].
      rewrite <- (list_insert_id hs k _ Hk) at 1.
      eapply blk_rel_update; eauto; [by rewrite (handles_insert _ _ _ _ Hk)|].
      split; [done|]. rewrite <- Hln. apply (store_length old off bs). by rewrite store_Some by lia.
    + exists RUnit, (p, hs), m. split; [done|]. split; [by split|]. constructor.
      intros old' Ho. simplify_eq. unfold store. by rewrite Eb.
  - exists RUnit, (p, hs), m. split; [done|]. split; [by split|]. constructor.
    intros old Ho. exfalso. eapply dead_block; eauto. by rewrite Hk.
  - exists RUnit, (p, hs), m. split; [done|]. split; [by split|]. constructor.
    intros old Ho. exfalso. eapply dead_block; eauto. by rewrite Hk.
Qed.

Lemma blk_read_step p hs m k :
  blk_rel (p, hs) m →
  ∃ r c' m', blk_step (p, hs) (BRead k) = Some (r, c') ∧ blk_rel c' m' ∧
    blocks_step m (BRead (E := E) k) r m'.
Proof.
  intros [Hi HF]. cbn [fst snd blk_step] in *.
  destruct (hs !! k) as [[[a n]|]|] eqn:Hk.
  - destruct (live_block _ _ _ _ _ _ HF Hk) as (old & Hm & -> & Hln).
    do 3 eexists. split; [done|]. split; [by split|by constructor].
  - exists RUnit, (p, hs), m. split; [done|]. split; [by split|]. constructor.
    eapply dead_block; eauto. by rewrite Hk.
  - exists RUnit, (p, hs), m. split; [done|]. split; [by split|]. constructor.
    eapply dead_block; eauto. by rewrite Hk.
Qed.

(** The client never faults and sees separate arrays of bytes. *)
Lemma blk_client_refines os p :
  bp_inv p [] → Forall blk_ok os →
  ∃ rs c' m', exec blk_step (p, []) os = Some (rs, c') ∧ blk_rel c' m' ∧
    runs blocks_step [] os rs m'.
Proof.
  intros Hi. apply exec_refines with (rel := blk_rel); [|by split].
  intros [q hs] m o Hr Ho. destruct o.
  - by apply blk_alloc_step.
  - by apply blk_free_step.
  - by apply blk_write_step.
  - by apply blk_read_step.
Qed.
End Client.
