(* ===== verification/FixedPool.v ===== *)
(** * Fixed-size slice pool: src/memory/fixed_pool.cc

    A slice is identified by the byte offset of its header in [impl->memory]; the
    headers form one doubly linked list, idle slices first.  An operation returns
    [None] where the source dereferences a null or foreign pointer or an assertion
    fails. *)

From S2P Require Import Prelude MemoryPool.

(** [sizeof(FixedPoolSlice)] and [sizeof(FixedPoolImpl)] on LP64. *)
Definition sizeof_struct_slice : Z := 24.
Definition sizeof_struct_impl : Z := 48.

Record FixedPoolSlice := MkSlice { lock : Z; next : option Z; pre : option Z }.

Record FixedPoolImpl := MkPool {
  size : Z; head : option Z; tail : option Z;
  slice_num : Z; slice_use : Z; slice_size : Z;
  slices : gmap Z FixedPoolSlice }.

(** Field updates through a pointer: [None] is a null or dangling pointer. *)
Definition upd (m : gmap Z FixedPoolSlice) (p : option Z)
    (f : FixedPoolSlice → FixedPoolSlice) : option (gmap Z FixedPoolSlice) :=
  a ← p; s ← m !! a; Some (<[a := f s]> m).

Definition set_lock (v : Z) (s : FixedPoolSlice) := MkSlice v (next s) (pre s).
Definition set_next (v : option Z) (s : FixedPoolSlice) := MkSlice (lock s) v (pre s).
Definition set_pre (v : option Z) (s : FixedPoolSlice) := MkSlice (lock s) (next s) v.

Definition stride (p : FixedPoolImpl) : Z := sizeof_struct_slice + slice_size p.

(** [FixedPoolImpl::init]: the [do ... while (1)] loop over [cur]; [fuel] bounds
    the number of slices.  A slice whose header does not fit the [size] bytes of memory is
    written past their end. *)
Fixpoint init_loop (fuel : nat) (p : FixedPoolImpl) (cur : Z) : option FixedPoolImpl :=
  match fuel with
  | O => None
  | S fuel =>
    if size p <? cur + sizeof_struct_slice then None else
    let m0 := <[cur := MkSlice 0 None None]> (slices p) in
    m1 ← match head p with
         | Some _ =>
             m ← upd m0 (head p) (set_pre (Some cur));
             upd m (Some cur) (set_next (head p))
         | None => Some m0
         end;
    let tail' := match head p with Some _ => tail p | None => Some cur end in
    let cur' := cur + stride p in
    m2 ← upd m1 (Some cur) (set_pre (if cur' <? size p then Some cur' else None));
    let p' := MkPool (size p) (Some cur) tail' (slice_num p) (slice_use p) (slice_size p) m2 in
    if cur' <? size p then init_loop fuel p' cur' else Some p'
  end.

Definition init (p : FixedPoolImpl) : option FixedPoolImpl :=
  init_loop (S (Z.to_nat (size p))) p 0.

(** [FixedPool(slice_num, slice_size, shared)]; the multiplication is in
    [size_t] because [sizeof] is. *)
Definition make (slice_num slice_size : Z) : option FixedPoolImpl :=
  let slice_size := u32 (OSW_MEM_ALIGNED_SIZE slice_size) in
  let size := u64 (slice_num * (sizeof_struct_slice + slice_size)) in
  init (MkPool size None None slice_num 0 slice_size ∅).

(** [FixedPool(slice_size, memory, size, shared)]: the caller's memory. *)
Definition make_in (slice_size memory_size : Z) : option FixedPoolImpl :=
  let size := u64 (memory_size - sizeof_struct_impl) in
  init (MkPool size None None (u32 (size / (slice_size + sizeof_struct_slice))) 0 slice_size ∅).

(** [FixedPool::alloc], from [slice->next->pre = nullptr] on: the slice, already
    taken off the head, becomes the tail (busy list). *)
Definition to_tail (m : gmap Z FixedPoolSlice) (slice : Z) (nx tl : option Z) :
    option (gmap Z FixedPoolSlice) :=
  m2 ← upd m nx (set_pre None);
  m3 ← upd m2 tl (set_next (Some slice));
  m4 ← upd m3 (Some slice) (set_next None);
  upd m4 (Some slice) (set_pre tl).

(** [FixedPool::alloc]; the requested size is ignored. *)
Definition alloc (p : FixedPoolImpl) (_size : Z) : option (option Z * FixedPoolImpl) :=
  slice ← head p;
  s ← slices p !! slice;
  if lock s =? 0 then
    m1 ← upd (slices p) (Some slice) (set_lock 1);
    m2 ← to_tail m1 slice (next s) (tail p);
    Some (Some (slice + sizeof_struct_slice),
          MkPool (size p) (next s) (Some slice) (slice_num p) (u32 (slice_use p + 1))
                 (slice_size p) m2)
  else Some (None, p).

(** [FixedPool::free], "list tail" and "middle": unlink the slice [s]; the new
    value of [impl->tail] is returned too. *)
Definition unlink (m : gmap Z FixedPoolSlice) (s : FixedPoolSlice) (tl : option Z) :
    option (gmap Z FixedPoolSlice * option Z) :=
  match next s with
  | None => m1 ← upd m (pre s) (set_next None); Some (m1, pre s)
  | Some _ =>
      m1 ← upd m (pre s) (set_next (next s));
      m2 ← upd m1 (next s) (set_pre (pre s)); Some (m2, tl)
  end.

(** [FixedPool::free], the last four lines: the slice becomes the head. *)
Definition to_head (m : gmap Z FixedPoolSlice) (slice : Z) (hd : option Z) :
    option (gmap Z FixedPoolSlice) :=
  m1 ← upd m (Some slice) (set_pre None);
  m2 ← upd m1 (Some slice) (set_next hd);
  upd m2 hd (set_pre (Some slice)).

(** [FixedPool::free]. *)
Definition free (p : FixedPoolImpl) (ptr : Z) : option FixedPoolImpl :=
  if negb ((0 <? ptr) && (ptr <? size p)) then None else
  let slice := ptr - sizeof_struct_slice in
  s ← slices p !! slice;
  let use' := if lock s =? 0 then slice_use p else u32 (slice_use p - 1) in
  m1 ← upd (slices p) (Some slice) (set_lock 0);
  match pre s with
  | None =>
      Some (MkPool (size p) (head p) (tail p) (slice_num p) use' (slice_size p) m1)
  | Some _ =>
      mt ← unlink m1 s (tail p);
      m2 ← to_head (fst mt) slice (head p);
      Some (MkPool (size p) (Some slice) (snd mt) (slice_num p) use' (slice_size p) m2)
  end.

#[local] Arguments upd : simpl never.
#[local] Arguments to_tail : simpl never.
#[local] Arguments to_head : simpl never.
#[local] Arguments unlink : simpl never.

(** ** Doubly linked segments *)

Definition hd_or (L : list Z) (d : option Z) : option Z :=
  match L with [] => d | b :: _ => Some b end.

Fixpoint last_or (d : option Z) (L : list Z) : option Z :=
  match L with [] => d | a :: L => last_or (Some a) L end.

Fixpoint dseg (m : gmap Z FixedPoolSlice) (pr : option Z) (L : list Z) (nx : option Z) : Prop :=
  match L with
  | [] => True
  | a :: L => ∃ s, m !! a = Some s ∧ pre s = pr ∧ next s = hd_or L nx ∧ dseg m (Some a) L nx
  end.

Lemma last_or_app d L1 L2 : last_or d (L1 ++ L2) = last_or (last_or d L1) L2.
Proof. revert d. induction L1; intros; simpl; auto. Qed.

Lemma hd_or_app L1 L2 d : hd_or (L1 ++ L2) d = hd_or L1 (hd_or L2 d).
Proof. by destruct L1. Qed.

Lemma dseg_app m pr L1 L2 nx :
  dseg m pr (L1 ++ L2) nx ↔ dseg m pr L1 (hd_or L2 nx) ∧ dseg m (last_or pr L1) L2 nx.
Proof.
  revert pr. induction L1 as [|a L1 IH]; intros pr; simpl; [naive_solver|].
  setoid_rewrite IH. rewrite hd_or_app. naive_solver.
Qed.

Lemma dseg_frame m pr L nx a s : a ∉ L → dseg m pr L nx → dseg (<[a := s]> m) pr L nx.
Proof.
  revert pr. induction L as [|b L IH]; intros pr Ha; simpl; [done|].
  apply not_elem_of_cons in Ha as [Hab Ha]. intros (t&?&?&?&?). exists t.
  rewrite lookup_insert_ne by done. naive_solver.
Qed.

Lemma dseg_set_lock m pr L nx a s v :
  m !! a = Some s → dseg m pr L nx → dseg (<[a := set_lock v s]> m) pr L nx.
Proof.
  intros Ha. revert pr. induction L as [|b L IH]; intros pr; simpl; [done|].
  intros (t&?&?&?&?). destruct (decide (a = b)) as [->|].
  - simplify_eq. eexists. rewrite lookup_insert_eq. naive_solver.
  - exists t. rewrite lookup_insert_ne by done. naive_solver.
Qed.

Lemma dseg_set_pre m pr pr' b L nx s :
  NoDup (b :: L) → m !! b = Some s → dseg m pr (b :: L) nx →
  dseg (<[b := set_pre pr' s]> m) pr' (b :: L) nx.
Proof.
  intros [Hb _]%NoDup_cons Hs (t&Ht&_&Hn&HL). simplify_eq. exists (set_pre pr' s).
  rewrite lookup_insert_eq. split_and!; try done. by apply dseg_frame.
Qed.

Lemma dseg_set_next m pr L t nx nx' s :
  t ∉ L → m !! t = Some s → dseg m pr (L ++ [t]) nx →
  dseg (<[t := set_next nx' s]> m) pr (L ++ [t]) nx'.
Proof.
  intros Ht Hs [HL (s'&?&?&_)]%dseg_app. simplify_eq. apply dseg_app. split.
  - by apply dseg_frame.
  - eexists. by rewrite lookup_insert_eq.
Qed.

Lemma upd_Some m a s f : m !! a = Some s → upd m (Some a) f = Some (<[a := f s]> m).
Proof. intros H. unfold upd. simpl. by rewrite H. Qed.

(** The lock flags, which the pointer surgery does not touch. *)
Definition locks (m : gmap Z FixedPoolSlice) : gmap Z Z := lock <$> m.

Lemma locks_upd m a s f :
  m !! a = Some s → lock (f s) = lock s → locks (<[a := f s]> m) = locks m.
Proof.
  intros Ha Hf. unfold locks. rewrite fmap_insert, Hf. apply insert_id.
  by rewrite lookup_fmap, Ha.
Qed.

Lemma upd_locks m p f m' :
  upd m p f = Some m' → (∀ s, lock (f s) = lock s) → locks m' = locks m.
Proof.
  unfold upd. intros (a&->&(s&Hs&[= <-])%bind_Some)%bind_Some Hf. by apply locks_upd.
Qed.

Lemma dseg_lookup m pr L nx a : dseg m pr L nx → a ∈ L → ∃ s, m !! a = Some s.
Proof.
  revert pr. induction L as [|b L IH]; intros pr; simpl; [set_solver|].
  intros (s&Hs&_&_&HL) [->|]%elem_of_cons; eauto.
Qed.

Lemma snoc_case (L : list Z) : L ≠ [] → ∃ L0 t, L = L0 ++ [t].
Proof. destruct L as [|t L0 _] using rev_ind; [done|]. intros _. by exists L0, t. Qed.

Lemma to_tail_spec m a L sa :
  NoDup (a :: L) → L ≠ [] → m !! a = Some sa → dseg m (Some a) L None →
  ∃ m', to_tail m a (hd_or L None) (last_or (Some a) L) = Some m' ∧
    dseg m' None (L ++ [a]) None ∧ locks m' = locks m.
Proof.
  intros [Ha Hnd]%NoDup_cons HL Hsa Hseg. destruct L as [|b R]; [done|].
  destruct (snoc_case (b :: R)) as (R0&t&Ht); [done|].
  destruct Hseg as (sb&Hsb&?&?&?).
  set (m2 := <[b := set_pre None sb]> m).
  assert (dseg m2 None (b :: R) None) as Hseg2.
  { apply dseg_set_pre with (pr := Some a); [done..|]. by exists sb. }
  unfold to_tail. simpl hd_or. rewrite (upd_Some _ _ _ _ Hsb). cbn [mbind option_bind]. fold m2.
  rewrite Ht, last_or_app in *. simpl last_or. clear Ht.
  apply not_elem_of_app in Ha as [HaR Hat]. rewrite list_elem_of_singleton in Hat.
  apply NoDup_app in Hnd as (HndR&HtR&_).
  destruct (dseg_lookup _ _ _ _ t Hseg2) as [st Hst]; [set_solver|].
  rewrite (upd_Some _ _ _ _ Hst). cbn [mbind option_bind].
  set (m3 := <[t := set_next (Some a) st]> m2).
  assert (∃ sa3, m3 !! a = Some sa3) as [sa3 Ha3].
  { subst m3 m2. rewrite lookup_insert_ne by done. rewrite lookup_insert. case_decide; eauto. }
  rewrite (upd_Some _ _ _ _ Ha3). cbn [mbind option_bind].
  rewrite (upd_Some _ a (set_next None sa3)) by (by rewrite lookup_insert_eq).
  eexists. split; [done|]. rewrite insert_insert_eq. split.
  - apply dseg_app. split.
    + apply dseg_frame; [set_solver|]. eapply dseg_set_next; [set_solver|done|]. exact Hseg2.
    + eexists. rewrite lookup_insert_eq. split_and!; try done. by rewrite last_or_app.
  - rewrite (locks_upd m3 a sa3 (λ s, set_pre (Some t) (set_next None s))) by done.
    subst m3 m2. rewrite (locks_upd _ t st (set_next (Some a))), (locks_upd _ b sb) by done. done.
Qed.

Lemma to_head_spec m a L sa nx :
  a ∉ L → L ≠ [] → NoDup L → m !! a = Some sa → dseg m None L nx →
  ∃ m', to_head m a (hd_or L None) = Some m' ∧ dseg m' None (a :: L) nx ∧ locks m' = locks m.
Proof.
  intros Ha HL Hnd Hsa Hseg. destruct L as [|b R]; [done|].
  assert (a ≠ b) by set_solver. pose proof Hseg as (sb&Hsb&_).
  unfold to_head. rewrite (upd_Some _ _ _ _ Hsa). cbn [mbind option_bind].
  rewrite (upd_Some _ a (set_pre None sa)) by (by rewrite lookup_insert_eq).
  cbn [mbind option_bind]. rewrite insert_insert_eq. simpl hd_or.
  set (m2 := <[a := _]> m).
  assert (m2 !! b = Some sb) as Hb2 by (subst m2; by rewrite lookup_insert_ne).
  rewrite (upd_Some _ _ _ _ Hb2). eexists. split; [done|]. split.
  - eexists. rewrite lookup_insert_ne by done. subst m2. rewrite lookup_insert_eq.
    split_and!; try done. apply dseg_set_pre with (pr := None); [done..|]. by apply dseg_frame.
  - rewrite (locks_upd _ b sb (set_pre (Some a))) by done. subst m2.
    by rewrite (locks_upd _ a sa (λ s, set_next (Some b) (set_pre None s))).
Qed.

Lemma unlink_spec m L1 L2 a s :
  NoDup (L1 ++ a :: L2) → L1 ≠ [] → m !! a = Some s →
  dseg m None (L1 ++ a :: L2) None → ∀ tl, tl = last_or None (L1 ++ a :: L2) →
  ∃ m', unlink m s tl = Some (m', last_or None (L1 ++ L2)) ∧
    dseg m' None (L1 ++ L2) None ∧ locks m' = locks m.
Proof.
  intros Hnd HL1 Hs Hseg tl ->. destruct (snoc_case L1 HL1) as (R0&t&->).
  apply dseg_app in Hseg as [Hs1 (s'&?&Hp&Hn&Hs2)]. simplify_eq. simpl in Hs1.
  rewrite last_or_app in Hp. simpl in Hp.
  apply NoDup_app in Hnd as (Hnd1&Hdis&[Ha2 Hnd2]%NoDup_cons).
  assert (t ∉ R0) as HtR by (apply NoDup_app in Hnd1; set_solver).
  assert (t ∉ a :: L2) as Ht2 by (apply Hdis; set_solver).
  destruct (dseg_lookup _ _ _ _ t Hs1) as [st Hst]; [set_solver|].
  unfold unlink. rewrite Hp, Hn. destruct L2 as [|b L2]; simpl hd_or.
  - rewrite (upd_Some _ _ _ _ Hst). cbn [mbind option_bind]. eexists. split.
    { rewrite app_nil_r, last_or_app. done. }
    rewrite app_nil_r. split; [by eapply dseg_set_next|]. by rewrite (locks_upd _ t st).
  - destruct Hs2 as (sb&Hsb&?&?&?). assert (t ≠ b) by set_solver.
    rewrite (upd_Some _ _ _ _ Hst). cbn [mbind option_bind].
    rewrite (upd_Some _ b sb) by (by rewrite lookup_insert_ne). cbn [mbind option_bind].
    eexists. split; [by rewrite !last_or_app|]. split.
    + apply dseg_app. split.
      * apply dseg_frame; [intros ?; by destruct (Hdis b); set_solver|]. by eapply dseg_set_next.
      * rewrite last_or_app. apply dseg_set_pre with (pr := Some a); [done|by rewrite lookup_insert_ne|].
        apply dseg_frame; [set_solver|]. by exists sb.
    + rewrite (locks_upd _ b sb) by (by rewrite ?lookup_insert_ne). by rewrite (locks_upd _ t st).
Qed.

(** ** The representation: idle slices [F], then busy slices [B] *)

Record rep (p : FixedPoolImpl) (F B : list Z) : Prop := {
  rep_nodup : NoDup (F ++ B);
  rep_seg : dseg (slices p) None (F ++ B) None;
  rep_head : head p = hd_or (F ++ B) None;
  rep_tail : tail p = last_or None (F ++ B);
  rep_two : (2 <= length (F ++ B))%nat;
  rep_locks : ∀ a, locks (slices p) !! a =
    if decide (a ∈ F) then Some 0 else if decide (a ∈ B) then Some 1 else None;
  rep_use : slice_use p = zlen B;
  rep_num : slice_num p = zlen (F ++ B) ∧ slice_num p < 4294967296;
  rep_addr : ∀ a, a ∈ F ++ B → 0 <= a ∧ a + sizeof_struct_slice < size p }.

Lemma rep_lock p F B a s :
  rep p F B → slices p !! a = Some s →
  (a ∈ F ∧ lock s = 0) ∨ (a ∉ F ∧ a ∈ B ∧ lock s = 1).
Proof.
  intros Hr Ha. pose proof (rep_locks _ _ _ Hr a) as H. unfold locks in H.
  rewrite lookup_fmap, Ha in H. simpl in H. repeat case_decide; naive_solver.
Qed.

Lemma locks_set_lock m a s v : locks (<[a := set_lock v s]> m) = <[a := v]> (locks m).
Proof. unfold locks. by rewrite fmap_insert. Qed.

Lemma alloc_rep p F B a n :
  rep p (a :: F) B →
  ∃ p', alloc p n = Some (Some (a + sizeof_struct_slice), p') ∧ rep p' F (B ++ [a]).
Proof.
  intros Hr. pose proof Hr as [Hnd Hseg Hhd Htl Htwo Hlks Huse Hnum Haddr].
  pose proof Hseg as (sa&Hsa&Hpa&Hna&Hseg'). fold (F ++ B) in Hseg', Hna.
  destruct (rep_lock _ _ _ _ _ Hr Hsa) as [[_ Hla]|[? _]]; [|set_solver].
  assert (F ++ B ≠ []) as Hne by (intros Hn; simpl in Htwo; rewrite Hn in Htwo; simpl in Htwo; lia).
  pose proof (proj1 (NoDup_cons _ _) Hnd) as [HaL HndL]. fold (F ++ B) in HaL, HndL.
  destruct (to_tail_spec (<[a := set_lock 1 sa]> (slices p)) a (F ++ B) (set_lock 1 sa))
    as (m'&Hm'&Hseg2&Hlm); [done..|by rewrite lookup_insert_eq|by apply dseg_frame|].
  unfold alloc. rewrite Hhd. simpl. rewrite Hsa. simpl. rewrite Hla. simpl.
  rewrite (upd_Some _ _ _ _ Hsa). simpl. rewrite Hna, Htl. simpl.
  rewrite Hm'. simpl. eexists. split; [done|].
  assert (zlen (F ++ B ++ [a]) = zlen ((a :: F) ++ B)) as Hlen
    by (unfold zlen; simpl; rewrite !length_app; simpl; lia).
  split; simpl; rewrite ?app_assoc.
  - apply NoDup_app. split_and!; [done|set_solver|apply NoDup_singleton].
  - done.
  - clear -Hne. by destruct (F ++ B).
  - by rewrite last_or_app.
  - rewrite length_app. simpl in *. lia.
  - intros c. rewrite Hlm, locks_set_lock. destruct (decide (c = a)) as [->|].
    + rewrite lookup_insert_eq, decide_False, decide_True by set_solver. done.
    + rewrite lookup_insert_ne by done. rewrite Hlks. repeat case_decide; set_solver.
  - rewrite Huse, u32_small; unfold zlen in *; rewrite ?length_app in *; simpl in *; lia.
  - rewrite <- app_assoc, Hlen. done.
  - intros c Hc. apply Haddr. set_solver.
Qed.

Lemma alloc_full p B n : rep p [] B → alloc p n = Some (None, p).
Proof.
  intros Hr. destruct B as [|a B]; [pose proof (rep_two _ _ _ Hr); simpl in *; lia|].
  pose proof (rep_seg _ _ _ Hr) as (sa&Hsa&_).
  destruct (rep_lock _ _ _ _ _ Hr Hsa) as [[? _]|(_&_&Hl)]; [set_solver|].
  unfold alloc. rewrite (rep_head _ _ _ Hr). simpl. rewrite Hsa. simpl. by rewrite Hl.
Qed.

(** The list after [free]: the slice is first, the others keep their order. *)
Lemma free_list p L1 L2 a s :
  NoDup (L1 ++ a :: L2) → L1 ++ L2 ≠ [] → slices p !! a = Some s →
  dseg (slices p) None (L1 ++ a :: L2) None →
  head p = hd_or (L1 ++ a :: L2) None → tail p = last_or None (L1 ++ a :: L2) →
  0 <= a ∧ a + sizeof_struct_slice < size p →
  ∃ p', free p (a + sizeof_struct_slice) = Some p' ∧
    dseg (slices p') None (a :: L1 ++ L2) None ∧ head p' = Some a ∧
    tail p' = last_or None (a :: L1 ++ L2) ∧ locks (slices p') = <[a := 0]> (locks (slices p)) ∧
    slice_use p' = (if lock s =? 0 then slice_use p else u32 (slice_use p - 1)) ∧
    size p' = size p ∧ slice_num p' = slice_num p.
Proof.
  intros Hnd Hne Hs Hseg Hhd Htl [Ha Hsz]. unfold sizeof_struct_slice in *. unfold free.
  rewrite (proj2 (Z.ltb_lt _ _)), (proj2 (Z.ltb_lt _ _)) by lia. simpl.
  unfold sizeof_struct_slice. replace (a + 24 - 24) with a by lia. rewrite Hs. simpl.
  rewrite (upd_Some _ _ _ _ Hs). simpl.
  pose proof (dseg_set_lock _ _ _ _ a s 0 Hs Hseg) as Hseg1.
  pose proof Hseg as [_ (s'&?&Hp&_)]%dseg_app. simplify_eq. rewrite Hp.
  destruct L1 as [|h0 L1].
  { simpl. eexists. split; [done|]. simpl. rewrite locks_set_lock. by rewrite Hhd, Htl. }
  assert (is_Some (last_or None (h0 :: L1))) as [t Ht].
  { simpl. clear. generalize h0. induction L1; intros; simpl; eauto. }
  rewrite Ht. destruct (unlink_spec (<[a := set_lock 0 s]> (slices p)) (h0 :: L1) L2 a
    (set_lock 0 s)) with (tl := tail p) as (m1&Hu&Hseg2&Hl2);
    [done..|by rewrite lookup_insert_eq|done|done|].
  change (unlink _ (set_lock 0 s)) with (unlink (<[a := set_lock 0 s]> (slices p)) s) in Hu.
  rewrite Hu. simpl.
  assert (is_Some (m1 !! a)) as [sa Hsa].
  { assert (is_Some (locks m1 !! a)) as Hl.
    { rewrite Hl2, locks_set_lock, lookup_insert_eq. eauto. }
    unfold locks in Hl. rewrite lookup_fmap in Hl. destruct (m1 !! a); [eauto|by destruct Hl]. }
  apply NoDup_app in Hnd as (Hn1&Hd&[Ha2 Hn2]%NoDup_cons).
  destruct (to_head_spec m1 a ((h0 :: L1) ++ L2) sa None) as (m2&Hh&Hseg3&Hl3); try done.
  { intros [H|H]%elem_of_app; [|done]. apply (Hd a H). by left. }
  { apply NoDup_app. split_and!; try done. intros x Hx Hx2. apply (Hd x Hx). by right. }
  rewrite Hhd. simpl in *. rewrite Hh. simpl. eexists. split; [done|]. simpl.
  split_and!; try done. by rewrite Hl3, Hl2, locks_set_lock.
Qed.

(** Every slice of the list can be freed; freeing an idle slice again only moves
    it to the front. *)
Lemma free_rep p F B a :
  rep p F B → a ∈ F ++ B →
  ∃ p' F' B', free p (a + sizeof_struct_slice) = Some p' ∧ rep p' F' B' ∧
    (∀ c, c ∈ F' ↔ c = a ∨ c ∈ F) ∧ (∀ c, c ∈ B' ↔ c ≠ a ∧ c ∈ B).
Proof.
  intros Hr Ha. pose proof Hr as [Hnd Hseg Hhd Htl Htwo Hlks Huse [Hnum Hmax] Haddr].
  assert (∃ L1 L2 F' B', F ++ B = L1 ++ a :: L2 ∧ a :: L1 ++ L2 = F' ++ B' ∧
    (∀ c, c ∈ F' ↔ c = a ∨ c ∈ F) ∧ (∀ c, c ∈ B' ↔ c ≠ a ∧ c ∈ B) ∧
    zlen B' = if decide (a ∈ F) then zlen B else zlen B - 1)
    as (L1&L2&F'&B'&HL&HL'&HF'&HB'&Hz).
  { apply NoDup_app in Hnd as (HnF&Hdis&HnB). destruct (decide (a ∈ F)) as [HaF|HaF].
    - destruct (list_elem_of_split _ _ HaF) as (F1&F2&->). exists F1, (F2 ++ B), (a :: F1 ++ F2), B.
      simpl. rewrite <- !app_assoc. split_and!; try done.
      + intros c. rewrite !elem_of_cons, !elem_of_app, elem_of_cons. tauto.
      + intros c. split; [|tauto]. intros Hc. split; [|done]. intros ->. by apply (Hdis a HaF).
    - assert (a ∈ B) as HaB by set_solver.
      apply list_elem_of_split in HaB as (B1&B2&->). exists (F ++ B1), B2, (a :: F), (B1 ++ B2).
      simpl. rewrite <- !app_assoc. split_and!; try done.
      + intros c. by rewrite elem_of_cons.
      + apply NoDup_app in HnB as (_&HaB1&[HaB2 _]%NoDup_cons). intros c. set_solver.
      + unfold zlen. rewrite !length_app. simpl. lia. }
  assert (length (L1 ++ a :: L2) = S (length (L1 ++ L2))) as Hlen
    by (rewrite !length_app; simpl; lia).
  destruct (dseg_lookup _ _ _ _ a Hseg Ha) as [s Hs]. rewrite HL in *.
  destruct (free_list p L1 L2 a s) as (p'&Hf&Hseg'&Hhd'&Htl'&Hlk'&Hus&Hsz&Hnm); auto.
  { intros E. rewrite E in Hlen. simpl in Hlen. lia. }
  exists p', F', B'. split_and!; try done. rewrite HL' in *.
  assert (length (F' ++ B') = length (L1 ++ a :: L2)) as HlF by (rewrite <- HL'; simpl; lia).
  split; try done.
  - rewrite <- HL'. rewrite Permutation_middle. done.
  - by rewrite Hhd', <- HL'.
  - lia.
  - intros c. rewrite Hlk'. destruct (decide (c = a)) as [->|].
    + rewrite lookup_insert_eq, decide_True by (apply HF'; by left). done.
    + rewrite lookup_insert_ne by done. rewrite Hlks.
      repeat case_decide; naive_solver.
  - rewrite Hus, Huse. destruct (rep_lock _ _ _ _ _ Hr Hs) as [[HaF ->]|(HaF&HaB&->)]; simpl.
    + by rewrite Hz, decide_True.
    + rewrite Hz, decide_False by done. pose proof (zlen_nonneg B').
      rewrite decide_False in Hz by done. rewrite u32_small; [done|].
      pose proof (zlen_app F B) as Hz2. rewrite HL in Hz2. pose proof (zlen_nonneg F). lia.
  - rewrite Hnm. split; [rewrite Hnum; unfold zlen; by rewrite HlF|done].
  - rewrite Hsz. intros c Hc. apply Haddr. rewrite <- HL' in Hc. set_solver.
Qed.

(** ** Construction: [n] idle slices at the multiples of the stride *)

(** After the slices [0 .. k] were linked: the list from the newest to the first. *)
Definition laid (st : Z) (k : nat) : list Z := (λ i, Z.of_nat i * st) <$> reverse (seq 0 (S k)).

Lemma laid_S st k : laid st (S k) = Z.of_nat (S k) * st :: laid st k.
Proof. unfold laid. rewrite (seq_S (S k) 0), reverse_app. done. Qed.

Lemma elem_of_laid st k a : a ∈ laid st k ↔ ∃ i, (i <= k)%nat ∧ a = Z.of_nat i * st.
Proof.
  unfold laid. rewrite list_elem_of_fmap. setoid_rewrite elem_of_reverse.
  setoid_rewrite elem_of_seq.
  split; intros (i&H1&H2); exists i; split; done || lia.
Qed.

(** The loop invariant; the newest slice already names the next one in [pre]. *)
Record laid_inv (p : FixedPoolImpl) (k : nat) : Prop := {
  li_nodup : NoDup (laid (stride p) k);
  li_seg : dseg (slices p) (if Z.of_nat (S k) * stride p <? size p
                            then Some (Z.of_nat (S k) * stride p) else None)
                (laid (stride p) k) None;
  li_head : head p = Some (Z.of_nat k * stride p);
  li_tail : tail p = Some 0;
  li_locks : ∀ a, locks (slices p) !! a = if decide (a ∈ laid (stride p) k) then Some 0 else None }.

Lemma laid_not_next st k : 0 < st → Z.of_nat (S k) * st ∉ laid st k.
Proof. intros Hst (i&Hi&He)%elem_of_laid. nia. Qed.

Lemma init_step fuel p k :
  laid_inv p k → 0 < stride p → Z.of_nat (S k) * stride p + sizeof_struct_slice <= size p →
  ∃ p', laid_inv p' (S k) ∧ size p' = size p ∧ slice_size p' = slice_size p ∧
    slice_num p' = slice_num p ∧ slice_use p' = slice_use p ∧
    init_loop (S fuel) p (Z.of_nat (S k) * stride p) =
      if Z.of_nat (S (S k)) * stride p <? size p
      then init_loop fuel p' (Z.of_nat (S (S k)) * stride p) else Some p'.
Proof.
  intros [Hnd Hseg Hhd Htl Hlk] Hst Hlt. set (cur := Z.of_nat (S k) * stride p) in *.
  pose proof (laid_not_next (stride p) k Hst) as Hcur. fold cur in Hcur.
  rewrite (proj2 (Z.ltb_lt _ _)) in Hseg by (unfold sizeof_struct_slice in Hlt; lia).
  assert (∃ R, laid (stride p) k = Z.of_nat k * stride p :: R) as [R HR].
  { destruct k; [by eexists|]. rewrite laid_S. by eexists. }
  cbn [init_loop]. rewrite (proj2 (Z.ltb_ge _ _)) by done. rewrite Hhd, Htl. rewrite HR in Hseg, Hcur, Hnd.
  assert (Z.of_nat k * stride p ≠ cur) as Hne by set_solver.
  pose proof Hseg as (sh&Hsh&_). set (m0 := <[cur := MkSlice 0 None None]> (slices p)).
  rewrite (upd_Some m0 _ sh) by (subst m0; by rewrite lookup_insert_ne).
  cbn [mbind option_bind].
  rewrite (upd_Some _ cur (MkSlice 0 None None))
    by (subst m0; by rewrite lookup_insert_ne, lookup_insert_eq).
  cbn [mbind option_bind]. rewrite (upd_Some _ cur _ _ (lookup_insert_eq _ _ _)).
  cbn [mbind option_bind]. rewrite insert_insert_eq.
  replace (cur + stride p) with (Z.of_nat (S (S k)) * stride p) by (subst cur; lia).
  eexists. split; [|split_and!; [..|reflexivity]; done]. split;
    change (stride (MkPool _ _ _ _ _ _ _)) with (stride p);
    cbn -[laid dseg locks Z.of_nat stride].
  - rewrite laid_S, HR. by constructor.
  - rewrite laid_S, HR. eexists. rewrite lookup_insert_eq. split_and!; try done.
    apply dseg_frame; [done|]. apply dseg_set_pre with (pr := Some cur);
      [done|subst m0; by rewrite lookup_insert_ne|]. by apply dseg_frame.
  - done.
  - done.
  - intros a. rewrite laid_S. unfold locks. rewrite fmap_insert. simpl lock.
    fold (locks (<[Z.of_nat k * stride p := set_pre (Some cur) sh]> m0)).
    rewrite (locks_upd m0 _ sh (set_pre (Some cur))); [|subst m0; by rewrite lookup_insert_ne|done].
    subst m0. unfold locks. rewrite fmap_insert, insert_insert_eq. fold (locks (slices p)).
    rewrite lookup_insert. case_decide as Hac.
    + rewrite decide_True by (rewrite elem_of_cons; by left). done.
    + rewrite Hlk. repeat case_decide; set_solver.
Qed.

Lemma init_loop_spec fuel p k n :
  laid_inv p k → sizeof_struct_slice < stride p → size p = Z.of_nat n * stride p → (S k < n)%nat →
  (n <= k + fuel)%nat →
  ∃ p', init_loop fuel p (Z.of_nat (S k) * stride p) = Some p' ∧ laid_inv p' (n - 1) ∧
    size p' = size p ∧ slice_size p' = slice_size p ∧
    slice_num p' = slice_num p ∧ slice_use p' = slice_use p.
Proof.
  revert p k. induction fuel as [|fuel IH]; intros p k Hinv Hst Hsz Hk Hf; [lia|].
  assert (0 < sizeof_struct_slice) as H0 by done.
  assert (Z.of_nat (S k) * stride p + sizeof_struct_slice <= size p) as Hroom by (rewrite Hsz; nia).
  destruct (init_step fuel p k Hinv) as (p'&Hinv'&Hs1&Hs2&Hs3&Hs4&Hl); [lia|done|].
  assert (stride p' = stride p) as Hst' by (unfold stride; by rewrite Hs2).
  rewrite Hl. destruct (Z.ltb_spec (Z.of_nat (S (S k)) * stride p) (size p)) as [Hlt|Hge].
  - destruct (IH p' (S k)) as (p''&Hl'&?&?&?&?&?); [done|lia|by rewrite Hs1, Hst'|nia|lia|].
    rewrite Hst' in Hl'. exists p''. split_and!; try done; congruence.
  - exists p'. assert (n - 1 = S k)%nat as -> by nia. done.
Qed.

Lemma init_rep n ss :
  (2 <= n)%nat → Z.of_nat n < 4294967296 → 0 < ss →
  ∃ p, init (MkPool (Z.of_nat n * (sizeof_struct_slice + ss)) None None (Z.of_nat n) 0 ss ∅)
       = Some p ∧ rep p (laid (sizeof_struct_slice + ss) (n - 1)) [] ∧ slice_size p = ss.
Proof.
  intros Hn Hmax Hss. set (st := sizeof_struct_slice + ss).
  assert (24 < st) as Hst by (subst st; unfold sizeof_struct_slice; lia).
  unfold init. set (fuel := Z.to_nat _). assert (n <= fuel)%nat as Hfuel by (subst fuel; simpl; nia).
  clearbody fuel. cbn [init_loop]. rewrite (proj2 (Z.ltb_ge _ _)) by (cbn [size]; unfold sizeof_struct_slice in *; nia).
  cbn [head tail slices size slice_num slice_use slice_size mbind option_bind].
  rewrite (upd_Some _ 0 _ _ (lookup_insert_eq _ _ _)). cbn [mbind option_bind].
  rewrite insert_insert_eq. change (stride (MkPool _ _ _ _ _ _ _)) with st.
  rewrite (proj2 (Z.ltb_lt (0 + st) _)) by nia. set (p1 := MkPool _ _ _ _ _ _ _).
  destruct (init_loop_spec fuel p1 0 n) as (p'&Hl&[Hnd Hseg Hhd Htl Hlk]&Hs1&Hs2&Hs3&Hs4);
    try done; try lia.
  { split; subst p1; cbn -[Z.mul]; try done.
    - apply NoDup_singleton.
    - eexists. rewrite lookup_insert_eq. split_and!; try done. simpl.
      change (stride (MkPool _ _ _ _ _ _ _)) with st.
      rewrite (proj2 (Z.ltb_lt _ _)) by nia. by rewrite Z.mul_1_l.
    - intros a. unfold locks. rewrite fmap_insert, fmap_empty, lookup_insert. simpl.
      case_decide as Ha; [subst; by rewrite decide_True by (by left)|].
      rewrite decide_False; [done|]. rewrite list_elem_of_singleton. lia. }
  change (stride p1) with st in Hl. rewrite Z.mul_1_l in Hl. exists p'. split; [done|].
  assert (stride p' = st) as Hst' by (unfold stride; by rewrite Hs2). rewrite Hst' in *.
  assert (laid st (n - 1) ≠ []) as Hne by (destruct (n - 1)%nat; [done|by rewrite laid_S]).
  split; [|done]. split; rewrite ?app_nil_r; try done.
  - rewrite Hs1 in Hseg. replace (S (n - 1)) with n in Hseg by lia.
    rewrite Z.ltb_irrefl in Hseg. done.
  - rewrite Hhd. destruct (n - 1)%nat; [done|by rewrite laid_S].
  - rewrite Htl. clear. induction (n - 1)%nat as [|k IH]; [done|]. rewrite laid_S. simpl.
    destruct (laid st k) eqn:E; [by destruct k|done].
  - unfold laid. rewrite length_fmap, length_reverse, length_seq. lia.
  - rewrite Hs3. unfold zlen, laid. rewrite length_fmap, length_reverse, length_seq. simpl. lia.
  - intros a (i&Hi&->)%elem_of_laid. rewrite Hs1. simpl. unfold sizeof_struct_slice in *. nia.
Qed.

(** ** The pool as a [MemoryPool] *)

#[export] Instance fixed_pool : MemoryPool FixedPoolImpl :=
  {| mp_alloc := alloc; mp_free := free |}.

(** The user pointers of the locked slices. *)
Definition live (p : FixedPoolImpl) : gset Z :=
  list_to_set ((λ kv, kv.1 + sizeof_struct_slice) <$>
    filter (λ kv, lock kv.2 ≠ 0) (map_to_list (slices p))).

Definition pool_inv (p : FixedPoolImpl) : Prop := ∃ F B, rep p F B.

Lemma elem_of_live p F B x :
  rep p F B → x ∈ live p ↔ ∃ a, a ∈ B ∧ x = a + sizeof_struct_slice.
Proof.
  intros Hr. unfold live. rewrite elem_of_list_to_set, list_elem_of_fmap.
  setoid_rewrite list_elem_of_filter. split.
  - intros ([a s]&->&Hl&Hm%elem_of_map_to_list). simpl in *. exists a. split; [|done].
    destruct (rep_lock _ _ _ _ _ Hr Hm) as [[? ?]|(?&?&?)]; [congruence|done].
  - intros (a&Ha&->).
    destruct (dseg_lookup _ _ _ _ a (rep_seg _ _ _ Hr)) as [s Hs]; [set_solver|].
    exists (a, s). split_and!; [done| |by apply elem_of_map_to_list].
    destruct (rep_lock _ _ _ _ _ Hr Hs) as [[HF _]|(_&_&Hl)]; [|simpl; by rewrite Hl].
    pose proof (rep_nodup _ _ _ Hr) as (_&Hd&_)%NoDup_app. by destruct (Hd a HF).
Qed.

Lemma alloc_cases p n :
  pool_inv p →
  (∃ a p' F B, rep p (a :: F) B ∧ rep p' F (B ++ [a]) ∧
     alloc p n = Some (Some (a + sizeof_struct_slice), p')) ∨
  (∃ B, rep p [] B ∧ alloc p n = Some (None, p)).
Proof.
  intros ([|a F]&B&Hr).
  - right. exists B. split; [done|]. by eapply alloc_full.
  - left. destruct (alloc_rep p F B a n Hr) as (p'&?&?). by exists a, p', F, B.
Qed.

Lemma alloc_fresh p n a p' :
  pool_inv p → alloc p n = Some (Some a, p') →
  pool_inv p' ∧ a ∉ live p ∧ live p' = {[a]} ∪ live p.
Proof.
  intros H Ha. destruct (alloc_cases p n H) as [(b&q&F&B&Hr&Hr'&He)|(?&_&He)];
    rewrite He in Ha; simplify_eq. split_and!.
  - by exists F, (B ++ [b]).
  - rewrite (elem_of_live _ _ _ _ Hr). intros (c&Hc&Heq).
    pose proof (rep_nodup _ _ _ Hr) as (_&Hd&_)%NoDup_app.
    assert (c = b) as -> by lia. apply (Hd b); [by left|done].
  - apply set_eq. intros x. rewrite elem_of_union, elem_of_singleton.
    rewrite (elem_of_live _ _ _ _ Hr), (elem_of_live _ _ _ _ Hr').
    setoid_rewrite elem_of_app. setoid_rewrite list_elem_of_singleton. naive_solver.
Qed.

Lemma free_live p a :
  pool_inv p → a ∈ live p →
  ∃ p', free p a = Some p' ∧ pool_inv p' ∧ live p' = live p ∖ {[a]}.
Proof.
  intros (F&B&Hr) Ha. rewrite (elem_of_live _ _ _ _ Hr) in Ha. destruct Ha as (b&Hb&->).
  destruct (free_rep p F B b Hr) as (p'&F'&B'&Hf&Hr'&_&HB); [set_solver|].
  exists p'. split_and!; [done|by exists F', B'|]. apply set_eq. intros x.
  rewrite elem_of_difference, elem_of_singleton.
  rewrite (elem_of_live _ _ _ _ Hr), (elem_of_live _ _ _ _ Hr'). setoid_rewrite HB.
  split; [intros (c&[? ?]&->)|intros [(c&?&->) ?]]; [split; [eauto|lia]|].
  exists c. split_and!; try done. intros ->. done.
Qed.

#[export] Instance fixed_pool_laws : MemoryPoolLaws FixedPoolImpl.
Proof.
  refine {| mp_inv := pool_inv; mp_live := live;
            mp_alloc_fresh := alloc_fresh; mp_free_live := free_live |}.
  - intros p n H. destruct (alloc_cases p n H) as [(?&?&?&?&_&_&?)|(?&_&?)]; eauto.
  - intros p n p' H Ha. destruct (alloc_cases p n H) as [(?&?&?&?&_&_&He)|(?&_&He)];
      simpl in Ha; rewrite He in Ha; by simplify_eq.
Defined.

(** ** Properties *)

(** The pools of [n] slices of [sz] bytes after any allocations and frees of blocks that are in
    use. *)
Inductive reached (n sz : Z) : FixedPoolImpl → Prop :=
  | reached_make p : make n sz = Some p → reached n sz p
  | reached_alloc p k r p' : reached n sz p → alloc p k = Some (r, p') → reached n sz p'
  | reached_free p a p' : reached n sz p → a ∈ live p → free p a = Some p' → reached n sz p'.

Lemma alloc_exact p n :
  pool_inv p →
  if slice_use p <? slice_num p
  then ∃ a p', alloc p n = Some (Some a, p') ∧ pool_inv p' ∧ a ∉ live p ∧
         live p' = {[a]} ∪ live p ∧ slice_use p' = slice_use p + 1 ∧
         slice_num p' = slice_num p
  else alloc p n = Some (None, p).
Proof.
  intros Hp. destruct (alloc_cases p n Hp) as [(a&p'&F&B&Hr&Hr'&He)|(B&Hr&He)].
  - destruct (rep_num _ _ _ Hr) as [Hn Hm]. destruct (rep_num _ _ _ Hr') as [Hn' _].
    rewrite zlen_app in Hn, Hn'. unfold zlen in Hn, Hn'. simpl in Hn. rewrite length_app in Hn'. simpl in Hn'.
    rewrite (proj2 (Z.ltb_lt _ _)) by (rewrite (rep_use _ _ _ Hr); unfold zlen; lia).
    exists (a + sizeof_struct_slice), p'.
    destruct (alloc_fresh p n _ p' Hp He) as (Hi&Hf&Hl). split_and!; try done.
    + rewrite (rep_use _ _ _ Hr), (rep_use _ _ _ Hr'), zlen_app. done.
    + lia.
  - destruct (rep_num _ _ _ Hr) as [Hn _]. simpl in Hn.
    by rewrite (proj2 (Z.ltb_ge _ _)) by (rewrite (rep_use _ _ _ Hr); lia).
Qed.

(** [FixedPool(slice_num, slice_size, shared)] establishes the invariant. *)
Lemma make_pool n sz :
  2 <= n < 4294967296 → 0 < sz < 2147483648 → ∃ p, make n sz = Some p ∧ pool_inv p ∧
    slice_num p = n ∧ slice_use p = 0.
Proof.
  intros Hn Hsz. unfold make. pose proof (aligned_size_bounds sz ltac:(lia)) as Hal.
  rewrite (u32_small (OSW_MEM_ALIGNED_SIZE sz)) by lia. set (ss := OSW_MEM_ALIGNED_SIZE sz) in *.
  rewrite u64_small by (unfold sizeof_struct_slice; nia).
  destruct (init_rep (Z.to_nat n) ss) as (p&Hi&Hr&_); [lia..|].
  rewrite Z2Nat.id in Hi by lia. exists p. destruct (rep_num _ _ _ Hr) as [Hnum _].
  split_and!; [done|by eexists _, _| |by rewrite (rep_use _ _ _ Hr)].
  rewrite Hnum, app_nil_r. unfold zlen, laid. rewrite length_fmap, length_reverse, length_seq. lia.
Qed.

Lemma live_empty p : pool_inv p → slice_use p = 0 → live p = ∅.
Proof.
  intros (F & B & Hr) Hu. rewrite (rep_use _ _ _ Hr) in Hu. apply zlen_0 in Hu as ->.
  apply set_eq. intros x. rewrite (elem_of_live _ _ _ _ Hr). set_solver.
Qed.

Lemma free_num p a p' : free p a = Some p' → slice_num p' = slice_num p.
Proof. unfold free. intros H. repeat (case_match; simplify_option_eq); done. Qed.

Lemma reached_inv n sz p :
  2 <= n < 4294967296 → 0 < sz < 2147483648 → reached n sz p → pool_inv p ∧ slice_num p = n.
Proof.
  intros Hn Hsz. induction 1 as [p Hm|p k r p' _ [Hi Hnum] Ha|p a p' _ [Hi Hnum] Hl Hf].
  - destruct (make_pool n sz Hn Hsz) as (q & Hq & ? & ? & _). rewrite Hm in Hq. by injection Hq as ->.
  - pose proof (alloc_exact p k Hi) as He. destruct (_ <? _).
    + destruct He as (a & q & Hq & ? & _ & _ & _ & ?). rewrite Ha in Hq. injection Hq as -> ->. split; [done|congruence].
    + rewrite He in Ha. by injection Ha as <- <-.
  - destruct (free_live p a Hi Hl) as (q & Hq & ? & _). rewrite Hf in Hq. injection Hq as ->.
    split; [done|]. rewrite <- Hnum. by eapply free_num.
Qed.

(** C2: exact allocation in the fixed pool.  In every state of a pool of at least two slices (with
    one slice the first [alloc] follows a null pointer, see [single_slice_alloc_faults]) that
    [alloc] and the [free] of blocks in use lead to, [alloc] returns null exactly when all [n]
    slices are in use; otherwise it returns a slice that nobody holds, and that one is in use
    then. *)
Theorem fixed_pool_alloc_exact n sz p k :
  2 <= n < 2 ^ 32 → 0 < sz < 2 ^ 31 → reached n sz p →
  if slice_use p <? n
  then ∃ a p', alloc p k = Some (Some a, p') ∧ a ∉ live p ∧ live p' = {[a]} ∪ live p ∧ slice_use p' = slice_use p + 1
  else alloc p k = Some (None, p).
Proof.
  intros Hn Hsz Hr. destruct (reached_inv n sz p Hn Hsz Hr) as [Hi Hnum]. pose proof (alloc_exact p k Hi) as He.
  rewrite Hnum in He. destruct (_ <? _); [|done]. destruct He as (a & p' & ? & _ & ? & ? & ? & _). by exists a, p'.
Qed.

Lemma fixed_pool_alloc_exact_witness :
  ∃ p, make 2 8 = Some p ∧
    if slice_use p <? 2
    then ∃ a p', alloc p 0 = Some (Some a, p') ∧ a ∉ live p ∧ live p' = {[a]} ∪ live p ∧ slice_use p' = slice_use p + 1
    else alloc p 0 = Some (None, p).
Proof.
  destruct (make_pool 2 8) as (p&Hm&_); [lia|lia|].
  exists p. split; [exact Hm|]. apply (fixed_pool_alloc_exact 2 8 p 0); [lia|lia|by apply reached_make].
Defined.

(** Memory of the caller that is no whole number of slices: the constructor writes the header of a
    slice past its end. *)
Example given_memory_overruns : make_in 8 (sizeof_struct_impl + 40) = None ∧ is_Some (make_in 8 (sizeof_struct_impl + 64)).
Proof. split; [by vm_compute|vm_compute; eauto]. Qed.

(** [free] of a live block always succeeds, makes exactly that block idle and
    decrements [slice_use]; the block is the one the next [alloc] returns. *)
Theorem fixed_pool_free_then_alloc p a n :
  pool_inv p → a ∈ live p →
  ∃ p', free p a = Some p' ∧ pool_inv p' ∧ live p' = live p ∖ {[a]} ∧
    slice_use p' = slice_use p - 1 ∧
    ∃ p'', alloc p' n = Some (Some a, p'') ∧ live p'' = live p.
Proof.
  intros Hp Ha. destruct (free_live p a Hp Ha) as (p'&Hf&Hi&Hl).
  exists p'. destruct Hp as (F&B&Hr). pose proof Ha as Ha'.
  rewrite (elem_of_live _ _ _ _ Hr) in Ha. destruct Ha as (b&Hb&->).
  destruct (list_elem_of_split _ _ Hb) as (B1&B2&HB).
  destruct (dseg_lookup _ _ _ _ b (rep_seg _ _ _ Hr)) as [s Hs]; [set_solver|].
  destruct (rep_lock _ _ _ _ _ Hr Hs) as [[HbF _]|(_&_&Hlk)].
  { pose proof (rep_nodup _ _ _ Hr) as (_&Hd&_)%NoDup_app. by destruct (Hd b HbF). }
  pose proof Hr as [Hnd Hseg Hhd Htl Htwo Hlks Huse [Hnum Hmax] Haddr].
  assert (F ++ B = (F ++ B1) ++ b :: B2) as HL by (by rewrite HB, app_assoc).
  rewrite HL in *.
  destruct (free_list p (F ++ B1) B2 b s) as (q&Hq&_&Hhq&_&Hlq&Huq&_); try done.
  { intros E. rewrite !length_app in Htwo. simpl in Htwo.
    apply app_eq_nil in E as [[-> ->]%app_eq_nil ->]. simpl in Htwo. lia. }
  { apply Haddr. set_solver. }
  assert (q = p') as -> by congruence. split_and!; try done.
  - rewrite Huq, Hlk, Huse. simpl. rewrite u32_small; [done|].
    unfold zlen in *. rewrite HB in *. rewrite !length_app in *. simpl in *. lia.
  - destruct Hi as (F'&B'&Hr'). pose proof (rep_head _ _ _ Hr') as Hh. rewrite Hhq in Hh.
    assert (∃ F0, F' = b :: F0) as [F0 ->].
    { destruct F' as [|c F0]; simpl in Hh; [|exists F0; congruence].
      destruct B' as [|c B0]; [done|]. simpl in Hh. simplify_eq.
      pose proof (rep_locks _ _ _ Hr' c) as Hlc. rewrite Hlq, lookup_insert_eq in Hlc.
      rewrite decide_False, decide_True in Hlc by set_solver. done. }
    destruct (alloc_rep p' F0 B' b n Hr') as (p''&He&Hr''). exists p''. split; [done|].
    destruct (alloc_fresh p' n _ p'' (ex_intro _ _ (ex_intro _ _ Hr')) He) as (_&_&->).
    simpl. rewrite Hl. apply set_eq. intros x. destruct (decide (x = b + sizeof_struct_slice)); set_solver.
Qed.

Lemma fixed_pool_free_then_alloc_witness :
  ∃ p a p', make 2 8 = Some p ∧ alloc p 0 = Some (Some a, p') ∧
    ∃ q, free p' a = Some q ∧ pool_inv q ∧ live q = live p' ∖ {[a]} ∧
      slice_use q = slice_use p' - 1 ∧
      ∃ q', alloc q 0 = Some (Some a, q') ∧ live q' = live p'.
Proof.
  destruct (make_pool 2 8) as (p&Hm&Hi&Hn&Hu); [lia|lia|].
  destruct (alloc_cases p 0 Hi) as [(a&p'&F&B&Hr&Hr'&He)|(B&Hr&_)].
  - exists p, (a + sizeof_struct_slice), p'. split; [exact Hm|]. split; [exact He|].
    apply (fixed_pool_free_then_alloc p' (a + sizeof_struct_slice) 0).
    + eexists _, _. exact Hr'.
    + rewrite (elem_of_live _ _ _ _ Hr'). exists a. set_solver.
  - exfalso. destruct (rep_num _ _ _ Hr) as [Hn' _]. rewrite (rep_use _ _ _ Hr) in Hu.
    simpl in Hn'. lia.
Defined.

(** A pool of one slice cannot be used: the first [alloc] follows the null
    [next] pointer of its only slice ([slice->next->pre = nullptr]). *)
Theorem single_slice_alloc_faults :
  ∃ p, make 1 8 = Some p ∧ slice_use p = 0 ∧ slice_num p = 1 ∧ alloc p 8 = None.
Proof. eexists. split; [vm_compute; reflexivity|]. by vm_compute. Qed.
