(* ===== verification/SharedMemory.v ===== *)
(** * Shared memory blocks: src/memory/shared_memory.cc

    A block is an anonymous shared mapping whose first eight bytes hold its size; the
    pointer handed out is eight bytes into the mapping.  [mmap] maps whole pages of zeros;
    whether it succeeds is the argument [ok].  A mapping is its bytes, so an access past its
    last page is [None]. *)

From S2P Require Import Prelude.

(** [sizeof(SharedMemory)]. *)
Definition sizeof_SharedMemory : Z := 8.

Section SharedMemory.
(** The page size of the system. *)
Context (page : Z).

Definition round_up (size : Z) : Z := page * ((size + page - 1) / page).

(** The kernel's side of [mmap(nullptr, size, ..., MAP_SHARED | MAP_ANONYMOUS)]: a length of
    0 is refused. *)
Definition mmap (ok : bool) (size : Z) : option bytes :=
  if ok && (0 <? size) then Some (replicate (Z.to_nat (round_up size)) 0) else None.

(** [SharedMemory::alloc], [osw_shm_malloc]: the mapping, or the null pointer. *)
Definition osw_shm_malloc (ok : bool) (size : Z) : option (option bytes) :=
  let size := OSW_MEM_ALIGNED_SIZE size in
  let size := u64 (size + sizeof_SharedMemory) in
  match mmap ok size with
  | None => Some None
  | Some mem => mem ← store mem 0 (le_bytes 8 size); Some (Some mem)
  end.

Definition osw_shm_calloc (ok : bool) (num size : Z) : option (option bytes) :=
  osw_shm_malloc ok (u64 (num * size)).

(** [SharedMemory::fetch_object(ptr)->size_]. *)
Definition object_size (mem : bytes) : option Z :=
  bs ← load mem 0 sizeof_SharedMemory; Some (le_val bs).

(** [SharedMemory::free]: [munmap(object, size)], the number of bytes of the mapping that
    stay mapped. *)
Definition osw_shm_free (mem : bytes) : option Z :=
  size ← object_size mem; Some (zlen mem - round_up size).

(** [osw_shm_realloc]: the new mapping, or null and the old one kept. *)
Definition osw_shm_realloc (ok : bool) (mem : bytes) (new_size : Z) : option (option bytes) :=
  size ← object_size mem;
  new ← osw_shm_malloc ok new_size;
  match new with
  | None => Some None
  | Some new =>
    data ← load mem sizeof_SharedMemory size;
    new ← store new sizeof_SharedMemory data;
    Some (Some new)
  end.

(** The bytes behind the pointer. *)
Definition payload (mem : bytes) : bytes := drop (Z.to_nat sizeof_SharedMemory) mem.
End SharedMemory.

(** ** Every block is zeroed and large enough *)

Section Facts.
Context (page : Z) (Hpage : 8 <= page).

Lemma round_up_bounds size : 0 <= size → size <= round_up page size < size + page.
Proof.
  intros H. unfold round_up.
  pose proof (Z.div_mod (size + page - 1) page ltac:(lia)).
  pose proof (Z.mod_pos_bound (size + page - 1) page ltac:(lia)). lia.
Qed.

(** The size that [osw_shm_malloc] records. *)
Definition mapped_size (size : Z) : Z := 8 * ((size + 7) / 8) + 8.

Lemma mapped_size_bounds size : 0 <= size → size + 8 <= mapped_size size < size + 16.
Proof. intros H. unfold mapped_size. zdiv. Qed.

Lemma shm_malloc_shape size :
  0 <= size < 2 ^ 62 →
  osw_shm_malloc page true size =
    Some (Some (le_bytes 8 (mapped_size size) ++
      replicate (Z.to_nat (round_up page (mapped_size size) - 8)) 0)).
Proof.
  intros H. pose proof (mapped_size_bounds size ltac:(lia)) as Hm.
  pose proof (round_up_bounds (mapped_size size) ltac:(lia)) as Hr.
  unfold osw_shm_malloc, sizeof_SharedMemory. rewrite aligned_size_eq by lia.
  fold (mapped_size size). rewrite u64_small by lia.
  unfold mmap. rewrite (proj2 (Z.ltb_lt 0 (mapped_size size))) by lia. cbn [andb].
  rewrite store_Some; [|lia|unfold zlen; rewrite le_bytes_length, length_replicate; lia].
  cbn [mbind option_bind]. rewrite le_bytes_length, take_0. cbn [app Nat.add Z.to_nat].
  rewrite drop_replicate. do 3 f_equal. f_equal. lia.
Qed.

Lemma shm_malloc_payload size :
  0 <= size < 2 ^ 62 →
  ∃ mem n, osw_shm_malloc page true size = Some (Some mem) ∧
    payload mem = replicate n 0 ∧ size <= Z.of_nat n ∧
    object_size mem = Some (mapped_size size) ∧ zlen mem = round_up page (mapped_size size).
Proof.
  intros H. pose proof (mapped_size_bounds size ltac:(lia)) as Hm.
  pose proof (round_up_bounds (mapped_size size) ltac:(lia)) as Hr.
  rewrite shm_malloc_shape by done. do 2 eexists. split; [done|].
  unfold payload, sizeof_SharedMemory. split; [|split; [|split]].
  - rewrite drop_app_length' by (by rewrite le_bytes_length). reflexivity.
  - lia.
  - unfold object_size, sizeof_SharedMemory.
    pose proof (load_mid [] (le_bytes 8 (mapped_size size))) as E. cbn [app] in E.
    rewrite E; [|done|unfold zlen; by rewrite le_bytes_length].
    cbn [mbind option_bind]. rewrite le_val_bytes, Z.mod_small; [done|].
    change (256 ^ Z.of_nat 8) with (2 ^ 64). lia.
  - rewrite zlen_app. unfold zlen. rewrite le_bytes_length, length_replicate. lia.
Qed.

Lemma shm_free_unmaps_all size mem :
  0 <= size < 2 ^ 62 → osw_shm_malloc page true size = Some (Some mem) →
  osw_shm_free page mem = Some 0.
Proof.
  intros H Hm. destruct (shm_malloc_payload size H) as (mem' & n & Hm' & _ & _ & Ho & Hl).
  assert (mem' = mem) as -> by congruence. unfold osw_shm_free. rewrite Ho.
  cbn [mbind option_bind]. f_equal. lia.
Qed.

(** [osw_shm_realloc] copies [size_] bytes, which counts the header that it does not copy:
    it stays inside both mappings exactly when their last pages leave eight bytes over, and
    then the old bytes are kept. *)
Lemma shm_realloc_exact mem size new_size :
  0 <= new_size < 2 ^ 62 → object_size mem = Some size → 8 <= size →
  zlen mem = round_up page size →
  (size + 8 <= round_up page size ∧ size + 8 <= round_up page (mapped_size new_size) →
   ∃ new, osw_shm_realloc page true mem new_size = Some (Some new) ∧
     object_size new = Some (mapped_size new_size) ∧ load new 8 size = load mem 8 size) ∧
  (¬ (size + 8 <= round_up page size ∧ size + 8 <= round_up page (mapped_size new_size)) →
   osw_shm_realloc page true mem new_size = None).
Proof.
  intros Hn Ho Hs Hl. destruct (shm_malloc_payload new_size Hn) as (new & n & Hm & _ & _ & Hno & Hnl).
  unfold osw_shm_realloc. rewrite Ho. cbn [mbind option_bind]. rewrite Hm.
  cbn [mbind option_bind]. unfold sizeof_SharedMemory. split.
  - intros [H1 H2]. rewrite (load_Some mem) by lia. cbn [mbind option_bind].
    set (data := take _ _). assert (zlen data = size) as Hd
      by (unfold data, zlen in *; rewrite length_take, length_drop; lia).
    destruct (store new 8 data) as [new'|] eqn:Es;
      [|rewrite store_Some in Es by lia; done].
    cbn [mbind option_bind]. exists new'. split; [done|]. split.
    + unfold object_size in *. unfold sizeof_SharedMemory in *.
      by rewrite (load_store_other _ _ _ _ 0 8 Es) by (left; lia).
    + rewrite <- Hd at 1. exact (load_store_same _ _ _ _ Es).
  - intros Hno'. destruct (decide (size + 8 <= round_up page size)) as [H1|H1].
    + rewrite (load_Some mem) by lia. cbn [mbind option_bind]. unfold store.
      set (data := take _ _). assert (zlen data = size) as Hd
        by (unfold data, zlen in *; rewrite length_take, length_drop; lia).
      rewrite (proj2 (Z.leb_gt (8 + zlen data) (zlen new))) by lia. by rewrite andb_false_r.
    + unfold load. rewrite (proj2 (Z.leb_gt (8 + size) (zlen mem))) by lia.
      by rewrite andb_false_r.
Qed.
End Facts.

(** A block of 4088 bytes fills its page with the header: reallocating it reads past the
    mapping. *)
Example shm_realloc_overruns :
  (mem ← osw_shm_malloc 4096 true 4088;
   match mem with Some mem => osw_shm_realloc 4096 true mem 8192 | None => Some None end) = None.
Proof. vm_compute. reflexivity. Qed.
