(* ===== verification/GlobalMemory.v ===== *)
(** * Global memory: src/memory/global_memory.cc

    Blocks are cut off the last page of the pool one after the other and never given back; a
    process other than the one that made a shared pool starts a pool of its own.  The pages
    that the operating system handed out are in the list [heap], a pointer is the number of
    its page and an offset. *)

From stdpp Require Import sorting.
From S2P Require Import Prelude MemoryPool SharedMemory.

Definition OSW_MIN_PAGE_SIZE : Z := 4096.

(** [sizeof(MemoryBlock)]. *)
Definition sizeof_MemoryBlock : Z := 8.

Record GlobalMemoryImpl := MkImpl {
  shared : bool; pagesize : Z; pages : list nat; alloc_offset : Z; create_pid : Z }.

Record GlobalMemory := MkGlobal { impl : GlobalMemoryImpl; heap : list (option bytes) }.

(** What a call takes from outside: [OpenSwooleG.pid], [getpid()], whether [mmap] succeeds,
    and the answer of [osw_malloc]. *)
Record env := MkEnv { e_gpid : Z; e_pid : Z; e_mmap : bool; e_malloc : Z → option bytes }.

(** A page, null (no memory) or the exception [std::bad_alloc]. *)
Inductive alloc_result := Block (p : nat * Z) | Null | BadAlloc.

Section GlobalMemory.
(** [OpenSwooleG.pagesize]. *)
Context (syspage : Z).

(** [OSW_MEM_ALIGNED_SIZE_EX(size, alignment)], computed in [long long]. *)
Definition OSW_MEM_ALIGNED_SIZE_EX (size alignment : Z) : Z :=
  Z.land (i64 (size + (alignment - 1))) (Z.lnot (alignment - 1)).

(** [GlobalMemoryImpl::new_page]; the inner [None] is the null pointer. *)
Definition new_page (e : env) (i : GlobalMemoryImpl) (heap : list (option bytes)) :
    option (option GlobalMemory) :=
  page ← (if shared i
          then mem ← osw_shm_malloc syspage (e_mmap e) (pagesize i); Some (option_map payload mem)
          else Some (e_malloc e (pagesize i)));
  match page with
  | None => Some None
  | Some page =>
    Some (Some (MkGlobal
      (MkImpl (shared i) (pagesize i) (pages i ++ [length heap]) 0 (create_pid i))
      (heap ++ [Some page])))
  end.

(** The constructor of [GlobalMemoryImpl]; the inner [None] is [std::bad_alloc]. *)
Definition new_impl (e : env) (pgsize : Z) (sh : bool) (heap : list (option bytes)) :
    option (option GlobalMemory) :=
  new_page e (MkImpl sh (u32 (OSW_MEM_ALIGNED_SIZE_EX pgsize syspage)) [] 0 (e_gpid e)) heap.

(** The constructor of [GlobalMemory]. *)
Definition make (e : env) (pgsize : Z) (sh : bool) : option (option GlobalMemory) :=
  if OSW_MIN_PAGE_SIZE <=? pgsize then new_impl e pgsize sh [] else None.

(** The block at [alloc_offset] of the last page. *)
Definition cut (g : GlobalMemory) (size alloc_size : Z) : option (alloc_result * GlobalMemory) :=
  let i := impl g in
  p ← last (pages i);
  mem ← heap g !! p;
  mem ← mem;
  let off := alloc_offset i in
  mem ← store mem off (le_bytes 4 size);
  mem ← store mem (off + sizeof_MemoryBlock) (replicate (Z.to_nat size) 0);
  Some (Block (p, off + sizeof_MemoryBlock),
        MkGlobal (MkImpl (shared i) (pagesize i) (pages i) (u32 (off + alloc_size)) (create_pid i))
          (<[p := Some mem]> (heap g))).

(** [GlobalMemory::alloc]. *)
Definition alloc (g : GlobalMemory) (e : env) (size : Z) : option (alloc_result * GlobalMemory) :=
  let size := u32 (OSW_MEM_ALIGNED_SIZE size) in
  let alloc_size := u32 (sizeof_MemoryBlock + size) in
  if pagesize (impl g) <? alloc_size then Some (Null, g) else
  own ← (if shared (impl g) && negb (create_pid (impl g) =? e_pid e)
         then new_impl e (pagesize (impl g)) (shared (impl g)) (heap g) else Some (Some g));
  match own with
  | None => Some (BadAlloc, g)
  | Some g =>
    let i := impl g in
    room ← (if pagesize i <? u32 (alloc_offset i + alloc_size)
            then new_page e i (heap g) else Some (Some g));
    match room with
    | None => Some (Null, g)
    | Some g => cut g size alloc_size
    end
  end.

(** [GlobalMemory::free]. *)
Definition free (g : GlobalMemory) (ptr : nat * Z) : GlobalMemory := g.

(** [GlobalMemory::destroy]: the pages of the pool's own process. *)
Definition destroy (g : GlobalMemory) : GlobalMemory :=
  MkGlobal (impl g) (foldl (λ h p, <[p := None]> h) (heap g) (pages (impl g))).

Definition capacity (g : GlobalMemory) : Z := u32 (pagesize (impl g) - alloc_offset (impl g)).

Definition get_memory_size (g : GlobalMemory) : Z :=
  u64 (pagesize (impl g) * zlen (pages (impl g))).

(** Accesses of a client through a pointer into a page. *)
Definition page_load (g : GlobalMemory) (p : nat * Z) (off n : Z) : option bytes :=
  mem ← heap g !! p.1; mem ← mem; load mem (p.2 + off) n.

Definition page_store (g : GlobalMemory) (p : nat * Z) (off : Z) (bs : bytes) :
    option GlobalMemory :=
  mem ← heap g !! p.1; mem ← mem; mem ← store mem (p.2 + off) bs;
  Some (MkGlobal (impl g) (<[p.1 := Some mem]> (heap g))).

#[export] Instance global_pool : BlockPool GlobalMemory (nat * Z) env := {
  bp_alloc g e n :=
    '(r, g) ← alloc g e n; Some (match r with Block p => Some p | _ => None end, g);
  bp_free g p := Some (free g p);
  bp_load := page_load;
  bp_store := page_store }.
End GlobalMemory.

Section Inv.
Context (k : Z) (Hk : 3 <= k <= 20).
Let syspage := 2 ^ k.

Definition ok_env (e : env) : Prop := ∀ n b, e_malloc e n = Some b → zlen b = n.

(** The blocks of a client lie one after the other in the pages. *)
Definition before (x y : (nat * Z) * Z) : Prop :=
  (x.1.1 < y.1.1)%nat ∨ x.1.1 = y.1.1 ∧ x.1.2 + x.2 <= y.1.2.

Definition in_page (g : GlobalMemory) (x : (nat * Z) * Z) : Prop :=
  0 <= x.2 ∧ sizeof_MemoryBlock <= x.1.2 ∧ x.1.2 + x.2 <= pagesize (impl g) ∧
  (x.1.1 < length (heap g))%nat ∧
  (S x.1.1 = length (heap g) → x.1.2 + x.2 <= alloc_offset (impl g)).

Definition pages_ok (pg : Z) (h : list (option bytes)) : Prop :=
  Forall (λ x, ∃ b, x = Some b ∧ pg <= zlen b) h.

Record global_inv (g : GlobalMemory) (L : list ((nat * Z) * Z)) : Prop := {
  gi_pagesize : 0 < pagesize (impl g) < 2 ^ 31;
  gi_aligned : (syspage | pagesize (impl g));
  gi_offset : 0 <= alloc_offset (impl g) <= pagesize (impl g);
  gi_last : ∃ p, last (pages (impl g)) = Some p ∧ S p = length (heap g);
  gi_pages : pages_ok (pagesize (impl g)) (heap g);
  gi_blocks : Forall (in_page g) L;
  gi_order : StronglySorted before L }.

Lemma aligned_ex_eq size :
  0 <= size < 2 ^ 62 →
  OSW_MEM_ALIGNED_SIZE_EX size syspage = syspage * ((size + syspage - 1) / syspage).
Proof.
  intros Hs. unfold OSW_MEM_ALIGNED_SIZE_EX, syspage.
  assert (2 ^ k <= 2 ^ 20) by (apply Z.pow_le_mono_r; lia).
  assert (0 < 2 ^ k) by (apply Z.pow_pos_nonneg; lia).
  rewrite i64_small by lia. replace (size + (2 ^ k - 1)) with (size + 2 ^ k - 1) by lia.
  replace (2 ^ k - 1) with (Z.ones k) by (rewrite Z.ones_equiv; lia).
  rewrite <- Z.ldiff_land, Z.ldiff_ones_r by lia.
  rewrite Z.shiftl_mul_pow2, Z.shiftr_div_pow2 by lia. lia.
Qed.

Lemma aligned_ex_id size :
  0 <= size < 2 ^ 32 → (syspage | size) → u32 (OSW_MEM_ALIGNED_SIZE_EX size syspage) = size.
Proof.
  intros Hs [q Hq]. rewrite aligned_ex_eq by lia.
  assert (0 < syspage) by (apply Z.pow_pos_nonneg; lia).
  replace (size + syspage - 1) with (syspage - 1 + q * syspage) by lia.
  rewrite Z.div_add, Z.div_small by lia. rewrite Z.add_0_l, Z.mul_comm, <- Hq.
  apply u32_small. lia.
Qed.

(** A new page is behind all blocks. *)
Lemma new_page_spec e i h :
  ok_env e → 0 < pagesize i < 2 ^ 31 →
  new_page syspage e i h = Some None ∨
  ∃ b, pagesize i <= zlen b ∧
    new_page syspage e i h = Some (Some (MkGlobal
      (MkImpl (shared i) (pagesize i) (pages i ++ [length h]) 0 (create_pid i)) (h ++ [Some b]))).
Proof.
  intros He Hp. unfold new_page.
  assert (8 <= syspage) by (unfold syspage; change 8 with (2 ^ 3); apply Z.pow_le_mono_r; lia).
  destruct (shared i).
  - destruct (e_mmap e); [|left; reflexivity].
    destruct (shm_malloc_payload syspage ltac:(lia) (pagesize i) ltac:(lia))
      as (mem & n & -> & Hpl & Hn & _).
    right. exists (payload mem). rewrite Hpl. cbn [mbind option_bind option_map].
    rewrite Hpl. split; [|done]. unfold zlen. rewrite length_replicate. lia.
  - cbn [mbind option_bind]. destruct (e_malloc e (pagesize i)) as [b|] eqn:Eb; [|by left].
    right. exists b. split; [|done]. rewrite (He _ _ Eb). lia.
Qed.

Lemma page_load_snoc g i x L :
  Forall (in_page g) L → same_blocks (H := global_pool syspage) L g (MkGlobal i (heap g ++ [x])).
Proof.
  intros HL [p o] l Hin. rewrite Forall_forall in HL. destruct (HL _ Hin) as (_&_&_&Hp&_).
  cbn [bp_load global_pool]. unfold page_load. cbn [heap fst] in *. by rewrite lookup_app_l.
Qed.

Lemma add_page_inv g L i b :
  global_inv g L → pagesize (impl g) <= zlen b → pagesize i = pagesize (impl g) →
  alloc_offset i = 0 → last (pages i) = Some (length (heap g)) →
  global_inv (MkGlobal i (heap g ++ [Some b])) L.
Proof.
  intros [H1 H2 H3 H4 H5 H6 H7] Hb Hp Ho Hl.
  constructor; cbn [impl heap]; rewrite ?Hp, ?Ho; try done; try lia.
  - exists (length (heap g)). split; [done|]. rewrite length_app. cbn. lia.
  - apply Forall_app. split; [done|]. constructor; [by exists b|done].
  - eapply Forall_impl; [exact H6|]. intros x (?&?&?&?&?). unfold in_page.
    cbn [impl heap]. rewrite length_app, Hp. cbn [length].
    do 3 (split; [done|]). split; lia.
Qed.

Lemma same_blocks_write (L : list ((nat * Z) * Z)) g i p mem mem' :
  heap g !! p = Some (Some mem) →
  (∀ o l, ((p, o), l) ∈ L → load mem' o l = load mem o l) →
  same_blocks (H := global_pool syspage) L g (MkGlobal i (<[p := Some mem']> (heap g))).
Proof.
  intros Hp Hm [q o] l Hin. cbn [bp_load global_pool]. unfold page_load. cbn [heap fst snd].
  destruct (decide (q = p)) as [->|Hne].
  - rewrite list_lookup_insert_eq by (by eapply lookup_lt_Some). rewrite Hp.
    cbn [mbind option_bind]. rewrite Z.add_0_r. by apply Hm.
  - by rewrite list_lookup_insert_ne.
Qed.

Lemma write_page_ok pg h p mem mem' :
  pages_ok pg h → h !! p = Some (Some mem) → zlen mem' = zlen mem →
  pages_ok pg (<[p := Some mem']> h).
Proof.
  intros Hh Hp Hl. apply Forall_insert; [done|]. exists mem'. split; [done|]. rewrite Hl.
  destruct (Forall_lookup_1 _ _ _ _ Hh Hp) as (b & [= <-] & ?). done.
Qed.

Lemma current_page g L :
  global_inv g L →
  ∃ p mem, last (pages (impl g)) = Some p ∧ S p = length (heap g) ∧
    heap g !! p = Some (Some mem) ∧ pagesize (impl g) <= zlen mem.
Proof.
  intros [_ _ _ (p & Hl & Hp) H5 _ _]. exists p.
  destruct (lookup_lt_is_Some_2 (heap g) p) as [x Hx]; [lia|].
  destruct (Forall_lookup_1 _ _ _ _ H5 Hx) as (mem & -> & ?). by exists mem.
Qed.

Lemma cut_spec g L size n :
  global_inv g L → 0 <= n <= size → alloc_offset (impl g) + (8 + size) <= pagesize (impl g) →
  ∃ p g', cut g size (8 + size) = Some (Block (p, alloc_offset (impl g) + 8), g') ∧
    same_blocks (H := global_pool syspage) L g g' ∧
    global_inv g' (L ++ [((p, alloc_offset (impl g) + 8), n)]) ∧
    page_load g' (p, alloc_offset (impl g) + 8) 0 size = Some (replicate (Z.to_nat size) 0) ∧
    alloc_offset (impl g') = alloc_offset (impl g) + (8 + size).
Proof.
  intros Hg Hn Hroom. destruct (current_page _ _ Hg) as (p & mem & Hl & Hp & Hm & Hz).
  destruct Hg as [H1 H2 H3 H4 H5 H6 H7].
  unfold cut. rewrite Hl. cbn [mbind option_bind]. rewrite Hm. cbn [mbind option_bind].
  set (o := alloc_offset (impl g)) in *. unfold sizeof_MemoryBlock.
  assert (zlen (le_bytes 4 size) = 4) as L4 by (unfold zlen; by rewrite le_bytes_length).
  assert (zlen (replicate (Z.to_nat size) 0) = size) as Lz
    by (unfold zlen; rewrite length_replicate; lia).
  destruct (store mem o (le_bytes 4 size)) as [m1|] eqn:E1;
    [|by rewrite store_Some in E1 by lia].
  pose proof (store_length _ _ _ _ E1) as L1. cbn [mbind option_bind].
  destruct (store m1 (o + 8) _) as [m2|] eqn:E2; [|by rewrite store_Some in E2 by lia].
  pose proof (store_length _ _ _ _ E2) as L2. cbn [mbind option_bind].
  rewrite u32_small by lia. do 2 eexists. split; [done|].
  split; [|split; [|split; [|done]]].
  - apply same_blocks_write with (mem := mem); [done|]. intros o' l Hin.
    rewrite Forall_forall in H6. destruct (H6 _ Hin) as (?&?&?&?&Ho). cbn [fst snd] in *.
    specialize (Ho Hp). rewrite (load_store_other _ _ _ _ _ _ E2) by (left; lia).
    by rewrite (load_store_other _ _ _ _ _ _ E1) by (left; lia).
  - constructor; cbn [impl heap pagesize alloc_offset pages]; try done; try lia.
    + exists p. by rewrite length_insert.
    + eapply write_page_ok; [done..|]. lia.
    + apply Forall_app. split.
      * eapply Forall_impl; [exact H6|]. intros x (?&?&?&?&?). unfold in_page.
        cbn [impl heap pagesize alloc_offset]. rewrite length_insert.
        do 4 (split; [done|]). lia.
      * constructor; [|done]. unfold in_page, sizeof_MemoryBlock.
        cbn [impl heap pagesize alloc_offset fst snd]. rewrite length_insert. lia.
    + apply StronglySorted_app. split; [|split; [done|repeat constructor]].
      intros x y Hx ->%list_elem_of_singleton. rewrite Forall_forall in H6.
      destruct (H6 _ Hx) as (?&?&?&Hlt&Ho). unfold before. cbn [fst snd].
      destruct (decide (x.1.1 = p)) as [Ex|]; [right|left; lia].
      split; [done|]. rewrite Ex in Ho. specialize (Ho Hp). lia.
  - unfold page_load. cbn [heap fst snd].
    rewrite list_lookup_insert_eq by (by eapply lookup_lt_Some). cbn [mbind option_bind].
    rewrite Z.add_0_r, <- Lz at 1. exact (load_store_same _ _ _ _ E2).
Qed.

Lemma same_blocks_trans (L : list ((nat * Z) * Z)) g1 g2 g3 :
  same_blocks (H := global_pool syspage) L g1 g2 →
  same_blocks (H := global_pool syspage) L g2 g3 →
  same_blocks (H := global_pool syspage) L g1 g3.
Proof. intros H1 H2 a l Hin. rewrite H2, H1; done. Qed.

(** Starting a new page, for the pool itself or for a new process. *)
Lemma grow_spec g L e i :
  global_inv g L → ok_env e → pagesize i = pagesize (impl g) →
  new_page syspage e i (heap g) = Some None ∨
  ∃ g', new_page syspage e i (heap g) = Some (Some g') ∧ global_inv g' L ∧
    same_blocks (H := global_pool syspage) L g g' ∧
    pagesize (impl g') = pagesize (impl g) ∧ alloc_offset (impl g') = 0.
Proof.
  intros Hg He Hi. pose proof (gi_pagesize _ _ Hg) as Hp.
  destruct (new_page_spec e i (heap g) He ltac:(lia)) as [?|(b & Hb & ->)]; [by left|].
  right. eexists. split; [done|]. split.
  { apply add_page_inv; [done|cbn..]; try lia. by rewrite last_snoc. }
  split; [|done]. apply page_load_snoc. apply Hg.
Qed.

Lemma own_spec g L e :
  global_inv g L → ok_env e →
  ∃ own, (if shared (impl g) && negb (create_pid (impl g) =? e_pid e)
      then new_impl syspage e (pagesize (impl g)) (shared (impl g)) (heap g)
      else Some (Some g)) = Some own ∧
    match own with
    | None => ∃ i, new_page syspage e i (heap g) = Some None
    | Some g1 => global_inv g1 L ∧ same_blocks (H := global_pool syspage) L g g1 ∧
        pagesize (impl g1) = pagesize (impl g)
    end.
Proof.
  intros Hg He. destruct (_ && _).
  2: { exists (Some g). split; [done|]. split; [done|]. by split; [intros ??|]. }
  unfold new_impl. pose proof (gi_pagesize _ _ Hg).
  rewrite aligned_ex_id by (try apply Hg; lia).
  match goal with |- context [new_page _ _ ?i _] =>
    destruct (grow_spec g L e i Hg He eq_refl) as [Hn|(g1 & Hn & ? & ? & ? & ?)] end;
    rewrite Hn; eexists; (split; [done|]); cbv beta iota; [by eexists|done].
Qed.

Lemma room_spec g L e alloc_size :
  global_inv g L → ok_env e → 0 <= alloc_size <= pagesize (impl g) →
  ∃ room, (if pagesize (impl g) <? u32 (alloc_offset (impl g) + alloc_size)
      then new_page syspage e (impl g) (heap g) else Some (Some g)) = Some room ∧
    match room with
    | None => ∃ i, new_page syspage e i (heap g) = Some None
    | Some g2 => global_inv g2 L ∧ same_blocks (H := global_pool syspage) L g g2 ∧
        alloc_offset (impl g2) + alloc_size <= pagesize (impl g2)
    end.
Proof.
  intros Hg He Ha. pose proof (gi_pagesize _ _ Hg). pose proof (gi_offset _ _ Hg).
  rewrite u32_small by lia.
  destruct (Z.ltb_spec (pagesize (impl g)) (alloc_offset (impl g) + alloc_size)).
  - destruct (grow_spec g L e (impl g) Hg He eq_refl) as [Hn|(g2 & Hn & ? & ? & Hp & Ho)];
      rewrite Hn; eexists; (split; [done|]); cbv beta iota; [by eexists|].
    rewrite Hp, Ho. by split; [|split; [|lia]].
  - exists (Some g). split; [done|]. split; [done|]. by split; [intros ??|].
Qed.

(** [alloc] on every branch: it returns a zeroed block of the requested size behind all the
    others, or none because the block exceeds a page or because the system has no memory. *)
Lemma alloc_spec g L e n :
  global_inv g L → ok_env e → 0 <= n <= 2 ^ 32 - 16 →
  ∃ r g', alloc syspage g e n = Some (r, g') ∧
    same_blocks (H := global_pool syspage) L g g' ∧
    match r with
    | Block a =>
        global_inv g' (L ++ [(a, n)]) ∧ page_load g' a 0 n = Some (replicate (Z.to_nat n) 0)
    | Null => global_inv g' L ∧
        (pagesize (impl g) < 8 + 8 * ((n + 7) / 8) ∨ ∃ i, new_page syspage e i (heap g') = Some None)
    | BadAlloc => g' = g ∧ ∃ i, new_page syspage e i (heap g) = Some None
    end.
Proof.
  intros Hg He Hn. unfold alloc, sizeof_MemoryBlock.
  rewrite aligned_size_eq, (u32_small (8 * _)) by zdiv.
  set (size := 8 * ((n + 7) / 8)). assert (n <= size < n + 8) as Hs by (unfold size; zdiv).
  assert (size mod 8 = 0) as Hmod by (unfold size; zdiv).
  rewrite (u32_small (8 + size)) by zdiv.
  destruct (Z.ltb_spec (pagesize (impl g)) (8 + size)) as [Hlt|Hge].
  { exists Null, g. split; [done|]. split; [by intros ??|]. split; [done|by left]. }
  destruct (own_spec g L e Hg He) as (own & -> & Hown).
  cbn [mbind option_bind]. destruct own as [g1|].
  2: { exists BadAlloc, g. split; [done|]. split; [by intros ??|done]. }
  destruct Hown as (Hg1 & Hsb & Hpg).
  destruct (room_spec g1 L e (8 + size) Hg1 He ltac:(lia)) as (room & -> & Hroom).
  cbn [mbind option_bind]. destruct room as [g2|].
  2: { exists Null, g1. split; [done|]. split; [done|]. split; [done|by right]. }
  destruct Hroom as (Hg2 & Hsb2 & Hfit).
  destruct (cut_spec g2 L size n Hg2 ltac:(lia) Hfit) as (p & g3 & -> & Hsb3 & Hg3 & Hz & _).
  exists (Block (p, alloc_offset (impl g2) + 8)), g3. split; [done|].
  split; [eapply same_blocks_trans; [exact Hsb|]; by eapply same_blocks_trans|]. split; [done|].
  unfold page_load in *. destruct (heap g3 !! _) as [[m|]|]; try done. cbn [mbind option_bind] in *.
  rewrite <- (Z.add_0_r (_ + 0)), (load_sub _ _ _ _ 0 n Hz) by lia.
  by rewrite drop_0, take_replicate, Nat.min_l by lia.
Qed.

Lemma page_load_block g L a n :
  global_inv g L → (a, n) ∈ L → ∃ bs, page_load g a 0 n = Some bs ∧ zlen bs = n.
Proof.
  intros Hg Hin. pose proof (gi_blocks _ _ Hg) as HL. rewrite Forall_forall in HL.
  destruct (HL _ Hin) as (H1&H2&H3&H4&_). unfold sizeof_MemoryBlock in *. cbn [fst snd] in *.
  destruct (lookup_lt_is_Some_2 (heap g) a.1 H4) as [x Hx].
  destruct (Forall_lookup_1 _ _ _ _ (gi_pages _ _ Hg) Hx) as (mem & -> & ?).
  destruct (load mem (a.2 + 0) n) as [bs|] eqn:E; [|by rewrite load_Some in E by lia].
  exists bs. unfold page_load. rewrite Hx. cbn [mbind option_bind]. split; [done|].
  by eapply load_length.
Qed.

Lemma global_inv_sublist g L1 x L2 : global_inv g (L1 ++ x :: L2) → global_inv g (L1 ++ L2).
Proof.
  intros [H1 H2 H3 H4 H5 H6 H7]. constructor; try done.
  - apply Forall_app in H6 as [? [??]%Forall_cons]. by apply Forall_app.
  - apply StronglySorted_app in H7 as (Ha & Hb & Hc). apply StronglySorted_app.
    inversion Hc; subst. split; [|done]. intros. apply Ha; set_solver.
Qed.

Lemma page_store_spec g L1 a l L2 off bs :
  global_inv g (L1 ++ (a, l) :: L2) → 0 <= off → off + zlen bs <= l →
  ∃ g' old, page_store g a off bs = Some g' ∧ global_inv g' (L1 ++ (a, l) :: L2) ∧
    same_blocks (H := global_pool syspage) (L1 ++ L2) g g' ∧
    page_load g a 0 l = Some old ∧ page_load g' a 0 l = store old off bs.
Proof.
  intros Hg Ho Hl. destruct a as [p o].
  destruct (page_load_block _ _ (p, o) l Hg) as (old & Hold & Hlen); [set_solver|].
  unfold page_load, page_store in *. cbn [fst snd] in *.
  destruct (heap g !! p) as [[mem|]|] eqn:Hp; try done. cbn [mbind option_bind] in *.
  rewrite Z.add_0_r in Hold. pose proof (load_is_Some _ _ _ _ Hold) as (B1&B2&B3&_).
  destruct (store mem (o + off) bs) as [mem'|] eqn:Es; [|rewrite store_Some in Es by lia; done].
  cbn [mbind option_bind]. do 2 eexists. split; [done|].
  pose proof Hg as [H1 H2 H3 H4 H5 H6 H7]. split; [|split; [|split; [by rewrite Z.add_0_r|]]].
  - constructor; cbn [impl heap]; try done.
    + destruct H4 as (q & ? & ?). exists q. by rewrite length_insert.
    + eapply write_page_ok; [done..|]. by eapply store_length.
    + eapply Forall_impl; [exact H6|]. intros x Hx. unfold in_page in *. cbn [impl heap].
      by rewrite length_insert.
  - apply same_blocks_write with (mem := mem); [done|]. intros o' l' Hin.
    apply (load_store_other _ _ _ _ _ _ Es).
    apply StronglySorted_app in H7 as (Ha & _ & Hc).
    apply StronglySorted_inv in Hc as [_ Hfa].
    rewrite Forall_forall in Hfa. apply elem_of_app in Hin as [Hin|Hin].
    + specialize (Ha _ ((p, o), l) Hin ltac:(set_solver)). unfold before in Ha.
      cbn [fst snd] in Ha. lia.
    + specialize (Hfa _ Hin). unfold before in Hfa. cbn [fst snd] in Hfa. lia.
  - cbn [heap]. rewrite list_lookup_insert_eq by (by eapply lookup_lt_Some).
    cbn [mbind option_bind]. rewrite Z.add_0_r. by eapply load_store_inside.
Qed.

#[export] Instance global_laws : BlockPoolLaws GlobalMemory (nat * Z) env
    (H := global_pool syspage).
Proof.
  refine {| bp_inv := global_inv; bp_ok e n := ok_env e ∧ 0 <= n <= 2 ^ 32 - 16 |}.
  - intros g L e n Hg [He Hn]. cbn [bp_alloc global_pool].
    destruct (alloc_spec g L e n Hg He Hn) as (r & g' & -> & Hs & Hr).
    cbn [mbind option_bind]. do 2 eexists. split; [done|]. split; [done|].
    destruct r; [apply Hr..|]. by destruct Hr as [-> _].
  - intros g L1 a l L2 Hg. exists g. split; [done|].
    split; [by eapply global_inv_sublist|by intros ??].
  - intros g L a l Hg Hin. by eapply page_load_block.
  - intros. by eapply page_store_spec.
Defined.

Lemma make_global_inv e pgsize sh g :
  ok_env e → 0 < pgsize → syspage * ((pgsize + syspage - 1) / syspage) < 2 ^ 31 →
  make syspage e pgsize sh = Some (Some g) → global_inv g [].
Proof.
  intros He Hp Hlt. unfold make. destruct (_ <=? _); [|done]. unfold new_impl.
  assert (0 < syspage) by (apply Z.pow_pos_nonneg; lia).
  assert (syspage <= 2 ^ 20) by (apply Z.pow_le_mono_r; lia).
  assert (pgsize < 2 ^ 31 + 2 ^ 20) as Hb.
  { pose proof (Z.div_mod (pgsize + syspage - 1) syspage ltac:(lia)).
    pose proof (Z.mod_pos_bound (pgsize + syspage - 1) syspage ltac:(lia)). lia. }
  rewrite aligned_ex_eq by lia.
  assert (0 < (pgsize + syspage - 1) / syspage) by (apply Z.div_str_pos; lia).
  rewrite u32_small by lia. set (q := _ / _) in *. assert (0 < syspage * q) by nia.
  match goal with |- new_page _ _ ?i _ = _ → _ =>
    destruct (new_page_spec e i [] He ltac:(cbn; lia)) as [->|(b & Hb' & ->)] end; [done|].
  intros [= <-]. cbn [pagesize shared pages create_pid app length] in *.
  constructor; cbn [impl heap pagesize alloc_offset pages]; try done; try lia.
  - exists q. lia.
  - by exists 0%nat.
  - constructor; [by exists b|done].
  - constructor.
Qed.
End Inv.

(** C16: the pool hands out blocks that do not overlap and lie inside its pages, for any sequence
    of allocations of at most [2 ^ 32 - 16] bytes (larger sizes wrap, see [alloc_size_wraps] and
    [alloc_size_overruns]), writes, reads and frees of a client, in any process and whatever the
    system answers; the client never faults and finds in each block what it wrote there.
    [2 ^ k] is the system's page size; the pages of the pool are smaller than 2 GiB. *)
Theorem global_memory_bounds k e pgsize sh g os :
  3 <= k <= 20 → ok_env e → 0 < pgsize → 2 ^ k * ((pgsize + 2 ^ k - 1) / 2 ^ k) < 2 ^ 31 →
  make (2 ^ k) e pgsize sh = Some (Some g) →
  Forall (λ o, match o with
    | BAlloc e n => ok_env e ∧ 0 <= n <= 2 ^ 32 - 16 | _ => True end) os →
  ∃ rs g' hs m, exec (blk_step (H := global_pool (2 ^ k))) (g, []) os = Some (rs, (g', hs)) ∧
    runs blocks_step [] os rs m ∧
    pages_ok (pagesize (impl g')) (heap g') ∧
    Forall (in_page g') (omap id hs) ∧ StronglySorted before (omap id hs).
Proof.
  intros Hk He Hp Hlt Hm Hos. pose proof (make_global_inv k Hk e pgsize sh g He Hp Hlt Hm) as Hg.
  destruct (blk_client_refines (H0 := global_laws k Hk) os g Hg) as
    (rs & [g' hs] & m & Hx & [Hi _] & Hr); [exact Hos|].
  exists rs, g', hs, m. cbn [fst snd] in Hi. by destruct Hi.
Qed.

Definition test_env (gpid pid : Z) : env :=
  MkEnv gpid pid true (λ n, if 0 <=? n then Some (replicate (Z.to_nat n) 170) else None).

Lemma test_env_ok gpid pid : ok_env (test_env gpid pid).
Proof.
  intros n b. cbn [e_malloc test_env]. case_Z; [|done]. intros [= <-].
  unfold zlen. rewrite length_replicate. lia.
Qed.

(** A private pool that takes a second page; the second block is written, the first freed. *)
Lemma global_memory_bounds_witness : ∃ g rs g' hs m,
  make (2 ^ 12) (test_env 1 1) 4096 false = Some (Some g) ∧
  exec (blk_step (H := global_pool (2 ^ 12))) (g, [])
    [BAlloc (test_env 1 1) 4000; BAlloc (test_env 1 1) 100; BWrite 1 2 [5; 6];
     BRead 1; BFree 0] = Some (rs, (g', hs)) ∧
  runs blocks_step []
    [BAlloc (test_env 1 1) 4000; BAlloc (test_env 1 1) 100; BWrite 1 2 [5; 6];
     BRead 1; BFree 0] rs m ∧
  pages_ok (pagesize (impl g')) (heap g') ∧
  Forall (in_page g') (omap id hs) ∧ StronglySorted before (omap id hs).
Proof.
  pose proof (global_memory_bounds 12 (test_env 1 1) 4096 false) as T.
  destruct (make (2 ^ 12) (test_env 1 1) 4096 false) as [[g|]|] eqn:E;
    [|vm_compute in E; discriminate..].
  destruct (T g [BAlloc (test_env 1 1) 4000; BAlloc (test_env 1 1) 100; BWrite 1 2 [5; 6];
     BRead 1; BFree 0]) as (rs & g' & hs & m & H).
  - lia.
  - apply test_env_ok.
  - lia.
  - reflexivity.
  - reflexivity.
  - repeat constructor; try apply test_env_ok; lia.
  - exists g, rs, g', hs, m. split; [reflexivity|exact H].
Defined.

(** A request of 2^32 - 4 bytes is rounded up to 2^32, which is 0 in 32 bits: the caller gets
    a block of no bytes, and the next block starts where its data would be. *)
Example alloc_size_wraps :
  (g ← make 4096 (test_env 1 1) 4096 false;
   match g with
   | Some g =>
     '(r1, g) ← alloc 4096 g (test_env 1 1) (2 ^ 32 - 4);
     '(r2, g) ← alloc 4096 g (test_env 1 1) 8;
     Some (r1, r2)
   | None => None
   end) = Some (Block (0%nat, 8), Block (0%nat, 16)).
Proof. vm_compute. reflexivity. Qed.

(** A request of 2^32 - 8 bytes passes the check against the page size as a block of 0 bytes
    and is then zeroed over its full length: a write past the page. *)
Lemma alloc_size_overruns syspage g e p mem :
  shared (impl g) = false → 0 <= alloc_offset (impl g) < pagesize (impl g) →
  pagesize (impl g) < 2 ^ 31 → last (pages (impl g)) = Some p →
  heap g !! p = Some (Some mem) → zlen mem < 2 ^ 32 - 8 →
  alloc syspage g e (2 ^ 32 - 8) = None.
Proof.
  intros Hs Ho Hpg Hl Hp Hz. unfold alloc.
  change (u32 (OSW_MEM_ALIGNED_SIZE (2 ^ 32 - 8))) with (2 ^ 32 - 8).
  change (u32 (sizeof_MemoryBlock + (2 ^ 32 - 8))) with 0.
  rewrite (proj2 (Z.ltb_ge _ _)) by lia. rewrite Hs. cbn [andb mbind option_bind].
  rewrite Z.add_0_r, u32_small by lia. rewrite (proj2 (Z.ltb_ge _ _)) by lia.
  cbn [mbind option_bind]. unfold cut. rewrite Hl. cbn [mbind option_bind]. rewrite Hp.
  cbn [mbind option_bind]. destruct (store mem _ _) as [m1|] eqn:E1; [|done].
  pose proof (store_length _ _ _ _ E1) as L1. cbn [mbind option_bind].
  destruct (store m1 _ _) as [m2|] eqn:E2; [|done].
  apply store_is_Some in E2 as (_ & E2 & _). exfalso.
  unfold zlen at 1 in E2. rewrite length_replicate in E2. unfold sizeof_MemoryBlock in E2. lia.
Qed.
