(* ===== verification/RingBuffer.v ===== *)
(** * Ring buffer: src/memory/ring_buffer.cc

    Items with an eight-byte header are laid out one after the other in a ring and collected
    in that order once they are freed.  [memory] is what follows the structure
    [RingBufferImpl] in its block, with offset 0 at [impl->memory]; an access outside it, or
    a failed assertion, is [None]. *)

From stdpp Require Import sorting.
From S2P Require Import Prelude MemoryPool SharedMemory.

(** [sizeof(RingBufferImpl)], [sizeof(RingBufferItem)] and the size of a pointer on LP64. *)
Definition sizeof_RingBufferImpl : Z := 32.
Definition sizeof_RingBufferItem : Z := 8.
Definition sizeof_pointer : Z := 8.

Record RingBufferImpl := MkRing {
  memory : bytes; status : Z; size : Z; alloc_offset : Z; collect_offset : Z;
  alloc_count : Z; free_count : Z }.

(** The fields of [struct RingBufferItem] at offset [item]. *)
Definition item_lock (mem : bytes) (item : Z) : option Z := le_val <$> load mem item 2.
Definition item_length (mem : bytes) (item : Z) : option Z := le_val <$> load mem (item + 4) 4.
Definition set_lock (mem : bytes) (item v : Z) : option bytes := store mem item (le_bytes 2 v).
Definition set_index (mem : bytes) (item v : Z) : option bytes :=
  store mem (item + 2) (le_bytes 2 v).
Definition set_length (mem : bytes) (item v : Z) : option bytes :=
  store mem (item + 4) (le_bytes 4 v).

(** The block of the constructor: [osw_shm_malloc(size)], behind the header of the mapping, or
    [osw_malloc(size)]; [ok]: the system has the memory, [fresh]: what the memory of the heap
    holds. *)
Definition block (page : Z) (fresh : nat → bytes) (shared ok : bool) (size : Z) : option (option bytes) :=
  if shared then option_map (option_map payload) (osw_shm_malloc page ok size)
  else Some (if ok then Some (fresh (Z.to_nat size)) else None).

(** [RingBuffer::RingBuffer]; [Some None] is the exception [bad_alloc]. *)
Definition make (page : Z) (fresh : nat → bytes) (shared ok : bool) (size : Z) : option (option RingBufferImpl) :=
  let size := u32 (OSW_MEM_ALIGNED_SIZE size) in
  mem ← block page fresh shared ok size;
  match mem with
  | None => Some None
  | Some mem =>
    mem ← store mem 0 (replicate (Z.to_nat sizeof_RingBufferImpl) 0);
    Some (Some (MkRing (drop (Z.to_nat sizeof_RingBufferImpl) mem) 0 (u32 (size - sizeof_pointer)) 0 0 0 0))
  end.

(** [RingBufferImpl::collect]; the loop tests the counter that it decrements. *)
Fixpoint collect_loop (fuel : nat) (i : Z) (r : RingBufferImpl) : option RingBufferImpl :=
  match fuel with
  | O => None
  | S fuel =>
    if i <? free_count r then
      lock ← item_lock (memory r) (collect_offset r);
      if lock =? 0 then
        len ← item_length (memory r) (collect_offset r);
        let n_size := u32 (len + sizeof_RingBufferItem) in
        let co := u32 (collect_offset r + n_size) in
        let wraps := (size r <? co + sizeof_RingBufferItem) || (size r <=? co) in
        collect_loop fuel (u32 (i + 1))
          (MkRing (memory r) (if wraps then 0 else status r) (size r) (alloc_offset r)
             (if wraps then 0 else co) (alloc_count r) (u32 (free_count r - 1)))
      else Some r
    else Some r
  end.

Definition collect (r : RingBufferImpl) : option RingBufferImpl :=
  collect_loop (S (Z.to_nat (free_count r))) 0 r.

(** The end of the ring is too short: the rest of it becomes a freed item. *)
Definition skip_end (r : RingBufferImpl) : option RingBufferImpl :=
  let skip_n := u32 (size r - alloc_offset r) in
  mf ← (if sizeof_RingBufferItem <=? skip_n then
          mem ← set_lock (memory r) (alloc_offset r) 0;
          mem ← set_length mem (alloc_offset r) (u32 (skip_n - sizeof_RingBufferItem));
          Some (mem, u32 (free_count r + 1))
        else Some (memory r, free_count r));
  Some (MkRing (fst mf) 1 (size r) 0 (collect_offset r) (alloc_count r) (snd mf)).

(** The branches on [impl->status]: the ring and the capacity in front of [alloc_offset]. *)
Definition make_room (r : RingBufferImpl) (alloc_size : Z) : option (RingBufferImpl * Z) :=
  if status r =? 0 then
    if u64 (size r - sizeof_RingBufferItem) <=? u32 (alloc_offset r + alloc_size) then
      r ← skip_end r; Some (r, u32 (collect_offset r - alloc_offset r))
    else Some (r, u32 (size r - alloc_offset r))
  else Some (r, u32 (collect_offset r - alloc_offset r)).

(** The new item, of [n] bytes, at [alloc_offset]. *)
Definition place (r : RingBufferImpl) (n alloc_size : Z) : option (option Z * RingBufferImpl) :=
  let item := alloc_offset r in
  mem ← set_lock (memory r) item 1;
  mem ← set_length mem item n;
  mem ← set_index mem item (u16 (alloc_count r));
  Some (Some (item + sizeof_RingBufferItem),
        MkRing mem (status r) (size r) (u32 (item + alloc_size)) (collect_offset r)
          (u32 (alloc_count r + 1)) (free_count r)).

(** [RingBuffer::alloc]: the offset of the data, or null. *)
Definition alloc (r : RingBufferImpl) (n : Z) : option (option Z * RingBufferImpl) :=
  if negb (0 <? n) then None else
  let n := u32 (OSW_MEM_ALIGNED_SIZE n) in
  let alloc_size := u32 (n + sizeof_RingBufferItem) in
  r ← (if 0 <? free_count r then collect r else Some r);
  rc ← make_room r alloc_size;
  let '(r, capacity) := rc in
  if capacity <? alloc_size then Some (None, r) else place r n alloc_size.

(** [RingBuffer::free]. *)
Definition free (r : RingBufferImpl) (ptr : Z) : option RingBufferImpl :=
  let item := ptr - sizeof_RingBufferItem in
  if negb ((0 <=? ptr) && (ptr <=? size r)) then None else
  lock ← item_lock (memory r) item;
  if negb (lock =? 1) then None else
  mem ← set_lock (memory r) item 0;
  Some (MkRing mem (status r) (size r) (alloc_offset r) (collect_offset r) (alloc_count r)
          (u32 (free_count r + 1))).

#[export] Instance ring_pool : BlockPool RingBufferImpl Z () := {
  bp_alloc r _ n := alloc r n;
  bp_free := free;
  bp_load r a off n := load (memory r) (a + off) n;
  bp_store r a off bs :=
    mem ← store (memory r) (a + off) bs;
    Some (MkRing mem (status r) (size r) (alloc_offset r) (collect_offset r) (alloc_count r)
            (free_count r)) }.

(** ** The items of the ring *)

Record item := MkItem { pos : Z; len : Z; busy : bool }.

(** The items of [Q] are contiguous from [a] to [b] ... *)
Fixpoint chain (a : Z) (Q : list item) (b : Z) : Prop :=
  match Q with
  | [] => a = b
  | x :: Q => pos x = a ∧ 0 <= len x ∧ chain (a + 8 + len x) Q b
  end.

(** ... and their headers are in memory. *)
Definition header (mem : bytes) (x : item) : Prop :=
  item_lock mem (pos x) = Some (Z.b2z (busy x)) ∧ item_length mem (pos x) = Some (len x).

Definition idle (Q : list item) : Z := zlen (filter (λ x, busy x = false) Q).

#[local] Ltac ring_cbn :=
  cbn [memory status size alloc_offset collect_offset alloc_count free_count app].

(** The items in the order of their addresses. *)
Definition below (x y : item) : Prop := pos x + 8 + len x <= pos y.

(** [front] is what lies from [collect_offset] on, [back] the items that were allocated after
    the ring wrapped. *)
Record layout (r : RingBufferImpl) (front back : list item) : Prop := {
  ly_headers : Forall (header (memory r)) (back ++ front);
  ly_count : free_count r = idle (back ++ front);
  ly_size : 8 <= size r < 2 ^ 31 ∧ size r <= zlen (memory r);
  ly_collect : 0 <= collect_offset r;
  ly_status : (status r = 0 ∧ back = [] ∧ chain (collect_offset r) front (alloc_offset r) ∧
      alloc_offset r + 8 <= size r) ∨
    (status r = 1 ∧ front ≠ [] ∧
      (∃ e, chain (collect_offset r) front e ∧ size r < e + 8 ∧ e <= size r) ∧
      chain 0 back (alloc_offset r) ∧ alloc_offset r <= collect_offset r) }.

Lemma chain_le a Q b : chain a Q b → a + 8 * zlen Q <= b.
Proof.
  revert a. induction Q as [|x Q IH]; intros a; cbn [chain]; [intros ->; zl|].
  intros (?&?&H). specialize (IH _ H). zl.
Qed.

Lemma chain_snoc a Q b x :
  chain a Q b → pos x = b → 0 <= len x → chain a (Q ++ [x]) (b + 8 + len x).
Proof.
  revert a. induction Q as [|y Q IH]; intros a; cbn [chain app]; [by intros -> -> ?|].
  intros (?&?&?) ??. by repeat split; try apply IH.
Qed.

Lemma chain_bounds a Q b x : chain a Q b → x ∈ Q → a <= pos x ∧ pos x + 8 + len x <= b ∧ 0 <= len x.
Proof.
  revert a. induction Q as [|y Q IH]; intros a; cbn [chain]; [set_solver|].
  intros (H1 & H2 & H) [->|Hin]%elem_of_cons.
  - apply chain_le in H. zl_nonneg. lia.
  - specialize (IH _ H Hin). lia.
Qed.

Lemma chain_sorted a Q b : chain a Q b → StronglySorted below Q.
Proof.
  revert a. induction Q as [|y Q IH]; intros a; cbn [chain]; [constructor|].
  intros (H1 & H2 & H). constructor; [by eapply IH|]. apply Forall_forall. intros x Hx.
  pose proof (chain_bounds _ _ _ _ H Hx). unfold below. lia.
Qed.

Lemma layout_sorted r f b : layout r f b → StronglySorted below (b ++ f).
Proof.
  intros [_ _ _ _ [(_ & -> & H & _)|(_ & _ & (e & H & _ & _) & H2 & H3)]].
  - by eapply chain_sorted.
  - apply StronglySorted_app. split; [|split; by eapply chain_sorted].
    intros x y Hx Hy. pose proof (chain_bounds _ _ _ _ H Hy).
    pose proof (chain_bounds _ _ _ _ H2 Hx). unfold below. lia.
Qed.

Lemma layout_inside r f b x :
  layout r f b → x ∈ b ++ f → 0 <= pos x ∧ 0 <= len x ∧ pos x + 8 + len x <= size r.
Proof.
  intros [_ _ [Hs _] Hc [(_ & -> & H & Ha)|(_ & _ & (e & H & _ & He) & H2 & H3)]] Hx.
  - pose proof (chain_bounds _ _ _ _ H Hx). lia.
  - apply elem_of_app in Hx as [Hx|Hx].
    + pose proof (chain_bounds _ _ _ _ H2 Hx). apply chain_le in H. zl_nonneg. lia.
    + pose proof (chain_bounds _ _ _ _ H Hx). lia.
Qed.

Lemma sorted_apart (L1 : list item) x L2 y :
  StronglySorted below (L1 ++ x :: L2) → y ∈ L1 ++ L2 → below x y ∨ below y x.
Proof.
  intros (Ha & _ & Hc)%StronglySorted_app. apply StronglySorted_inv in Hc as [_ Hf].
  rewrite Forall_forall in Hf. intros [Hy|Hy]%elem_of_app; [right|left]; auto.
  apply Ha; set_solver.
Qed.

Lemma idle_app Q1 Q2 : idle (Q1 ++ Q2) = idle Q1 + idle Q2.
Proof. unfold idle. by rewrite filter_app, zlen_app. Qed.

Lemma idle_cons x Q : idle (x :: Q) = Z.b2z (negb (busy x)) + idle Q.
Proof.
  unfold idle. rewrite filter_cons. destruct (busy x); case_decide; try done; cbn [Z.b2z negb]; zl.
Qed.

Lemma idle_le Q : 0 <= idle Q <= zlen Q.
Proof. unfold idle, zlen. pose proof (length_filter (λ x, busy x = false) Q). lia. Qed.

Lemma layout_count_small r f b : layout r f b → 0 <= free_count r < 2 ^ 31.
Proof.
  intros Hl. pose proof (ly_count _ _ _ Hl) as Hc. pose proof (idle_le (b ++ f)) as Hi.
  pose proof (ly_size _ _ _ Hl) as [Hs _]. pose proof (ly_collect _ _ _ Hl) as Hco.
  rewrite zlen_app in Hi.
  destruct (ly_status _ _ _ Hl) as [(_ & -> & H & Ha)|(_ & _ & (e & H & _ & He) & H2 & H3)].
  - apply chain_le in H. zl.
  - apply chain_le in H, H2. zl.
Qed.

Lemma header_frame mem mem' x :
  load mem' (pos x) 2 = load mem (pos x) 2 → load mem' (pos x + 4) 4 = load mem (pos x + 4) 4 →
  header mem x → header mem' x.
Proof. unfold header, item_lock, item_length. by intros -> ->. Qed.

(** A write that avoids the headers of [Q] keeps them. *)
Lemma headers_store mem off bs mem' Q :
  store mem off bs = Some mem' →
  (∀ x, x ∈ Q → pos x + 8 <= off ∨ off + zlen bs <= pos x) →
  Forall (header mem) Q → Forall (header mem') Q.
Proof.
  intros Hs Hd HF. rewrite Forall_forall in *. intros x Hx. specialize (Hd x Hx).
  eapply header_frame; [..|by apply HF];
    apply (load_store_other _ _ _ _ _ _ Hs); lia.
Qed.

(** Loads outside the range [off, off + n) are the same. *)
Definition same_outside (off n : Z) (mem mem' : bytes) : Prop :=
  zlen mem' = zlen mem ∧
  ∀ o m, o + m <= off ∨ off + n <= o → load mem' o m = load mem o m.

Lemma store_outside mem off n o bs mem' :
  store mem o bs = Some mem' → off <= o → o + zlen bs <= off + n → same_outside off n mem mem'.
Proof.
  intros Hs H1 H2. split; [by eapply store_length|]. intros o' m Hd.
  apply (load_store_other _ _ _ _ _ _ Hs). lia.
Qed.

Lemma same_outside_trans off n m1 m2 m3 :
  same_outside off n m1 m2 → same_outside off n m2 m3 → same_outside off n m1 m3.
Proof. intros [L1 H1] [L2 H2]. split; [lia|]. intros. rewrite H2, H1; auto. Qed.

Lemma headers_outside off mem mem' Q :
  same_outside off 8 mem mem' → (∀ x, x ∈ Q → pos x + 8 <= off ∨ off + 8 <= pos x) →
  Forall (header mem) Q → Forall (header mem') Q.
Proof.
  intros [_ Hs] Hd HF. rewrite Forall_forall in *. intros x Hx. specialize (Hd x Hx).
  eapply header_frame; [..|by apply HF]; apply Hs; lia.
Qed.

Lemma le_bytes_zlen k z : zlen (le_bytes k z) = Z.of_nat k.
Proof. unfold zlen. by rewrite le_bytes_length. Qed.

Lemma store_ok mem o bs : 0 <= o → o + zlen bs <= zlen mem → ∃ mem', store mem o bs = Some mem'.
Proof. intros. rewrite store_Some by done. by eexists. Qed.

(** Writing the lock and the length makes a header. *)
Lemma put_header mem off (l : bool) n :
  0 <= off → off + 8 <= zlen mem → 0 <= n < 2 ^ 32 →
  ∃ m1 m2, set_lock mem off (Z.b2z l) = Some m1 ∧ set_length m1 off n = Some m2 ∧
    header m2 (MkItem off n l) ∧ same_outside off 8 mem m2.
Proof.
  intros Ho Hz Hn. unfold set_lock, set_length.
  destruct (store_ok mem off (le_bytes 2 (Z.b2z l))) as [m1 E1]; [done|rewrite le_bytes_zlen; lia|].
  pose proof (store_length _ _ _ _ E1) as L1.
  destruct (store_ok m1 (off + 4) (le_bytes 4 n)) as [m2 E2]; [lia|rewrite le_bytes_zlen; lia|].
  exists m1, m2. split; [done|]. split; [done|]. split; [split|]; cbn [pos len busy].
  - unfold item_lock. rewrite (load_store_other _ _ _ _ _ _ E2) by lia.
    pose proof (load_store_same _ _ _ _ E1) as H. rewrite le_bytes_zlen in H.
    change (Z.of_nat 2) with 2 in H. rewrite H. cbn [fmap option_fmap option_map].
    rewrite le_val_bytes. by destruct l.
  - unfold item_length. pose proof (load_store_same _ _ _ _ E2) as H. rewrite le_bytes_zlen in H.
    change (Z.of_nat 4) with 4 in H. rewrite H. cbn [fmap option_fmap option_map].
    rewrite le_val_bytes, Z.mod_small; [done|]. change (256 ^ Z.of_nat 4) with (2 ^ 32). lia.
  - eapply same_outside_trans; eapply store_outside; try done; rewrite ?le_bytes_zlen; lia.
Qed.

Lemma put_index mem off v x :
  0 <= off → off + 8 <= zlen mem → pos x = off → header mem x →
  ∃ mem', set_index mem off v = Some mem' ∧ header mem' x ∧ same_outside off 8 mem mem'.
Proof.
  intros Ho Hz <- Hh. unfold set_index.
  destruct (store_ok mem (pos x + 2) (le_bytes 2 v)) as [m1 E1]; [lia|rewrite le_bytes_zlen; lia|].
  exists m1. split; [done|]. split.
  - eapply header_frame; [..|done]; apply (load_store_other _ _ _ _ _ _ E1);
      rewrite ?le_bytes_zlen; lia.
  - eapply store_outside; try done; rewrite ?le_bytes_zlen; lia.
Qed.

Lemma put_lock mem x :
  0 <= pos x → pos x + 8 <= zlen mem → header mem x →
  ∃ mem', set_lock mem (pos x) 0 = Some mem' ∧ header mem' (MkItem (pos x) (len x) false) ∧
    same_outside (pos x) 8 mem mem'.
Proof.
  intros Ho Hz [_ Hh]. unfold set_lock.
  destruct (store_ok mem (pos x) (le_bytes 2 0)) as [m1 E1]; [done|rewrite le_bytes_zlen; lia|].
  exists m1. split; [done|]. split; [split|]; cbn [pos len busy].
  - unfold item_lock. pose proof (load_store_same _ _ _ _ E1) as H. rewrite le_bytes_zlen in H.
    change (Z.of_nat 2) with 2 in H. by rewrite H.
  - unfold item_length in *. rewrite <- Hh. f_equal.
    apply (load_store_other _ _ _ _ _ _ E1). rewrite le_bytes_zlen. lia.
  - eapply store_outside; try done; rewrite ?le_bytes_zlen; lia.
Qed.

(** ** Collection *)

Lemma collect_step r x f b :
  layout r (x :: f) b → busy x = false →
  let co := collect_offset r + 8 + len x in
  let wraps := (size r <? co + 8) || (size r <=? co) in
  ∃ f' b', layout (MkRing (memory r) (if wraps then 0 else status r) (size r) (alloc_offset r)
      (if wraps then 0 else co) (alloc_count r) (free_count r - 1)) f' b' ∧
    (b' ++ f' ≡ₚ b ++ f).
Proof.
  intros Hl Hx co wraps. pose proof Hl as [HF Hc Hs Hco Hst].
  assert (Forall (header (memory r)) (b ++ f)) as HF'.
  { apply Forall_app in HF as [? [??]%Forall_cons]. by apply Forall_app. }
  assert (free_count r - 1 = idle (b ++ f)) as Hc'.
  { rewrite Hc, !idle_app, idle_cons, Hx. cbn [negb Z.b2z]. lia. }
  destruct Hst as [(Hst & -> & (Hp & Hln & Hch) & Ha)|(Hst & _ & (e & (Hp & Hln & Hch) & He & He') & Hb & Hac)].
  - fold co in Hch. pose proof (chain_le _ _ _ Hch). zl_nonneg.
    assert (wraps = false) as -> by (unfold wraps; rewrite orb_false_iff; lia).
    exists f, []. split; [|done]. constructor; ring_cbn; try done; try lia.
    left. done.
  - fold co in Hch. pose proof (chain_le _ _ _ Hch). zl_nonneg. destruct f as [|y f].
    + cbn [chain] in Hch. rewrite app_nil_r in *.
      assert (wraps = true) as -> by (unfold wraps; rewrite orb_true_iff; lia).
      exists b, []. split; [|done]. constructor; ring_cbn; try done; try lia.
      left. split; [done|]. split; [done|]. split; [done|]. lia.
    + rewrite zlen_cons in *. zl_nonneg.
      assert (wraps = false) as -> by (unfold wraps; rewrite orb_false_iff; lia).
      exists (y :: f), b. split; [|done]. constructor; ring_cbn; try done; try lia.
      right. split; [done|]. split; [done|]. split; [by exists e|]. split; [done|lia].
Qed.

Lemma collect_loop_spec fuel i r f b :
  layout r f b → 0 <= i → (Z.to_nat (free_count r) < fuel)%nat → i < 2 ^ 31 →
  ∃ r' f' b', collect_loop fuel i r = Some r' ∧ layout r' f' b' ∧ memory r' = memory r ∧
    size r' = size r ∧ (∀ x, busy x = true → x ∈ b ++ f → x ∈ b' ++ f').
Proof.
  revert i r f b. induction fuel as [|fuel IH]; intros i r f b Hl Hi Hf Hib; [lia|].
  cbn [collect_loop]. pose proof (layout_count_small _ _ _ Hl) as Hcs.
  destruct (Z.ltb_spec i (free_count r)) as [Hlt|]; [|by exists r, f, b].
  assert (f ≠ []) as Hne.
  { intros ->. destruct (ly_status _ _ _ Hl) as [(_ & -> & _)|(_ & ? & _)]; [|done].
    rewrite (ly_count _ _ _ Hl) in Hlt. change (idle ([] ++ [])) with 0 in Hlt. lia. }
  destruct f as [|x f]; [done|].
  assert (pos x = collect_offset r) as Hp
    by (destruct (ly_status _ _ _ Hl) as [(_&_&H&_)|(_&_&(?&H&_)&_)]; apply H).
  pose proof (ly_headers _ _ _ Hl) as HF. apply Forall_app in HF as [_ [[Hlk Hln] _]%Forall_cons].
  rewrite Hp in Hlk, Hln. rewrite Hlk. cbn [mbind option_bind].
  destruct (busy x) eqn:Hb; cbn [Z.b2z Z.eqb]; [by exists r, (x :: f), b|].
  rewrite Hln. cbn [mbind option_bind]. unfold sizeof_RingBufferItem.
  pose proof (layout_inside r _ _ x Hl ltac:(set_solver)) as (B1 & B2 & B3).
  pose proof (ly_size _ _ _ Hl) as [Hs _].
  rewrite (u32_small (len x + 8)), (u32_small (collect_offset r + _)), (u32_small (i + 1)),
    (u32_small (free_count r - 1)) by lia.
  replace (collect_offset r + (len x + 8)) with (collect_offset r + 8 + len x) by lia.
  destruct (collect_step r x f b Hl Hb) as (f' & b' & Hl' & Hperm).
  destruct (IH (i + 1) _ f' b' Hl') as (r2 & f2 & b2 & -> & Hl2 & Hm & Hsz & Hin);
    [lia|cbn [free_count]; lia| |].
  { lia. }
  exists r2, f2, b2. do 2 (split; [done|]). split; [done|]. split; [done|].
  intros y Hy Hyin. apply Hin; [done|]. rewrite Hperm. set_unfold.
  destruct Hyin as [?|[->|?]]; [by left|congruence|by right].
Qed.

(** ** Allocation *)

Definition fits (r : RingBufferImpl) (n : Z) : Prop :=
  (status r = 0 ∧ alloc_offset r + 8 + n + 8 <= size r) ∨
  (status r = 1 ∧ alloc_offset r + 8 + n <= collect_offset r).

(** The free range in front of [alloc_offset] holds no item. *)
Lemma fits_apart r f b n :
  layout r f b → 0 <= n → fits r n →
  0 <= alloc_offset r ∧ alloc_offset r + 8 + n <= size r ∧
  ∀ x, x ∈ b ++ f → pos x + 8 + len x <= alloc_offset r ∨ alloc_offset r + 8 + n <= pos x.
Proof.
  intros [_ _ [Hs _] Hco [(Hst & -> & H & Ha)|(Hst & Hne & (e & H & _ & He) & H2 & H3)]] Hn
    [[Hst' Hf]|[Hst' Hf]]; try lia.
  - pose proof (chain_le _ _ _ H). zl_nonneg. split; [lia|]. split; [lia|].
    intros x Hx. pose proof (chain_bounds _ _ _ _ H Hx). lia.
  - pose proof (chain_le _ _ _ H). pose proof (chain_le _ _ _ H2). zl_nonneg.
    split; [lia|]. split; [lia|]. intros x [Hx|Hx]%elem_of_app.
    + pose proof (chain_bounds _ _ _ _ H2 Hx). lia.
    + pose proof (chain_bounds _ _ _ _ H Hx). lia.
Qed.

(** A layout with the new item. *)
Lemma layout_push r f b n mem' count :
  layout r f b → 0 <= n → fits r n → same_outside (alloc_offset r) 8 (memory r) mem' →
  header mem' (MkItem (alloc_offset r) n true) →
  ∃ f' b', layout (MkRing mem' (status r) (size r) (alloc_offset r + 8 + n) (collect_offset r)
      count (free_count r)) f' b' ∧
    b' ++ f' ≡ₚ MkItem (alloc_offset r) n true :: b ++ f.
Proof.
  intros Hl Hn Hfit Hout Hh. destruct (fits_apart _ _ _ _ Hl Hn Hfit) as (B1 & B2 & B3).
  pose proof Hl as [HF Hc [Hs Hs2] Hco Hst].
  assert (Forall (header mem') (b ++ f)) as HF'.
  { eapply headers_outside; [done| |done]. intros x Hx. destruct (B3 x Hx); [|lia].
    pose proof (layout_inside _ _ _ _ Hl Hx). lia. }
  apply Forall_app in HF' as [HFb HFf].
  set (x := MkItem (alloc_offset r) n true).
  destruct Hst as [(Hst & -> & Hch & Ha)|(Hst & Hne & He & Hb & Hac)],
    Hfit as [[Hst' Hf]|[Hst' Hf]]; try lia.
  - exists (f ++ [x]), []. split; [|cbn [app]; by rewrite Permutation_app_comm].
    constructor; ring_cbn; try done.
    + apply Forall_app. split; [done|]. by constructor.
    + rewrite Hc. cbn [app]. rewrite idle_app. change (idle [x]) with 0. lia.
    + destruct Hout as [-> _]. done.
    + left. split; [done|]. split; [done|]. split; [by apply (chain_snoc _ _ _ x)|lia].
  - exists f, (b ++ [x]). split.
    2: { rewrite <- app_assoc. cbn [app]. by rewrite Permutation_middle. }
    constructor; ring_cbn; try done.
    + rewrite !Forall_app. repeat split; try done. by constructor.
    + rewrite Hc, !idle_app. change (idle [x]) with 0. lia.
    + destruct Hout as [-> _]. done.
    + right. split; [done|]. split; [done|]. split; [done|].
      split; [by apply (chain_snoc _ _ _ x)|lia].
Qed.

Lemma skip_end_spec r f b :
  layout r f b → status r = 0 →
  ∃ r' f' b', skip_end r = Some r' ∧ layout r' f' b' ∧ status r' = 1 ∧ alloc_offset r' = 0 ∧
    collect_offset r' = collect_offset r ∧ size r' = size r ∧
    same_outside (alloc_offset r) 8 (memory r) (memory r') ∧
    (∀ x, x ∈ b ++ f → x ∈ b' ++ f' ∧ pos x + 8 + len x <= alloc_offset r).
Proof.
  intros Hl Hst0. pose proof (layout_count_small _ _ _ Hl) as Hcs.
  pose proof Hl as [HF Hc [Hs Hs2] Hco [(_ & -> & Hch & Ha)|(Hst & _)]]; [|lia].
  pose proof (chain_le _ _ _ Hch). zl_nonneg.
  assert (0 <= free_count r < 2 ^ 31 - 1) as Hfc.
  { pose proof (idle_le f). cbn [app] in Hc. lia. }
  unfold skip_end, sizeof_RingBufferItem. rewrite (u32_small (size r - _)) by lia.
  rewrite (proj2 (Z.leb_le _ _)) by lia. rewrite (u32_small (_ - 8)) by lia.
  destruct (put_header (memory r) (alloc_offset r) false (size r - alloc_offset r - 8))
    as (m1 & m2 & E1 & E2 & Hh & Hout); [lia..|].
  cbn [Z.b2z] in E1. rewrite E1. cbn [mbind option_bind]. rewrite E2. cbn [mbind option_bind fst snd].
  rewrite (u32_small (free_count r + 1)) by lia.
  set (x := MkItem (alloc_offset r) (size r - alloc_offset r - 8) false).
  eexists _, (f ++ [x]), []. split; [done|]. split; [constructor; ring_cbn|]; try done.
  - apply Forall_app. split; [|by constructor]. eapply headers_outside; [done| |done].
    intros y Hy. pose proof (chain_bounds _ _ _ _ Hch Hy). lia.
  - rewrite Hc. cbn [app]. by rewrite idle_app.
  - destruct Hout as [-> _]. done.
  - right. split; [done|]. split; [by destruct f|]. split; [|done].
    exists (alloc_offset r + 8 + len x). split; [by apply (chain_snoc _ _ _ x); cbn; try lia|].
    cbn. lia.
  - do 5 (split; [done|]). intros y Hy. pose proof (chain_bounds _ _ _ _ Hch Hy).
    cbn [app] in *. split; [set_solver|lia].
Qed.

(** What an operation may do to the ring: busy items and their data stay. *)
Definition keeps (r r' : RingBufferImpl) (Q Q' : list item) : Prop :=
  size r' = size r ∧
  ∀ x, x ∈ Q → busy x = true →
    x ∈ Q' ∧ ∀ n, 0 <= n <= len x → load (memory r') (pos x + 8) n = load (memory r) (pos x + 8) n.

Lemma make_room_spec r f b n :
  layout r f b → 0 <= n <= 2 ^ 31 - 16 →
  ∃ r' c f' b', make_room r (n + 8) = Some (r', c) ∧ layout r' f' b' ∧
    keeps r r' (b ++ f) (b' ++ f') ∧ (n + 8 <= c → fits r' n).
Proof.
  intros Hl Hn. pose proof Hl as [_ _ [Hs Hs2] Hco Hst]. unfold make_room, sizeof_RingBufferItem.
  destruct Hst as [(Hst & Hb & Hch & Ha)|(Hst & Hne & (e & Hch & _ & He) & H2 & H3)]; rewrite Hst.
  - rewrite Z.eqb_refl. pose proof (chain_le _ _ _ Hch). zl_nonneg.
    rewrite u64_small, (u32_small (_ + _)) by lia.
    destruct (Z.leb_spec (size r - 8) (alloc_offset r + (n + 8))) as [Hw|Hw].
    + destruct (skip_end_spec r f b Hl Hst) as (r' & f' & b' & -> & Hl' & S1 & S2 & S3 & S4 & S5 & S6).
      cbn [mbind option_bind]. rewrite S2, S3, Z.sub_0_r, u32_small by lia.
      exists r', (collect_offset r), f', b'. split; [done|]. split; [done|]. split.
      * split; [done|]. intros x Hx Hbx. destruct (S6 x Hx) as [? Hp]. split; [done|].
        intros m Hm. apply S5. lia.
      * intros. right. split; [done|]. rewrite S2, S3. lia.
    + rewrite u32_small by lia. exists r, (size r - alloc_offset r), f, b. split; [done|].
      split; [done|]. split; [by split|]. intros. left. split; [done|lia].
  - cbn [Z.eqb]. pose proof (chain_le _ _ _ Hch). pose proof (chain_le _ _ _ H2). zl_nonneg.
    rewrite u32_small by lia. exists r, (collect_offset r - alloc_offset r), f, b. split; [done|].
    split; [done|]. split; [by split|]. intros. right. split; [done|lia].
Qed.

(** The client's blocks are busy items. *)
Definition owns (Q : list item) (L : list (Z * Z)) : Prop :=
  (∀ a n, (a, n) ∈ L → ∃ x, x ∈ Q ∧ busy x = true ∧ a = pos x + 8 ∧ 0 <= n <= len x) ∧
  NoDup L.*1.

Definition ring_inv (r : RingBufferImpl) (L : list (Z * Z)) : Prop :=
  ∃ f b, layout r f b ∧ owns (b ++ f) L.

Lemma keeps_refl r Q : keeps r r Q Q.
Proof. by split. Qed.

Lemma keeps_trans r1 r2 r3 Q1 Q2 Q3 : keeps r1 r2 Q1 Q2 → keeps r2 r3 Q2 Q3 → keeps r1 r3 Q1 Q3.
Proof.
  intros [S1 H1] [S2 H2]. split; [congruence|]. intros x Hx Hb.
  destruct (H1 x Hx Hb) as [Hx2 E1]. destruct (H2 x Hx2 Hb) as [Hx3 E2].
  split; [done|]. intros n Hn. rewrite E2, E1; done.
Qed.

Lemma keeps_owns r r' Q Q' L :
  keeps r r' Q Q' → owns Q L → owns Q' L ∧ same_blocks (H := ring_pool) L r r'.
Proof.
  intros [_ Hk] [Ho Hnd]. split; [split; [|done]|].
  - intros a n Hin. destruct (Ho a n Hin) as (x & Hx & Hb & -> & Hn).
    exists x. split; [by apply Hk|done].
  - intros a n Hin. destruct (Ho a n Hin) as (x & Hx & Hb & -> & Hn).
    cbn [bp_load ring_pool]. rewrite Z.add_0_r. by apply Hk.
Qed.

Lemma collect_spec r f b :
  layout r f b →
  ∃ r' f' b', (if 0 <? free_count r then collect r else Some r) = Some r' ∧
    layout r' f' b' ∧ keeps r r' (b ++ f) (b' ++ f').
Proof.
  intros Hl. destruct (0 <? free_count r); [|exists r, f, b; eauto using keeps_refl].
  destruct (collect_loop_spec (S (Z.to_nat (free_count r))) 0 r f b Hl)
    as (r' & f' & b' & H1 & H2 & H3 & H4 & H5); [lia..|].
  exists r', f', b'. split; [done|]. split; [done|]. split; [done|]. intros x Hx Hb.
  split; [by apply H5|]. by rewrite H3.
Qed.

Lemma place_spec r f b m :
  layout r f b → 0 <= m <= 2 ^ 31 - 16 → fits r m →
  ∃ r' f' b', place r m (m + 8) = Some (Some (alloc_offset r + 8), r') ∧ layout r' f' b' ∧
    keeps r r' (b ++ f) (b' ++ f') ∧ MkItem (alloc_offset r) m true ∈ b' ++ f'.
Proof.
  intros Hl Hm Hfit. destruct (fits_apart r f b m Hl ltac:(lia) Hfit) as (B1 & B2 & B3).
  pose proof (ly_size _ _ _ Hl) as [Hs Hz]. unfold place, sizeof_RingBufferItem.
  destruct (put_header (memory r) (alloc_offset r) true m) as (m1 & m2 & E1 & E2 & Hh & O1); [lia..|].
  cbn [Z.b2z] in E1. rewrite E1. cbn [mbind option_bind]. rewrite E2. cbn [mbind option_bind].
  destruct (put_index m2 (alloc_offset r) (u16 (alloc_count r)) (MkItem (alloc_offset r) m true) B1
    ltac:(destruct O1; lia) eq_refl Hh)
    as (m3 & -> & Hh3 & O2). cbn [mbind option_bind].
  pose proof (same_outside_trans _ _ _ _ _ O1 O2) as O.
  rewrite (u32_small (alloc_offset r + _)) by lia.
  replace (alloc_offset r + (m + 8)) with (alloc_offset r + 8 + m) by lia.
  destruct (layout_push r f b m m3 (u32 (alloc_count r + 1)) Hl ltac:(lia) Hfit O Hh3)
    as (f3 & b3 & Hl3 & Hperm).
  eexists _, f3, b3. split; [done|]. split; [done|]. split; [|rewrite Hperm; by left].
  split; [done|]. intros x Hx Hb. split; [rewrite Hperm; by right|]. intros k Hk.
  apply O. destruct (B3 x Hx); lia.
Qed.

(** [alloc] always returns; a new block is apart from the blocks of the client, whose bytes
    stay. *)
Lemma ring_alloc_spec r L n :
  ring_inv r L → 0 < n <= 2 ^ 31 - 24 →
  ∃ res r', alloc r n = Some (res, r') ∧ same_blocks (H := ring_pool) L r r' ∧
    match res with None => ring_inv r' L | Some a => ring_inv r' (L ++ [(a, n)]) end.
Proof.
  intros (f & b & Hl & Ho) Hn. unfold alloc, sizeof_RingBufferItem.
  rewrite (proj2 (Z.ltb_lt _ _)) by lia. cbn [negb].
  rewrite aligned_size_eq, (u32_small (8 * _)) by zdiv.
  set (m := 8 * ((n + 7) / 8)). assert (n <= m <= 2 ^ 31 - 16) by (unfold m; zdiv).
  rewrite (u32_small (m + 8)) by lia.
  destruct (collect_spec r f b Hl) as (r1 & f1 & b1 & -> & Hl1 & K1). cbn [mbind option_bind].
  destruct (make_room_spec r1 f1 b1 m Hl1 ltac:(lia)) as (r2 & c & f2 & b2 & -> & Hl2 & K2 & Hfit).
  cbn [mbind option_bind]. pose proof (keeps_trans _ _ _ _ _ _ K1 K2) as K.
  destruct (keeps_owns _ _ _ _ _ K Ho) as [Ho2 Hsb].
  destruct (Z.ltb_spec c (m + 8)) as [|Hc].
  { exists None, r2. split; [done|]. split; [done|]. by exists f2, b2. }
  specialize (Hfit Hc). destruct (fits_apart r2 f2 b2 m Hl2 ltac:(lia) Hfit) as (B1 & B2 & B3).
  destruct (place_spec r2 f2 b2 m Hl2 ltac:(lia) Hfit) as (r3 & f3 & b3 & -> & Hl3 & K3 & Hnew).
  destruct (keeps_owns _ _ _ _ _ K3 Ho2) as [[Ho3 Hnd] Hsb3].
  exists (Some (alloc_offset r2 + 8)), r3. split; [done|].
  split; [intros a l Hin; by rewrite Hsb3, Hsb|]. exists f3, b3. split; [done|]. split.
  - intros a k [Hin|Hin]%elem_of_app; [by apply Ho3|]. apply list_elem_of_singleton in Hin.
    simplify_eq. eexists. split; [exact Hnew|]. cbn [busy pos len]. lia.
  - rewrite fmap_app. apply NoDup_app. split; [done|]. split; [|apply NoDup_singleton].
    intros a Ha ->%list_elem_of_singleton. apply list_elem_of_fmap in Ha as ([a' k] & Ea & Ha).
    cbn [fst] in Ea. subst a'. destruct Ho2 as [Ho2 _].
    destruct (Ho2 _ _ Ha) as (x & Hx & _ & Ep & _).
    pose proof (layout_inside _ _ _ _ Hl2 Hx). destruct (B3 x Hx); lia.
Qed.

(** ** Freeing and access *)

Definition release (x : item) : item := MkItem (pos x) (len x) false.

Lemma chain_release a Q1 x Q2 b : chain a (Q1 ++ x :: Q2) b → chain a (Q1 ++ release x :: Q2) b.
Proof.
  revert a. induction Q1 as [|y Q1 IH]; intros a; cbn [chain app]; [done|].
  intros (?&?&?). eauto.
Qed.

Lemma layout_release r f b x Q1 Q2 mem' :
  layout r f b → b ++ f = Q1 ++ x :: Q2 → busy x = true →
  Forall (header mem') (Q1 ++ release x :: Q2) → zlen mem' = zlen (memory r) →
  ∃ f' b', layout (MkRing mem' (status r) (size r) (alloc_offset r) (collect_offset r)
      (alloc_count r) (free_count r + 1)) f' b' ∧ b' ++ f' = Q1 ++ release x :: Q2.
Proof.
  intros [HF Hc Hs Hco Hst] HQ Hb HF' Hz.
  assert (idle (Q1 ++ release x :: Q2) = free_count r + 1) as Hi.
  { rewrite Hc, HQ, !idle_app, !idle_cons, Hb. cbn [release busy negb Z.b2z]. lia. }
  apply app_eq_inv in HQ as [(k & Hbk & Hk)|(k & Hfk & Hk)].
  - (* the freed item is in [back] or the head of [front] *)
    destruct k as [|y k].
    + cbn [app] in Hk. subst f. rewrite app_nil_r in Hbk. subst b.
      exists (release x :: Q2), Q1. split; [|done]. constructor; ring_cbn; try done; [by rewrite Hz|].
      destruct Hst as [(?&?&?&?)|(?&_&(e & He & ?)&?&?)]; [left|right]; try done.
      split; [done|]. split; [done|]. split; [by exists e|done].
    + cbn [app] in Hk. injection Hk as <- ->. subst b.
      exists f, (Q1 ++ release x :: k). split; [|by rewrite <- app_assoc].
      constructor; ring_cbn; rewrite <- ?app_assoc; try done; [by rewrite Hz|].
      destruct Hst as [(?&Hnil&?&?)|(?&?&?&?&?)]; [by destruct Q1|right].
      split; [done|]. split; [done|]. split; [done|]. split; [by apply chain_release|done].
  - subst Q1 f. exists (k ++ release x :: Q2), b. split; [|by rewrite <- app_assoc].
    constructor; ring_cbn; rewrite ?app_assoc; rewrite <- ?app_assoc in *; try done; [by rewrite Hz|].
    destruct Hst as [(?&?&?&?)|(?&_&(e & He & ?)&?&?)]; [left|right].
    + split; [done|]. split; [done|]. split; [by apply chain_release|done].
    + split; [done|]. split; [by destruct k|]. split; [|done]. exists e.
      split; [by apply chain_release|done].
Qed.

(** The item of a block, and the others. *)
Lemma owner_split Q L1 a l L2 :
  owns Q (L1 ++ (a, l) :: L2) →
  ∃ x Q1 Q2, Q = Q1 ++ x :: Q2 ∧ busy x = true ∧ a = pos x + 8 ∧ 0 <= l <= len x ∧
    owns (Q1 ++ Q2) (L1 ++ L2).
Proof.
  intros [Ho Hnd]. destruct (Ho a l ltac:(set_solver)) as (x & Hx & Hb & Ha & Hl).
  apply list_elem_of_split in Hx as (Q1 & Q2 & ->). exists x, Q1, Q2.
  do 4 (split; [done|]). rewrite fmap_app, fmap_cons in Hnd. cbn [fst] in Hnd.
  apply NoDup_app in Hnd as (Hd1 & Hd2 & [Hd3 Hd4]%NoDup_cons). split.
  - intros a' n' Hin. destruct (Ho a' n' ltac:(set_solver)) as (y & Hy & Hyb & Hya & Hyn).
    exists y. split; [|done]. enough (y ≠ x) by set_solver. intros ->.
    assert (a' = a) as -> by lia.
    apply elem_of_app in Hin as [Hin|Hin]; apply (list_elem_of_fmap_2 fst) in Hin.
    + apply (Hd2 a Hin). set_solver.
    + done.
  - rewrite fmap_app. apply NoDup_app. split; [done|]. split; [|done]. intros. set_solver.
Qed.

Lemma owns_more Q1 x Q2 L : owns (Q1 ++ Q2) L → owns (Q1 ++ x :: Q2) L.
Proof.
  intros [Ho Hnd]. split; [|done]. intros a n Hin. destruct (Ho a n Hin) as (y & Hy & ?).
  exists y. split; [set_solver|done].
Qed.

Lemma item_apart r f b Q1 x Q2 y :
  layout r f b → b ++ f = Q1 ++ x :: Q2 → y ∈ Q1 ++ Q2 →
  pos x + 8 + len x <= pos y ∨ pos y + 8 <= pos x.
Proof.
  intros Hl HQ Hy. pose proof (layout_sorted _ _ _ Hl) as Hs. rewrite HQ in Hs.
  destruct (layout_inside r f b y Hl) as (_ & ? & _); [rewrite HQ; set_solver|].
  destruct (sorted_apart _ _ _ _ Hs Hy) as [H'|H']; unfold below in H'; lia.
Qed.

(** Memory that changes inside one item only. *)
Lemma other_items_same (Q1 : list item) x Q2 r r' L o n :
  StronglySorted below (Q1 ++ x :: Q2) → owns (Q1 ++ Q2) L → 0 <= len x →
  pos x <= o → o + n <= pos x + 8 + len x → same_outside o n (memory r) (memory r') →
  same_blocks (H := ring_pool) L r r'.
Proof.
  intros Hs [Ho _] Hx H1 H2 [_ Hout] a l Hin. destruct (Ho a l Hin) as (y & Hy & _ & -> & Hl).
  cbn [bp_load ring_pool]. apply Hout. destruct (sorted_apart _ _ _ _ Hs Hy) as [Hb|Hb];
    unfold below in Hb; lia.
Qed.

Lemma ring_free_spec r L1 a l L2 :
  ring_inv r (L1 ++ (a, l) :: L2) →
  ∃ r', free r a = Some r' ∧ ring_inv r' (L1 ++ L2) ∧ same_blocks (H := ring_pool) (L1 ++ L2) r r'.
Proof.
  intros (f & b & Hl & Ho). destruct (owner_split _ _ _ _ _ Ho) as (x & Q1 & Q2 & HQ & Hb & -> & Hn & Ho').
  destruct (layout_inside r f b x Hl) as (B1 & B2 & B3); [rewrite HQ; set_solver|].
  pose proof (ly_size _ _ _ Hl) as [Hs Hz]. pose proof (layout_count_small _ _ _ Hl) as Hc.
  pose proof (layout_sorted _ _ _ Hl) as Hsort. rewrite HQ in Hsort.
  pose proof (ly_headers _ _ _ Hl) as HF. rewrite HQ in HF.
  pose proof HF as [HF1 [Hx HF2]%Forall_cons]%Forall_app.
  unfold free, sizeof_RingBufferItem.
  rewrite (proj2 (Z.leb_le _ _)), (proj2 (Z.leb_le _ _)) by lia. cbn [andb negb].
  replace (pos x + 8 - 8) with (pos x) by lia. destruct (Hx) as [Hlk _]. rewrite Hlk, Hb.
  cbn [mbind option_bind Z.b2z Z.eqb Pos.eqb negb].
  destruct (put_lock (memory r) x B1 ltac:(lia) Hx) as (mem' & -> & Hx' & Hout).
  cbn [mbind option_bind]. rewrite u32_small by lia.
  destruct (layout_release r f b x Q1 Q2 mem' Hl HQ Hb) as (f' & b' & Hl' & HQ').
  - apply Forall_app. split; [|constructor; [done|]]; eapply headers_outside; try done; intros y Hy;
      destruct (item_apart r f b Q1 x Q2 y Hl HQ ltac:(set_solver)); lia.
  - by destruct Hout.
  - eexists. split; [done|]. split.
    + exists f', b'. split; [done|]. rewrite HQ'. by apply owns_more.
    + by eapply (other_items_same Q1 x Q2 r _ _ (pos x) 8); try lia.
Qed.

Lemma ring_load_spec r L a l :
  ring_inv r L → (a, l) ∈ L → ∃ bs, load (memory r) (a + 0) l = Some bs ∧ zlen bs = l.
Proof.
  intros (f & b & Hl & Ho & _) Hin. destruct (Ho a l Hin) as (x & Hx & _ & -> & Hn).
  pose proof (layout_inside _ _ _ _ Hl Hx). pose proof (ly_size _ _ _ Hl).
  destruct (load (memory r) (pos x + 8 + 0) l) as [bs|] eqn:E; [|by rewrite load_Some in E by lia].
  exists bs. split; [done|]. by eapply load_length.
Qed.

Lemma ring_store_spec r L1 a l L2 off bs :
  ring_inv r (L1 ++ (a, l) :: L2) → 0 <= off → off + zlen bs <= l →
  ∃ r' old, bp_store r a off bs = Some r' ∧ ring_inv r' (L1 ++ (a, l) :: L2) ∧
    same_blocks (H := ring_pool) (L1 ++ L2) r r' ∧
    bp_load r a 0 l = Some old ∧ bp_load r' a 0 l = store old off bs.
Proof.
  intros Hr Ho1 Ho2. destruct (ring_load_spec _ _ a l Hr) as (old & Hold & Hlen); [set_solver|].
  destruct Hr as (f & b & Hl & Ho). cbn [bp_store bp_load ring_pool].
  destruct (owner_split _ _ _ _ _ Ho) as (x & Q1 & Q2 & HQ & Hb & Ha & Hn & Ho').
  destruct (layout_inside r f b x Hl) as (B1 & B2 & B3); [rewrite HQ; set_solver|].
  pose proof (ly_size _ _ _ Hl) as [Hs Hz]. pose proof (layout_sorted _ _ _ Hl) as Hsort.
  rewrite HQ in Hsort. zl_nonneg.
  destruct (store_ok (memory r) (a + off) bs) as [mem' Es]; [lia..|]. rewrite Es.
  cbn [mbind option_bind]. do 2 eexists. split; [done|].
  split; [|split; [|split; [done|]]].
  - exists f, b. split; [|done]. pose proof Hl as [HF Hc ? Hco Hst]. constructor; ring_cbn; try done.
    + eapply headers_store; [done| |done]. rewrite HQ. intros y Hy.
      apply elem_of_app in Hy as [Hy|[->|Hy]%elem_of_cons]; [|left; lia|];
        destruct (item_apart r f b Q1 x Q2 y Hl HQ ltac:(set_solver)); lia.
    + by rewrite (store_length _ _ _ _ Es).
  - eapply (other_items_same Q1 x Q2 r _ _ (a + off) (zlen bs)); try lia; try done.
    by eapply store_outside; [exact Es|lia..].
  - cbn [memory]. rewrite Z.add_0_r in *. by eapply load_store_inside.
Qed.

#[export] Instance ring_laws : BlockPoolLaws RingBufferImpl Z ().
Proof.
  refine {| bp_inv := ring_inv; bp_ok _ n := 0 < n <= 2 ^ 31 - 24 |}.
  - intros r L e n. apply ring_alloc_spec.
  - intros. by eapply ring_free_spec.
  - intros. by eapply ring_load_spec.
  - intros. by apply ring_store_spec.
Defined.

(** The last page of a shared block of [sz] bytes leaves room for the 24 bytes by which the ring is
    too long: the constructor subtracts the size of a pointer, not of the structure. *)
Definition slack (page sz : Z) : Prop :=
  8 * ((sz + 7) / 8) + sizeof_SharedMemory + 24 <= round_up page (8 * ((sz + 7) / 8) + sizeof_SharedMemory).

(** Whole pages leave it: the header of the mapping takes one page more. *)
Lemma slack_pages page k : 32 <= page → page mod 8 = 0 → 0 <= k → slack page (k * page).
Proof.
  intros Hp H8 Hk. unfold slack, sizeof_SharedMemory, round_up.
  assert (8 * ((k * page + 7) / 8) = k * page) as ->.
  { apply Z.mod_divide in H8 as [q ->]; [|done]. replace (k * (q * 8) + 7) with (7 + k * q * 8) by lia.
    rewrite Z.div_add by done. lia. }
  replace (k * page + 8 + page - 1) with (7 + (k + 1) * page) by lia. rewrite Z.div_add, Z.div_small by lia. nia.
Qed.

Lemma make_ring_inv page fresh sz :
  16 <= sz <= 2 ^ 31 → 8 <= page → slack page sz →
  ∃ r, make page fresh true true sz = Some (Some r) ∧ ring_inv r [].
Proof.
  unfold slack, sizeof_SharedMemory. intros Hsz Hp Hz. set (a := 8 * ((sz + 7) / 8)) in *.
  assert (16 <= a <= 2 ^ 31 ∧ a mod 8 = 0) as [Ha Ha8] by (unfold a; split; zdiv).
  unfold make, block, sizeof_pointer, sizeof_RingBufferImpl. rewrite aligned_size_eq by lia. fold a. cbv zeta. rewrite (u32_small a) by lia.
  destruct (shm_malloc_payload page Hp a ltac:(lia)) as (mem & n & -> & Hpay & Hn & _ & Hl).
  cbn [mbind option_bind option_map]. assert (mapped_size a = a + 8) as Hms by (unfold mapped_size; zdiv).
  rewrite Hms in Hl. assert (zlen (payload mem) = zlen mem - 8) as Hpl.
  { unfold payload, sizeof_SharedMemory, zlen in *. rewrite length_drop. lia. }
  rewrite store_Some; [|lia|unfold zlen in *; rewrite length_replicate; lia]. cbn [mbind option_bind].
  eexists. split; [done|]. rewrite u32_small by lia.
  exists [], []. split; [|split; [set_solver|constructor]].
  constructor; ring_cbn; try done.
  - split; [lia|]. unfold zlen in *. cbn [Z.to_nat take app]. rewrite !length_drop, !length_app, length_drop, !length_replicate. cbn. lia.
  - left. cbn [chain]. do 3 (split; [done|]). lia.
Qed.

(** C19: a ring in shared memory whose last page leaves 24 bytes over, as every size of whole pages
    does ([slack_pages]; the constructor makes the ring 24 bytes longer than its block, see
    [ring_overruns_block]): any sequence of allocations, frees in any order, writes and reads of a
    client runs without a fault, and the client's blocks are separate byte arrays inside the mapped
    memory. *)
Theorem ring_buffer_refines page fresh sz os :
  16 <= sz <= 2 ^ 31 → 8 <= page → slack page sz →
  Forall (λ o, match o with BAlloc _ n => 0 < n <= 2 ^ 31 - 24 | _ => True end) os →
  ∃ r rs r' hs m, make page fresh true true sz = Some (Some r) ∧
    exec blk_step (r, []) os = Some (rs, (r', hs)) ∧ runs blocks_step [] os rs m ∧
    Forall (λ x, 8 <= x.1 ∧ x.1 + x.2 <= size r' ∧ size r' <= zlen (memory r')) (omap id hs).
Proof.
  intros Hsz Hp Hz Hos. destruct (make_ring_inv page fresh sz Hsz Hp Hz) as (r & Hm & Hr).
  destruct (blk_client_refines (H0 := ring_laws) os r Hr) as (rs & [r' hs] & m & Hx & [Hi _] & Hrun); [exact Hos|].
  exists r, rs, r', hs, m. split; [done|]. split; [done|]. split; [done|]. destruct Hi as (f & b & Hl & Ho & _).
  apply Forall_forall. intros [a n] Hin. destruct (Ho a n Hin) as (x & Hx' & _ & -> & Hn).
  pose proof (layout_inside _ _ _ _ Hl Hx'). pose proof (ly_size _ _ _ Hl). cbn [fst snd] in *. lia.
Qed.

(** The ring wraps: the third block is where the first one was. *)
Lemma ring_buffer_refines_witness : ∃ r rs r' hs m,
  make 64 (repeat 0) true true 64 = Some (Some r) ∧
  exec blk_step (r, []) [BAlloc () 10; BAlloc () 5; BWrite 1 0 [7; 8]; BFree 0; BAlloc () 3;
    BRead 1] = Some (rs, (r', hs)) ∧
  runs blocks_step [] [BAlloc () 10; BAlloc () 5; BWrite 1 0 [7; 8]; BFree 0; BAlloc () 3;
    BRead 1] rs m ∧
  Forall (λ x, 8 <= x.1 ∧ x.1 + x.2 <= size r' ∧ size r' <= zlen (memory r')) (omap id hs).
Proof.
  apply (ring_buffer_refines 64 (repeat 0) 64
    [BAlloc () 10; BAlloc () 5; BWrite 1 0 [7; 8]; BFree 0; BAlloc () 3; BRead 1]).
  - lia.
  - lia.
  - vm_compute. discriminate.
  - repeat constructor; lia.
Defined.

(** The ring is 24 bytes longer than its block: on the heap, and in shared memory when the block
    fills its last page, it hands out bytes behind the end. *)
Example ring_overruns_block :
  (r ← make 4096 (repeat 0) false true 64;
   '(p, r) ← match r with Some r => alloc r 32 | None => None end;
   Some (p, load (memory r) 8 32)) = Some (Some 8, None) ∧
  (r ← make 64 (repeat 0) true true 56;
   '(p, r) ← match r with Some r => alloc r 24 | None => None end;
   Some (p, load (memory r) 8 24)) = Some (Some 8, None).
Proof. split; reflexivity. Qed.

(** [collect] compares its index with the counter that it decrements, so it stops half-way:
    with all four blocks freed a block of 56 bytes is refused, and the same request succeeds
    when it is repeated. *)
Example collect_stops_halfway :
  (r ← make 256 (repeat 0) true true 136; r ← r;
   '(p1, r) ← alloc r 16; '(p2, r) ← alloc r 16; '(p3, r) ← alloc r 16; '(p4, r) ← alloc r 16;
   r ← free r 8; r ← free r 32; r ← free r 56; r ← free r 80;
   '(q1, r) ← alloc r 56; '(q2, r) ← alloc r 56;
   Some ([p1; p2; p3; p4], q1, q2)) = Some ([Some 8; Some 32; Some 56; Some 80], None, Some 8).
Proof. reflexivity. Qed.
