(* ===== verification/Pack.v ===== *)
(** * Byte order and length fields: include/openswoole_protocol.h, src/core/base.cc

    The target is a little-endian host: [*((uint32_t * ) data)] is the little-endian
    value of the four bytes, [htonl]/[ntohl] reverse the bytes of a word. *)

From S2P Require Import Prelude.

Definition ntohs (x : Z) : Z := be_val (le_bytes 2 x).
Definition ntohl (x : Z) : Z := be_val (le_bytes 4 x).

Definition openswoole_swap_endian16 (x : Z) : Z :=
  Z.lor (Z.shiftl (Z.land x 255) 8) (Z.shiftr (Z.land x 65280) 8).

Definition openswoole_swap_endian32 (x : Z) : Z :=
  Z.lor (Z.lor (Z.lor (Z.shiftl (Z.land x 255) 24) (Z.shiftl (Z.land x 65280) 8))
               (Z.shiftr (Z.land x 16711680) 8))
        (Z.shiftr (Z.land x 4278190080) 24).

(** Reads of an [n]-byte object at the start of [data] in machine order. *)
Definition rd (n : Z) (data : bytes) : option Z := le_val <$> load data 0 n.

(** [openswoole_unpack]: every result is converted to [int32_t]. *)
Definition openswoole_unpack (type : Z) (data : bytes) : option Z :=
  if type =? 99 (* c *) then i8 <$> rd 1 data
  else if type =? 67 (* C *) then rd 1 data
  else if type =? 115 (* s *) then i16 <$> rd 2 data
  else if type =? 83 (* S *) then rd 2 data
  else if type =? 110 (* n *) then ntohs <$> rd 2 data
  else if type =? 118 (* v *) then (λ x, openswoole_swap_endian16 (ntohs x)) <$> rd 2 data
  else if type =? 76 (* L *) then i32 <$> rd 4 data
  else if type =? 108 (* l *) then i32 <$> rd 4 data
  else if type =? 78 (* N *) then (λ x, i32 (ntohl x)) <$> rd 4 data
  else if type =? 86 (* V *)
       then (λ x, i32 (openswoole_swap_endian32 (ntohl x))) <$> rd 4 data
  else i32 <$> rd 4 data.

(** [openswoole_type_size] of src/core/base.cc. *)
Definition openswoole_type_size (type : Z) : Z :=
  if (type =? 99) || (type =? 67) then 1
  else if (type =? 115) || (type =? 83) || (type =? 110) || (type =? 118) then 2
  else if (type =? 108) || (type =? 76) || (type =? 78) || (type =? 86) then 4
  else 0.

Definition openswoole_hton64 (host : Z) : Z :=
  let low := Z.land host 4294967295 in
  let high := Z.land (Z.shiftr host 32) 4294967295 in
  let low := ntohl low in
  let high := ntohl high in
  Z.lor (u64 (Z.shiftl low 32)) high.

Definition openswoole_ntoh64 (net : Z) : Z :=
  let low := Z.land net 4294967295 in
  let high := u32 (Z.shiftr net 32) in
  let low := ntohl low in
  let high := ntohl high in
  Z.lor (u64 (Z.shiftl low 32)) high.

(** ** Reference values *)

Lemma testbit_above b n i : 0 <= b < 2 ^ n → 0 <= n <= i → Z.testbit b i = false.
Proof.
  intros Hb Hi. destruct (Z.eq_dec b 0) as [->|]; [apply Z.bits_0|].
  apply Z.bits_above_log2; [lia|]. apply Z.log2_lt_pow2; [lia|].
  apply Z.lt_le_trans with (2 ^ n); [lia|]. apply Z.pow_le_mono_r; lia.
Qed.

Lemma lor_shiftl_add a b n : 0 <= n → 0 <= b < 2 ^ n → Z.lor (Z.shiftl a n) b = a * 2 ^ n + b.
Proof.
  intros Hn Hb. assert (Z.land (Z.shiftl a n) b = 0) as Hl.
  { apply Z.bits_inj'. intros i Hi. rewrite Z.land_spec, Z.bits_0, Z.shiftl_spec by lia.
    destruct (Z.lt_ge_cases i n); [by rewrite Z.testbit_neg_r by lia|].
    by rewrite (testbit_above b n), andb_false_r by lia. }
  rewrite <- Z.lxor_lor, <- Z.add_nocarry_lxor by done. by rewrite Z.shiftl_mul_pow2.
Qed.

Lemma rd_le n data bs : load data 0 n = Some bs → rd n data = Some (le_val bs).
Proof. unfold rd. by intros ->. Qed.

Lemma be_val_le_bytes_range n x : 0 <= be_val (le_bytes n x) < 256 ^ Z.of_nat n.
Proof.
  pose proof (be_val_bound (le_bytes n x) (le_bytes_is_bytes n x)) as H.
  unfold zlen in H. by rewrite le_bytes_length in H.
Qed.

Lemma ntohl_range x : 0 <= ntohl x < 2 ^ 32.
Proof. apply (be_val_le_bytes_range 4). Qed.

Lemma le_val_app a b : le_val (a ++ b) = le_val a + 256 ^ zlen a * le_val b.
Proof.
  unfold zlen. induction a as [|x a IH]; cbn [app le_val length]; [cbn; lia|].
  rewrite IH, Nat2Z.inj_succ, Z.pow_succ_r by lia. lia.
Qed.

(** The big-endian value of eight bytes, from the two halves the source swaps. *)
Lemma ntoh64_be_val bs :
  is_bytes bs → length bs = 8%nat → openswoole_ntoh64 (le_val bs) = be_val bs.
Proof.
  intros Hb Hl. pose proof (le_val_bound bs Hb) as Hv. unfold zlen in Hv. rewrite Hl in Hv.
  change (256 ^ Z.of_nat 8) with (2 ^ 64) in Hv.
  rewrite <- (take_drop 4 bs) in *. set (lo := take 4 bs) in *. set (hi := drop 4 bs) in *.
  assert (length lo = 4%nat ∧ length hi = 4%nat) as [Hlo Hhi].
  { subst lo hi. rewrite length_take, length_drop in *. rewrite length_app, length_take, length_drop in Hl. lia. }
  apply Forall_app in Hb as [Hblo Hbhi]. rewrite le_val_app in *.
  pose proof (le_val_bound lo Hblo) as Hvl. pose proof (le_val_bound hi Hbhi) as Hvh.
  unfold zlen in *. rewrite Hlo, Hhi in *. change (256 ^ Z.of_nat 4) with 4294967296 in *.
  unfold openswoole_ntoh64. change 4294967295 with (Z.ones 32).
  rewrite Z.land_ones by lia. rewrite Z.shiftr_div_pow2 by lia.
  change (2 ^ 32) with 4294967296 in *.
  replace ((le_val lo + 4294967296 * le_val hi) mod 4294967296) with (le_val lo) by zdiv.
  replace ((le_val lo + 4294967296 * le_val hi) / 4294967296) with (le_val hi) by zdiv.
  rewrite u32_small by lia. unfold ntohl.
  rewrite <- Hlo at 1. rewrite le_bytes_val by done. rewrite <- Hhi. rewrite le_bytes_val by done.
  pose proof (be_val_bound lo Hblo) as Hbl. pose proof (be_val_bound hi Hbhi) as Hbh.
  unfold zlen in *. rewrite Hlo, Hhi in *. change (256 ^ Z.of_nat 4) with 4294967296 in *.
  rewrite u64_small by (rewrite Z.shiftl_mul_pow2 by lia; lia).
  rewrite lor_shiftl_add by lia. unfold be_val. rewrite reverse_app, le_val_app.
  unfold zlen. rewrite length_reverse, Hhi. change (256 ^ Z.of_nat 4) with (2 ^ 32). lia.
Qed.

Lemma hton64_ntoh64 x : 0 <= x < 2 ^ 64 → openswoole_hton64 x = openswoole_ntoh64 x.
Proof.
  intros Hx. unfold openswoole_hton64, openswoole_ntoh64. repeat f_equal.
  change 4294967295 with (Z.ones 32). rewrite Z.land_ones by lia.
  unfold u32, wrap. done.
Qed.

(** [*length_ptr = openswoole_hton64(length)] writes the big-endian bytes. *)
Lemma hton64_bytes x :
  0 <= x < 2 ^ 64 → le_bytes 8 (openswoole_hton64 x) = be_bytes 8 x.
Proof.
  intros Hx. rewrite hton64_ntoh64 by done.
  assert (le_val (le_bytes 8 x) = x) as Hv.
  { rewrite le_val_bytes. change (256 ^ Z.of_nat 8) with (2 ^ 64). by apply Z.mod_small. }
  rewrite <- Hv at 1. rewrite ntoh64_be_val by (apply le_bytes_is_bytes || apply le_bytes_length).
  unfold be_val, be_bytes. rewrite <- (le_bytes_length 8 x) at 1.
  rewrite <- length_reverse. apply le_bytes_val, Forall_reverse, le_bytes_is_bytes.
Qed.

(** Storing a byte-swapped word writes its big-endian bytes. *)
Lemma swap_store n x :
  0 <= x < 256 ^ Z.of_nat n → le_bytes n (be_val (le_bytes n x)) = be_bytes n x.
Proof.
  intros Hx. unfold be_val, be_bytes. rewrite <- (le_bytes_length n x) at 1.
  rewrite <- length_reverse. apply le_bytes_val, Forall_reverse, le_bytes_is_bytes.
Qed.

(** ** [openswoole_unpack] against the meaning of the pack letters *)

Lemma land_byte x n : 0 <= n → Z.land x (Z.shiftl 255 n) = (x / 2 ^ n) mod 256 * 2 ^ n.
Proof.
  intros Hn. rewrite <- Z.shiftl_mul_pow2, <- Z.shiftr_div_pow2 by lia.
  change 256 with (2 ^ 8). rewrite <- Z.land_ones by lia. change (Z.ones 8) with 255.
  apply Z.bits_inj'. intros i Hi. rewrite Z.land_spec, !Z.shiftl_spec, Z.land_spec by lia.
  destruct (Z.lt_ge_cases i n).
  - by rewrite !(Z.testbit_neg_r _ (i - n)), andb_false_r by lia.
  - rewrite Z.shiftr_spec by lia. by replace (i - n + n) with i by lia.
Qed.

Lemma swap16_bytes x :
  0 <= x < 65536 → openswoole_swap_endian16 x = be_val (le_bytes 2 x).
Proof.
  intros Hx. unfold openswoole_swap_endian16.
  change 255 with (Z.shiftl 255 0). change 65280 with (Z.shiftl 255 8).
  rewrite !land_byte by lia. rewrite (Z.shiftr_div_pow2 _ 8) by lia. rewrite Z.div_mul by lia.
  rewrite lor_shiftl_add by (try apply Z.mod_pos_bound; lia).
  cbn [le_bytes]. unfold be_val. cbn [reverse rev_append le_val].
  change (le_val (reverse [x mod 256; (x / 256) mod 256])) with
    ((x / 256) mod 256 + 256 * (x mod 256 + 256 * 0)).
  change (2 ^ 0) with 1. change (2 ^ 8) with 256. rewrite Z.div_1_r. lia.
Qed.

Lemma swap32_bytes x :
  0 <= x < 4294967296 → openswoole_swap_endian32 x = be_val (le_bytes 4 x).
Proof.
  intros Hx. unfold openswoole_swap_endian32.
  change 255 with (Z.shiftl 255 0). change 65280 with (Z.shiftl 255 8).
  change 16711680 with (Z.shiftl 255 16). change 4278190080 with (Z.shiftl 255 24).
  rewrite !land_byte by lia.
  set (b0 := (x / 2 ^ 0) mod 256). set (b1 := (x / 2 ^ 8) mod 256).
  set (b2 := (x / 2 ^ 16) mod 256). set (b3 := (x / 2 ^ 24) mod 256).
  assert (0 <= b0 < 256 ∧ 0 <= b1 < 256 ∧ 0 <= b2 < 256 ∧ 0 <= b3 < 256) as (?&?&?&?)
    by (split_and!; apply Z.mod_pos_bound; lia).
  rewrite !Z.shiftr_div_pow2 by lia. rewrite Z.div_mul by lia.
  replace (b2 * 2 ^ 16 / 2 ^ 8) with (b2 * 2 ^ 8)
    by (change (2 ^ 16) with 65536; change (2 ^ 8) with 256; zdiv).
  change (2 ^ 0) with 1. rewrite Z.mul_1_r.
  replace (Z.shiftl (b1 * 2 ^ 8) 8) with (Z.shiftl b1 16)
    by (rewrite !Z.shiftl_mul_pow2 by lia; change (2 ^ 16) with 65536; change (2 ^ 8) with 256; lia).
  replace (Z.lor (Z.shiftl b0 24) (Z.shiftl b1 16)) with (Z.shiftl (b0 * 2 ^ 8 + b1) 16).
  2: { rewrite <- lor_shiftl_add, Z.shiftl_lor, Z.shiftl_shiftl by lia. done. }
  rewrite <- (Z.shiftl_mul_pow2 b2) by lia.
  replace (Z.lor (Z.shiftl (b0 * 2 ^ 8 + b1) 16) (Z.shiftl b2 8))
    with (Z.shiftl ((b0 * 2 ^ 8 + b1) * 2 ^ 8 + b2) 8).
  2: { rewrite <- (lor_shiftl_add _ b2), Z.shiftl_lor, Z.shiftl_shiftl by lia. done. }
  rewrite lor_shiftl_add by lia.
  change (be_val (le_bytes 4 x)) with
    ((x / 256 / 256 / 256) mod 256 + 256 * ((x / 256 / 256) mod 256 +
       256 * ((x / 256) mod 256 + 256 * (x mod 256 + 256 * 0)))).
  rewrite !Z.div_div by lia. subst b0 b1 b2 b3.
  change (2 ^ 0) with 1. rewrite Z.div_1_r. change (2 ^ 8) with 256.
  change (2 ^ 16) with 65536. change (2 ^ 24) with 16777216.
  change (256 * (256 * 256)) with 16777216. change (256 * 256) with 65536. lia.
Qed.

Lemma be_val_le_bytes_invol n x :
  0 <= x < 256 ^ Z.of_nat n → be_val (le_bytes n (be_val (le_bytes n x))) = x.
Proof.
  intros Hx. unfold be_val at 2. rewrite <- (le_bytes_length n x) at 1.
  rewrite <- length_reverse, le_bytes_val by apply Forall_reverse, le_bytes_is_bytes.
  unfold be_val. rewrite reverse_involutive, le_val_bytes. by apply Z.mod_small.
Qed.

(** What a PHP [pack] letter means for the bytes [bs]: width, signedness and
    byte order (the result is an [int32_t]). *)
Definition pack_meaning (type : Z) (bs : bytes) : Z :=
  if type =? 99 then i8 (le_val bs)
  else if type =? 115 then i16 (le_val bs)
  else if type =? 110 then be_val bs
  else if type =? 78 then i32 (be_val bs)
  else if (type =? 67) || (type =? 83) || (type =? 118) then le_val bs
  else i32 (le_val bs).

(** for every letter [openswoole_type_size] knows, [openswoole_unpack] reads
    exactly that many bytes and returns the number the letter denotes; in
    particular the double swaps of 'v' and 'V' are little-endian reads. *)
Theorem unpack_meaning type bs rest :
  is_bytes bs → 0 < openswoole_type_size type → zlen bs = openswoole_type_size type →
  openswoole_unpack type (bs ++ rest) = Some (pack_meaning type bs).
Proof.
  intros Hb Hpos Hlen. pose proof (le_val_bound bs Hb) as Hv. rewrite Hlen in Hv.
  assert (∀ k, Z.of_nat k = zlen bs → le_bytes k (le_val bs) = bs) as Hlb.
  { intros k Hk. unfold zlen in Hk. apply Nat2Z.inj in Hk as ->. by apply le_bytes_val. }
  assert (rd (openswoole_type_size type) (bs ++ rest) = Some (le_val bs)) as Hr.
  { apply rd_le. rewrite load_Some by (rewrite ?zlen_app; pose proof (zlen_nonneg rest); lia).
    f_equal. rewrite <- Hlen. unfold zlen. rewrite Nat2Z.id, drop_0. by rewrite take_app_length. }
  unfold openswoole_unpack, pack_meaning, openswoole_type_size in *.
  destruct (Z.eqb_spec type 99) as [->|?]; [simpl in Hr; by rewrite Hr|].
  destruct (Z.eqb_spec type 67) as [->|?]; [simpl in Hr; by rewrite Hr|].
  destruct (Z.eqb_spec type 115) as [->|?]; [simpl in Hr; by rewrite Hr|].
  destruct (Z.eqb_spec type 83) as [->|?]; [simpl in Hr; by rewrite Hr|].
  destruct (Z.eqb_spec type 110) as [->|?].
  { simpl in Hr, Hlen. rewrite Hr. simpl. unfold ntohs. by rewrite Hlb by lia. }
  destruct (Z.eqb_spec type 118) as [->|?].
  { simpl in Hr, Hv. rewrite Hr. simpl. unfold ntohs.
    rewrite swap16_bytes by (apply (be_val_le_bytes_range 2)).
    rewrite be_val_le_bytes_invol by (simpl; lia). done. }
  destruct (Z.eqb_spec type 108) as [->|?]; [simpl in Hr; by rewrite Hr|].
  destruct (Z.eqb_spec type 76) as [->|?]; [simpl in Hr; by rewrite Hr|].
  destruct (Z.eqb_spec type 78) as [->|?].
  { simpl in Hr, Hlen. rewrite Hr. simpl. unfold ntohl. by rewrite Hlb by lia. }
  destruct (Z.eqb_spec type 86) as [->|?]; [|simpl in Hpos; lia].
  simpl in Hr, Hv. rewrite Hr. simpl. unfold ntohl.
  rewrite swap32_bytes by (apply (be_val_le_bytes_range 4)).
  rewrite be_val_le_bytes_invol by (simpl; lia). done.
Qed.

Lemma unpack_meaning_witness :
  openswoole_unpack 86 ([1; 2; 3; 4] ++ [9]) = Some (1 + 256 * (2 + 256 * (3 + 256 * 4))).
Proof.
  apply (unpack_meaning 86 [1; 2; 3; 4] [9]);
    [repeat constructor; unfold is_byte; lia|vm_compute; reflexivity|vm_compute; reflexivity].
Defined.
