(* ===== verification/Http2.v ===== *)
(** * HTTP/2 framing: src/protocol/http2.cc, include/openswoole_http2.h *)

From S2P Require Import Prelude Pack.

Definition OSW_HTTP2_FRAME_HEADER_SIZE : Z := 9.
Definition OSW_HTTP2_SETTING_OPTION_SIZE : Z := 6.

(** [enum swHttp2_frame_type]. *)
Inductive frame_type :=
  | TYPE_DATA | TYPE_HEADERS | TYPE_PRIORITY | TYPE_RST_STREAM | TYPE_SETTINGS
  | TYPE_PUSH_PROMISE | TYPE_PING | TYPE_GOAWAY | TYPE_WINDOW_UPDATE | TYPE_CONTINUATION.

Definition type_code (t : frame_type) : Z :=
  match t with
  | TYPE_DATA => 0 | TYPE_HEADERS => 1 | TYPE_PRIORITY => 2 | TYPE_RST_STREAM => 3
  | TYPE_SETTINGS => 4 | TYPE_PUSH_PROMISE => 5 | TYPE_PING => 6 | TYPE_GOAWAY => 7
  | TYPE_WINDOW_UPDATE => 8 | TYPE_CONTINUATION => 9
  end.

(** [enum swHttp2_setting_id], the three ids the server announces. *)
Definition SETTINGS_MAX_CONCURRENT_STREAMS : Z := 3.
Definition SETTINGS_INIT_WINDOW_SIZE : Z := 4.
Definition SETTINGS_MAX_FRAME_SIZE : Z := 5.

(** include/openswoole_config.h *)
Definition OSW_HTTP2_DEFAULT_HEADER_TABLE_SIZE : Z := Z.shiftl 1 12.
Definition OSW_HTTP2_MAX_MAX_CONCURRENT_STREAMS : Z := 1280.
Definition OSW_HTTP2_MAX_MAX_FRAME_SIZE : Z := Z.shiftl 1 14.
Definition OSW_HTTP2_DEFAULT_WINDOW_SIZE : Z := 65535.
Definition OSW_HTTP2_DEFAULT_MAX_HEADER_LIST_SIZE : Z := Z.shiftl 1 12.

Record Settings := MkSettings {
  header_table_size : Z; window_size : Z; max_concurrent_streams : Z;
  max_frame_size : Z; max_header_list_size : Z }.

Definition init_settings : Settings :=
  MkSettings OSW_HTTP2_DEFAULT_HEADER_TABLE_SIZE OSW_HTTP2_DEFAULT_WINDOW_SIZE
    OSW_HTTP2_MAX_MAX_CONCURRENT_STREAMS OSW_HTTP2_MAX_MAX_FRAME_SIZE
    OSW_HTTP2_DEFAULT_MAX_HEADER_LIST_SIZE.

(** [get_length]: the 24-bit length, from the first three bytes. *)
Definition get_length (buf : bytes) : option Z :=
  b0 ← at_ buf 0; b1 ← at_ buf 1; b2 ← at_ buf 2;
  Some (Z.shiftl b0 16 + Z.shiftl b1 8 + b2).

Definition get_frame_length (buf : bytes) (length : Z) : option Z :=
  if length <? OSW_HTTP2_FRAME_HEADER_SIZE then Some 0 else
  n ← get_length buf; Some (n + OSW_HTTP2_FRAME_HEADER_SIZE).

(** [set_frame_header]: the nine bytes it stores. *)
Definition set_frame_header (type length flags stream_id : Z) : bytes :=
  [u8 (Z.shiftr length 16); u8 (Z.shiftr length 8); u8 length; u8 type; u8 flags]
  ++ le_bytes 4 (ntohl stream_id).

(** One option of [send_setting_frame]: [htons(id)] then [htonl(value)]. *)
Definition setting_option (id value : Z) : bytes :=
  le_bytes 2 (ntohs id) ++ le_bytes 4 (ntohl value).

Definition send_setting_frame : bytes :=
  set_frame_header (type_code TYPE_SETTINGS) (OSW_HTTP2_SETTING_OPTION_SIZE * 3) 0 0
  ++ setting_option SETTINGS_MAX_CONCURRENT_STREAMS OSW_HTTP2_MAX_MAX_CONCURRENT_STREAMS
  ++ setting_option SETTINGS_INIT_WINDOW_SIZE OSW_HTTP2_DEFAULT_WINDOW_SIZE
  ++ setting_option SETTINGS_MAX_FRAME_SIZE OSW_HTTP2_MAX_MAX_FRAME_SIZE.

Definition get_type (type : Z) : string :=
  match type with
  | 0 => "DATA" | 1 => "HEADERS" | 2 => "PRIORITY" | 3 => "RST_STREAM" | 4 => "SETTINGS"
  | 5 => "PUSH_PROMISE" | 6 => "PING" | 7 => "GOAWAY" | 8 => "WINDOW_UPDATE"
  | 9 => "CONTINUATION" | _ => "UNKOWN"
  end.

Inductive color := OSW_COLOR_MAGENTA | OSW_COLOR_GREEN | OSW_COLOR_WHITE | OSW_COLOR_RED.

Definition get_type_color (type : Z) : color :=
  match type with
  | 0 | 8 => OSW_COLOR_MAGENTA
  | 1 | 4 | 5 | 9 => OSW_COLOR_GREEN
  | 6 | 2 => OSW_COLOR_WHITE
  | _ => OSW_COLOR_RED
  end.

(** ** Properties *)

(** [htonl]/[htons] followed by a little-endian store is a big-endian store. *)
Lemma set_frame_header_length t l f s : zlen (set_frame_header t l f s) = 9.
Proof. unfold set_frame_header. rewrite zlen_app. unfold zlen. by rewrite le_bytes_length. Qed.

(** Framing round trip.  A header written by [set_frame_header] for a payload
    of [length] bytes is read back by [get_frame_length] as the size of the whole
    frame, whatever follows; the stream identifier is stored big-endian. *)
Theorem frame_length_roundtrip type length flags stream_id rest :
  0 <= length < 16777216 → 0 <= stream_id < 4294967296 →
  get_frame_length (set_frame_header type length flags stream_id ++ rest)
    (zlen (set_frame_header type length flags stream_id ++ rest)) = Some (9 + length) ∧
  drop 5 (set_frame_header type length flags stream_id) = be_bytes 4 stream_id.
Proof.
  intros Hl Hs. split.
  - unfold get_frame_length, OSW_HTTP2_FRAME_HEADER_SIZE.
    rewrite zlen_app, set_frame_header_length. pose proof (zlen_nonneg rest).
    rewrite (proj2 (Z.ltb_ge _ _)) by lia. unfold get_length, set_frame_header. simpl.
    rewrite !Z.shiftl_mul_pow2, !Z.shiftr_div_pow2 by lia. unfold u8, wrap.
    apply (f_equal Some). change (2 ^ 16) with 65536. change (2 ^ 8) with 256. zdiv.
  - by apply (swap_store 4).
Qed.

Lemma frame_length_roundtrip_witness :
  get_frame_length (set_frame_header 0 70000 1 5 ++ [1; 2]) 11 = Some 70009.
Proof.
  exact (proj1 (frame_length_roundtrip 0 70000 1 5 [1; 2] ltac:(lia) ltac:(lia))).
Defined.

(** A receiver's reading of a SETTINGS payload (RFC 7540 section 6.5.1). *)
Fixpoint parse_settings (fuel : nat) (bs : bytes) : list (Z * Z) :=
  match fuel with
  | O => []
  | S fuel =>
    match bs with
    | i0 :: i1 :: v0 :: v1 :: v2 :: v3 :: rest =>
        (be_val [i0; i1], be_val [v0; v1; v2; v3]) :: parse_settings fuel rest
    | _ => []
    end
  end.

(** The SETTINGS frame the server sends is a complete frame of its announced
    length whose three options carry the limits of [init_settings]. *)
Theorem setting_frame_announces_limits :
  get_frame_length send_setting_frame (zlen send_setting_frame) = Some (zlen send_setting_frame) ∧
  parse_settings 3 (drop 9 send_setting_frame) =
    [(SETTINGS_MAX_CONCURRENT_STREAMS, max_concurrent_streams init_settings);
     (SETTINGS_INIT_WINDOW_SIZE, window_size init_settings);
     (SETTINGS_MAX_FRAME_SIZE, max_frame_size init_settings)].
Proof. split; vm_compute; reflexivity. Qed.
