(* ===== verification/WebSocket.v ===== *)
(** * WebSocket framing and dispatch: src/protocol/websocket.cc,
      include/openswoole_websocket.h

    Frames are byte strings; reads past the received bytes are [None].  The
    bit-fields of [struct Header] are laid out from the least significant bit, as
    the ABI does. *)

From S2P Require Import Prelude Pack.

Definition OSW_WEBSOCKET_HEADER_LEN : Z := 2.
Definition OSW_WEBSOCKET_MASK_LEN : Z := 4.
Definition OSW_WEBSOCKET_MASK_DATA : bytes := lit "258E".
Definition OSW_WEBSOCKET_EXT16_LENGTH : Z := 126.
Definition OSW_WEBSOCKET_EXT64_LENGTH : Z := 127.
Definition OSW_WEBSOCKET_CLOSE_CODE_LEN : Z := 2.
Definition OSW_WEBSOCKET_CLOSE_REASON_MAX_LEN : Z := 125.

(** [enum Flag]: bit positions. *)
Definition FLAG_FIN : Z := 1.
Definition FLAG_RSV1 : Z := 4.
Definition FLAG_RSV2 : Z := 8.
Definition FLAG_RSV3 : Z := 16.
Definition FLAG_MASK : Z := 32.
Definition FLAG_ENCODE_HEADER_ONLY : Z := 64.

Definition has (flags f : Z) : bool := negb (Z.land flags f =? 0).

Definition OPCODE_CONTINUATION : Z := 0.
Definition OPCODE_TEXT : Z := 1.
Definition OPCODE_BINARY : Z := 2.
Definition OPCODE_CLOSE : Z := 8.
Definition OPCODE_PING : Z := 9.
Definition OPCODE_PONG : Z := 10.

Definition STATUS_CLOSING : Z := 4.

Record Header := MkHeader {
  FIN : bool; RSV1 : bool; RSV2 : bool; RSV3 : bool; OPCODE : Z; MASK : bool; LENGTH : Z }.

(** [struct Frame]; [payload] is an offset into the data. *)
Record Frame := MkFrame {
  header : Header; mask_key : bytes; header_length : Z; payload_length : Z;
  payload : option Z }.

Definition pack_header (h : Header) : bytes :=
  [Z.b2z (FIN h) * 128 + Z.b2z (RSV1 h) * 64 + Z.b2z (RSV2 h) * 32 + Z.b2z (RSV3 h) * 16
     + OPCODE h mod 16;
   Z.b2z (MASK h) * 128 + LENGTH h mod 128].

Definition unpack_header (b0 b1 : Z) : Header :=
  MkHeader (negb (b0 / 128 mod 2 =? 0)) (negb (b0 / 64 mod 2 =? 0))
           (negb (b0 / 32 mod 2 =? 0)) (negb (b0 / 16 mod 2 =? 0)) (b0 mod 16)
           (negb (b1 / 128 mod 2 =? 0)) (b1 mod 128).

Definition get_flags (f : Frame) : Z :=
  let h := header f in
  let flags := 0 in
  let flags := if FIN h then Z.lor flags FLAG_FIN else flags in
  let flags := if RSV1 h then Z.lor flags FLAG_RSV1 else flags in
  let flags := if RSV2 h then Z.lor flags FLAG_RSV2 else flags in
  let flags := if RSV3 h then Z.lor flags FLAG_RSV3 else flags in
  if MASK h then Z.lor flags FLAG_MASK else flags.

Definition set_flags (fin mask rsv1 rsv2 rsv3 : bool) : Z :=
  let flags := 0 in
  let flags := if fin then Z.lor flags FLAG_FIN else flags in
  let flags := if mask then Z.lor flags FLAG_MASK else flags in
  let flags := if rsv1 then Z.lor flags FLAG_RSV1 else flags in
  let flags := if rsv2 then Z.lor flags FLAG_RSV2 else flags in
  if rsv3 then Z.lor flags FLAG_RSV3 else flags.

Definition get_ext_flags (opcode flags : Z) : Z := u16 (u16 (Z.shiftl opcode 8) + flags).

(** [get_package_length]: the pair of the [ssize_t] result and the new
    [protocol->real_header_length].  The parameter [length] is a [uint32_t]. *)
Definition get_package_length (real_header_length : Z) (buf : bytes) (length : Z) :
    option (Z * Z) :=
  let length := u32 length in
  if length <? OSW_WEBSOCKET_HEADER_LEN then Some (0, real_header_length) else
  b1 ← at_ buf 1;
  let mask := negb (b1 / 128 mod 2 =? 0) in
  let payload_length := Z.land b1 127 in
  let header_length := OSW_WEBSOCKET_HEADER_LEN in
  let finish (header_length payload_length : Z) : option (Z * Z) :=
    if mask then
      let header_length := header_length + OSW_WEBSOCKET_MASK_LEN in
      if length <? header_length then Some (0, header_length)
      else Some (i64 (header_length + payload_length), real_header_length)
    else Some (i64 (header_length + payload_length), real_header_length) in
  if payload_length =? OSW_WEBSOCKET_EXT16_LENGTH then
    let header_length := header_length + 2 in
    if length <? header_length then Some (0, header_length) else
    v ← load buf 2 2; finish header_length (ntohs (le_val v))
  else if payload_length =? OSW_WEBSOCKET_EXT64_LENGTH then
    let header_length := header_length + 8 in
    if length <? header_length then Some (0, header_length) else
    v ← load buf 2 8; finish header_length (openswoole_ntoh64 (le_val v))
  else finish header_length payload_length.

(** [mask]: whole 64-bit words first, then the remaining bytes. *)
Fixpoint mask_words (n : nat) (data : bytes) (mask_key64 : Z) : bytes :=
  match n with
  | O => []
  | S n => le_bytes 8 (Z.lxor (le_val (take 8 data)) mask_key64)
           ++ mask_words n (drop 8 data) mask_key64
  end.

Fixpoint mask_tail (data : bytes) (i : nat) (key : bytes) : bytes :=
  match data with
  | [] => []
  | b :: data => Z.lxor b (nth (i mod 4) key 0) :: mask_tail data (S i) key
  end.

Definition mask (data : bytes) (key : bytes) : bytes :=
  let n := (length data / 8)%nat in
  let key32 := le_val (take 4 key) in
  let mask_key64 := Z.lor (Z.shiftl key32 32) key32 in
  mask_words n (take (n * 8) data) mask_key64 ++ mask_tail (drop (n * 8) data) (n * 8) key.

(** [encode]: the returned flag and the new contents of [buffer]. *)
Definition encode (buffer data : bytes) (opcode flags : Z) : bool * bytes :=
  let length := zlen data in
  let hdr LENGTH := MkHeader (has flags FLAG_FIN) (has flags FLAG_RSV1) false false opcode
                             (has flags FLAG_MASK) LENGTH in
  let frame_header :=
    if length <? 126 then pack_header (hdr length)
    else if length <? 65536
      then pack_header (hdr OSW_WEBSOCKET_EXT16_LENGTH) ++ le_bytes 2 (ntohs (u16 length))
      else pack_header (hdr OSW_WEBSOCKET_EXT64_LENGTH) ++ le_bytes 8 (openswoole_hton64 length) in
  let buffer := buffer ++ frame_header in
  if has flags FLAG_MASK then
    let buffer := buffer ++ OSW_WEBSOCKET_MASK_DATA in
    if has flags FLAG_ENCODE_HEADER_ONLY then (false, buffer)
    else if 0 <? length then (true, buffer ++ mask data OSW_WEBSOCKET_MASK_DATA)
    else (true, buffer)
  else if (0 <? length) && negb (has flags FLAG_ENCODE_HEADER_ONLY)
    then (true, buffer ++ data)
    else (true, buffer).

(** [decode]: the frame and the data, unmasked in place. *)
Definition decode (data : bytes) : option (Frame * bytes) :=
  b0 ← at_ data 0; b1 ← at_ data 1;
  let h := unpack_header b0 b1 in
  hp ← (if LENGTH h =? 126 then v ← load data 2 2; Some (4, ntohs (le_val v))
        else if LENGTH h >? 126 then v ← load data 2 8; Some (10, openswoole_ntoh64 (le_val v))
        else Some (2, LENGTH h));
  let '(header_length, payload_length) := hp in
  if payload_length =? 0 then Some (MkFrame h [] header_length 0 None, data) else
  if MASK h then
    key ← load data header_length 4;
    let header_length := header_length + OSW_WEBSOCKET_MASK_LEN in
    p ← load data header_length payload_length;
    data' ← Prelude.store data header_length (mask p key);
    Some (MkFrame h key header_length payload_length (Some header_length), data')
  else Some (MkFrame h [] header_length payload_length (Some header_length), data).

(** [pack_close_frame]. *)
Definition pack_close_frame (buffer : bytes) (code : Z) (reason : bytes) (flags : Z) :
    Z * bytes :=
  if zlen reason >? OSW_WEBSOCKET_CLOSE_REASON_MAX_LEN then (OSW_ERR, buffer) else
  let payload := [Z.land (Z.shiftr code 8) 255; Z.land code 255] ++ reason in
  (OSW_OK, snd (encode buffer payload OPCODE_CLOSE (Z.lor flags FLAG_FIN))).

(** ** Connection state and dispatch *)

(** The connection's share of the state: the buffer of an unfinished message with
    the extension flags stored in its [offset], and [websocket_status]. *)
Record Conn := MkConn { websocket_buffer : option (bytes * Z); websocket_status : Z }.

(** What the handler does to the outside: [Server::dispatch_task] with the
    protocol's [ext_flags], and [_socket->send]. *)
Inductive event := DispatchTask (ext_flags : Z) (data : bytes) | Send (data : bytes).

(** [data + offset, length - offset]. *)
Definition tail_from (data : bytes) (length payload_length : Z) : option bytes :=
  let offset := u64 (length - payload_length) in
  load data offset (u64 (length - offset)).

Definition dispatch_frame (package_max_length : Z) (conn : Conn) (data : bytes) :
    option (Z * Conn * list event) :=
  let length := zlen data in
  fd ← decode data;
  let '(ws, data) := fd in
  let op := OPCODE (header ws) in
  let ext_flags := get_ext_flags op (get_flags ws) in
  if op =? OPCODE_CONTINUATION then
    match websocket_buffer conn with
    | None => Some (OSW_ERR, conn, [])
    | Some (frame_buffer, stored) =>
      let frame_length := i32 (u64 (length - u64 (length - payload_length ws))) in
      if u64 (zlen frame_buffer + frame_length) >? package_max_length
      then Some (OSW_ERR, conn, []) else
      part ← tail_from data length (payload_length ws);
      let frame_buffer := frame_buffer ++ part in
      if FIN (header ws)
      then Some (OSW_OK, MkConn None (websocket_status conn),
                 [DispatchTask (Z.lor (u16 stored) FLAG_FIN) frame_buffer])
      else Some (OSW_OK, MkConn (Some (frame_buffer, stored)) (websocket_status conn), [])
    end
  else if (op =? OPCODE_TEXT) || (op =? OPCODE_BINARY) then
    if negb (FIN (header ws)) then
      match websocket_buffer conn with
      | Some _ => Some (OSW_ERR, conn, [])
      | None =>
        part ← tail_from data length (payload_length ws);
        Some (OSW_OK, MkConn (Some (part, ext_flags)) (websocket_status conn), [])
      end
    else
      part ← tail_from data length (payload_length ws);
      Some (OSW_OK, conn, [DispatchTask ext_flags part])
  else if (op =? OPCODE_PING) || (op =? OPCODE_PONG) then
    if length >=? 127 then Some (OSW_ERR, conn, [])
    else if length =? OSW_WEBSOCKET_HEADER_LEN
    then Some (OSW_OK, conn, [DispatchTask ext_flags []])
    else
      let offset := if MASK (header ws)
                    then OSW_WEBSOCKET_HEADER_LEN + OSW_WEBSOCKET_MASK_LEN
                    else OSW_WEBSOCKET_HEADER_LEN in
      part ← load data offset (u32 (length - offset));
      Some (OSW_OK, conn, [DispatchTask ext_flags part])
  else if op =? OPCODE_CLOSE then
    if u32 (length - OSW_WEBSOCKET_HEADER_LEN) >? OSW_WEBSOCKET_CLOSE_REASON_MAX_LEN
    then Some (OSW_ERR, conn, [])
    else if negb (websocket_status conn =? STATUS_CLOSING) then
      part ← tail_from data length (payload_length ws);
      Some (OSW_ERR, conn, [DispatchTask ext_flags part;
                            Send ([136; u8 (payload_length ws)] ++ part)])
    else Some (OSW_ERR, MkConn (websocket_buffer conn) 0, [])
  else Some (OSW_OK, conn, []).

(** ** Masking *)

Lemma testbit_concat v b n i :
  0 <= n → 0 <= b < 2 ^ n → 0 <= i →
  Z.testbit (v * 2 ^ n + b) i = if i <? n then Z.testbit b i else Z.testbit v (i - n).
Proof.
  intros Hn Hb Hi. rewrite <- lor_shiftl_add by lia. rewrite Z.lor_spec, Z.shiftl_spec by lia.
  case_Z; [by rewrite Z.testbit_neg_r by lia|].
  by rewrite (testbit_above b n), orb_false_r by lia.
Qed.

Lemma lxor_byte_range a b : is_byte a → is_byte b → is_byte (Z.lxor a b).
Proof.
  intros Ha Hb. unfold is_byte in *. split; [apply Z.lxor_nonneg; lia|].
  destruct (Z.eq_dec (Z.lxor a b) 0) as [->|]; [lia|].
  assert (0 <= Z.lxor a b) by (apply Z.lxor_nonneg; lia).
  change 256 with (2 ^ 8). apply Z.log2_lt_pow2; [lia|].
  eapply Z.le_lt_trans; [apply Z.log2_lxor; lia|].
  assert (∀ c, 0 <= c < 256 → Z.log2 c < 8).
  { intros c Hc. destruct (Z.eq_dec c 0) as [->|]; [simpl; lia|]. apply Z.log2_lt_pow2; lia. }
  apply Z.max_lub_lt; auto.
Qed.

Lemma lxor_concat a v b w :
  is_byte a → is_byte b →
  Z.lxor (a + 256 * v) (b + 256 * w) = Z.lxor a b + 256 * Z.lxor v w.
Proof.
  intros Ha Hb. pose proof (lxor_byte_range a b Ha Hb) as Hc. unfold is_byte in *.
  replace (a + 256 * v) with (v * 2 ^ 8 + a) by (change (2 ^ 8) with 256; lia).
  replace (b + 256 * w) with (w * 2 ^ 8 + b) by (change (2 ^ 8) with 256; lia).
  replace (Z.lxor a b + 256 * Z.lxor v w) with (Z.lxor v w * 2 ^ 8 + Z.lxor a b)
    by (change (2 ^ 8) with 256; lia).
  apply Z.bits_inj'. intros i Hi. rewrite Z.lxor_spec, !testbit_concat by (done || lia).
  case_Z; by rewrite Z.lxor_spec.
Qed.

(** XOR of two little-endian words is the XOR of their bytes. *)
Lemma le_bytes_lxor a b :
  is_bytes a → is_bytes b → length a = length b →
  le_bytes (length a) (Z.lxor (le_val a) (le_val b)) = zip_with Z.lxor a b.
Proof.
  intros Ha. revert b. induction Ha as [|x a Hx Ha IH]; intros b Hb Hl;
    destruct b as [|y b]; try done.
  apply Forall_cons in Hb as [Hy Hb]. simpl length. cbn [le_bytes le_val zip_with].
  rewrite lxor_concat by done. pose proof (lxor_byte_range x y Hx Hy) as Hc. unfold is_byte in Hc.
  f_equal; [zdiv|]. rewrite <- (IH b) by (auto with lia). f_equal. zdiv.
Qed.

(** The reference: byte [i] is XORed with key byte [i mod 4]. *)
Definition mask_ref (data key : bytes) : bytes := mask_tail data 0 key.

Lemma mask_tail_app d1 d2 i key :
  mask_tail (d1 ++ d2) i key = mask_tail d1 i key ++ mask_tail d2 (i + length d1) key.
Proof.
  revert i. induction d1 as [|b d1 IH]; intros i; simpl; [by rewrite Nat.add_0_r|].
  rewrite IH. do 3 f_equal. lia.
Qed.

Lemma mask_tail_length d i key : length (mask_tail d i key) = length d.
Proof. revert i. induction d; intros; simpl; auto. Qed.

Lemma mask_tail_mod d i key : mask_tail d (i + 8) key = mask_tail d i key.
Proof.
  revert i. induction d as [|b d IH]; intros i; [done|]. cbn [mask_tail].
  assert ((i + 8) mod 4 = i mod 4)%nat as ->.
  { replace (i + 8)%nat with (i + 2 * 4)%nat by lia. by rewrite Nat.Div0.mod_add. }
  f_equal. apply (IH (S i)).
Qed.

Lemma mask_tail_8k d k key : mask_tail d (k * 8) key = mask_tail d 0 key.
Proof.
  induction k as [|k IH]; [done|]. rewrite <- IH. replace (S k * 8)%nat with (k * 8 + 8)%nat by lia.
  apply mask_tail_mod.
Qed.

(** One masked word. *)
Lemma mask_word w k0 k1 k2 k3 :
  is_bytes w → length w = 8%nat → is_bytes [k0; k1; k2; k3] →
  let key32 := le_val [k0; k1; k2; k3] in
  le_bytes 8 (Z.lxor (le_val w) (Z.lor (Z.shiftl key32 32) key32))
  = mask_tail w 0 [k0; k1; k2; k3].
Proof.
  intros Hw Hl Hk key32. pose proof (le_val_bound _ Hk) as Hb. fold key32 in Hb.
  change (256 ^ zlen [k0; k1; k2; k3]) with (2 ^ 32) in Hb.
  rewrite lor_shiftl_add by lia.
  replace (key32 * 2 ^ 32 + key32) with (le_val [k0; k1; k2; k3; k0; k1; k2; k3]).
  2: { change [k0; k1; k2; k3; k0; k1; k2; k3] with ([k0; k1; k2; k3] ++ [k0; k1; k2; k3]).
       rewrite le_val_app. change (256 ^ zlen [k0; k1; k2; k3]) with (2 ^ 32). fold key32. lia. }
  rewrite <- Hl. rewrite le_bytes_lxor; [|done|by apply (Forall_app_2 _ [k0; k1; k2; k3])|done].
  do 8 (destruct w as [|? w]; [done|]). by destruct w.
Qed.

Lemma mask_words_ref n data k0 k1 k2 k3 :
  is_bytes data → is_bytes [k0; k1; k2; k3] → length data = (n * 8)%nat →
  let key32 := le_val [k0; k1; k2; k3] in
  mask_words n data (Z.lor (Z.shiftl key32 32) key32) = mask_tail data 0 [k0; k1; k2; k3].
Proof.
  intros Hd Hk Hl key32. revert data Hd Hl. induction n as [|n IH]; intros data Hd Hl.
  - by apply nil_length_inv in Hl as ->.
  - cbn [mask_words]. rewrite <- (take_drop 8 data) at 3. rewrite mask_tail_app.
    rewrite length_take, Nat.min_l by lia. rewrite (mask_tail_mod _ 0). subst key32.
    rewrite mask_word; [|by apply Forall_take|rewrite length_take; lia|done].
    f_equal. apply IH; [by apply Forall_drop|rewrite length_drop; lia].
Qed.

Lemma mask_ref_eq data k0 k1 k2 k3 :
  is_bytes data → is_bytes [k0; k1; k2; k3] →
  mask data [k0; k1; k2; k3] = mask_ref data [k0; k1; k2; k3].
Proof.
  intros Hd Hk. unfold mask, mask_ref. set (n := (length data / 8)%nat).
  pose proof (Nat.Div0.mul_div_le (length data) 8) as Hle. fold n in Hle.
  rewrite <- (take_drop (n * 8) data) at 3. rewrite mask_tail_app.
  rewrite length_take, Nat.min_l, Nat.add_0_l by lia.
  f_equal. apply mask_words_ref; [by apply Forall_take|done|rewrite length_take; lia].
Qed.

Lemma mask_ref_invol data i key :
  mask_tail (mask_tail data i key) i key = data.
Proof.
  revert i. induction data as [|b data IH]; intros i; [done|]. cbn [mask_tail].
  rewrite IH. by rewrite Z.lxor_assoc, Z.lxor_nilpotent, Z.lxor_0_r.
Qed.

Lemma mask_ref_bytes data i key :
  is_bytes data → is_bytes key → is_bytes (mask_tail data i key).
Proof.
  intros Hd Hk. revert i. induction Hd as [|b data Hb Hd IH]; intros i; [done|].
  cbn [mask_tail]. constructor; [|done]. apply lxor_byte_range; [done|].
  rewrite nth_lookup. destruct (key !! _) eqn:E; simpl; [by eapply Forall_lookup_1|].
  unfold is_byte. lia.
Qed.

(** C9: the word-at-a-time [mask] computes the bytewise masking of RFC 6455
    (byte [i] XOR key byte [i mod 4]) for data of every length, and masking twice
    with one key gives the data back. *)
Theorem mask_equals_bytewise data k0 k1 k2 k3 :
  is_bytes data → is_bytes [k0; k1; k2; k3] →
  mask data [k0; k1; k2; k3] = mask_ref data [k0; k1; k2; k3] ∧
  mask (mask data [k0; k1; k2; k3]) [k0; k1; k2; k3] = data.
Proof.
  intros Hd Hk. split; [by apply mask_ref_eq|].
  rewrite !mask_ref_eq by (auto; rewrite mask_ref_eq by done; by apply mask_ref_bytes).
  apply mask_ref_invol.
Qed.

Lemma mask_equals_bytewise_witness :
  mask [1; 2; 3; 4; 5; 6; 7; 8; 9; 10] [11; 22; 33; 44]
  = mask_ref [1; 2; 3; 4; 5; 6; 7; 8; 9; 10] [11; 22; 33; 44].
Proof. apply mask_equals_bytewise; repeat constructor; unfold is_byte; lia. Defined.

(** ** Frames on the wire *)

Lemma b2z_range b : 0 <= Z.b2z b < 2.
Proof. destruct b; simpl; lia. Qed.

Lemma negb_b2z b : negb (Z.b2z b =? 0) = b.
Proof. by destruct b. Qed.

Lemma unpack_pack_header h :
  0 <= OPCODE h < 16 → 0 <= LENGTH h < 128 →
  ∃ b0 b1, pack_header h = [b0; b1] ∧ unpack_header b0 b1 = h ∧ is_byte b0 ∧ is_byte b1.
Proof.
  destruct h as [f r1 r2 r3 o m l]; cbn [OPCODE LENGTH]. intros Ho Hl.
  unfold pack_header; cbn [FIN RSV1 RSV2 RSV3 OPCODE MASK LENGTH].
  rewrite (Z.mod_small o 16), (Z.mod_small l 128) by lia.
  do 2 eexists; split; [done|]. unfold unpack_header.
  pose proof (b2z_range f). pose proof (b2z_range r1). pose proof (b2z_range r2).
  pose proof (b2z_range r3). pose proof (b2z_range m).
  set (vf := Z.b2z f) in *; set (v1 := Z.b2z r1) in *; set (v2 := Z.b2z r2) in *;
    set (v3 := Z.b2z r3) in *; set (vm := Z.b2z m) in *.
  split; [|unfold is_byte; lia].
  replace ((vf * 128 + v1 * 64 + v2 * 32 + v3 * 16 + o) / 128 mod 2) with vf by zdiv.
  replace ((vf * 128 + v1 * 64 + v2 * 32 + v3 * 16 + o) / 64 mod 2) with v1 by zdiv.
  replace ((vf * 128 + v1 * 64 + v2 * 32 + v3 * 16 + o) / 32 mod 2) with v2 by zdiv.
  replace ((vf * 128 + v1 * 64 + v2 * 32 + v3 * 16 + o) / 16 mod 2) with v3 by zdiv.
  replace ((vf * 128 + v1 * 64 + v2 * 32 + v3 * 16 + o) mod 16) with o by zdiv.
  replace ((vm * 128 + l) / 128 mod 2) with vm by zdiv.
  replace ((vm * 128 + l) mod 128) with l by zdiv.
  subst vf v1 v2 v3 vm. by rewrite !negb_b2z.
Qed.

(** The 7-bit length field and the extended length bytes of a payload of [n]
    bytes. *)
Definition length_field (n : Z) : Z := if n <? 126 then n else if n <? 65536 then 126 else 127.
Definition length_ext (n : Z) : bytes :=
  if n <? 126 then [] else if n <? 65536 then be_bytes 2 n else be_bytes 8 n.

Lemma length_field_range n : 0 <= n → 0 <= length_field n < 128.
Proof. intros. unfold length_field. case_Z; lia. Qed.

Lemma length_ext_zlen n :
  zlen (length_ext n) = if n <? 126 then 0 else if n <? 65536 then 2 else 8.
Proof. unfold length_ext. case_Z; [done| |]; unfold zlen; by rewrite be_bytes_length. Qed.

Lemma ntohs_be n : 0 <= n < 65536 → ntohs (le_val (be_bytes 2 n)) = n.
Proof.
  intros Hn. unfold ntohs. rewrite <- (be_bytes_length 2 n) at 1.
  rewrite le_bytes_val by apply be_bytes_is_bytes. rewrite be_val_bytes. by apply Z.mod_small.
Qed.

Lemma ntoh64_be n : 0 <= n < 2 ^ 64 → openswoole_ntoh64 (le_val (be_bytes 8 n)) = n.
Proof.
  intros Hn. rewrite ntoh64_be_val by (apply be_bytes_is_bytes || apply be_bytes_length).
  rewrite be_val_bytes. by apply Z.mod_small.
Qed.

(** The header [encode] writes for these flags. *)
Definition encoded_header (opcode flags n : Z) : Header :=
  MkHeader (has flags FLAG_FIN) (has flags FLAG_RSV1) false false opcode
           (has flags FLAG_MASK) (length_field n).

Definition encoded_key (flags : Z) : bytes :=
  if has flags FLAG_MASK then OSW_WEBSOCKET_MASK_DATA else [].

Definition encoded_payload (data : bytes) (flags : Z) : bytes :=
  if has flags FLAG_ENCODE_HEADER_ONLY then []
  else if has flags FLAG_MASK then mask data OSW_WEBSOCKET_MASK_DATA else data.

Definition encoded (data : bytes) (opcode flags : Z) : bytes :=
  pack_header (encoded_header opcode flags (zlen data)) ++ length_ext (zlen data)
  ++ encoded_key flags ++ encoded_payload data flags.

Lemma mask_nil key : mask [] key = [].
Proof. done. Qed.

Lemma encode_shape buffer data opcode flags :
  zlen data < 2 ^ 64 → snd (encode buffer data opcode flags) = buffer ++ encoded data opcode flags.
Proof.
  intros Hd. pose proof (zlen_nonneg data). unfold encode, encoded, encoded_key, encoded_payload.
  unfold encoded_header, length_field, length_ext, OSW_WEBSOCKET_EXT16_LENGTH,
    OSW_WEBSOCKET_EXT64_LENGTH.
  assert (0 < zlen data ∨ data = []) as Hn by (destruct data; [auto|left; unfold zlen; simpl; lia]).
  rewrite hton64_bytes by lia.
  destruct (Z.ltb_spec (zlen data) 126); [|destruct (Z.ltb_spec (zlen data) 65536)].
  2: rewrite u16_small by lia; unfold ntohs; rewrite swap_store by (cbn; lia).
  all: destruct (has flags FLAG_MASK), (has flags FLAG_ENCODE_HEADER_ONLY),
      (Z.ltb_spec 0 (zlen data)); cbn [snd andb negb];
      rewrite ?app_nil_r, <- ?(assoc_L (++)); try done;
    (destruct Hn as [Hn| ->]; [lia|]); by rewrite ?mask_nil, ?app_nil_r.
Qed.

Lemma at_0 (b : Z) l : at_ (b :: l) 0 = Some b.
Proof. done. Qed.
Lemma at_1 (a b : Z) l : at_ (a :: b :: l) 1 = Some b.
Proof. done. Qed.

(** Both readers of the length find the header size and the payload length. *)
Lemma decode_length n b0 b1 rest :
  0 <= n < 2 ^ 64 →
  (if length_field n =? 126
   then v ← load (b0 :: b1 :: length_ext n ++ rest) 2 2; Some (4, ntohs (le_val v))
   else if length_field n >? 126
   then v ← load (b0 :: b1 :: length_ext n ++ rest) 2 8; Some (10, openswoole_ntoh64 (le_val v))
   else Some (2, length_field n)) = Some (2 + zlen (length_ext n), n).
Proof.
  intros Hn. rewrite length_ext_zlen. unfold length_field, length_ext.
  destruct (Z.ltb_spec n 126); [|destruct (Z.ltb_spec n 65536)].
  - rewrite (proj2 (Z.eqb_neq _ _)), Z.gtb_ltb, (proj2 (Z.ltb_ge _ _)) by lia. done.
  - change (126 =? 126) with true. cbn iota.
    rewrite (load_mid [b0; b1] (be_bytes 2 n) rest) by (unfold zlen; rewrite ?be_bytes_length; done).
    cbn [mbind option_bind]. by rewrite ntohs_be by lia.
  - change (127 =? 126) with false. change (127 >? 126) with true. cbn iota.
    rewrite (load_mid [b0; b1] (be_bytes 8 n) rest) by (unfold zlen; rewrite ?be_bytes_length; done).
    cbn [mbind option_bind]. by rewrite ntoh64_be by lia.
Qed.

Lemma encoded_key_zlen flags : zlen (encoded_key flags) = if has flags FLAG_MASK then 4 else 0.
Proof. unfold encoded_key. by destruct (has _ _). Qed.

Lemma mask_data_bytes : is_bytes OSW_WEBSOCKET_MASK_DATA.
Proof. repeat constructor; unfold is_byte; simpl; lia. Qed.

Lemma mask_data_zlen : zlen OSW_WEBSOCKET_MASK_DATA = 4.
Proof. done. Qed.

Lemma mask_data_invol data :
  is_bytes data → mask (mask data OSW_WEBSOCKET_MASK_DATA) OSW_WEBSOCKET_MASK_DATA = data.
Proof.
  intros Hd. pose proof mask_data_bytes as Hk.
  change OSW_WEBSOCKET_MASK_DATA with [50; 53; 56; 69] in *.
  rewrite !mask_ref_eq by (auto; rewrite mask_ref_eq by done; by apply mask_ref_bytes).
  apply mask_ref_invol.
Qed.

Lemma mask_data_length data :
  is_bytes data → length (mask data OSW_WEBSOCKET_MASK_DATA) = length data.
Proof.
  intros Hd. pose proof mask_data_bytes as Hk.
  change OSW_WEBSOCKET_MASK_DATA with [50; 53; 56; 69] in *.
  rewrite mask_ref_eq by done. apply mask_tail_length.
Qed.

Lemma zlen_mask_data data :
  is_bytes data → zlen (mask data OSW_WEBSOCKET_MASK_DATA) = zlen data.
Proof. intros. unfold zlen. by rewrite mask_data_length. Qed.

Lemma decode_encoded data opcode flags :
  is_bytes data → zlen data < 2 ^ 64 → 0 <= opcode < 16 →
  has flags FLAG_ENCODE_HEADER_ONLY = false →
  ∃ f buf, decode (encoded data opcode flags) = Some (f, buf) ∧
    header f = encoded_header opcode flags (zlen data) ∧ payload_length f = zlen data ∧
    zlen buf = zlen (encoded data opcode flags) ∧
    drop (length buf - length data) buf = data.
Proof.
  intros Hb Hd Ho Hf. pose proof (zlen_nonneg data) as H0.
  destruct (unpack_pack_header (encoded_header opcode flags (zlen data))) as (b0&b1&Hp&Hu&_&_);
    [done|by apply length_field_range|].
  unfold encoded. rewrite Hp. cbn [app]. unfold decode. rewrite at_0, at_1. cbn [mbind option_bind].
  rewrite Hu. cbn [LENGTH MASK encoded_header]. rewrite decode_length by lia.
  cbn [mbind option_bind]. unfold encoded_payload. rewrite Hf.
  destruct (Z.eqb_spec (zlen data) 0) as [Hz|Hz].
  { do 2 eexists. split; [done|]. cbn [header payload_length].
    repeat split; [lia|]. destruct data; [|done].
    rewrite Nat.sub_0_r, drop_all. done. }
  change (b0 :: b1 :: length_ext (zlen data) ++ ?r)
    with ((b0 :: b1 :: length_ext (zlen data)) ++ r).
  assert (2 + zlen (length_ext (zlen data)) = zlen (b0 :: b1 :: length_ext (zlen data))) as ->
    by (rewrite !zlen_cons; lia).
  set (pre := b0 :: b1 :: length_ext (zlen data)).
  unfold encoded_key. destruct (has flags FLAG_MASK) eqn:Hm.
  - rewrite (load_mid pre OSW_WEBSOCKET_MASK_DATA (mask data OSW_WEBSOCKET_MASK_DATA) (zlen pre) 4)
      by done.
    cbn [mbind option_bind].
    assert (pre ++ OSW_WEBSOCKET_MASK_DATA ++ mask data OSW_WEBSOCKET_MASK_DATA
      = (pre ++ OSW_WEBSOCKET_MASK_DATA) ++ mask data OSW_WEBSOCKET_MASK_DATA ++ []) as ->.
    { by rewrite app_nil_r, <- (assoc_L (++)). }
    rewrite load_mid by (rewrite ?zlen_mask_data, ?zlen_app by done; done).
    cbn [mbind option_bind].
    rewrite store_mid by (rewrite ?zlen_app, ?mask_data_invol, ?mask_data_length by done; done).
    rewrite mask_data_invol by done. cbn [mbind option_bind].
    do 2 eexists. split; [done|]. cbn [header payload_length]. rewrite !app_nil_r.
    repeat split; [by rewrite !zlen_app, zlen_mask_data|].
    rewrite length_app, Nat.add_sub. apply drop_app_length.
  - do 2 eexists. split; [done|]. cbn [header payload_length app]. repeat split.
    rewrite length_app, Nat.add_sub. apply drop_app_length.
Qed.

Lemma land_127_mod b : Z.land b 127 = b mod 128.
Proof. by apply (Z.land_ones b 7). Qed.

(** Header size of an encoded frame. *)
Definition encoded_header_length (flags n : Z) : Z :=
  2 + zlen (length_ext n) + (if has flags FLAG_MASK then 4 else 0).

Lemma encoded_zlen data opcode flags :
  is_bytes data → has flags FLAG_ENCODE_HEADER_ONLY = false →
  zlen (encoded data opcode flags) = encoded_header_length flags (zlen data) + zlen data.
Proof.
  intros Hd Hf. unfold encoded, encoded_header_length, encoded_payload. rewrite Hf.
  rewrite !zlen_app, encoded_key_zlen. change (zlen (pack_header _)) with 2.
  destruct (has flags FLAG_MASK); rewrite ?zlen_mask_data by done; lia.
Qed.

Lemma package_length_encoded data opcode flags rhl k :
  is_bytes data → zlen data < 2 ^ 63 - 14 → 0 <= opcode < 16 →
  has flags FLAG_ENCODE_HEADER_ONLY = false → (k <= length (encoded data opcode flags))%nat → Z.of_nat k < 2 ^ 32 →
  let frame := encoded data opcode flags in
  ∃ rhl', get_package_length rhl (take k frame) (Z.of_nat k)
  = Some (if Z.of_nat k <? encoded_header_length flags (zlen data) then 0 else zlen frame, rhl').
Proof.
  intros Hb Hd Ho Hf Hk Hk32 frame. pose proof (zlen_nonneg data) as H0.
  assert (zlen frame = encoded_header_length flags (zlen data) + zlen data) as Hz
    by by apply encoded_zlen.
  rewrite Hz. unfold encoded_header_length in *. rewrite length_ext_zlen in *.
  destruct (unpack_pack_header (encoded_header opcode flags (zlen data))) as (b0&b1&Hp&Hu&_&Hb1);
    [done|by apply length_field_range|].
  assert (MASK (unpack_header b0 b1) = has flags FLAG_MASK ∧
          LENGTH (unpack_header b0 b1) = length_field (zlen data)) as [Hm Hl] by by rewrite Hu.
  cbn [MASK LENGTH unpack_header] in Hm, Hl.
  assert (frame = b0 :: b1 :: length_ext (zlen data) ++ encoded_key flags ++
          encoded_payload data flags) as Hfr.
  { subst frame. unfold encoded. by rewrite Hp. }
  assert (zlen frame = Z.of_nat (length frame)) as Hzl by done.
  unfold get_package_length, OSW_WEBSOCKET_HEADER_LEN, OSW_WEBSOCKET_MASK_LEN,
    OSW_WEBSOCKET_EXT16_LENGTH, OSW_WEBSOCKET_EXT64_LENGTH. cbv zeta. rewrite u32_small by lia.
  destruct (Z.ltb_spec (Z.of_nat k) 2).
  { eexists. rewrite (proj2 (Z.ltb_lt _ _)); [done|].
    destruct (has flags FLAG_MASK); case_Z; lia. }
  rewrite at_take, Hfr, at_1 by lia. rewrite <- Hfr. cbn [mbind option_bind].
  rewrite land_127_mod, Hl, Hm. clear Hm Hl Hu Hp.
  assert (∀ hl, 2 <= hl <= 10 → i64 (hl + zlen data) = hl + zlen data) as Hi.
  { intros. apply i64_small. lia. }
  assert (∀ hl, 2 <= hl <= 10 → i64 (hl + 4 + zlen data) = hl + 4 + zlen data) as Hi4.
  { intros. apply i64_small. lia. }
  assert (0 <= if has flags FLAG_MASK then 4 else 0) by (destruct (has flags FLAG_MASK); lia).
  pose proof (λ n, load_take frame k 2 n) as Hlt.
  pose proof (λ n, load_mid [b0; b1] (length_ext (zlen data))
    (encoded_key flags ++ encoded_payload data flags) 2 n eq_refl) as Hlm.
  cbn [app] in Hlm. rewrite <- Hfr, length_ext_zlen in Hlm.
  unfold length_field. unfold length_ext in Hlm.
  destruct (Z.ltb_spec (zlen data) 126); [|destruct (Z.ltb_spec (zlen data) 65536)].
  - rewrite !(proj2 (Z.eqb_neq _ _)) by lia.
    destruct (has flags FLAG_MASK); rewrite ?Hi, ?Hi4 by lia; case_Z; try lia; eexists; done.
  - change (126 =? 126) with true. cbn iota.
    destruct (Z.ltb_spec (Z.of_nat k) (2 + 2)).
    { eexists. rewrite (proj2 (Z.ltb_lt _ _)); [done|]. destruct (has flags FLAG_MASK); lia. }
    rewrite Hlt, (Hlm 2) by (done || lia). cbn [mbind option_bind]. rewrite ntohs_be by lia.
    destruct (has flags FLAG_MASK); rewrite ?Hi, ?Hi4 by lia; case_Z; try lia; eexists; done.
  - change (127 =? 126) with false. change (127 =? 127) with true. cbn iota.
    destruct (Z.ltb_spec (Z.of_nat k) (2 + 8)).
    { eexists. rewrite (proj2 (Z.ltb_lt _ _)); [done|]. destruct (has flags FLAG_MASK); lia. }
    rewrite Hlt, (Hlm 8) by (done || lia). cbn [mbind option_bind]. rewrite ntoh64_be by lia.
    destruct (has flags FLAG_MASK); rewrite ?Hi, ?Hi4 by lia; case_Z; try lia; eexists; done.
Qed.

(** C10: framing round trip.  For every payload the frame that [encode] writes, unless it is
    asked for the header only, is
    understood by the receiving side: [get_package_length] on any received prefix
    of it shorter than 4 GiB answers 0 (wait for more) exactly while the header is incomplete and
    the size of the whole frame afterwards; [decode] of the whole frame finds the
    opcode, the FIN and RSV1 flags (the other flags are not put into the frame) and the
    payload length, and unmasks the payload in place to the original data. *)
Theorem encode_decode_roundtrip data opcode flags rhl :
  is_bytes data → zlen data < 2 ^ 63 - 14 → 0 <= opcode < 16 →
  has flags FLAG_ENCODE_HEADER_ONLY = false →
  let frame := snd (encode [] data opcode flags) in
  (∀ k, (k <= length frame)%nat → Z.of_nat k < 2 ^ 32 → ∃ rhl',
     get_package_length rhl (take k frame) (Z.of_nat k)
     = Some (if Z.of_nat k <? encoded_header_length flags (zlen data) then 0 else zlen frame,
             rhl')) ∧
  ∃ f buf, decode frame = Some (f, buf) ∧
    OPCODE (header f) = opcode ∧ FIN (header f) = has flags FLAG_FIN ∧
    RSV1 (header f) = has flags FLAG_RSV1 ∧ payload_length f = zlen data ∧
    drop (length buf - length data) buf = data.
Proof.
  intros Hb Hd Ho Hf frame. subst frame. rewrite encode_shape by lia. cbn [app]. split.
  - intros k Hk Hk32. by apply package_length_encoded.
  - destruct (decode_encoded data opcode flags) as (f&buf&?&Hh&?&?&?); [done|lia|done|done|].
    exists f, buf. by rewrite Hh.
Qed.

Lemma encode_decode_roundtrip_witness :
  let frame := snd (encode [] (lit "hello") OPCODE_TEXT (FLAG_FIN + FLAG_MASK)) in
  fst <$> get_package_length 0 (take 7 frame) 7 = Some 11 ∧
  ∃ f buf, decode frame = Some (f, buf) ∧ drop (length buf - 5) buf = lit "hello".
Proof.
  destruct (encode_decode_roundtrip (lit "hello") OPCODE_TEXT (FLAG_FIN + FLAG_MASK) 0)
    as [_ (f&buf&?&_&_&_&_&?)].
  - repeat constructor; unfold is_byte; simpl; lia.
  - vm_compute. done.
  - unfold OPCODE_TEXT. lia.
  - done.
  - split; [done|]. by exists f, buf.
Defined.

(** The 64-bit length field of a peer is added to the header size without an
    overflow check: a masked frame that announces 2^64 - 1 bytes of payload gets a
    package length of 13, less than its own header, and [decode] of such a
    13-byte package accesses memory out of bounds. *)
Theorem package_length_overflow key :
  length key = 4%nat →
  let frame := [129; 255] ++ be_bytes 8 (2 ^ 64 - 1) ++ key in
  get_package_length 0 frame 14 = Some (13, 0) ∧ decode (take 13 frame) = None.
Proof.
  intros Hk. do 4 (destruct key as [|? key]; [done|]). destruct key; [|done].
  split; vm_compute; done.
Qed.

Lemma package_length_overflow_witness :
  get_package_length 0 ([129; 255] ++ be_bytes 8 (2 ^ 64 - 1) ++ [1; 2; 3; 4]) 14 = Some (13, 0).
Proof. apply (package_length_overflow [1; 2; 3; 4]). done. Defined.

(** ** Reassembly of fragmented messages *)

(** The frames of a connection, dispatched in the order of arrival. *)
Fixpoint dispatch_all (max : Z) (conn : Conn) (frames : list bytes) :
    option (Conn * list event) :=
  match frames with
  | [] => Some (conn, [])
  | f :: frames =>
    r ← dispatch_frame max conn f;
    let '(_, conn, evs) := r in
    r' ← dispatch_all max conn frames;
    let '(conn, evs') := r' in Some (conn, evs ++ evs')
  end.

Lemma tail_from_payload buf L n data :
  zlen buf = L → L < 2 ^ 64 → n = zlen data → drop (length buf - length data) buf = data →
  (length data <= length buf)%nat → tail_from buf L n = Some data.
Proof.
  intros <- HL -> Hd Hle. unfold tail_from, zlen in *. rewrite !u64_small by lia.
  rewrite load_Some by (unfold zlen; lia). f_equal. rewrite <- Hd at 3.
  rewrite take_ge by (rewrite length_drop; lia). f_equal. lia.
Qed.

Section Reassembly.
Variable max : Z.
Hypothesis Hmax : max < 2 ^ 31.

(** A client frame: bytes, a size the receiver accepts, no internal flag. *)
Definition sendable (p : bytes * Z) : Prop :=
  is_bytes (fst p) ∧ zlen (fst p) < 2 ^ 31 ∧ has (snd p) FLAG_ENCODE_HEADER_ONLY = false.

Lemma decode_sendable d op f :
  sendable (d, f) → 0 <= op < 16 →
  ∃ fr buf, decode (encoded d op f) = Some (fr, buf) ∧
    header fr = encoded_header op f (zlen d) ∧ payload_length fr = zlen d ∧
    tail_from buf (zlen (encoded d op f)) (zlen d) = Some d ∧
    zlen d <= zlen (encoded d op f) < 2 ^ 32.
Proof.
  intros (Hb & Hl & Hf) Ho. cbn [fst snd] in *.
  destruct (decode_encoded d op f) as (fr & buf & Hd & Hh & Hp & Hz & Ht); [done|lia|done|done|].
  pose proof (encoded_zlen d op f Hb Hf) as He. unfold encoded_header_length in He.
  rewrite length_ext_zlen in He.
  assert (zlen d <= zlen (encoded d op f) < 2 ^ 32).
  { destruct (has f FLAG_MASK); revert He; case_Z; lia. }
  exists fr, buf. repeat split; try done; try lia.
  apply tail_from_payload; try done; [lia|]. unfold zlen in *. lia.
Qed.

Lemma dispatch_first conn d op f :
  sendable (d, f) → has f FLAG_FIN = false → op = OPCODE_TEXT ∨ op = OPCODE_BINARY →
  websocket_buffer conn = None →
  ∃ ext, dispatch_frame max conn (encoded d op f)
  = Some (OSW_OK, MkConn (Some (d, ext)) (websocket_status conn), []) ∧
    ext = op * 256 + get_flags (MkFrame (encoded_header op f (zlen d)) [] 0 0 None).
Proof.
  intros Hs Hf Hop Hc. assert (0 <= op < 16) as Ho by (unfold OPCODE_TEXT, OPCODE_BINARY in *; lia).
  destruct (decode_sendable d op f Hs Ho) as (fr & buf & Hd & Hh & Hp & Ht & _).
  eexists. split; [|reflexivity].
  unfold dispatch_frame. rewrite Hd. cbn [mbind option_bind]. rewrite Hh, Hp, Ht.
  cbn [OPCODE FIN encoded_header]. rewrite Hf, Hc. cbn [negb mbind option_bind].
  assert (get_ext_flags op (get_flags fr)
          = op * 256 + get_flags (MkFrame (encoded_header op f (zlen d)) [] 0 0 None)) as ->.
  { unfold get_ext_flags, get_flags. rewrite Hh. cbn [header encoded_header FIN RSV1 RSV2 RSV3 MASK].
    destruct Hop as [-> | ->], (has f FLAG_FIN), (has f FLAG_RSV1), (has f FLAG_MASK); done. }
  destruct Hop as [-> | ->]; done.
Qed.

Lemma dispatch_cont conn acc ext d f :
  sendable (d, f) → websocket_buffer conn = Some (acc, ext) → zlen acc + zlen d <= max →
  dispatch_frame max conn (encoded d OPCODE_CONTINUATION f)
  = Some (if has f FLAG_FIN
    then (OSW_OK, MkConn None (websocket_status conn),
          [DispatchTask (Z.lor (u16 ext) FLAG_FIN) (acc ++ d)])
    else (OSW_OK, MkConn (Some (acc ++ d, ext)) (websocket_status conn), [])).
Proof.
  intros Hs Hc Hm.
  destruct (decode_sendable d OPCODE_CONTINUATION f Hs) as (fr & buf & Hd & Hh & Hp & Ht & Hl);
    [unfold OPCODE_CONTINUATION; lia|].
  pose proof (zlen_nonneg d). pose proof (zlen_nonneg acc).
  unfold dispatch_frame. rewrite Hd. cbn [mbind option_bind]. rewrite Hh, Hp, Ht.
  cbn [OPCODE FIN encoded_header]. change (OPCODE_CONTINUATION =? OPCODE_CONTINUATION) with true.
  rewrite Hc. set (L := zlen (encoded d OPCODE_CONTINUATION f)) in *.
  rewrite (u64_small (L - zlen d)) by lia.
  replace (L - (L - zlen d)) with (zlen d) by lia.
  rewrite (u64_small (zlen d)), i32_small by lia. rewrite u64_small by lia.
  rewrite Z.gtb_ltb, (proj2 (Z.ltb_ge _ _)) by lia. cbn [mbind option_bind].
  by destruct (has f FLAG_FIN).
Qed.

Definition cont_frames (parts : list (bytes * Z)) : list bytes :=
  (λ p, encoded (fst p) OPCODE_CONTINUATION (snd p)) <$> parts.

Lemma dispatch_conts conn acc ext mids d f :
  Forall sendable mids → Forall (λ p, has (snd p) FLAG_FIN = false) mids →
  sendable (d, f) → has f FLAG_FIN = true → websocket_buffer conn = Some (acc, ext) →
  zlen acc + zlen (concat (fst <$> mids)) + zlen d <= max →
  dispatch_all max conn (cont_frames mids ++ [encoded d OPCODE_CONTINUATION f])
  = Some (MkConn None (websocket_status conn),
          [DispatchTask (Z.lor (u16 ext) FLAG_FIN) (acc ++ concat (fst <$> mids) ++ d)]).
Proof.
  intros Hs. revert conn acc. induction Hs as [|[d0 f0] mids Hs0 Hs IH];
    intros conn acc Hn Hsl Hf Hc Hm; cbn [cont_frames fmap list_fmap app fst snd concat] in *.
  - cbn [dispatch_all]. rewrite (dispatch_cont _ acc ext) by (done || zl). rewrite Hf. done.
  - apply Forall_cons in Hn as [Hn0 Hn]. cbn [snd] in Hn0. cbn [dispatch_all].
    rewrite (dispatch_cont _ acc ext) by (done || zl). rewrite Hn0. cbn [mbind option_bind].
    rewrite (IH _ (acc ++ d0)) by (done || zl). cbn [mbind option_bind websocket_status app].
    by rewrite !(assoc_L (++)).
Qed.
End Reassembly.

(** C12: a message sent as a TEXT or BINARY frame without FIN, any number of
    continuation frames without FIN and a continuation frame with FIN, each
    masked or not, is dispatched exactly once: the task receives the
    concatenation of the parts, the opcode and flags of the first frame with FIN
    added, and the connection has no unfinished message afterwards. *)
Theorem fragments_reassembled max conn op d0 f0 mids d f :
  max < 2 ^ 31 → op = OPCODE_TEXT ∨ op = OPCODE_BINARY → websocket_buffer conn = None →
  sendable (d0, f0) → has f0 FLAG_FIN = false →
  Forall sendable mids → Forall (λ p, has (snd p) FLAG_FIN = false) mids →
  sendable (d, f) → has f FLAG_FIN = true →
  zlen d0 + zlen (concat (fst <$> mids)) + zlen d <= max →
  dispatch_all max conn
    ([encoded d0 op f0] ++ cont_frames mids ++ [encoded d OPCODE_CONTINUATION f])
  = Some (MkConn None (websocket_status conn),
          [DispatchTask
             (Z.lor (op * 256 + get_flags (MkFrame (encoded_header op f0 (zlen d0)) [] 0 0 None))
                    FLAG_FIN)
             (d0 ++ concat (fst <$> mids) ++ d)]).
Proof.
  intros Hmax Hop Hc Hs0 Hf0 Hs Hn Hsl Hf Hm. cbn [app dispatch_all].
  destruct (dispatch_first max conn d0 op f0 Hs0 Hf0 Hop Hc) as (ext & -> & ->).
  cbn [mbind option_bind].
  rewrite (dispatch_conts max Hmax _ d0 (op * 256 + get_flags
    (MkFrame (encoded_header op f0 (zlen d0)) [] 0 0 None))) by (done || zl).
  cbn [mbind option_bind websocket_status app]. rewrite u16_small; [done|].
  unfold get_flags. cbn [header encoded_header FIN RSV1 RSV2 RSV3 MASK].
  destruct Hop as [-> | ->], (has f0 FLAG_FIN), (has f0 FLAG_RSV1), (has f0 FLAG_MASK);
    vm_compute; done.
Qed.

Lemma fragments_reassembled_witness :
  dispatch_all 1000 (MkConn None 3)
    [encoded (lit "he") OPCODE_TEXT FLAG_MASK; encoded (lit "ll") OPCODE_CONTINUATION FLAG_MASK;
     encoded (lit "o") OPCODE_CONTINUATION (FLAG_FIN + FLAG_MASK)]
  = Some (MkConn None 3, [DispatchTask 289 (lit "hello")]).
Proof.
  assert (∀ s, (String.length s < 100)%nat → is_bytes (lit s)) as Hb.
  { intros s _. unfold lit. apply Forall_fmap, Forall_true. intros c. unfold is_byte; simpl.
    pose proof (Ascii.N_ascii_bounded c). lia. }
  apply (fragments_reassembled 1000 (MkConn None 3) OPCODE_TEXT (lit "he") FLAG_MASK
    [(lit "ll", FLAG_MASK)] (lit "o") (FLAG_FIN + FLAG_MASK)); try done; [by left|..];
  repeat constructor; vm_compute; done.
Defined.
