(* ===== verification/Mqtt.v ===== *)
(** * MQTT packet length: src/protocol/mqtt.cc

    [get_package_length] decodes the variable-length "remaining length" field.
    The result is [None] when the source reads past the bytes received. *)

From S2P Require Import Prelude.

Definition OSW_MQTT_MIN_LENGTH_SIZE : Z := 1.
Definition OSW_MQTT_MAX_LENGTH_SIZE : Z := 4.
Definition OSW_MQTT_RECV_LEN_AGAIN : Z := 0.

(** The [while (1)] loop: at most [OSW_MQTT_MAX_LENGTH_SIZE] turns, so four units
    of fuel always suffice. *)
Fixpoint length_loop (fuel : nat) (data : bytes) (recv : Z) (mul length count : Z) : option Z :=
  match fuel with
  | O => None
  | S fuel =>
    let count := count + 1 in
    byte ← at_ data count;
    let length := length + Z.land byte 127 * mul in
    let mul := i32 (mul * 128) in
    if Z.land byte 128 =? 0 then Some (length + count + 1) else
    if count >=? OSW_MQTT_MAX_LENGTH_SIZE then Some OSW_ERR else
    if count >=? recv then Some OSW_MQTT_RECV_LEN_AGAIN else
    length_loop fuel data recv mul length count
  end.

Definition get_package_length (data : bytes) (size : Z) : option Z :=
  let recv_variable_header_size := u32 (size - 1) in
  if recv_variable_header_size <? OSW_MQTT_MIN_LENGTH_SIZE
  then Some OSW_MQTT_RECV_LEN_AGAIN
  else length_loop 4 data recv_variable_header_size 1 0 0.

(** [set_protocol]: length field size, its offset, body offset. *)
Definition set_protocol : Z * Z * Z := (OSW_MQTT_MAX_LENGTH_SIZE, 1, 0).

(** ** Specification: the encoder of the MQTT standard (section 2.2.3) *)

Fixpoint encode_length (fuel : nat) (x : Z) : bytes :=
  match fuel with
  | O => []
  | S fuel =>
    if x <? 128 then [x] else (x mod 128 + 128) :: encode_length fuel (x / 128)
  end.

Lemma land_127 b : Z.land b 127 = b mod 128.
Proof. change 127 with (Z.ones 7). by rewrite Z.land_ones by lia. Qed.

Lemma land_128 b : 0 <= b < 256 → (Z.land b 128 =? 0) = (b <? 128).
Proof.
  intros Hb. assert (Z.land b 128 = 128 * (b / 128)) as ->.
  { replace (Z.land b 128) with (Z.ldiff b (Z.ones 7)).
    - rewrite Z.ldiff_ones_r by lia. rewrite Z.shiftl_mul_pow2, Z.shiftr_div_pow2 by lia.
      change (2 ^ 7) with 128. lia.
    - apply Z.bits_inj'. intros n Hn. rewrite Z.ldiff_spec, Z.land_spec.
      change 128 with (2 ^ 7). rewrite Z.pow2_bits_eqb by lia.
      destruct (Z.eqb_spec 7 n) as [<-|Hne]; [by rewrite Z.ones_spec_high by lia|].
      rewrite andb_false_r. destruct (Z.lt_ge_cases n 7).
      + rewrite Z.ones_spec_low by lia. by rewrite andb_false_r.
      + rewrite (Z.bits_above_log2 b n); [done|lia|].
        destruct (Z.eq_dec b 0) as [->|]; [simpl; lia|].
        apply Z.log2_lt_pow2; [lia|]. apply Z.lt_le_trans with (2 ^ 8); [lia|].
        apply Z.pow_le_mono_r; lia. }
  case_Z; zdiv.
Qed.

Lemma encode_length_pos fuel x : encode_length (S fuel) x ≠ [].
Proof. simpl. by destruct (x <? 128). Qed.

(** The loop, started after [count] length bytes, finishes the decoding. *)
Lemma length_loop_encode fuel pre x suf mul len :
  0 <= x < 128 ^ Z.of_nat fuel → (fuel + length pre = 5)%nat → (1 <= length pre <= 4)%nat →
  mul = 128 ^ (zlen pre - 1) →
  ∀ recv, zlen (pre ++ encode_length fuel x) - 1 <= recv →
  length_loop fuel (pre ++ encode_length fuel x ++ suf) recv mul len (zlen pre - 1) =
    Some (len + x * mul + zlen (pre ++ encode_length fuel x)).
Proof.
  revert pre x mul len.
  induction fuel as [|fuel IH]; intros pre x mul len Hx Hf Hp Hmul recv Hrecv; [lia|].
  rewrite Nat2Z.inj_succ, Z.pow_succ_r in Hx by lia.
  cbn [length_loop]. replace (zlen pre - 1 + 1) with (zlen pre) by lia.
  cbn [encode_length] in *. destruct (Z.ltb_spec x 128) as [Hlt|Hge].
  - cbn [app]. rewrite at_prefix. cbn [mbind option_bind].
    rewrite land_127, land_128, (Z.mod_small x 128) by lia.
    rewrite (proj2 (Z.ltb_lt _ _)) by lia. apply (f_equal Some). rewrite zlen_app. unfold zlen. simpl. lia.
  - cbn [app]. rewrite at_prefix. cbn [mbind option_bind].
    assert (0 <= x mod 128 < 128) as Hm by (apply Z.mod_pos_bound; lia).
    rewrite land_127, land_128 by lia.
    replace ((x mod 128 + 128) mod 128) with (x mod 128) by zdiv.
    rewrite (proj2 (Z.ltb_ge _ _)) by lia.
    assert (fuel ≠ O) as Hfne by (intros ->; simpl in Hx; lia).
    unfold OSW_MQTT_MAX_LENGTH_SIZE. rewrite !Z.geb_leb.
    rewrite (proj2 (Z.leb_gt 4 (zlen pre))) by (unfold zlen; lia).
    assert (0 < zlen (encode_length fuel (x / 128))) as Hz.
    { destruct fuel; [done|]. pose proof (encode_length_pos fuel (x / 128)) as Hne.
      destruct (encode_length _ _); [done|]. unfold zlen. simpl. lia. }
    rewrite (proj2 (Z.leb_gt recv (zlen pre))).
    2: { rewrite zlen_app in Hrecv. unfold zlen in *. simpl in Hrecv. lia. }
    set (b := x mod 128 + 128) in *.
    replace (pre ++ b :: encode_length fuel (x / 128) ++ suf)
      with ((pre ++ [b]) ++ encode_length fuel (x / 128) ++ suf) by (by rewrite <- app_assoc).
    replace (pre ++ b :: encode_length fuel (x / 128))
      with ((pre ++ [b]) ++ encode_length fuel (x / 128)) in * by (by rewrite <- app_assoc).
    assert (zlen (pre ++ [b]) = zlen pre + 1) as Hlen by (rewrite zlen_app; done).
    assert (i32 (mul * 128) = 128 ^ zlen pre) as ->.
    { subst mul. rewrite Z.mul_comm, <- Z.pow_succ_r by (unfold zlen; lia).
      replace (Z.succ (zlen pre - 1)) with (zlen pre) by lia. apply i32_small.
      assert (1 <= zlen pre <= 4) as Hz4 by (unfold zlen; lia).
      assert (zlen pre = 1 ∨ zlen pre = 2 ∨ zlen pre = 3 ∨ zlen pre = 4)
        as [-> | [-> | [-> | ->]]] by lia; cbn; lia. }
    pose proof (IH (pre ++ [b]) (x / 128) (128 ^ zlen pre) (len + x mod 128 * mul)) as IH'.
    rewrite Hlen in IH'. replace (zlen pre + 1 - 1) with (zlen pre) in IH' by lia.
    rewrite IH'; try done.
    + apply (f_equal Some). rewrite Hmul.
      assert (128 ^ zlen pre = 128 * 128 ^ (zlen pre - 1)) as ->.
      { rewrite <- Z.pow_succ_r by (unfold zlen; lia). f_equal. lia. }
      pose proof (Z.div_mod x 128 ltac:(lia)). nia.
    + split; [apply Z.div_pos; lia|]. apply Z.div_lt_upper_bound; lia.
    + rewrite length_app. simpl. lia.
    + rewrite length_app. simpl. lia.
Qed.

(** MQTT length round trip.  For every remaining length the standard allows
    (at most 268435455, four length bytes), the packet length computed from the
    fixed header byte, the encoded length and anything that follows is the size
    of the whole packet, as soon as the length bytes have been received. *)
Theorem mqtt_length_roundtrip hdr x suf :
  0 <= x <= 268435455 →
  zlen (hdr :: encode_length 4 x ++ suf) < 4294967296 →
  get_package_length (hdr :: encode_length 4 x ++ suf) (zlen (hdr :: encode_length 4 x ++ suf))
  = Some (zlen (hdr :: encode_length 4 x) + x).
Proof.
  intros Hx Hz. set (data := hdr :: _ ++ suf) in *. unfold get_package_length.
  assert (0 < zlen (encode_length 4 x)) as Hp.
  { pose proof (encode_length_pos 3 x). destruct (encode_length 4 x); [done|]. unfold zlen. simpl. lia. }
  assert (zlen data = 1 + zlen (encode_length 4 x) + zlen suf) as Hd.
  { subst data. unfold zlen. cbn -[encode_length]. rewrite length_app. lia. }
  pose proof (zlen_nonneg suf). rewrite u32_small by lia.
  unfold OSW_MQTT_MIN_LENGTH_SIZE. rewrite (proj2 (Z.ltb_ge _ _)) by lia.
  subst data. change (hdr :: encode_length 4 x ++ suf) with ([hdr] ++ encode_length 4 x ++ suf).
  change 0 with (zlen [hdr] - 1) at 2.
  rewrite (length_loop_encode 4 [hdr] x suf 1 0); [|change (128 ^ Z.of_nat 4) with 268435456; lia|done|simpl; lia|done|].
  - apply (f_equal Some). change (hdr :: encode_length 4 x) with ([hdr] ++ encode_length 4 x). lia.
  - rewrite zlen_app. change (zlen [hdr]) with 1.
    change (zlen ([hdr] ++ encode_length 4 x ++ suf)) with (zlen (hdr :: encode_length 4 x ++ suf)).
    lia.
Qed.

Lemma mqtt_length_roundtrip_witness :
  get_package_length (48 :: encode_length 4 321 ++ [7; 7]) 5 = Some (3 + 321).
Proof. exact (mqtt_length_roundtrip 48 321 [7; 7] ltac:(lia) ltac:(vm_compute; done)). Defined.

