(* ===== verification/Channel.v ===== *)
(** * The shared-memory channel: src/core/channel.cc, include/openswoole_channel.h

    A FIFO of length-prefixed byte strings in one flat buffer.  [head] and [tail]
    are byte offsets; a slice may run past [size] into the overflow space of
    [maxlen + 4] bytes the constructor adds, and the offset that reaches [size]
    goes back to 0 and flips its tag.  Memory accesses are checked: [None] is an
    access outside the buffer, a null dereference or a failed [assert]. *)

From S2P Require Import Prelude.

Definition OSW_CHAN_LOCK : Z := 2.
Definition OSW_CHAN_NOTIFY : Z := 4.
Definition OSW_CHAN_SHM : Z := 8.

Definition sizeof_int : Z := 4.

Record Channel := MkChannel {
  head : Z; tail : Z; size : Z; head_tag : Z; tail_tag : Z; num : Z;
  bytes_ : Z; flags : Z; maxlen : Z; mem : bytes; lock : bool }.

(** [Channel::make]: [block] is the memory the allocator returns after the
    structure, [None] when it fails; the lock exists when the flag asks for it. *)
Definition make (sz mxlen flgs : Z) (block : option bytes) : option (option Channel) :=
  if sz <? mxlen then None (* assert *) else
  match block with
  | None => Some None
  | Some m =>
    Some (Some (MkChannel 0 0 sz 0 0 0 0 flgs (i32 mxlen) m
                          (negb (Z.land flgs OSW_CHAN_LOCK =? 0))))
  end.

(** Size of the memory block [make] asks for, structure excluded. *)
Definition block_size (sz mxlen : Z) : Z := sz + mxlen + sizeof_int.

Definition empty (c : Channel) : bool := num c =? 0.

Definition full (c : Channel) : bool :=
  ((head c =? tail c) && negb (tail_tag c =? head_tag c))
  || (u64 (bytes_ c + sizeof_int * num c) =? size c).

(** [Channel::in]. *)
Definition in_ (c : Channel) (in_data : bytes) : option (Z * Channel) :=
  let data_length := zlen in_data in
  if maxlen c <? data_length then None (* assert *) else
  if full c then Some (OSW_ERR, c) else
  let msize := i32 (sizeof_int + data_length) in
  let write item tail' tail_tag' :=
    m ← store (mem c) item (le_bytes 4 data_length);
    m ← store m (item + sizeof_int) in_data;
    Some (OSW_OK, MkChannel (head c) tail' (size c) (head_tag c) tail_tag' (i32 (num c + 1))
                            (u64 (bytes_ c + data_length)) (flags c) (maxlen c) m (lock c)) in
  if tail c <? head c then
    if head c - tail c <? msize then Some (OSW_ERR, c)
    else write (tail c) (tail c + msize) (tail_tag c)
  else
    let tail' := tail c + msize in
    if tail' >=? size c then write (tail c) 0 (1 - tail_tag c)
    else write (tail c) tail' (tail_tag c).

(** The slice at [head]: its length and its data. *)
Definition item_at (c : Channel) (buffer_length : Z) : option (Z * bytes) :=
  l ← load (mem c) (head c) 4;
  let item_length := i32 (le_val l) in
  if buffer_length <? item_length then None (* assert *) else
  d ← load (mem c) (head c + sizeof_int) (u64 item_length);
  Some (item_length, d).

(** [Channel::out]: the return value, what is copied out, the channel. *)
Definition out (c : Channel) (buffer_length : Z) : option (Z * bytes * Channel) :=
  if empty c then Some (OSW_ERR, [], c) else
  item ← item_at c buffer_length;
  let '(item_length, d) := item in
  let head' := head c + (item_length + sizeof_int) in
  let '(head', head_tag') :=
    if head' >=? size c then (0, 1 - head_tag c) else (head', head_tag c) in
  Some (item_length, d,
        MkChannel head' (tail c) (size c) head_tag' (tail_tag c) (i32 (num c - 1))
                  (u64 (bytes_ c - item_length)) (flags c) (maxlen c) (mem c) (lock c)).

Definition peek (c : Channel) (buffer_length : Z) : option (Z * bytes) :=
  if empty c then Some (OSW_ERR, []) else
  if negb (lock c) then None else item_at c buffer_length.

(** The locked operations. *)
Definition push (c : Channel) (in_data : bytes) : option (Z * Channel) :=
  if Z.land (flags c) OSW_CHAN_LOCK =? 0 then None (* assert *) else
  if negb (lock c) then None else in_ c in_data.

Definition pop (c : Channel) (buffer_length : Z) : option (Z * bytes * Channel) :=
  if Z.land (flags c) OSW_CHAN_LOCK =? 0 then None (* assert *) else
  if negb (lock c) then None else out c buffer_length.

Definition count (c : Channel) : Z := num c.
Definition get_bytes (c : Channel) : Z := i32 (bytes_ c).

(** ** The layout invariant *)

(** [seg m lim a q b]: from offset [a] to offset [b] the memory holds the slices
    of [q], each starting before [lim]. *)
Fixpoint seg (m : bytes) (lim a : Z) (q : list bytes) (b : Z) : Prop :=
  match q with
  | [] => a = b
  | x :: q => a < lim ∧ load m a 4 = Some (le_bytes 4 (zlen x)) ∧
              load m (a + 4) (zlen x) = Some x ∧ seg m lim (a + 4 + zlen x) q b
  end.

(** Bytes a queue occupies, length prefixes included. *)
Fixpoint used (q : list bytes) : Z :=
  match q with [] => 0 | x :: q => 4 + zlen x + used q end.

Definition layout (c : Channel) (q : list bytes) : Prop :=
  (head_tag c = tail_tag c ∧ seg (mem c) (size c) (head c) q (tail c) ∧ tail c < size c) ∨
  (tail_tag c = 1 - head_tag c ∧ ∃ q1 q2 e, q = q1 ++ q2 ∧
     seg (mem c) (size c) (head c) q1 e ∧ size c <= e ∧
     seg (mem c) (size c) 0 q2 (tail c) ∧ tail c <= head c).

(** [inv c q]: [c] represents the queue [q]. *)
Definition inv (c : Channel) (q : list bytes) : Prop :=
  layout c q ∧ 0 <= head c < size c ∧ 0 <= tail c ∧
  0 < size c ∧ 0 <= maxlen c <= size c ∧ size c + maxlen c + 4 < 2 ^ 31 ∧
  zlen (mem c) = size c + maxlen c + 4 ∧
  num c = zlen q ∧ bytes_ c + 4 * zlen q = used q ∧ Forall (λ x, zlen x <= maxlen c) q.

Lemma used_nonneg q : 0 <= used q.
Proof. induction q; cbn [used]; zl. Qed.

Lemma used_app q1 q2 : used (q1 ++ q2) = used q1 + used q2.
Proof. induction q1 as [|x q1 IH]; cbn [used app]; lia. Qed.

Lemma used_num q : 4 * zlen q <= used q.
Proof. induction q as [|x q IH]; cbn [used]; zl. Qed.

Lemma seg_end m lim a q b : seg m lim a q b → b = a + used q.
Proof.
  revert a. induction q as [|x q IH]; intros a; cbn [seg used]; [lia|].
  intros (_ & _ & _ & H%IH). lia.
Qed.

Lemma seg_le m lim a q b : seg m lim a q b → a <= zlen m → b <= zlen m.
Proof.
  revert a. induction q as [|x q IH]; intros a; cbn [seg]; [lia|].
  intros (_ & _ & (_&_&Hz&_)%load_is_Some & Hs) _. by apply IH in Hs.
Qed.

(** A store outside the segment keeps it. *)
Lemma ring_seg_frame m m' lim a q b off bs :
  store m off bs = Some m' → b <= off ∨ off + zlen bs <= a → seg m lim a q b → seg m' lim a q b.
Proof.
  intros Hs. revert a. induction q as [|x q IH]; intros a Hd; cbn [seg]; [done|].
  intros (Hl & H1 & H2 & H3). pose proof (seg_end _ _ _ _ _ H3) as He.
  pose proof (used_nonneg q). pose proof (zlen_nonneg x). repeat split; [done| | |].
  - rewrite (load_store_other _ _ _ _ a 4 Hs); [done|lia].
  - rewrite (load_store_other _ _ _ _ (a + 4) _ Hs); [done|lia].
  - apply IH; [lia|done].
Qed.

Lemma seg_snoc m lim a q b x :
  seg m lim a q b → b < lim → load m b 4 = Some (le_bytes 4 (zlen x)) →
  load m (b + 4) (zlen x) = Some x → seg m lim a (q ++ [x]) (b + 4 + zlen x).
Proof.
  revert a. induction q as [|y q IH]; intros a; cbn [seg app]; [by intros ->|].
  intros (?&?&?&?) ???. repeat split; auto.
Qed.

(** Writing one slice: the two stores of [in_]. *)
Lemma write_slice m b x :
  0 <= b → b + 4 + zlen x <= zlen m →
  ∃ m1 m2, store m b (le_bytes 4 (zlen x)) = Some m1 ∧ store m1 (b + 4) x = Some m2 ∧
    zlen m2 = zlen m ∧
    load m2 b 4 = Some (le_bytes 4 (zlen x)) ∧ load m2 (b + 4) (zlen x) = Some x ∧
    ∀ lim a q e, e <= b ∨ b + 4 + zlen x <= a → seg m lim a q e → seg m2 lim a q e.
Proof.
  intros Hb Hm. pose proof (zlen_nonneg x).
  assert (zlen (le_bytes 4 (zlen x)) = 4) as H4 by (unfold zlen; by rewrite le_bytes_length).
  destruct (store m b (le_bytes 4 (zlen x))) as [m1|] eqn:E1;
    [|rewrite store_Some in E1 by lia; done].
  pose proof (store_length _ _ _ _ E1) as L1.
  destruct (store m1 (b + 4) x) as [m2|] eqn:E2; [|rewrite store_Some in E2 by lia; done].
  pose proof (store_length _ _ _ _ E2) as L2.
  exists m1, m2. repeat split; try done; [lia| | |].
  - rewrite (load_store_other _ _ _ _ b 4 E2) by lia.
    rewrite <- H4 at 1. by apply load_store_same in E1.
  - by apply load_store_same in E2.
  - intros lim a q e Hd Hs. eapply ring_seg_frame; [done|lia|]. eapply ring_seg_frame; [done|lia|done].
Qed.

Lemma item_length_read n : 0 <= n < 2 ^ 31 → i32 (le_val (le_bytes 4 n)) = n.
Proof.
  intros. rewrite le_val_bytes. change (256 ^ Z.of_nat 4) with 4294967296.
  rewrite Z.mod_small, i32_small by lia. done.
Qed.

Lemma inv_used c q : inv c q → 0 <= used q <= size c + maxlen c + 4.
Proof.
  intros (Hl & Hh & Ht & Hs & Hm & Hb & Hz & _). pose proof (used_nonneg q).
  destruct Hl as [(_ & Hseg & ?)|(_ & q1 & q2 & e & -> & H1 & He & H2 & ?)].
  - apply seg_end in Hseg. lia.
  - pose proof (seg_le _ _ _ _ _ H1). apply seg_end in H1, H2. rewrite used_app in *. lia.
Qed.

Lemma inv_bytes c q :
  inv c q → 0 <= bytes_ c ∧ 0 <= num c < 2 ^ 29 ∧ bytes_ c + 4 * num c = used q.
Proof.
  intros Hi. pose proof (inv_used c q Hi). destruct Hi as (_ & _ & _ & _ & _ & Hb & _ & -> & He & _).
  pose proof (used_num q). pose proof (zlen_nonneg q). lia.
Qed.

(** ** The operations *)

Lemma ring_make_inv sz mxlen flgs m :
  0 < sz → 0 <= mxlen <= sz → sz + mxlen + 4 < 2 ^ 31 → zlen m = block_size sz mxlen →
  ∃ c, make sz mxlen flgs (Some m) = Some (Some c) ∧ inv c [] ∧ size c = sz ∧ maxlen c = mxlen.
Proof.
  intros Hs Hm Hb Hz. unfold make. rewrite (proj2 (Z.ltb_ge _ _)) by lia.
  rewrite i32_small by lia. eexists. split; [done|]. unfold block_size, sizeof_int in Hz.
  split; [|done]. unfold inv, layout; simpl. repeat split; auto; lia.
Qed.

Lemma full_spec c q :
  inv c q → full c = true →
  (head c = tail c ∧ tail_tag c = 1 - head_tag c) ∨ used q = size c.
Proof.
  intros Hi Hf. pose proof (inv_bytes c q Hi) as (?&?&He). pose proof (inv_used c q Hi).
  destruct Hi as (Hl & ? & ? & ? & ? & ? & _). unfold full, sizeof_int in Hf.
  rewrite u64_small in Hf by lia.
  apply orb_true_iff in Hf as [[?%Z.eqb_eq Hn]%andb_true_iff|?%Z.eqb_eq]; [left|right; lia].
  apply negb_true_iff, Z.eqb_neq in Hn. split; [done|]. by destruct Hl as [(?&_)|(?&_)].
Qed.

Lemma not_full_unwrapped c q :
  inv c q → full c = false → head c <= tail c →
  head_tag c = tail_tag c ∧ seg (mem c) (size c) (head c) q (tail c) ∧ tail c < size c.
Proof.
  intros Hi Hf Hle. destruct Hi as ([?|(Htag & q1 & q2 & e & _ & _ & _ & _ & ?)] & _); [done|].
  exfalso. unfold full in Hf. apply orb_false_iff in Hf as [Hf _].
  rewrite (proj2 (Z.eqb_eq _ _)) in Hf by lia. simpl in Hf.
  apply negb_false_iff, Z.eqb_eq in Hf. lia.
Qed.

(** [in_]: the item is appended, or the channel is unchanged and the item does
    not fit. *)
Lemma in_spec c q x :
  inv c q → zlen x <= maxlen c →
  (∃ c', in_ c x = Some (OSW_OK, c') ∧ inv c' (q ++ [x]) ∧ maxlen c' = maxlen c ∧
         size c' = size c ∧ flags c' = flags c ∧ lock c' = lock c) ∨
  (in_ c x = Some (OSW_ERR, c) ∧ used q + 4 + zlen x > size c).
Proof.
  intros Hi Hx. pose proof (inv_used c q Hi) as Hu. pose proof (inv_bytes c q Hi) as (Hb0&Hn0&Hbn).
  pose proof (zlen_nonneg x) as Hx0. unfold in_. rewrite (proj2 (Z.ltb_ge _ _)) by lia.
  destruct (full c) eqn:Hf.
  { right. split; [done|]. apply full_spec with (q := q) in Hf as [[Hht Htag]|]; [|lia|done].
    destruct Hi as (Hl & _). destruct Hl as [(?&_)|(_ & q1 & q2 & e & -> & H1 & He & H2 & _)]; [lia|].
    apply seg_end in H1, H2. rewrite used_app. lia. }
  pose proof Hi as (Hl & Hh & Ht & Hs & Hm & Hbd & Hz & Hn & Hby & Hall).
  unfold sizeof_int. rewrite !(i32_small (4 + zlen x)) by lia.
  assert (∀ t' tt' m', layout (MkChannel (head c) t' (size c) (head_tag c) tt' (i32 (num c + 1))
      (u64 (bytes_ c + zlen x)) (flags c) (maxlen c) m' (lock c)) (q ++ [x]) →
    0 <= t' → zlen m' = zlen (mem c) →
    inv (MkChannel (head c) t' (size c) (head_tag c) tt' (i32 (num c + 1))
      (u64 (bytes_ c + zlen x)) (flags c) (maxlen c) m' (lock c)) (q ++ [x])) as Hinv.
  { intros t' tt' m' Hl' Ht' Hm'. pose proof (used_num q).
    unfold inv; cbn [head tail size maxlen num bytes_ mem]. rewrite i32_small, u64_small by lia.
    repeat split; auto; try lia; [zl|rewrite used_app; cbn [used]; zl|].
    apply Forall_app; auto. }
  destruct (Z.ltb_spec (tail c) (head c)) as [Hlt|Hge].
  - destruct Hl as [(_ & Hseg & _)|(Htag & q1 & q2 & e & -> & H1 & He & H2 & Hth)].
    { apply seg_end in Hseg. lia. }
    rewrite used_app in *. pose proof (seg_end _ _ _ _ _ H1). pose proof (seg_end _ _ _ _ _ H2).
    destruct (Z.ltb_spec (head c - tail c) (4 + zlen x)) as [Hsm|Hbig].
    { right. split; [done|]. lia. }
    left. destruct (write_slice (mem c) (tail c) x) as (m1&m2&->&E2&Lm&Hl1&Hl2&Hfr); [lia|lia|].
    cbn [mbind option_bind]. rewrite E2. cbn [mbind option_bind]. eexists. split; [done|].
    split; [|done]. apply Hinv; [|lia|done]. right; cbn. split; [done|].
    exists q1, (q2 ++ [x]), e. rewrite <- (assoc_L (++)). repeat split; [|done| |lia].
    + apply Hfr; [lia|done].
    + replace (tail c + (4 + zlen x)) with (tail c + 4 + zlen x) by lia.
      apply seg_snoc; [apply Hfr; [lia|done]|lia|done|done].
  - destruct (not_full_unwrapped c q Hi Hf Hge) as (Htag & Hseg & Hts).
    destruct (write_slice (mem c) (tail c) x) as (m1&m2&E1&E2&Lm&Hl1&Hl2&Hfr); [lia|lia|].
    assert (seg m2 (size c) (head c) (q ++ [x]) (tail c + (4 + zlen x))) as Hsg.
    { replace (tail c + (4 + zlen x)) with (tail c + 4 + zlen x) by lia.
      apply seg_snoc; [apply Hfr; [lia|done]|lia|done|done]. }
    left. rewrite E1. cbn [mbind option_bind]. rewrite E2. cbn [mbind option_bind].
    rewrite Z.geb_leb. destruct (Z.leb_spec (size c) (tail c + (4 + zlen x)));
      (eexists; split; [done|]; split; [|done]; apply Hinv; [|lia|done]).
    + right; cbn. split; [lia|]. exists (q ++ [x]), [], (tail c + (4 + zlen x)).
      rewrite app_nil_r. repeat split; [done|lia|lia].
    + left; cbn. auto.
Qed.

(** [out]: empty or the oldest item. *)
Lemma out_spec c q n :
  inv c q → maxlen c <= n →
  match q with
  | [] => out c n = Some (OSW_ERR, [], c)
  | x :: q' => ∃ c', out c n = Some (zlen x, x, c') ∧ inv c' q' ∧ maxlen c' = maxlen c ∧
                     size c' = size c ∧ flags c' = flags c ∧ lock c' = lock c
  end.
Proof.
  intros Hi Hn. pose proof (inv_used c q Hi) as Hu. pose proof (inv_bytes c q Hi) as (Hb0&Hn0&Hbn).
  destruct Hi as (Hl & Hh & Ht & Hs & Hm & Hbd & Hz & Hnum & Hby & Hall).
  unfold out, empty. destruct q as [|x q]; [by rewrite Hnum|].
  cbn [used] in *. rewrite zlen_cons in *. apply Forall_cons in Hall as [Hx Hall].
  pose proof (zlen_nonneg x) as Hx0. pose proof (zlen_nonneg q). pose proof (used_num q).
  rewrite (proj2 (Z.eqb_neq _ _)) by lia.
  assert (load (mem c) (head c) 4 = Some (le_bytes 4 (zlen x)) ∧
          load (mem c) (head c + 4) (zlen x) = Some x) as [Hl1 Hl2].
  { destruct Hl as [(_ & (_ & ? & ? & _) & _)|(_ & q1 & q2 & e & Hq & H1 & He & _)]; [done|].
    destruct q1 as [|y q1]; cbn [seg app] in *; [lia|]. destruct H1 as (_ & ? & ? & _).
    by injection Hq as -> ->. }
  unfold item_at, sizeof_int. rewrite Hl1. cbn [mbind option_bind].
  rewrite item_length_read by lia. rewrite (proj2 (Z.ltb_ge _ _)) by lia.
  rewrite u64_small, Hl2 by lia. cbn [mbind option_bind].
  rewrite (i32_small (num c - 1)), (u64_small (bytes_ c - zlen x)) by lia.
  rewrite Z.geb_leb. destruct Hl as [(Htag & (_&_&_&Hsg) & Hts)|(Htag&q1&q2&e&Hq&H1&He&H2&Hth)].
  - pose proof (seg_end _ _ _ _ _ Hsg). destruct (Z.leb_spec (size c) (head c + (zlen x + 4))); [lia|].
    eexists. split; [done|]. split; [|done]. unfold inv, layout; cbn.
    replace (head c + (zlen x + 4)) with (head c + 4 + zlen x) by lia.
    repeat split; auto; try lia.
  - destruct q1 as [|y q1]; cbn [seg app] in *; [lia|].
    injection Hq as <- ->. destruct H1 as (_ & _ & _ & Hsg). pose proof (seg_end _ _ _ _ _ Hsg).
    destruct (Z.leb_spec (size c) (head c + (zlen x + 4))) as [Hw|Hnw];
      (eexists; split; [done|]; split; [|done]); unfold inv, layout; cbn.
    + assert (q1 = []) as -> by (destruct q1; [done|]; destruct Hsg; lia).
      repeat split; auto; try lia. left. repeat split; [lia|done|lia].
    + repeat split; auto; try lia. right. split; [done|]. exists q1, q2, e.
      replace (head c + (zlen x + 4)) with (head c + 4 + zlen x) by lia.
      repeat split; auto; lia.
Qed.

(** ** Abstract specification: a FIFO bounded by a byte budget *)

Inductive op := In (x : bytes) | Out.
Inductive result := Accepted | Refused | Got (x : bytes) | Nothing.

(** An item may be refused only when it does not fit the budget. *)
Inductive fifo_step (budget : Z) : list bytes → op → result → list bytes → Prop :=
  | fifo_accept q x : fifo_step budget q (In x) Accepted (q ++ [x])
  | fifo_refuse q x : used q + 4 + zlen x > budget → fifo_step budget q (In x) Refused q
  | fifo_got q x : fifo_step budget (x :: q) Out (Got x) q
  | fifo_nothing : fifo_step budget [] Out Nothing [].

(** The locked operations of the channel, [pop] with a buffer of [n] bytes. *)
Definition step (n : Z) (c : Channel) (o : op) : option (result * Channel) :=
  match o with
  | In x => r ← push c x; Some (if r.1 =? OSW_OK then Accepted else Refused, r.2)
  | Out => r ← pop c n; let '(ret, d, c) := r in
           Some (if ret =? OSW_ERR then Nothing else Got d, c)
  end.

Definition op_fits (mxlen : Z) (o : op) : Prop :=
  match o with In x => zlen x <= mxlen | Out => True end.

(** A locked channel of the given limits that holds [q]. *)
Definition holds (sz mxlen : Z) (c : Channel) (q : list bytes) : Prop :=
  inv c q ∧ Z.land (flags c) OSW_CHAN_LOCK ≠ 0 ∧ lock c = true ∧ size c = sz ∧ maxlen c = mxlen.

Lemma ring_step_refines n sz mxlen c q o :
  mxlen <= n → holds sz mxlen c q → op_fits mxlen o →
  ∃ r c' q', step n c o = Some (r, c') ∧ holds sz mxlen c' q' ∧ fifo_step sz q o r q'.
Proof.
  intros Hn (Hi & Hfl & Hlk & <- & <-) Ho. destruct o as [x|]; cbn [step].
  - unfold push. rewrite (proj2 (Z.eqb_neq _ _)), Hlk by done. cbn [negb].
    destruct (in_spec c q x Hi Ho) as [(c1&->&Hi1&Em&Es&Ef&El)|(->&Hbig)]; cbn.
    + do 3 eexists. split; [done|]. split; [|constructor].
      unfold holds. by rewrite Ef, El, Es, Em.
    + do 3 eexists. split; [done|]. split; [by split_and!|by constructor].
  - unfold pop. rewrite (proj2 (Z.eqb_neq _ _)), Hlk by done. cbn [negb].
    pose proof (out_spec c q n Hi Hn) as Ho'. destruct q as [|x q].
    + rewrite Ho'. cbn. do 3 eexists. split; [done|]. split; [by split_and!|constructor].
    + destruct Ho' as (c1&->&Hi1&Em&Es&Ef&El). cbn [mbind option_bind].
      pose proof (zlen_nonneg x). rewrite (proj2 (Z.eqb_neq _ _)) by (unfold OSW_ERR; lia).
      do 3 eexists. split; [done|]. split; [|constructor].
      unfold holds. by rewrite Ef, El, Es, Em.
Qed.

(** C13: the channel refines a FIFO queue.  From [make], any sequence of locked
    pushes of items of at most [maxlen] bytes and pops with a large enough buffer
    runs without touching memory outside the block, and its results are those of
    the abstract queue: items come out whole, in order and once, [pop] reports an
    empty channel exactly when the queue is empty, and [push] refuses an item
    only when the queue with it would occupy more than [size] bytes. *)
Theorem channel_refines_fifo sz mxlen flgs m n os :
  0 < sz → 0 <= mxlen <= sz → sz + mxlen + 4 < 2 ^ 31 → zlen m = block_size sz mxlen →
  Z.land flgs OSW_CHAN_LOCK ≠ 0 → mxlen <= n → Forall (op_fits mxlen) os →
  ∃ c rs c' q', make sz mxlen flgs (Some m) = Some (Some c) ∧
    exec (step n) c os = Some (rs, c') ∧ runs (fifo_step sz) [] os rs q' ∧ count c' = zlen q'.
Proof.
  intros Hs Hm Hb Hz Hfl Hn Hos.
  destruct (ring_make_inv sz mxlen flgs m) as (c & Hmk & Hi & Es & Em); [done..|].
  assert (holds sz mxlen c []) as Hh.
  { unfold make in Hmk. destruct (sz <? mxlen); [done|]. injection Hmk as <-.
    repeat split; try done; [apply Hi..|]. cbn. by rewrite (proj2 (Z.eqb_neq _ _)). }
  destruct (exec_refines (step n) (fifo_step sz) (op_fits mxlen) (holds sz mxlen)
    (λ c q o, ring_step_refines n sz mxlen c q o Hn) os c [] Hh Hos) as (rs & c' & q' & Hr & Hi' & Hf).
  exists c, rs, c', q'. repeat split; [done..|]. by destruct Hi' as [(_&_&_&_&_&_&_&?&_) _].
Qed.

Lemma channel_refines_fifo_witness :
  ∃ c rs c' q', make 16 8 2 (Some (repeat 0 28)) = Some (Some c) ∧
    exec (step 8) c [In [1; 2; 3]; In [4]; In [5; 6; 7; 8; 9]; In [0]; Out; In [10]; Out; Out; Out; Out]
    = Some (rs, c') ∧
    runs (fifo_step 16) []
      [In [1; 2; 3]; In [4]; In [5; 6; 7; 8; 9]; In [0]; Out; In [10]; Out; Out; Out; Out] rs q' ∧
    count c' = zlen q'.
Proof.
  apply channel_refines_fifo; try done; try lia.
  repeat apply Forall_cons_2; try apply Forall_nil_2; vm_compute; done.
Defined.

(** No permanent refusal.  On an empty channel [in_] accepts every item of
    at most [maxlen] bytes, wherever [head] and [tail] ended up. *)
Theorem in_empty_accepts c x :
  inv c [] → zlen x <= maxlen c →
  ∃ c', in_ c x = Some (OSW_OK, c') ∧ inv c' [x].
Proof.
  intros Hi Hx. assert (full c = false) as Hf.
  { destruct (full c) eqn:Hf; [|done]. exfalso.
    apply full_spec with (q := []) in Hf as [[Hht Htag]|Hu]; [|destruct Hi as (_&?&_); cbn in *; lia|done].
    destruct Hi as ([(?&_)|(_&q1&q2&e&Hq&H1&He&_)]&?&_); [lia|].
    destruct q1; [|done]. cbn in H1. lia. }
  destruct (in_spec c [] x Hi Hx) as [(c' & -> & Hi' & _)|[He _]]; [by exists c'|].
  exfalso. unfold in_ in He. rewrite (proj2 (Z.ltb_ge _ _)), Hf in He by lia.
  pose proof Hi as (Hl & Hh & _). destruct Hl as [(_&Hsg&_)|(_&q1&q2&e&Hq&H1&?&_)].
  2: { destruct q1; [|done]. cbn in H1. lia. }
  cbn in Hsg. rewrite (proj2 (Z.ltb_ge _ _)) in He by lia.
  destruct (_ >=? _), (store _ _ _) as [m1|]; cbn in He; try done;
    destruct (store m1 _ _); done.
Qed.

Lemma in_empty_accepts_witness :
  ∃ c', in_ (MkChannel 7 7 16 1 1 0 0 2 8 (repeat 0 28) true) [1; 2; 3; 4; 5; 6; 7; 8]
        = Some (OSW_OK, c') ∧ inv c' [[1; 2; 3; 4; 5; 6; 7; 8]].
Proof.
  apply in_empty_accepts; [|vm_compute; done].
  unfold inv, layout; cbn. repeat split; try lia; done.
Defined.
