(* ===== verification/Hash.v ===== *)
(** * Hash functions: include/openswoole_hash.h, src/core/crc32.cc

    [char] is signed: a byte enters the arithmetic as [i8].  [unsigned] arithmetic
    wraps at 32 bits, [uint64_t] and [ulong_t] at 64. *)

From S2P Require Import Prelude.

(** ** DJBX33A, the default hash of the shared table *)

Definition djb_step (hash c : Z) : Z := u64 (u64 (u64 (Z.shiftl hash 5) + hash) + i8 c).

(** [hash = ((hash << 5) + hash) + *key++]. *)
Definition djb_next (hk : Z * bytes) : Z * bytes :=
  match snd hk with
  | c :: key => (djb_step (fst hk) c, key)
  | [] => hk
  end.

(** The loop unrolled eight times; what is left has fewer than eight bytes. *)
Fixpoint php_blocks (fuel : nat) (s : Z * bytes) : Z * bytes :=
  match fuel with
  | O => s
  | S fuel =>
    if (8 <=? length (snd s))%nat then
      php_blocks fuel
        (djb_next (djb_next (djb_next (djb_next (djb_next (djb_next (djb_next (djb_next s))))))))
    else s
  end.

(** The fall-through [switch] on the remaining length. *)
Definition php_switch (s : Z * bytes) : Z * bytes :=
  match length (snd s) with
  | 7%nat => djb_next (djb_next (djb_next (djb_next (djb_next (djb_next (djb_next s))))))
  | 6%nat => djb_next (djb_next (djb_next (djb_next (djb_next (djb_next s)))))
  | 5%nat => djb_next (djb_next (djb_next (djb_next (djb_next s))))
  | 4%nat => djb_next (djb_next (djb_next (djb_next s)))
  | 3%nat => djb_next (djb_next (djb_next s))
  | 2%nat => djb_next (djb_next s)
  | 1%nat => djb_next s
  | _ => s
  end.

Definition openswoole_hash_php (key : bytes) : Z :=
  fst (php_switch (php_blocks (length key) (5381, key))).

(** ** MurmurHash2 *)

Definition murmur_mul (x : Z) : Z := u32 (x * 1540483477 (* 0x5bd1e995 *)).

(** [k = key[0]; k |= key[1] << 8; ...] with sign-extended operands. *)
Definition austin_word (a b c d : Z) : Z :=
  Z.lor (Z.lor (Z.lor (u32 (i8 a)) (u32 (Z.shiftl (i8 b) 8))) (u32 (Z.shiftl (i8 c) 16)))
        (u32 (Z.shiftl (i8 d) 24)).

Fixpoint austin_blocks (h : Z) (key : bytes) : Z * bytes :=
  match key with
  | a :: b :: c :: d :: key =>
    let k := murmur_mul (austin_word a b c d) in
    let k := Z.lxor k (Z.shiftr k 24) in
    let k := murmur_mul k in
    austin_blocks (Z.lxor (murmur_mul h) k) key
  | _ => (h, key)
  end.

Definition austin_tail (h : Z) (key : bytes) : Z :=
  match key with
  | [a; b; c] => murmur_mul (Z.lxor (Z.lxor (Z.lxor h (u32 (Z.shiftl (i8 c) 16)))
                                             (u32 (Z.shiftl (i8 b) 8))) (u32 (i8 a)))
  | [a; b] => murmur_mul (Z.lxor (Z.lxor h (u32 (Z.shiftl (i8 b) 8))) (u32 (i8 a)))
  | [a] => murmur_mul (Z.lxor h (u32 (i8 a)))
  | _ => h
  end.

Definition openswoole_hash_austin (key : bytes) : Z :=
  let '(h, rest) := austin_blocks (u32 (zlen key)) key in
  let h := austin_tail h rest in
  let h := Z.lxor h (Z.shiftr h 13) in
  let h := murmur_mul h in
  Z.lxor h (Z.shiftr h 15).

(** ** Jenkins *)

(** [HASH_JEN_MIX(a, b, c)] with [a] and [b] of 32 and [c] of 64 bits. *)
Definition HASH_JEN_MIX (abc : Z * Z * Z) : Z * Z * Z :=
  let '(a, b, c) := abc in
  let a := u32 (a - b) in let a := u32 (a - c) in let a := u32 (Z.lxor a (Z.shiftr c 13)) in
  let b := u32 (b - c) in let b := u32 (b - a) in let b := Z.lxor b (u32 (Z.shiftl a 8)) in
  let c := u64 (c - a) in let c := u64 (c - b) in let c := Z.lxor c (Z.shiftr b 13) in
  let a := u32 (a - b) in let a := u32 (a - c) in let a := u32 (Z.lxor a (Z.shiftr c 12)) in
  let b := u32 (b - c) in let b := u32 (b - a) in let b := Z.lxor b (u32 (Z.shiftl a 16)) in
  let c := u64 (c - a) in let c := u64 (c - b) in let c := Z.lxor c (Z.shiftr b 5) in
  let a := u32 (a - b) in let a := u32 (a - c) in let a := u32 (Z.lxor a (Z.shiftr c 3)) in
  let b := u32 (b - c) in let b := u32 (b - a) in let b := Z.lxor b (u32 (Z.shiftl a 10)) in
  let c := u64 (c - a) in let c := u64 (c - b) in let c := Z.lxor c (Z.shiftr b 15) in
  (a, b, c).

(** [(unsigned) key[i] << s]. *)
Definition jen_byte (key : bytes) (i : nat) (s : Z) : Z :=
  u32 (Z.shiftl (u32 (i8 (nth i key 0))) s).

(** [key[i] + ((unsigned) key[i+1] << 8) + ...]: the first operand is promoted to
    [unsigned] by the addition. *)
Definition jen_word (key : bytes) (i : nat) : Z :=
  u32 (u32 (u32 (jen_byte key i 0 + jen_byte key (i + 1) 8) + jen_byte key (i + 2) 16)
       + jen_byte key (i + 3) 24).

Fixpoint jenkins_blocks (fuel : nat) (ijh : Z * Z * Z) (key : bytes) : Z * Z * Z * bytes :=
  match fuel with
  | O => (ijh, key)
  | S fuel =>
    if (12 <=? length key)%nat then
      let '(i, j, hashv) := ijh in
      jenkins_blocks fuel
        (HASH_JEN_MIX (u32 (i + jen_word key 0), u32 (j + jen_word key 4),
                       u64 (hashv + jen_word key 8))) (drop 12 key)
    else (ijh, key)
  end.

Definition openswoole_hash_jenkins (key : bytes) : Z :=
  let '(ijh, rest) :=
    jenkins_blocks (length key) (2654435769, 2654435769, 4276993775) key in
  let '(i, j, hashv) := ijh in
  let hashv := u64 (hashv + zlen key) in
  let k := length rest in
  let on n x f := if (n <=? k)%nat then f x else x in
  let hashv := on 11%nat hashv (λ h, u64 (h + jen_byte rest 10 24)) in
  let hashv := on 10%nat hashv (λ h, u64 (h + jen_byte rest 9 16)) in
  let hashv := on 9%nat hashv (λ h, u64 (h + jen_byte rest 8 8)) in
  let j := on 8%nat j (λ j, u32 (j + jen_byte rest 7 24)) in
  let j := on 7%nat j (λ j, u32 (j + jen_byte rest 6 16)) in
  let j := on 6%nat j (λ j, u32 (j + jen_byte rest 5 8)) in
  let j := on 5%nat j (λ j, u32 (j + i8 (nth 4 rest 0))) in
  let i := on 4%nat i (λ i, u32 (i + jen_byte rest 3 24)) in
  let i := on 3%nat i (λ i, u32 (i + jen_byte rest 2 16)) in
  let i := on 2%nat i (λ i, u32 (i + jen_byte rest 1 8)) in
  let i := on 1%nat i (λ i, u32 (i + i8 (nth 0 rest 0))) in
  snd (HASH_JEN_MIX (i, j, hashv)).

(** ** CRC-32 *)

Definition polynomial : Z := 3988292384 (* 0xEDB88320 *).

(** One iteration of the inner loop of [generate_table]. *)
Definition crc_shift (c : Z) : Z :=
  if Z.land c 1 =? 0 then Z.shiftr c 1 else Z.lxor polynomial (Z.shiftr c 1).

Definition generate_table : list Z :=
  (λ i, Nat.iter 8 crc_shift (Z.of_nat i)) <$> seq 0 256.

Definition crc32_table : list Z := Eval vm_compute in generate_table.

Fixpoint crc32_loop (crc : Z) (data : bytes) : Z :=
  match data with
  | [] => crc
  | b :: data =>
    crc32_loop
      (Z.lxor (Z.land (Z.shiftr crc 8) 16777215)
              (nth (Z.to_nat (Z.land (Z.lxor crc (u32 (i8 b))) 255)) crc32_table 0)) data
  end.

Definition openswoole_crc32 (data : bytes) : Z :=
  Z.lxor (crc32_loop (Z.lxor 0 4294967295) data) 4294967295.

(** ** Proofs *)

Lemma djb_step_range hash c : 0 <= djb_step hash c < 2 ^ 64.
Proof. by apply (wrap_range 64). Qed.

#[local] Opaque djb_step.

(** Reference: one step per byte. *)
Definition djb_ref (hash : Z) (key : bytes) : Z := fold_left djb_step key hash.

Lemma djb_next_ref s : djb_ref (fst (djb_next s)) (snd (djb_next s)) = djb_ref (fst s) (snd s).
Proof. destruct s as [h [|c k]]; reflexivity. Qed.

Lemma djb_next_length s : length (snd (djb_next s)) = pred (length (snd s)).
Proof. destruct s as [h [|c k]]; reflexivity. Qed.

Lemma php_blocks_spec fuel s :
  (length (snd s) <= fuel)%nat →
  djb_ref (fst (php_blocks fuel s)) (snd (php_blocks fuel s)) = djb_ref (fst s) (snd s) ∧
  (length (snd (php_blocks fuel s)) < 8)%nat.
Proof.
  revert s. induction fuel as [|fuel IH]; intros s Hs; cbn [php_blocks]; [split; [done|lia]|].
  destruct (Nat.leb_spec 8 (length (snd s))); [|done].
  destruct (IH (djb_next (djb_next (djb_next (djb_next (djb_next (djb_next (djb_next (djb_next s)))))))))
    as [-> ?]; [rewrite !djb_next_length; lia|].
  split; [by rewrite !djb_next_ref|done].
Qed.

Lemma php_switch_spec s :
  (length (snd s) < 8)%nat → fst (php_switch s) = djb_ref (fst s) (snd s).
Proof.
  destruct s as [h k]. cbn [fst snd]. intros Hk.
  do 8 (destruct k as [|? k]; [reflexivity|]). simpl in Hk. lia.
Qed.

Lemma hash_php_ref key : openswoole_hash_php key = djb_ref 5381 key.
Proof.
  unfold openswoole_hash_php. destruct (php_blocks_spec (length key) (5381, key)) as [He Hl]; [done|].
  by rewrite php_switch_spec, He.
Qed.

Lemma djb_ref_range key h : 0 <= h < 2 ^ 64 → 0 <= djb_ref h key < 2 ^ 64.
Proof.
  revert h. induction key as [|c key IH]; intros h Hh; [done|].
  apply IH, djb_step_range.
Qed.

(** The CRC register is shifted by a map that is linear over XOR. *)
Lemma crc_shift_eq c :
  crc_shift c = Z.lxor (if Z.odd c then polynomial else 0) (Z.shiftr c 1).
Proof.
  unfold crc_shift. assert (Z.land c 1 = Z.b2z (Z.odd c)) as ->.
  { change 1 with (Z.ones 1). rewrite Z.land_ones by lia. change (2 ^ 1) with 2.
    by rewrite Zmod_odd. }
  destruct (Z.odd c); simpl; [done|]. by destruct (Z.shiftr c 1).
Qed.

Lemma crc_shift_lxor a b : crc_shift (Z.lxor a b) = Z.lxor (crc_shift a) (crc_shift b).
Proof.
  rewrite !crc_shift_eq, Z.shiftr_lxor, <- !Z.bit0_odd, Z.lxor_spec.
  generalize (Z.shiftr a 1) (Z.shiftr b 1) polynomial. intros x y p.
  destruct (Z.testbit a 0), (Z.testbit b 0); simpl xorb; cbn iota; apply Z.bits_inj'; intros n Hn;
    rewrite !Z.lxor_spec, ?Z.bits_0; by destruct (Z.testbit x n), (Z.testbit y n), (Z.testbit p n).
Qed.

Lemma crc_iter_lxor n a b :
  Nat.iter n crc_shift (Z.lxor a b) = Z.lxor (Nat.iter n crc_shift a) (Nat.iter n crc_shift b).
Proof. induction n as [|n IH]; simpl; [done|]. by rewrite IH, crc_shift_lxor. Qed.

(** Shifting a register whose low [n] bits are clear only moves it. *)
Lemma crc_iter_high n x :
  Nat.iter n crc_shift (Z.shiftl x (Z.of_nat n)) = x.
Proof.
  revert x. induction n as [|n IH]; intros x; [apply Z.shiftl_0_r|].
  rewrite Nat.iter_succ_r, crc_shift_eq.
  replace (Z.of_nat (S n)) with (Z.of_nat n + 1) by lia.
  rewrite <- Z.bit0_odd, Z.shiftl_spec_low by lia. rewrite Z.lxor_0_l.
  rewrite Z.shiftr_shiftl_l by lia. replace (Z.of_nat n + 1 - 1) with (Z.of_nat n) by lia. apply IH.
Qed.

(** Reference CRC-32: the register is updated bit by bit. *)
Fixpoint crc32_bitwise (crc : Z) (data : bytes) : Z :=
  match data with
  | [] => crc
  | b :: data => crc32_bitwise (Nat.iter 8 crc_shift (Z.lxor crc b)) data
  end.

Lemma crc_table_lookup i :
  0 <= i < 256 → nth (Z.to_nat i) crc32_table 0 = Nat.iter 8 crc_shift i.
Proof.
  intros Hi. assert (crc32_table = generate_table) as -> by (vm_compute; done).
  unfold generate_table. rewrite nth_lookup, list_lookup_fmap, lookup_seq_lt by lia.
  cbn [fmap option_fmap option_map default from_option id]. by rewrite Nat.add_0_l, Z2Nat.id by lia.
Qed.

Lemma land_255 x : Z.land x 255 = x mod 256.
Proof. by apply (Z.land_ones x 8). Qed.

Lemma split_byte c : Z.lxor (Z.shiftl (Z.shiftr c 8) 8) (Z.land c 255) = c.
Proof.
  apply Z.bits_inj'. intros n Hn. rewrite Z.lxor_spec, Z.shiftl_spec, Z.land_spec by lia.
  change 255 with (Z.ones 8).
  destruct (Z.lt_ge_cases n 8).
  - rewrite Z.testbit_neg_r, Z.ones_spec_low, andb_true_r by lia. by destruct (Z.testbit c n).
  - rewrite Z.ones_spec_high, andb_false_r, xorb_false_r, Z.shiftr_spec by lia. f_equal. lia.
Qed.

(** One table lookup is eight single-bit steps. *)
Lemma crc_byte crc b :
  0 <= crc < 2 ^ 32 → is_byte b →
  Z.lxor (Z.land (Z.shiftr crc 8) 16777215)
         (nth (Z.to_nat (Z.land (Z.lxor crc (u32 (i8 b))) 255)) crc32_table 0)
  = Nat.iter 8 crc_shift (Z.lxor crc b).
Proof.
  intros Hc Hb. unfold is_byte in Hb.
  assert (Z.land (Z.lxor crc (u32 (i8 b))) 255 = Z.land (Z.lxor crc b) 255) as ->.
  { rewrite !land_255. apply Z.bits_inj'. intros n Hn. change 256 with (2 ^ 8).
    destruct (Z.lt_ge_cases n 8); [|by rewrite !Z.mod_pow2_bits_high by lia].
    rewrite !Z.mod_pow2_bits_low, !Z.lxor_spec by lia. f_equal.
    rewrite <- (Z.mod_pow2_bits_low _ 8 n), <- (Z.mod_pow2_bits_low b 8 n) by lia. f_equal.
    unfold u32, i8, wrap, swrap. change (2 ^ 32) with 4294967296. change (2 ^ (8 - 1)) with 128.
    change (2 ^ 8) with 256. zdiv. }
  rewrite crc_table_lookup by (rewrite land_255; apply Z.mod_pos_bound; lia).
  rewrite <- (split_byte (Z.lxor crc b)) at 2. rewrite crc_iter_lxor.
  rewrite (crc_iter_high 8). f_equal.
  rewrite Z.shiftr_lxor. change 16777215 with (Z.ones 24). rewrite Z.land_ones by lia.
  assert (Z.shiftr b 8 = 0) as ->.
  { rewrite Z.shiftr_div_pow2 by lia. apply Z.div_small. change (2 ^ 8) with 256. lia. }
  rewrite Z.lxor_0_r. apply Z.mod_small. rewrite Z.shiftr_div_pow2 by lia.
  change (2 ^ 8) with 256. change (2 ^ 24) with 16777216. change (2 ^ 32) with 4294967296 in Hc. zdiv.
Qed.

Lemma lxor_bound a b n : 0 < n → 0 <= a < 2 ^ n → 0 <= b < 2 ^ n → 0 <= Z.lxor a b < 2 ^ n.
Proof.
  intros Hn Ha Hb. assert (0 <= Z.lxor a b) by (apply Z.lxor_nonneg; lia). split; [done|].
  destruct (Z.eq_dec (Z.lxor a b) 0) as [->|]; [lia|]. apply Z.log2_lt_pow2; [lia|].
  eapply Z.le_lt_trans; [apply Z.log2_lxor; lia|].
  assert (∀ c, 0 <= c < 2 ^ n → Z.log2 c < n).
  { intros c Hc. destruct (Z.eq_dec c 0) as [->|]; [simpl; lia|]. apply Z.log2_lt_pow2; lia. }
  apply Z.max_lub_lt; auto.
Qed.

Lemma crc_shift_bound c : 0 <= c < 2 ^ 32 → 0 <= crc_shift c < 2 ^ 32.
Proof.
  intros Hc. rewrite crc_shift_eq. apply lxor_bound; [lia|destruct (Z.odd c); unfold polynomial; lia|].
  rewrite Z.shiftr_div_pow2 by lia. change (2 ^ 1) with 2. zdiv.
Qed.

Lemma crc_iter_bound n c : 0 <= c < 2 ^ 32 → 0 <= Nat.iter n crc_shift c < 2 ^ 32.
Proof. intros Hc. induction n as [|n IH]; [done|]. simpl. by apply crc_shift_bound. Qed.

Lemma crc32_loop_bitwise crc data :
  0 <= crc < 2 ^ 32 → is_bytes data → crc32_loop crc data = crc32_bitwise crc data.
Proof.
  intros Hc Hd. revert crc Hc. induction Hd as [|b data Hb Hd IH]; intros crc Hc; [done|].
  cbn [crc32_loop crc32_bitwise]. rewrite crc_byte by done. apply IH, crc_iter_bound.
  apply lxor_bound; [lia|done|]. unfold is_byte in Hb. lia.
Qed.

(** The table-driven CRC-32 is the bit-by-bit CRC with the reflected
    polynomial 0xEDB88320, for every byte string (bytes above 127 enter as
    negative [char]s and are handled correctly). *)
Theorem crc32_equals_bitwise data :
  is_bytes data →
  openswoole_crc32 data = Z.lxor (crc32_bitwise 4294967295 data) 4294967295.
Proof.
  intros Hd. unfold openswoole_crc32. rewrite crc32_loop_bitwise; [done| |done].
  change (Z.lxor 0 4294967295) with 4294967295. lia.
Qed.

Lemma crc32_equals_bitwise_witness :
  openswoole_crc32 (lit "123456789") = 3421780262 (* 0xCBF43926 *) ∧
  openswoole_crc32 [200; 255] = Z.lxor (crc32_bitwise 4294967295 [200; 255]) 4294967295.
Proof.
  split; [done|]. apply crc32_equals_bitwise. repeat constructor; unfold is_byte; lia.
Defined.

(** The unrolled DJBX33A loop with its fall-through [switch] computes one
    multiply-and-add step per byte, for keys of every length, and its value is a
    64-bit number. *)
Theorem hash_php_unrolled key :
  openswoole_hash_php key = fold_left djb_step key 5381 ∧
  0 <= openswoole_hash_php key < 2 ^ 64.
Proof. rewrite hash_php_ref. split; [done|]. by apply djb_ref_range. Qed.
