(* ===== verification/Table.v ===== *)
(** * The shared-memory hash table: src/memory/table.cc, include/openswoole_table.h

    The table is an array of root rows with chained conflict rows taken from a
    memory pool; the pool is any implementation of the [MemoryPool] interface.  A
    row pointer is [Root i] ([rows[i]]) or [Slot a] (the pool block at [a]).  The
    row store is the shared memory, zero-filled before its first use.  The per-row
    spin lock serialises the operations on a chain, so an operation is one step;
    [None] is a failed [assert], a null dereference or (in the loops over a chain)
    running out of the fuel that bounds the chain length. *)

From S2P Require Import Prelude MemoryPool FixedPool Hash.

Definition OSW_TABLE_KEY_SIZE : Z := 64.
Definition OSW_TABLE_FLAG_NEW_ROW : Z := 1.
Definition OSW_TABLE_FLAG_CONFLICT : Z := 2.

Definition ptr : Type := Z + Z.
Abbreviation Root := (inl : Z → ptr).
Abbreviation Slot := (inr : Z → ptr).

(** [struct TableRow]; [key] holds the [key_len] bytes of the key. *)
Record TableRow := MkRow { active : bool; key : bytes; next : option ptr; data : bytes }.

(** [struct TableIterator]. *)
Record TableIterator := MkIter {
  absolute_index : Z; collision_index : Z; current_ : TableRow }.

Definition osw_mem_equal (v1 v2 : bytes) : bool := bool_decide (v1 = v2).

(** [check_key_length]: the bytes of the key that count. *)
Definition check_key_length (k : bytes) : bytes :=
  if zlen k >=? OSW_TABLE_KEY_SIZE then take (Z.to_nat (OSW_TABLE_KEY_SIZE - 1)) k else k.

(** [Table::make]: the number of root rows, a power of two of at least 64. *)
Fixpoint rows_size_loop (fuel : nat) (i rows_size : Z) : Z :=
  match fuel with
  | O => i
  | S fuel => if u32 (Z.shiftl 1 i) <? rows_size then rows_size_loop fuel (i + 1) rows_size else i
  end.

Definition make_size (rows_size : Z) : Z :=
  if rows_size >=? 2147483648 then 2147483648
  else u32 (Z.shiftl 1 (rows_size_loop 32 6 rows_size)).

Section Table.
Context {P : Type} `{MemoryPool P}.

Record Table := MkTable {
  size : Z; mask : Z; item_size : Z; row_num : Z; hash_func : bytes → Z;
  rows : gmap ptr TableRow; pool : P; iterator : TableIterator }.

Definition zero_row (t : Table) : TableRow :=
  MkRow false [] None (replicate (Z.to_nat (item_size t)) 0).

(** The row behind a pointer. *)
Definition row_at (t : Table) (p : ptr) : TableRow := default (zero_row t) (rows t !! p).

Definition set_row (t : Table) (p : ptr) (r : TableRow) : Table :=
  MkTable (size t) (mask t) (item_size t) (row_num t) (hash_func t) (<[p := r]> (rows t))
          (pool t) (iterator t).

Definition set_row_num (t : Table) (n : Z) : Table :=
  MkTable (size t) (mask t) (item_size t) (u32 n) (hash_func t) (rows t) (pool t) (iterator t).

Definition set_pool (t : Table) (q : P) : Table :=
  MkTable (size t) (mask t) (item_size t) (row_num t) (hash_func t) (rows t) q (iterator t).

Definition set_iterator (t : Table) (i : TableIterator) : Table :=
  MkTable (size t) (mask t) (item_size t) (row_num t) (hash_func t) (rows t) (pool t) i.

(** [Table::make] and [Table::create]: the root rows are zeroed; the pool is the
    one built over the rest of the memory. *)
Definition create (rows_size item_size : Z) (hash_func : bytes → Z) (q : P) : Table :=
  let size := make_size rows_size in
  MkTable size (size - 1) item_size 0 hash_func ∅ q
    (MkIter 0 0 (MkRow false [] None (replicate (Z.to_nat item_size) 0))).

Definition hash (t : Table) (k : bytes) : option ptr :=
  let index := Z.land (hash_func t k) (mask t) in
  if index <? size t then Some (Root index) else None (* assert *).

(** [init_row]: everything but the lock and the data is reset. *)
Definition init_row (t : Table) (p : ptr) (k : bytes) : Table :=
  set_row_num (set_row t p (MkRow true k None (data (row_at t p)))) (row_num t + 1).

(** [row->clear()]: the data stays. *)
Definition clear (t : Table) (p : ptr) : Table :=
  set_row t p (MkRow false [] None (data (row_at t p))).

Definition fuel (t : Table) : nat := S (base.size (rows t)).

Fixpoint get_loop (n : nat) (t : Table) (row : ptr) (k : bytes) : option (option ptr) :=
  match n with
  | O => None
  | S n =>
    let r := row_at t row in
    if osw_mem_equal (key r) k then Some (if active r then Some row else None)
    else match next r with
         | None => Some None
         | Some row => get_loop n t row k
         end
  end.

(** [Table::get]: the row or null. *)
Definition get (t : Table) (k : bytes) : option (option ptr) :=
  let k := check_key_length k in
  row ← hash t k; get_loop (fuel t) t row k.

Definition exists_ (t : Table) (k : bytes) : option bool :=
  r ← get t k; Some (if r is Some _ then true else false).

(** The end of a chain in [set]: a new row from the pool behind [row], null when
    the pool is exhausted. *)
Definition append_row (t : Table) (row : ptr) (k : bytes) (flags : Z) :
    option (option ptr * Z * Table) :=
  aq ← mp_alloc (pool t) 0;
  let '(a, q) := aq in
  let t := set_pool t q in
  match a with
  | None => Some (None, flags, t)
  | Some a =>
    let t := init_row t (Slot a) k in
    let r := row_at t row in
    let t := set_row t row (MkRow (active r) (key r) (Some (Slot a)) (data r)) in
    Some (Some (Slot a), Z.lor flags OSW_TABLE_FLAG_NEW_ROW, t)
  end.

(** The loop of [set] over an active chain. *)
Fixpoint set_loop (n : nat) (t : Table) (row : ptr) (k : bytes) (flags : Z) :
    option (option ptr * Z * Table) :=
  match n with
  | O => None
  | S n =>
    let r := row_at t row in
    if osw_mem_equal (key r) k then Some (Some row, flags, t)
    else match next r with
         | None => append_row t row k flags
         | Some row => set_loop n t row k (Z.lor flags OSW_TABLE_FLAG_CONFLICT)
         end
  end.

(** [Table::set]: the row, the out flags and the table. *)
Definition set (t : Table) (k : bytes) : option (option ptr * Z * Table) :=
  let k := check_key_length k in
  row ← hash t k;
  if active (row_at t row) then set_loop (fuel t) t row k 0
  else Some (Some row, OSW_TABLE_FLAG_NEW_ROW, init_row t row k).

(** The search loop of [del]: [tmp] and [prev]. *)
Fixpoint del_loop (n : nat) (t : Table) (tmp prev : option ptr) (k : bytes) :
    option (option ptr * option ptr) :=
  match n with
  | O => None
  | S n =>
    match tmp with
    | None => Some (None, prev)
    | Some p =>
      if osw_mem_equal (key (row_at t p)) k then Some (tmp, prev)
      else del_loop n t (next (row_at t p)) tmp k
    end
  end.

(** [tmp->clear(); pool->free(tmp)]. *)
Definition release (t : Table) (tmp : ptr) : option Table :=
  let t := clear t tmp in
  match tmp with
  | inl _ => None
  | inr a => q ← mp_free (pool t) a; Some (set_pool t q)
  end.

Definition del (t : Table) (k : bytes) : option (bool * Table) :=
  let k := check_key_length k in
  row ← hash t k;
  if negb (active (row_at t row)) then Some (false, t) else
  match next (row_at t row) with
  | None =>
    if osw_mem_equal (key (row_at t row)) k
    then Some (true, set_row_num (clear t row) (row_num t - 1))
    else Some (false, t)
  | Some _ =>
    tp ← del_loop (fuel t) t (Some row) None k;
    match tp with
    | (None, _) => Some (false, t)
    | (Some tmp, prev) =>
      (* the root keeps its place: its successor moves into it *)
      tt ← (if decide (tmp = row) then
              match next (row_at t row) with
              | None => None
              | Some tmp =>
                let x := row_at t tmp in
                Some (tmp, set_row t row (MkRow (active (row_at t row)) (key x) (next x) (data x)))
              end
            else Some (tmp, t));
      let '(tmp, t) := tt in
      let t := match prev with
               | Some pv => let r := row_at t pv in
                 set_row t pv (MkRow (active r) (key r) (next (row_at t tmp)) (data r))
               | None => t
               end in
      t ← release t tmp;
      Some (true, set_row_num t (row_num t - 1))
    end
  end.

Definition count (t : Table) : Z := row_num t.

(** A client's update of the data of a row as a whole; the columns keep inside its [item_size] bytes. *)
Definition write (t : Table) (p : ptr) (d : bytes) : Table :=
  let r := row_at t p in set_row t p (MkRow (active r) (key r) (next r) d).

(** ** Iteration *)

Definition get_by_index (t : Table) (index : Z) : option ptr :=
  if active (row_at t (Root index)) then Some (Root index) else None.

Definition rewind (t : Table) : Table := set_iterator t (MkIter 0 0 (zero_row t)).

(** The inner loop of [forward]: the row at position [collision_index] of the
    chain, [Some None] past its end. *)
Fixpoint walk (n : nat) (t : Table) (tmp_row : option ptr) (i ci : Z) : option (option ptr) :=
  match n with
  | O => None
  | S n =>
    match tmp_row with
    | None => Some None
    | Some p => if i =? ci then Some (Some p) else walk n t (next (row_at t p)) (i + 1) ci
    end
  end.

Fixpoint forward_loop (n : nat) (t : Table) (ai ci : Z) : option Table :=
  match n with
  | O => None
  | S n =>
    if ai <? size t then
      match get_by_index t ai with
      | None => forward_loop n t (ai + 1) ci
      | Some row =>
        match next (row_at t row) with
        | None => Some (set_iterator t (MkIter (ai + 1) ci (row_at t row)))
        | Some _ =>
          w ← walk (fuel t) t (Some row) 0 ci;
          match w with
          | None => forward_loop n t (ai + 1) 0
          | Some p => Some (set_iterator t (MkIter ai (ci + 1) (row_at t p)))
          end
        end
      end
    else Some (set_iterator t (MkIter ai ci
           (MkRow false [] None (data (current_ (iterator t))))))
  end.

Definition forward (t : Table) : option Table :=
  forward_loop (S (Z.to_nat (size t))) t (absolute_index (iterator t))
               (collision_index (iterator t)).
End Table.
Arguments Table : clear implicits.

(** ** Representation *)

Definition entry : Type := ptr * bytes * bytes.
Definition eptr (e : entry) : ptr := e.1.1.
Definition ekey (e : entry) : bytes := e.1.2.
Definition edata (e : entry) : bytes := e.2.
Definition is_slot (p : ptr) : Prop := match p with inl _ => False | inr _ => True end.

(** [seg m p l q]: the rows of [l] are linked from [p] to [q]. *)
Fixpoint seg (m : gmap ptr TableRow) (p : option ptr) (l : list entry) (q : option ptr) : Prop :=
  match l with
  | [] => p = q
  | (a, k, d) :: l => p = Some a ∧ ∃ nx, m !! a = Some (MkRow true k nx d) ∧ seg m nx l q
  end.

(** The chain of root [i]; an empty bucket has an inactive root. *)
Definition bucket (m : gmap ptr TableRow) (i : nat) (l : list entry) : Prop :=
  match l with
  | [] => match m !! Root (Z.of_nat i) with
          | Some r => active r = false ∧ next r = None
          | None => True
          end
  | _ => seg m (Some (Root (Z.of_nat i))) l None ∧ Forall is_slot (eptr <$> tl l)
  end.

Lemma seg_app m p l1 l2 q : seg m p (l1 ++ l2) q ↔ ∃ r, seg m p l1 r ∧ seg m r l2 q.
Proof.
  revert p. induction l1 as [|[[a k] d] l1 IH]; intros p; cbn [seg app].
  - split; [by exists p|by intros (r & -> & ?)].
  - split.
    + intros (-> & nx & Ha & (r & H1 & H2)%IH). eauto 8.
    + intros (r & (-> & nx & Ha & H1) & H2). split; [done|]. exists nx. rewrite IH. eauto.
Qed.

Lemma seg_frame m m' p l q :
  (∀ a, a ∈ eptr <$> l → m' !! a = m !! a) → seg m p l q → seg m' p l q.
Proof.
  revert p. induction l as [|[[a k] d] l IH]; intros p Hf; cbn [seg]; [done|].
  intros (-> & nx & Ha & Hs). split; [done|]. exists nx. rewrite Hf by (simpl; set_solver).
  split; [done|]. apply IH; [|done]. intros b Hb. apply Hf. simpl. set_solver.
Qed.

Lemma seg_insert_other m p l q b r : b ∉ eptr <$> l → seg m p l q → seg (<[b := r]> m) p l q.
Proof.
  intros Hb. apply seg_frame. intros a Ha. rewrite lookup_insert_ne; [done|]. by intros ->.
Qed.

Lemma seg_dom m p l q a : seg m p l q → a ∈ eptr <$> l → ∃ r, m !! a = Some r.
Proof.
  revert p. induction l as [|[[b k] d] l IH]; intros p; cbn [seg]; [set_solver|].
  intros (_ & nx & Hb & Hs) [->|Ha]%elem_of_cons; eauto.
Qed.

Lemma seg_length m p l q :
  seg m p l q → NoDup (eptr <$> l) → (length l <= base.size m)%nat.
Proof.
  intros Hs Hn. rewrite <- (length_fmap eptr), <- (size_dom (D := gset ptr)).
  rewrite <- (size_list_to_set (C := gset ptr)) by done. apply subseteq_size.
  intros a Ha%elem_of_list_to_set. apply elem_of_dom. by eapply seg_dom.
Qed.

Lemma bucket_length m i l : bucket m i l → NoDup (eptr <$> l) → (length l <= base.size m)%nat.
Proof. destruct l; [simpl; lia|]. intros [Hs _]. by eapply seg_length. Qed.

Lemma bucket_frame m m' i l :
  m' !! Root (Z.of_nat i) = m !! Root (Z.of_nat i) →
  (∀ a, a ∈ eptr <$> l → m' !! a = m !! a) → bucket m i l → bucket m' i l.
Proof.
  intros Hr Hf. destruct l; cbn [bucket]; [by rewrite Hr|].
  intros [Hs ?]. split; [|done]. by eapply seg_frame.
Qed.

(** A key is in the list once, or not at all. *)
Lemma key_split k (l : list entry) :
  k ∉ ekey <$> l ∨ ∃ l1 a d l2, l = l1 ++ (a, k, d) :: l2 ∧ k ∉ ekey <$> l1.
Proof.
  induction l as [|[[a k'] d] l IH]; [left; set_solver|].
  destruct (decide (k' = k)) as [->|Hne].
  { right. exists [], a, d, l. split; [done|set_solver]. }
  destruct IH as [Hn|(l1&a1&d1&l2&->&Hn)].
  - left. simpl. rewrite not_elem_of_cons. split; [unfold ekey; simpl; congruence|done].
  - right. exists ((a, k', d) :: l1), a1, d1, l2. split; [done|].
    simpl. rewrite not_elem_of_cons. split; [unfold ekey; simpl; congruence|done].
Qed.

Lemma elem_of_concat {A} (x : A) (L : list (list A)) :
  x ∈ concat L ↔ ∃ i l, L !! i = Some l ∧ x ∈ l.
Proof.
  rewrite list_elem_of_In, in_concat. split.
  - intros (l & [i Hi]%list_elem_of_In%list_elem_of_lookup & Hx%list_elem_of_In). eauto.
  - intros (i & l & Hi%list_elem_of_lookup_2 & Hx). exists l. by rewrite <- !list_elem_of_In.
Qed.

Lemma concat_insert {A} (L : list (list A)) i l :
  L !! i = Some l → ∃ l1 l2, concat L = l1 ++ l ++ l2 ∧
    ∀ l', concat (<[i := l']> L) = l1 ++ l' ++ l2.
Proof.
  intros Hl. apply list_elem_of_split_length in Hl as (L1 & L2 & -> & ->).
  exists (concat L1), (concat L2). split; [by rewrite concat_app|].
  intros l'. rewrite insert_app_r_alt, Nat.sub_diag by lia. by rewrite concat_app.
Qed.

Section Proofs.
Context {P : Type} `{MemoryPoolLaws P}.
Implicit Types t : Table P.

Definition index (t : Table P) (k : bytes) : Z := Z.land (hash_func t k) (mask t).

Record tinv (t : Table P) (L : list (list entry)) : Prop := {
  tinv_size : size t = zlen L;
  tinv_index : ∀ k, 0 <= index t k < size t;
  tinv_bucket : ∀ i l, L !! i = Some l → bucket (rows t) i l;
  tinv_hash : ∀ i l e, L !! i = Some l → e ∈ l → index t (ekey e) = Z.of_nat i;
  tinv_keys : NoDup (ekey <$> concat L);
  tinv_ptrs : NoDup (eptr <$> concat L);
  tinv_live : ∀ a, Slot a ∈ eptr <$> concat L ↔ a ∈ mp_live (pool t);
  tinv_pool : mp_inv (pool t);
  tinv_num : row_num t = u32 (zlen (concat L)) }.

Lemma row_at_Some t p r : rows t !! p = Some r → row_at t p = r.
Proof. unfold row_at. by intros ->. Qed.

Lemma mem_equal_true k : osw_mem_equal k k = true.
Proof. by apply bool_decide_eq_true. Qed.
Lemma mem_equal_false k k' : k ≠ k' → osw_mem_equal k k' = false.
Proof. intros. by apply bool_decide_eq_false. Qed.

Lemma get_loop_spec n t p l k :
  seg (rows t) (Some p) l None → (length l <= n)%nat →
  (k ∉ ekey <$> l → get_loop n t p k = Some None) ∧
  (∀ l1 a d l2, l = l1 ++ (a, k, d) :: l2 → k ∉ ekey <$> l1 → get_loop n t p k = Some (Some a)).
Proof.
  revert p l. induction n as [|n IH]; intros p l Hs Hn.
  { destruct l; [done|simpl in Hn; lia]. }
  destruct l as [|[[b k'] d'] l]; [done|]. destruct Hs as ([= ->] & nx & Hb & Hs).
  cbn [get_loop]. rewrite (row_at_Some _ _ _ Hb). cbn [key active next]. simpl in Hn. split.
  - intros Hk. simpl in Hk. apply not_elem_of_cons in Hk as [Hne Hk].
    rewrite mem_equal_false by (unfold ekey in Hne; simpl in Hne; congruence).
    destruct nx as [b'|]; [|done]. by apply (IH b' l); [done|lia|].
  - intros l1 a d l2 Hl Hk. destruct l1 as [|e1 l1]; simpl in Hl.
    + injection Hl as -> -> -> ->. by rewrite mem_equal_true.
    + injection Hl as <- ->. simpl in Hk. apply not_elem_of_cons in Hk as [Hne Hk].
      rewrite mem_equal_false by (unfold ekey in Hne; simpl in Hne; congruence).
      destruct nx as [b'|]; [by eapply IH; [done|lia|done|done]|].
      destruct l1 as [|[[? ?] ?] ?]; cbn in Hs; by destruct Hs.
Qed.

Lemma fuel_enough t L i l :
  tinv t L → L !! i = Some l → (length l < fuel t)%nat.
Proof.
  intros Hi Hl. unfold fuel. apply Nat.lt_succ_r. eapply bucket_length.
  - by eapply tinv_bucket.
  - pose proof (tinv_ptrs _ _ Hi) as Hn. apply list_elem_of_split_length in Hl as (L1&L2&->&_).
    rewrite concat_app in Hn. simpl in Hn. rewrite !fmap_app in Hn.
    apply NoDup_app in Hn as (_&_&Hn). by apply NoDup_app in Hn as (?&_).
Qed.

(** The bucket a key belongs to. *)
Lemma hash_bucket t L k :
  tinv t L → ∃ i l, hash t k = Some (Root (Z.of_nat i)) ∧ L !! i = Some l ∧
    index t k = Z.of_nat i ∧ bucket (rows t) i l ∧ (length l < fuel t)%nat ∧
    ∀ e, e ∈ concat L → ekey e = k → e ∈ l.
Proof.
  intros Hi. pose proof (tinv_index _ _ Hi k) as Hx. pose proof (tinv_size _ _ Hi) as Hs.
  unfold zlen in Hs. set (i := Z.to_nat (index t k)).
  destruct (L !! i) as [l|] eqn:Hl; [|apply lookup_ge_None in Hl; lia].
  exists i, l. repeat split; [| done | lia | by eapply tinv_bucket | by eapply fuel_enough |].
  - unfold hash. fold (index t k). rewrite (proj2 (Z.ltb_lt _ _)) by lia. do 2 f_equal. lia.
  - intros e (j & l' & Hl' & He)%elem_of_concat <-.
    pose proof (tinv_hash _ _ Hi _ _ _ Hl' He). assert (j = i) as -> by lia. by simplify_eq.
Qed.

Lemma seg_row m p l q a k d :
  seg m p l q → (a, k, d) ∈ l → ∃ nx, m !! a = Some (MkRow true k nx d).
Proof.
  revert p. induction l as [|[[b k'] d'] l IH]; intros p; cbn [seg]; [set_solver|].
  intros (_ & nx & Hb & Hs) [[= -> -> ->]|Ha]%elem_of_cons; eauto.
Qed.

Lemma bucket_row m i l a k d :
  bucket m i l → (a, k, d) ∈ l → ∃ nx, m !! a = Some (MkRow true k nx d).
Proof. destruct l; [set_solver|]. intros [Hs _] Ha. by eapply seg_row. Qed.

Lemma entry_row t L a k d :
  tinv t L → (a, k, d) ∈ concat L → ∃ nx, rows t !! a = Some (MkRow true k nx d).
Proof.
  intros Hi (i & l & Hl & He)%elem_of_concat. eapply bucket_row; [|done].
  by eapply tinv_bucket.
Qed.

(** [get] finds the row of a present key and nothing for an absent one. *)
Lemma get_spec t L k0 :
  tinv t L → let k := check_key_length k0 in
  (∃ a d, (a, k, d) ∈ concat L ∧ get t k0 = Some (Some a)) ∨
  (k ∉ ekey <$> concat L ∧ get t k0 = Some None).
Proof.
  intros Hi k. destruct (hash_bucket t L k Hi) as (i & l & Hh & Hl & Hx & Hb & Hf & Hc).
  unfold get. fold k. rewrite Hh. cbn [mbind option_bind].
  assert (∀ e, e ∈ l → e ∈ concat L) as Hin by (intros e He; apply elem_of_concat; eauto).
  destruct l as [|e0 l0].
  { right. split.
    - intros (e & -> & He)%list_elem_of_fmap. apply Hc in He; [|done]. set_solver.
    - unfold bucket in Hb. unfold fuel. cbn [get_loop]. unfold row_at.
      destruct (rows t !! _) as [r|]; cbn [default from_option id].
      + destruct Hb as [-> ->]. by destruct (osw_mem_equal _ _).
      + cbn. by destruct (osw_mem_equal _ _). }
  destruct Hb as [Hs _]. destruct (get_loop_spec (fuel t) t _ _ k Hs) as [Hno Hyes]; [lia|].
  destruct (key_split k (e0 :: l0)) as [Hk|(l1&a&d&l2&El&Hk)].
  - right. split; [|by apply Hno].
    intros (e & Ek & He)%list_elem_of_fmap. apply Hc in He; [|done].
    apply Hk. rewrite Ek. by apply list_elem_of_fmap_2.
  - left. exists a, d. split; [|by eapply Hyes]. apply Hin. rewrite El. set_solver.
Qed.

(** Replacing the chain of one bucket. *)
Lemma tinv_update t t' L i l l' l1 l2 :
  tinv t L → L !! i = Some l → concat L = l1 ++ l ++ l2 →
  concat (<[i := l']> L) = l1 ++ l' ++ l2 →
  size t' = size t → mask t' = mask t → hash_func t' = hash_func t →
  bucket (rows t') i l' →
  (∀ a, a ≠ Root (Z.of_nat i) → a ∉ eptr <$> l → a ∉ eptr <$> l' → rows t' !! a = rows t !! a) →
  (∀ e, e ∈ l' → index t (ekey e) = Z.of_nat i) →
  NoDup (ekey <$> l1 ++ l' ++ l2) → NoDup (eptr <$> l1 ++ l' ++ l2) →
  (∀ a, Slot a ∈ eptr <$> l1 ++ l' ++ l2 ↔ a ∈ mp_live (pool t')) → mp_inv (pool t') →
  row_num t' = u32 (zlen (l1 ++ l' ++ l2)) → tinv t' (<[i := l']> L).
Proof.
  intros Hi Hl Hc Hc' Hs Hm Hh Hb Hfr Hx Hk Hp Hlv Hpi Hn.
  assert (∀ k, index t' k = index t k) as Hidx by (intros; unfold index; by rewrite Hm, Hh).
  split; rewrite ?Hc'; try done.
  - rewrite Hs, (tinv_size _ _ Hi). unfold zlen. by rewrite length_insert.
  - intros k. rewrite Hs, Hidx. by apply (tinv_index t L).
  - intros j lj. rewrite list_lookup_insert. case_decide as Hd; [intros [= <-]; by destruct Hd as [-> ?]|].
    intros Hlj. assert (j ≠ i) as Hne.
    { intros ->. apply Hd. split; [done|]. by eapply lookup_lt_Some. }
    pose proof (tinv_bucket _ _ Hi _ _ Hlj) as Hbj. pose proof (tinv_bucket _ _ Hi _ _ Hl) as Hbi.
    pose proof (tinv_ptrs _ _ Hi) as Hnd.
    assert (∀ a, a ∈ eptr <$> lj → a ∈ eptr <$> l1 ++ l2) as Hjin.
    { intros a (e & -> & He)%list_elem_of_fmap. apply list_elem_of_fmap_2.
      assert (e ∈ concat L) as He' by (apply elem_of_concat; eauto).
      rewrite Hc in He'. rewrite !elem_of_app in *. destruct He' as [?|[Hel|?]]; auto.
      pose proof (tinv_hash _ _ Hi _ _ _ Hlj He). pose proof (tinv_hash _ _ Hi _ _ _ Hl Hel). lia. }
    assert (∀ m n q, NoDup (eptr <$> l1 ++ q ++ l2) → bucket m n q →
      ∀ a, a ∈ eptr <$> l1 ++ l2 → a ∉ eptr <$> q) as Hdis.
    { intros m n q Hnq _ a Ha Hq. rewrite !fmap_app in *.
      apply NoDup_app in Hnq as (_ & H1 & (_ & H2 & _)%NoDup_app).
      apply elem_of_app in Ha as [Ha|Ha]; [by eapply H1; [done|set_solver]|by eapply H2]. }
    assert (∀ m q, bucket m i q → Root (Z.of_nat j) ∉ eptr <$> q) as Hroot.
    { intros m q Hq. destruct q as [|[[b ?] ?] q]; [set_solver|].
      destruct Hq as [([= <-] & _) Hsl]. simpl in Hsl. rewrite fmap_cons, not_elem_of_cons.
      split; [unfold eptr; simpl; intros [= ?]; lia|].
      intros Hr. by eapply Forall_forall in Hr; [|exact Hsl]. }
    rewrite Hc in Hnd.
    eapply bucket_frame; [| |exact Hbj].
    + apply Hfr; [intros [= ?]; lia|by eapply Hroot|by eapply Hroot].
    + intros a Ha. destruct (decide (a = Root (Z.of_nat i))) as [->|Hna].
      * exfalso. destruct lj as [|[[b ?] ?] lj]; [set_solver|]. destruct Hbj as [([= <-] & _) Hsl].
        rewrite fmap_cons, elem_of_cons in Ha. destruct Ha as [[= ?]|Ha]; [lia|].
        by eapply Forall_forall in Ha; [|exact Hsl].
      * apply Hfr; [done|eapply (Hdis _ _ l); eauto|eapply (Hdis _ _ l'); eauto].
  - intros j lj e. rewrite Hidx, list_lookup_insert. case_decide as Hd.
    + intros [= <-] He. rewrite (Hx _ He). by destruct Hd as [-> _].
    + intros Hlj He. by eapply tinv_hash.
Qed.

Lemma set_loop_spec n t p l k f :
  seg (rows t) (Some p) l None → (length l <= n)%nat → l ≠ [] →
  (k ∉ ekey <$> l → ∃ l0 z kz dz f', l = l0 ++ [(z, kz, dz)] ∧
     set_loop n t p k f = append_row t z k f') ∧
  (∀ l1 a d l2, l = l1 ++ (a, k, d) :: l2 → k ∉ ekey <$> l1 →
     ∃ f', set_loop n t p k f = Some (Some a, f', t)).
Proof.
  revert p l f. induction n as [|n IH]; intros p l f Hs Hn Hne.
  { destruct l; [done|simpl in Hn; lia]. }
  destruct l as [|[[b k'] d'] l]; [done|]. destruct Hs as ([= ->] & nx & Hb & Hs).
  cbn [set_loop]. rewrite (row_at_Some _ _ _ Hb). cbn [key active next]. simpl in Hn. split.
  - intros Hk. simpl in Hk. apply not_elem_of_cons in Hk as [Hkne Hk].
    rewrite mem_equal_false by (unfold ekey in Hkne; simpl in Hkne; congruence).
    destruct l as [|e l].
    { simpl in Hs. subst nx. by exists [], b, k', d', f. }
    destruct nx as [b'|]; [|destruct e as [[? ?] ?]; by destruct Hs].
    destruct (IH b' (e :: l) (Z.lor f OSW_TABLE_FLAG_CONFLICT)) as [Hno _]; [done|lia|done|].
    destruct (Hno Hk) as (l0&z&kz&dz&f'&El&Hset). rewrite El.
    by exists ((b, k', d') :: l0), z, kz, dz, f'.
  - intros l1 a d l2 Hl Hk. destruct l1 as [|e1 l1]; simpl in Hl.
    + injection Hl as -> -> -> ->. rewrite mem_equal_true. eauto.
    + injection Hl as <- ->. simpl in Hk. apply not_elem_of_cons in Hk as [Hkne Hk].
      rewrite mem_equal_false by (unfold ekey in Hkne; simpl in Hkne; congruence).
      destruct nx as [b'|]; [|destruct l1 as [|[[? ?] ?] ?]; cbn in Hs; by destruct Hs].
      eapply IH; [done|lia|by destruct l1|done|done].
Qed.

Lemma u32_succ n : u32 (u32 n + 1) = u32 (n + 1).
Proof. unfold u32, wrap. by rewrite Zplus_mod_idemp_l. Qed.
Lemma u32_pred n : u32 (u32 n - 1) = u32 (n - 1).
Proof. unfold u32, wrap. by rewrite Zminus_mod_idemp_l. Qed.

(** A new row behind the last row of a chain. *)
Lemma append_seg m p l0 z kz dz a k d r :
  seg m p (l0 ++ [(z, kz, dz)]) None → z ∉ eptr <$> l0 → a ≠ z → a ∉ eptr <$> l0 →
  r = MkRow true k None d →
  seg (<[z := MkRow true kz (Some a) dz]> (<[a := r]> m)) p (l0 ++ [(z, kz, dz)] ++ [(a, k, d)]) None.
Proof.
  intros (q & Hq & -> & nx & Hz & Hn)%seg_app Hz0 Haz Ha0 ->.
  apply seg_app. exists (Some z). split; [by do 2 (apply seg_insert_other; [done|])|].
  cbn. split; [done|]. exists (Some a). rewrite lookup_insert_eq. split; [done|]. split; [done|].
  exists None. rewrite lookup_insert_ne, lookup_insert_eq by done. done.
Qed.

Lemma NoDup_bucket t L i l :
  tinv t L → L !! i = Some l → NoDup (eptr <$> l) ∧ NoDup (ekey <$> l).
Proof.
  intros Hi Hl. destruct (concat_insert L i l Hl) as (l1 & l2 & Hc & _).
  pose proof (tinv_ptrs _ _ Hi) as H1. pose proof (tinv_keys _ _ Hi) as H2. rewrite Hc in *.
  rewrite !fmap_app in *. apply NoDup_app in H1 as (_&_&(?&_)%NoDup_app).
  by apply NoDup_app in H2 as (_&_&(?&_)%NoDup_app).
Qed.

(** Adding a fresh entry at the end of a bucket keeps the global conditions. *)
Lemma fresh_perm (l1 l l2 : list entry) e :
  l1 ++ (l ++ [e]) ++ l2 ≡ₚ e :: l1 ++ l ++ l2.
Proof.
  rewrite <- (assoc_L (++) l), (assoc_L (++) l1 l). simpl. rewrite <- Permutation_middle.
  by rewrite <- (assoc_L (++)).
Qed.

(** [set]: the row of the key (unchanged table), a new row for an absent key, or
    null with an unchanged table when the pool has no block left. *)
Lemma set_spec t L k0 :
  tinv t L → let k := check_key_length k0 in
  (∃ a d f, (a, k, d) ∈ concat L ∧ set t k0 = Some (Some a, f, t)) ∨
  (k ∉ ekey <$> concat L ∧
    ((∃ f q, set t k0 = Some (None, f, t) ∧ mp_alloc (pool t) 0 = Some (None, q)) ∨
     ∃ a d f t' L', set t k0 = Some (Some a, f, t') ∧ tinv t' L' ∧
       concat L' ≡ₚ (a, k, d) :: concat L)).
Proof.
  intros Hi k. destruct (hash_bucket t L k Hi) as (i & l & Hh & Hl & Hx & Hb & Hf & Hc).
  unfold set. fold k. rewrite Hh. cbn [mbind option_bind].
  destruct (concat_insert L i l Hl) as (l1 & l2 & Hcl & Hcl').
  assert (k ∉ ekey <$> l → k ∉ ekey <$> concat L) as Hfresh.
  { intros Hk (e & Ek & He)%list_elem_of_fmap. apply Hk. rewrite Ek.
    apply list_elem_of_fmap_2. by apply Hc. }
  assert (∀ e', ekey e' = k → k ∉ ekey <$> concat L → NoDup (ekey <$> l1 ++ (l ++ [e']) ++ l2)) as Hkeys.
  { intros e' <- Hk. rewrite fresh_perm, <- Hcl. simpl. constructor; [done|]. apply (tinv_keys _ _ Hi). }
  assert (∀ e', eptr e' ∉ eptr <$> concat L → NoDup (eptr <$> l1 ++ (l ++ [e']) ++ l2)) as Hptrs.
  { intros e' Hp. rewrite fresh_perm, <- Hcl. simpl. constructor; [done|]. apply (tinv_ptrs _ _ Hi). }
  assert (∀ e', zlen (l1 ++ (l ++ [e']) ++ l2) = zlen (concat L) + 1) as Hzl.
  { intros e'. rewrite Hcl. zl. }
  destruct l as [|e0 l0].
  - right. assert (k ∉ ekey <$> concat L) as Hk by (apply Hfresh; set_solver). split; [done|]. right.
    assert (active (row_at t (Root (Z.of_nat i))) = false) as ->.
    { unfold row_at. unfold bucket in Hb. destruct (rows t !! _); [by destruct Hb|done]. }
    set (d := data (row_at t (Root (Z.of_nat i)))).
    exists (Root (Z.of_nat i)), d, OSW_TABLE_FLAG_NEW_ROW. do 2 eexists. split; [done|].
    split; [|rewrite Hcl', (fresh_perm l1 [] l2); simpl; by rewrite Hcl].
    apply (tinv_update t _ L i [] ([] ++ [(Root (Z.of_nat i), k, d)]) l1 l2); try done.
    + cbn. rewrite lookup_insert_eq. eauto 10.
    + intros a Ha _ _. cbn. by rewrite lookup_insert_ne.
    + intros e [->|?]%elem_of_cons; [done|set_solver].
    + by apply Hkeys.
    + apply Hptrs. intros (e & Ee & (j & lj & Hlj & He)%elem_of_concat)%list_elem_of_fmap.
      destruct (decide (j = i)) as [->|Hne]; [simplify_eq; set_solver|].
      pose proof (tinv_bucket _ _ Hi _ _ Hlj) as Hbj. destruct lj as [|[[b ?] ?] lj]; [set_solver|].
      destruct Hbj as [([= <-] & _) Hsl]. apply elem_of_cons in He as [->|He].
      * injection Ee as Ee. lia.
      * apply (list_elem_of_fmap_2 eptr) in He. rewrite <- Ee in He.
        by eapply Forall_forall in He; [|exact Hsl].
    + intros a. rewrite fresh_perm. simpl. rewrite elem_of_cons, <- (tinv_live _ _ Hi), Hcl.
      split; [intros [?|?]; [done|done]|auto].
    + apply (tinv_pool _ _ Hi).
    + cbn [row_num init_row set_row set_row_num set_pool]. rewrite (tinv_num _ _ Hi), Hzl. apply u32_succ.
  - destruct Hb as [Hs Hsl]. destruct e0 as [[b kb] db]. pose proof Hs as ([= <-] & nx & Hrow & _).
    rewrite (row_at_Some _ _ _ Hrow). cbn [active].
    remember (@cons entry (Root (Z.of_nat i), kb, db) l0) as l eqn:Hld.
    destruct (set_loop_spec (fuel t) t _ l k 0 Hs) as [Hno Hyes]; [lia|by rewrite Hld|].
    destruct (key_split k l) as [Hk|(m1&a&d&m2&El&Hk)].
    2: { left. destruct (Hyes _ _ _ _ El Hk) as [f Hset]. exists a, d, f. split; [|done].
         apply elem_of_concat. exists i, l. split; [done|]. rewrite El. set_solver. }
    right. pose proof (Hfresh Hk) as HkL. split; [done|].
    destruct (Hno Hk) as (m0&z&kz&dz&f&El&->).
    destruct (NoDup_bucket _ _ _ _ Hi Hl) as [Hnp _].
    unfold append_row. destruct (mp_alloc_total (pool t) 0 (tinv_pool _ _ Hi)) as ([a|]&q&Ha);
      rewrite Ha; cbn [mbind option_bind].
    2: { left. exists f, q. apply mp_alloc_null in Ha as ->; [|apply (tinv_pool _ _ Hi)].
         split; [by destruct t|done]. }
    right. destruct (mp_alloc_fresh _ _ _ _ (tinv_pool _ _ Hi) Ha) as (Hq & Hna & Hlv).
    assert (Slot a ∉ eptr <$> concat L) as Hfa by by rewrite (tinv_live _ _ Hi).
    assert (Slot a ∉ eptr <$> l) as Hfl.
    { intros Hin. apply Hfa. rewrite Hcl, !fmap_app. set_solver. }
    rewrite El, fmap_app in Hfl, Hnp. apply not_elem_of_app in Hfl as [Hfl Hfz].
    apply NoDup_app in Hnp as (_ & Hnz & _).
    assert (z ∉ eptr <$> m0) as Hz0 by (intros Hz; eapply Hnz; [exact Hz|simpl; set_solver]).
    assert (Slot a ≠ z) as Haz by (simpl in Hfz; set_solver).
    set (d := data (row_at (set_pool t q) (Slot a))).
    assert (row_at (init_row (set_pool t q) (Slot a) k) z = MkRow true kz None dz) as Hrz.
    { rewrite El in Hs. apply seg_app in Hs as (r & _ & -> & nz & Hz & ->).
      unfold row_at. cbn. by rewrite lookup_insert_ne, Hz. }
    rewrite Hrz. cbn [active key data].
    exists (Slot a), d, (Z.lor f OSW_TABLE_FLAG_NEW_ROW). do 2 eexists. split; [done|].
    split; [|rewrite Hcl', fresh_perm; by rewrite Hcl].
    apply (tinv_update t _ L i l (l ++ [(Slot a, k, d)]) l1 l2); try done.
    + cbn [bucket rows set_row init_row set_row_num set_pool]. 
      assert (∀ m i' q, l ≠ [] → seg m (Some (Root (Z.of_nat i'))) q None →
        Forall is_slot (eptr <$> tl q) → bucket m i' q) as Hbk by (intros ? ? [|? ?]; done).
      apply Hbk; [by rewrite Hld|..].
      * rewrite El in Hs. rewrite El, <- (assoc_L (++)). by apply append_seg.
      * rewrite Hld in *. cbn [tl app]. simpl in Hsl. rewrite fmap_app, Forall_app. split; [done|by repeat constructor].
    + intros x _ Hx1 Hx2. cbn. rewrite !lookup_insert_ne; [done|..].
      * intros <-. apply Hx2. rewrite fmap_app. set_solver.
      * intros <-. apply Hx1. rewrite El, fmap_app. set_solver.
    + intros e [He|He]%elem_of_app; [by eapply tinv_hash|]. by apply list_elem_of_singleton in He as ->.
    + by apply Hkeys.
    + by apply Hptrs.
    + intros x. rewrite fresh_perm, <- Hcl. simpl. rewrite elem_of_cons, (tinv_live _ _ Hi), Hlv.
      rewrite elem_of_union, elem_of_singleton. cbn. split; intros [Hxa|?]; auto; left; congruence.
    + cbn [row_num init_row set_row set_row_num set_pool]. rewrite (tinv_num _ _ Hi), Hzl. apply u32_succ.
Qed.

(** Writing the data of a row. *)
Lemma write_spec t L a k d d' :
  tinv t L → (a, k, d) ∈ concat L →
  ∃ L' rest, tinv (write t a d') L' ∧ concat L ≡ₚ (a, k, d) :: rest ∧
    concat L' ≡ₚ (a, k, d') :: rest.
Proof.
  intros Hi (i & l & Hl & He)%elem_of_concat.
  destruct (concat_insert L i l Hl) as (l1 & l2 & Hcl & Hcl').
  destruct (NoDup_bucket _ _ _ _ Hi Hl) as [Hnp _].
  pose proof (tinv_bucket _ _ Hi _ _ Hl) as Hb.
  apply list_elem_of_split in He as (m1 & m2 & ->).
  set (l' := m1 ++ (a, k, d') :: m2). exists (<[i := l']> L), (l1 ++ m1 ++ m2 ++ l2).
  assert (eptr <$> l' = eptr <$> m1 ++ (a, k, d) :: m2) as Ep by (subst l'; by rewrite !fmap_app).
  assert (ekey <$> l' = ekey <$> m1 ++ (a, k, d) :: m2) as Ek by (subst l'; by rewrite !fmap_app).
  split; [|split].
  2: { rewrite Hcl. rewrite <- Permutation_middle. simpl. by rewrite <- Permutation_middle, <- !(assoc_L (++)). }
  2: { rewrite Hcl'. subst l'. rewrite <- Permutation_middle. simpl.
       by rewrite <- Permutation_middle, <- !(assoc_L (++)). }
  pose proof (tinv_keys _ _ Hi) as Hkeys. pose proof (tinv_ptrs _ _ Hi) as Hptrs.
  rewrite Hcl, !fmap_app in Hkeys. rewrite Hcl, !fmap_app in Hptrs. rewrite fmap_app in Hnp.
  destruct (bucket_row _ _ _ a k d Hb) as [nx Hrow]; [set_solver|].
  assert (rows (write t a d') = <[a := MkRow true k nx d']> (rows t)) as Hrows.
  { unfold write. by rewrite (row_at_Some _ _ _ Hrow). }
  assert (∀ p, seg (rows t) p (m1 ++ (a, k, d) :: m2) None →
    seg (<[a := MkRow true k nx d']> (rows t)) p l' None) as Hseg.
  { intros p (q & Hs1 & -> & nx' & Ha & Hs2)%seg_app. rewrite Hrow in Ha. injection Ha as <-.
    apply NoDup_app in Hnp as (_ & Hn1 & [Hn2 _]%NoDup_cons).
    subst l'. apply seg_app. exists (Some a). split.
    - apply seg_insert_other; [|done]. intros Hin. by eapply Hn1; [exact Hin|left].
    - cbn. split; [done|]. exists nx. rewrite lookup_insert_eq. split; [done|].
      by apply seg_insert_other. }
  apply (tinv_update t _ L i (m1 ++ (a, k, d) :: m2) l' l1 l2); try done.
  - rewrite Hrows. subst l'. destruct m1 as [|e m1]; destruct Hb as [Hs Hsl];
      (split; [by apply Hseg|]); simpl in *; [done|]. by rewrite fmap_app in *.
  - intros x _ Hx _. rewrite Hrows, lookup_insert_ne; [done|]. intros <-. apply Hx.
    rewrite fmap_app. set_solver.
  - intros e He. subst l'. apply elem_of_app in He as [He|[->|He]%elem_of_cons].
    + eapply tinv_hash; [done..|]. set_solver.
    + apply (tinv_hash _ _ Hi _ _ (a, k, d) Hl). set_solver.
    + eapply tinv_hash; [done..|]. set_solver.
  - rewrite !fmap_app, Ek, fmap_app. done.
  - rewrite !fmap_app, Ep, fmap_app. done.
  - intros x. rewrite <- (tinv_live _ _ Hi), Hcl, !fmap_app, Ep, fmap_app. done.
  - apply (tinv_pool _ _ Hi).
  - change (row_num (write t a d')) with (row_num t). rewrite (tinv_num _ _ Hi), Hcl.
    subst l'. f_equal. zl.
Qed.

Lemma del_loop_spec n t p l k prev :
  seg (rows t) p l None → (length l < n)%nat →
  (k ∉ ekey <$> l → ∃ prev', del_loop n t p prev k = Some (None, prev')) ∧
  (∀ l1 a d l2, l = l1 ++ (a, k, d) :: l2 → k ∉ ekey <$> l1 →
     del_loop n t p prev k
     = Some (Some a, match last l1 with Some e => Some (eptr e) | None => prev end)).
Proof.
  revert p l prev. induction n as [|n IH]; intros p l prev Hs Hn; [lia|].
  destruct l as [|[[b k'] d'] l].
  { simpl in Hs. subst p. split; [by eexists|]. by intros []. }
  destruct Hs as (-> & nx & Hb & Hs).
  cbn [del_loop]. rewrite (row_at_Some _ _ _ Hb). cbn [key next]. simpl in Hn. split.
  - intros Hk. simpl in Hk. apply not_elem_of_cons in Hk as [Hkne Hk].
    rewrite mem_equal_false by (unfold ekey in Hkne; simpl in Hkne; congruence).
    apply (IH nx l (Some b) Hs); [lia|done].
  - intros l1 a d l2 Hl Hk. destruct l1 as [|e1 l1]; simpl in Hl.
    + injection Hl as -> -> -> ->. by rewrite mem_equal_true.
    + injection Hl as <- ->. simpl in Hk. apply not_elem_of_cons in Hk as [Hkne Hk].
      rewrite mem_equal_false by (unfold ekey in Hkne; simpl in Hkne; congruence).
      destruct (IH nx _ (Some b) Hs) as [_ Hyes]; [lia|]. rewrite (Hyes l1 a d l2) by done.
      rewrite last_cons. by destruct (last l1).
Qed.

Definition kv (e : entry) : bytes * bytes := (ekey e, edata e).

Lemma ekey_kv (l : list entry) : ekey <$> l = (kv <$> l).*1.
Proof. by rewrite <- list_fmap_compose. Qed.

(** Removing one row [x] from a bucket keeps the global conditions. *)
Lemma tinv_remove t t' L i l l' x k d :
  tinv t L → L !! i = Some l →
  size t' = size t → mask t' = mask t → hash_func t' = hash_func t →
  bucket (rows t') i l' →
  (∀ a, a ≠ Root (Z.of_nat i) → a ∉ eptr <$> l → rows t' !! a = rows t !! a) →
  eptr <$> l ≡ₚ x :: (eptr <$> l') → kv <$> l ≡ₚ (k, d) :: (kv <$> l') →
  (∀ a, a ∈ mp_live (pool t') ↔ a ∈ mp_live (pool t) ∧ Slot a ≠ x) → mp_inv (pool t') →
  row_num t' = u32 (row_num t - 1) →
  tinv t' (<[i := l']> L) ∧ kv <$> concat L ≡ₚ (k, d) :: (kv <$> concat (<[i := l']> L)).
Proof.
  intros Hi Hl Hs Hm Hh Hb Hfr Hpp Hkp Hlv Hpi Hn.
  destruct (concat_insert L i l Hl) as (l1 & l2 & Hcl & Hcl').
  assert (kv <$> concat L ≡ₚ (k, d) :: (kv <$> l1 ++ l' ++ l2)) as Hkv.
  { rewrite Hcl, !fmap_app, Hkp. by rewrite Permutation_middle. }
  assert (eptr <$> concat L ≡ₚ x :: (eptr <$> l1 ++ l' ++ l2)) as Hpt.
  { rewrite Hcl, !fmap_app, Hpp. by rewrite Permutation_middle. }
  split; [|by rewrite Hcl'].
  apply (tinv_update t t' L i l l' l1 l2); try done; [intros a Ha Hna _; by apply Hfr|..].
  - intros e He. assert (ekey e ∈ ekey <$> l) as (e' & Ee & He')%list_elem_of_fmap.
    { rewrite ekey_kv, Hkp. simpl. right. rewrite <- ekey_kv. by apply list_elem_of_fmap_2. }
    rewrite Ee. by eapply tinv_hash.
  - pose proof (tinv_keys _ _ Hi) as Hnk. rewrite ekey_kv, Hkv in Hnk. simpl in Hnk.
    apply NoDup_cons in Hnk as [_ ?]. by rewrite ekey_kv.
  - pose proof (tinv_ptrs _ _ Hi) as Hnp. rewrite Hpt in Hnp. by apply NoDup_cons in Hnp as [_ ?].
  - intros a. rewrite Hlv, <- (tinv_live _ _ Hi), Hpt, elem_of_cons.
    pose proof (tinv_ptrs _ _ Hi) as Hnp. rewrite Hpt in Hnp. apply NoDup_cons in Hnp as [Hx _].
    split; [intros Ha; split; [by right|by intros <-]|naive_solver].
  - rewrite Hn, (tinv_num _ _ Hi), u32_pred.
    f_equal. assert (zlen (concat L) = 1 + zlen (l1 ++ l' ++ l2)); [|lia].
    apply Permutation_length in Hkv. simpl in Hkv. rewrite !length_fmap in Hkv. unfold zlen. lia.
Qed.

Lemma seg_head m p e l q : seg m p (e :: l) q → p = Some (eptr e).
Proof. destruct e as [[a k] d]. by intros [-> _]. Qed.

Lemma seg_next m p a k d l :
  seg m p ((a, k, d) :: l) None → ∃ nx, m !! a = Some (MkRow true k nx d) ∧ seg m nx l None.
Proof. intros (_ & nx & ? & ?). eauto. Qed.

Lemma release_spec t a :
  mp_inv (pool t) → a ∈ mp_live (pool t) →
  ∃ q, release t (Slot a) = Some (set_pool (clear t (Slot a)) q) ∧ mp_inv q ∧
    ∀ b, b ∈ mp_live q ↔ b ∈ mp_live (pool t) ∧ Slot b ≠ Slot a.
Proof.
  intros Hp Ha. destruct (mp_free_live _ _ Hp Ha) as (q & Hf & Hq & Hl).
  exists q. unfold release. cbn [clear set_row pool]. rewrite Hf. cbn [mbind option_bind].
  split; [done|]. split; [done|]. intros b. rewrite Hl, elem_of_difference, elem_of_singleton.
  split; (intros [? Hne]; split; [done|]; congruence).
Qed.

(** The three shapes of a deletion, at the level of one chain. *)
Lemma unlink_seg m p m0 b kb db a k d m2 r :
  NoDup (eptr <$> m0 ++ (b, kb, db) :: (a, k, d) :: m2) →
  seg m p (m0 ++ (b, kb, db) :: (a, k, d) :: m2) None →
  ∃ nx, m !! a = Some (MkRow true k nx d) ∧
    seg (<[a := r]> (<[b := MkRow true kb nx db]> m)) p (m0 ++ (b, kb, db) :: m2) None.
Proof.
  intros Hn (q & Hq & -> & nb & Hb & -> & nx & Ha & Hs)%seg_app. exists nx. split; [done|].
  rewrite fmap_app in Hn. simpl in Hn. apply NoDup_app in Hn as (_ & Hn0 & Hn).
  apply NoDup_cons in Hn as [Hnb [Hna _]%NoDup_cons]. unfold eptr in *; simpl in *.
  apply not_elem_of_cons in Hnb as [Hba Hb2].
  apply seg_app. exists (Some b). split.
  - apply seg_insert_other; [|apply seg_insert_other; [|done]].
    + intros Hin. eapply Hn0; [exact Hin|]. right. left.
    + intros Hin. eapply Hn0; [exact Hin|]. left.
  - cbn. split; [done|]. exists nx. rewrite lookup_insert_ne, lookup_insert_eq by done.
    split; [done|]. apply seg_insert_other; [done|]. by apply seg_insert_other.
Qed.

Lemma root_seg m p k d b kb db m2 r :
  NoDup (eptr <$> (p, k, d) :: (b, kb, db) :: m2) →
  seg m (Some p) ((p, k, d) :: (b, kb, db) :: m2) None →
  ∃ nx, m !! b = Some (MkRow true kb nx db) ∧
    seg (<[b := r]> (<[p := MkRow true kb nx db]> m)) (Some p) ((p, kb, db) :: m2) None.
Proof.
  intros Hn (_ & np & Hp & -> & nx & Hb & Hs). exists nx. split; [done|].
  simpl in Hn. apply NoDup_cons in Hn as [Hnp [Hnb _]%NoDup_cons]. unfold eptr in *; simpl in *.
  apply not_elem_of_cons in Hnp as [Hpb Hp2].
  cbn. split; [done|]. exists nx. rewrite lookup_insert_ne, lookup_insert_eq by done.
  split; [done|]. apply seg_insert_other; [done|]. by apply seg_insert_other.
Qed.

Lemma row_at_insert t p r : row_at (set_row t p r) p = r.
Proof. unfold row_at, set_row. cbn. by rewrite lookup_insert_eq. Qed.

Lemma row_at_insert_ne t p r a : a ≠ p → row_at (set_row t p r) a = row_at t a.
Proof. intros Hne. unfold row_at, set_row, zero_row. cbn. by rewrite lookup_insert_ne. Qed.

Lemma slot_live t L i l a :
  tinv t L → L !! i = Some l → Slot a ∈ eptr <$> l → a ∈ mp_live (pool t).
Proof.
  intros Hi Hl (e & Ee & He)%list_elem_of_fmap. apply (tinv_live _ _ Hi). rewrite Ee.
  apply list_elem_of_fmap_2, elem_of_concat. eauto.
Qed.

(** Deleting the root of a longer chain: the second row moves into the root. *)
Lemma del_root t L i k d b kb db m2 :
  tinv t L → L !! i = Some ((Root (Z.of_nat i), k, d) :: (Slot b, kb, db) :: m2) →
  let root := Root (Z.of_nat i) in let x := row_at t (Slot b) in
  let t1 := set_row t root (MkRow true (key x) (next x) (data x)) in
  ∃ t2 L', release t1 (Slot b) = Some t2 ∧
    tinv (set_row_num t2 (row_num t2 - 1)) L' ∧ kv <$> concat L ≡ₚ (k, d) :: (kv <$> concat L').
Proof.
  intros Hi Hl root x t1. destruct (NoDup_bucket _ _ _ _ Hi Hl) as [Hnp _].
  pose proof (tinv_bucket _ _ Hi _ _ Hl) as [Hs Hsl].
  destruct (release_spec t1 b) as (q & Hr & Hq & Hlv); [apply (tinv_pool _ _ Hi)|..].
  { apply (slot_live t L i _ b Hi Hl). simpl. right. left. }
  destruct (root_seg _ _ _ _ _ _ _ _ (MkRow false [] None (data (row_at t1 (Slot b)))) Hnp Hs) as (nx & Hb & Hs').
  assert (x = MkRow true kb nx db) as Hx by by apply row_at_Some.
  assert (rows t1 = <[root := MkRow true kb nx db]> (rows t)) as Hr1
    by (subst t1; by rewrite Hx).
  do 2 eexists. split; [exact Hr|].
  apply (tinv_remove t _ L i _ ((root, kb, db) :: m2) (Slot b) k d Hi Hl); try done.
  - split; [|simpl in Hsl; by apply Forall_cons in Hsl as [_ ?]].
    cbn [rows set_row_num set_pool clear set_row]. rewrite Hr1. exact Hs'.
  - intros a Ha Hna. cbn [rows set_row_num set_pool clear set_row].
    rewrite Hr1, !lookup_insert_ne; [done|..].
    + by intros <-.
    + intros <-. apply Hna. simpl. set_solver.
  - simpl. apply perm_swap.
Qed.

(** Deleting a row behind [b]. *)
Lemma del_middle t L i m0 b kb db a k d m2 :
  tinv t L → L !! i = Some (m0 ++ (b, kb, db) :: (Slot a, k, d) :: m2) →
  let r := row_at t b in
  let t1 := set_row t b (MkRow (active r) (key r) (next (row_at t (Slot a))) (data r)) in
  ∃ t2 L', release t1 (Slot a) = Some t2 ∧
    tinv (set_row_num t2 (row_num t2 - 1)) L' ∧ kv <$> concat L ≡ₚ (k, d) :: (kv <$> concat L').
Proof.
  intros Hi Hl r t1. destruct (NoDup_bucket _ _ _ _ Hi Hl) as [Hnp _].
  pose proof (tinv_bucket _ _ Hi _ _ Hl) as Hb.
  assert (seg (rows t) (Some (Root (Z.of_nat i))) (m0 ++ (b, kb, db) :: (Slot a, k, d) :: m2) None ∧
    Forall is_slot (eptr <$> tl (m0 ++ (b, kb, db) :: (Slot a, k, d) :: m2))) as [Hs Hsl].
  { by destruct m0. }
  destruct (release_spec t1 a) as (q & Hr & Hq & Hlv); [apply (tinv_pool _ _ Hi)|..].
  { apply (slot_live t L i _ a Hi Hl). rewrite fmap_app. set_solver. }
  destruct (unlink_seg _ _ _ _ _ _ _ _ _ _ (MkRow false [] None (data (row_at t1 (Slot a)))) Hnp Hs)
    as (nx & Ha & Hs').
  assert (∃ nb, r = MkRow true kb nb db) as [nb Hrb].
  { apply seg_app in Hs as (? & _ & _ & nb & Hb' & _). exists nb. by apply row_at_Some. }
  assert (rows t1 = <[b := MkRow true kb nx db]> (rows t)) as Hr1
    by (subst t1; by rewrite Hrb, (row_at_Some _ _ _ Ha)).
  do 2 eexists. split; [exact Hr|].
  apply (tinv_remove t _ L i _ (m0 ++ (b, kb, db) :: m2) (Slot a) k d Hi Hl); try done.
  - assert (seg (<[Slot a := MkRow false [] None (data (row_at t1 (Slot a)))]> (rows t1))
      (Some (Root (Z.of_nat i))) (m0 ++ (b, kb, db) :: m2) None) as Hs2 by (rewrite Hr1; exact Hs').
    destruct m0 as [|e m0]; (split; [exact Hs2|]); simpl in Hsl |- *.
    + by apply Forall_cons in Hsl as [_ ?].
    + rewrite fmap_app in *. simpl in *. rewrite Forall_app, !Forall_cons in *. naive_solver.
  - intros c _ Hc. cbn [rows set_row_num set_pool clear set_row].
    rewrite Hr1, !lookup_insert_ne; [done|..].
    + intros <-. apply Hc. rewrite fmap_app. set_solver.
    + intros <-. apply Hc. rewrite fmap_app. set_solver.
  - rewrite !fmap_app. simpl. rewrite perm_swap. by rewrite <- Permutation_middle.
  - rewrite !fmap_app. simpl. rewrite perm_swap. by rewrite <- Permutation_middle.
Qed.

(** [del]: the entry is removed, or the key is absent and nothing changes. *)
Lemma del_spec t L k0 :
  tinv t L → let k := check_key_length k0 in
  (k ∉ ekey <$> concat L ∧ del t k0 = Some (false, t)) ∨
  ∃ d t' L', del t k0 = Some (true, t') ∧ tinv t' L' ∧
    kv <$> concat L ≡ₚ (k, d) :: (kv <$> concat L').
Proof.
  intros Hi k. destruct (hash_bucket t L k Hi) as (i & l & Hh & Hl & Hx & Hb & Hf & Hc).
  unfold del. fold k. rewrite Hh. cbn [mbind option_bind].
  assert (k ∉ ekey <$> l → k ∉ ekey <$> concat L) as Habs.
  { intros Hk (e & Ek & He)%list_elem_of_fmap. apply Hk. rewrite Ek.
    apply list_elem_of_fmap_2. by apply Hc. }
  destruct (NoDup_bucket _ _ _ _ Hi Hl) as [Hnp _].
  destruct l as [|[[b kb] db] l].
  { left. split; [apply Habs; set_solver|]. unfold row_at, bucket in *.
    destruct (rows t !! _); simpl; [by destruct Hb as [-> _]|done]. }
  pose proof Hb as [Hs Hsl]. pose proof Hs as ([= <-] & nx & Hrow & Hs2).
  rewrite (row_at_Some _ _ _ Hrow). cbn [active negb next key data].
  destruct l as [|[[c kc] dc] l].
  { simpl in Hs2. subst nx. destruct (decide (kb = k)) as [->|Hne].
    - right. rewrite mem_equal_true. do 3 eexists. split; [done|].
      apply (tinv_remove t _ L i _ [] (Root (Z.of_nat i)) k db Hi Hl); try done.
      + cbn. by rewrite lookup_insert_eq.
      + intros a Ha _. cbn. by rewrite lookup_insert_ne.
      + intros a. cbn. naive_solver.
      + apply (tinv_pool _ _ Hi).
    - left. rewrite mem_equal_false by done. split; [|done]. apply Habs. simpl.
      rewrite elem_of_cons. intros [?|?]; [by apply Hne|set_solver]. }
  assert (nx = Some c) as -> by (by destruct Hs2).
  destruct (del_loop_spec (fuel t) t _ _ k None Hs Hf) as [Hno Hyes].
  destruct (key_split k (@cons entry (Root (Z.of_nat i), kb, db) (@cons entry (c, kc, dc) l)))
    as [Hk|(m1&a&d&m2&El&Hk)].
  { left. split; [by apply Habs|]. destruct (Hno Hk) as [pv ->]. done. }
  right. rewrite (Hyes _ _ _ _ El Hk). cbn [mbind option_bind].
  destruct (last m1) as [[[pb pk] pd]|] eqn:Hlast.
  - (* behind another row *)
    apply last_Some in Hlast as [m0 ->]. rewrite <- (assoc_L (++)) in El. cbn [app] in El.
    rewrite El in Hl, Hnp, Hsl.
    assert (∃ x, a = Slot x) as [x ->].
    { destruct a as [y|x]; [exfalso|eauto].
      apply (proj1 (Forall_forall is_slot _) Hsl (Root y)).
      destruct m0 as [|? m0]; simpl; rewrite ?fmap_app; set_solver. }
    assert (Slot x ≠ Root (Z.of_nat i)) as Hne by done.
    rewrite decide_False by done. cbn [mbind option_bind eptr fst].
    destruct (del_middle t L i m0 pb pk pd x k d m2 Hi Hl) as (t2 & L' & Hr & Hi' & Hp).
    rewrite Hr. cbn [mbind option_bind]. eauto 10.
  - (* the root *)
    apply last_None in Hlast as ->. cbn [app] in El. injection El as <- -> -> <-.
    rewrite decide_True by done.
    assert (∃ x, c = Slot x) as [x ->].
    { destruct c as [y|x]; [exfalso|eauto]. simpl in Hsl. by apply Forall_cons in Hsl as [? _]. }
    cbn [mbind option_bind].
    destruct (del_root t L i k d x kc dc l Hi Hl) as (t2 & L' & Hr & Hi' & Hp).
    cbn [mbind option_bind]. rewrite Hr. cbn [mbind option_bind]. eauto 10.
Qed.

(** ** Refinement of a finite map *)

Definition represents (t : Table P) (m : gmap bytes bytes) : Prop :=
  ∃ L, tinv t L ∧ m = list_to_map (kv <$> concat L).

Lemma tinv_kv_NoDup t L : tinv t L → NoDup (kv <$> concat L).*1.
Proof. intros Hi. rewrite <- ekey_kv. apply (tinv_keys _ _ Hi). Qed.

Lemma represents_lookup t L a k d :
  tinv t L → (a, k, d) ∈ concat L →
  (list_to_map (kv <$> concat L) : gmap bytes bytes) !! k = Some d.
Proof.
  intros Hi He. apply elem_of_list_to_map_1; [by apply tinv_kv_NoDup with t|].
  by apply (list_elem_of_fmap_2 kv) in He.
Qed.

Lemma represents_absent (L : list (list entry)) k :
  k ∉ ekey <$> concat L → (list_to_map (kv <$> concat L) : gmap bytes bytes) !! k = None.
Proof. intros Hk. apply not_elem_of_list_to_map_1. by rewrite <- ekey_kv. Qed.

Lemma represents_size t m : represents t m → row_num t = u32 (Z.of_nat (base.size m)).
Proof.
  intros (L & Hi & ->). rewrite (tinv_num _ _ Hi). f_equal. unfold zlen. f_equal.
  rewrite <- length_map_to_list, map_to_list_to_map by by apply tinv_kv_NoDup with t.
  by rewrite length_fmap.
Qed.

(** The clients' operations: store and load the data of a key. *)
Definition put (t : Table P) (k d : bytes) : option (bool * Table P) :=
  r ← set t k;
  let '(p, _, t) := r in
  Some (match p with Some p => (true, write t p d) | None => (false, t) end).

Definition fetch (t : Table P) (k : bytes) : option (option bytes) :=
  p ← get t k; Some (option_map (λ p, data (row_at t p)) p).

Inductive top := Put (k d : bytes) | Fetch (k : bytes) | Del (k : bytes) | Count.
Inductive tres := RBool (b : bool) | RData (d : option bytes) | RNum (n : Z).

Definition step (t : Table P) (o : top) : option (tres * Table P) :=
  match o with
  | Put k d => r ← put t k d; Some (RBool r.1, r.2)
  | Fetch k => r ← fetch t k; Some (RData r, t)
  | Del k => r ← del t k; Some (RBool r.1, r.2)
  | Count => Some (RNum (count t), t)
  end.

(** The abstract map; only an insertion of an absent key may fail. *)
Inductive map_step (m : gmap bytes bytes) : top → tres → gmap bytes bytes → Prop :=
  | map_put k d : map_step m (Put k d) (RBool true) (<[check_key_length k := d]> m)
  | map_put_full k d : m !! check_key_length k = None → map_step m (Put k d) (RBool false) m
  | map_fetch k : map_step m (Fetch k) (RData (m !! check_key_length k)) m
  | map_del k : map_step m (Del k) (RBool (bool_decide (is_Some (m !! check_key_length k))))
                         (delete (check_key_length k) m)
  | map_count : map_step m Count (RNum (u32 (Z.of_nat (base.size m)))) m.

Lemma put_refines t m k d :
  represents t m → ∃ b t' m', put t k d = Some (b, t') ∧ represents t' m' ∧
    map_step m (Put k d) (RBool b) m'.
Proof.
  intros (L & Hi & ->). unfold put.
  destruct (set_spec t L k Hi) as [(a & d0 & f & He & ->)|
    (Hk & [(f & q & -> & _)|(a & d0 & f & t' & L' & -> & Hi' & Hp)])]; cbn [mbind option_bind].
  - destruct (write_spec t L a _ d0 d Hi He) as (L' & rest & Hi' & Hp & Hp').
    do 3 eexists. split; [done|]. split; [by exists L'|].
    assert ((list_to_map (kv <$> concat L') : gmap bytes bytes)
      = <[check_key_length k := d]> (list_to_map (kv <$> concat L))) as ->; [|constructor].
    rewrite (list_to_map_proper (kv <$> concat L') (kv <$> (a, check_key_length k, d) :: rest));
      [|by apply tinv_kv_NoDup with (write t a d)|by rewrite Hp'].
    rewrite (list_to_map_proper (kv <$> concat L) (kv <$> (a, check_key_length k, d0) :: rest));
      [|by apply tinv_kv_NoDup with t|by rewrite Hp].
    simpl. by rewrite insert_insert_eq.
  - do 3 eexists. split; [done|]. split; [by exists L|]. constructor. by apply represents_absent.
  - assert ((a, check_key_length k, d0) ∈ concat L') as He by (rewrite Hp; left).
    destruct (write_spec t' L' a _ d0 d Hi' He) as (L2 & rest & Hi2 & Hp1 & Hp2).
    do 3 eexists. split; [done|]. split; [by exists L2|].
    assert (rest ≡ₚ concat L) as Hrest by (rewrite Hp in Hp1; by apply Permutation_cons_inv in Hp1).
    assert ((list_to_map (kv <$> concat L2) : gmap bytes bytes)
      = <[check_key_length k := d]> (list_to_map (kv <$> concat L))) as ->; [|constructor].
    rewrite (list_to_map_proper (kv <$> concat L2) (kv <$> (a, check_key_length k, d) :: concat L));
      [done|by apply tinv_kv_NoDup with (write t' a d)|by rewrite Hp2, Hrest].
Qed.

Lemma fetch_refines t m k :
  represents t m → fetch t k = Some (m !! check_key_length k).
Proof.
  intros (L & Hi & ->). unfold fetch.
  destruct (get_spec t L k Hi) as [(a & d & He & ->)|[Hk ->]]; cbn [mbind option_bind].
  - destruct (entry_row _ _ _ _ _ Hi He) as [nx Hrow]. rewrite (represents_lookup _ _ _ _ _ Hi He).
    cbn. by rewrite (row_at_Some _ _ _ Hrow).
  - by rewrite represents_absent.
Qed.

Lemma del_refines t m k :
  represents t m → ∃ b t' m', del t k = Some (b, t') ∧ represents t' m' ∧
    map_step m (Del k) (RBool b) m'.
Proof.
  intros (L & Hi & ->).
  destruct (del_spec t L k Hi) as [(Hk & ->)|(d & t' & L' & -> & Hi' & Hp)].
  - pose proof (represents_absent L _ Hk) as Hn.
    exists false, t, (list_to_map (kv <$> concat L)). split; [done|]. split; [by exists L|].
    rewrite <- (delete_id (list_to_map (kv <$> concat L)) (check_key_length k)) at 2 by done.
    replace false with
      (bool_decide (is_Some ((list_to_map (kv <$> concat L) : gmap bytes bytes) !! check_key_length k)));
      [constructor|]. apply bool_decide_eq_false. rewrite Hn. by intros [? ?].
  - do 3 eexists. split; [done|]. split; [by exists L'|].
    pose proof (tinv_kv_NoDup t L Hi) as Hnd.
    assert ((list_to_map (kv <$> concat L) : gmap bytes bytes)
      = <[check_key_length k := d]> (list_to_map (kv <$> concat L'))) as Hm
      by (by rewrite (list_to_map_proper _ _ Hnd Hp)).
    assert ((list_to_map (kv <$> concat L') : gmap bytes bytes) !! check_key_length k = None) as Hn.
    { apply not_elem_of_list_to_map_1. rewrite Hp in Hnd. simpl in Hnd. by apply NoDup_cons in Hnd as [? _]. }
    replace (list_to_map (kv <$> concat L')) with
      (delete (check_key_length k) (list_to_map (kv <$> concat L) : gmap bytes bytes))
      by (rewrite Hm, delete_insert_eq; by apply delete_id).
    replace true with
      (bool_decide (is_Some ((list_to_map (kv <$> concat L) : gmap bytes bytes) !! check_key_length k)));
      [constructor|]. apply bool_decide_eq_true. rewrite Hm, lookup_insert_eq. eauto.
Qed.

Lemma step_refines t m o :
  represents t m → ∃ r t' m', step t o = Some (r, t') ∧ represents t' m' ∧ map_step m o r m'.
Proof.
  intros Hr. destruct o as [k d|k|k|]; cbn [step].
  - destruct (put_refines t m k d Hr) as (b & t' & m' & -> & ? & ?). cbn. eauto 10.
  - rewrite (fetch_refines t m k Hr). cbn. do 3 eexists. split; [done|]. split; [done|]. constructor.
  - destruct (del_refines t m k Hr) as (b & t' & m' & -> & ? & ?). cbn. eauto 10.
  - do 3 eexists. split; [done|]. split; [done|]. unfold count.
    rewrite (represents_size _ _ Hr). constructor.
Qed.
End Proofs.

(** ** Construction *)

Lemma rows_size_loop_spec fuel i n :
  6 <= i <= 31 → 31 < i + Z.of_nat fuel → n <= 2 ^ 31 → i = 6 ∨ 2 ^ (i - 1) < n →
  let r := rows_size_loop fuel i n in
  6 <= r <= 31 ∧ n <= 2 ^ r ∧ (r = 6 ∨ 2 ^ (r - 1) < n).
Proof.
  revert i. induction fuel as [|fuel IH]; intros i Hi Hf Hn Hlo r; subst r; [lia|].
  cbn [rows_size_loop].
  assert (0 < 2 ^ i <= 2 ^ 31) as Hp.
  { split; [apply Z.pow_pos_nonneg; lia|apply Z.pow_le_mono_r; lia]. }
  rewrite Z.shiftl_1_l, u32_small by lia.
  destruct (Z.ltb_spec (2 ^ i) n) as [Hlt|Hge]; [|done].
  assert (i < 31) as Hi31.
  { destruct (Z.lt_ge_cases i 31); [done|]. replace i with 31 in * by lia. lia. }
  apply IH; [lia|lia|done|]. right. by replace (i + 1 - 1) with i by lia.
Qed.

(** The least power of two that is at least [rows_size] and 64. *)
Lemma make_size_spec n :
  0 <= n < 2 ^ 32 → ∃ e, 6 <= e <= 31 ∧ make_size n = 2 ^ e ∧ Z.min n (2 ^ 31) <= 2 ^ e ∧
    (e = 6 ∨ 2 ^ (e - 1) < n).
Proof.
  intros Hn. unfold make_size. rewrite Z.geb_leb. destruct (Z.leb_spec 2147483648 n).
  { exists 31. repeat split; lia. }
  destruct (rows_size_loop_spec 32 6 n) as (H1 & H2 & H3); [lia|lia|lia|by left|].
  set (e := rows_size_loop 32 6 n) in *. exists e. rewrite Z.shiftl_1_l.
  assert (0 < 2 ^ e <= 2 ^ 31).
  { split; [apply Z.pow_pos_nonneg; lia|apply Z.pow_le_mono_r; lia]. }
  rewrite u32_small by lia. repeat split; try lia; done.
Qed.

Section Claims.
Context {P : Type} `{MemoryPoolLaws P}.

Lemma concat_replicate_nil (n : nat) : concat (replicate n ([] : list entry)) = [].
Proof. induction n; simpl; auto. Qed.

Lemma create_represents rows_size item_size h (q : P) :
  0 <= rows_size < 2 ^ 32 → mp_inv q → mp_live q = ∅ →
  represents (create rows_size item_size h q) ∅.
Proof.
  intros Hn Hq Hl. destruct (make_size_spec rows_size Hn) as (e & He & Hs & _ & _).
  assert (0 < 2 ^ e) by (apply Z.pow_pos_nonneg; lia).
  exists (replicate (Z.to_nat (2 ^ e)) []). rewrite concat_replicate_nil. split; [|done].
  split; rewrite ?concat_replicate_nil; cbn [size create pool rows row_num index mask hash_func];
    rewrite ?Hs; try done.
  - unfold zlen. rewrite length_replicate. lia.
  - intros k. unfold index. cbn [create mask hash_func]. rewrite Hs.
    replace (2 ^ e - 1) with (Z.ones e) by (rewrite Z.ones_equiv; lia).
    rewrite Z.land_ones by lia. apply Z.mod_pos_bound. lia.
  - intros i l [-> _]%lookup_replicate. cbn. by rewrite lookup_empty.
  - intros i l x [-> _]%lookup_replicate Hx. set_solver.
  - constructor.
  - constructor.
  - intros a. rewrite Hl. set_solver.
Qed.
End Claims.

(** C17: the shared table refines a finite map.  A table created over any memory
    pool without live blocks, with any hash function, runs every sequence of
    insertions, lookups, deletions and counts without a failed assertion or null
    dereference, and its results are those of a map from (truncated) keys to row
    data; an insertion fails only for a key that is not present. *)
Theorem table_refines_map {P : Type} `{MemoryPoolLaws P}
    rows_size item_size h (q : P) os :
  0 <= rows_size < 2 ^ 32 → mp_inv q → mp_live q = ∅ →
  ∃ rs t m, exec step (create rows_size item_size h q) os = Some (rs, t) ∧
    runs map_step ∅ os rs m ∧ represents t m.
Proof.
  intros Hn Hq Hl. pose proof (create_represents rows_size item_size h q Hn Hq Hl) as Hr.
  destruct (exec_refines step map_step (λ _, True) represents
    (λ t m o Hr _, step_refines t m o Hr) os _ _ Hr) as (rs & t & m & He & Hr' & Hm).
  - by apply Forall_true.
  - by exists rs, t, m.
Qed.

Lemma table_refines_map_witness :
  ∃ q rs t m, FixedPool.make 4 80 = Some q ∧
    exec step (create 8 16 openswoole_hash_php q)
      [Put (lit "a") [1]; Put (lit "b") [2]; Put (lit "a") [3]; Fetch (lit "a"); Del (lit "b");
       Fetch (lit "b"); Count] = Some (rs, t) ∧
    runs map_step ∅
      [Put (lit "a") [1]; Put (lit "b") [2]; Put (lit "a") [3]; Fetch (lit "a"); Del (lit "b");
       Fetch (lit "b"); Count] rs m ∧ represents t m.
Proof.
  destruct (make_pool 4 80) as (q & Hm & Hi & _ & Hu); [lia|lia|].
  exists q. destruct (table_refines_map 8 16 openswoole_hash_php q
    [Put (lit "a") [1]; Put (lit "b") [2]; Put (lit "a") [3]; Fetch (lit "a"); Del (lit "b");
     Fetch (lit "b"); Count]) as (rs & t & m & ?).
  - lia.
  - exact Hi.
  - exact (live_empty q Hi Hu).
  - exists rs, t, m. split; [exact Hm|done].
Defined.

(** ** Iteration *)

Section Iteration.
Context {P : Type} `{MemoryPoolLaws P}.
Implicit Types t : Table P.

Lemma walk_spec n t p l i ci :
  seg (rows t) p l None → (length l < n)%nat → 0 <= i <= ci →
  walk n t p i ci = Some (option_map eptr (l !! Z.to_nat (ci - i))).
Proof.
  revert p l i. induction n as [|n IH]; intros p l i Hs Hn Hi; [lia|].
  destruct l as [|[[a k] d] l]; cbn [walk].
  { simpl in Hs. by subst p. }
  destruct Hs as (-> & nx & Ha & Hs). simpl in Hn. destruct (Z.eqb_spec i ci) as [->|Hne].
  - by rewrite Z.sub_diag.
  - rewrite (row_at_Some _ _ _ Ha). cbn [next]. rewrite (IH _ l) by (done || lia).
    by replace (Z.to_nat (ci - i)) with (S (Z.to_nat (ci - (i + 1)))) by lia.
Qed.

(** What is left of an iteration at position [ai], [ci]. *)
Definition remaining (L : list (list entry)) (ai ci : Z) : list entry :=
  match drop (Z.to_nat ai) L with
  | [] => []
  | l :: L => drop (Z.to_nat ci) l ++ concat L
  end.

Definition valid (L : list (list entry)) (ai ci : Z) : Prop :=
  0 <= ai <= zlen L ∧ 0 <= ci ∧ ∀ l, L !! Z.to_nat ai = Some l →
    ci <= zlen l ∧ ((length l <= 1)%nat → ci = 0).

Lemma remaining_cons L ai ci l :
  L !! Z.to_nat ai = Some l →
  remaining L ai ci = drop (Z.to_nat ci) l ++ concat (drop (S (Z.to_nat ai)) L).
Proof. intros Hl. unfold remaining. by erewrite drop_S by done. Qed.

Lemma remaining_next L ai :
  0 <= ai → remaining L (ai + 1) 0 = concat (drop (S (Z.to_nat ai)) L).
Proof.
  intros Hai. unfold remaining. replace (Z.to_nat (ai + 1)) with (S (Z.to_nat ai)) by lia.
  destruct (drop _ L); [done|]. by rewrite drop_0.
Qed.

Lemma valid_next L ai : 0 <= ai < zlen L → valid L (ai + 1) 0.
Proof. intros. split; [lia|]. split; [lia|]. intros l _. split; [apply zlen_nonneg|done]. Qed.

(** One call of [forward]: the next remaining row, or the end. *)
Lemma forward_loop_spec n t L ai ci :
  tinv t L → valid L ai ci → size t < ai + Z.of_nat n →
  match remaining L ai ci with
  | [] => ∃ ai' ci' r, forward_loop n t ai ci = Some (set_iterator t (MkIter ai' ci' r)) ∧
            active r = false
  | e :: rest => ∃ ai' ci', forward_loop n t ai ci
            = Some (set_iterator t (MkIter ai' ci' (row_at t (eptr e)))) ∧
            valid L ai' ci' ∧ remaining L ai' ci' = rest
  end.
Proof.
  intros Hi. pose proof (tinv_size _ _ Hi) as Hsz. revert ai ci.
  induction n as [|n IH]; intros ai ci Hv Hn; cbn [forward_loop].
  { destruct Hv as [? _]. lia. }
  destruct (Z.ltb_spec ai (size t)) as [Hlt|Hge].
  2: { unfold remaining. rewrite drop_ge by (unfold zlen in Hsz; lia). eauto 10. }
  pose proof Hv as (Hai & Hci & Hvl).
  destruct (L !! Z.to_nat ai) as [l|] eqn:Hl; [|apply lookup_ge_None in Hl; unfold zlen in Hsz; lia].
  destruct (Hvl l eq_refl) as [Hcl Hc1]. rewrite (remaining_cons _ _ _ _ Hl).
  pose proof (tinv_bucket _ _ Hi _ _ Hl) as Hb.
  assert (0 <= ai < zlen L) as Hai' by lia. pose proof (valid_next L ai Hai') as Hvn.
  unfold get_by_index. destruct l as [|[[b k] d] l].
  { (* an empty bucket *)
    assert (active (row_at t (Root ai)) = false) as ->.
    { unfold row_at. unfold bucket in Hb. rewrite Z2Nat.id in Hb by lia.
      destruct (rows t !! _); [by destruct Hb|done]. }
    rewrite (Hc1 ltac:(simpl; lia)) in *. rewrite drop_nil. cbn [app].
    rewrite <- remaining_next by lia. apply IH; [done|lia]. }
  destruct Hb as [Hs Hsl]. rewrite Z2Nat.id in Hs by lia. pose proof Hs as ([= <-] & nx & Hrow & Hs2).
  rewrite (row_at_Some _ _ _ Hrow). cbn [active]. rewrite (row_at_Some _ _ _ Hrow). cbn [next].
  destruct l as [|e2 l].
  { (* a single row *)
    simpl in Hs2. subst nx. rewrite (Hc1 ltac:(simpl; lia)) in *. cbn [Z.to_nat drop app].
    exists (ai + 1), 0. cbn [eptr fst]. rewrite (row_at_Some _ _ _ Hrow). split; [done|].
    split; [done|]. apply remaining_next. lia. }
  assert (nx = Some (eptr e2)) as -> by by eapply seg_head.
  rewrite (walk_spec _ t _ _ 0 ci Hs) by (try lia; by eapply fuel_enough).
  cbn [mbind option_bind]. rewrite Z.sub_0_r.
  destruct (_ !! Z.to_nat ci) as [e|] eqn:He; cbn [option_map].
  - (* inside the chain *)
    erewrite drop_S by exact He. cbn [app]. exists ai, (ci + 1). split; [done|].
    pose proof (lookup_lt_Some _ _ _ He) as Hlen. split.
    + split; [lia|]. split; [lia|]. intros l' Hl'. rewrite Hl in Hl'. injection Hl' as <-.
      split; [unfold zlen; lia|]. simpl. lia.
    + rewrite (remaining_cons _ _ _ _ Hl). by replace (Z.to_nat (ci + 1)) with (S (Z.to_nat ci)) by lia.
  - (* past its end *)
    apply lookup_ge_None in He. rewrite drop_ge by done. cbn [app].
    rewrite <- remaining_next by lia. apply IH; [done|lia].
Qed.

(** [set_iterator] does not touch the rows. *)
Lemma tinv_iterator t L it : tinv t L → tinv (set_iterator t it) L.
Proof. intros []. by split. Qed.

(** A full scan as the bindings do it: [forward] until the current row is
    inactive. *)
Fixpoint scan (n : nat) (t : Table P) : option (list TableRow) :=
  match n with
  | O => None
  | S n =>
    t ← forward t;
    let r := current_ (iterator t) in
    if active r then rs ← scan n t; Some (r :: rs) else Some []
  end.

Lemma scan_spec n t L :
  tinv t L → let it := iterator t in
  valid L (absolute_index it) (collision_index it) →
  let rest := remaining L (absolute_index it) (collision_index it) in
  (length rest < n)%nat → (∀ e, e ∈ rest → e ∈ concat L) →
  scan n t = Some ((λ e, row_at t (eptr e)) <$> rest).
Proof.
  revert t. induction n as [|n IH]; intros t Hi it Hv rest Hn Hin; [lia|]. cbn [scan].
  unfold forward. fold it.
  pose proof (forward_loop_spec (S (Z.to_nat (size t))) t L _ _ Hi Hv) as Hf. fold rest in Hf.
  pose proof (tinv_size _ _ Hi) as Hsz. pose proof (zlen_nonneg L). destruct Hv as [Hai Hv].
  specialize (Hf ltac:(lia)). destruct rest as [|e rest'] eqn:Hrest.
  - destruct Hf as (ai & ci & r & -> & Ha). cbn [mbind option_bind set_iterator iterator current_].
    by rewrite Ha.
  - destruct Hf as (ai & ci & -> & Hv' & Hr'). cbn [mbind option_bind set_iterator iterator current_].
    destruct e as [[a k] d]. cbn [eptr fst].
    destruct (entry_row t L a k d Hi) as [nx Hrow]; [apply Hin; left|].
    rewrite (row_at_Some _ _ _ Hrow). cbn [active].
    rewrite (IH (set_iterator t (MkIter ai ci (MkRow true k nx d)))).
    + cbn [mbind option_bind iterator set_iterator absolute_index collision_index]. rewrite Hr'.
      simpl. unfold eptr at 2. simpl. by rewrite (row_at_Some _ _ _ Hrow).
    + by apply tinv_iterator.
    + done.
    + cbn. rewrite Hr'. simpl in Hn. lia.
    + cbn. rewrite Hr'. intros e He. apply Hin. by right.
Qed.
End Iteration.

(** C18: iteration is complete.  A scan from [rewind] over a table nobody changes
    visits every active row exactly once and then stops: the rows it returns are
    the key/data pairs of the map the table represents, without duplicates. *)
Theorem scan_visits_all {P : Type} `{MemoryPoolLaws P} (t : Table P) m :
  represents t m →
  ∃ rs, scan (S (base.size m)) (rewind t) = Some rs ∧ NoDup (key <$> rs) ∧
    list_to_map ((λ r, (key r, data r)) <$> rs) = m.
Proof.
  intros (L & Hi & Hm). pose proof (tinv_iterator _ _ (MkIter 0 0 (zero_row t)) Hi) as Hi'.
  assert (remaining L 0 0 = concat L) as Hrem.
  { unfold remaining. simpl. destruct L; [done|]. by rewrite drop_0. }
  pose proof (tinv_kv_NoDup t L Hi) as Hnd.
  assert ((λ r, (key r, data r)) <$> ((λ e, row_at t (eptr e)) <$> concat L) = kv <$> concat L) as Hkv.
  { rewrite <- list_fmap_compose. apply list_fmap_ext. intros i [[a k] d] He%list_elem_of_lookup_2.
    destruct (entry_row t L a k d Hi He) as [nx Hrow]. unfold compose, eptr. simpl.
    by rewrite (row_at_Some _ _ _ Hrow). }
  exists ((λ e, row_at t (eptr e)) <$> concat L). split; [|split].
  - unfold rewind. rewrite (scan_spec _ _ L Hi'); cbn; rewrite ?Hrem; try done.
    + split; [pose proof (zlen_nonneg L); lia|]. split; [lia|]. intros l _. split; [apply zlen_nonneg|done].
    + apply Nat.lt_succ_r. rewrite Hm, <- length_map_to_list, map_to_list_to_map by done.
      by rewrite length_fmap.
  - rewrite <- Hkv, <- list_fmap_compose in Hnd. exact Hnd.
  - by rewrite Hkv.
Qed.

Lemma scan_visits_all_witness :
  ∃ q t m, FixedPool.make 4 80 = Some q ∧
    exec step (create 8 16 (λ _, 5) q) [Put (lit "a") [1]; Put (lit "b") [2]; Put (lit "c") [3]]
    = Some ([RBool true; RBool true; RBool true], t) ∧ represents t m ∧
    ∃ rs, scan (S (base.size m)) (rewind t) = Some rs ∧ NoDup (key <$> rs) ∧
      list_to_map ((λ r, (key r, data r)) <$> rs) = m.
Proof.
  destruct (make_pool 4 80) as (q & Hm & Hi & _ & Hu); [lia|lia|].
  pose proof (create_represents 8 16 (λ _, 5) q ltac:(lia) Hi (live_empty q Hi Hu)) as Hr.
  destruct (exec_refines step map_step (λ _, True) represents (λ t m o Hr _, step_refines t m o Hr)
    [Put (lit "a") [1]; Put (lit "b") [2]; Put (lit "c") [3]] _ _ Hr) as (rs & t & m & He & Hr' & _);
    [by apply Forall_true|].
  exists q, t, m. split; [done|].
  assert (rs = [RBool true; RBool true; RBool true]) as <-.
  { assert (Some q = FixedPool.make 4 80) as Hq by done. vm_compute in Hq. injection Hq as ->.
    vm_compute in He. by injection He. }
  split; [done|]. split; [done|]. by apply scan_visits_all.
Defined.

(** A deletion during an iteration can hide rows that stay in the table.
    [forward] leaves [collision_index] unchanged when it leaves a chain through
    the [next == nullptr] branch, so after a deletion shortens the current chain to
    its root the stale index is used in a later chain: here both rows of the
    second chain are present ([exists]) but the iteration ends without visiting
    them. *)
Theorem forward_skips_after_delete :
  ∃ q t0 t1 t2 t3 t4 t5, FixedPool.make 4 80 = Some q ∧
    exec step (create 64 8 (λ k, hd 0 k) q)
      [Put [5; 1] [1]; Put [5; 2] [2]; Put [6; 1] [3]; Put [6; 2] [4]]
    = Some ([RBool true; RBool true; RBool true; RBool true], t0) ∧
    forward (rewind t0) = Some t1 ∧ forward t1 = Some t2 ∧ del t2 [5; 1] = Some (true, t3) ∧
    forward t3 = Some t4 ∧ forward t4 = Some t5 ∧
    key (current_ (iterator t4)) = [5; 2] ∧ active (current_ (iterator t5)) = false ∧
    exists_ t5 [6; 1] = Some true ∧ exists_ t5 [6; 2] = Some true.
Proof.
  do 7 eexists. split; [vm_compute; reflexivity|].
  split; [vm_compute; reflexivity|]. split; [vm_compute; reflexivity|].
  split; [vm_compute; reflexivity|]. split; [vm_compute; reflexivity|].
  split; [vm_compute; reflexivity|]. split; [vm_compute; reflexivity|]. by vm_compute.
Qed.

(** ** Columns *)

Inductive column_type := TYPE_INT | TYPE_FLOAT | TYPE_STRING.

Record TableColumn := MkColumn { ctype : column_type; csize : Z; cname : bytes; cindex : Z }.

Definition sizeof_TableStringLength : Z := 4.

(** The constructor of [TableColumn]. *)
Definition new_column (name : bytes) (type : column_type) (size : Z) (index : Z) : TableColumn :=
  MkColumn type
    match type with
    | TYPE_INT => 8
    | TYPE_FLOAT => 8
    | TYPE_STRING => u32 (size + sizeof_TableStringLength)
    end name index.

(** [Table::add_column] on [column_list] and [item_size]; [column_map] finds the
    first column of a name ([emplace] does not replace). *)
Definition add_column (cols : list TableColumn) (item_size : Z) (name : bytes)
    (type : column_type) (size : Z) : list TableColumn * Z :=
  let col := new_column name type size item_size in
  (cols ++ [col], u64 (item_size + csize col)).

Definition get_column (cols : list TableColumn) (name : bytes) : option TableColumn :=
  snd <$> list_find (λ c, cname c = name) cols.

(** [TableRow::set_value] on the row data; [value] of a number column is its
    eight bytes, null for a string column is [None]. *)
Definition set_value (d : bytes) (col : TableColumn) (value : option bytes) : option bytes :=
  match ctype col with
  | TYPE_INT | TYPE_FLOAT => v ← value; v ← load v 0 8; store d (cindex col) v
  | TYPE_STRING =>
    let limit := u64 (csize col - sizeof_TableStringLength) in
    let vlen := match value with Some v => zlen v | None => 0 end in
    let vlen := if vlen >? limit then limit else vlen in
    let vlen := match value with Some _ => vlen | None => 0 end in
    d ← store d (cindex col) (le_bytes 4 vlen);
    if 0 <? vlen then
      v ← value; v ← load v 0 vlen; store d (cindex col + sizeof_TableStringLength) v
    else Some d
  end.

(** [TableColumn::clear]. *)
Definition clear_column (d : bytes) (col : TableColumn) : option bytes :=
  match ctype col with
  | TYPE_STRING => set_value d col None
  | TYPE_FLOAT => set_value d col (Some (le_bytes 8 0))
  | TYPE_INT => set_value d col (Some (le_bytes 8 0))
  end.

(** [Table::clear_row]. *)
Fixpoint clear_row (d : bytes) (cols : list TableColumn) : option bytes :=
  match cols with
  | [] => Some d
  | col :: cols => d ← clear_column d col; clear_row d cols
  end.

(** [TableRow::get_value]: the eight bytes of a number, the bytes of a string. *)
Definition get_value (d : bytes) (col : TableColumn) : option bytes :=
  match ctype col with
  | TYPE_INT | TYPE_FLOAT => load d (cindex col) 8
  | TYPE_STRING =>
    l ← load d (cindex col) 4; load d (cindex col + sizeof_TableStringLength) (le_val l)
  end.

(** A column that fits the row data. *)
Definition column_ok (d : bytes) (col : TableColumn) : Prop :=
  0 <= cindex col ∧ cindex col + csize col <= zlen d ∧
  match ctype col with TYPE_STRING => 4 <= csize col < 2 ^ 32 | _ => csize col = 8 end.

(** What [set_value] keeps of a value. *)
Definition stored (col : TableColumn) (v : bytes) : bytes :=
  match ctype col with
  | TYPE_STRING => take (Z.to_nat (csize col - 4)) v
  | _ => take 8 v
  end.

Lemma store_total d off bs :
  0 <= off → off + zlen bs <= zlen d → ∃ d', store d off bs = Some d' ∧ zlen d' = zlen d.
Proof.
  intros H1 H2. destruct (store d off bs) as [d'|] eqn:E.
  - exists d'. split; [done|]. by eapply store_length.
  - by rewrite store_Some in E by lia.
Qed.

Lemma zlen_take {A} n (l : list A) : 0 <= n → zlen (take (Z.to_nat n) l) = Z.min n (zlen l).
Proof. intros. unfold zlen. rewrite length_take. lia. Qed.

Lemma zlen_le_bytes n z : zlen (le_bytes n z) = Z.of_nat n.
Proof. unfold zlen. by rewrite le_bytes_length. Qed.

Lemma load_prefix v n : 0 <= n <= zlen v → load v 0 n = Some (take (Z.to_nat n) v).
Proof. intros. rewrite load_Some by lia. done. Qed.

(** [set_value] writes the column and nothing else. *)
Lemma set_value_spec d col v :
  column_ok d col → (ctype col ≠ TYPE_STRING → 8 <= zlen v) →
  ∃ d', set_value d col (Some v) = Some d' ∧ zlen d' = zlen d ∧
    get_value d' col = Some (stored col v) ∧
    ∀ o n, o + n <= cindex col ∨ cindex col + csize col <= o → load d' o n = load d o n.
Proof.
  intros (Hi & Hsz & Ht) Hv. unfold set_value, get_value, stored, sizeof_TableStringLength.
  destruct (ctype col) eqn:Hty.
  1,2: specialize (Hv ltac:(done)); cbn [mbind option_bind]; rewrite load_prefix by lia;
    cbn [mbind option_bind]; change (Z.to_nat 8) with 8%nat;
    assert (zlen (take 8 v) = 8) as Hl8 by (rewrite (zlen_take 8) by lia; lia);
    destruct (store_total d (cindex col) (take 8 v)) as (d' & Hs & Hz); [lia|lia|];
    exists d'; split; [done|]; split; [done|]; split;
    [rewrite <- Hl8 at 1; by eapply load_store_same|
     intros o n Ho; eapply load_store_other; [done|lia]].
  rewrite u64_small by lia. pose proof (zlen_nonneg v) as Hv0.
  assert ((if zlen v >? csize col - 4 then csize col - 4 else zlen v)
          = zlen (take (Z.to_nat (csize col - 4)) v)) as ->.
  { rewrite zlen_take by lia. rewrite Z.gtb_ltb. case_Z; lia. }
  set (w := take (Z.to_nat (csize col - 4)) v).
  assert (zlen w <= csize col - 4 ∧ zlen w <= zlen v) as [Hw Hwv]
    by (subst w; rewrite zlen_take by lia; lia).
  pose proof (zlen_nonneg w).
  destruct (store_total d (cindex col) (le_bytes 4 (zlen w))) as (d1 & Hs1 & Hz1);
    [lia|rewrite zlen_le_bytes; lia|].
  rewrite Hs1. cbn [mbind option_bind].
  assert (∀ d', load d' (cindex col) 4 = Some (le_bytes 4 (zlen w)) →
    (l ← load d' (cindex col) 4; load d' (cindex col + 4) (le_val l))
    = load d' (cindex col + 4) (zlen w)) as Hrd.
  { intros d' ->. cbn [mbind option_bind]. rewrite le_val_bytes. f_equal.
    change (256 ^ Z.of_nat 4) with (2 ^ 32). apply Z.mod_small. lia. }
  pose proof (load_store_same _ _ _ _ Hs1) as Hl1. rewrite zlen_le_bytes in Hl1.
  destruct (Z.ltb_spec 0 (zlen w)) as [Hpos|Hz].
  - rewrite load_prefix by lia.
    assert (take (Z.to_nat (zlen w)) v = w) as ->.
    { subst w. rewrite zlen_take by lia.
      destruct (Z.le_ge_cases (csize col - 4) (zlen v)); [by rewrite Z.min_l by lia|].
      rewrite Z.min_r by lia. rewrite !take_ge by (unfold zlen in *; lia). done. }
    cbn [mbind option_bind].
    destruct (store_total d1 (cindex col + 4) w) as (d2 & Hs2 & Hz2); [lia|lia|].
    exists d2. split; [done|]. split; [lia|]. split.
    + rewrite Hrd; [by eapply load_store_same|].
      rewrite (load_store_other _ _ _ _ (cindex col) 4 Hs2) by lia. exact Hl1.
    + intros o n Ho. rewrite (load_store_other _ _ _ _ o n Hs2) by lia.
      eapply load_store_other; [done|]. rewrite zlen_le_bytes. lia.
  - assert (w = []) as Hw0 by (apply zlen_0; lia).
    exists d1. split; [done|]. split; [done|]. split.
    + rewrite Hrd by exact Hl1. rewrite Hw0, zlen_nil. rewrite load_Some by lia. done.
    + intros o n Ho. eapply load_store_other; [done|]. rewrite zlen_le_bytes. lia.
Qed.

(** Columns laid out one after the other from [o]. *)
Fixpoint columns_from (o : Z) (cols : list TableColumn) (e : Z) : Prop :=
  match cols with
  | [] => o = e
  | c :: cols => cindex c = o ∧ 0 <= csize c ∧ columns_from (o + csize c) cols e
  end.

Lemma columns_from_app o c1 c2 e :
  columns_from o (c1 ++ c2) e ↔ ∃ m, columns_from o c1 m ∧ columns_from m c2 e.
Proof.
  revert o. induction c1 as [|c c1 IH]; intros o; cbn [columns_from app].
  - split; [by exists o|by intros (m & -> & ?)].
  - rewrite IH. split.
    + intros (? & ? & m & ? & ?). eauto 8.
    + intros (m & (? & ? & ?) & ?). eauto 8.
Qed.

Lemma columns_from_le o cols e : columns_from o cols e → o <= e.
Proof.
  revert o. induction cols as [|c cols IH]; intros o; cbn [columns_from]; [lia|].
  intros (_ & ? & ?%IH). lia.
Qed.

Lemma columns_disjoint o cols e i j ci cj :
  columns_from o cols e → (i < j)%nat → cols !! i = Some ci → cols !! j = Some cj →
  cindex ci + csize ci <= cindex cj.
Proof.
  intros Hc Hij Hi Hj. apply list_elem_of_split_length in Hi as (c1 & c2 & -> & ->).
  apply columns_from_app in Hc as (m & _ & <- & _ & Hc).
  rewrite lookup_app_r in Hj by lia. rewrite lookup_cons_ne_0 in Hj by lia.
  apply list_elem_of_split_length in Hj as (c3 & c4 & -> & _).
  apply columns_from_app in Hc as (m' & H1 & <- & _). apply columns_from_le in H1. lia.
Qed.

(** The columns [add_column] builds. *)
Definition add_columns (specs : list (bytes * column_type * Z)) : list TableColumn * Z :=
  fold_left (λ acc s, add_column acc.1 acc.2 s.1.1 s.1.2 s.2) specs ([], 0).

Definition spec_ok (s : bytes * column_type * Z) : Prop := 0 <= s.2 < 2 ^ 31.

Lemma new_column_size n ty sz i : spec_ok (n, ty, sz) →
  0 <= csize (new_column n ty sz i) < 2 ^ 32 ∧
  match ty with TYPE_STRING => csize (new_column n ty sz i) = sz + 4
              | _ => csize (new_column n ty sz i) = 8 end.
Proof.
  unfold spec_ok; cbn. intros Hs. unfold sizeof_TableStringLength.
  destruct ty; cbn; rewrite ?u32_small by lia; lia.
Qed.

Lemma add_columns_spec specs :
  Forall spec_ok specs → zlen specs <= 1000000 →
  let '(cols, sz) := add_columns specs in
  columns_from 0 cols sz ∧ 0 <= sz <= zlen specs * 2 ^ 32 ∧
  Forall (λ c, match ctype c with TYPE_STRING => 4 <= csize c < 2 ^ 32 | _ => csize c = 8 end) cols.
Proof.
  unfold add_columns. induction specs as [|[[n ty] sz] specs IH] using rev_ind.
  { intros _ _. cbn [fold_left]. split; [done|]. split; [unfold zlen; simpl length; lia|constructor]. }
  intros [Hs Hs1]%Forall_app Hlen. apply Forall_cons in Hs1 as [Hs1 _]. rewrite zlen_app in Hlen.
  change (zlen [(n, ty, sz)]) with 1 in Hlen. specialize (IH Hs ltac:(lia)). rewrite fold_left_app. cbn [fold_left].
  destruct (fold_left _ specs ([], 0)) as [cols0 sz0]. destruct IH as (Hc & Hz & Hf).
  cbn [add_column fst snd]. destruct (new_column_size n ty sz sz0 Hs1) as [Hr Hty].
  rewrite u64_small by lia. rewrite zlen_app. change (zlen [(n, ty, sz)]) with 1.
  split; [|split; [lia|]].
  - apply columns_from_app. exists sz0. split; [done|].
    cbn [columns_from]. split; [done|]. split; [lia|done].
  - apply Forall_app. split; [done|]. constructor; [|constructor].
    cbn [ctype new_column]. unfold spec_ok in Hs1. cbn [snd] in Hs1. destruct ty; lia.
Qed.

(** Columns are independent.  In a row of a table declared by any list of
    columns, [set_value] of one column stores the value (a string is cut to the
    declared size) so that [get_value] returns it, stays inside the row, and the
    value of every other column is unchanged. *)
Theorem set_value_independent specs d i j ci cj v :
  Forall spec_ok specs → zlen specs <= 1000000 →
  zlen d = (add_columns specs).2 →
  (add_columns specs).1 !! i = Some ci → (add_columns specs).1 !! j = Some cj → i ≠ j →
  (ctype ci ≠ TYPE_STRING → 8 <= zlen v) →
  ∃ d', set_value d ci (Some v) = Some d' ∧ zlen d' = zlen d ∧
    get_value d' ci = Some (stored ci v) ∧
    ∀ o n, cindex cj <= o → o + n <= cindex cj + csize cj → load d' o n = load d o n.
Proof.
  intros Hs Hl Hd Hi Hj Hne Hv. pose proof (add_columns_spec specs Hs Hl) as Ha.
  destruct (add_columns specs) as [cols sz]. cbn [fst snd] in *. destruct Ha as (Hc & Hz & Hf).
  assert (column_ok d ci) as Hok.
  { pose proof (Forall_lookup_1 _ _ _ _ Hf Hi) as Hty.
    apply list_elem_of_split_length in Hi as (c1 & c2 & -> & _).
    apply columns_from_app in Hc as (m & H1%columns_from_le & H2 & H3 & H4%columns_from_le).
    unfold column_ok. rewrite Hd, H2. repeat split; [lia|lia|done]. }
  destruct (set_value_spec d ci v Hok Hv) as (d' & Hset & Hz' & Hg & Hfr).
  exists d'. split; [done|]. split; [done|]. split; [done|]. intros o n Ho Hon. apply Hfr.
  destruct (decide (i < j)%nat) as [Hlt|Hge].
  - pose proof (columns_disjoint _ _ _ _ _ _ _ Hc Hlt Hi Hj). lia.
  - pose proof (columns_disjoint _ _ _ j i _ _ Hc ltac:(lia) Hj Hi). lia.
Qed.

Lemma set_value_independent_witness :
  let specs := [(lit "id", TYPE_INT, 8); (lit "name", TYPE_STRING, 5)] in
  ∃ d', set_value (repeat 0 17) (MkColumn TYPE_STRING 9 (lit "name") 8) (Some (lit "openswoole"))
        = Some d' ∧ zlen d' = 17 ∧
    get_value d' (MkColumn TYPE_STRING 9 (lit "name") 8) = Some (lit "opens") ∧
    ∀ o n, 0 <= o → o + n <= 0 + 8 → load d' o n = load (repeat 0 17) o n.
Proof.
  intros specs.
  apply (set_value_independent specs (repeat 0 17) 1 0 (MkColumn TYPE_STRING 9 (lit "name") 8)
           (MkColumn TYPE_INT 8 (lit "id") 0) (lit "openswoole")); try done.
  - repeat constructor; unfold spec_ok; cbn; lia.
Defined.
