(* ===== verification/Base64.v ===== *)
(** * Base64: src/protocol/base64.cc

    Input is read with bounds checks ([None] past the end); the output buffer is
    the bytes written so far, with [cur] the cell [out[j]] under construction
    ([None] while nothing was stored in it). *)

From S2P Require Import Prelude.

Definition base64en : bytes :=
  lit "ABCDEFGHIJKLMNOPQRSTUVWXYZabcdefghijklmnopqrstuvwxyz0123456789+/".

Definition BASE64_PAD : Z := 61.
Definition BASE64DE_FIRST : Z := 43.
Definition BASE64DE_LAST : Z := 122.

Definition base64de : list Z :=
  [62; -1; -1; -1; 63; 52; 53; 54;
   55; 56; 57; 58; 59; 60; 61; -1;
   -1; -1; -1; -1; -1; -1; 0; 1;
   2; 3; 4; 5; 6; 7; 8; 9;
   10; 11; 12; 13; 14; 15; 16; 17;
   18; 19; 20; 21; 22; 23; 24; 25;
   -1; -1; -1; -1; -1; -1; 26; 27;
   28; 29; 30; 31; 32; 33; 34; 35;
   36; 37; 38; 39; 40; 41; 42; 43;
   44; 45; 46; 47; 48; 49; 50; 51].

Definition BASE64_ENCODE_OUT_SIZE (s : Z) : Z := (s + 2) / 3 * 4.
Definition BASE64_DECODE_OUT_SIZE (s : Z) : Z := s / 4 * 3.

Definition en (v : Z) : Z := nth (Z.to_nat v) base64en 0.

(** The encoding loop from index [i]; [prev] is [in[i - 1]]. *)
Fixpoint encode_loop (i : nat) (prev : Z) (rest : bytes) : bytes :=
  match rest with
  | [] => []
  | c :: rest =>
    match (i mod 3)%nat with
    | 0%nat => en (Z.land (Z.shiftr c 2) 63) :: encode_loop (S i) c rest
    | 1%nat => en (Z.shiftl (Z.land prev 3) 4 + Z.land (Z.shiftr c 4) 15) :: encode_loop (S i) c rest
    | _ => en (Z.shiftl (Z.land prev 15) 2 + Z.land (Z.shiftr c 6) 3)
           :: en (Z.land c 63) :: encode_loop (S i) c rest
    end
  end.

(** [base64_encode]: the bytes written before the NUL; their number is the return
    value.  [i -= 1] is in [size_t]. *)
Definition base64_encode (inp : bytes) : option bytes :=
  let out := encode_loop 0 0 inp in
  let i := u64 (zlen inp - 1) in
  if i mod 3 =? 0 then
    c ← at_ inp i; Some (out ++ [en (Z.shiftl (Z.land c 3) 4); BASE64_PAD; BASE64_PAD])
  else if i mod 3 =? 1 then
    c ← at_ inp i; Some (out ++ [en (Z.shiftl (Z.land c 15) 2); BASE64_PAD])
  else Some out.

(** [out[j] += x] on a [char]. *)
Definition add_cell (cur : option Z) (x : Z) : option Z := c ← cur; Some (u8 (c + x)).

(** The decoding loop: [Some None] is the early [return 0]. *)
Fixpoint decode_loop (inp : bytes) (i : nat) (rest out : bytes) (cur : option Z) :
    option (option bytes) :=
  match rest with
  | [] => Some (Some out)
  | ch :: rest =>
    if ch =? BASE64_PAD then Some (Some out) else
    if (i8 ch <? BASE64DE_FIRST) || (i8 ch >? BASE64DE_LAST) then Some None else
    let c := nth (Z.to_nat (ch - BASE64DE_FIRST)) base64de 0 in
    if c =? -1 then Some None else
    let inlen := zlen inp in
    match (i mod 4)%nat with
    | 0%nat => decode_loop inp (S i) rest out (Some (u8 (Z.shiftl c 2)))
    | 1%nat =>
      b ← add_cell cur (Z.land (Z.shiftr c 4) 3);
      cur ← (if Z.of_nat i <? u64 (inlen - 3) then Some (Some (u8 (Z.shiftl (Z.land c 15) 4)))
             else p ← at_ inp (inlen - 2);
                  Some (if p =? BASE64_PAD then None else Some (u8 (Z.shiftl (Z.land c 15) 4))));
      decode_loop inp (S i) rest (out ++ [b]) cur
    | 2%nat =>
      b ← add_cell cur (Z.land (Z.shiftr c 2) 15);
      cur ← (if Z.of_nat i <? u64 (inlen - 2) then Some (Some (u8 (Z.shiftl (Z.land c 3) 6)))
             else p ← at_ inp (inlen - 1);
                  Some (if p =? BASE64_PAD then None else Some (u8 (Z.shiftl (Z.land c 3) 6))));
      decode_loop inp (S i) rest (out ++ [b]) cur
    | _ =>
      b ← add_cell cur c;
      decode_loop inp (S i) rest (out ++ [b]) None
    end
  end.

(** [base64_decode]: the decoded bytes, none when a character is invalid. *)
Definition base64_decode (inp : bytes) : option bytes :=
  r ← decode_loop inp 0 inp [] None;
  Some (default [] r).

(** ** The tables are inverse *)

Definition de (ch : Z) : Z := nth (Z.to_nat (ch - BASE64DE_FIRST)) base64de 0.

Definition en_ok (v : Z) : bool :=
  negb (en v =? BASE64_PAD) && (BASE64DE_FIRST <=? i8 (en v)) && (i8 (en v) <=? BASE64DE_LAST)
  && (de (en v) =? v).

Lemma en_table : Forall (λ v, en_ok (Z.of_nat v) = true) (seq 0 64).
Proof. apply (bool_decide_unpack _). by vm_compute. Qed.

Lemma en_spec v :
  0 <= v < 64 → en v ≠ BASE64_PAD ∧ (i8 (en v) <? BASE64DE_FIRST) = false ∧
    (i8 (en v) >? BASE64DE_LAST) = false ∧ de (en v) = v.
Proof.
  intros Hv. pose proof (Forall_lookup_1 _ _ (Z.to_nat v) (Z.to_nat v) en_table) as H.
  rewrite lookup_seq_lt in H by lia. specialize (H eq_refl). rewrite Z2Nat.id in H by lia.
  unfold en_ok in H. rewrite !andb_true_iff, negb_true_iff, Z.eqb_neq, !Z.leb_le, Z.eqb_eq in H.
  rewrite Z.gtb_ltb, !Z.ltb_ge. naive_solver lia.
Qed.

(** ** Round trip *)

(** The bit operations of the two loops as arithmetic. *)
Lemma land_3 x : Z.land x 3 = x mod 4.
Proof. by apply (Z.land_ones x 2). Qed.
Lemma land_15 x : Z.land x 15 = x mod 16.
Proof. by apply (Z.land_ones x 4). Qed.
Lemma land_63 x : Z.land x 63 = x mod 64.
Proof. by apply (Z.land_ones x 6). Qed.

Ltac bits :=
  rewrite ?land_3, ?land_15, ?land_63, ?Z.shiftr_div_pow2, ?Z.shiftl_mul_pow2 in * by lia;
  change (2 ^ 2) with 4 in *; change (2 ^ 4) with 16 in *; change (2 ^ 6) with 64 in *.

(** The decoder on one character of the alphabet. *)
Lemma decode_char inp i v rest out cur :
  0 <= v < 64 →
  decode_loop inp i (en v :: rest) out cur =
    let inlen := zlen inp in
    match (i mod 4)%nat with
    | 0%nat => decode_loop inp (S i) rest out (Some (u8 (Z.shiftl v 2)))
    | 1%nat =>
      b ← add_cell cur (Z.land (Z.shiftr v 4) 3);
      cur ← (if Z.of_nat i <? u64 (inlen - 3) then Some (Some (u8 (Z.shiftl (Z.land v 15) 4)))
             else p ← at_ inp (inlen - 2);
                  Some (if p =? BASE64_PAD then None else Some (u8 (Z.shiftl (Z.land v 15) 4))));
      decode_loop inp (S i) rest (out ++ [b]) cur
    | 2%nat =>
      b ← add_cell cur (Z.land (Z.shiftr v 2) 15);
      cur ← (if Z.of_nat i <? u64 (inlen - 2) then Some (Some (u8 (Z.shiftl (Z.land v 3) 6)))
             else p ← at_ inp (inlen - 1);
                  Some (if p =? BASE64_PAD then None else Some (u8 (Z.shiftl (Z.land v 3) 6))));
      decode_loop inp (S i) rest (out ++ [b]) cur
    | _ =>
      b ← add_cell cur v;
      decode_loop inp (S i) rest (out ++ [b]) None
    end.
Proof.
  intros Hv. destruct (en_spec v Hv) as (Hp & H1 & H2 & Hd). cbn [decode_loop].
  rewrite (proj2 (Z.eqb_neq _ _)) by done. rewrite H1, H2. cbn [orb].
  fold (de (en v)). rewrite Hd, (proj2 (Z.eqb_neq _ _)) by lia. done.
Qed.

Definition v0 (a : Z) : Z := Z.land (Z.shiftr a 2) 63.
Definition v1 (a b : Z) : Z := Z.shiftl (Z.land a 3) 4 + Z.land (Z.shiftr b 4) 15.
Definition v2 (b c : Z) : Z := Z.shiftl (Z.land b 15) 2 + Z.land (Z.shiftr c 6) 3.
Definition v3 (c : Z) : Z := Z.land c 63.

Lemma v_range a b c :
  is_byte a → is_byte b → is_byte c →
  0 <= v0 a < 64 ∧ 0 <= v1 a b < 64 ∧ 0 <= v2 b c < 64 ∧ 0 <= v3 c < 64 ∧
  u8 (u8 (Z.shiftl (v0 a) 2) + Z.land (Z.shiftr (v1 a b) 4) 3) = a ∧
  u8 (u8 (Z.shiftl (Z.land (v1 a b) 15) 4) + Z.land (Z.shiftr (v2 b c) 2) 15) = b ∧
  u8 (u8 (Z.shiftl (Z.land (v2 b c) 3) 6) + v3 c) = c.
Proof.
  unfold is_byte, v0, v1, v2, v3, u8, wrap. intros Ha Hb Hc. change (2 ^ 8) with 256. bits.
  repeat split; zdiv.
Qed.

Lemma at_app_r (l1 l2 : bytes) i :
  zlen l1 <= i → at_ (l1 ++ l2) i = at_ l2 (i - zlen l1).
Proof.
  unfold at_, zlen. intros Hi. rewrite !(proj2 (Z.leb_le _ _)) by lia.
  rewrite lookup_app_r by lia. f_equal. lia.
Qed.

(** A full group of four characters. *)
Lemma decode_group pre a b c rest out cur :
  is_byte a → is_byte b → is_byte c → (length pre mod 4 = 0)%nat → zlen pre < 2 ^ 62 →
  zlen rest < 2 ^ 62 →
  let grp := [en (v0 a); en (v1 a b); en (v2 b c); en (v3 c)] in
  let inp := pre ++ grp ++ rest in
  decode_loop inp (length pre) (grp ++ rest) out cur
  = decode_loop inp (length pre + 4) rest (out ++ [a; b; c]) None.
Proof.
  intros Ha Hb Hc Hm Hp Hr grp inp. destruct (v_range a b c Ha Hb Hc) as (H0&H1&H2&H3&Ea&Eb&Ec).
  assert (zlen inp = zlen pre + 4 + zlen rest) as Hz by (subst inp grp; zl).
  pose proof (zlen_nonneg rest). pose proof (zlen_nonneg pre).
  pose proof (Nat.Div0.div_mod (length pre) 4) as Hd. set (q := (length pre / 4)%nat) in *.
  assert (∀ j, (j < 4)%nat → ((length pre + j) mod 4 = j)%nat) as Hmod.
  { intros j Hj. replace (length pre + j)%nat with (j + q * 4)%nat by lia.
    rewrite Nat.Div0.mod_add. by apply Nat.mod_small. }
  pose proof (Hmod 1%nat ltac:(lia)) as M1. pose proof (Hmod 2%nat ltac:(lia)) as M2.
  pose proof (Hmod 3%nat ltac:(lia)) as M3. rewrite Nat.add_comm in M1, M2, M3. cbn [Nat.add] in *.
  unfold grp. cbn [app]. rewrite (decode_char _ _ (v0 a)) by done. cbv zeta. rewrite Hm.
  rewrite (decode_char _ _ (v1 a b)) by done. cbv zeta. rewrite M1. cbn [add_cell mbind option_bind].
  rewrite Ea.
  assert ((if Z.of_nat (S (length pre)) <? u64 (zlen inp - 3)
    then Some (Some (u8 (Z.shiftl (Z.land (v1 a b) 15) 4)))
    else p ← at_ inp (zlen inp - 2);
      Some (if p =? BASE64_PAD then None else Some (u8 (Z.shiftl (Z.land (v1 a b) 15) 4))))
    = Some (Some (u8 (Z.shiftl (Z.land (v1 a b) 15) 4)))) as ->.
  { rewrite u64_small by lia. case_Z; [done|]. unfold zlen in *. 
    assert (rest = []) as -> by (destruct rest; [done|simpl in *; lia]).
    subst inp. unfold zlen in *. rewrite at_app_r by (unfold zlen; lia).
    replace (Z.of_nat (length (pre ++ grp ++ [])) - 2 - zlen pre) with 2 by (unfold zlen; lia).
    cbn [mbind option_bind]. unfold grp. cbn [app].
    change (at_ [en (v0 a); en (v1 a b); en (v2 b c); en (v3 c)] 2) with (Some (en (v2 b c))).
    cbn [mbind option_bind]. destruct (en_spec _ H2) as [Hne _].
    by rewrite (proj2 (Z.eqb_neq _ _)). }
  cbn [mbind option_bind]. rewrite (decode_char _ _ (v2 b c)) by done. cbv zeta. rewrite M2.
  cbn [add_cell mbind option_bind]. rewrite Eb.
  assert ((if Z.of_nat (S (S (length pre))) <? u64 (zlen inp - 2)
    then Some (Some (u8 (Z.shiftl (Z.land (v2 b c) 3) 6)))
    else p ← at_ inp (zlen inp - 1);
      Some (if p =? BASE64_PAD then None else Some (u8 (Z.shiftl (Z.land (v2 b c) 3) 6))))
    = Some (Some (u8 (Z.shiftl (Z.land (v2 b c) 3) 6)))) as ->.
  { rewrite u64_small by lia. case_Z; [done|]. unfold zlen in *.
    assert (rest = []) as -> by (destruct rest; [done|simpl in *; lia]).
    subst inp. unfold zlen in *. rewrite at_app_r by (unfold zlen; lia).
    replace (Z.of_nat (length (pre ++ grp ++ [])) - 1 - zlen pre) with 3 by (unfold zlen; lia).
    unfold grp. cbn [app].
    change (at_ [en (v0 a); en (v1 a b); en (v2 b c); en (v3 c)] 3) with (Some (en (v3 c))).
    cbn [mbind option_bind]. destruct (en_spec _ H3) as [Hne _].
    by rewrite (proj2 (Z.eqb_neq _ _)). }
  cbn [mbind option_bind]. rewrite (decode_char _ _ (v3 c)) by done. cbv zeta. rewrite M3.
  cbn [add_cell mbind option_bind]. rewrite Ec, <- !(assoc_L (++)). cbn [app].
  f_equal. lia.
Qed.

(** Induction over groups of three bytes. *)
Lemma group_ind (Q : bytes → Prop) :
  Q [] → (∀ a, Q [a]) → (∀ a b, Q [a; b]) → (∀ a b c l, Q l → Q (a :: b :: c :: l)) → ∀ l, Q l.
Proof.
  intros H0 H1 H2 H3 l. assert (Q l ∧ (∀ a, Q (a :: l)) ∧ ∀ a b, Q (a :: b :: l)) as [? _]; [|done].
  induction l as [|x l (IH0 & IH1 & IH2)]; auto 10.
Qed.

(** Reference encoder, group by group. *)
Fixpoint enc_ref (data : bytes) : bytes :=
  match data with
  | a :: b :: c :: rest => [en (v0 a); en (v1 a b); en (v2 b c); en (v3 c)] ++ enc_ref rest
  | [a; b] => [en (v0 a); en (v1 a b); en (v2 b 0); BASE64_PAD]
  | [a] => [en (v0 a); en (v1 a 0); BASE64_PAD; BASE64_PAD]
  | [] => []
  end.

Fixpoint pad_ref (data : bytes) : bytes :=
  match data with
  | a :: b :: c :: rest => pad_ref rest
  | [a; b] => [en (v2 b 0); BASE64_PAD]
  | [a] => [en (v1 a 0); BASE64_PAD; BASE64_PAD]
  | [] => []
  end.

Lemma encode_loop_ref data i prev :
  (i mod 3 = 0)%nat → encode_loop i prev data ++ pad_ref data = enc_ref data.
Proof.
  revert data i prev. refine (group_ind _ _ _ _ _); [done|..].
  - intros a i prev Hi. cbn [encode_loop pad_ref enc_ref app]. by rewrite Hi.
  - intros a b i prev Hi. cbn [encode_loop pad_ref enc_ref app].
    assert (S i mod 3 = 1)%nat as H1 by ndiv. by rewrite Hi, H1.
  - intros a b c l IH i prev Hi. cbn [encode_loop pad_ref enc_ref app].
    assert (S i mod 3 = 1)%nat as H1 by ndiv. assert (S (S i) mod 3 = 2)%nat as H2 by ndiv.
    rewrite Hi, H1, H2. cbn [app]. do 4 f_equal. apply IH. ndiv.
Qed.

Lemma v1_0 a : Z.shiftl (Z.land a 3) 4 = v1 a 0.
Proof. unfold v1. simpl. by rewrite Z.add_0_r. Qed.
Lemma v2_0 b : Z.shiftl (Z.land b 15) 2 = v2 b 0.
Proof. unfold v2. simpl. by rewrite Z.add_0_r. Qed.

(** The padding [base64_encode] appends depends on the last byte only. *)
Lemma pad_spec data out :
  data ≠ [] →
  (if (zlen data - 1) mod 3 =? 0 then
     c ← at_ data (zlen data - 1);
     Some (out ++ [en (Z.shiftl (Z.land c 3) 4); BASE64_PAD; BASE64_PAD])
   else if (zlen data - 1) mod 3 =? 1 then
     c ← at_ data (zlen data - 1); Some (out ++ [en (Z.shiftl (Z.land c 15) 2); BASE64_PAD])
   else Some out) = Some (out ++ pad_ref data).
Proof.
  revert data. refine (group_ind _ _ _ _ _); [done|..].
  - intros a _. change (zlen [a] - 1) with 0. cbn [at_ Z.to_nat lookup list_lookup]. simpl.
    by rewrite v1_0.
  - intros a b _. change (zlen [a; b] - 1) with 1. change (1 mod 3 =? 0) with false.
    change (1 mod 3 =? 1) with true. simpl. by rewrite v2_0.
  - intros a b c l IH _. cbn [pad_ref]. rewrite !zlen_cons.
    destruct l as [|d l].
    { simpl. by rewrite app_nil_r. }
    rewrite <- (IH ltac:(done)). pose proof (zlen_nonneg l) as Hl.
    replace ((1 + (1 + (1 + zlen (d :: l))) - 1) mod 3) with ((zlen (d :: l) - 1) mod 3) by zdiv.
    assert (at_ (a :: b :: c :: d :: l) (1 + (1 + (1 + zlen (d :: l))) - 1)
            = at_ (d :: l) (zlen (d :: l) - 1)) as ->; [|done].
    rewrite (at_app_r [a; b; c] (d :: l)) by (rewrite !zlen_cons, zlen_nil; lia).
    f_equal. change (zlen [a; b; c]) with 3. lia.
Qed.

Lemma base64_encode_ref data :
  data ≠ [] → zlen data < 2 ^ 64 → base64_encode data = Some (enc_ref data).
Proof.
  intros Hne Hl. unfold base64_encode.
  assert (0 < zlen data) by (destruct data; [done|rewrite zlen_cons; pose proof (zlen_nonneg data); lia]).
  rewrite u64_small by lia. rewrite pad_spec by done. by rewrite encode_loop_ref.
Qed.

Lemma enc_ref_length data : zlen (enc_ref data) = BASE64_ENCODE_OUT_SIZE (zlen data).
Proof.
  unfold BASE64_ENCODE_OUT_SIZE. revert data. refine (group_ind _ _ _ _ _); try done.
  intros a b c l IH. cbn [enc_ref]. rewrite zlen_app, IH, !zlen_cons, zlen_nil. zdiv.
Qed.

Lemma decode_ref data : ∀ pre out cur,
  is_bytes data → (length pre mod 4 = 0)%nat → zlen pre + 2 * zlen data < 2 ^ 60 →
  decode_loop (pre ++ enc_ref data) (length pre) (enc_ref data) out cur = Some (Some (out ++ data)).
Proof.
  revert data. refine (group_ind _ _ _ _ _).
  - intros. cbn [enc_ref decode_loop]. by rewrite (app_nil_r out).
  - intros a pre out cur Hb Hm Hl. apply Forall_cons in Hb as [Ha _].
    assert (is_byte 0) as Hz by (unfold is_byte; lia).
    destruct (v_range a 0 0 Ha Hz Hz) as (H0&H1&_&_&Ea&_). cbn [enc_ref]. pose proof (zlen_nonneg pre).
    rewrite (decode_char _ _ (v0 a)) by done. cbv zeta. rewrite Hm.
    rewrite (decode_char _ _ (v1 a 0)) by done. cbv zeta.
    assert (S (length pre) mod 4 = 1)%nat as -> by ndiv. cbn [add_cell mbind option_bind]. rewrite Ea.
    rewrite zlen_app. change (zlen [en (v0 a); en (v1 a 0); BASE64_PAD; BASE64_PAD]) with 4.
    change (zlen [a]) with 1 in Hl.
    rewrite u64_small, (proj2 (Z.ltb_ge _ _)) by (unfold zlen in *; lia).
    rewrite at_app_r by lia. replace (zlen pre + 4 - 2 - zlen pre) with 2 by lia.
    change (at_ [en (v0 a); en (v1 a 0); BASE64_PAD; BASE64_PAD] 2) with (Some BASE64_PAD).
    cbn [mbind option_bind decode_loop]. done.
  - intros a b pre out cur Hb Hm Hl. apply Forall_cons in Hb as [Ha [Hb _]%Forall_cons].
    assert (is_byte 0) as Hz by (unfold is_byte; lia).
    destruct (v_range a b 0 Ha Hb Hz) as (H0&H1&H2&_&Ea&Eb&_). cbn [enc_ref].
    pose proof (zlen_nonneg pre). change (zlen [a; b]) with 2 in Hl.
    rewrite (decode_char _ _ (v0 a)) by done. cbv zeta. rewrite Hm.
    rewrite (decode_char _ _ (v1 a b)) by done. cbv zeta.
    assert (S (length pre) mod 4 = 1)%nat as -> by ndiv. cbn [add_cell mbind option_bind]. rewrite Ea.
    rewrite zlen_app. change (zlen [en (v0 a); en (v1 a b); en (v2 b 0); BASE64_PAD]) with 4.
    rewrite !u64_small, (proj2 (Z.ltb_ge _ _)) by (unfold zlen in *; lia).
    rewrite at_app_r by lia. replace (zlen pre + 4 - 2 - zlen pre) with 2 by lia.
    change (at_ [en (v0 a); en (v1 a b); en (v2 b 0); BASE64_PAD] 2) with (Some (en (v2 b 0))).
    cbn [mbind option_bind]. destruct (en_spec _ H2) as [Hne _].
    rewrite (proj2 (Z.eqb_neq _ _)) by done.
    rewrite (decode_char _ _ (v2 b 0)) by done. cbv zeta.
    assert (S (S (length pre)) mod 4 = 2)%nat as -> by ndiv. cbn [add_cell mbind option_bind].
    rewrite Eb, zlen_app. change (zlen [en (v0 a); en (v1 a b); en (v2 b 0); BASE64_PAD]) with 4.
    rewrite !u64_small, (proj2 (Z.ltb_ge _ _)) by (unfold zlen in *; lia).
    rewrite at_app_r by lia. replace (zlen pre + 4 - 1 - zlen pre) with 3 by lia.
    change (at_ [en (v0 a); en (v1 a b); en (v2 b 0); BASE64_PAD] 3) with (Some BASE64_PAD).
    cbn [mbind option_bind decode_loop]. by rewrite <- (assoc_L (++)).
  - intros a b c l IH pre out cur Hb Hm Hl.
    apply Forall_cons in Hb as [Ha Hb]. apply Forall_cons in Hb as [Hb Hc].
    apply Forall_cons in Hc as [Hc Hb']. rewrite !zlen_cons in Hl. pose proof (zlen_nonneg pre).
    pose proof (zlen_nonneg l).
    assert (zlen (enc_ref l) < 2 ^ 62).
    { rewrite enc_ref_length. unfold BASE64_ENCODE_OUT_SIZE. zdiv. }
    cbn [enc_ref]. rewrite decode_group by (done || lia).
    rewrite (assoc_L (++) pre). specialize (IH (pre ++ [en (v0 a); en (v1 a b); en (v2 b c); en (v3 c)])).
    rewrite length_app in IH. cbn [length] in IH. rewrite IH; [by rewrite <- (assoc_L (++))|done| |].
    + ndiv.
    + rewrite zlen_app. change (zlen [en (v0 a); en (v1 a b); en (v2 b c); en (v3 c)]) with 4. lia.
Qed.

(** C21: Base64 round trip.  For every non-empty byte string the encoder writes
    exactly [BASE64_ENCODE_OUT_SIZE] characters and the decoder returns the
    original bytes. *)
Theorem base64_roundtrip data :
  is_bytes data → data ≠ [] → zlen data < 2 ^ 58 →
  ∃ enc, base64_encode data = Some enc ∧ zlen enc = BASE64_ENCODE_OUT_SIZE (zlen data) ∧
    base64_decode enc = Some data.
Proof.
  intros Hb Hne Hl. exists (enc_ref data). split; [apply base64_encode_ref; [done|lia]|].
  split; [apply enc_ref_length|]. unfold base64_decode.
  rewrite (decode_ref data [] []); [done|done|done|]. rewrite zlen_nil. lia.
Qed.

Lemma base64_roundtrip_witness :
  base64_encode (lit "hello") = Some (lit "aGVsbG8=") ∧
  ∃ enc, base64_encode [255; 0; 128; 7] = Some enc ∧
    zlen enc = 8 ∧ base64_decode enc = Some [255; 0; 128; 7].
Proof.
  split; [done|]. apply (base64_roundtrip [255; 0; 128; 7]); [|done|done].
  repeat constructor; unfold is_byte; lia.
Defined.

(** The empty input.  [i -= 1] wraps to SIZE_MAX, which is a multiple of
    three, and the encoder reads [in[SIZE_MAX]]. *)
Theorem base64_encode_empty_faults : base64_encode [] = None.
Proof.
  unfold base64_encode. change (u64 (zlen [] - 1)) with 18446744073709551615.
  change (18446744073709551615 mod 3 =? 0) with true. unfold at_. by rewrite lookup_nil.
Qed.
