(* ===== verification/SwString.v ===== *)
(** * The growable buffer [String]: src/core/string.cc, include/openswoole_string.h
      (and the search of include/openswoole.h)

    [str] is the allocated block, as long as [size]; the first [length] bytes are
    the contents.  [fresh n] is what a newly allocated area of [n] bytes contains;
    no theorem depends on it.  [None] is a failed [assert] or an access outside
    the block; running out of memory ([std::bad_alloc]) is not modelled. *)

From S2P Require Import Prelude.

(** ** [openswoole_strnstr] *)

(** The scan: [haystack] advances by one, at most [iters] times. *)
Fixpoint strnstr_loop (iters : nat) (haystack needle : bytes) (pos : Z) : option Z :=
  match iters with
  | O => None
  | S iters =>
    if bool_decide (take (length needle) haystack = needle) then Some pos
    else strnstr_loop iters (tl haystack) needle (pos + 1)
  end.

(** The offset of the first occurrence. *)
Definition openswoole_strnstr (haystack needle : bytes) : option (option Z) :=
  if zlen needle =? 0 then None (* assert *) else
  Some (if zlen needle <=? zlen haystack
        then strnstr_loop (length haystack - length needle + 1) haystack needle 0
        else None).

Definition openswoole_strnpos (haystack needle : bytes) : option Z :=
  p ← openswoole_strnstr haystack needle; Some (default (-1) p).

(** [openswoole_strrnpos]: the loop from [length - needle_length] down to 1. *)
Fixpoint strrnpos_loop (i : nat) (haystack needle : bytes) : Z :=
  match i with
  | O => -1
  | S i' =>
    if bool_decide (take (length needle) (drop i haystack) = needle) then Z.of_nat i
    else strrnpos_loop i' haystack needle
  end.

Definition openswoole_strrnpos (haystack needle : bytes) : Z :=
  strrnpos_loop (length haystack - length needle) haystack needle.

(** ** The buffer *)

Record String := MkString { s_length : Z; s_size : Z; s_offset : Z; s_str : bytes }.

Section String.
Variable fresh : nat → bytes.

(** [String::alloc]. *)
Definition alloc (size : Z) : String :=
  let size := OSW_MEM_ALIGNED_SIZE size in
  MkString 0 size 0 (fresh (Z.to_nat size)).

Definition make_string (size : Z) : String := alloc size.

(** [String(const char *, size_t)]. *)
Definition string_of (data : bytes) : option String :=
  let s := alloc (zlen data) in
  m ← store (s_str s) 0 data; Some (MkString (zlen data) (s_size s) (s_offset s) m).

Definition realloc (m : bytes) (new_size : Z) : bytes :=
  take (Z.to_nat new_size) (m ++ fresh (Z.to_nat new_size - length m)).

Definition reserve (s : String) (new_size : Z) : String :=
  if s_size s =? 0 then alloc new_size
  else
    let new_size := OSW_MEM_ALIGNED_SIZE new_size in
    MkString (s_length s) new_size (s_offset s) (realloc (s_str s) new_size).

Definition append (s : String) (data : bytes) : option String :=
  let new_size := u64 (s_length s + zlen data) in
  let s := if new_size >? s_size s then reserve s new_size else s in
  m ← store (s_str s) (s_length s) data;
  Some (MkString (u64 (s_length s + zlen data)) (s_size s) (s_offset s) m).

Fixpoint append_times (n : nat) (s : String) (data : bytes) : option String :=
  match n with
  | O => Some s
  | S n => s ← append s data; append_times n s data
  end.

(** [String::repeat]: the returned flag and the buffer. *)
Definition repeat_ (s : String) (data : bytes) (n : Z) : option (bool * String) :=
  if n <=? 0 then Some (false, s) else
  if zlen data =? 1 then
    let s := if s_size s <? s_length s + n then reserve s (s_length s + n) else s in
    c ← at_ data 0;
    m ← store (s_str s) (s_length s) (replicate (Z.to_nat n) c);
    Some (true, MkString (s_length s + n) (s_size s) (s_offset s) m)
  else s ← append_times (Z.to_nat n) s data; Some (true, s).

(** [String::pop]: the old block and the buffer with a new one. *)
Definition pop (s : String) (init_size : Z) : option (bytes * String) :=
  if s_length s <? s_offset s then None (* assert *) else
  let _length := s_length s - s_offset s in
  let alloc_size := OSW_MEM_ALIGNED_SIZE
    (if _length =? 0 then init_size else Z.max _length init_size) in
  let new_val := fresh (Z.to_nat alloc_size) in
  new_val ← (if 0 <? _length then d ← load (s_str s) (s_offset s) _length; store new_val 0 d
             else Some new_val);
  Some (s_str s, MkString _length alloc_size 0 new_val).

Definition reduce (s : String) (_offset : Z) : option String :=
  if negb ((0 <=? _offset) && (_offset <=? s_length s)) then None (* assert *) else
  if _offset =? 0 then Some s else
  let length := s_length s - _offset in
  if length =? 0 then Some (MkString length (s_size s) 0 (s_str s)) else
  d ← load (s_str s) _offset length;
  m ← store (s_str s) 0 d;
  Some (MkString length (s_size s) 0 m).

Definition clear (s : String) : String := MkString 0 (s_size s) 0 (s_str s).

Definition extend (s : String) (new_size : Z) : option String :=
  if s_size s <? new_size then Some (reserve s new_size) else None (* assert *).

Definition grow (s : String) (incr_value : Z) : String :=
  let s := MkString (s_length s + incr_value) (s_size s) (s_offset s) (s_str s) in
  if s_length s =? s_size s then reserve s (s_size s * 2) else s.

(** [openswoole_size_align] with the page size. *)
Definition openswoole_size_align (size pagesize : Z) : Z := size + (pagesize - size mod pagesize).

Definition write (pagesize : Z) (s : String) (_offset : Z) (data : bytes) : option String :=
  let new_length := u64 (_offset + zlen data) in
  let s := if new_length >? s_size s
           then reserve s (openswoole_size_align (new_length * 2) pagesize) else s in
  m ← store (s_str s) _offset data;
  Some (MkString (if new_length >? s_length s then new_length else s_length s)
                 (s_size s) (s_offset s) m).

Definition substr (s : String) (offset len : Z) : option (option String) :=
  if offset + len >? s_length s then Some None else
  d ← load (s_str s) offset len; r ← append (alloc len) d; Some (Some r).

Definition contents (s : String) : bytes := take (Z.to_nat (s_length s)) (s_str s).

(** ** [split] *)

Section Split.
Context {St : Type} (handler : St → bytes → bool * St).

(** The [while] loop; [inl] is the early [return -1]. *)
Fixpoint split_loop (n : nat) (s : String) (delimiter : bytes) (_offset : Z) (st : St) :
    option ((String * St) + (String * Z * St)) :=
  match n with
  | O => None
  | S n =>
    h ← load (s_str s) (s_offset s) (s_length s - s_offset s);
    da ← openswoole_strnstr h delimiter;
    match da with
    | None => Some (inr (s, _offset, st))
    | Some pos =>
      let _length := pos + zlen delimiter in
      data ← load (s_str s) (s_offset s - _offset) (_length + _offset);
      let '(ok, st) := handler st data in
      if negb ok then Some (inl (s, st)) else
      split_loop n (MkString (s_length s) (s_size s) (s_offset s + _length) (s_str s))
                 delimiter 0 st
    end
  end.

Definition split (s : String) (delimiter : bytes) (st : St) : option (Z * String * St) :=
  r ← split_loop (S (Z.to_nat (s_length s))) s delimiter (s_offset s) st;
  match r with
  | inl (s, st) => Some (-1, s, st)
  | inr (s', _offset, st) =>
    let ret := s_offset s' - _offset in
    let s' := if _offset =? s_offset s'
              then MkString (s_length s') (s_size s')
                     (i64 (s_length s' - zlen delimiter)) (s_str s')
              else s' in
    Some (ret, s', st)
  end.
End Split.
End String.

(** ** Search *)

(** [d] occurs in [s] at position [i]. *)
Definition occ (d s : bytes) (i : nat) : Prop := take (length d) (drop i s) = d.

Lemma occ_bound d s i : d ≠ [] → occ d s i → (i + length d <= length s)%nat.
Proof.
  intros Hd Ho. unfold occ in Ho. apply (f_equal length) in Ho.
  rewrite length_take, length_drop in Ho.
  assert (0 < length d)%nat by (destruct d; [done|simpl; lia]). lia.
Qed.

Lemma occ_drop d s k i : occ d (drop k s) i ↔ occ d s (k + i).
Proof. unfold occ. by rewrite drop_drop. Qed.

Lemma occ_app_l d s t i : (i + length d <= length s)%nat → occ d (s ++ t) i ↔ occ d s i.
Proof.
  intros Hi. unfold occ. rewrite drop_app_le by lia. rewrite take_app_le; [done|].
  rewrite length_drop. lia.
Qed.

Lemma strnstr_loop_spec n h d pos :
  match strnstr_loop n h d pos with
  | Some p => ∃ i, (i < n)%nat ∧ p = pos + Z.of_nat i ∧ occ d h i ∧ ∀ j, (j < i)%nat → ¬ occ d h j
  | None => ∀ j, (j < n)%nat → ¬ occ d h j
  end.
Proof.
  revert h pos. induction n as [|n IH]; intros h pos; cbn [strnstr_loop]; [lia|].
  case_bool_decide as Ho.
  { exists 0%nat. repeat split; [lia|lia|by unfold occ|lia]. }
  assert (∀ j, occ d (tl h) j → occ d h (S j)) as Htl.
  { intros j Hj. unfold occ in *. by destruct h; [rewrite drop_nil in *|]. }
  assert (∀ j, occ d h (S j) → occ d (tl h) j) as Htl'.
  { intros j Hj. unfold occ in *. by destruct h; [rewrite drop_nil in *|]. }
  specialize (IH (tl h) (pos + 1)). destruct (strnstr_loop n (tl h) d (pos + 1)) as [p|].
  - destruct IH as (i & Hi & -> & Hoi & Hmin). exists (S i). repeat split; [lia|lia|auto|].
    intros [|j] Hj; [done|]. intros Hc%Htl'. by apply (Hmin j); [lia|].
  - intros [|j] Hj; [done|]. intros Hc%Htl'. by apply (IH j); [lia|].
Qed.

(** The first occurrence, or none anywhere. *)
Lemma strnstr_spec h d :
  d ≠ [] → ∃ r, openswoole_strnstr h d = Some r ∧
    match r with
    | Some p => ∃ i, p = Z.of_nat i ∧ occ d h i ∧ ∀ j, (j < i)%nat → ¬ occ d h j
    | None => ∀ j, ¬ occ d h j
    end.
Proof.
  intros Hd. unfold openswoole_strnstr.
  rewrite (proj2 (Z.eqb_neq _ _)) by (destruct d; [done|]; rewrite zlen_cons; pose proof (zlen_nonneg d); lia).
  eexists. split; [done|]. destruct (Z.leb_spec (zlen d) (zlen h)) as [Hle|Hgt].
  - pose proof (strnstr_loop_spec (length h - length d + 1) h d 0) as Hs.
    destruct (strnstr_loop _ _ _ _) as [p|].
    + destruct Hs as (i & _ & -> & Ho & Hm). by exists i.
    + intros j Hj. pose proof (occ_bound _ _ _ Hd Hj). apply (Hs j); [lia|done].
  - intros j Hj%occ_bound; [|done]. unfold zlen in Hgt. lia.
Qed.

(** ** Contents *)

Definition wf (s : String) : Prop :=
  0 <= s_length s <= s_size s ∧ s_size s = zlen (s_str s) ∧ s_size s < 2 ^ 62 ∧
  (s_size s = 0 → s_offset s = 0).

Lemma contents_zlen s : wf s → zlen (contents s) = s_length s.
Proof.
  intros (Hl & Hz & _). unfold contents, zlen in *. rewrite length_take. lia.
Qed.

Lemma store_contents s data m :
  wf s → store (s_str s) (s_length s) data = Some m →
  take (Z.to_nat (s_length s + zlen data)) m = contents s ++ data.
Proof.
  intros (Hl & Hz & _) (_ & Hb & ->)%store_is_Some. unfold contents, zlen in *.
  rewrite (assoc_L (++)), take_app_le by (rewrite length_app, length_take; lia).
  apply take_ge. rewrite length_app, length_take. lia.
Qed.

Section StringProofs.
Variable fresh : nat → bytes.
Hypothesis fresh_length : ∀ n, length (fresh n) = n.

Lemma alloc_wf n : 0 <= n < 2 ^ 61 → wf (alloc fresh n) ∧ contents (alloc fresh n) = [] ∧
  n <= s_size (alloc fresh n).
Proof.
  intros Hn. pose proof (aligned_size_bounds n ltac:(lia)) as Ha. unfold alloc, wf, contents. cbn.
  unfold zlen. rewrite fresh_length. repeat split; lia.
Qed.

Lemma reserve_spec s n :
  wf s → s_length s <= n → 0 < n < 2 ^ 61 →
  let s' := reserve fresh s n in
  wf s' ∧ contents s' = contents s ∧ s_offset s' = s_offset s ∧ s_length s' = s_length s ∧
  n <= s_size s'.
Proof.
  intros Hw Hle Hn. pose proof Hw as (Hl & Hz & Hb & Ho). unfold reserve.
  destruct (Z.eqb_spec (s_size s) 0) as [E|E].
  - destruct (alloc_wf n ltac:(lia)) as (? & Hc & ?). assert (s_length s = 0) as Hl0 by lia.
    split; [done|]. split; [|split; [by rewrite Ho|done]].
    rewrite Hc. unfold contents. by rewrite Hl0.
  - pose proof (aligned_size_bounds n ltac:(lia)) as Ha. unfold wf, contents, realloc. cbn.
    set (k := OSW_MEM_ALIGNED_SIZE n) in *. unfold zlen in *.
    rewrite length_take, length_app, fresh_length. repeat split; try lia.
    rewrite take_take, Nat.min_l by lia. apply take_app_le. lia.
Qed.

(** [append] appends, growing the block when needed. *)
Lemma append_spec s data :
  wf s → s_length s + zlen data < 2 ^ 61 →
  ∃ s', append fresh s data = Some s' ∧ wf s' ∧ contents s' = contents s ++ data ∧
    s_offset s' = s_offset s ∧ s_length s' = s_length s + zlen data.
Proof.
  intros Hw Hb. pose proof (zlen_nonneg data) as Hd. pose proof Hw as (Hl & Hz & Hs & Ho).
  unfold append. rewrite (u64_small (s_length s + zlen data)) by lia.
  assert (∃ s1, (if s_length s + zlen data >? s_size s then reserve fresh s (s_length s + zlen data) else s)
    = s1 ∧ wf s1 ∧ contents s1 = contents s ∧ s_offset s1 = s_offset s ∧ s_length s1 = s_length s ∧
    s_length s + zlen data <= s_size s1) as (s1 & -> & Hw1 & Hc1 & Ho1 & Hl1 & Hsz1).
  { eexists. split; [done|]. rewrite Z.gtb_ltb. case_Z; [|by split_and!].
    apply reserve_spec; [done|lia|lia]. }
  pose proof Hw1 as (_ & Hz1 & Hb1 & Hoff1). rewrite Hl1.
  destruct (store (s_str s1) (s_length s) data) as [m|] eqn:E.
  2: { rewrite store_Some in E by lia. done. }
  cbn [mbind option_bind]. eexists. split; [done|].
  pose proof (store_length _ _ _ _ E) as Hlm. rewrite u64_small by lia.
  split; [|split; [|done]].
  - unfold wf; cbn. repeat split; try lia; done.
  - unfold contents at 1; cbn [s_length s_str]. rewrite <- Hc1, <- Hl1. apply store_contents; [done|by rewrite Hl1].
Qed.

(** [reduce] drops a prefix of the contents. *)
Lemma reduce_spec s n :
  wf s → 0 < n <= s_length s →
  ∃ s', reduce s n = Some s' ∧ wf s' ∧ contents s' = drop (Z.to_nat n) (contents s) ∧
    s_offset s' = 0 ∧ s_length s' = s_length s - n ∧ s_size s' = s_size s.
Proof.
  intros Hw Hn. pose proof Hw as (Hl & Hz & Hs & Ho). unfold reduce.
  rewrite (proj2 (Z.leb_le 0 n)), (proj2 (Z.leb_le _ _)), (proj2 (Z.eqb_neq n 0)) by lia.
  cbn [andb negb]. destruct (Z.eqb_spec (s_length s - n) 0) as [E|E].
  - eexists. split; [done|]. unfold wf, contents; cbn. rewrite E. repeat split; try lia; try done.
    rewrite drop_ge; [done|]. rewrite length_take. lia.
  - rewrite load_Some by lia. cbn [mbind option_bind].
    set (d := take (Z.to_nat (s_length s - n)) (drop (Z.to_nat n) (s_str s))).
    assert (zlen d = s_length s - n) as Hd.
    { subst d. unfold zlen in *. rewrite length_take, length_drop. lia. }
    destruct (store (s_str s) 0 d) as [m|] eqn:Em.
    2: { rewrite store_Some in Em by lia. done. }
    cbn [mbind option_bind]. eexists. split; [done|].
    pose proof (store_length _ _ _ _ Em) as Hlm. unfold wf, contents; cbn.
    repeat split; try lia; try done.
    apply store_is_Some in Em as (_ & _ & ->). simpl. rewrite take_app_le by (unfold zlen in *; lia).
    rewrite take_ge by (unfold zlen in *; lia). subst d.
    rewrite skipn_firstn_comm. f_equal. lia.
Qed.
End StringProofs.

(** ** Cutting at a delimiter *)

(** [cuts d s ps r]: [s] is cut after every (leftmost, non-overlapping) occurrence
    of [d] into the packages [ps]; [r] is what follows the last one. *)
Inductive cuts (d : bytes) : bytes → list bytes → bytes → Prop :=
  | cuts_rest s : (∀ j, ¬ occ d s j) → cuts d s [] s
  | cuts_package s i ps r :
      occ d s i → (∀ j, (j < i)%nat → ¬ occ d s j) →
      cuts d (drop (i + length d) s) ps r → cuts d s (take (i + length d) s :: ps) r.

Lemma cuts_concat d s ps r : cuts d s ps r → s = concat ps ++ r.
Proof.
  induction 1 as [|s i ps r _ _ _ IH]; [done|]. cbn [concat].
  rewrite <- (assoc_L (++)), <- IH. by rewrite take_drop.
Qed.

Lemma cuts_no_rest d s ps r : cuts d s ps r → ∀ j, ¬ occ d r j.
Proof. by induction 1. Qed.

Lemma load_contents s o n :
  wf s → 0 <= o → 0 <= n → o + n <= s_length s →
  load (s_str s) o n = Some (take (Z.to_nat n) (drop (Z.to_nat o) (contents s))).
Proof.
  intros (Hl & Hz & _) Ho Hn Hb. rewrite load_Some by lia. f_equal. unfold contents.
  rewrite skipn_firstn_comm, take_take. f_equal. lia.
Qed.

Section SplitProofs.
Context {St : Type} (handler : St → bytes → bool * St) (h : St → bytes → St) (ok : St → Prop).
(** A handler that never stops the loop, as long as its state is [ok]. *)
Hypothesis accepts : ∀ st data, ok st → handler st data = (true, h st data) ∧ ok (h st data).

(** The loop, started at [offset] with the current package beginning [off]
    bytes earlier. *)
Lemma split_loop_cuts n s d off st :
  ok st → wf s → d ≠ [] → 0 <= off <= s_offset s → s_offset s <= s_length s →
  let B := drop (Z.to_nat (s_offset s - off)) (contents s) in
  (∀ j, (j < Z.to_nat off)%nat → ¬ occ d B j) → (length B < n)%nat →
  ∃ ps r, cuts d B ps r ∧
    split_loop handler n s d off st
    = Some (inr (if bool_decide (ps = []) then (s, off, fold_left h ps st)
                 else (MkString (s_length s) (s_size s) (s_length s - zlen r) (s_str s), 0,
                       fold_left h ps st))).
Proof.
  intros Hok Hw Hd. revert s off st Hok Hw.
  induction n as [|n IH]; intros s off st Hok Hw Hoff Hol B Hno Hn; [lia|].
  pose proof (contents_zlen s Hw) as Hcl. cbn [split_loop].
  rewrite (load_contents s) by (done || lia). cbn [mbind option_bind].
  assert (take (Z.to_nat (s_length s - s_offset s)) (drop (Z.to_nat (s_offset s)) (contents s))
          = drop (Z.to_nat off) B) as ->.
  { subst B. rewrite drop_drop, take_ge by (rewrite length_drop; unfold zlen in *; lia).
    f_equal. lia. }
  assert (zlen B = s_length s - (s_offset s - off)) as HBl.
  { subst B. unfold zlen in *. rewrite length_drop. lia. }
  destruct (strnstr_spec (drop (Z.to_nat off) B) d Hd) as ([p|] & -> & Hs); cbn [mbind option_bind].
  - destruct Hs as (i & -> & Ho & Hmin). rewrite occ_drop in Ho.
    assert (∀ j, (j < Z.to_nat off + i)%nat → ¬ occ d B j) as Hmin'.
    { intros j Hj. destruct (decide (j < Z.to_nat off)%nat) as [Hlt|Hge]; [by apply Hno|].
      specialize (Hmin (j - Z.to_nat off)%nat ltac:(lia)). rewrite occ_drop in Hmin.
      by replace (Z.to_nat off + (j - Z.to_nat off))%nat with j in Hmin by lia. }
    pose proof (occ_bound _ _ _ Hd Ho) as Hbd. unfold zlen in HBl.
    rewrite (load_contents s) by (done || unfold zlen in *; lia). fold B. cbn [mbind option_bind].
    destruct (accepts st (take (Z.to_nat (Z.of_nat i + zlen d + off)) B) Hok) as [-> Hok'].
    cbn [negb].
    assert (Z.to_nat (Z.of_nat i + zlen d + off) = Z.to_nat off + i + length d)%nat as Hto
      by (unfold zlen; lia).
    rewrite Hto in *.
    set (s1 := MkString (s_length s) (s_size s) (s_offset s + (Z.of_nat i + zlen d)) (s_str s)).
    assert (0 < length d)%nat as Hd0 by (destruct d; [done|simpl; lia]).
    assert (wf s1) as Hw1.
    { destruct Hw as (?&?&?&?). unfold wf; cbn. repeat split; try done; unfold zlen in *; lia. }
    assert (drop (Z.to_nat (s_offset s1 - 0)) (contents s1)
            = drop (Z.to_nat off + i + length d) B) as HB1.
    { subst B. rewrite drop_drop. cbn. unfold contents; cbn. f_equal. unfold zlen. lia. }
    destruct (IH s1 0 (h st (take (Z.to_nat off + i + length d) B)) Hok' Hw1) as (ps & r & Hc & ->).
    + cbn. unfold zlen. lia.
    + cbn. unfold zlen in *. lia.
    + lia.
    + rewrite HB1, length_drop. lia.
    + rewrite HB1 in Hc. exists (take (Z.to_nat off + i + length d) B :: ps), r. split.
      { by apply cuts_package. }
      rewrite (bool_decide_eq_false_2 (take (Z.to_nat off + i + length d) B :: ps = [])) by done.
      cbn [fold_left].
      case_bool_decide as Hps; [|done]. subst ps. inversion Hc; subst. do 4 f_equal.
      subst s1. cbn. f_equal. unfold zlen in *. rewrite length_drop. lia.
  - exists [], B. split; [|by rewrite bool_decide_eq_true_2].
    constructor. intros j Hj. destruct (decide (j < Z.to_nat off)%nat) as [Hlt|Hge]; [by eapply Hno|].
    apply (Hs (j - Z.to_nat off)%nat). rewrite occ_drop.
    by replace (Z.to_nat off + (j - Z.to_nat off))%nat with j by lia.
Qed.

(** [split]: the handler gets the packages of the whole contents, in order; the
    result is the length of the packages, 0 when there is none. *)
Lemma split_cuts s d st :
  ok st → wf s → d ≠ [] → 0 <= s_offset s <= s_length s → zlen d <= s_length s →
  (∀ j, (j < Z.to_nat (s_offset s))%nat → ¬ occ d (contents s) j) →
  ∃ ps r s', cuts d (contents s) ps r ∧
    split handler s d st = Some (s_length s - zlen r, s', fold_left h ps st) ∧
    s_length s' = s_length s ∧ s_size s' = s_size s ∧ s_str s' = s_str s ∧
    (ps = [] → s_offset s' = s_length s - zlen d).
Proof.
  intros Hok Hw Hd Ho Hdl Hno. unfold split. pose proof (contents_zlen s Hw) as Hcl.
  destruct (split_loop_cuts (S (Z.to_nat (s_length s))) s d (s_offset s) st Hok Hw Hd) as (ps & r & Hc & ->).
  - lia.
  - lia.
  - rewrite Z.sub_diag. exact Hno.
  - rewrite Z.sub_diag, drop_0. unfold zlen in Hcl. lia.
  - rewrite Z.sub_diag, drop_0 in Hc. cbn [mbind option_bind].
    exists ps, r. case_bool_decide as Hps; cbn [s_offset].
    + subst ps. inversion Hc; subst. rewrite Z.eqb_refl, Z.sub_diag, Hcl, Z.sub_diag.
      eexists. split; [done|]. split; [done|]. cbn. repeat split.
      intros _. destruct Hw as (?&?&?&?). pose proof (zlen_nonneg d). apply i64_small. lia.
    + assert (0 < s_length s - zlen r).
      { inversion Hc as [|s0 i ps0 r0 Hoc _ Hc' E1 E2 E3]; subst; [done|].
        apply cuts_concat in Hc'. apply (f_equal length) in Hc'. rewrite length_drop, length_app in Hc'.
        assert (0 < length d)%nat by (destruct d; [done|simpl; lia]).
        apply occ_bound in Hoc; [|done].
        unfold zlen in *. lia. }
      rewrite (proj2 (Z.eqb_neq _ _)) by lia. rewrite Z.sub_0_r.
      eexists. split; [done|]. split; [done|]. by cbn.
Qed.
End SplitProofs.

(** ** Copying *)

Section Copy.
Variable fresh : nat → bytes.

(** [String(String &_str)]: the new string and the source, with the arguments of
    [memcpy(_str.str, str, _str.length)] as the constructor has them. *)
Definition copy_construct (src : String) : option (String * String) :=
  let dst := alloc fresh (s_size src) in
  d ← load (s_str dst) 0 (s_length src);
  m ← store (s_str src) 0 d;
  Some (MkString (s_length src) (s_size dst) (s_offset src) (s_str dst),
        MkString (s_length src) (s_size src) (s_offset src) m).
End Copy.

(** The copy constructor copies in the wrong direction: the source loses its
    contents, and both strings then hold whatever the new block contained. *)
Theorem copy_constructor_destroys_source fresh s dst src :
  (∀ n, length (fresh n) = n) → wf s → s_size s < 2 ^ 61 →
  copy_construct fresh s = Some (dst, src) →
  let junk := take (Z.to_nat (s_length s)) (fresh (Z.to_nat (OSW_MEM_ALIGNED_SIZE (s_size s)))) in
  contents dst = junk ∧ contents src = junk.
Proof.
  intros Hfr (Hl & Hz & _) Hs. unfold copy_construct, alloc. cbn [s_str s_size].
  pose proof (aligned_size_bounds (s_size s) ltac:(lia)) as Ha.
  set (blk := fresh (Z.to_nat (OSW_MEM_ALIGNED_SIZE (s_size s)))).
  assert (zlen blk = OSW_MEM_ALIGNED_SIZE (s_size s)) as Hblk.
  { subst blk. unfold zlen. rewrite Hfr. lia. }
  rewrite load_Some by lia. cbn [mbind option_bind].
  set (d := take (Z.to_nat (s_length s)) (drop (Z.to_nat 0) blk)).
  assert (zlen d = s_length s) as Hd.
  { subst d. rewrite drop_0. unfold zlen in *. rewrite length_take. lia. }
  rewrite store_Some by lia. cbn [mbind option_bind]. intros [= <- <-].
  unfold contents. cbn [s_length s_str]. split; [done|]. simpl.
  rewrite take_app_le by (unfold zlen in *; lia). by rewrite take_ge by (unfold zlen in *; lia).
Qed.

Lemma copy_constructor_destroys_source_witness :
  ∃ dst src, copy_construct (repeat 0) (MkString 5 8 0 (lit "hello" ++ [0; 0; 0])) = Some (dst, src) ∧
    contents dst = [0; 0; 0; 0; 0] ∧ contents src = [0; 0; 0; 0; 0].
Proof.
  do 2 eexists. split; [vm_compute; reflexivity|].
  apply (copy_constructor_destroys_source (repeat 0) (MkString 5 8 0 (lit "hello" ++ [0; 0; 0]))).
  - apply repeat_length.
  - by vm_compute.
  - by vm_compute.
  - by vm_compute.
Defined.

(** The backward search never looks at position 0: a string that is equal to
    the needle is reported not to contain it, although [openswoole_strnpos]
    finds it there. *)
Theorem strrnpos_misses_start needle :
  needle ≠ [] →
  openswoole_strrnpos needle needle = -1 ∧ openswoole_strnpos needle needle = Some 0.
Proof.
  intros Hn. unfold openswoole_strrnpos, openswoole_strnpos. rewrite Nat.sub_diag. split; [done|].
  destruct (strnstr_spec needle needle Hn) as ([q|] & -> & Hs); cbn.
  - destruct Hs as ([|i] & -> & Ho & Hm); [done|]. exfalso. apply (Hm 0%nat); [lia|].
    unfold occ. rewrite drop_0. by apply take_ge.
  - exfalso. apply (Hs 0%nat). unfold occ. rewrite drop_0. by apply take_ge.
Qed.

Lemma strrnpos_misses_start_witness :
  openswoole_strrnpos (lit "ab") (lit "ab") = -1 ∧ openswoole_strnpos (lit "ab") (lit "ab") = Some 0.
Proof. apply strrnpos_misses_start. done. Defined.
