(* ===== verification/Protocol.v ===== *)
(** * Package framing: src/protocol/base.cc, struct [Protocol] of
      include/openswoole_protocol.h

    A connection reads from a socket into its [String] buffer and hands complete
    packages to [onPackage].  The socket is the list of what the coming [recv]
    calls find; [onPackage] is a parameter (the server's dispatch) that returns a
    result, whether it removed the connection, and its own state.  The build
    without TLS is modelled. *)

From S2P Require Import Prelude Pack SwString.

Record Protocol := MkProtocol {
  split_by_eof : bool; package_eof : bytes; package_length_type : Z;
  package_length_size : Z; package_length_offset : Z; package_body_offset : Z;
  package_max_length : Z }.

(** [default_length_func]: 0 asks for more data.  [size_func] is the optional
    per-socket length size.  The sum is an [int]. *)
Definition default_length_func (protocol : Protocol) (size_func : option Z) (data : bytes) :
    option Z :=
  let length_offset := package_length_offset protocol in
  let length_size := default (package_length_size protocol) size_func in
  if length_size =? 0 then Some OSW_ERR else
  if zlen data <? length_offset + length_size then Some 0 else
  body_length ← openswoole_unpack (package_length_type protocol) (drop (Z.to_nat length_offset) data);
  if body_length <? 0 then Some OSW_ERR
  else Some (i32 (package_body_offset protocol + body_length)).

(** ** The socket *)

(** What one [recv] finds: bytes, nothing yet, an orderly shutdown, an error that
    closes the connection or one that does not. *)
Inductive recv_event := Got (data : bytes) | WouldBlock | PeerClosed | Broken | Failed.
#[global] Instance recv_event_eq_dec : EqDecision recv_event.
Proof. solve_decision. Defined.

(** [recv] of at most [n] bytes; a read of zero bytes returns zero, as a shutdown
    does. *)
Definition recv (net : list recv_event) (n : Z) : recv_event * list recv_event :=
  if n <=? 0 then (PeerClosed, net) else
  match net with
  | [] => (WouldBlock, [])
  | Got data :: net =>
    if zlen data <=? n then (Got data, net)
    else (Got (take (Z.to_nat n) data), Got (drop (Z.to_nat n) data) :: net)
  | e :: net => (e, net)
  end.

(** The return value of [recv_*] for a failed read. *)
Definition recv_failed (e : recv_event) : option Z :=
  match e with
  | Got _ => None
  | WouldBlock | Failed => Some OSW_OK
  | PeerClosed | Broken => Some OSW_ERR
  end.

Section Recv.
Variable fresh : nat → bytes.
Context {St : Type} (onPackage : St → bytes → Z * bool * St).
Variable get_package_length : bytes → option Z.

Record Conn := MkConn {
  buffer : String; net : list recv_event; recv_wait : bool; skip_recv : bool;
  removed : bool; app : St }.

Definition set_buffer (c : Conn) (b : String) : Conn :=
  MkConn b (net c) (recv_wait c) (skip_recv c) (removed c) (app c).
Definition set_recv_wait (c : Conn) (w : bool) : Conn :=
  MkConn (buffer c) (net c) w (skip_recv c) (removed c) (app c).
Definition set_net (c : Conn) (n : list recv_event) : Conn :=
  MkConn (buffer c) n (recv_wait c) (skip_recv c) (removed c) (app c).
Definition set_app (c : Conn) (r : bool) (st : St) : Conn :=
  MkConn (buffer c) (net c) (recv_wait c) (skip_recv c) (removed c || r) st.

(** [buffer->length += n] after [recv] stored [data] at [str + length]. *)
Definition received (b : String) (data : bytes) : option String :=
  m ← store (s_str b) (s_length b) data;
  Some (MkString (s_length b + zlen data) (s_size b) (s_offset b) m).

Definition with_offset (b : String) (o : Z) : String :=
  MkString (s_length b) (s_size b) o (s_str b).

(** ** Length protocol *)

(** The labels of [recv_with_length_protocol]. *)
Inductive label := _do_recv | _do_dispatch | _do_get_length.

(** One step from a label: a return value or the next label. *)
Definition length_step (p : Protocol) (lsize : Z) (l : label) (c : Conn) :
    option ((Z + label) * Conn) :=
  match l with
  | _do_recv =>
    if removed c then Some (inl OSW_OK, c) else
    let b := buffer c in
    let recv_size := if 0 <? s_offset b then u32 (s_offset b - s_length b)
                     else package_length_offset p + lsize in
    let '(e, n) := recv (net c) recv_size in
    let c := set_net c n in
    match e with
    | Got data =>
      b ← received b data;
      let c := set_buffer c b in
      if recv_wait c then
        if s_offset b <=? s_length b then Some (inr _do_dispatch, c) else Some (inl OSW_OK, c)
      else Some (inr _do_get_length, c)
    | e => r ← recv_failed e; Some (inl r, c)
    end
  | _do_dispatch =>
    let b := buffer c in
    data ← load (s_str b) 0 (s_offset b);
    let '(r, rm, st) := onPackage (app c) data in
    let c := set_app c rm st in
    if r <? 0 then Some (inl OSW_ERR, c) else
    if removed c then Some (inl OSW_OK, c) else
    let c := set_recv_wait c false in
    if s_offset b <? s_length b
    then b ← reduce b (s_offset b); Some (inr _do_get_length, set_buffer c b)
    else Some (inl OSW_OK, set_buffer c (clear b))
  | _do_get_length =>
    let b := buffer c in
    package_length ← get_package_length (contents b);
    if package_length <? 0 then Some (inl OSW_ERR, c)
    else if package_length =? 0 then
      if s_length b =? package_length_offset p + package_length_size p
      then Some (inl OSW_ERR, c) else Some (inl OSW_OK, c)
    else if package_length >? package_max_length p then Some (inl OSW_ERR, c)
    else
      b ← (if s_size b <? package_length then extend fresh b package_length else Some b);
      let c := set_recv_wait (set_buffer c (with_offset b package_length)) true in
      Some (inr (if package_length <=? s_length b then _do_dispatch else _do_recv), c)
  end.

Fixpoint length_run (fuel : nat) (p : Protocol) (lsize : Z) (l : label) (c : Conn) :
    option (Z * Conn) :=
  match fuel with
  | O => None
  | S fuel =>
    r ← length_step p lsize l c;
    match r with
    | (inl ret, c) => Some (ret, c)
    | (inr l, c) => length_run fuel p lsize l c
    end
  end.

(** [recv_with_length_protocol]; [size_func] is [get_package_length_size]. *)
Definition recv_with_length_protocol (fuel : nat) (p : Protocol) (size_func : option Z)
    (c : Conn) : option (Z * Conn) :=
  let lsize := default (package_length_size p) size_func in
  if (match size_func with Some _ => true | None => false end) && (lsize =? 0)
  then Some (OSW_ERR, c)
  else if skip_recv c then
    length_run fuel p lsize _do_get_length
      (MkConn (buffer c) (net c) (recv_wait c) false (removed c) (app c))
  else length_run fuel p lsize _do_recv c.

(** ** EOF protocol *)

(** The handler of [recv_split_by_eof]: [retval], [removed] and the
    application's state. *)
Definition eof_handler (s : option Z * bool * St) (data : bytes) : bool * (option Z * bool * St) :=
  let '(retval, rm, st) := s in
  let '(r, rm', st) := onPackage st data in
  let rm := rm || rm' in
  if r <? 0 then (false, (Some OSW_CLOSE, rm, st))
  else if rm then (false, (retval, rm, st))
  else (true, (retval, rm, st)).

Definition recv_split_by_eof (p : Protocol) (c : Conn) : option (Z * Conn) :=
  let b := buffer c in
  let eof_len := zlen (package_eof p) in
  if s_length b <? eof_len then Some (OSW_CONTINUE, c) else
  r ← split eof_handler b (package_eof p) (None, removed c, app c);
  let '(n, b, (retval, rm, st)) := r in
  let c := MkConn b (net c) (recv_wait c) (skip_recv c) rm st in
  if rm then Some (OSW_CLOSE, c)
  else if n <? 0 then retval ← retval; Some (retval, c)
  else if n =? 0 then Some (OSW_CONTINUE, c)
  else if n <? s_length b then
    b ← reduce b n;
    let offset := s_length b - eof_len in
    Some (OSW_OK, set_buffer c (with_offset b (if 0 <? offset then offset else 0)))
  else Some (OSW_OK, set_buffer c (clear b)).

Definition OSW_BUFFER_SIZE_STD : Z := 8192.

(** [recv_with_eof_protocol]: the loop at [_recv_data]. *)
Fixpoint recv_with_eof_protocol (fuel : nat) (pagesize : Z) (p : Protocol) (recv_again : bool)
    (c : Conn) : option (Z * Conn) :=
  match fuel with
  | O => None
  | S fuel =>
    let b := buffer c in
    let eof_len := zlen (package_eof p) in
    let buf_size := i32 (s_size b - s_length b) in
    let buf_size := if buf_size >? OSW_BUFFER_SIZE_STD then OSW_BUFFER_SIZE_STD else buf_size in
    let '(e, n) := recv (net c) buf_size in
    let c := set_net c n in
    match e with
    | Got data =>
      b ← received b data;
      let c := set_buffer c b in
      if s_length b <? eof_len then Some (OSW_OK, c) else
      (* the rest of the body, once no package was completed *)
      let again (recv_again : bool) (c : Conn) : option (Z * Conn) :=
        let b := buffer c in
        if s_length b =? package_max_length p then Some (OSW_ERR, c) else
        if s_length b =? s_size b then
          b ← (if s_size b <? package_max_length p then
                 let extend_size := u32 (openswoole_size_align (s_size b * 2) pagesize) in
                 let extend_size := if extend_size >? package_max_length p
                                    then package_max_length p else extend_size in
                 extend fresh b extend_size
               else Some b);
          recv_with_eof_protocol fuel pagesize p true (set_buffer c b)
        else if recv_again then recv_with_eof_protocol fuel pagesize p true c
        else Some (OSW_OK, c) in
      if split_by_eof p then
        r ← recv_split_by_eof p c;
        let '(retval, c) := r in
        if retval =? OSW_CONTINUE then again true c
        else if retval =? OSW_CLOSE then Some (OSW_ERR, c)
        else Some (OSW_OK, c)
      else
        t ← load (s_str b) (s_length b - eof_len) eof_len;
        if bool_decide (t = package_eof p) then
          let c := set_buffer c (with_offset b (s_length b)) in
          data ← load (s_str b) 0 (s_length b);
          let '(r, rm, st) := onPackage (app c) data in
          let c := set_app c rm st in
          if r <? 0 then Some (OSW_ERR, c)
          else if removed c then Some (OSW_OK, c)
          else Some (OSW_OK, set_buffer c (clear b))
        else again recv_again c
    | e => r ← recv_failed e; Some (r, c)
    end
  end.
End Recv.
Arguments Conn : clear implicits.

(** ** Framing by length: specification *)

Section LengthSpec.
Variable p : Protocol.
Variable total : bytes → Z.
Let hdr : Z := package_length_offset p + package_length_size p.

(** The package length a complete header announces. *)
Definition announced (s : bytes) : Z := total (take (Z.to_nat hdr) s).

(** [frames s ps r]: the byte stream [s] is the packages [ps] followed by an
    incomplete package [r]; every announced length is positive and at most
    [package_max_length]. *)
Inductive frames : bytes → list bytes → bytes → Prop :=
  | frames_header r : zlen r < hdr → frames r [] r
  | frames_body r : hdr <= zlen r → zlen r < announced r <= package_max_length p → frames r [] r
  | frames_package s ps r :
      hdr <= zlen s → 0 < announced s <= package_max_length p → announced s <= zlen s →
      frames (drop (Z.to_nat (announced s)) s) ps r →
      frames s (take (Z.to_nat (announced s)) s :: ps) r.

Lemma frames_concat s ps r : frames s ps r → s = concat ps ++ r.
Proof.
  induction 1 as [| |s ps r _ _ _ _ IH]; [done|done|]. cbn [concat].
  rewrite <- (assoc_L (++)), <- IH. by rewrite take_drop.
Qed.
End LengthSpec.

Lemma announced_app p total s t :
  0 <= package_length_offset p + package_length_size p <= zlen s →
  announced p total (s ++ t) = announced p total s.
Proof. intros Hs. unfold announced. rewrite take_app_le; [done|]. unfold zlen in Hs. lia. Qed.

(** The bytes still to be read. *)
Definition event_data (e : recv_event) : bytes := match e with Got d => d | _ => [] end.
Definition net_data (net : list recv_event) : bytes := concat (event_data <$> net).
Definition only_data (net : list recv_event) : Prop :=
  Forall (λ e, ∃ d, e = Got d ∧ d ≠ []) net.

Lemma recv_data net n :
  only_data net → net ≠ [] → 0 < n → ∃ d net', recv net n = (Got d, net') ∧ d ≠ [] ∧ zlen d <= n ∧
    net_data net = d ++ net_data net' ∧ only_data net'.
Proof.
  intros Hd Hne Hn. unfold recv. rewrite (proj2 (Z.leb_gt n 0)) by lia.
  destruct net as [|e net]; [done|]. apply Forall_cons in Hd as [(d & -> & Hd0) Hd].
  destruct (Z.leb_spec (zlen d) n) as [Hle|Hgt]; [by eauto 10|].
  exists (take (Z.to_nat n) d), (Got (drop (Z.to_nat n) d) :: net). unfold zlen in *.
  split; [done|]. split; [|split; [|split]].
  - intros Ht. apply (f_equal length) in Ht. rewrite length_take in Ht. simpl in Ht. lia.
  - rewrite length_take. lia.
  - unfold net_data. simpl. by rewrite (assoc_L (++)), take_drop.
  - constructor; [|done]. eexists. split; [done|]. intros Ht. apply (f_equal length) in Ht.
    rewrite length_drop in Ht. simpl in Ht. lia.
Qed.

Lemma only_data_nonempty (n : list recv_event) : only_data n → n ≠ [] → 0 < zlen (net_data n).
Proof.
  intros Hd Hn. destruct n as [|e n]; [done|]. apply Forall_cons in Hd as [(d & -> & Hd) _].
  unfold net_data. cbn. rewrite zlen_app. apply zlen_pos in Hd. pose proof (zlen_nonneg (net_data n)).
  unfold net_data in *. lia.
Qed.

Lemma received_spec b d :
  wf b → s_length b + zlen d <= s_size b →
  ∃ b', received b d = Some b' ∧ wf b' ∧ contents b' = contents b ++ d ∧
    s_offset b' = s_offset b ∧ s_size b' = s_size b ∧ s_length b' = s_length b + zlen d.
Proof.
  intros Hw Hle. pose proof Hw as (Hl & Hz & Hs & Ho). unfold received. pose proof (zlen_nonneg d).
  destruct (store (s_str b) (s_length b) d) as [m|] eqn:E; [|rewrite store_Some in E by lia; done].
  cbn [mbind option_bind]. eexists. split; [done|].
  pose proof (store_length _ _ _ _ E). split; [unfold wf; cbn; repeat split; try lia; done|].
  split; [|done]. unfold contents at 1; cbn [s_length s_str]. by apply store_contents.
Qed.

Section LengthProofs.
Variable fresh : nat → bytes.
Hypothesis fresh_length : ∀ n, length (fresh n) = n.
Context {St : Type} (onPackage : St → bytes → Z * bool * St) (h : St → bytes → St).
Hypothesis accepts : ∀ st d, onPackage st d = (0, false, h st d).
Variable p : Protocol.
Variable total : bytes → Z.
Let hdr : Z := package_length_offset p + package_length_size p.
Variable glen : bytes → option Z.
Hypothesis Hhdr : 0 < hdr.
Hypothesis Hmax : package_max_length p < 2 ^ 31.
(** The length function waits for the header and then reports the announced
    length. *)
Hypothesis Hglen : ∀ s, glen s = Some (if zlen s <? hdr then 0 else announced p total s).

Implicit Types c : Conn St.

(** A connection between two calls: waiting for a header or for the rest of an
    announced package. *)
Definition idle (c : Conn St) : Prop :=
  let b := buffer c in
  wf b ∧ 2 * hdr <= s_size b ∧ removed c = false ∧ skip_recv c = false ∧ only_data (net c) ∧
  if recv_wait c
  then hdr <= s_length b ∧ s_offset b = announced p total (contents b) ∧
       s_length b < s_offset b <= s_size b ∧ s_offset b <= package_max_length p
  else s_length b < hdr ∧ s_offset b = 0.

Definition pre (l : label) (c : Conn St) : Prop :=
  let b := buffer c in
  match l with
  | _do_recv => idle c
  | _do_get_length =>
    wf b ∧ 2 * hdr <= s_size b ∧ removed c = false ∧ skip_recv c = false ∧ only_data (net c) ∧
    recv_wait c = false ∧ s_offset b = 0
  | _do_dispatch =>
    wf b ∧ 2 * hdr <= s_size b ∧ removed c = false ∧ skip_recv c = false ∧ only_data (net c) ∧
    hdr <= s_length b ∧ s_offset b = announced p total (contents b) ∧
    0 < s_offset b <= s_length b
  end.

(** Bytes read and not yet dispatched. *)
Definition pending (c : Conn St) : bytes := contents (buffer c) ++ net_data (net c).

Definition rank (l : label) : Z := match l with _do_get_length => 2 | _ => 1 end.
Definition measure (l : label) (c : Conn St) : Z :=
  3 * (zlen (contents (buffer c)) + 2 * zlen (net_data (net c))) + rank l.

(** What a call does to a connection with the pending packages [ps]. *)
Definition outcome (c c' : Conn St) (ps : list bytes) (r : bytes) : Prop :=
  ∃ ps1 ps2, ps = ps1 ++ ps2 ∧ frames p total (pending c') ps2 r ∧
    app c' = fold_left h ps1 (app c).

Lemma outcome_refl c ps r : frames p total (pending c) ps r → outcome c c ps r.
Proof. intros. by exists [], ps. Qed.

(** The step from one label keeps the pending packages, or dispatches the first
    of them. *)
Definition good_step (l : label) (c : Conn St) (ps : list bytes) (r : bytes) : Prop :=
  ∃ c', (length_step fresh onPackage glen p (package_length_size p) l c = Some (inl OSW_OK, c') ∧ idle c' ∨
         ∃ l', length_step fresh onPackage glen p (package_length_size p) l c = Some (inr l', c') ∧
           pre l' c' ∧ measure l' c' < measure l c) ∧
    outcome c c' ps r ∧ zlen (net_data (net c')) <= zlen (net_data (net c)) ∧
    (l = _do_recv → net c ≠ [] → zlen (net_data (net c')) < zlen (net_data (net c))).

(** A valid header at the front of the stream. *)
Lemma frames_announced s ps r :
  frames p total s ps r → hdr <= zlen s → 0 < announced p total s <= package_max_length p.
Proof. unfold hdr. destruct 1; intros; [lia|lia|done]. Qed.

(** A complete package at the front of the stream. *)
Lemma frames_first s ps r :
  frames p total s ps r → hdr <= zlen s → announced p total s <= zlen s →
  ∃ ps', ps = take (Z.to_nat (announced p total s)) s :: ps' ∧
    frames p total (drop (Z.to_nat (announced p total s)) s) ps' r.
Proof. unfold hdr. destruct 1; intros; [lia|lia|eauto]. Qed.

Lemma recv_step c ps r :
  idle c → frames p total (pending c) ps r → good_step _do_recv c ps r.
Proof.
  intros Hid Hf. pose proof Hid as (Hw & Hsz & Hrm & Hsk & Hod & Hst). unfold good_step, length_step.
  rewrite Hrm. pose proof Hw as (Hl & _ & Hs62 & _).
  set (n := if 0 <? s_offset (buffer c) then _ else _).
  assert (0 < n ∧ ∀ d : bytes, zlen d <= n → s_length (buffer c) + zlen d <= s_size (buffer c)) as [Hn Hfit].
  { subst n. destruct (recv_wait c).
    - destruct Hst as (? & ? & ? & ?). rewrite (proj2 (Z.ltb_lt _ _)) by lia.
      rewrite u32_small by lia. split; intros; lia.
    - destruct Hst as (? & ->). cbn. fold hdr. split; intros; lia. }
  destruct (decide (net c = [])) as [Hnil|Hne].
  { exists c. rewrite Hnil. unfold recv. rewrite (proj2 (Z.leb_gt n 0)) by lia.
    split; [left; split; [|done]|]. 2: split; [by apply outcome_refl|done].
    destruct c; cbn in *. by subst. }
  destruct (recv_data (net c) n Hod Hne Hn) as (d & net' & -> & Hd & Hdn & Hnd & Hod').
  destruct (received_spec (buffer c) d Hw (Hfit d Hdn)) as (b' & -> & Hw' & Hc' & Ho' & Hs' & Hl').
  cbn [mbind option_bind recv_wait set_buffer set_net]. apply zlen_pos in Hd.
  set (c' := set_buffer (set_net c net') b'). exists c'.
  assert (outcome c c' ps r ∧ zlen (net_data (net c')) < zlen (net_data (net c))) as [Hout Hlt].
  { split.
    - exists [], ps. split; [done|]. split; [|done]. unfold pending in *. cbn. rewrite Hc'.
      rewrite Hnd in Hf. by rewrite <- (assoc_L (++)).
    - change (net c') with net'. rewrite Hnd, zlen_app. lia. }
  split; [|split; [done|split; [lia|done]]].
  assert (∀ l', rank l' <= 2 → measure l' c' < measure _do_recv c) as Hmeas.
  { intros l' Hr. unfold measure. change (net c') with net'. change (buffer c') with b'.
    rewrite Hc', Hnd, !zlen_app. cbn [rank]. lia. }
  assert (zlen (contents (buffer c)) = s_length (buffer c)) as Hcz by by apply contents_zlen.
  destruct (recv_wait c) eqn:Hrw.
  - destruct Hst as (Hhl & Hoff & Hlo & Hom).
    assert (announced p total (contents b') = s_offset b') as Han.
    { rewrite Hc', announced_app, Ho'; [done|]. fold hdr. lia. }
    destruct (Z.leb_spec (s_offset b') (s_length b')) as [Hle|Hgt].
    + right. exists _do_dispatch. split; [done|]. split; [|apply Hmeas; cbn; lia].
      cbn. rewrite Han. split_and!; (done || lia).
    + left. split; [done|]. unfold idle; cbn. rewrite Hrw, Han. split_and!; (done || lia).
  - destruct Hst as (Hhl & Hoff). right. exists _do_get_length. split; [done|].
    split; [|apply Hmeas; cbn; lia]. cbn. split_and!; (done || lia).
Qed.

Lemma dispatch_step c ps r :
  pre _do_dispatch c → frames p total (pending c) ps r → good_step _do_dispatch c ps r.
Proof.
  intros (Hw & Hsz & Hrm & Hsk & Hod & Hhl & Hoff & Hlo) Hf. unfold good_step, length_step.
  pose proof (contents_zlen _ Hw) as Hcz.
  rewrite (load_contents _ 0) by (done || lia). cbn [mbind option_bind]. rewrite accepts.
  cbn [removed set_app orb]. rewrite Hrm. cbn [orb Z.ltb Z.compare].
  set (B := contents (buffer c)) in *. set (L := s_offset (buffer c)) in *.
  assert (announced p total (pending c) = L) as Han.
  { unfold pending. rewrite announced_app; [done|]. fold hdr B. lia. }
  pose proof (zlen_nonneg (net_data (net c))) as Hnn.
  assert (zlen (pending c) = zlen B + zlen (net_data (net c))) as Hpz by (unfold pending; apply zlen_app).
  destruct (frames_first _ _ _ Hf) as (ps' & -> & Hf'); [lia|lia|].
  rewrite Han in *. change (Z.to_nat 0) with 0%nat. rewrite drop_0.
  assert (take (Z.to_nat L) (pending c) = take (Z.to_nat L) B) as Htk.
  { unfold pending. apply take_app_le. unfold zlen in Hcz. fold B. lia. }
  assert (drop (Z.to_nat L) (pending c) = drop (Z.to_nat L) B ++ net_data (net c)) as Hdk.
  { unfold pending. apply drop_app_le. unfold zlen in Hcz. fold B. lia. }
  rewrite Htk. rewrite Hdk in Hf'.
  destruct (Z.ltb_spec L (s_length (buffer c))) as [Hlt|Hge].
  - destruct (reduce_spec (buffer c) L Hw) as (b' & -> & Hw' & Hc' & Ho' & Hl' & Hs'); [lia|].
    cbn [mbind option_bind]. eexists. split; [right; exists _do_get_length; split; [done|]|].
    + cbn. rewrite Hrm. split; [split_and!; (done || lia)|]. unfold measure. cbn [buffer net set_buffer set_recv_wait set_app rank].
      rewrite Hc'. fold B. unfold zlen in *. rewrite length_drop. lia.
    + split; [|split; [apply Z.le_refl|done]]. exists [take (Z.to_nat L) B], ps'.
      split; [done|]. split; [|done]. unfold pending. cbn. by rewrite Hc'.
  - eexists. split; [left; split; [done|]|].
    + unfold idle; cbn. rewrite Hrm. destruct Hw as (?&?&?&?). unfold wf; cbn. split_and!; (done || lia).
    + split; [|split; [apply Z.le_refl|done]]. exists [take (Z.to_nat L) B], ps'.
      split; [done|]. split; [|done]. unfold pending. cbn. unfold contents. cbn.
      rewrite (drop_ge B) in Hf' by (unfold zlen in Hcz; lia). exact Hf'.
Qed.

Lemma get_length_step c ps r :
  pre _do_get_length c → frames p total (pending c) ps r → good_step _do_get_length c ps r.
Proof.
  intros (Hw & Hsz & Hrm & Hsk & Hod & Hrw & Hoff) Hf. unfold good_step, length_step.
  pose proof (contents_zlen _ Hw) as Hcz. rewrite Hglen. cbn [mbind option_bind].
  set (B := contents (buffer c)) in *. pose proof Hw as (Hl0 & _).
  destruct (Z.ltb_spec (zlen B) hdr) as [Hlt|Hge].
  { exists c. cbn. fold hdr. rewrite (proj2 (Z.eqb_neq (s_length (buffer c)) hdr)) by lia.
    split; [left; split; [done|]|split; [by apply outcome_refl|done]].
    unfold idle. rewrite Hrw. split_and!; (done || lia). }
  assert (announced p total (pending c) = announced p total B) as Han.
  { unfold pending. apply announced_app. fold hdr B. lia. }
  pose proof (zlen_nonneg (net_data (net c))) as Hnn.
  assert (zlen (pending c) = zlen B + zlen (net_data (net c))) as Hpz by (unfold pending; apply zlen_app).
  pose proof (frames_announced _ _ _ Hf ltac:(lia)) as HL. rewrite Han in HL.
  set (L := announced p total B) in *.
  rewrite (proj2 (Z.ltb_ge L 0)), (proj2 (Z.eqb_neq L 0)), Z.gtb_ltb, (proj2 (Z.ltb_ge _ L)) by lia.
  assert (∃ b, (if s_size (buffer c) <? L then extend fresh (buffer c) L else Some (buffer c)) = Some b ∧
    wf b ∧ contents b = B ∧ s_length b = s_length (buffer c) ∧ L <= s_size b ∧ 2 * hdr <= s_size b)
    as (b & -> & Hwb & Hcb & Hlb & HLb & Hhb).
  { destruct (Z.ltb_spec (s_size (buffer c)) L) as [Hx|Hx].
    - unfold extend. rewrite (proj2 (Z.ltb_lt _ _)) by done. eexists. split; [done|].
      destruct (reserve_spec fresh fresh_length (buffer c) L Hw) as (?&?&?&?&?); [lia|lia|].
      split_and!; (done || lia).
    - eexists. split; [done|]. split_and!; (done || lia). }
  cbn [mbind option_bind].
  set (c' := set_recv_wait (set_buffer c (with_offset b L)) true). exists c'.
  assert (wf (with_offset b L)) as Hwo.
  { destruct Hwb as (?&?&?&?). unfold wf; cbn. split_and!; (done || lia). }
  assert (contents (buffer c') = B) as Hcc by exact Hcb.
  split; [right|split; [|done]].
  - eexists. split; [done|]. split.
    2: { unfold measure. rewrite Hcc. fold B. change (net c') with (net c).
         destruct (L <=? s_length b); cbn [rank]; lia. }
    destruct (Z.leb_spec L (s_length b)); cbn.
    + change (contents (with_offset b L)) with (contents b). rewrite Hcb. split_and!; (done || lia).
    + unfold idle; cbn. change (contents (with_offset b L)) with (contents b). rewrite Hcb.
      split_and!; (done || lia).
  - exists [], ps. split; [done|]. split; [|done]. unfold pending. rewrite Hcc. exact Hf.
Qed.

Lemma length_run_spec fuel l c ps r :
  pre l c → frames p total (pending c) ps r → measure l c < Z.of_nat fuel →
  ∃ c', length_run fresh onPackage glen fuel p (package_length_size p) l c = Some (OSW_OK, c') ∧
    idle c' ∧ outcome c c' ps r ∧ zlen (net_data (net c')) <= zlen (net_data (net c)) ∧
    (l = _do_recv → net c ≠ [] → zlen (net_data (net c')) < zlen (net_data (net c))).
Proof.
  revert l c ps r. induction fuel as [|fuel IH]; intros l c ps r Hpre Hf Hm.
  { exfalso. unfold measure in Hm. pose proof (zlen_nonneg (contents (buffer c))).
    pose proof (zlen_nonneg (net_data (net c))). destruct l; cbn in Hm; lia. }
  assert (good_step l c ps r) as (c1 & Hst & Hout & Hle & Hlt).
  { destruct l; [by apply recv_step|by apply dispatch_step|by apply get_length_step]. }
  cbn [length_run]. destruct Hst as [[-> Hid]|(l' & -> & Hpre' & Hm')]; cbn [mbind option_bind].
  { by exists c1. }
  destruct Hout as (ps1 & ps2 & -> & Hf1 & Happ).
  destruct (IH l' c1 ps2 r Hpre' Hf1 ltac:(lia)) as (c' & -> & Hid & (ps3 & ps4 & -> & Hf2 & Happ2) & Hle2 & _).
  exists c'. split; [done|]. split; [done|]. split; [|split; [lia|]].
  - exists (ps1 ++ ps3), ps4. rewrite <- (assoc_L (++)). split; [done|]. split; [done|].
    by rewrite Happ2, Happ, fold_left_app.
  - intros Hl Hn. specialize (Hlt Hl Hn). lia.
Qed.

(** The reactor calls the handler until nothing is left to read. *)
Fixpoint drain (calls : nat) (c : Conn St) : option (Conn St) :=
  match calls with
  | O => Some c
  | S calls =>
    if bool_decide (net c = []) then Some c else
    r ← recv_with_length_protocol fresh onPackage glen
          (S (Z.to_nat (measure _do_recv c))) p None c;
    if r.1 =? OSW_OK then drain calls r.2 else None
  end.

Lemma idle_rest c ps r :
  idle c → net c = [] → frames p total (pending c) ps r → ps = [] ∧ r = contents (buffer c).
Proof.
  intros (Hw & _ & _ & _ & _ & Hst) Hn. unfold pending. rewrite Hn. cbn. rewrite app_nil_r.
  pose proof (contents_zlen _ Hw) as Hcz.
  destruct 1 as [| |s ps r ? ? ? ?]; [done|done|]. exfalso. unfold hdr in *.
  destruct (recv_wait c); [|lia]. destruct Hst as (_ & Ho & ? & _). rewrite <- Ho in *. lia.
Qed.

Lemma drain_spec calls c ps r :
  idle c → frames p total (pending c) ps r → zlen (net_data (net c)) <= Z.of_nat calls →
  ∃ c', drain calls c = Some c' ∧ idle c' ∧ net c' = [] ∧ contents (buffer c') = r ∧
    app c' = fold_left h ps (app c).
Proof.
  revert c ps r. induction calls as [|calls IH]; intros c ps r Hid Hf Hc; cbn [drain].
  - assert (net c = []) as Hn.
    { destruct (decide (net c = [])) as [|Hne]; [done|].
      apply only_data_nonempty in Hne; [lia|]. by destruct Hid as (_&_&_&_&?&_). }
    destruct (idle_rest c ps r Hid Hn Hf) as [-> ->]. by exists c.
  - case_bool_decide as Hn.
    { destruct (idle_rest c ps r Hid Hn Hf) as [-> ->]. by exists c. }
    unfold recv_with_length_protocol. cbn [default from_option id andb].
    assert (skip_recv c = false) as -> by by destruct Hid as (_&_&_&?&_).
    destruct (length_run_spec (S (Z.to_nat (measure _do_recv c))) _do_recv c ps r Hid Hf)
      as (c1 & -> & Hid1 & (ps1 & ps2 & -> & Hf1 & Ha1) & _ & Hlt); [lia|].
    specialize (Hlt eq_refl Hn). cbn [mbind option_bind fst snd]. rewrite Z.eqb_refl.
    destruct (IH c1 ps2 r Hid1 Hf1 ltac:(lia)) as (c' & -> & Hid' & Hn' & Hr & Ha).
    exists c'. rewrite Ha, Ha1, fold_left_app. done.
Qed.
End LengthProofs.

(** ** The default length function *)

(** The length letters of [package_length_type]. *)
Definition length_letter (t : Z) : Prop := t ∈ [99; 67; 115; 83; 110; 118; 108; 76; 78; 86].

Lemma unpack_take t data k :
  length_letter t → openswoole_type_size t <= Z.of_nat k → openswoole_type_size t <= zlen data →
  openswoole_unpack t (take k data) = openswoole_unpack t data ∧ is_Some (openswoole_unpack t data).
Proof.
  intros Ht Hk Hd. unfold length_letter in Ht. unfold openswoole_unpack, rd.
  assert (∀ n, 0 <= n → n <= openswoole_type_size t → load (take k data) 0 n = load data 0 n ∧
    is_Some (load data 0 n)) as Hl.
  { intros n Hn Hle. split; [apply load_take; lia|]. rewrite load_Some by lia. eauto. }
  repeat (apply elem_of_cons in Ht as [->|Ht]; [cbn [Z.eqb Pos.eqb];
    match goal with |- context [load data 0 ?n] =>
      destruct (Hl n) as [-> [x Hx]]; [lia|vm_compute; congruence|] end;
    rewrite ?Hx; split; [reflexivity|cbn; eauto] |]).
  by apply not_elem_of_nil in Ht.
Qed.

(** The length a complete header announces under [default_length_func]. *)
Definition default_total (p : Protocol) (header : bytes) : Z :=
  match openswoole_unpack (package_length_type p) (drop (Z.to_nat (package_length_offset p)) header) with
  | Some body_length => if body_length <? 0 then -1 else i32 (package_body_offset p + body_length)
  | None => -1
  end.

(** A configuration the server accepts. *)
Definition length_config (p : Protocol) : Prop :=
  length_letter (package_length_type p) ∧ 0 <= package_length_offset p ∧
  package_length_size p = openswoole_type_size (package_length_type p) ∧
  package_max_length p < 2 ^ 31.

Lemma type_size_pos t : length_letter t → 0 < openswoole_type_size t.
Proof.
  intros Ht. unfold length_letter in Ht.
  repeat (apply elem_of_cons in Ht as [->|Ht]; [by vm_compute|]). by apply not_elem_of_nil in Ht.
Qed.

Lemma default_length_total p s :
  length_config p →
  default_length_func p None s
  = Some (if zlen s <? package_length_offset p + package_length_size p then 0
          else announced p (default_total p) s).
Proof.
  intros (Ht & Ho & Hsz & _). pose proof (type_size_pos _ Ht) as Hp. unfold default_length_func.
  cbn [default from_option id]. rewrite (proj2 (Z.eqb_neq _ 0)) by lia.
  destruct (Z.ltb_spec (zlen s) (package_length_offset p + package_length_size p)) as [|Hge]; [done|].
  unfold announced, default_total. rewrite skipn_firstn_comm.
  destruct (unpack_take (package_length_type p) (drop (Z.to_nat (package_length_offset p)) s)
    (Z.to_nat (package_length_offset p + package_length_size p) - Z.to_nat (package_length_offset p)))
    as [-> [x ->]]; [done|lia|unfold zlen in *; rewrite length_drop; lia|].
  cbn [mbind option_bind]. by destruct (x <? 0).
Qed.

(** C23: framing by length is exact and independent of how the stream arrives.
    If the bytes in the buffer and the bytes still to come form the packages [ps]
    and an incomplete rest [r] under the configured length field, then reading
    them in chunks of any sizes hands exactly [ps], in order, to [onPackage] and
    leaves exactly [r] in the buffer, without ever writing outside it. *)
Theorem length_protocol_frames fresh {St} (onPackage : St → bytes → Z * bool * St) h p c ps r :
  (∀ n, length (fresh n) = n) → (∀ st d, onPackage st d = (0, false, h st d)) →
  length_config p → idle p (default_total p) c → frames p (default_total p) (pending c) ps r →
  ∃ c', drain fresh onPackage p (default_length_func p None) (length (net_data (net c))) c = Some c' ∧
    net c' = [] ∧ contents (buffer c') = r ∧ app c' = fold_left h ps (app c).
Proof.
  intros Hfr Hacc Hp Hid Hf. pose proof Hp as (Ht & Ho & Hsz & Hmax).
  pose proof (type_size_pos _ Ht) as Hpos.
  destruct (drain_spec fresh Hfr onPackage h Hacc p (default_total p) (default_length_func p None)
    ltac:(lia) Hmax (λ s, default_length_total p s Hp) (length (net_data (net c))) c ps r)
    as (c' & -> & _ & Hn & Hr & Ha); [done|done|unfold zlen; lia|].
  by exists c'.
Qed.

Lemma length_protocol_frames_witness :
  let p := MkProtocol false [] 110 2 0 2 1000 in
  let c := MkConn (MkString 0 16 0 (repeat 0 16))
             [Got [0]; Got [3; 7; 8]; Got [9; 0; 1; 5; 0; 9]; Got [1; 2]] false false false
             ([] : list bytes) in
  ∃ c', drain (repeat 0) (λ st d, (0, false, st ++ [d])) p (default_length_func p None)
          (length (net_data (net c))) c = Some c' ∧
    net c' = [] ∧ contents (buffer c') = [0; 9; 1; 2] ∧
    app c' = [[0; 3; 7; 8; 9]; [0; 1; 5]].
Proof.
  intros p c.
  apply (length_protocol_frames (repeat 0) (λ st d, (0, false, st ++ [d])) (λ st d, st ++ [d]) p c
    [[0; 3; 7; 8; 9]; [0; 1; 5]] [0; 9; 1; 2]).
  - apply repeat_length.
  - done.
  - split; [by vm_compute; do 4 right; left|by vm_compute].
  - unfold idle, wf, only_data; cbn. split_and!; try (by vm_compute); try lia.
    repeat apply Forall_cons_2; try apply Forall_nil_2; eexists; split; done.
  - set (t := default_total p). set (s0 := pending c).
    set (s1 := drop (Z.to_nat (announced p t s0)) s0).
    set (s2 := drop (Z.to_nat (announced p t s1)) s1).
    assert ([0; 9; 1; 2] = s2) as -> by (vm_compute; reflexivity).
    assert ([0; 3; 7; 8; 9] = take (Z.to_nat (announced p t s0)) s0) as -> by (vm_compute; reflexivity).
    assert ([0; 1; 5] = take (Z.to_nat (announced p t s1)) s1) as -> by (vm_compute; reflexivity).
    apply frames_package; [by vm_compute..|]. apply frames_package; [by vm_compute..|].
    apply frames_body; by vm_compute.
Defined.

(** ** Framing by a delimiter *)

Lemma cuts_app d s ps r t ps' r' :
  d ≠ [] → cuts d s ps r → cuts d (r ++ t) ps' r' → cuts d (s ++ t) (ps ++ ps') r'.
Proof.
  intros Hd. induction 1 as [|s i ps r Ho Hmin Hc IH]; intros Ht; [done|].
  pose proof (occ_bound _ _ _ Hd Ho) as Hb. cbn [app].
  rewrite <- (take_app_le s t (i + length d)) by lia. apply cuts_package.
  - by apply occ_app_l.
  - intros j Hj Hoj. apply (Hmin j Hj). apply occ_app_l in Hoj; [done|lia].
  - rewrite drop_app_le by lia. by apply IH.
Qed.

(** The pieces of a prefix of the stream are the first pieces of the stream. *)
Lemma cuts_prefix d s ps r t ps' r' :
  d ≠ [] → cuts d s ps r → cuts d (s ++ t) ps' r' → ∃ ps2, ps' = ps ++ ps2 ∧ cuts d (r ++ t) ps2 r'.
Proof.
  intros Hd Hc. revert ps'. induction Hc as [|s i ps r Ho Hmin Hc IH]; intros ps' Hs; [by exists ps'|].
  pose proof (occ_bound _ _ _ Hd Ho) as Hb. inversion Hs as [s0 Hno|s0 i' ps0 r0 Ho' Hmin' Hc']; subst.
  { destruct (Hno i). by apply occ_app_l. }
  assert (i' = i) as ->.
  { destruct (Nat.lt_trichotomy i i') as [Hlt|[->|Hlt]]; [|done|].
    - destruct (Hmin' i Hlt). by apply occ_app_l.
    - destruct (Hmin i' Hlt). apply occ_app_l in Ho'; [done|lia]. }
  rewrite drop_app_le in Hc' by lia. destruct (IH _ Hc') as (ps2 & -> & ?). exists ps2.
  by rewrite (take_app_le s t) by lia.
Qed.

Lemma no_occ_before d s t o :
  d ≠ [] → (∀ j, ¬ occ d s j) → (o + length d <= length s + 1)%nat ∨ o = 0%nat →
  ∀ j, (j < o)%nat → ¬ occ d (s ++ t) j.
Proof. intros Hd Hno Ho j Hj Hoj. apply (Hno j). apply occ_app_l in Hoj; [done|lia]. Qed.

Section EofProofs.
Context {St : Type} (onPackage : St → bytes → Z * bool * St) (h : St → bytes → St).
Hypothesis accepts : ∀ st d, onPackage st d = (0, false, h st d).
Variable p : Protocol.
Hypothesis Hne : package_eof p ≠ [].

(** A connection between two reads: no delimiter in the buffer, and the search
    will resume at most a delimiter's length before its end. *)
Definition eof_idle (c : Conn St) : Prop :=
  let b := buffer c in
  wf b ∧ removed c = false ∧ (∀ j, ¬ occ (package_eof p) (contents b) j) ∧
  0 <= s_offset b <= s_length b ∧
  (s_offset b + zlen (package_eof p) <= s_length b + 1 ∨ s_offset b = 0).

Definition eof_h (s : option Z * bool * St) (d : bytes) : option Z * bool * St :=
  let '(r, rm, st) := s in (r, rm, h st d).

Lemma eof_fold ps r st :
  fold_left eof_h ps (r, false, st) = (r, false, fold_left h ps st).
Proof. revert st. induction ps as [|x ps IH]; intros st; [done|]. apply IH. Qed.

(** What [recv_split_by_eof] does with the data that was received. *)
Lemma eof_split_spec c b data :
  eof_idle c → s_length (buffer c) + zlen data <= s_size (buffer c) → received (buffer c) data = Some b →
  ∃ ret c' ps, recv_split_by_eof onPackage p (set_buffer c b) = Some (ret, c') ∧ eof_idle c' ∧
    s_size (buffer c') = s_size (buffer c) ∧ net c' = net c ∧
    cuts (package_eof p) (contents (buffer c) ++ data) ps (contents (buffer c')) ∧
    app c' = fold_left h ps (app c) ∧ (s_length b < zlen (package_eof p) → c' = set_buffer c b) ∧
    (ret = OSW_CONTINUE ∧ ps = [] ∨ ret = OSW_OK ∧ s_length (buffer c') < s_length b).
Proof.
  intros (Hw & Hrm & Hno & Hoff & Hoo) Hfit Hrec.
  destruct (received_spec (buffer c) data Hw Hfit) as (b1 & Hrec1 & Hwb & Hcb & Hob & Hsb & Hlb).
  rewrite Hrec in Hrec1. injection Hrec1 as <-.
  pose proof (contents_zlen _ Hw) as Hcz. pose proof (contents_zlen _ Hwb) as Hcbz.
  pose proof (zlen_nonneg data) as Hd0. apply zlen_pos in Hne as He0.
  unfold recv_split_by_eof. cbn [buffer set_buffer app removed net].
  rewrite Hrm. destruct (Z.ltb_spec (s_length b) (zlen (package_eof p))) as [Hlt|Hge].
  { exists OSW_CONTINUE, (set_buffer c b), []. split; [done|]. cbn [buffer set_buffer]. rewrite <- Hcb.
    assert (∀ j, ¬ occ (package_eof p) (contents b) j) as Hnob.
    { intros j Hj%occ_bound; [|done]. unfold zlen in *. lia. }
    split; [|split_and!; try done; [by constructor|by left]].
    unfold eof_idle. cbn [buffer set_buffer removed]. split_and!; try done; lia. }
  destruct (split_cuts (eof_handler onPackage) eof_h (λ s, s.1.2 = false)) with
    (s := b) (d := package_eof p) (st := (None : option Z, false, app c))
    as (ps & r & b' & Hc & -> & Hl' & Hs' & Hstr & Hempty); try done.
  { intros [[rv rm] st] x. cbn. intros ->. rewrite accepts. done. }
  { lia. }
  { rewrite Hcb, Hob. apply no_occ_before; [done|done|]. unfold zlen in *. lia. }
  rewrite eof_fold. cbn [mbind option_bind].
  pose proof (cuts_concat _ _ _ _ Hc) as Hcat. pose proof (cuts_no_rest _ _ _ _ Hc) as Hnor.
  assert (zlen r <= s_length b) as Hrl.
  { rewrite <- Hcbz, Hcat, zlen_app. pose proof (zlen_nonneg (concat ps)). lia. }
  assert (wf b' → contents b' = contents b) as Hcont by (intros; unfold contents; by rewrite Hl', Hstr).
  assert (s_size b <> 0) as Hsz0 by (destruct Hwb; lia).
  assert (wf b') as Hwb'.
  { destruct Hwb as (?&?&?&?). unfold wf. rewrite Hl', Hs', Hstr. split_and!; try done; lia. }
  specialize (Hcont Hwb').
  rewrite (proj2 (Z.ltb_ge _ 0)) by lia. destruct (Z.eqb_spec (s_length b - zlen r) 0) as [E0|En0].
  { (* no delimiter yet *)
    assert (ps = []) as ->.
    { inversion Hc as [|s0 i ps0 r0 Hoc _ Hc' E1 E2 E3]; subst; [done|].
      apply cuts_concat in Hc'. apply (f_equal length) in Hc'. rewrite length_drop, length_app in Hc'.
      apply occ_bound in Hoc; [|done]. unfold zlen in *. lia. }
    eexists OSW_CONTINUE, _, []. split; [done|]. cbn [buffer net app fst snd]. rewrite Hcont, <- Hcb.
    split; [|split; [lia|split; [done|split; [|split_and!; [done|lia|by left]]]]].
    - unfold eof_idle. cbn [buffer removed]. rewrite Hcont, (Hempty eq_refl).
      inversion Hc; subst. split_and!; try done; lia.
    - inversion Hc; subst. by constructor. }
  assert (∀ l : list bytes, app (MkConn b' (net c) (recv_wait c) (skip_recv c) false (fold_left h l (app c)))
    = fold_left h l (app c)) as Happ by done.
  rewrite Hl'. destruct (Z.ltb_spec (s_length b - zlen r) (s_length b)) as [Hlt2|Hge2].
  - destruct (reduce_spec b' (s_length b - zlen r) Hwb') as (b2 & -> & Hw2 & Hc2 & Ho2 & Hl2 & Hs2); [lia|].
    cbn [mbind option_bind]. eexists OSW_OK, _, ps. split; [done|]. cbn [buffer set_buffer app net fst snd].
    assert (contents b2 = r) as Hr2.
    { rewrite Hc2, Hcont, Hcat. apply drop_app_length'. rewrite <- Hcbz, Hcat, zlen_app. unfold zlen. lia. }
    change (contents (with_offset b2 _)) with (contents b2). rewrite Hr2, <- Hcb.
    split; [|split_and!; try done; [cbn; lia|lia|right; split; [done|cbn; lia]]].
    unfold eof_idle. cbn [buffer removed set_buffer with_offset s_offset s_length].
    change (contents (with_offset b2 _)) with (contents b2). rewrite Hr2.
    split_and!; try done.
    + destruct Hw2 as (?&?&?&?). unfold wf; cbn. split_and!; try done; lia.
    + case_Z; lia.
    + pose proof (zlen_nonneg r). case_Z; lia.
    + case_Z; lia.
  - eexists OSW_OK, _, ps. split; [done|]. cbn [buffer set_buffer app net fst snd].
    assert (r = []) as -> by (apply zlen_0; pose proof (zlen_nonneg r); lia).
    change (contents (clear b')) with (@nil Z). rewrite <- Hcb.
    split; [|split_and!; try done; [cbn; lia|lia|right; split; [done|cbn; lia]]].
    unfold eof_idle. cbn. destruct Hwb' as (?&?&?&?). unfold wf; cbn. split_and!; try done; try lia.
    all: exact Hnor.
Qed.

(** ** The handler of the delimiter protocol *)

Variable fresh : nat → bytes.
Hypothesis fresh_length : ∀ n, length (fresh n) = n.
Variable pagesize : Z.
Hypothesis Hsplit : split_by_eof p = true.
Hypothesis Hpage : 16 <= pagesize.
Hypothesis Hmax : 2 * package_max_length p + pagesize <= 2 ^ 32.

(** A connection between two reads, with room in its buffer. *)
Definition eof_ready (c : Conn St) : Prop :=
  eof_idle c ∧ only_data (net c) ∧ zlen (package_eof p) <= s_size (buffer c) < 2 ^ 31 ∧
  s_length (buffer c) < s_size (buffer c).

(** A stream that the protocol accepts: no package is longer than [package_max_length], and the
    unfinished one is shorter. *)
Definition fits (ps : list bytes) (r : bytes) : Prop :=
  Forall (λ x, zlen x <= package_max_length p) ps ∧ zlen r < package_max_length p.

(** An unfinished package is shorter than the maximum. *)
Lemma fits_prefix s t ps r :
  (∀ j, ¬ occ (package_eof p) s j) → cuts (package_eof p) (s ++ t) ps r → fits ps r →
  zlen s < package_max_length p.
Proof.
  intros Hno Hc [Hps Hr]. inversion Hc as [s0 Hno'|s0 i ps0 r0 Ho Hmin Hc']; subst.
  - rewrite zlen_app in Hr. pose proof (zlen_nonneg t). lia.
  - apply Forall_cons in Hps as [Hx _]. pose proof (occ_bound _ _ _ Hne Ho) as Hb.
    destruct (Nat.le_gt_cases (i + length (package_eof p)) (length s)) as [Hle|Hgt].
    + destruct (Hno i). by apply occ_app_l in Ho.
    + unfold zlen in *. rewrite length_take in Hx. lia.
Qed.

(** The buffer of an unfinished package is extended when it is full. *)
Lemma eof_room c :
  eof_idle c → only_data (net c) → zlen (package_eof p) <= s_size (buffer c) < 2 ^ 31 →
  s_length (buffer c) = s_size (buffer c) → s_length (buffer c) < package_max_length p →
  ∃ b, extend fresh (buffer c) (let e := u32 (openswoole_size_align (s_size (buffer c) * 2) pagesize) in
      if e >? package_max_length p then package_max_length p else e) = Some b ∧
    contents b = contents (buffer c) ∧ eof_ready (set_buffer c b).
Proof.
  intros (Hw & Hrm & Hno & Hoff & Hoo) Hod Hsz Hfull Hlen. pose proof Hw as (Hl & _).
  unfold openswoole_size_align. pose proof (Z.mod_pos_bound (s_size (buffer c) * 2) pagesize ltac:(lia)) as Hmod.
  cbv zeta. rewrite u32_small by lia. set (e := s_size (buffer c) * 2 + _).
  set (n := if e >? package_max_length p then _ else e).
  assert (s_size (buffer c) < n <= package_max_length p) as Hn.
  { unfold n. rewrite Z.gtb_ltb. destruct (Z.ltb_spec (package_max_length p) e); [lia|].
    assert (0 < zlen (package_eof p)) by by apply zlen_pos. lia. }
  unfold extend. rewrite (proj2 (Z.ltb_lt _ _)) by lia. eexists. split; [done|].
  destruct (reserve_spec fresh fresh_length (buffer c) n Hw ltac:(lia) ltac:(lia)) as (Hw' & Hc' & Ho' & Hl' & Hs').
  split; [done|]. assert (s_size (reserve fresh (buffer c) n) < n + 8) as Hup.
  { unfold reserve. assert (0 < zlen (package_eof p)) by by apply zlen_pos.
    rewrite (proj2 (Z.eqb_neq _ _)) by lia. cbn. pose proof (aligned_size_bounds n). lia. }
  unfold eof_ready, eof_idle. cbn [buffer set_buffer removed net]. rewrite Hc', Ho', Hl'. split_and!; (done || lia).
Qed.

(** One call reads until a package is complete or nothing is there to be read. *)
Lemma eof_call fuel c again ps r :
  eof_ready c → cuts (package_eof p) (contents (buffer c) ++ net_data (net c)) ps r → fits ps r →
  zlen (net_data (net c)) < Z.of_nat fuel →
  ∃ c' ps1 ps2, recv_with_eof_protocol fresh onPackage fuel pagesize p again c = Some (OSW_OK, c') ∧
    eof_ready c' ∧ ps = ps1 ++ ps2 ∧ cuts (package_eof p) (contents (buffer c') ++ net_data (net c')) ps2 r ∧
    app c' = fold_left h ps1 (app c) ∧ zlen (net_data (net c')) <= zlen (net_data (net c)) ∧
    (net c ≠ [] → zlen (net_data (net c')) < zlen (net_data (net c))).
Proof.
  revert c again ps. induction fuel as [|fuel IH]; intros c again ps Hid Hc Hfit Hf.
  { pose proof (zlen_nonneg (net_data (net c))). lia. }
  pose proof Hid as (Hei & Hod & Hsz & Hroom). pose proof Hei as (Hw & _). pose proof Hw as (Hl & _).
  cbn [recv_with_eof_protocol]. rewrite i32_small by lia.
  set (n := if s_size (buffer c) - s_length (buffer c) >? OSW_BUFFER_SIZE_STD then _ else _).
  assert (0 < n <= s_size (buffer c) - s_length (buffer c)) as Hn.
  { unfold n, OSW_BUFFER_SIZE_STD. rewrite Z.gtb_ltb. case_Z; lia. }
  destruct (decide (net c = [])) as [Hnil|Hnn].
  { assert (recv (net c) n = (WouldBlock, [])) as ->.
    { rewrite Hnil. unfold recv. by rewrite (proj2 (Z.leb_gt n 0)) by lia. }
    assert (set_net c [] = c) as -> by (destruct c; cbn in *; by subst).
    exists c, [], ps. split_and!; try done; lia. }
  destruct (recv_data (net c) n Hod Hnn ltac:(lia)) as (d & net' & -> & Hd & Hdn & Hnd & Hod').
  destruct (received_spec (buffer c) d Hw ltac:(lia)) as (b & Hb & Hwb & Hcb & Hob & Hsb & Hlb). rewrite Hb.
  cbn [mbind option_bind]. apply zlen_pos in Hd. rewrite Hsplit.
  assert (eof_idle (set_net c net')) as Hei' by exact Hei.
  destruct (eof_split_spec (set_net c net') b d Hei' ltac:(cbn; lia) Hb) as (ret & c1 & ps1 & Hs & Hid1 & Hs1 & Hn1 & Hc1 & Ha1 & Hsmall & Hret).
  cbn [buffer set_net app] in Hs1, Hn1, Hc1, Ha1.
  rewrite Hnd, (assoc_L (++)) in Hc. destruct (cuts_prefix _ _ _ _ _ _ _ Hne Hc1 Hc) as (ps2 & -> & Hc2).
  assert (zlen (net_data net') < zlen (net_data (net c))) as Hlt by (rewrite Hnd, zlen_app; lia).
  assert (net c1 = net') as Hn1' by (rewrite Hn1; done).
  assert (s_length (buffer c1) < s_size (buffer c1) → eof_ready c1) as Hready.
  { intros Hx. split; [done|]. rewrite Hn1'. split; [done|]. rewrite Hs1 in *. lia. }
  cbn [buffer set_buffer]. destruct (Z.ltb_spec (s_length b) (zlen (package_eof p))) as [Hlt2|Hge2].
  { rewrite <- (Hsmall Hlt2). exists c1, ps1, ps2. split; [done|]. split; [apply Hready; rewrite (Hsmall Hlt2); cbn; lia|].
    rewrite Hn1'. split_and!; try done. lia. }
  rewrite Hs. cbn [mbind option_bind]. destruct Hret as [[-> ->]|[-> Hless]].
  2: { cbn [Z.eqb OSW_OK OSW_CONTINUE OSW_CLOSE]. exists c1, ps1, ps2. split; [done|]. split; [apply Hready; lia|].
       rewrite Hn1'. split_and!; try done. lia. }
  change (OSW_CONTINUE =? OSW_CONTINUE) with true. cbv iota.
  assert (zlen (contents (buffer c1)) < package_max_length p) as Hlm.
  { eapply fits_prefix; [by destruct Hid1 as (_ & _ & ? & _)|done|done]. }
  assert (s_length (buffer c1) = zlen (contents (buffer c1))) as Hl1 by (symmetry; apply contents_zlen; by destruct Hid1).
  rewrite (proj2 (Z.eqb_neq (s_length (buffer c1)) _)) by lia.
  assert (∀ b', contents b' = contents (buffer c1) → eof_ready (set_buffer c1 b') →
    ∃ c' ps1 ps3, recv_with_eof_protocol fresh onPackage fuel pagesize p true (set_buffer c1 b') = Some (OSW_OK, c') ∧
      eof_ready c' ∧ ps2 = ps1 ++ ps3 ∧ cuts (package_eof p) (contents (buffer c') ++ net_data (net c')) ps3 r ∧
      app c' = fold_left h ps1 (app c) ∧ zlen (net_data (net c')) < zlen (net_data (net c))) as Hgo.
  { intros b' Hcb' Hr'. destruct (IH (set_buffer c1 b') true ps2) as (c' & qs & ps3 & Hq & ? & ? & ? & Hq2 & Hle & _); try done.
    - cbn [buffer set_buffer net]. by rewrite Hcb', Hn1'.
    - cbn [net set_buffer]. rewrite Hn1'. lia.
    - exists c', qs, ps3. cbn [net set_buffer] in Hle. rewrite Hn1' in Hle. split_and!; try done; [|lia].
      rewrite Hq2. cbn [app set_buffer]. by rewrite Ha1. }
  assert (∀ X, (∃ c' ps1 ps3, X = Some (OSW_OK, c') ∧ eof_ready c' ∧ ps2 = ps1 ++ ps3 ∧
      cuts (package_eof p) (contents (buffer c') ++ net_data (net c')) ps3 r ∧
      app c' = fold_left h ps1 (app c) ∧ zlen (net_data (net c')) < zlen (net_data (net c))) →
    ∃ c' ps1 ps3, X = Some (OSW_OK, c') ∧ eof_ready c' ∧ [] ++ ps2 = ps1 ++ ps3 ∧
      cuts (package_eof p) (contents (buffer c') ++ net_data (net c')) ps3 r ∧
      app c' = fold_left h ps1 (app c) ∧ zlen (net_data (net c')) <= zlen (net_data (net c)) ∧
      (net c ≠ [] → zlen (net_data (net c')) < zlen (net_data (net c)))) as Hend.
  { intros X (c' & q1 & q2 & -> & ? & ? & ? & ? & ?). exists c', q1, q2. split_and!; try done. lia. }
  apply Hend. destruct (Z.eqb_spec (s_length (buffer c1)) (s_size (buffer c1))) as [Hfull|Hnf].
  - rewrite (proj2 (Z.ltb_lt _ _)) by lia.
    destruct (eof_room c1) as (b' & He & Hcb' & Hr'); [done|by rewrite Hn1'|lia|done|lia|]. cbv zeta in He |- *. rewrite He. cbn [mbind option_bind]. by apply Hgo.
  - assert (set_buffer c1 (buffer c1) = c1) as <- by by destruct c1. apply Hgo; [done|].
    assert (set_buffer c1 (buffer c1) = c1) as -> by by destruct c1. apply Hready.
    destruct Hid1 as ((? & _) & _). lia.
Qed.

(** The event loop calls the handler until nothing is left to read. *)
Fixpoint drain_eof (calls : nat) (c : Conn St) : option (Conn St) :=
  match calls with
  | O => Some c
  | S calls =>
    if bool_decide (net c = []) then Some c else
    r ← recv_with_eof_protocol fresh onPackage (S (length (net_data (net c)))) pagesize p false c;
    if r.1 =? OSW_OK then drain_eof calls r.2 else None
  end.

Lemma drain_eof_spec calls c ps r :
  eof_ready c → cuts (package_eof p) (contents (buffer c) ++ net_data (net c)) ps r → fits ps r →
  zlen (net_data (net c)) <= Z.of_nat calls →
  ∃ c', drain_eof calls c = Some c' ∧ net c' = [] ∧ contents (buffer c') = r ∧ app c' = fold_left h ps (app c).
Proof.
  revert c ps. induction calls as [|calls IH]; intros c ps Hid Hc Hfit Hz; pose proof Hid as ((_ & _ & Hno & _) & Hod & _); cbn [drain_eof].
  all: assert (net c = [] → ps = [] ∧ r = contents (buffer c)) as Hrest
    by (intros E; rewrite E in Hc; cbn in Hc; rewrite app_nil_r in Hc; inversion Hc; subst; [done|by edestruct Hno]).
  - assert (net c = []) as Hn.
    { destruct (decide (net c = [])) as [|Hne']; [done|]. apply only_data_nonempty in Hne'; [lia|done]. }
    destruct (Hrest Hn) as [-> ->]. by exists c.
  - case_bool_decide as Hn; [destruct (Hrest Hn) as [-> ->]; by exists c|].
    destruct (eof_call (S (length (net_data (net c)))) c false ps r Hid Hc Hfit ltac:(unfold zlen; lia))
      as (c1 & ps1 & ps2 & -> & Hid1 & -> & Hc1 & Ha1 & _ & Hlt). specialize (Hlt Hn).
    cbn [mbind option_bind fst snd]. rewrite Z.eqb_refl. destruct Hfit as [[_ Hps]%Forall_app Hr].
    destruct (IH c1 ps2 Hid1 Hc1 (conj Hps Hr) ltac:(lia)) as (c' & -> & ? & ? & Ha).
    exists c'. by rewrite Ha, Ha1, fold_left_app.
Qed.
End EofProofs.

(** C24: framing by a delimiter is exact and independent of the chunking.  If the bytes in the
    buffer and those still to come, cut after every occurrence of the delimiter, are the packages
    [ps] and a rest [r], no package is longer than [package_max_length] and the rest is shorter,
    then, with [split_by_eof], reading them through [recv_with_eof_protocol] in chunks of any sizes
    hands exactly [ps], in order, to an [onPackage] that accepts them and leaves exactly [r] in the
    buffer, which is extended as needed; a delimiter may be split between two chunks.  The maximum
    is below 2 GiB, less half a page, so that the size of the extension does not wrap. *)
Theorem eof_protocol_cuts fresh {St} (onPackage : St → bytes → Z * bool * St) h pagesize p c ps r :
  (∀ n, length (fresh n) = n) → (∀ st d, onPackage st d = (0, false, h st d)) →
  split_by_eof p = true → package_eof p ≠ [] → 16 <= pagesize → 2 * package_max_length p + pagesize <= 2 ^ 32 →
  eof_ready p c → cuts (package_eof p) (contents (buffer c) ++ net_data (net c)) ps r → fits p ps r →
  ∃ c', drain_eof onPackage p fresh pagesize (length (net_data (net c))) c = Some c' ∧
    net c' = [] ∧ contents (buffer c') = r ∧ app c' = fold_left h ps (app c).
Proof.
  intros Hfr Hacc Hsp Hne Hpg Hmax Hid Hc Hfit.
  by apply (drain_eof_spec onPackage h Hacc p Hne fresh Hfr pagesize Hsp Hpg Hmax); [..|unfold zlen; lia].
Qed.

Lemma eof_protocol_cuts_witness :
  let p := MkProtocol true (lit "END") 0 0 0 0 1000 in
  let c := MkConn (MkString 0 4 0 (repeat 0 4)) [Got (lit "aE"); Got (lit "NDbEN"); Got (lit "D"); Got (lit "longcEN")]
             false false false ([] : list bytes) in
  ∃ c', drain_eof (λ st d, (0, false, st ++ [d])) p (repeat 0) 16 (length (net_data (net c))) c = Some c' ∧
    net c' = [] ∧ contents (buffer c') = lit "longcEN" ∧ app c' = [lit "aEND"; lit "bEND"].
Proof.
  intros p c.
  assert (∀ s, (length s < 3)%nat → ∀ j, ¬ occ (lit "END") s j) as Hshort.
  { intros s Hs j Hj%occ_bound; [|done]. change (length (lit "END")) with 3%nat in Hj. lia. }
  apply (eof_protocol_cuts (repeat 0) (λ st d, (0, false, st ++ [d])) (λ st d, st ++ [d]) 16 p c [lit "aEND"; lit "bEND"] (lit "longcEN")).
  - apply repeat_length.
  - done.
  - done.
  - done.
  - done.
  - by vm_compute.
  - unfold eof_ready, eof_idle, wf, only_data; cbn. split_and!; try (by vm_compute); try lia.
    + intros j. apply Hshort. by vm_compute; lia.
    + repeat apply Forall_cons_2; try apply Forall_nil_2; eexists; split; done.
  - set (s0 := contents (buffer c) ++ net_data (net c)). set (s1 := drop (1 + length (package_eof p)) s0).
    assert (lit "aEND" = take (1 + length (package_eof p)) s0) as -> by (vm_compute; reflexivity).
    assert (lit "bEND" = take (1 + length (package_eof p)) s1) as -> by (vm_compute; reflexivity).
    assert (lit "longcEN" = drop (1 + length (package_eof p)) s1) as -> by (vm_compute; reflexivity).
    apply cuts_package; [by vm_compute|intros j Hj; assert (j = 0)%nat as -> by lia; by vm_compute|].
    apply cuts_package; [by vm_compute|intros j Hj; assert (j = 0)%nat as -> by lia; by vm_compute|].
    apply cuts_rest. intros j Hj. assert (j + 3 <= 7)%nat as Hb by (apply (occ_bound _ _ _) in Hj; [exact Hj|discriminate]).
    assert (j = 0 ∨ j = 1 ∨ j = 2 ∨ j = 3 ∨ j = 4)%nat as [->|[->|[->|[->| ->]]]] by lia; by vm_compute in Hj.
  - split; [repeat constructor; by vm_compute|by vm_compute].
Defined.
