(* ===== verification/CoChannel.v ===== *)
(** * The coroutine channel: src/coroutine/channel.cc,
      include/openswoole_coroutine_channel.h

    Coroutines are cooperative: [co->resume()] runs the resumed coroutine at once
    and returns when it yields, so the running coroutines form a stack, the
    current one on top.  A configuration is the channel and that stack; a step is
    an operation of the current coroutine, the continuation of one that was just
    resumed, or an event of the loop (a timer, a cancellation).  What a coroutine
    does between channel operations is unrestricted.  [pushed] and [popped] are
    ghost histories. *)

From S2P Require Import Prelude.

(** Why a waiting coroutine runs again. *)
Inductive reason := Notified | TimedOut | Canceled.

(** Where a coroutine on the stack is: in its own code, resumed inside [push] or
    [pop], or inside one of the two loops of [close]. *)
Inductive pc :=
  | Own | WakePush (data : Z) (r : reason) | WakePop (r : reason) | CloseProducers | CloseConsumers.

(** [class Channel]; a waiting producer keeps its data in its own frame. *)
Record Channel := MkChan {
  capacity : nat; closed : bool; data_queue : list Z;
  producer_queue : list (Z * Z); consumer_queue : list Z }.

Record Config := MkConfig {
  chan : Channel; stack : list (Z * pc); pushed : list Z; popped : list Z }.

Definition is_empty (ch : Channel) : bool := bool_decide (data_queue ch = []).
Definition is_full (ch : Channel) : bool := (length (data_queue ch) =? capacity ch)%nat.
Definition length_ (ch : Channel) : nat := length (data_queue ch).
Definition consumer_num (ch : Channel) : nat := length (consumer_queue ch).
Definition producer_num (ch : Channel) : nat := length (producer_queue ch).
Definition is_closed (ch : Channel) : bool := closed ch.

Definition set_data (ch : Channel) (d : list Z) : Channel :=
  MkChan (capacity ch) (closed ch) d (producer_queue ch) (consumer_queue ch).
Definition set_queues (ch : Channel) (ps : list (Z * Z)) (cs : list Z) : Channel :=
  MkChan (capacity ch) (closed ch) (data_queue ch) ps cs.

(** [consumer_remove], [producer_remove]: every occurrence. *)
Definition consumer_remove (ch : Channel) (co : Z) : Channel :=
  set_queues ch (producer_queue ch) (filter (λ c, c ≠ co) (consumer_queue ch)).
Definition producer_remove (ch : Channel) (co : Z) : Channel :=
  set_queues ch (filter (λ c, c.1 ≠ co) (producer_queue ch)) (consumer_queue ch).

(** "notify consumer": [pop_coroutine(CONSUMER)] and [resume]. *)
Definition notify_consumer (cfg : Config) : Config :=
  match consumer_queue (chan cfg) with
  | [] => cfg
  | co :: cs => MkConfig (set_queues (chan cfg) (producer_queue (chan cfg)) cs)
                         ((co, WakePop Notified) :: stack cfg) (pushed cfg) (popped cfg)
  end.

(** "notify producer". *)
Definition notify_producer (cfg : Config) : Config :=
  match producer_queue (chan cfg) with
  | [] => cfg
  | (co, v) :: ps => MkConfig (set_queues (chan cfg) ps (consumer_queue (chan cfg)))
                              ((co, WakePush v Notified) :: stack cfg) (pushed cfg) (popped cfg)
  end.

(** "push data" and what follows, by the coroutine on top of the stack. *)
Definition do_push (cfg : Config) (v : Z) : Config :=
  notify_consumer (MkConfig (set_data (chan cfg) (data_queue (chan cfg) ++ [v])) (stack cfg)
                            (pushed cfg ++ [v]) (popped cfg)).

(** "pop data" and what follows; [data_queue.front()] of an empty queue is
    undefined. *)
Definition do_pop (cfg : Config) : option Config :=
  match data_queue (chan cfg) with
  | [] => None
  | v :: d => Some (notify_producer (MkConfig (set_data (chan cfg) d) (stack cfg)
                                              (pushed cfg) (popped cfg ++ [v])))
  end.

Inductive action :=
  | Push (v : Z)      (* the current coroutine calls [push] *)
  | Pop               (* ... [pop] *)
  | Close             (* ... [close] *)
  | Leave             (* it yields elsewhere or ends *)
  | Enter (co : Z)    (* a coroutine not waiting here is resumed *)
  | Timeout (co : Z)  (* [timer_callback] of a waiting coroutine, from the event loop *)
  | Cancel (co : Z)   (* [cancel_fn] of a waiting coroutine *)
  | Continue.         (* the coroutine on top goes on after [yield] or inside [close] *)

Definition with_stack (cfg : Config) (s : list (Z * pc)) : Config :=
  MkConfig (chan cfg) s (pushed cfg) (popped cfg).

Definition with_chan (cfg : Config) (ch : Channel) : Config :=
  MkConfig ch (stack cfg) (pushed cfg) (popped cfg).

(** Resuming a waiting coroutine with a reason. *)
Definition remove_waiter (cfg : Config) (co : Z) (r : reason) : option Config :=
  let ch := chan cfg in
  if decide (co ∈ consumer_queue ch) then
    Some (MkConfig (consumer_remove ch co) ((co, WakePop r) :: stack cfg) (pushed cfg) (popped cfg))
  else match list_find (λ c, c.1 = co) (producer_queue ch) with
       | Some (_, (_, v)) =>
         Some (MkConfig (producer_remove ch co) ((co, WakePush v r) :: stack cfg)
                        (pushed cfg) (popped cfg))
       | None => None
       end.

(** [Channel::push] up to [yield]. *)
Definition push (cfg : Config) (co : Z) (s : list (Z * pc)) (v : Z) : Config :=
  let ch := chan cfg in
  if closed ch then cfg
  else if is_full ch || negb (bool_decide (producer_queue ch = [])) then
    MkConfig (set_queues ch (producer_queue ch ++ [(co, v)]) (consumer_queue ch)) s
             (pushed cfg) (popped cfg)
  else do_push cfg v.

(** [Channel::pop] up to [yield]. *)
Definition pop (cfg : Config) (co : Z) (s : list (Z * pc)) : option Config :=
  let ch := chan cfg in
  if closed ch && is_empty ch then Some cfg
  else if is_empty ch || negb (bool_decide (consumer_queue ch = [])) then
    Some (MkConfig (set_queues ch (producer_queue ch) (consumer_queue ch ++ [co])) s
                   (pushed cfg) (popped cfg))
  else do_pop cfg.

(** [Channel::close] before the loops. *)
Definition close (cfg : Config) (co : Z) (s : list (Z * pc)) : Config :=
  let ch := chan cfg in
  if closed ch then cfg
  else MkConfig (MkChan (capacity ch) true (data_queue ch) (producer_queue ch) (consumer_queue ch))
                ((co, CloseProducers) :: s) (pushed cfg) (popped cfg).

(** The code after [yield] in [push] and [pop], and the loops of [close]. *)
Definition continue (cfg : Config) (co : Z) (p : pc) (s : list (Z * pc)) : option Config :=
  let ch := chan cfg in
  let cfg' := with_stack cfg ((co, Own) :: s) in
  match p with
  | Own => None
  | WakePush _ Canceled | WakePush _ TimedOut => Some cfg'
  | WakePush v Notified => Some (if closed ch then cfg' else do_push cfg' v)
  | WakePop Canceled | WakePop TimedOut => Some cfg'
  | WakePop Notified => if closed ch && is_empty ch then Some cfg' else do_pop cfg'
  | CloseProducers =>
    if bool_decide (producer_queue ch = []) then Some (with_stack cfg ((co, CloseConsumers) :: s))
    else Some (notify_producer cfg)
  | CloseConsumers =>
    if bool_decide (consumer_queue ch = []) then Some cfg' else Some (notify_consumer cfg)
  end.

(** Coroutines that cannot be entered. *)
Definition busy (cfg : Config) : list Z :=
  (producer_queue (chan cfg)).*1 ++ consumer_queue (chan cfg) ++ (stack cfg).*1.

Definition own_code (cfg : Config) : bool :=
  match stack cfg with [] => true | (_, Own) :: _ => true | _ => false end.

Definition step (cfg : Config) (a : action) : option Config :=
  match a with
  | Continue =>
    match stack cfg with (co, p) :: s => continue cfg co p s | [] => None end
  | Enter co =>
    if own_code cfg && negb (bool_decide (co ∈ busy cfg))
    then Some (with_stack cfg ((co, Own) :: stack cfg)) else None
  | Timeout co =>
    match stack cfg with [] => remove_waiter cfg co TimedOut | _ => None end
  | Cancel co => if own_code cfg then remove_waiter cfg co Canceled else None
  | _ =>
    match stack cfg with
    | (co, Own) :: s =>
      match a with
      | Push v => Some (push cfg co s v)
      | Pop => pop cfg co s
      | Close => Some (close cfg co s)
      | _ => Some (with_stack cfg s)
      end
    | _ => None
    end
  end.

Fixpoint run (cfg : Config) (acts : list action) : option Config :=
  match acts with
  | [] => Some cfg
  | a :: acts => cfg ← step cfg a; run cfg acts
  end.

(** [Channel(capacity)]. *)
Definition init (cap : nat) : Config := MkConfig (MkChan cap false [] [] []) [] [] [].

(** ** Invariant *)

(** The state between operations: nobody waits for something that is there. *)
Definition quiet (ch : Channel) : Prop :=
  (consumer_queue ch ≠ [] → data_queue ch = []) ∧
  (producer_queue ch ≠ [] → closed ch = false → length (data_queue ch) = capacity ch).

(** The state a resumed coroutine finds. *)
Definition woken (ch : Channel) (p : pc) : Prop :=
  match p with
  | WakePop Notified =>
    if closed ch then quiet ch
    else data_queue ch ≠ [] ∧ producer_queue ch = [] ∧
         (consumer_queue ch ≠ [] → length (data_queue ch) = 1%nat)
  | WakePush _ Notified =>
    if closed ch then quiet ch
    else (length (data_queue ch) < capacity ch)%nat ∧ consumer_queue ch = [] ∧
         (producer_queue ch ≠ [] → S (length (data_queue ch)) = capacity ch)
  | _ => quiet ch
  end.

(** Coroutines below the top are in their own code or closing. *)
Definition lower (ch : Channel) (p : pc) : Prop :=
  match p with
  | Own => True
  | CloseProducers => closed ch = true
  | CloseConsumers => closed ch = true ∧ producer_queue ch = []
  | _ => False
  end.

Record inv (cfg : Config) : Prop := {
  inv_cap : (0 < capacity (chan cfg))%nat;
  inv_bound : (length (data_queue (chan cfg)) <= capacity (chan cfg))%nat;
  inv_one : producer_queue (chan cfg) = [] ∨ consumer_queue (chan cfg) = [];
  inv_top : match stack cfg with
            | [] => quiet (chan cfg)
            | (_, p) :: s =>
              woken (chan cfg) p ∧
              (match p with CloseProducers | CloseConsumers => lower (chan cfg) p | _ => True end) ∧
              Forall (λ e, lower (chan cfg) e.2) s
            end;
  inv_fifo : pushed cfg = popped cfg ++ data_queue (chan cfg) }.

Lemma lower_mono ch ch' (s : list (Z * pc)) :
  closed ch' = closed ch → (producer_queue ch = [] → producer_queue ch' = []) →
  Forall (λ e, lower ch e.2) s → Forall (λ e, lower ch' e.2) s.
Proof.
  intros Hc Hp Hs. eapply Forall_impl; [exact Hs|]. intros [c p].
  destruct p; cbn; rewrite ?Hc; naive_solver.
Qed.

(** A push into a channel with room, by a coroutine in its own code. *)
Lemma do_push_inv cfg co s v :
  stack cfg = (co, Own) :: s → (0 < capacity (chan cfg))%nat →
  producer_queue (chan cfg) = [] ∨ consumer_queue (chan cfg) = [] → closed (chan cfg) = false →
  (length (data_queue (chan cfg)) < capacity (chan cfg))%nat →
  (consumer_queue (chan cfg) ≠ [] → data_queue (chan cfg) = []) →
  (producer_queue (chan cfg) ≠ [] → S (length (data_queue (chan cfg))) = capacity (chan cfg)) →
  Forall (λ e, lower (chan cfg) e.2) s → pushed cfg = popped cfg ++ data_queue (chan cfg) →
  inv (do_push cfg v).
Proof.
  destruct cfg as [[cap cl d ps cs] st pu po]; cbn. intros -> Hcap Hone Hcl Hlt Hc Hp Hs Hf.
  unfold do_push, notify_consumer; cbn. destruct cs as [|c cs]; split; cbn.
  - done.
  - rewrite length_app. simpl. lia.
  - done.
  - split; [|split; [done|by eapply (lower_mono (MkChan cap cl d ps []))]].
    split; cbn; [done|]. intros Hne _. rewrite length_app. simpl. specialize (Hp Hne). lia.
  - by rewrite Hf, <- (assoc_L (++)).
  - done.
  - rewrite length_app. simpl. lia.
  - naive_solver.
  - rewrite Hcl. split; [|split; [done|]].
    + rewrite (Hc ltac:(done)). cbn. destruct Hone as [Hps|]; [|done]. by split_and!.
    + constructor; [done|]. by eapply (lower_mono (MkChan cap cl d ps (c :: cs))).
  - by rewrite Hf, <- (assoc_L (++)).
Qed.

(** A pop from a channel with data. *)
Lemma do_pop_inv cfg co s cfg' :
  stack cfg = (co, Own) :: s → (0 < capacity (chan cfg))%nat →
  producer_queue (chan cfg) = [] ∨ consumer_queue (chan cfg) = [] →
  (length (data_queue (chan cfg)) <= capacity (chan cfg))%nat →
  (consumer_queue (chan cfg) ≠ [] → length (data_queue (chan cfg)) = 1%nat) →
  (producer_queue (chan cfg) ≠ [] → closed (chan cfg) = false →
     length (data_queue (chan cfg)) = capacity (chan cfg)) →
  Forall (λ e, lower (chan cfg) e.2) s → pushed cfg = popped cfg ++ data_queue (chan cfg) →
  do_pop cfg = Some cfg' → inv cfg'.
Proof.
  destruct cfg as [[cap cl d ps cs] st pu po]; cbn. intros -> Hcap Hone Hle Hc Hp Hs Hf.
  unfold do_pop, notify_producer; cbn. destruct d as [|v d]; [done|]. cbn in *.
  destruct ps as [|[c w] ps]; intros [= <-]; split; cbn.
  - done.
  - lia.
  - by left.
  - split; [|split; [done|by eapply (lower_mono (MkChan cap cl (v :: d) [] cs))]].
    split; cbn; [|done]. intros Hne. specialize (Hc Hne). by destruct d; [|simpl in Hc; lia].
  - by rewrite Hf, <- (assoc_L (++)).
  - done.
  - lia.
  - destruct Hone; [done|by right].
  - destruct Hone as [|Hcs]; [done|]. subst cs. split; [|split; [done|]].
    + destruct cl; cbn.
      * split; cbn; done.
      * specialize (Hp ltac:(done) eq_refl). split_and!; [lia|done|lia].
    + constructor; [done|]. eapply (lower_mono (MkChan cap cl (v :: d) ((c, w) :: ps) [])); done.
  - by rewrite Hf, <- (assoc_L (++)).
Qed.

Lemma remove_waiter_inv cfg co r cfg' :
  inv cfg → r ≠ Notified → own_code cfg = true →
  remove_waiter cfg co r = Some cfg' → inv cfg'.
Proof.
  intros [Hcap Hb Hone Ht Hf] Hr Ho. destruct cfg as [[cap cl d ps cs] st pu po]; cbn in *.
  assert (quiet (MkChan cap cl d ps cs) ∧ Forall (λ e, lower (MkChan cap cl d ps cs) e.2) st) as [Hq Hs].
  { destruct st as [|[c p] s]; [by split|]. destruct Ht as (Hw & _ & Hs). unfold own_code in Ho. cbn in Ho.
    destruct p; try done. split; [done|]. by constructor. }
  assert (∀ P (HP : ∀ x : Z, Decision (P x)), filter P cs ≠ [] → cs ≠ []) as Hfc.
  { intros P HP Hn ->. by apply Hn. }
  unfold remove_waiter; cbn. destruct (decide (co ∈ cs)) as [Hin|Hin].
  - intros [= <-]. destruct Hq as [Hq1 Hq2]. split; cbn; try done.
    + destruct Hone as [->| ->]; [by left|by right].
    + split; [|split; [done|by eapply (lower_mono (MkChan cap cl d ps cs))]].
      destruct r; [done|..]; (split; cbn; [|done]; intros Hn; apply Hq1; by eapply Hfc).
  - destruct (list_find _ ps) as [[i [c v]]|] eqn:Hfd; [|done]. intros [= <-].
    destruct Hq as [Hq1 Hq2]. split; cbn; try done.
    + destruct Hone as [->| ->]; [by left|by right].
    + split; [|split; [done|]].
      * destruct r; [done|..]; (split; cbn; [done|]; intros Hn; apply Hq2; cbn; intros ->; by apply Hn).
      * eapply (lower_mono (MkChan cap cl d ps cs)); [done| |done]. cbn. by intros ->.
Qed.

Lemma continue_inv cfg co p s cfg' :
  inv cfg → stack cfg = (co, p) :: s → continue cfg co p s = Some cfg' → inv cfg'.
Proof.
  intros [Hcap Hb Hone Ht Hf] Hst. rewrite Hst in Ht. destruct Ht as (Hw & Hcl & Hs).
  destruct cfg as [[cap cl d ps cs] st pu po]; cbn in *. subst st.
  assert (quiet (MkChan cap cl d ps cs) →
    inv (MkConfig (MkChan cap cl d ps cs) ((co, Own) :: s) pu po)) as Hown.
  { intros Hq. by split. }
  unfold continue; cbn. destruct p as [|v []|[]| |]; try done; cbn in Hw, Hcl |- *.
  - destruct cl; intros [= <-]; [by apply Hown|].
    destruct Hw as (Hlt & Hcs & Hps). by apply (do_push_inv _ co s).
  - intros [= <-]. by apply Hown.
  - intros [= <-]. by apply Hown.
  - destruct cl; cbn.
    + unfold is_empty; cbn. case_bool_decide as He.
      { intros [= <-]. by apply Hown. }
      intros Hp. destruct Hw as [Hw1 Hw2]. eapply (do_pop_inv _ co s); [..|exact Hp]; try done; cbn.
      intros Hn. by specialize (Hw1 Hn).
    + intros Hp. destruct Hw as (Hd & Hps & Hcs). eapply (do_pop_inv _ co s); [..|exact Hp]; done.
  - intros [= <-]. by apply Hown.
  - intros [= <-]. by apply Hown.
  - case_bool_decide as Hps; intros [= <-].
    + split; cbn; try done. 
    + unfold notify_producer; cbn. destruct ps as [|[c w] ps]; [done|]. subst cl.
      split; cbn; try done.
      * destruct Hone; [done|by right].
      * split; [|split; [done|]].
        -- split; cbn; [|done]. intros Hn. by apply Hw.
        -- constructor; [done|]. eapply (lower_mono (MkChan cap true d ((c, w) :: ps) cs)); done.
  - destruct Hcl as [-> ->]. case_bool_decide as Hcs; intros [= <-].
    + by apply Hown.
    + unfold notify_consumer; cbn. destruct cs as [|c cs]; [done|]. split; cbn; try done.
      * by left.
      * split; [|split; [done|]].
        -- split; cbn; [|done]. intros Hn. by apply Hw.
        -- constructor; [done|]. eapply (lower_mono (MkChan cap true d [] (c :: cs))); done.
Qed.

Lemma own_inv cfg co s :
  inv cfg → stack cfg = (co, Own) :: s →
  quiet (chan cfg) ∧ Forall (λ e, lower (chan cfg) e.2) s.
Proof. intros [_ _ _ Ht _] Hst. rewrite Hst in Ht. by destruct Ht as (?&_&?). Qed.

Lemma lower_stack cfg s :
  inv cfg → Forall (λ e, lower (chan cfg) e.2) s → quiet (chan cfg) → inv (with_stack cfg s).
Proof.
  intros [Hcap Hb Hone Ht Hf] Hs Hq. split; try done. cbn.
  destruct s as [|[c p] s]; [done|]. apply Forall_cons in Hs as [Hp Hs].
  destruct p; cbn in Hp; try done.
Qed.

Lemma push_inv cfg co s v :
  inv cfg → stack cfg = (co, Own) :: s → inv (push cfg co s v).
Proof.
  intros Hi Hst. destruct (own_inv cfg co s Hi Hst) as [Hq Hs]. pose proof Hi as [Hcap Hb Hone _ Hf].
  destruct cfg as [[cap cl d ps cs] st pu po]; cbn in *. subst st. unfold push, is_full; cbn.
  destruct cl; [done|]. destruct Hq as [Hq1 Hq2]; cbn in *.
  destruct (Nat.eqb_spec (length d) cap) as [Hfull|Hroom]; cbn.
  - assert (cs = []) as ->.
    { destruct cs; [done|]. rewrite (Hq1 ltac:(done)) in Hfull. simpl in Hfull. lia. }
    assert (Forall (λ e, lower (MkChan cap false d (ps ++ [(co, v)]) []) e.2) s) as Hs'.
    { eapply Forall_impl; [exact Hs|]. intros [c p]. by destruct p; cbn; try (intros [? ?]). }
    assert (inv (MkConfig (MkChan cap false d (ps ++ [(co, v)]) []) [] pu po)) as Hi'.
    { split; cbn; try done. by right. }
    apply (lower_stack _ s Hi' Hs'). split; cbn; done.
  - case_bool_decide as Hps; cbn.
    + subst ps. apply (do_push_inv _ co s); try done; cbn. lia.
    + by specialize (Hq2 Hps eq_refl).
Qed.

Lemma pop_inv cfg co s cfg' :
  inv cfg → stack cfg = (co, Own) :: s → pop cfg co s = Some cfg' → inv cfg'.
Proof.
  intros Hi Hst. destruct (own_inv cfg co s Hi Hst) as [Hq Hs]. pose proof Hi as [Hcap Hb Hone _ Hf].
  destruct cfg as [[cap cl d ps cs] st pu po]; cbn in *. subst st. unfold pop, is_empty; cbn.
  destruct Hq as [Hq1 Hq2]; cbn in *. case_bool_decide as Hd; cbn.
  - destruct cl; cbn; intros [= <-]; [done|].
    assert (ps = []) as ->.
    { destruct ps; [done|]. specialize (Hq2 ltac:(done) eq_refl). subst d. simpl in Hq2. lia. }
    assert (Forall (λ e, lower (MkChan cap false d [] (cs ++ [co])) e.2) s) as Hs'.
    { eapply Forall_impl; [exact Hs|]. intros [c p]. by destruct p; cbn; try (intros [? ?]). }
    assert (inv (MkConfig (MkChan cap false d [] (cs ++ [co])) [] pu po)) as Hi'.
    { split; cbn; try done. by left. }
    apply (lower_stack _ s Hi' Hs'). split; cbn; done.
  - rewrite andb_false_r. case_bool_decide as Hcs; cbn.
    + intros Hp. subst cs. by eapply (do_pop_inv _ co s); [..|exact Hp].
    + by specialize (Hq1 Hcs).
Qed.

Lemma close_inv cfg co s :
  inv cfg → stack cfg = (co, Own) :: s → inv (close cfg co s).
Proof.
  intros Hi Hst. destruct (own_inv cfg co s Hi Hst) as [Hq Hs]. pose proof Hi as [Hcap Hb Hone _ Hf].
  destruct cfg as [[cap cl d ps cs] st pu po]; cbn in *. subst st. unfold close; cbn.
  destruct cl; [done|]. split; cbn; try done. destruct Hq as [Hq1 Hq2].
  split; [by split; cbn|]. split; [done|].
  eapply Forall_impl; [exact Hs|]. intros [c p]. by destruct p; cbn; try (intros [? ?]).
Qed.

Lemma step_inv cfg a cfg' : inv cfg → step cfg a = Some cfg' → inv cfg'.
Proof.
  intros Hi. assert (∀ co s, stack cfg = (co, Own) :: s → inv (with_stack cfg s)) as Hleave.
  { intros co s Hst. destruct (own_inv cfg co s Hi Hst). by apply lower_stack. }
  destruct a; cbn [step].
  1-4: destruct (stack cfg) as [|[co []] s] eqn:Hst; try done.
  - intros [= <-]. by apply push_inv.
  - by apply pop_inv.
  - intros [= <-]. by apply close_inv.
  - intros [= <-]. by eapply Hleave.
  - unfold own_code. destruct (stack cfg) as [|[c p] s] eqn:Hst; [|destruct p; try done];
      cbn; destruct (bool_decide _); cbn; try done; intros [= <-];
      destruct Hi as [Hcap Hb Hone Ht Hf]; rewrite Hst in Ht; split; try done; cbn.
    destruct Ht as (Hq & _ & Hs). split; [exact Hq|]. split; [done|]. by constructor.
  - destruct (stack cfg) eqn:Hst; [|done]. apply remove_waiter_inv; [done|done|].
    unfold own_code. by rewrite Hst.
  - destruct (own_code cfg) eqn:Ho; [|done]. by apply remove_waiter_inv.
  - destruct (stack cfg) as [|[co p] s] eqn:Hst; [done|]. by apply continue_inv.
Qed.

Lemma run_inv acts cfg cfg' : inv cfg → run cfg acts = Some cfg' → inv cfg'.
Proof.
  revert cfg. induction acts as [|a acts IH]; intros cfg Hi; cbn [run]; [by intros [= <-]|].
  destruct (step cfg a) as [cfg1|] eqn:Hs; [|done]. cbn [mbind option_bind].
  apply IH. by eapply step_inv.
Qed.

Lemma init_inv cap : (0 < cap)%nat → inv (init cap).
Proof. intros Hc. split; cbn; try done; [lia|by left]. Qed.

(** C27: channel safety.  After any interleaving of pushes, pops, closes,
    timeouts, cancellations and nested resumes of any number of coroutines, the
    channel holds at most [capacity] items and every item comes out exactly once
    and in the order of the pushes; and whenever a coroutine runs its own code (or
    none runs), no consumer waits while there is data and no producer waits while
    an open channel has room: no wake-up is lost. *)
Theorem channel_fifo_no_lost_wakeup cap acts cfg :
  (0 < cap)%nat → run (init cap) acts = Some cfg →
  (length (data_queue (chan cfg)) <= capacity (chan cfg))%nat ∧
  pushed cfg = popped cfg ++ data_queue (chan cfg) ∧
  (own_code cfg = true →
     (consumer_queue (chan cfg) ≠ [] → data_queue (chan cfg) = []) ∧
     (producer_queue (chan cfg) ≠ [] → closed (chan cfg) = false →
        length (data_queue (chan cfg)) = capacity (chan cfg))).
Proof.
  intros Hc Hr. destruct (run_inv acts _ _ (init_inv cap Hc) Hr) as [_ Hb _ Ht Hf].
  split; [done|]. split; [done|]. unfold own_code. intros Ho.
  destruct (stack cfg) as [|[co []] s]; try done. by destruct Ht as [? _].
Qed.

Lemma channel_fifo_no_lost_wakeup_witness :
  ∃ cfg, run (init 1) [Enter 1; Pop; Enter 2; Push 10; Continue; Pop; Push 20; Continue; Push 30;
                       Push 40; Pop; Continue] = Some cfg ∧
    popped cfg = [10; 20; 30] ∧
    pushed cfg = popped cfg ++ data_queue (chan cfg).
Proof.
  eexists. split; [vm_compute; reflexivity|]. split; [done|].
  eapply (channel_fifo_no_lost_wakeup 1 [Enter 1; Pop; Enter 2; Push 10; Continue; Pop; Push 20;
    Continue; Push 30; Push 40; Pop; Continue]); [lia|vm_compute; reflexivity].
Defined.

(** C28: a resumed coroutine can always go on: in every reachable state the code
    after [yield] and the loops of [close] run to the next point, in particular
    [pop] never takes the front of an empty queue. *)
Theorem woken_never_stuck cap acts cfg :
  (0 < cap)%nat → run (init cap) acts = Some cfg → own_code cfg = false →
  ∃ cfg', step cfg Continue = Some cfg'.
Proof.
  intros Hc Hr. destruct (run_inv acts _ _ (init_inv cap Hc) Hr) as [_ _ _ Ht _].
  unfold own_code. cbn [step]. destruct (stack cfg) as [|[co p] s]; [done|]. intros Hp.
  destruct Ht as (Hw & _). unfold continue.
  destruct p as [|v []|[]| |]; try done; [eauto..| |eauto|eauto| |].
  - unfold do_pop. cbn. cbn in Hw. destruct (closed (chan cfg)); cbn.
    + unfold is_empty. case_bool_decide as He; [eauto|].
      destruct (data_queue (chan cfg)); [done|]. eauto.
    + destruct Hw as (Hd & _). destruct (data_queue (chan cfg)); [done|]. eauto.
  - destruct (bool_decide _); eauto.
  - destruct (bool_decide _); eauto.
Qed.

Lemma woken_never_stuck_witness :
  ∃ cfg cfg', run (init 1) [Enter 1; Pop; Enter 2; Push 10] = Some cfg ∧
    step cfg Continue = Some cfg'.
Proof.
  eexists. assert (run (init 1) [Enter 1; Pop; Enter 2; Push 10] = Some
    (MkConfig (MkChan 1 false [10] [] []) [(1, WakePop Notified); (2, Own)] [10] [])) as Hr
    by (vm_compute; reflexivity).
  destruct (woken_never_stuck 1 _ _ ltac:(lia) Hr eq_refl) as [cfg' Hs].
  exists cfg'. split; [exact Hr|exact Hs].
Defined.
