(* ===== verification/HeapRoot.v ===== *)
(** * Root stability and size of the heap

    What a client that holds on to the root needs beyond the priority-queue
    contract: an operation on another node leaves the root in place as long as
    no smaller priority appears, [pop] removes exactly the root, and the array
    grows only when it is full. *)

From S2P Require Import Prelude Heap.

(** The fields no sift changes. *)
Definition same_shape (h h' : Heap) : Prop :=
  num h' = num h ∧ hsize h' = hsize h ∧ type h' = type h.

#[export] Instance same_shape_refl : Reflexive same_shape.
Proof. by intros h. Qed.
#[export] Instance same_shape_trans : Transitive same_shape.
Proof. intros a b c (?&?&?) (?&?&?). repeat split; congruence. Qed.

Lemma put_shape h i l h' : put h i l = Some h' → same_shape h h'.
Proof. apply put_frame. Qed.

Lemma put_pri h i l h' m : put h i l = Some h' → pri_of h' m = pri_of h m.
Proof.
  intros (n&Hn&_&->)%put_is_Some. unfold pri_of. simpl. rewrite lookup_insert.
  case_decide; simplify_eq; [by rewrite Hn|done].
Qed.

Lemma put_root h i l h' : put h i l = Some h' → i ≠ 1 → node_at h' 1 = node_at h 1.
Proof.
  intros (n&Hn&_&->)%put_is_Some Hi. unfold node_at. simpl. by rewrite lookup_insert_ne.
Qed.

Lemma bubble_up_loop_shape fuel h i m h' :
  bubble_up_loop fuel h i m = Some h' → same_shape h h'.
Proof.
  revert h i. induction fuel as [|fuel IH]; intros h i; simpl; [done|].
  destruct (i >? 1); [|by apply put_shape].
  destruct (node_at h (parent i)) as [up|]; simpl; [|done].
  destruct (pri_of h up); simpl; [|done]. destruct (pri_of h m); simpl; [|done].
  destruct (compare _ _ _); [|by apply put_shape].
  destruct (put h i up) as [h1|] eqn:Hp; simpl; [|done].
  intros ?%IH. apply put_shape in Hp. by etrans.
Qed.

Lemma percolate_down_loop_shape fuel h i m h' :
  percolate_down_loop fuel h i m = Some h' → same_shape h h'.
Proof.
  revert h i. induction fuel as [|fuel IH]; intros h i; simpl; [done|].
  destruct (maxchild h i) as [c|]; simpl; [|done]. case_Z; [by apply put_shape|].
  destruct (node_at h c) as [k|]; simpl; [|done].
  destruct (pri_of h m); simpl; [|done]. destruct (pri_of h k); simpl; [|done].
  destruct (compare _ _ _); [|by apply put_shape].
  destruct (put h i k) as [h1|] eqn:Hp; simpl; [|done].
  intros ?%IH. apply put_shape in Hp. by etrans.
Qed.

Lemma sift_shape (b : bool) h i h' :
  (if b then bubble_up h i else percolate_down h i) = Some h' → same_shape h h'.
Proof.
  unfold bubble_up, percolate_down. destruct b, (node_at h i) as [m|]; try done; intros H.
  - exact (bubble_up_loop_shape _ _ _ _ _ H).
  - exact (percolate_down_loop_shape _ _ _ _ _ H).
Qed.

(** The root [r] survives the sift of a node that does not precede it. *)
Lemma bubble_up_loop_root fuel h i m h' r pr pm :
  1 < i → node_at h 1 = Some r → pri_of h r = Some pr → pri_of h m = Some pm →
  compare (type h) pr pm = false → bubble_up_loop fuel h i m = Some h' → node_at h' 1 = Some r.
Proof.
  revert h i. induction fuel as [|fuel IH]; intros h i Hi Hr Hpr Hpm Hle; simpl; [done|].
  rewrite Z.gtb_ltb, (proj2 (Z.ltb_lt _ _)) by lia.
  destruct (node_at h (parent i)) as [up|] eqn:Hup; simpl; [|done].
  destruct (pri_of h up) as [pu|] eqn:Hpu; simpl; [|done]. rewrite Hpm. simpl.
  destruct (compare (type h) pu pm) eqn:Hc.
  - assert (parent i ≠ 1) by (intros E; rewrite E in Hup; congruence).
    pose proof (parent_range i ltac:(lia)).
    destruct (put h i up) as [h1|] eqn:Hp; simpl; [|done].
    destruct (put_shape _ _ _ _ Hp) as (_&_&Ht). apply IH; [lia|..].
    + rewrite <- Hr. apply (put_root _ _ _ _ Hp). lia.
    + by rewrite (put_pri _ _ _ _ _ Hp).
    + by rewrite (put_pri _ _ _ _ _ Hp).
    + by rewrite Ht.
  - intros Hp. rewrite <- Hr. apply (put_root _ _ _ _ Hp). lia.
Qed.

Lemma maxchild_below h i c :
  1 <= i < 2147483648 → num h <= 2147483648 → maxchild h i = Some c → c = 0 ∨ i < c < num h.
Proof.
  intros Hi Hn. unfold maxchild. rewrite left_small by lia. rewrite Z.geb_leb.
  destruct (Z.leb_spec (num h) (2 * i)); [intros [= <-]; lia|]. destruct (node_at h (2 * i)); simpl; [|done].
  destruct (pri_of h _); simpl; [|done].
  destruct (Z.ltb_spec (2 * i + 1) (num h)); [|intros [= <-]; lia].
  destruct (node_at h (2 * i + 1)); simpl; [|done]. destruct (pri_of h _); simpl; [|done].
  destruct (compare _ _ _); intros [= <-]; lia.
Qed.

Lemma percolate_down_loop_root fuel h i m h' :
  1 < i < 2147483648 → num h <= 2147483648 →
  percolate_down_loop fuel h i m = Some h' → node_at h' 1 = node_at h 1.
Proof.
  revert h i. induction fuel as [|fuel IH]; intros h i Hi Hn; simpl; [done|].
  destruct (maxchild h i) as [c|] eqn:Hc; simpl; [|done].
  apply maxchild_below in Hc; [|lia..].
  case_Z; [intros Hp; apply (put_root _ _ _ _ Hp); lia|].
  destruct (node_at h c) as [k|]; simpl; [|done].
  destruct (pri_of h m); simpl; [|done]. destruct (pri_of h k); simpl; [|done].
  destruct (compare _ _ _); [|intros Hp; apply (put_root _ _ _ _ Hp); lia].
  destruct (put h i k) as [h1|] eqn:Hp; simpl; [|done].
  destruct (put_shape _ _ _ _ Hp) as (Hn1&_&_). intros Hl%IH; [|lia..].
  rewrite Hl. apply (put_root _ _ _ _ Hp). lia.
Qed.

Lemma sift_root (b : bool) h i h' m r pr pm :
  1 < i < 2147483648 → num h <= 2147483648 →
  node_at h i = Some m → node_at h 1 = Some r → pri_of h r = Some pr → pri_of h m = Some pm →
  compare (type h) pr pm = false →
  (if b then bubble_up h i else percolate_down h i) = Some h' → node_at h' 1 = Some r.
Proof.
  intros Hi Hn Hm Hr Hpr Hpm Hle. unfold bubble_up, percolate_down. rewrite Hm.
  destruct b; intros H.
  - by eapply (bubble_up_loop_root _ h i m h' r pr pm); [lia|..|exact H].
  - rewrite <- Hr. by eapply (percolate_down_loop_root _ h i m); [..|exact H].
Qed.

Lemma push_shape h l p d r h' :
  push h true l p d = Some (r, h') →
  num h' = u32 (num h + 1) ∧ type h' = type h ∧
  hsize h' = if num h >=? hsize h then u32 (hsize h * 2) else hsize h.
Proof.
  unfold push. rewrite andb_false_r. destruct (_ <? _); [|done].
  destruct (bubble_up _ _) as [h2|] eqn:Hb; simpl; [|done].
  intros [= <- <-]. apply (sift_shape true) in Hb as (?&?&?). done.
Qed.

Lemma remove_shape h l h' :
  remove h l = Some h' → num h' = u32 (num h - 1) ∧ hsize h' = hsize h ∧ type h' = type h.
Proof.
  unfold remove. destruct (Heap.store h !! l) as [n|]; simpl; [|done].
  destruct (move_last h (position n)) as [h1|] eqn:Hm; simpl; [|done].
  assert (num h1 = u32 (num h - 1) ∧ hsize h1 = hsize h ∧ type h1 = type h) as (<-&<-&<-).
  { revert Hm. unfold move_last. destruct (node_at h _); simpl; [|done].
    destruct (_ && _); [|done]. by intros [= <-]. }
  destruct (node_at h1 (position n)); simpl; [|done]. destruct (pri_of h1 _); simpl; [|done].
  destruct (if compare _ _ _ then _ else _) as [h2|] eqn:Hs; simpl; [|done]. intros [= <-].
  apply sift_shape in Hs as (?&?&?). done.
Qed.

Lemma change_priority_shape h q l h' : change_priority h q l = Some h' → same_shape h h'.
Proof.
  unfold change_priority. destruct (Heap.store h !! l) as [n|]; simpl; [|done].
  intros H%sift_shape. done.
Qed.

(** ** The root under the operations of a client *)

Lemma top_node h r : top h = Some (Some r) → node_at h 1 = Some r ∧ num h ≠ 1.
Proof. unfold top. case_Z; [done|]. intros (?&?&[= ->])%fmap_Some. done. Qed.

Lemma node_top h r : node_at h 1 = Some r → num h ≠ 1 → top h = Some (Some r).
Proof. intros Hr Hn. unfold top. rewrite (proj2 (Z.eqb_neq _ _)) by done. by rewrite Hr. Qed.

Lemma content_pri h l p d : content h !! l = Some (p, d) → pri_of h l = Some p.
Proof. intros (n&Hn&<-&_)%content_inv. unfold pri_of. by rewrite Hn. Qed.

(** The root is the only node at position 1. *)
Lemma root_position h r n :
  heap_inv h → node_at h 1 = Some r → num h ≠ 1 → Heap.store h !! r = Some n → position n = 1.
Proof.
  intros [Hwf _] Hr Hn Hs. pose proof (wf_num _ _ Hwf).
  destruct (node_at_slot None h 1 Hwf) as (l&m&Hl&_&Hm&Hp&_); [lia|]. congruence.
Qed.

Lemma not_root_position h r l n :
  heap_inv h → node_at h 1 = Some r → l ≠ r → Heap.store h !! l = Some n → 1 < position n < num h.
Proof.
  intros [Hwf _] Hr Hl Hs. destruct (wf_back _ _ Hwf l n Hs) as [? Hb]; [done|].
  destruct (decide (position n = 1)) as [E|]; [|lia]. rewrite E in Hb.
  unfold node_at in Hr. destruct (_ <? _); congruence.
Qed.

Lemma push_root h l p d r pr dr x h' :
  heap_inv h → Heap.store h !! l = None → num h < 2147483648 →
  top h = Some (Some r) → content h !! r = Some (pr, dr) → le (type h) pr p →
  push h true l p d = Some (x, h') → top h' = Some (Some r).
Proof.
  intros [Hwf _] Hl Hn [Hr Hn1]%top_node Hpr Hle Hp. pose proof (wf_num _ _ Hwf).
  destruct (push_shape _ _ _ _ _ _ Hp) as (Hn'&_&_). rewrite u32_small in Hn' by lia.
  apply node_top; [|lia]. revert Hp. unfold push. rewrite andb_false_r.
  destruct (Z.ltb_spec (num h) (if num h >=? hsize h then u32 (hsize h * 2) else hsize h)) as [Hlt|];
    [|done].
  destruct (bubble_up _ _) as [h2|] eqn:Hb; simpl; [|done]. intros [= _ ->].
  assert (r ≠ l) by (intros ->; apply content_inv in Hpr as (?&?&_); congruence).
  eapply (sift_root true) in Hb; try done; simpl.
  - lia.
  - rewrite u32_small; lia.
  - unfold node_at. simpl. rewrite (proj2 (Z.ltb_lt _ _)) by lia. by rewrite lookup_insert_eq.
  - unfold node_at in *. simpl. case_Z; [|lia].
    rewrite lookup_insert_ne by lia. destruct (1 <? hsize h); done.
  - unfold pri_of. simpl. rewrite lookup_insert_ne by done. by eapply content_pri.
  - unfold pri_of. simpl. by rewrite lookup_insert_eq.
Qed.

Lemma change_priority_root h l p d q r pr dr h' :
  heap_inv h → content h !! l = Some (p, d) → l ≠ r →
  top h = Some (Some r) → content h !! r = Some (pr, dr) → le (type h) pr q →
  change_priority h q l = Some h' → top h' = Some (Some r).
Proof.
  intros Hinv (n&Hl&_)%content_inv Hne [Hr Hn1]%top_node Hpr Hle Hc.
  pose proof (not_root_position h r l n Hinv Hr Hne Hl) as Hpos. pose proof Hinv as [Hwf _].
  pose proof (wf_num _ _ Hwf). pose proof (wf_max _ _ Hwf).
  destruct (wf_back _ _ Hwf l n Hl) as [_ Hb]; [done|].
  destruct (change_priority_shape _ _ _ _ Hc) as (Hn'&_&_). apply node_top; [|lia].
  revert Hc. unfold change_priority. rewrite Hl. simpl. intros Hc.
  eapply (sift_root _ _ (position n) h' l r pr q) in Hc; try done.
  - lia.
  - unfold node_at. simpl. by rewrite (proj2 (Z.ltb_lt _ _)) by lia.
  - unfold pri_of. simpl. rewrite lookup_insert_ne by done. by eapply content_pri.
  - unfold pri_of. simpl. by rewrite lookup_insert_eq.
Qed.

Lemma remove_root h l p d r h' :
  heap_inv h → content h !! l = Some (p, d) → l ≠ r → top h = Some (Some r) →
  remove h l = Some h' → top h' = Some (Some r).
Proof.
  intros Hinv (n&Hl&_)%content_inv Hne [Hr Hn1]%top_node Hc.
  pose proof (not_root_position h r l n Hinv Hr Hne Hl) as Hpos. pose proof Hinv as [Hwf _].
  pose proof (wf_num _ _ Hwf). pose proof (wf_max _ _ Hwf).
  destruct (remove_shape _ _ _ Hc) as (Hn'&_&_). rewrite u32_small in Hn' by lia.
  apply node_top; [|lia]. revert Hc. unfold remove. rewrite Hl. simpl.
  destruct (node_at_slot None h (num h - 1) Hwf) as (m&k&Hm&_&Hk&Hkp&_&Hvm); [lia|].
  unfold move_last. rewrite u32_small, Hm by lia. simpl.
  rewrite (proj2 (Z.leb_le _ _)), (proj2 (Z.ltb_lt _ _)) by lia. simpl.
  set (h1 := MkHeap _ _ _ _ _).
  assert (node_at h1 (position n) = Some m) as Hm1.
  { unfold node_at, h1. simpl. rewrite (proj2 (Z.ltb_lt _ _)) by lia. by rewrite lookup_insert_eq. }
  rewrite Hm1. simpl. destruct (pri_of h1 m) as [q|] eqn:Hq; simpl; [|done].
  destruct (if compare _ _ _ then _ else _) as [h2|] eqn:Hs; simpl; [|done]. intros [= <-].
  assert (node_at h1 1 = Some r) as Hr1.
  { revert Hr. unfold node_at, h1. simpl. by rewrite lookup_insert_ne by lia. }
  destruct (root_slot h Hinv) as (r'&n1&Hr'&Hn1'&_&Hmin).
  { intros E. apply content_lookup in Hl. rewrite E in Hl. done. }
  assert (r' = r) as -> by congruence.
  assert (pri_of h1 m = Some (priority k)) as Hk1 by (unfold pri_of; simpl; by rewrite Hk).
  eapply (sift_root _ h1 (position n) h2 m r (priority n1) (priority k)) in Hs;
    try done; [lia|simpl; lia| |].
  - unfold pri_of. simpl. by rewrite Hn1'.
  - eapply Hmin. by apply content_lookup.
Qed.

(** [pop] takes the node that [top] shows. *)
Lemma pop_root h r :
  heap_inv h → top h = Some (Some r) →
  ∃ d h', pop h = Some (Some d, h') ∧ heap_inv h' ∧ content h' = delete r (content h) ∧
    num h' = num h - 1 ∧ hsize h' = hsize h ∧ type h' = type h.
Proof.
  intros Hinv [Hr Hn]%top_node. pose proof Hinv as [Hwf _]. pose proof (wf_num _ _ Hwf).
  pose proof (wf_size _ _ Hwf).
  destruct (node_at_slot None h 1 Hwf) as (l&n&Hl&_&Hs&_); [lia|]. assert (l = r) as -> by congruence.
  destruct (pop_spec h Hinv) as (l&p&d&h'&Hin&_&Hp&Hinv'&Hc).
  { intros E. apply content_lookup in Hs. rewrite E in Hs. done. }
  exists d, h'. revert Hp. unfold pop. case_match; [done|]. rewrite Hr. simpl.
  destruct (move_last h 1) as [h1|] eqn:Hm; simpl; [|done].
  destruct (percolate_down h1 1) as [h2|] eqn:Hd; simpl; [|done].
  apply (sift_shape false) in Hd as (Hn2&Hs2&Ht2).
  destruct (Heap.store h2 !! r) as [n2|] eqn:Hr2; simpl; [|done]. intros [= -> <-].
  assert (l = r) as ->.
  { destruct (decide (l = r)) as [|Hne]; [done|]. exfalso.
    assert (content (free_node h2 r) !! r = None) as Hno.
    { rewrite free_content. apply lookup_delete_eq. }
    rewrite Hc, lookup_delete_ne in Hno by done. apply content_lookup in Hs. congruence. }
  revert Hm. unfold move_last. destruct (node_at h (u32 (num h - 1))); simpl; [|done].
  destruct (1 <? hsize h); [|done]. intros [= <-]. simpl in *. rewrite u32_small in Hn2 by lia.
  split_and!; try done; lia.
Qed.

(** ** Size *)

Lemma num_size h : heap_inv h → num h = 1 + Z.of_nat (base.size (content h)).
Proof.
  intros [Hwf _]. pose proof (wf_num _ _ Hwf).
  unfold content. rewrite map_size_fmap.
  set (f := λ i, default 1%positive (nodes h !! i)).
  assert (dom (Heap.store h) = list_to_set (f <$> seqZ 1 (num h - 1))) as Hd.
  { apply set_eq. intros l. rewrite elem_of_dom, elem_of_list_to_set, list_elem_of_fmap. split.
    - intros [n Hn]. destruct (wf_back _ _ Hwf l n Hn) as [? Hb]; [done|].
      exists (position n). rewrite elem_of_seqZ. unfold f. rewrite Hb. split; [done|lia].
    - intros (i&->&Hi%elem_of_seqZ). destruct (wf_slot _ _ Hwf i) as (l&n&Hl&Hn&_); [lia|].
      unfold f. rewrite Hl. simpl. by exists n. }
  rewrite <- size_dom, Hd, size_list_to_set.
  - rewrite length_fmap, length_seqZ. lia.
  - apply NoDup_fmap_2_strong; [|apply NoDup_seqZ].
    intros i j Hi%elem_of_seqZ Hj%elem_of_seqZ. unfold f.
    destruct (wf_slot _ _ Hwf i) as (l&n&->&Hn&<-&_); [lia|].
    destruct (wf_slot _ _ Hwf j) as (l'&n'&->&Hn'&<-&_); [lia|]. simpl. congruence.
Qed.
