(* ===== verification/Timer.v ===== *)
(** * The timer: src/core/timer.cc, include/openswoole_timer.h

    [Timer] keeps its [TimerNode] objects in a min-heap ordered by deadline and in
    a hash map by id; [select], called by the reactor after every round, runs the
    callbacks that are due.  Objects live in a store and [new] returns an address
    that was never used before, so following a stale pointer gives [None]; the
    [HeapNode] of a [TimerNode] gets the same number in the heap's own store.  A
    callback is client code: the list of timer calls it makes, computed from its
    data and the state it sees, each with the clock it reads.  [fired] (ids whose
    callback ran) and [touched] (ids on which a client called [remove] or [delay])
    are ghost histories. *)

From Stdlib Require Import Sorted.
From S2P Require Import Prelude Heap HeapRoot.

(** [struct TimerNode]; [tdata] stands for [callback] with [data]. *)
Record TimerNode := MkTNode {
  id : Z; exec_msec : Z; interval : Z; tround : Z; removed : bool;
  heap_node : positive; tdata : Z }.

(** [class Timer]; [timeout_msec] is the reactor's field written by [set]. *)
Record Timer := MkTimer {
  heap : Heap; map : gmap Z positive; objects : gmap positive TimerNode; brk : positive;
  round : Z; _next_id : Z; _current_id : Z; next_msec_ : Z; timeout_msec : Z;
  fired : list Z; touched : list Z }.

Definition set_exec (o : TimerNode) (e : Z) : TimerNode :=
  MkTNode (id o) e (interval o) (tround o) (removed o) (heap_node o) (tdata o).
Definition set_removed (o : TimerNode) : TimerNode :=
  MkTNode (id o) (exec_msec o) (interval o) (tround o) true (heap_node o) (tdata o).

Definition with_store (t : Timer) (h : Heap) (m : gmap Z positive) (os : gmap positive TimerNode) :
    Timer :=
  MkTimer h m os (brk t) (round t) (_next_id t) (_current_id t) (next_msec_ t) (timeout_msec t)
          (fired t) (touched t).
Definition with_current (t : Timer) (i : Z) (f : list Z) : Timer :=
  MkTimer (heap t) (map t) (objects t) (brk t) (round t) (_next_id t) i (next_msec_ t)
          (timeout_msec t) f (touched t).
Definition touch (t : Timer) (i : Z) : Timer :=
  MkTimer (heap t) (map t) (objects t) (brk t) (round t) (_next_id t) (_current_id t)
          (next_msec_ t) (timeout_msec t) (fired t) (i :: touched t).

(** [Timer::Timer]. *)
Definition make_timer : Timer :=
  MkTimer (Heap.make 1024 MIN_HEAP) ∅ ∅ 1 0 1 (-1) (-1) (-1) [] [].

(** [get_relative_msec]: clock readings are (seconds, microseconds). *)
Definition get_relative_msec (base_time now : Z * Z) : Z :=
  i64 ((now.1 - base_time.1) * 1000 + Z.quot (now.2 - base_time.2) 1000).

Definition get (t : Timer) (i : Z) : option positive := map t !! i.
Definition timer_count (t : Timer) : Z := Z.of_nat (base.size (map t)).

(** [set(this, msec); next_msec_ = msec;] *)
Definition set_timeout (t : Timer) (msec : Z) : Timer :=
  MkTimer (heap t) (map t) (objects t) (brk t) (round t) (_next_id t) (_current_id t)
          msec msec (fired t) (touched t).

(** [add]: [realloc_ok] is the answer of the heap's [realloc]. *)
Definition add (t : Timer) (realloc_ok : bool) (now_msec _msec : Z) (persistent : bool) (d : Z) :
    option (option positive * Timer) :=
  if _msec <=? 0 then Some (None, t) else
  if now_msec <? 0 then Some (None, t) else
  let exec := i64 (now_msec + _msec) in
  let t1 := if (next_msec_ t <? 0) || (next_msec_ t >? _msec) then set_timeout t _msec else t in
  let '(i, next) := if i64 (_next_id t) <? 0 then (1, 2) else (_next_id t, i64 (_next_id t + 1)) in
  let p := brk t in
  '(hn, h) ← Heap.push (heap t) realloc_ok p (u64 exec) (Z.pos p);
  let t2 o m := MkTimer h m o (Pos.succ (brk t)) (round t) next (_current_id t) (next_msec_ t1)
                        (timeout_msec t1) (fired t) (touched t) in
  match hn with
  | None => Some (None, t2 (objects t) (map t))
  | Some hn =>
    let o := MkTNode i exec (if persistent then _msec else 0) (round t) false hn d in
    (* [map.emplace] keeps an entry that is there *)
    let m := match map t !! i with Some _ => map t | None => <[i := p]> (map t) end in
    Some (Some p, t2 (<[p := o]> (objects t)) m)
  end.

(** [remove] of a node pointer. *)
Definition remove_node (t : Timer) (p : positive) : option (bool * Timer) :=
  o ← objects t !! p;
  if removed o then Some (false, t) else
  if (0 <? _current_id t) && (id o =? _current_id t) then
    Some (true, with_store t (heap t) (map t) (<[p := set_removed o]> (objects t)))
  else match map t !! id o with
  | None => Some (false, t)
  | Some _ =>
    h ← Heap.remove (heap t) (heap_node o);
    Some (true, with_store t h (delete (id o) (map t)) (delete p (objects t)))
  end.

(** [remove(long id)]: a null pointer is not removed. *)
Definition remove_id (t : Timer) (i : Z) : option (bool * Timer) :=
  match get t i with None => Some (false, t) | Some p => remove_node t p end.

Definition update (t : Timer) (p : positive) : option Timer :=
  o ← objects t !! p;
  h ← Heap.change_priority (heap t) (u64 (exec_msec o)) (heap_node o);
  Some (with_store t h (map t) (objects t)).

Definition delay (t : Timer) (now_ms : Z) (p : positive) (delay_ms : Z) : option Timer :=
  o ← objects t !! p;
  let e := i64 ((if now_ms <? 0 then exec_msec o else now_ms) + delay_ms) in
  update (with_store t (heap t) (map t) (<[p := set_exec o e]> (objects t))) p.

(** ** Client calls *)

Inductive call :=
  | CallAdd (realloc_ok : bool) (now_msec _msec : Z) (persistent : bool) (d : Z)
  | CallRemove (i : Z)
  | CallDelay (now_ms i delay_ms : Z).

Definition do_call (t : Timer) (c : call) : option Timer :=
  match c with
  | CallAdd ok now msec pers d => '(_, t') ← add t ok now msec pers d; Some t'
  | CallRemove i => '(_, t') ← remove_id t i; Some (touch t' i)
  | CallDelay now i ms =>
    match get t i with None => Some t | Some p => t' ← delay t now p ms; Some (touch t' i) end
  end.

Fixpoint do_calls (t : Timer) (cs : list call) : option Timer :=
  match cs with
  | [] => Some t
  | c :: cs => t' ← do_call t c; do_calls t' cs
  end.

(** [while (tnode->exec_msec <= now_msec) tnode->exec_msec += tnode->interval;] *)
Fixpoint catch_up (fuel : nat) (exec step now : Z) : option Z :=
  if exec <=? now then
    match fuel with O => None | S fuel => catch_up fuel (i64 (exec + step)) step now end
  else Some exec.

Section Select.
Variable callback : Z → Timer → list call.

(** The loop of [select]; the result is [tnode] when the loop is left by [break]
    and [None] when [tmp] is null. *)
Fixpoint select_loop (fuel : nat) (t : Timer) (now_msec : Z) : option (option positive * Timer) :=
  match fuel with
  | O => None
  | S fuel =>
    tmp ← Heap.top (heap t);
    match tmp with
    | None => Some (None, t)
    | Some tmp =>
      hn ← Heap.store (heap t) !! tmp;
      let p := Z.to_pos (Heap.data hn) in
      o ← objects t !! p;
      if (exec_msec o >? now_msec) || (tround o =? round t) then Some (Some p, t) else
      let t1 := with_current t (id o) (fired t) in
      t2 ← (if removed o then Some t1
            else do_calls (with_current t1 (id o) (fired t ++ [id o])) (callback (tdata o) t1));
      let t3 := with_current t2 (-1) (fired t2) in
      o3 ← objects t3 !! p;
      if (0 <? interval o3) && negb (removed o3) then
        e ← catch_up (Z.to_nat (now_msec - exec_msec o3 + 1)) (exec_msec o3) (interval o3) now_msec;
        h ← Heap.change_priority (heap t3) (u64 e) tmp;
        select_loop fuel (with_store t3 h (map t3) (<[p := set_exec o3 e]> (objects t3))) now_msec
      else
        '(_, h) ← Heap.pop (heap t3);
        select_loop fuel (with_store t3 h (delete (id o3) (map t3)) (delete p (objects t3))) now_msec
    end
  end.

(** [select]; every round of the loop uses up one of the nodes in the map. *)
Definition select (t : Timer) (now_msec : Z) : option (Z * Timer) :=
  if now_msec <? 0 then Some (OSW_ERR, t) else
  '(tnode, t1) ← select_loop (S (base.size (objects t))) t now_msec;
  msec ← match tnode with
         | None => Some (-1)
         | Some p => o ← objects t1 !! p;
           let d := i64 (exec_msec o - now_msec) in Some (if d <=? 0 then 1 else d)
         end;
  let t2 := set_timeout t1 msec in
  Some (OSW_OK, MkTimer (heap t2) (map t2) (objects t2) (brk t2) (u64 (round t2 + 1)) (_next_id t2)
                        (_current_id t2) msec msec (fired t2) (touched t2)).
End Select.

(** ** The invariant *)

(** What the heap holds for the objects: deadline and pointer. *)
Definition entries (os : gmap positive TimerNode) : gmap positive (Z * Z) :=
  map_imap (λ p o, Some (u64 (exec_msec o), Z.pos p)) os.

(** [g] is the node whose callback runs (only that one may be marked as removed);
    [n] is how many more timers may still be added before an id, an address or the
    heap's 32-bit size could overflow. *)
Record tinv (g : option positive) (n : Z) (t : Timer) : Prop := {
  ti_heap : heap_inv (heap t);
  ti_type : type (heap t) = MIN_HEAP;
  ti_hsize : hsize (heap t) < 2147483648;
  ti_entries : content (heap t) = entries (objects t);
  ti_map : ∀ i p, map t !! i = Some p ↔ ∃ o, objects t !! p = Some o ∧ id o = i;
  ti_node : ∀ p o, objects t !! p = Some o →
    (p < brk t)%positive ∧ heap_node o = p ∧ 0 < id o < _next_id t ∧
    0 <= exec_msec o < 2 ^ 62 ∧ 0 <= interval o < 2 ^ 61 ∧
    (removed o = true → g = Some p);
  ti_next : 0 < _next_id t ∧ 0 <= n ∧ _next_id t + n < 2 ^ 63;
  ti_size : Z.of_nat (base.size (objects t)) + n < 2 ^ 30 }.

Lemma entries_lookup os p :
  entries os !! p = (λ o, (u64 (exec_msec o), Z.pos p)) <$> os !! p.
Proof. unfold entries. rewrite map_lookup_imap. by destruct (os !! p). Qed.

Lemma entries_insert os p o :
  entries (<[p := o]> os) = <[p := (u64 (exec_msec o), Z.pos p)]> (entries os).
Proof.
  apply map_eq. intros q. rewrite entries_lookup, !lookup_insert, entries_lookup.
  case_decide; by simplify_eq.
Qed.

Lemma entries_delete os p : entries (delete p os) = delete p (entries os).
Proof.
  apply map_eq. intros q. rewrite entries_lookup, !lookup_delete, entries_lookup.
  by case_decide.
Qed.

Lemma entries_size os : base.size (entries os) = base.size os.
Proof.
  rewrite <- !size_dom. f_equal. apply set_eq. intros p.
  rewrite !elem_of_dom, entries_lookup. by rewrite fmap_is_Some.
Qed.

Lemma tinv_num g n t : tinv g n t → num (heap t) = 1 + Z.of_nat (base.size (objects t)).
Proof. intros H. rewrite (num_size _ (ti_heap _ _ _ H)), (ti_entries _ _ _ H). by rewrite entries_size. Qed.

Lemma tinv_content g n t p o :
  tinv g n t → objects t !! p = Some o →
  content (heap t) !! p = Some (exec_msec o, Z.pos p).
Proof.
  intros H Ho. rewrite (ti_entries _ _ _ H), entries_lookup, Ho. simpl.
  rewrite u64_small; [done|]. pose proof (ti_node _ _ _ H p o Ho). lia.
Qed.

Lemma tinv_weaken g n m t : tinv g n t → 0 <= m <= n → tinv g m t.
Proof. intros [? ? ? ? ? ? ? ?] Hm. split; try done; lia. Qed.

Lemma make_timer_inv n : 0 <= n < 2 ^ 30 → tinv None n make_timer.
Proof.
  intros Hn. split; simpl; try done; try (rewrite ?map_size_empty; lia).
  - by apply make_inv.
  - intros i p. rewrite lookup_empty. split; [done|]. intros (o&Ho&_). by rewrite lookup_empty in Ho.
Qed.

(** Ids are unique: the map gives the node of an object's id. *)
Lemma tinv_id g n t p o : tinv g n t → objects t !! p = Some o → map t !! id o = Some p.
Proof. intros H Ho. apply (ti_map _ _ _ H). eauto. Qed.

Lemma tinv_id_inj g n t p q o o' :
  tinv g n t → objects t !! p = Some o → objects t !! q = Some o' → id o = id o' → p = q.
Proof.
  intros H Ho Ho' E. pose proof (tinv_id _ _ _ _ _ H Ho). pose proof (tinv_id _ _ _ _ _ H Ho').
  rewrite E in *. congruence.
Qed.

Lemma tinv_change g n t p o o' h :
  tinv g n t → objects t !! p = Some o →
  id o' = id o → heap_node o' = heap_node o → 0 <= exec_msec o' < 2 ^ 62 →
  0 <= interval o' < 2 ^ 61 → (removed o' = true → g = Some p) →
  heap_inv h → type h = type (heap t) → hsize h = hsize (heap t) →
  content h = <[p := (exec_msec o', Z.pos p)]> (content (heap t)) →
  tinv g n (with_store t h (map t) (<[p := o']> (objects t))).
Proof.
  intros H Ho Hid Hhn He Hi Hr Hh Ht Hs Hc. pose proof H as [? ? ? Hent Hmap Hnode ? ?].
  split; simpl; try done; try congruence.
  - rewrite Hc, Hent, entries_insert. by rewrite u64_small by lia.
  - intros i q. rewrite Hmap. setoid_rewrite lookup_insert. split.
    + intros (a&Ha&<-). case_decide; simplify_eq; eauto.
    + intros (a&Ha&<-). case_decide; simplify_eq; eauto.
  - intros q a. rewrite lookup_insert. case_decide; simplify_eq; [|apply Hnode].
    intros [= <-]. specialize (Hnode q o Ho). rewrite Hid, Hhn. tauto.
  - rewrite map_size_insert_Some by eauto. done.
Qed.

Lemma tinv_delete g n t p o h :
  tinv g n t → objects t !! p = Some o →
  heap_inv h → type h = type (heap t) → hsize h = hsize (heap t) →
  content h = delete p (content (heap t)) →
  tinv g n (with_store t h (delete (id o) (map t)) (delete p (objects t))).
Proof.
  intros H Ho Hh Ht Hs Hc. pose proof H as [? ? ? Hent Hmap Hnode ? ?].
  split; simpl; try done; try congruence.
  - by rewrite Hc, Hent, entries_delete.
  - intros i q. rewrite lookup_delete. case_decide as E.
    + split; [done|]. intros (a&Ha&Ei). apply lookup_delete_Some in Ha as [Hne Ha].
      destruct Hne. eapply (tinv_id_inj g n t); try done. congruence.
    + rewrite Hmap. split; intros (a&Ha&<-); exists a; [|by apply lookup_delete_Some in Ha as []].
      rewrite lookup_delete_ne; [done|]. intros ->. congruence.
  - intros q a [_ Ha]%lookup_delete_Some. by apply Hnode.
  - rewrite map_size_delete, Ho. simpl. lia.
Qed.

(** ** The operations *)

(** The heap's view of a node. *)
Lemma tinv_priority g n t p o : tinv g n t → objects t !! p = Some o →
  ∃ d, content (heap t) !! heap_node o = Some (exec_msec o, d) ∧ heap_node o = p.
Proof.
  intros H Ho. destruct (ti_node _ _ _ H p o Ho) as (_&E&_). exists (Z.pos p).
  rewrite E. split; [|done]. by eapply tinv_content.
Qed.

Definition new_node (t : Timer) (now msec : Z) (pers : bool) (d : Z) : TimerNode :=
  MkTNode (_next_id t) (now + msec) (if pers then msec else 0) (round t) false (brk t) d.

(** The fields an operation of a client leaves alone. *)
Definition same_run (t t' : Timer) : Prop :=
  round t' = round t ∧ _current_id t' = _current_id t ∧ fired t' = fired t.

Lemma add_spec g n t now msec pers d :
  tinv g n t → 1 <= n → 0 <= now < 2 ^ 61 → 1 <= msec < 2 ^ 61 →
  ∃ t', add t true now msec pers d = Some (Some (brk t), t') ∧ tinv g (n - 1) t' ∧
    objects t' = <[brk t := new_node t now msec pers d]> (objects t) ∧
    map t' = <[_next_id t := brk t]> (map t) ∧ objects t !! brk t = None ∧ map t !! _next_id t = None ∧
    same_run t t' ∧ brk t' = Pos.succ (brk t) ∧ touched t' = touched t ∧ 0 <= next_msec_ t' <= msec ∧
    (∀ r o, top (heap t) = Some (Some r) → objects t !! r = Some o → exec_msec o <= now + msec →
      top (heap t') = Some (Some r)).
Proof.
  intros H Hn Hnow Hmsec. pose proof H as [Hh Hty Hhs Hent Hmap Hnode [Hid Hnx] Hsz].
  pose proof (tinv_num _ _ _ H) as Hnum. pose proof (wf_num _ _ (proj1 Hh)) as Hwn.
  assert (objects t !! brk t = None) as Hfresh.
  { destruct (objects t !! brk t) eqn:E; [|done]. apply Hnode in E. lia. }
  assert (map t !! _next_id t = None) as Hmfresh.
  { destruct (map t !! _next_id t) as [q|] eqn:E; [|done].
    apply Hmap in E as (o&Ho&E). apply Hnode in Ho. lia. }
  assert (Heap.store (heap t) !! brk t = None) as Hst.
  { destruct (Heap.store (heap t) !! brk t) eqn:E; [|done]. apply content_lookup in E.
    rewrite Hent, entries_lookup, Hfresh in E. done. }
  destruct (Heap.push_spec (heap t) (brk t) (now + msec) (Z.pos (brk t))) as (h&Hp&Hh'&Hc); try done; [lia|].
  unfold add. rewrite (proj2 (Z.leb_gt _ _)), (proj2 (Z.ltb_ge now 0)) by lia.
  rewrite !i64_small, (proj2 (Z.ltb_ge _ _)), u64_small by lia. rewrite Hp. simpl. rewrite Hmfresh.
  eexists. split; [done|]. simpl. fold (new_node t now msec pers d).
  destruct (push_shape _ _ _ _ _ _ Hp) as (_&Htype&Hsize).
  split; [|split_and!; try done].
  - split; simpl; try done; try lia.
    + congruence.
    + rewrite Hsize, Z.geb_leb. case_Z; [|lia]. rewrite u32_small; lia.
    + rewrite Hc, Hent, entries_insert. simpl. by rewrite u64_small by lia.
    + intros i q. rewrite lookup_insert. case_decide as E; simplify_eq.
      * split; [intros [= <-]; exists (new_node t now msec pers d); by rewrite lookup_insert_eq|].
        intros (o&Ho&Eo). rewrite lookup_insert in Ho. case_decide; simplify_eq; [done|].
        apply Hnode in Ho. lia.
      * rewrite Hmap. setoid_rewrite lookup_insert. split; intros (o&Ho&<-); exists o.
        -- case_decide; simplify_eq. done.
        -- case_decide; simplify_eq. done.
    + intros q o. rewrite lookup_insert. case_decide; simplify_eq.
      * intros [= <-]. simpl. split_and!; try lia; try done; destruct pers; lia.
      * intros Ho. apply Hnode in Ho. split_and!; try lia; tauto.
    + rewrite map_size_insert_None by done. lia.
  - rewrite Z.gtb_ltb. case_Z; simpl; lia.
  - rewrite Z.gtb_ltb. case_Z; simpl; lia.
  - intros r o Hr Ho Hle. eapply (push_root (heap t)); try done; [lia|by eapply tinv_content|].
    rewrite Hty. apply le_spec. done.
Qed.

Lemma remove_spec' g n t p o :
  tinv g n t → objects t !! p = Some o → removed o = false →
  (0 < _current_id t → id o ≠ _current_id t) →
  ∃ t', remove_node t p = Some (true, t') ∧ tinv g n t' ∧
    objects t' = delete p (objects t) ∧ map t' = delete (id o) (map t) ∧
    same_run t t' ∧ brk t' = brk t ∧ touched t' = touched t ∧
    (∀ r, top (heap t) = Some (Some r) → p ≠ r → top (heap t') = Some (Some r)).
Proof.
  intros H Ho Hr Hcur. destruct (tinv_priority _ _ _ _ _ H Ho) as (d&Hc&Ehn).
  destruct (Heap.remove_spec _ _ _ _ (ti_heap _ _ _ H) Hc) as (h&Hrm&Hh&Hch).
  destruct (remove_shape _ _ _ Hrm) as (_&Hs&Ht).
  unfold remove_node. rewrite Ho. simpl. rewrite Hr.
  assert ((0 <? _current_id t) && (id o =? _current_id t) = false) as ->.
  { apply andb_false_iff. destruct (Z.ltb_spec 0 (_current_id t)); [right|by left].
    apply Z.eqb_neq. by apply Hcur. }
  rewrite (tinv_id _ _ _ _ _ H Ho), Hrm. simpl. eexists. split; [done|].
  rewrite Ehn in *. split; [by eapply tinv_delete|]. split_and!; try done.
  simpl. intros r Htop Hne. eapply (remove_root (heap t)); eauto using ti_heap.
Qed.

Lemma delay_spec g n t now p o ms :
  tinv g n t → objects t !! p = Some o → 0 <= now < 2 ^ 61 → 0 <= ms < 2 ^ 61 →
  ∃ t', delay t now p ms = Some t' ∧ tinv g n t' ∧
    objects t' = <[p := set_exec o (now + ms)]> (objects t) ∧ map t' = map t ∧
    same_run t t' ∧ brk t' = brk t ∧ touched t' = touched t ∧
    (∀ r a, top (heap t) = Some (Some r) → p ≠ r → objects t !! r = Some a →
      exec_msec a <= now + ms → top (heap t') = Some (Some r)).
Proof.
  intros H Ho Hnow Hms. destruct (tinv_priority _ _ _ _ _ H Ho) as (d&Hc&Ehn).
  destruct (ti_node _ _ _ H p o Ho) as (_&_&_&_&Hiv&Hrm).
  unfold delay, update. rewrite Ho. simpl. rewrite (proj2 (Z.ltb_ge _ _)), i64_small by lia.
  rewrite lookup_insert_eq. simpl. rewrite u64_small by lia.
  destruct (Heap.change_priority_spec _ _ _ _ (now + ms) (ti_heap _ _ _ H) Hc) as (h&Hcp&Hh&Hch).
  destruct (change_priority_shape _ _ _ _ Hcp) as (_&Hs&Ht). rewrite Hcp. simpl.
  eexists. split; [done|]. rewrite Ehn in *.
  split; [|split_and!; try done].
  - eapply (tinv_change g n t p o (set_exec o (now + ms)) h); try done; [simpl; lia|].
    rewrite Hch. simpl. rewrite (tinv_content _ _ _ _ _ H Ho) in Hc. by simplify_eq.
  - simpl. intros r a Htop Hne Ha Hle.
    eapply (change_priority_root (heap t)); eauto using ti_heap; [by eapply tinv_content|].
    rewrite (ti_type _ _ _ H). by apply le_spec.
Qed.

(** ** Calls made by a callback *)

(** What a well-behaved callback does at round time [now]: it reads clocks that do
    not run backwards, delays only timers other than its own, and by a positive
    time. *)
Definition ok_call (now cur : Z) (c : call) : Prop :=
  match c with
  | CallAdd ok n msec _ _ => ok = true ∧ now <= n < 2 ^ 61 ∧ msec < 2 ^ 61
  | CallRemove _ => True
  | CallDelay n i ms => now <= n < 2 ^ 61 ∧ 1 <= ms < 2 ^ 61 ∧ i ≠ cur
  end.

(** [p0] is the node whose callback runs; it stays the root. *)
Definition running (now : Z) (p0 : positive) (t : Timer) : Prop :=
  top (heap t) = Some (Some p0) ∧
  ∃ o0, objects t !! p0 = Some o0 ∧ exec_msec o0 <= now ∧ _current_id t = id o0.

(** Addresses are not used twice. *)
Definition grows (t t' : Timer) : Prop :=
  (brk t <= brk t')%positive ∧
  ∀ p, (p < brk t)%positive → objects t !! p = None → objects t' !! p = None.

Lemma grows_trans a b c : grows a b → grows b c → grows a c.
Proof. intros [? H1] [? H2]. split; [lia|]. intros p ? ?. apply H2; [lia|]. by apply H1. Qed.

(** What calls can do: untouched nodes stay, no node becomes due. *)
Definition calls_rel (now : Z) (p0 : positive) (t t' : Timer) : Prop :=
  same_run t t' ∧ touched t ⊆ touched t' ∧
  (∀ o0, objects t !! p0 = Some o0 → ∃ o1, objects t' !! p0 = Some o1 ∧
    (o1 = o0 ∨ o1 = set_removed o0 ∧ id o0 ∈ touched t')) ∧
  (∀ p o, p ≠ p0 → objects t !! p = Some o → id o ∉ touched t' → objects t' !! p = Some o) ∧
  (∀ p o, p ≠ p0 → objects t' !! p = Some o → exec_msec o <= now → objects t !! p = Some o) ∧
  grows t t'.

Lemma calls_rel_refl now p0 t : calls_rel now p0 t t.
Proof. split_and!; try done. intros o Ho. exists o. split; [done|by left]. Qed.

Lemma calls_rel_trans now p0 a b c :
  calls_rel now p0 a b → calls_rel now p0 b c → calls_rel now p0 a c.
Proof.
  intros ((?&?&?)&S1&P1&K1&D1&G1) ((?&?&?)&S2&P2&K2&D2&G2).
  split; [repeat split; congruence|]. split; [by etrans|]. split_and!.
  - intros o0 (o1&Ho1&E1)%P1. destruct (P2 o1 Ho1) as (o2&Ho2&E2). exists o2. split; [done|].
    destruct E1 as [->|[-> ?]], E2 as [->|[-> ?]]; try (by left); right; split; auto.
  - intros p o Hp Ho Hn. apply K2; [done| |done]. apply K1; auto.
  - intros p o Hp Ho He. eauto.
  - by eapply grows_trans.
Qed.

(** Only the callback's own call can touch the running node. *)
Lemma running_frame now p0 t t' :
  running now p0 t → calls_rel now p0 t t' → top (heap t') = Some (Some p0) → running now p0 t'.
Proof.
  intros (_&o&Ho&He&Hc) ((_&Hcur&_)&_&P&_) Ht. split; [done|].
  destruct (P o Ho) as (o1&H1&E). exists o1. rewrite Hcur. destruct E as [->|[-> _]]; done.
Qed.

Lemma tinv_touch g n t i : tinv g n t → tinv g n (touch t i).
Proof. by intros [? ? ? ? ? ? ? ?]. Qed.

Lemma call_add now p0 n t ok k msec pers d :
  tinv (Some p0) n t → 1 <= n → running now p0 t → 0 <= now →
  ok_call now (_current_id t) (CallAdd ok k msec pers d) →
  ∃ t', do_call t (CallAdd ok k msec pers d) = Some t' ∧ tinv (Some p0) (n - 1) t' ∧
    calls_rel now p0 t t' ∧ top (heap t') = Some (Some p0).
Proof.
  intros H Hn (Htop&o0&Ho0&He0&_) Hnow (->&Hk&Hm). simpl.
  destruct (decide (msec <= 0)) as [Hneg|Hpos].
  { unfold add. rewrite (proj2 (Z.leb_le _ _)) by lia. simpl. exists t.
    split_and!; [done| |apply calls_rel_refl|done]. eapply tinv_weaken; [done|lia]. }
  destruct (add_spec _ n t k msec pers d H) as (t'&Ha&Hinv&Hob&_&Hfr&_&Hrun&Hbrk&Hto&_&Hroot); [lia..|].
  rewrite Ha. simpl. exists t'. split_and!; [done|done| |eapply Hroot; try done; lia].
  assert (p0 ≠ brk t) by congruence.
  split; [done|]. rewrite Hto, Hob. split; [done|]. split_and!.
  - intros a Ha0. exists a. rewrite lookup_insert_ne by done. split; [done|by left].
  - intros p o _ Ho _. rewrite lookup_insert_ne by congruence. done.
  - intros p o Hp. rewrite lookup_insert. case_decide; [|done]. intros [= <-]. simpl. lia.
  - split; [lia|]. intros p Hp Hno. rewrite Hob, lookup_insert_ne by lia. done.
Qed.

Lemma call_remove now p0 n t i :
  tinv (Some p0) n t → running now p0 t →
  ∃ t', do_call t (CallRemove i) = Some t' ∧ tinv (Some p0) n t' ∧
    calls_rel now p0 t t' ∧ top (heap t') = Some (Some p0).
Proof.
  intros H (Htop&o0&Ho0&He0&Hcur). simpl. unfold remove_id, get.
  assert (touched t ⊆ touched (touch t i)) as Hsub by (intros x ?; simpl; by right).
  destruct (map t !! i) as [p|] eqn:Hp; simpl.
  2: { exists (touch t i). split_and!; [done|by apply tinv_touch| |done].
       destruct (calls_rel_refl now p0 t) as (?&_&P&K&D&G). split; [done|]. split; [done|].
       split_and!; auto. intros a Ha. exists a. split; [done|by left]. }
  apply (ti_map _ _ _ H) in Hp as (o&Ho&<-).
  destruct (decide (p = p0)) as [->|Hne].
  - simplify_eq. unfold remove_node. rewrite Ho0. simpl.
    destruct (ti_node _ _ _ H p0 o0 Ho0) as (_&_&Hid&?&?&_).
    assert (tinv (Some p0) n (with_store t (heap t) (map t) (<[p0:=set_removed o0]> (objects t)))) as Hinv'.
    { eapply (tinv_change _ _ t p0 o0 (set_removed o0) (heap t)); try done; [by apply H|].
      rewrite insert_id; [done|]. exact (tinv_content _ _ _ _ _ H Ho0). }
    destruct (removed o0) eqn:Hrm; simpl.
    + exists (touch t (id o0)). split_and!; [done|by apply tinv_touch| |done].
      destruct (calls_rel_refl now p0 t) as (?&_&P&K&D&G). split; [done|]. split; [done|].
      split_and!; auto. intros a Ha. exists a. split; [done|by left].
    + rewrite Hcur, (proj2 (Z.ltb_lt _ _)), Z.eqb_refl by lia. simpl.
      eexists. split_and!; [done|by apply tinv_touch| |done].
      split; [done|]. split; [done|]. simpl. split_and!.
      * intros a Ha. assert (a = o0) as -> by congruence. exists (set_removed o0). rewrite lookup_insert_eq.
        split; [done|]. right. split; [done|by left].
      * intros q a Hq. by rewrite lookup_insert_ne by done.
      * intros q a Hq. by rewrite lookup_insert_ne by done.
      * split; [done|]. intros q _ Hno. simpl. rewrite lookup_insert_ne by congruence. done.
  - destruct (ti_node _ _ _ H p o Ho) as (_&_&_&_&_&Hrm).
    destruct (remove_spec' _ _ _ _ _ H Ho) as (t'&Hrem&Hinv&Hob&Hma&Hrun&Hbrk&Hto&Hroot).
    { destruct (removed o); [|done]. by destruct Hne; specialize (Hrm eq_refl) as [= ->]. }
    { intros _ E. destruct Hne. eapply tinv_id_inj; try done. congruence. }
    rewrite Hrem. simpl. exists (touch t' (id o)).
    split_and!; [done|by apply tinv_touch| |by apply Hroot].
    split; [done|]. split; [simpl; rewrite Hto; intros x ?; by right|]. simpl. rewrite Hob. split_and!.
    + intros a Ha. exists a. rewrite lookup_delete_ne by done. split; [done|by left].
    + intros q a Hq Ha Hno. rewrite lookup_delete_ne; [done|]. intros ->. simplify_eq.
      apply Hno. by left.
    + intros q a Hq [_ Ha]%lookup_delete_Some _. done.
    + split; [simpl; rewrite Hbrk; done|]. intros q _ Hno. simpl. rewrite Hob. apply lookup_delete_None. by right.
Qed.

Lemma call_delay now p0 n t k i ms :
  tinv (Some p0) n t → running now p0 t → 0 <= now →
  ok_call now (_current_id t) (CallDelay k i ms) →
  ∃ t', do_call t (CallDelay k i ms) = Some t' ∧ tinv (Some p0) n t' ∧
    calls_rel now p0 t t' ∧ top (heap t') = Some (Some p0).
Proof.
  intros H (Htop&o0&Ho0&He0&Hcur) Hnow (Hk&Hms&Hi). simpl. unfold get.
  destruct (map t !! i) as [p|] eqn:Hp; simpl.
  2: { exists t. split_and!; [done|done|apply calls_rel_refl|done]. }
  apply (ti_map _ _ _ H) in Hp as (o&Ho&<-).
  assert (p ≠ p0) by (intros ->; congruence).
  destruct (delay_spec _ _ _ k _ _ ms H Ho) as (t'&Hd&Hinv&Hob&_&Hrun&Hbrk&Hto&Hroot); [lia..|].
  rewrite Hd. simpl. exists (touch t' (id o)).
  split_and!; [done|by apply tinv_touch| |eapply Hroot; eauto; lia].
  split; [done|]. split; [simpl; rewrite Hto; intros x ?; by right|]. simpl. rewrite Hob. split_and!.
  - intros a Ha. exists a. rewrite lookup_insert_ne by done. split; [done|by left].
  - intros q a Hq Ha Hno. rewrite lookup_insert_ne; [done|]. intros ->. simplify_eq.
    apply Hno. by left.
  - intros q a Hq. rewrite lookup_insert. case_decide; [|done]. intros [= <-]. simpl. lia.
  - split; [simpl; rewrite Hbrk; done|]. intros q _ Hno. simpl. rewrite Hob, lookup_insert_ne by congruence. done.
Qed.

Lemma calls_spec now p0 cs n t :
  tinv (Some p0) (n + zlen cs) t → 0 <= n → running now p0 t → 0 <= now →
  Forall (ok_call now (_current_id t)) cs →
  ∃ t', do_calls t cs = Some t' ∧ tinv (Some p0) n t' ∧ running now p0 t' ∧ calls_rel now p0 t t'.
Proof.
  revert t. induction cs as [|c cs IH]; intros t H Hn Hrun Hnow Hok; simpl.
  { exists t. split_and!; [done| |done|apply calls_rel_refl]. by rewrite zlen_nil, Z.add_0_r in H. }
  rewrite zlen_cons in H. pose proof (zlen_nonneg cs). inversion_clear Hok as [|? ? Hc Hcs].
  assert (∃ t', do_call t c = Some t' ∧ tinv (Some p0) (n + zlen cs) t' ∧
    calls_rel now p0 t t' ∧ top (heap t') = Some (Some p0)) as (t1&H1&Hi1&Hr1&Ht1).
  { assert (tinv (Some p0) (n + zlen cs) t) by (eapply tinv_weaken; [done|lia]).
    destruct c as [ok k msec pers d|i|k i ms].
    - destruct (call_add now p0 _ t ok k msec pers d H) as (t'&?&Hi&?&?); try done; [lia|].
      exists t'. split_and!; try done. eapply tinv_weaken; [done|lia].
    - by apply call_remove.
    - by apply call_delay. }
  rewrite H1. simpl. pose proof (running_frame _ _ _ _ Hrun Hr1 Ht1) as Hrun1.
  destruct (IH t1) as (t2&H2&Hi2&Hrun2&Hr2); try done.
  { destruct Hr1 as ((_&->&_)&_). done. }
  exists t2. split_and!; try done. by eapply calls_rel_trans.
Qed.

(** ** One call of [select] *)

(** The deadline a persistent timer moves to: the first one after [now]. *)
Definition next_deadline (now : Z) (o : TimerNode) : Z :=
  exec_msec o + ((now - exec_msec o) / interval o + 1) * interval o.

Lemma catch_up_spec fuel exec step now :
  0 <= exec <= now → 1 <= step < 2 ^ 61 → now < 2 ^ 61 → now - exec < Z.of_nat fuel →
  catch_up fuel exec step now = Some (exec + ((now - exec) / step + 1) * step).
Proof.
  revert exec. induction fuel as [|fuel IH]; intros exec He Hs Hn Hf; [lia|].
  simpl. rewrite (proj2 (Z.leb_le _ _)), i64_small by lia.
  destruct (decide (exec + step <= now)) as [Hle|Hgt].
  - rewrite IH by lia. f_equal.
    assert ((now - exec) / step = (now - (exec + step)) / step + 1) as ->; [|lia].
    rewrite <- Z.div_add by lia. f_equal. lia.
  - rewrite Z.div_small by lia. destruct fuel; simpl; rewrite (proj2 (Z.leb_gt _ _)) by lia; f_equal; lia.
Qed.

Lemma next_deadline_after now o :
  exec_msec o <= now → 1 <= interval o → now < next_deadline now o <= now + interval o.
Proof. intros. unfold next_deadline. zdiv. Qed.

(** The nodes that are due. *)
Definition due (now : Z) (t : Timer) : gset positive :=
  dom (filter (λ po, exec_msec po.2 <= now) (objects t)).

Lemma elem_of_due now t p : p ∈ due now t ↔ ∃ o, objects t !! p = Some o ∧ exec_msec o <= now.
Proof.
  unfold due. rewrite elem_of_dom. split.
  - intros [o [? ?]%map_lookup_filter_Some]. eauto.
  - intros (o&?&?). exists o. by apply map_lookup_filter_Some.
Qed.

(** What happened to a timer nobody touched: fired one-shot timers are gone, fired
    persistent ones wait for their next deadline, the others are unchanged. *)
Definition after (now : Z) (L : list TimerNode) (o : TimerNode) : option TimerNode :=
  if decide (id o ∈ id <$> L) then
    if interval o =? 0 then None else Some (set_exec o (next_deadline now o))
  else Some o.

(** The effect of a run of the loop that fires the timers [L], in this order. *)
Record selected (now : Z) (t t' : Timer) (L : list TimerNode) : Prop := {
  se_round : round t' = round t;
  se_fired : fired t' = fired t ++ (id <$> L);
  se_touched : touched t ⊆ touched t';
  se_due : Forall (λ o, ∃ p, objects t !! p = Some o ∧ exec_msec o <= now ∧ tround o ≠ round t) L;
  se_once : NoDup (id <$> L);
  se_order : StronglySorted (λ a b, exec_msec a <= exec_msec b) L;
  se_after : ∀ p o, objects t !! p = Some o → id o ∉ touched t' → objects t' !! p = after now L o;
  se_grows : grows t t' }.

(** Where the loop stops: at the earliest remaining timer, which is not due or was
    added in this round. *)
Definition stopped (now : Z) (r : option positive) (t : Timer) : Prop :=
  match r with
  | None => objects t = ∅
  | Some p => ∃ o, objects t !! p = Some o ∧ (now < exec_msec o ∨ tround o = round t) ∧
      ∀ q a, objects t !! q = Some a → exec_msec o <= exec_msec a
  end.

Lemma tinv_current g n t i f : tinv g n t → tinv g n (with_current t i f).
Proof. by intros [? ? ? ? ? ? ? ?]. Qed.

Lemma tinv_grab p n t : tinv None n t → tinv (Some p) n t.
Proof.
  intros [? ? ? ? ? Hnode ? ?]. split; try done. intros q o Ho.
  destruct (Hnode q o Ho) as (?&?&?&?&?&Hr). split_and!; try done; try lia.
  intros E. by specialize (Hr E).
Qed.

Lemma tinv_release p n t :
  tinv (Some p) n t → (∀ o, objects t !! p = Some o → removed o = false) → tinv None n t.
Proof.
  intros [? ? ? ? ? Hnode ? ?] Hp. split; try done. intros q o Ho.
  destruct (Hnode q o Ho) as (?&?&?&?&?&Hr). split_and!; try done; try lia.
  intros E. specialize (Hr E) as [= ->]. rewrite (Hp o Ho) in E. done.
Qed.

(** The root of the heap is an object of first deadline. *)
Lemma top_object n t :
  tinv None n t →
  (top (heap t) = Some None ∧ objects t = ∅) ∨
  ∃ p o hn, top (heap t) = Some (Some p) ∧ Heap.store (heap t) !! p = Some hn ∧
    Heap.data hn = Z.pos p ∧ objects t !! p = Some o ∧ removed o = false ∧
    ∀ q a, objects t !! q = Some a → exec_msec o <= exec_msec a.
Proof.
  intros H. destruct (decide (objects t = ∅)) as [E|E].
  - left. split; [|done]. pose proof (tinv_num _ _ _ H) as Hn. rewrite E, map_size_empty in Hn.
    unfold top. rewrite Hn. done.
  - right. destruct (top_spec (heap t) (ti_heap _ _ _ H)) as (p&pr&d&Ht&_&Hc&Hmin).
    { rewrite (ti_entries _ _ _ H). intros E'. apply E. apply map_eq. intros q.
      assert (entries (objects t) !! q = None) as Hq by by rewrite E'.
      rewrite entries_lookup in Hq. apply fmap_None in Hq. by rewrite lookup_empty. }
    pose proof Hc as Hc'. rewrite (ti_entries _ _ _ H), entries_lookup in Hc'.
    apply fmap_Some in Hc' as (o&Ho&[= -> ->]). apply content_inv in Hc as (hn&Hs&Hp&Hd).
    exists p, o, hn. split_and!; try done.
    + destruct (removed o) eqn:Hr; [|done]. by apply (ti_node _ _ _ H p o Ho) in Hr.
    + intros q a Ha. specialize (Hmin q _ _ (tinv_content _ _ _ _ _ H Ha)).
      rewrite (ti_type _ _ _ H), le_spec in Hmin.
      pose proof (ti_node _ _ _ H p o Ho). rewrite u64_small in Hmin by lia. done.
Qed.

Section SelectSpec.
Context (callback : Z → Timer → list call) (now K : Z).
Hypothesis Hnow : 0 <= now < 2 ^ 61.
Hypothesis Hcb : ∀ d t,
  zlen (callback d t) <= K ∧ Forall (ok_call now (_current_id t)) (callback d t).

(** One round of the loop on a due timer: its callback runs, then the timer is
    rescheduled or deleted; no other timer becomes due. *)
Definition fires (t t4 : Timer) (p : positive) (o : TimerNode) : Prop :=
  round t4 = round t ∧ fired t4 = fired t ++ [id o] ∧ touched t ⊆ touched t4 ∧ grows t t4 ∧
  (id o ∉ touched t4 → objects t4 !! p = after now [o] o) ∧ (p ∉ due now t4) ∧
  (∀ q a, q ≠ p → objects t !! q = Some a → id a ∉ touched t4 → objects t4 !! q = Some a) ∧
  (∀ q a, q ≠ p → objects t4 !! q = Some a → exec_msec a <= now → objects t !! q = Some a).

Lemma K_nonneg : 0 <= K.
Proof. destruct (Hcb 0 make_timer) as [H _]. pose proof (zlen_nonneg (callback 0 make_timer)). lia. Qed.

(** The callback of [o] runs on the root. *)
Lemma run_callback n t p o :
  tinv None (n + K) t → 0 <= n → top (heap t) = Some (Some p) → objects t !! p = Some o →
  exec_msec o <= now →
  let t1 := with_current t (id o) (fired t) in
  ∃ t2, do_calls (with_current t1 (id o) (fired t ++ [id o])) (callback (tdata o) t1) = Some t2 ∧
    tinv (Some p) n t2 ∧ top (heap t2) = Some (Some p) ∧
    calls_rel now p (with_current t1 (id o) (fired t ++ [id o])) t2.
Proof.
  intros H Hn Htop Ho He t1. destruct (Hcb (tdata o) t1) as [Hlen Hok].
  destruct (calls_spec now p (callback (tdata o) t1) (n + K - zlen (callback (tdata o) t1))
              (with_current t1 (id o) (fired t ++ [id o]))) as (t2&H2&Hi&[Ht _]&Hr); try done; try lia.
  - replace (n + K - _ + _) with (n + K) by lia. by apply tinv_current, tinv_current, tinv_grab.
  - split; [done|]. by exists o.
  - exists t2. split_and!; try done. eapply tinv_weaken; [done|lia].
Qed.

Lemma fire_persistent n t t2 p o h :
  tinv (Some p) n t2 → tinv None (n + K) t → objects t !! p = Some o → exec_msec o <= now →
  calls_rel now p (with_current t (id o) (fired t ++ [id o])) t2 →
  objects t2 !! p = Some o → 0 < interval o → removed o = false →
  Heap.change_priority (heap t2) (next_deadline now o) p = Some h →
  let t3 := with_current t2 (-1) (fired t2) in
  let t4 := with_store t3 h (map t3) (<[p := set_exec o (next_deadline now o)]> (objects t3)) in
  tinv None n t4 ∧ fires t t4 p o.
Proof.
  intros Hi Ht Ho He ((Hr&_&Hf)&Hs&_&Hk&Hd&Hg) Ho2 Hiv Hrm Hcp t3 t4.
  destruct (tinv_priority _ _ _ _ _ Hi Ho2) as (d&Hc&Ehn). rewrite Ehn in Hc.
  destruct (ti_node _ _ _ Hi p o Ho2) as (_&_&_&_&Hib&_).
  pose proof (next_deadline_after now o He ltac:(lia)) as Hnd.
  destruct (Heap.change_priority_spec _ _ _ _ (next_deadline now o) (ti_heap _ _ _ Hi) Hc)
    as (h'&Hcp'&Hh&Hch). assert (h' = h) as -> by congruence.
  destruct (change_priority_shape _ _ _ _ Hcp) as (_&Hsz&Hty).
  rewrite (tinv_content _ _ _ _ _ Hi Ho2) in Hc. injection Hc as <-.
  split.
  - apply (tinv_release p).
    + eapply (tinv_change (Some p) n t3 p o); try done; [by apply tinv_current|simpl; lia].
    + intros a. simpl. rewrite lookup_insert_eq. by intros [= <-].
  - unfold fires. simpl. split_and!; try done.
    + destruct Hg as [Hb Hno]. split; [done|]. intros q Hq Hn. simpl.
      rewrite lookup_insert_ne by congruence. by apply Hno.
    + intros _. rewrite lookup_insert_eq. unfold after. simpl.
      rewrite decide_True by (by left). by rewrite (proj2 (Z.eqb_neq _ _)) by lia.
    + intros (a&Ha&Hle)%elem_of_due. simpl in Ha. rewrite lookup_insert_eq in Ha.
      injection Ha as <-. simpl in Hle. lia.
    + intros q a Hq Ha Hno. rewrite lookup_insert_ne by done. by apply Hk.
    + intros q a Hq. rewrite lookup_insert_ne by done. by apply Hd.
Qed.

Lemma fire_once n t t2 p o o3 d h :
  tinv (Some p) n t2 → objects t !! p = Some o → exec_msec o <= now →
  0 <= interval o →
  calls_rel now p (with_current t (id o) (fired t ++ [id o])) t2 →
  objects t2 !! p = Some o3 → id o3 = id o → (o3 = o → interval o <= 0) →
  (o3 = o ∨ id o ∈ touched t2) →
  Heap.pop (heap t2) = Some (d, h) → heap_inv h →
  content h = delete p (content (heap t2)) → hsize h = hsize (heap t2) → type h = type (heap t2) →
  let t3 := with_current t2 (-1) (fired t2) in
  let t4 := with_store t3 h (delete (id o3) (map t3)) (delete p (objects t3)) in
  tinv None n t4 ∧ fires t t4 p o.
Proof.
  intros Hi Ho He Hnn ((Hr&_&Hf)&Hs&_&Hk&Hd&Hg) Ho2 Hid Hiv Hwhy Hpop Hh Hc Hsz Hty t3 t4. split.
  - apply (tinv_release p).
    + eapply (tinv_delete (Some p) n t3 p o3); try done. by apply tinv_current.
    + intros a. simpl. by rewrite lookup_delete_eq.
  - unfold fires. simpl. split_and!; try done.
    + destruct Hg as [Hb Hno]. split; [done|]. intros q Hq Hn. simpl.
      apply lookup_delete_None. right. by apply Hno.
    + intros Hnt. rewrite lookup_delete_eq. destruct Hwhy as [->|?]; [|done]. unfold after.
      rewrite decide_True by (by left). by rewrite (proj2 (Z.eqb_eq _ _)) by (specialize (Hiv eq_refl); lia).
    + intros (a&Ha&_)%elem_of_due. simpl in Ha. by rewrite lookup_delete_eq in Ha.
    + intros q a Hq Ha Hno. rewrite lookup_delete_ne by done. by apply Hk.
    + intros q a Hq. rewrite lookup_delete_ne by done. by apply Hd.
Qed.

(** A round that fires [o] followed by a run that fires [L]. *)
Lemma selected_cons n t t4 t' p o L :
  tinv None n t → objects t !! p = Some o → exec_msec o <= now → tround o ≠ round t →
  (∀ q a, objects t !! q = Some a → exec_msec o <= exec_msec a) →
  fires t t4 p o → selected now t4 t' L → selected now t t' (o :: L).
Proof.
  intros H Ho He Hro Hmin (Hr&Hf&Hs&Hg&Hp&Hnd&Hk&Hd) [Sr Sf St Sd So Ss Sa Sg].
  assert (Forall (λ a, ∃ q, q ≠ p ∧ objects t !! q = Some a ∧ exec_msec a <= now ∧
    tround a ≠ round t) L) as Hall.
  { eapply Forall_impl; [exact Sd|]. intros a (q&Ha&Hle&Hra). exists q. rewrite Hr in Hra.
    assert (q ≠ p) by (intros ->; apply Hnd, elem_of_due; eauto). split_and!; try done. by apply Hd. }
  assert (∀ q a, q ≠ p → objects t !! q = Some a → id a ≠ id o) as Huniq.
  { intros q a Hq Ha E. apply Hq. by eapply tinv_id_inj. }
  assert (id o ∉ id <$> L) as Hnew.
  { intros (a&E&Ha)%list_elem_of_fmap. rewrite Forall_forall in Hall.
    destruct (Hall a Ha) as (q&Hq&Hqa&_). by apply (Huniq q a). }
  split.
  - congruence.
  - rewrite Sf, Hf, <- app_assoc. done.
  - by etrans.
  - constructor; [by exists p|]. eapply Forall_impl; [exact Hall|]. intros a (q&_&?). by exists q.
  - by constructor.
  - constructor; [done|]. eapply Forall_impl; [exact Hall|]. intros a (q&_&Ha&_). by eapply Hmin.
  - intros q a Ha Hnt. destruct (decide (q = p)) as [->|Hq].
    + assert (a = o) as -> by congruence.
      assert (objects t4 !! p = after now [o] o) as Hp4 by auto.
      unfold after in *. rewrite decide_True in Hp4 by (by left). rewrite decide_True by (by left).
      destruct (interval o =? 0) eqn:Ei.
      * destruct (ti_node _ _ _ H p o Ho) as [Hlt _]. destruct Sg as [_ Hno].
        destruct Hg as [? _]. apply Hno; [lia|done].
      * rewrite (Sa p _ Hp4) by done. unfold after. simpl.
        rewrite decide_False by done. done.
    + rewrite (Sa q a) by auto. unfold after. rewrite fmap_cons.
      pose proof (Huniq q a Hq Ha).
      destruct (decide (id a ∈ id <$> L)) as [Hin|Hin].
      * rewrite decide_True; [done|by right].
      * rewrite decide_False; [done|]. by intros [?|?]%elem_of_cons.
  - by eapply grows_trans.
Qed.

(** One round of the loop. *)
Lemma loop_round n t p o hn fuel :
  tinv None (n + K) t → 0 <= n → top (heap t) = Some (Some p) →
  Heap.store (heap t) !! p = Some hn → Heap.data hn = Z.pos p → objects t !! p = Some o →
  removed o = false → exec_msec o <= now → tround o ≠ round t →
  ∃ t4, select_loop callback (S fuel) t now = select_loop callback fuel t4 now ∧
    tinv None n t4 ∧ fires t t4 p o.
Proof.
  intros H Hn Htop Hhn Hd Ho Hrm He Hro. pose proof K_nonneg as HK.
  destruct (run_callback n t p o H Hn Htop Ho He) as (t2&Hcalls&Hi&Htop2&Hrel).
  destruct (ti_node _ _ _ H p o Ho) as (_&_&_&Heb&Hib&_).
  cbn [select_loop]. rewrite Htop. cbn [mbind option_bind]. rewrite Hhn. cbn [mbind option_bind].
  rewrite Hd. cbn [Z.to_pos]. rewrite Ho. cbn [mbind option_bind].
  rewrite (proj2 (Z.eqb_neq _ _) Hro), Z.gtb_ltb, (proj2 (Z.ltb_ge _ _)) by lia. cbn [orb].
  rewrite Hrm, Hcalls. cbn [mbind option_bind]. cbv zeta.
  destruct Hrel as (Hrun&Hts&Hpres&Hrest).
  destruct (Hpres o Ho) as (o3&Ho3&Hwhy).
  change (objects (with_current t2 (-1) (fired t2))) with (objects t2).
  change (heap (with_current t2 (-1) (fired t2))) with (heap t2).
  rewrite Ho3. cbn [mbind option_bind].
  destruct (Z.ltb_spec 0 (interval o3)) as [Hiv|Hiv]; cbn [andb]; [destruct (removed o3) eqn:Hrm3|];
    cbn [negb].
  2: { destruct Hwhy as [->|[-> _]]; [|done].
       rewrite catch_up_spec by lia. cbn [mbind option_bind]. fold (next_deadline now o).
       pose proof (next_deadline_after now o He ltac:(lia)). rewrite u64_small by lia.
       destruct (tinv_priority _ _ _ _ _ Hi Ho3) as (d&Hc&Ehn). rewrite Ehn in Hc.
       destruct (Heap.change_priority_spec _ _ _ _ (next_deadline now o) (ti_heap _ _ _ Hi) Hc)
         as (h&Hcp&_&_).
       rewrite Hcp. cbn [mbind option_bind]. eexists. split; [done|].
       eapply (fire_persistent n t t2 p o h); try done. }
  all: destruct (pop_root (heap t2) p (ti_heap _ _ _ Hi) Htop2) as (d&h&Hpop&Hh&Hc&_&Hsz&Hty);
    rewrite Hpop; cbn [mbind option_bind]; eexists; (split; [done|]);
    eapply (fire_once n t t2 p o o3 _ h); try done; try lia;
    destruct Hwhy as [->|[-> ?]]; try done; try (by left); try (by right); try congruence; try lia.
Qed.

Lemma select_loop_spec fuel n t :
  tinv None (n + K * Z.of_nat (base.size (due now t))) t → 0 <= n →
  (base.size (due now t) < fuel)%nat →
  ∃ r t' L, select_loop callback fuel t now = Some (r, t') ∧ tinv None n t' ∧
    selected now t t' L ∧ stopped now r t'.
Proof.
  pose proof K_nonneg as HK. revert t. induction fuel as [|fuel IH]; intros t H Hn Hf; [lia|].
  assert (tinv None n t) as Hw by (eapply tinv_weaken; [done|nia]).
  assert (selected now t t []) as Hnil.
  { split; try done; try constructor. by rewrite app_nil_r. }
  destruct (top_object _ _ H) as [[Htop E]|(p&o&hn&Htop&Hhn&Hd&Ho&Hrm&Hmin)].
  { exists None, t, []. simpl. rewrite Htop. done. }
  destruct (decide (now < exec_msec o ∨ tround o = round t)) as [Hstop|Hgo].
  { exists (Some p), t, []. split_and!; try done; [|by exists o]. simpl. rewrite Htop. simpl.
    rewrite Hhn. simpl. rewrite Hd. simpl. rewrite Ho. simpl. rewrite Z.gtb_ltb.
    destruct Hstop as [Hlt|Heq]; [by rewrite (proj2 (Z.ltb_lt _ _) Hlt)|].
    by rewrite (proj2 (Z.eqb_eq _ _) Heq), orb_true_r. }
  assert (exec_msec o <= now ∧ tround o ≠ round t) as [He Hro] by (split; [lia|tauto]).
  assert (p ∈ due now t) as Hin by (apply elem_of_due; eauto).
  set (m := n + K * (Z.of_nat (base.size (due now t)) - 1)).
  assert (1 <= base.size (due now t))%nat as Hs1.
  { destruct (base.size (due now t)) eqn:E; [|lia]. apply size_empty_inv in E.
    by apply E, not_elem_of_empty in Hin. }
  destruct (loop_round m t p o hn fuel) as (t4&Hl&Hi4&Hfires); try done; [|unfold m; nia|].
  { replace (m + K) with (n + K * Z.of_nat (base.size (due now t))) by (unfold m; lia). done. }
  assert (base.size (due now t4) < base.size (due now t))%nat as Hsz.
  { apply subset_size. destruct Hfires as (_&_&_&_&_&Hnd&_&Hdd). split.
    - intros q Hq. assert (q ≠ p) by (intros ->; done). apply elem_of_due in Hq as (a&Ha&Hle).
      apply elem_of_due. eauto.
    - intros Hsub. by apply Hnd, Hsub. }
  destruct (IH t4) as (r&t'&L&Hrun&Hinv&Hsel&Hst); [|done|lia|].
  { eapply tinv_weaken; [exact Hi4|]. unfold m. nia. }
  exists r, t', (o :: L). rewrite Hl. split_and!; try done. by eapply selected_cons.
Qed.
End SelectSpec.

(** C29: one call of [select] does what the timer promises.  With callbacks that
    make any timer calls (adding timers, removing any timer also their own,
    delaying others by a positive time, on clocks that do not run backwards),
    [select] terminates and never follows a stale pointer, and afterwards:
    the timers that fired were due and not added since the previous call, fired once
    and in the order of their deadlines; of the timers no callback touched, the fired
    one-shot ones are gone, the fired persistent ones wait for their first deadline
    after [now_msec] and all others are unchanged; when no timer added since the previous
    call is due, no due timer is left; otherwise firing may stop early, but only at the
    earliest remaining timer, which was then added since the previous call (see
    [due_timer_waits]); the reactor is told to wait until that deadline (at least one millisecond); and the
    heap, the map and the objects agree again. *)
Theorem select_fires_due callback now K n t :
  (∀ d t, zlen (callback d t) <= K ∧ Forall (ok_call now (_current_id t)) (callback d t)) →
  0 <= now < 2 ^ 61 → 0 <= n →
  tinv None (n + K * Z.of_nat (base.size (objects t))) t →
  ∃ t' L, select callback t now = Some (OSW_OK, t') ∧ tinv None n t' ∧
    fired t' = fired t ++ (id <$> L) ∧ NoDup (id <$> L) ∧
    StronglySorted (λ a b, exec_msec a <= exec_msec b) L ∧
    Forall (λ o, ∃ p, objects t !! p = Some o ∧ exec_msec o <= now ∧ tround o ≠ round t) L ∧
    (∀ p o, objects t !! p = Some o → id o ∉ touched t' → objects t' !! p = after now L o) ∧
    round t' = u64 (round t + 1) ∧ timeout_msec t' = next_msec_ t' ∧
    ((∀ p o, objects t' !! p = Some o → tround o = round t → now < exec_msec o) →
      ∀ p o, objects t' !! p = Some o → now < exec_msec o) ∧
    ((objects t' = ∅ ∧ next_msec_ t' = -1) ∨
     ∃ p o, objects t' !! p = Some o ∧ (now < exec_msec o ∨ tround o = round t) ∧
       (∀ q a, objects t' !! q = Some a → exec_msec o <= exec_msec a) ∧
       next_msec_ t' = Z.max 1 (exec_msec o - now)).
Proof.
  intros Hcb Hnow Hn H. pose proof (K_nonneg callback now K Hnow Hcb) as HK.
  assert (base.size (due now t) <= base.size (objects t))%nat as Hdue.
  { unfold due. rewrite size_dom. apply map_size_filter. }
  destruct (select_loop_spec callback now K Hnow Hcb (S (base.size (objects t))) n t)
    as (r&t1&L&Hl&Hinv&[Sr Sf St Sd So Ss Sa _]&Hst); [|done|lia|].
  { eapply tinv_weaken; [done|nia]. }
  unfold select. rewrite (proj2 (Z.ltb_ge _ _)), Hl by lia. cbn [mbind option_bind].
  destruct r as [p|]; cbn [mbind option_bind].
  - destruct Hst as (o&Ho&Hwhy&Hmin). rewrite Ho. cbn [mbind option_bind].
    pose proof (ti_node _ _ _ Hinv p o Ho). rewrite i64_small by lia.
    eexists _, L. split; [done|]. split; [by destruct Hinv|]. simpl. rewrite Sr in *.
    split_and!; try done.
    + intros Hnew q a Hq. specialize (Hmin q a Hq). destruct Hwhy as [|Hr]; [lia|]. specialize (Hnew p o Ho Hr). lia.
    + right. exists p, o. split_and!; try done. case_Z; lia.
  - eexists _, L. split; [done|]. split; [by destruct Hinv|]. simpl. rewrite Sr in *.
    split_and!; try done; [|by left]. intros _ p o. by rewrite Hst, lookup_empty.
Qed.

(** Two timers, 10 ms persistent and 20 ms once, one round later. *)
Definition example_timer : Timer :=
  default make_timer
    ('(_, a) ← add make_timer true 0 10 true 7;
     '(_, b) ← add a true 0 20 false 8;
     Some (MkTimer (heap b) (map b) (objects b) (brk b) 1 (_next_id b) (-1) 10 10 [] [])).

Lemma example_timer_inv : tinv None 100 example_timer.
Proof.
  destruct (add_spec None 102 make_timer 0 10 true 7) as (a&Ha&Hia&_); [by apply make_timer_inv|lia..|].
  destruct (add_spec None 101 a 0 20 false 8) as (b&Hb&Hib&_); [done|lia..|].
  unfold example_timer. rewrite Ha. cbn [mbind option_bind]. rewrite Hb. cbn [mbind option_bind default].
  by destruct Hib.
Qed.

(** The callback of the first timer adds a timer and removes its own. *)
Definition example_callback (d : Z) (t : Timer) : list call :=
  if d =? 7 then [CallAdd true 15 3 false 9; CallRemove 1] else [].

Lemma select_fires_due_witness :
  ∃ t' L, select example_callback example_timer 15 = Some (OSW_OK, t') ∧ tinv None 96 t' ∧
    fired t' = [] ++ (id <$> L).
Proof.
  destruct (select_fires_due example_callback 15 2 96 example_timer) as (t'&L&Hs&Hi&Hf&_).
  - intros d t. unfold example_callback. destruct (d =? 7); (split; [by vm_compute|]).
    + constructor; [|constructor; [|constructor]]; simpl; [split; [done|lia]|done].
    + constructor.
  - lia.
  - lia.
  - exact example_timer_inv.
  - exists t', L. split; [exact Hs|]. split; [exact Hi|exact Hf].
Defined.

Example select_example :
  ('(_, t) ← select example_callback example_timer 15;
   '(_, t) ← select example_callback t 25; Some (fired t, next_msec_ t, elements (dom (map t))))
  = Some ([1; 3; 2], -1, []).
Proof. vm_compute. reflexivity. Qed.

(** A timer that is due waits for the next call when a timer with an earlier deadline was added
    since the previous one: the loop stops at that one. *)
Example due_timer_waits :
  ('(_, t) ← add make_timer true 0 20 false 7;
   '(_, t) ← select (λ _ _, []) t 0;
   '(_, t) ← add t true 10 5 false 8;
   '(_, t1) ← select (λ _ _, []) t 25;
   '(_, t2) ← select (λ _ _, []) t1 26;
   Some (fired t1, next_msec_ t1, fired t2)) = Some ([], 1, [2; 1]).
Proof. vm_compute. reflexivity. Qed.

(** A callback that delays its own one-shot timer corrupts the timer.  [delay]
    moves the running node down in the heap, [select] then pops whatever node is the
    root and deletes the running one: the other timer is lost and the heap keeps a
    pointer to a freed [TimerNode], which [select] dereferences.  The same timer with
    a callback that leaves it alone is fine. *)
Theorem delay_own_timer_faults :
  let t := default make_timer
    ('(_, a) ← add make_timer true 0 10 false 7;
     '(_, b) ← add a true 0 20 false 8;
     '(_, c) ← select (λ _ _, []) b 0; Some c) in
  timer_count t = 2 ∧
  select (λ d _, if d =? 7 then [CallDelay 15 1 100] else []) t 15 = None ∧
  ∃ t', select (λ _ _, []) t 15 = Some (OSW_OK, t') ∧ fired t' = [1] ∧ timer_count t' = 1.
Proof.
  intros t. split; [vm_compute; reflexivity|]. split; [vm_compute; reflexivity|].
  eexists. split; [vm_compute; reflexivity|]. split; vm_compute; reflexivity.
Qed.

(** The relative clock is exact to the millisecond and does not run backwards when
    the system clock does not. *)
Lemma get_relative_msec_close base now :
  let elapsed := (now.1 - base.1) * 1000000 + (now.2 - base.2) in
  0 <= now.2 < 1000000 → 0 <= base.2 < 1000000 → - 2 ^ 40 < now.1 - base.1 < 2 ^ 40 →
  elapsed - 1000 < get_relative_msec base now * 1000 < elapsed + 1000.
Proof.
  destruct base as [bs bu], now as [s u]. simpl. intros Hu Hb Hs. unfold get_relative_msec. simpl.
  pose proof (Z.quot_rem' (u - bu) 1000). pose proof (Z.rem_bound_abs (u - bu) 1000 ltac:(lia)).
  rewrite i64_small by lia. lia.
Qed.

Lemma get_relative_msec_mono base a b :
  0 <= a.2 < 1000000 → 0 <= b.2 < 1000000 → 0 <= base.2 < 1000000 →
  - 2 ^ 40 < a.1 - base.1 < 2 ^ 40 → - 2 ^ 40 < b.1 - base.1 < 2 ^ 40 →
  a.1 < b.1 ∨ (a.1 = b.1 ∧ a.2 <= b.2) → get_relative_msec base a <= get_relative_msec base b.
Proof.
  destruct base as [bs bu], a as [sa ua], b as [sb ub]. simpl. intros Ha Hb Hbu Hsa Hsb Hle.
  unfold get_relative_msec. simpl.
  rewrite !i64_small by (Z.to_euclidean_division_equations; lia).
  Z.to_euclidean_division_equations; lia.
Qed.
