(* ===== verification/Buffer.v ===== *)
(** * The chunked output buffer: src/memory/buffer.cc, include/openswoole_buffer.h

    A queue of chunks; a data chunk owns a block of [size] bytes of which [length]
    are filled and [offset] are already sent.  [fresh n] is what a newly allocated
    area of [n] bytes contains.  [None] is a failed [assert] or an access outside a
    block. *)

From S2P Require Import Prelude.

Inductive chunk_type := TYPE_DATA | TYPE_SENDFILE | TYPE_CLOSE.

(** [struct BufferChunk]; [ptr] is the block of [value.ptr]. *)
Record BufferChunk := MkChunk {
  ctype : chunk_type; clength : Z; coffset : Z; csize : Z; ptr : bytes }.

(** [class Buffer]. *)
Record Buffer := MkBuffer { chunk_size : Z; total_length : Z; queue : list BufferChunk }.

Definition set_queue (b : Buffer) (q : list BufferChunk) : Buffer :=
  MkBuffer (chunk_size b) (total_length b) q.
Definition add_total (b : Buffer) (n : Z) : Buffer :=
  MkBuffer (chunk_size b) (u32 (total_length b + n)) (queue b).

(** [Buffer::Buffer]; [INT_MAX] when no chunk size is given. *)
Definition make_buffer (_chunk_size : Z) : Buffer :=
  MkBuffer (if _chunk_size =? 0 then 2147483647 else _chunk_size) 0 [].

Definition front (b : Buffer) : option BufferChunk := head (queue b).
Definition length_ (b : Buffer) : Z := total_length b.
Definition count (b : Buffer) : Z := zlen (queue b).
Definition empty (b : Buffer) : bool := bool_decide (queue b = []).

(** [pop]: popping an empty queue is undefined. *)
Definition pop (b : Buffer) : option Buffer :=
  match queue b with
  | [] => None
  | c :: q => Some (MkBuffer (chunk_size b) (u32 (total_length b - csize c)) q)
  end.

Section Buffer.
Variable fresh : nat → bytes.

(** [alloc]: the new chunk is the last of the queue. *)
Definition alloc (b : Buffer) (type : chunk_type) (size : Z) : Buffer :=
  let c := match type with
           | TYPE_DATA => if 0 <? size then MkChunk type 0 0 size (fresh (Z.to_nat size))
                          else MkChunk type 0 0 0 []
           | _ => MkChunk type 0 0 0 []
           end in
  set_queue b (queue b ++ [c]).

(** [memcpy(chunk->value.ptr + chunk->length, data, n); chunk->length += n;] on the
    last chunk. *)
Definition fill (b : Buffer) (data : bytes) : option Buffer :=
  match last (queue b) with
  | None => None
  | Some c =>
    m ← store (ptr c) (clength c) data;
    Some (set_queue b (removelast (queue b) ++
      [MkChunk (ctype c) (u32 (clength c + zlen data)) (coffset c) (csize c) m]))
  end.

(** The loop of [append(data, size)]. *)
Fixpoint append_loop (fuel : nat) (b : Buffer) (data : bytes) : option Buffer :=
  if zlen data =? 0 then Some b else
  match fuel with
  | O => None
  | S fuel =>
    let _n := if zlen data >=? chunk_size b then chunk_size b else zlen data in
    b1 ← fill (add_total (alloc b TYPE_DATA _n) _n) (take (Z.to_nat _n) data);
    append_loop fuel b1 (drop (Z.to_nat _n) data)
  end.

(** [append(data, size)]; its callers pass the length of [data], which the type [uint32_t] of
    [size] cuts. *)
Definition append (b : Buffer) (data : bytes) : option Buffer :=
  let size := u32 (zlen data) in
  if size =? 0 then None (* assert *)
  else append_loop (Z.to_nat size) b (take (Z.to_nat size) data).

(** [append(iov, iovcnt, offset)].  [pos] points into the vector [k] at [off]; it is
    kept apart from the index [i], as in the source.  One copy into the current
    chunk: the number of bytes, and the next [pos], [iov_remain_len] and [i] unless
    the vectors are used up. *)
Definition iov_copy (iov : list bytes) (b : Buffer) (k : nat) (off iov_remain_len : Z) (i : nat)
    (chunk_remain_len : Z) : option (Buffer * Z * option (nat * Z * Z * nat)) :=
  let _n := Z.min iov_remain_len chunk_remain_len in
  v ← iov !! k;
  data ← load v off _n;
  b1 ← fill b data;
  let b2 := add_total b1 _n in
  if iov_remain_len - _n =? 0 then
    match iov !! S i with
    | None => Some (b2, _n, None)
    | Some w => Some (b2, _n, Some (S i, 0, zlen w, S i))
    end
  else Some (b2, _n, Some (k, off + _n, iov_remain_len - _n, i)).

(** The loop; [cur] says that [chunk] is not null (it is the last of the queue). *)
Fixpoint iov_loop (fuel : nat) (iov : list bytes) (b : Buffer) (k : nat) (off : Z)
    (iov_remain_len : Z) (cur : bool) (i : nat) (_length offset : Z) : option Buffer :=
  match fuel with
  | O => None
  | S fuel =>
    let copy (b : Buffer) (chunk_remain_len : Z) (offset : Z) :=
      '(b2, _n, next) ← iov_copy iov b k off iov_remain_len i chunk_remain_len;
      match next with
      | None => Some b2
      | Some (k, off, iov_remain_len, i) =>
        iov_loop fuel iov b2 k off iov_remain_len true i (u64 (_length - _n)) offset
      end in
    if cur then
      c ← last (queue b);
      if csize c =? clength c
      then iov_loop fuel iov b k off iov_remain_len false i _length offset
      else copy b (csize c - clength c) offset
    else
      let fresh_chunk offset :=
        let n := if _length >=? chunk_size b then chunk_size b else _length in
        copy (alloc b TYPE_DATA n) n offset in
      if 0 <? offset then
        w ← iov !! i;
        if offset >=? zlen w
        then iov_loop fuel iov b k off iov_remain_len false (S i) _length (offset - zlen w)
        else fresh_chunk 0
      else fresh_chunk offset
  end.

Definition append_iov (b : Buffer) (iov : list bytes) (offset : Z) : option Buffer :=
  if forallb (λ v, 0 <? zlen v) iov then
    v ← iov !! 0%nat;
    iov_loop (2 * length (concat iov) + length iov + 2) iov b 0 0 (zlen v) false 0
             (zlen (concat iov)) offset
  else None (* assert *).
End Buffer.

(** ** What a buffer holds *)

(** The bytes stored in a chunk, and those not sent yet. *)
Definition stored (c : BufferChunk) : bytes := take (Z.to_nat (clength c)) (ptr c).
Definition unsent (c : BufferChunk) : bytes := drop (Z.to_nat (coffset c)) (stored c).
Definition pending (b : Buffer) : bytes := concat (unsent <$> queue b).

(** A data chunk whose block is filled up to [length]. *)
Definition chunk_ok (lim : Z) (c : BufferChunk) : Prop :=
  ctype c = TYPE_DATA ∧ csize c = zlen (ptr c) ∧ 0 < csize c <= lim ∧
  0 <= coffset c <= clength c ∧ clength c <= csize c.
Definition full (lim : Z) (c : BufferChunk) : Prop :=
  chunk_ok lim c ∧ clength c = csize c.

Definition total (q : list BufferChunk) : Z := foldr (λ c n, csize c + n) 0 q.

(** The invariant of a buffer of data chunks. *)
Record buffer_inv (b : Buffer) : Prop := {
  bi_chunk : 1 <= chunk_size b < 2 ^ 31;
  bi_full : Forall (full (chunk_size b)) (queue b);
  bi_total : total_length b = u32 (total (queue b)) }.

Lemma total_app q r : total (q ++ r) = total q + total r.
Proof. unfold total. induction q; simpl; lia. Qed.

Lemma u32_add_l a b : u32 (u32 a + b) = u32 (a + b).
Proof. unfold u32, wrap. by rewrite Zplus_mod_idemp_l. Qed.

Lemma zlen_stored lim c : chunk_ok lim c → zlen (stored c) = clength c.
Proof. intros (_&?&?&?&?). unfold stored, zlen in *. rewrite length_take. lia. Qed.

Lemma full_stored lim c : full lim c → stored c = ptr c.
Proof. intros [(_&?&?&?&?) ?]. unfold stored. apply take_ge. unfold zlen in *. lia. Qed.

Section BufferProofs.
Variable fresh : nat → bytes.
Hypothesis fresh_length : ∀ n, length (fresh n) = n.

(** Bytes go behind those already in the last chunk. *)
Lemma fill_spec lim b q c data :
  queue b = q ++ [c] → chunk_ok lim c → lim < 2 ^ 31 → clength c + zlen data <= csize c →
  ∃ c', fill b data = Some (set_queue b (q ++ [c'])) ∧ chunk_ok lim c' ∧
    stored c' = stored c ++ data ∧ csize c' = csize c ∧ coffset c' = coffset c ∧
    clength c' = clength c + zlen data.
Proof.
  intros Hq (Ht&Hs&Hl&Ho&Hle) Hlim Hfit. unfold fill. rewrite Hq, last_snoc, removelast_last.
  pose proof (zlen_nonneg data).
  destruct (store (ptr c) (clength c) data) as [m|] eqn:Hm.
  2: { rewrite store_Some in Hm by lia. done. }
  cbn [mbind option_bind]. rewrite u32_small by lia. eexists. split; [done|].
  pose proof (store_length _ _ _ _ Hm) as Hz.
  split_and!; simpl; try done; try lia.
  - repeat split; simpl; try done; lia.
  - apply store_is_Some in Hm as (_&Hb&->). unfold stored, zlen in *. simpl.
    rewrite (assoc_L (++)), take_app_le by (rewrite length_app, length_take; lia).
    apply take_ge. rewrite length_app, length_take. lia.
Qed.

Lemma buf_alloc_spec b n :
  0 < n <= chunk_size b → ∃ c, alloc fresh b TYPE_DATA n = set_queue b (queue b ++ [c]) ∧
    chunk_ok (chunk_size b) c ∧ csize c = n ∧ clength c = 0 ∧ coffset c = 0 ∧ stored c = [].
Proof.
  intros Hn. unfold alloc. rewrite (proj2 (Z.ltb_lt _ _)) by lia. eexists. split; [done|].
  split_and!; try done. split_and!; simpl; try done; try lia.
  unfold zlen. rewrite fresh_length. lia.
Qed.

(** [append] stores the data in full chunks of at most [chunk_size] bytes. *)
Lemma append_loop_spec fuel b data :
  1 <= chunk_size b < 2 ^ 31 → (length data <= fuel)%nat →
  ∃ cs, append_loop fresh fuel b data =
      Some (MkBuffer (chunk_size b) (if zlen data =? 0 then total_length b else
                                       u32 (total_length b + zlen data)) (queue b ++ cs)) ∧
    Forall (λ c, full (chunk_size b) c ∧ coffset c = 0) cs ∧ concat (stored <$> cs) = data ∧
    total cs = zlen data.
Proof.
  revert b data. induction fuel as [|fuel IH]; intros b data Hc Hf; simpl.
  - destruct data; simpl in *; [|lia]. exists []. rewrite app_nil_r. split_and!; try done.
    by destruct b.
  - destruct (Z.eqb_spec (zlen data) 0) as [E|E].
    { apply zlen_0 in E as ->. exists []. rewrite app_nil_r. split_and!; try done. by destruct b. }
    pose proof (zlen_nonneg data). rewrite Z.geb_leb.
    set (n := if chunk_size b <=? zlen data then _ else _).
    assert (0 < n <= chunk_size b ∧ n <= zlen data) as [Hn Hn'] by (unfold n; case_Z; lia).
    destruct (buf_alloc_spec b n Hn) as (c&Ha&Hok&Hcs&Hcl&Hco&Hst). rewrite Ha.
    assert (zlen (take (Z.to_nat n) data) = n) as Hzt by (unfold zlen in *; rewrite length_take; lia).
    destruct (fill_spec (chunk_size b) (add_total (set_queue b (queue b ++ [c])) n) (queue b) c
                (take (Z.to_nat n) data)) as (c'&Hfill&Hok'&Hst'&Hcs'&Hco'&Hcl'); [done|done|lia|lia|].
    rewrite Hfill. cbn [mbind option_bind].
    destruct (IH (set_queue (add_total (set_queue b (queue b ++ [c])) n) (queue b ++ [c']))
                (drop (Z.to_nat n) data)) as (cs&Hl&Hall&Hcat&Htot); [done|rewrite length_drop; lia|].
    rewrite Hl. simpl. exists (c' :: cs). rewrite <- app_assoc. simpl.
    assert (zlen (drop (Z.to_nat n) data) = zlen data - n) as Hzd
      by (unfold zlen in *; rewrite length_drop; lia).
    split_and!.
    + rewrite Hzd, u32_add_l. do 2 f_equal. case_Z; [f_equal; lia|f_equal; lia].
    + constructor; [|done]. split; [split; [done|lia]|lia].
    + change (stored c' ++ concat (stored <$> cs) = data).
      rewrite Hst', Hst, Hcat. apply take_drop.
    + lia.
Qed.

Lemma pending_unsent q cs :
  Forall (λ c, coffset c = 0) cs →
  concat (unsent <$> (q ++ cs)) = concat (unsent <$> q) ++ concat (stored <$> cs).
Proof.
  intros H. rewrite fmap_app, concat_app. f_equal. induction H as [|c cs Hc _ IH]; [done|].
  cbn. rewrite <- IH. unfold unsent at 1. by rewrite Hc.
Qed.

(** What [append] takes of the data. *)
Definition taken (data : bytes) : bytes := take (Z.to_nat (u32 (zlen data))) data.

Lemma zlen_taken data : zlen (taken data) = u32 (zlen data).
Proof.
  pose proof (wrap_range 32 (zlen data) ltac:(lia)) as Hr.
  assert (u32 (zlen data) <= zlen data) by (apply Z.mod_le; [apply zlen_nonneg|done]).
  unfold taken, u32, zlen in *. rewrite length_take. lia.
Qed.

Lemma taken_all data : zlen data < 2 ^ 32 → taken data = data.
Proof. intros H. unfold taken. pose proof (zlen_nonneg data). rewrite u32_small by lia. apply take_ge. unfold zlen. lia. Qed.

Lemma buf_append_taken b data :
  buffer_inv b → taken data ≠ [] →
  ∃ b', append fresh b data = Some b' ∧ buffer_inv b' ∧ pending b' = pending b ++ taken data ∧
    queue b' ≠ [] ∧ chunk_size b' = chunk_size b.
Proof.
  intros [Hc Hf Ht] Hd. unfold append. pose proof (zlen_pos _ Hd). rewrite zlen_taken in *.
  rewrite (proj2 (Z.eqb_neq _ _)) by lia. fold (taken data). pose proof (zlen_taken data) as Hz.
  destruct (append_loop_spec (Z.to_nat (u32 (zlen data))) b (taken data) Hc ltac:(unfold zlen in *; lia)) as (cs&->&Hall&Hcat&Htot).
  rewrite (proj2 (Z.eqb_neq _ _)) by lia. eexists. split; [done|].
  apply Forall_and in Hall as [Hfull Hoff]. split_and!; try done.
  - split; simpl; [done|by apply Forall_app|]. rewrite Ht, u32_add_l, total_app. f_equal. lia.
  - unfold pending. simpl. by rewrite pending_unsent, Hcat.
  - simpl. intros [_ ->]%app_nil. by destruct Hd.
Qed.

Lemma buf_append_spec b data :
  buffer_inv b → data ≠ [] → zlen data < 2 ^ 32 →
  ∃ b', append fresh b data = Some b' ∧ buffer_inv b' ∧ pending b' = pending b ++ data ∧
    queue b' ≠ [] ∧ chunk_size b' = chunk_size b.
Proof. intros Hb Hd Hl. pose proof (buf_append_taken b data Hb) as H. rewrite taken_all in H by done. auto. Qed.

Lemma total_full lim cs : Forall (full lim) cs → zlen (concat (stored <$> cs)) = total cs.
Proof.
  induction 1 as [|c cs [Hok Hc] _ IH]; [done|]. rewrite fmap_cons. cbn [concat].
  rewrite zlen_app, IH, (zlen_stored lim c Hok). simpl. lia.
Qed.

(** ** The vectored append *)

(** The state of the loop after [D] was copied and while [R] remains: all chunks but
    the current one are full, and the rest has to fill the current one. *)
Definition iov_inv (b0 b : Buffer) (cur : bool) (D R : bytes) : Prop :=
  chunk_size b = chunk_size b0 ∧ total_length b = u32 (total_length b0 + zlen D) ∧
  ∃ cs, queue b = queue b0 ++ cs ∧ concat (stored <$> cs) = D ∧
    Forall (λ c, coffset c = 0) cs ∧
    (if cur then ∃ cs' c, cs = cs' ++ [c] ∧ Forall (full (chunk_size b0)) cs' ∧
                   chunk_ok (chunk_size b0) c ∧ csize c - clength c <= zlen R
     else Forall (full (chunk_size b0)) cs).

(** Copying [data] into the current chunk. *)
Lemma iov_fill b0 b cs' c D R data :
  1 <= chunk_size b0 < 2 ^ 31 → chunk_size b = chunk_size b0 →
  total_length b = u32 (total_length b0 + zlen D) →
  queue b = queue b0 ++ cs' ++ [c] → concat (stored <$> (cs' ++ [c])) = D →
  Forall (λ c, coffset c = 0) (cs' ++ [c]) → Forall (full (chunk_size b0)) cs' →
  chunk_ok (chunk_size b0) c → csize c - clength c <= zlen (data ++ R) →
  clength c + zlen data <= csize c →
  ∃ b1, fill b data = Some b1 ∧ iov_inv b0 (add_total b1 (zlen data)) true (D ++ data) R.
Proof.
  intros Hlim Hcs Htot Hq Hcat Hoff Hfull Hok Hr Hfit.
  rewrite (assoc_L (++)) in Hq.
  destruct (fill_spec _ b _ c data Hq Hok ltac:(lia) Hfit) as (c'&Hf&Hok'&Hst&Hsz&Hco&Hcl).
  eexists. split; [exact Hf|]. split_and!; simpl; [done|rewrite Htot, u32_add_l, zlen_app; f_equal; lia|].
  exists (cs' ++ [c']). rewrite (assoc_L (++)). split_and!; [done| | |].
  - subst D. rewrite !fmap_app, !concat_app. cbn. rewrite !app_nil_r, Hst. by rewrite (assoc_L (++)).
  - apply Forall_app in Hoff as [? Hc]. apply Forall_app. split; [done|].
    inversion_clear Hc. constructor; [lia|done].
  - exists cs', c'. split_and!; try done. rewrite zlen_app in Hr. lia.
Qed.

(** What remains of the vectors when [pos] is at [off] in vector [i]. *)
Definition iov_rest (iov : list bytes) (i : nat) (off : Z) : bytes :=
  drop (Z.to_nat off) (concat (drop i iov)).

Lemma iov_rest_take iov i v off n :
  iov !! i = Some v → 0 <= off → 0 <= n → off + n <= zlen v →
  iov_rest iov i off = take (Z.to_nat n) (drop (Z.to_nat off) v) ++ iov_rest iov i (off + n).
Proof.
  intros Hv Ho Hn Hle. unfold iov_rest. rewrite (drop_S iov v i Hv). cbn [concat]. unfold zlen in *.
  rewrite !drop_app_le by lia. rewrite (assoc_L (++)). f_equal.
  replace (Z.to_nat (off + n)) with (Z.to_nat off + Z.to_nat n)%nat by lia.
  rewrite <- drop_drop. by rewrite take_drop.
Qed.

Lemma iov_rest_next iov i v : iov !! i = Some v → iov_rest iov i (zlen v) = iov_rest iov (S i) 0.
Proof.
  intros Hv. unfold iov_rest. rewrite (drop_S iov v i Hv). cbn [concat]. unfold zlen.
  rewrite Nat2Z.id, drop_app_length. done.
Qed.

Lemma iov_rest_pos iov i v off : iov !! i = Some v → 0 <= off < zlen v → 0 < zlen (iov_rest iov i off).
Proof.
  intros Hv Hoff. rewrite (iov_rest_take iov i v off 1 Hv), zlen_app by lia.
  pose proof (zlen_nonneg (iov_rest iov i (off + 1))). unfold zlen in *.
  rewrite length_take, length_drop. lia.
Qed.

(** One copy moves a non-empty prefix of the rest. *)
Lemma iov_copy_spec iov b0 b cs' c D i v off :
  1 <= chunk_size b0 < 2 ^ 31 → iov !! i = Some v → 0 <= off < zlen v →
  chunk_size b = chunk_size b0 → total_length b = u32 (total_length b0 + zlen D) →
  queue b = queue b0 ++ cs' ++ [c] → concat (stored <$> (cs' ++ [c])) = D →
  Forall (λ c, coffset c = 0) (cs' ++ [c]) → Forall (full (chunk_size b0)) cs' →
  chunk_ok (chunk_size b0) c → 0 < csize c - clength c <= zlen (iov_rest iov i off) →
  ∃ b2 n nx i' v' off', iov_copy iov b i off (zlen v - off) i (csize c - clength c) = Some (b2, n, nx) ∧
    0 < n ∧ n + zlen (iov_rest iov i' off') = zlen (iov_rest iov i off) ∧
    iov_rest iov i off = take (Z.to_nat n) (iov_rest iov i off) ++ iov_rest iov i' off' ∧
    iov_inv b0 b2 true (D ++ take (Z.to_nat n) (iov_rest iov i off)) (iov_rest iov i' off') ∧
    (nx = None ∧ iov_rest iov i' off' = [] ∨
     nx = Some (i', off', zlen v' - off', i') ∧ iov !! i' = Some v' ∧ 0 <= off' ∧ (off' = 0 ∨ off' < zlen v')).
Proof.
  intros Hlim Hv Hoff Hcs Htot Hq Hcat Hco Hfull Hok Hrem. unfold iov_copy.
  set (n := Z.min _ _). assert (0 < n ∧ n <= zlen v - off ∧ n <= csize c - clength c) as (Hn&Hnv&Hnc) by lia.
  rewrite Hv. cbn [mbind option_bind]. rewrite load_Some by lia. cbn [mbind option_bind].
  set (data := take (Z.to_nat n) (drop (Z.to_nat off) v)).
  assert (zlen data = n) as Hzd by (unfold data, zlen in *; rewrite length_take, length_drop; lia).
  pose proof (iov_rest_take iov i v off n Hv ltac:(lia) ltac:(lia) ltac:(lia)) as Hsplit. fold data in Hsplit.
  assert (take (Z.to_nat n) (iov_rest iov i off) = data) as Htk.
  { rewrite Hsplit. apply take_app_length'. unfold zlen in *. lia. }
  destruct (iov_fill b0 b cs' c D (iov_rest iov i (off + n)) data) as (b1&Hf&Hinv); try done; [|lia|].
  { rewrite <- Hsplit. lia. }
  rewrite Hf. cbn [mbind option_bind]. rewrite Hzd in Hinv.
  destruct (Z.eqb_spec (zlen v - off - n) 0) as [E|E].
  - assert (off + n = zlen v) as Eo by lia. rewrite Eo, (iov_rest_next iov i v Hv) in *.
    destruct (iov !! S i) as [w|] eqn:Hw.
    + eexists _, _, _, (S i), w, 0. split; [done|]. rewrite Htk, Hsplit, zlen_app, Hzd.
      split_and!; try done; try lia. right. rewrite Z.sub_0_r. split_and!; try done; try lia; by left.
    + eexists _, _, _, (S i), [], 0. split; [done|]. rewrite Htk, Hsplit, zlen_app, Hzd.
      split_and!; try done; try lia. left. split; [done|]. unfold iov_rest.
      rewrite (drop_ge iov); [done|]. by apply lookup_ge_None.
  - replace (zlen v - off - n) with (zlen v - (off + n)) by lia.
    eexists _, _, _, i, v, (off + n). split; [done|]. rewrite Htk, Hsplit, zlen_app, Hzd.
    split_and!; try done; try lia. right. split_and!; try done; try lia.
Qed.

Lemma iov_loop_spec iov b0 fuel b i v off cur D :
  1 <= chunk_size b0 < 2 ^ 31 → Forall (λ v, 0 < zlen v) iov →
  zlen (concat iov) < 2 ^ 63 → zlen (iov_rest iov i off) <= zlen (concat iov) →
  iov !! i = Some v → 0 <= off < zlen v →
  iov_inv b0 b cur D (iov_rest iov i off) →
  2 * zlen (iov_rest iov i off) + (if cur then 1 else 0) <= Z.of_nat fuel →
  ∃ b', iov_loop fresh fuel iov b i off (zlen v - off) cur i (zlen (iov_rest iov i off)) 0 = Some b' ∧
    iov_inv b0 b' true (D ++ iov_rest iov i off) [].
Proof.
  revert b i v off cur D. induction fuel as [|fuel IH];
    intros b i v off cur D Hlim Hpos Hbig Hle Hv Hoff Hinv Hfuel.
  { pose proof (iov_rest_pos iov i v off Hv Hoff). destruct cur; lia. }
  assert (2 * zlen (iov_rest iov i off) <= Z.of_nat (S fuel)) as Hf2 by (destruct cur; lia).
  (* a copy into the current chunk, then the rest of the loop *)
  assert (∀ b cs' c, chunk_size b = chunk_size b0 → total_length b = u32 (total_length b0 + zlen D) →
    queue b = queue b0 ++ cs' ++ [c] → concat (stored <$> (cs' ++ [c])) = D →
    Forall (λ c, coffset c = 0) (cs' ++ [c]) → Forall (full (chunk_size b0)) cs' →
    chunk_ok (chunk_size b0) c → 0 < csize c - clength c <= zlen (iov_rest iov i off) →
    ∃ b', ('(b2, _n, next) ← iov_copy iov b i off (zlen v - off) i (csize c - clength c);
      match next with
      | None => Some b2
      | Some (k0, off0, rem0, i0) =>
        iov_loop fresh fuel iov b2 k0 off0 rem0 true i0 (u64 (zlen (iov_rest iov i off) - _n)) 0
      end) = Some b' ∧ iov_inv b0 b' true (D ++ iov_rest iov i off) []) as Hcopy.
  { intros b1 cs' c Hcs Htot Hq Hcat Hco Hfull Hok Hrem.
    destruct (iov_copy_spec iov b0 b1 cs' c D i v off) as (b2&n&nx&i'&v'&off'&Hc&Hn&Hz&Hs&Hi&Hnx);
      try done.
    rewrite Hc. cbn [mbind option_bind].
    destruct Hnx as [[-> E]|(->&Hv'&Ho'&Hlt)].
    - exists b2. split; [done|]. rewrite E in *. by rewrite Hs, app_nil_r at 1.
    - assert (0 < zlen v') by (rewrite Forall_forall in Hpos; by eapply Hpos, list_elem_of_lookup_2).
      pose proof (zlen_nonneg (iov_rest iov i' off')).
      replace (zlen (iov_rest iov i off) - n) with (zlen (iov_rest iov i' off')) by lia.
      rewrite u64_small by lia.
      destruct (IH b2 i' v' off' true _ Hlim Hpos Hbig ltac:(lia) Hv' ltac:(lia) Hi) as (b'&Hl&Hf); [lia|].
      exists b'. split; [exact Hl|]. by rewrite <- (assoc_L (++)), <- Hs in Hf. }
  destruct Hinv as (Hcs&Htot&cs&Hq&Hcat&Hco&Hcur). cbn [iov_loop]. destruct cur.
  - destruct Hcur as (cs'&c&->&Hfull&Hok&Hrem).
    rewrite Hq, (assoc_L (++)), last_snoc. cbn [mbind option_bind].
    destruct (Z.eqb_spec (csize c) (clength c)) as [E|E].
    + apply IH; try done; [|lia]. split_and!; try done. exists (cs' ++ [c]). split_and!; try done.
      apply Forall_app. split; [done|]. by repeat constructor; try apply Hok.
    + destruct Hok as (?&?&?&?&?). apply (Hcopy b cs' c); try done. lia.
  - change (0 <? 0) with false. cbv iota. rewrite (Z.geb_leb _ (chunk_size b)). set (n := if chunk_size b <=? _ then _ else _).
    assert (0 < zlen (iov_rest iov i off)) as Hrp.
    { by apply (iov_rest_pos iov i v). }
    assert (0 < n <= chunk_size b ∧ n <= zlen (iov_rest iov i off)) as [Hn Hn'] by (unfold n; case_Z; lia).
    destruct (buf_alloc_spec b n Hn) as (c&Ha&Hok&Hsz&Hcl&Hof&Hst). rewrite Ha.
    replace n with (csize c - clength c) by lia.
    apply (Hcopy _ cs c); simpl; try done; try lia.
    + by rewrite Hq, <- (assoc_L (++)).
    + rewrite fmap_app, concat_app, Hcat. cbn. by rewrite Hst, !app_nil_r.
    + apply Forall_app. split; [done|]. by repeat constructor.
    + by rewrite <- Hcs.
Qed.

(** The vectored append stores the concatenation of the vectors behind what is
    already pending, in full chunks, for any sizes of vectors and chunks; an [offset]
    inside the first vector (bytes that were already sent) is ignored, since the code
    sets it to zero before it advances [pos] by it. *)
Theorem append_iov_ignores_offset b iov v offset :
  buffer_inv b → iov !! 0%nat = Some v → Forall (λ v, v ≠ []) iov →
  zlen (concat iov) < 2 ^ 63 → 0 <= offset < zlen v →
  ∃ b', append_iov fresh b iov offset = Some b' ∧ buffer_inv b' ∧
    pending b' = pending b ++ concat iov ∧ chunk_size b' = chunk_size b.
Proof.
  intros [Hc Hf Ht] Hv Hne Hbig Hoff. unfold append_iov.
  assert (Forall (λ v, 0 < zlen v) iov) as Hpos by (eapply Forall_impl; [done|]; apply zlen_pos).
  replace (forallb (λ v, 0 <? zlen v) iov) with true.
  2: { symmetry. apply Is_true_true, forallb_True. eapply Forall_impl; [exact Hpos|]. intros w ?.
       by apply Is_true_true, Z.ltb_lt. }
  rewrite Hv. cbn [mbind option_bind].
  set (fuel := (2 * length (concat iov) + length iov + 2)%nat).
  assert (iov_loop fresh fuel iov b 0 0 (zlen v) false 0 (zlen (concat iov)) offset =
          iov_loop fresh fuel iov b 0 0 (zlen v) false 0 (zlen (concat iov)) 0) as ->.
  { assert (fuel = S (pred fuel)) as -> by (unfold fuel; lia). cbn [iov_loop].
    change (0 <? 0) with false. cbv iota. destruct (Z.ltb_spec 0 offset).
    - rewrite Hv. cbn [mbind option_bind].
      by rewrite (Z.geb_leb offset), (proj2 (Z.leb_gt _ _)) by lia.
    - by replace offset with 0 by lia. }
  assert (iov_rest iov 0 0 = concat iov) as Hr by done.
  destruct (iov_loop_spec iov b fuel b 0 v 0 false [] Hc Hpos Hbig) as (b'&Hl&Hinv); rewrite ?Hr; try done.
  - lia.
  - split_and!; [done|by rewrite zlen_nil, Ht, u32_add_l, Z.add_0_r|]. exists []. by rewrite app_nil_r.
  - unfold fuel, zlen. lia.
  - rewrite Z.sub_0_r, Hr in Hl. rewrite Hr in Hinv. simpl in Hinv.
    destruct Hinv as (Hcs&Htot&cs&Hq&Hcat&Hco&cs'&c&->&Hfull&Hok&Hlast).
    assert (Forall (full (chunk_size b)) (cs' ++ [c])) as Hall.
    { apply Forall_app. split; [done|]. constructor; [|done]. split; [done|].
      destruct Hok as (?&?&?&?&?). rewrite zlen_nil in Hlast. lia. }
    exists b'. split_and!; try done.
    + split; rewrite ?Hcs; try done; [rewrite Hq; by apply Forall_app|].
      rewrite Htot, Ht, u32_add_l, Hq, total_app. f_equal. f_equal.
      rewrite <- Hcat. by apply (total_full (chunk_size b)).
    + unfold pending. by rewrite Hq, pending_unsent, Hcat.
Qed.
End BufferProofs.

Lemma make_buffer_inv n : 0 <= n < 2 ^ 31 → buffer_inv (make_buffer n).
Proof. intros Hn. split; simpl; [case_Z; lia|constructor|done]. Qed.

Lemma append_iov_ignores_offset_witness :
  let fresh n := replicate n 0 in
  ∃ b', append_iov fresh (make_buffer 4) [[1; 2; 3]; [4; 5; 6; 7; 8]] 2 = Some b' ∧ buffer_inv b' ∧
    pending b' = [] ++ [1; 2; 3; 4; 5; 6; 7; 8] ∧ chunk_size b' = 4.
Proof.
  intros fresh. apply (append_iov_ignores_offset fresh (λ n, length_replicate n 0) (make_buffer 4)
    [[1; 2; 3]; [4; 5; 6; 7; 8]] [1; 2; 3] 2).
  - apply make_buffer_inv. lia.
  - reflexivity.
  - repeat constructor; discriminate.
  - vm_compute. reflexivity.
  - vm_compute. split; [discriminate|reflexivity].
Defined.

(** [pop] of a chunk that was sent completely. *)
Lemma buf_pop_spec b c q :
  buffer_inv b → queue b = c :: q →
  ∃ b', pop b = Some b' ∧ buffer_inv b' ∧ queue b' = q ∧ chunk_size b' = chunk_size b.
Proof.
  intros [Hc Hf Ht] Hq. unfold pop. rewrite Hq in *. eexists. split; [done|].
  inversion_clear Hf as [|? ? Hfc Hfq]. split_and!; try done. split; simpl; try done.
  rewrite Ht. simpl. unfold u32, wrap. rewrite Zminus_mod_idemp_l. f_equal. lia.
Qed.
