(* ===== verification/AsyncWrite.v ===== *)
(** * The buffered write path: [write_func], [Reactor::_write], [Reactor::_writev],
      [Reactor::_writable_callback] of src/reactor/base.cc and [Socket::handle_send]
      of src/network/socket.cc

    A socket sends what the kernel takes at once and keeps the rest in its output
    buffer until the reactor reports that it is writable.  The kernel is the list of
    its answers to the coming [send] calls; [wire] is what it accepted so far.
    Chunks that stand for a file are sent by [handle_sendfile], a parameter.  The
    build without TLS is modelled. *)

From S2P Require Import Prelude Buffer.

(** The answer to one [send] or [writev] of at least one byte: some bytes were taken,
    or an error of the classes of [Socket::catch_error] ([EINTR] is retried by
    [Socket::send]). *)
Inductive answer := Sent (k : positive) | Again | Closed | Errored.

Record Socket := MkSocket {
  out_buffer : option Buffer; buffer_size : Z; sock_chunk_size : Z; dontwait : bool;
  write_event : bool; close_wait : bool; send_wait : bool; closed : bool;
  kernel : list answer; wire : bytes }.

Definition set_buffer (s : Socket) (b : option Buffer) : Socket :=
  MkSocket b (buffer_size s) (sock_chunk_size s) (dontwait s) (write_event s) (close_wait s)
           (send_wait s) (closed s) (kernel s) (wire s).
Definition set_buffer_size (s : Socket) (n : Z) : Socket :=
  MkSocket (out_buffer s) n (sock_chunk_size s) (dontwait s) (write_event s) (close_wait s)
           (send_wait s) (closed s) (kernel s) (wire s).
Definition set_kernel (s : Socket) (k : list answer) (w : bytes) : Socket :=
  MkSocket (out_buffer s) (buffer_size s) (sock_chunk_size s) (dontwait s) (write_event s)
           (close_wait s) (send_wait s) (closed s) k w.
Definition set_flags (s : Socket) (ev cw sw cl : bool) : Socket :=
  MkSocket (out_buffer s) (buffer_size s) (sock_chunk_size s) (dontwait s) ev cw sw cl
           (kernel s) (wire s).

(** [Socket::send]: the number of bytes taken, or the class of the error. *)
Definition send (s : Socket) (data : bytes) : (Z + Z) * Socket :=
  match kernel s with
  | [] => (inr OSW_WAIT, s)
  | Sent k :: ks => let n := Z.min (Z.pos k) (zlen data) in
                    (inl n, set_kernel s ks (wire s ++ take (Z.to_nat n) data))
  | Again :: ks => (inr OSW_WAIT, set_kernel s ks (wire s))
  | Closed :: ks => (inr OSW_CLOSE, set_kernel s ks (wire s))
  | Errored :: ks => (inr OSW_ERROR, set_kernel s ks (wire s))
  end.

Section Write.
Variable fresh : nat → bytes.
Variable default_buffer_size : Z.
Variable handle_sendfile : Socket → option (Z * Socket).

(** [Buffer::empty(buffer)] of a possibly null buffer. *)
Definition no_output (s : Socket) : bool :=
  match out_buffer s with None => true | Some b => empty b end.

(** The part behind [_append_buffer]. *)
Definition append_buffer (s : Socket) (append_fn : Buffer → option Buffer) : option (Z * Socket) :=
  b ← out_buffer s;
  if (length_ b >? buffer_size s) && dontwait s then Some (OSW_ERR, s) else
  b' ← append_fn b; Some (OSW_OK, set_buffer s (Some b')).

(** The part behind [_alloc_buffer]. *)
Definition alloc_buffer (s : Socket) : Socket :=
  let s := match out_buffer s with
           | Some _ => s
           | None => set_buffer s (Some (make_buffer (sock_chunk_size s)))
           end in
  if write_event s then s else set_flags s true (close_wait s) (send_wait s) (closed s).

(** [write_func]; [append_fn] receives [send_bytes] (0 unless bytes were sent). *)
Definition write_func (s : Socket) (len : Z) (data : bytes)
    (append_fn : Z → Buffer → option Buffer) : option (Z * Socket) :=
  let s := if buffer_size s =? 0 then set_buffer_size s default_buffer_size else s in
  if u32 len >? buffer_size s then Some (OSW_ERR, s) else
  if no_output s then
    let '(r, s1) := send s data in
    match r with
    | inl n => if len =? n then Some (n, s1) else append_buffer (alloc_buffer s1) (append_fn n)
    | inr e => if e =? OSW_WAIT then append_buffer (alloc_buffer s1) (append_fn 0)
               else Some (OSW_ERR, s1)
    end
  else append_buffer s (append_fn 0).

Definition _write (s : Socket) (buf : bytes) : option (Z * Socket) :=
  write_func s (zlen buf) buf (λ offset b, append fresh b (drop (Z.to_nat offset) buf)).

Definition _writev (s : Socket) (iov : list bytes) : option (Z * Socket) :=
  write_func s (zlen (concat iov)) (concat iov) (λ offset b, append_iov fresh b iov offset).

(** [Socket::handle_send]. *)
Definition handle_send (s : Socket) : option (Z * Socket) :=
  b ← out_buffer s;
  c ← front b;
  let sendn := u32 (clength c - coffset c) in
  if sendn =? 0 then b' ← pop b; Some (OSW_OK, set_buffer s (Some b')) else
  data ← load (ptr c) (coffset c) sendn;
  let '(r, s1) := send s data in
  match r with
  | inr e =>
    if e =? OSW_CLOSE then Some (OSW_ERR, set_flags s1 (write_event s1) true (send_wait s1) (closed s1))
    else if e =? OSW_WAIT then
      Some (OSW_ERR, set_flags s1 (write_event s1) (close_wait s1) true (closed s1))
    else Some (OSW_OK, s1)
  | inl ret =>
    if ret =? sendn then b' ← pop b; Some (OSW_OK, set_buffer s1 (Some b'))
    else
      let c' := MkChunk (ctype c) (clength c) (u32 (coffset c + ret)) (csize c) (ptr c) in
      let s2 := set_buffer s1 (Some (set_queue b (c' :: tail (queue b)))) in
      if ret <? sendn
      then Some (OSW_ERR, set_flags s2 (write_event s2) (close_wait s2) true (closed s2))
      else Some (OSW_OK, s2)
  end.

(** The loop of [_writable_callback]; [true] when the loop ends because the buffer is
    empty. *)
Fixpoint writable_loop (fuel : nat) (s : Socket) : option (bool * Socket) :=
  if no_output s then Some (true, s) else
  match fuel with
  | O => None
  | S fuel =>
    b ← out_buffer s;
    c ← front b;
    match ctype c with
    | TYPE_CLOSE => Some (false, set_flags s (write_event s) (close_wait s) (send_wait s) true)
    | t =>
      '(ret, s1) ← match t with TYPE_SENDFILE => handle_sendfile s | _ => handle_send s end;
      if ret <? 0 then
        if close_wait s1 then
          Some (false, set_flags s1 (write_event s1) (close_wait s1) (send_wait s1) true)
        else if send_wait s1 then Some (false, s1) else writable_loop fuel s1
      else writable_loop fuel s1
    end
  end.

(** [_writable_callback]; the write event is removed when nothing is left. *)
Definition _writable_callback (s : Socket) : option (Z * Socket) :=
  let chunks := match out_buffer s with None => O | Some b => length (queue b) end in
  '(drained, s1) ← writable_loop (chunks + length (kernel s)) s;
  Some (OSW_OK, if drained : bool then set_flags s1 false (close_wait s1) (send_wait s1) (closed s1)
                else s1).
End Write.

(** ** Stream integrity *)

(** What is still to be sent. *)
Definition pend (s : Socket) : bytes :=
  match out_buffer s with None => [] | Some b => pending b end.

(** [W] is everything accepted from the client so far. *)
Record sinv (s : Socket) (W : bytes) : Prop := {
  si_buffer : match out_buffer s with None => True | Some b => buffer_inv b end;
  si_sizes : 0 <= buffer_size s < 2 ^ 32 ∧ 0 <= sock_chunk_size s < 2 ^ 31;
  si_stream : W = wire s ++ pend s;
  si_event : no_output s = false → write_event s = true }.

(** The number of chunks and kernel answers bounds the work of one callback. *)
Definition work (s : Socket) : nat :=
  (match out_buffer s with None => 0 | Some b => length (queue b) end + length (kernel s))%nat.

Lemma send_cases s data :
  data ≠ [] →
  (∃ e k, send s data = (inr e, set_kernel s k (wire s)) ∧ (length k <= length (kernel s))%nat ∧
     (e = OSW_WAIT ∨ (e = OSW_CLOSE ∨ e = OSW_ERROR) ∧ (length k < length (kernel s))%nat)) ∨
  (∃ n k, send s data = (inl n, set_kernel s k (wire s ++ take (Z.to_nat n) data)) ∧
     0 < n <= zlen data ∧ (length k < length (kernel s))%nat).
Proof.
  intros Hd. pose proof (zlen_pos data Hd). unfold send.
  destruct (kernel s) as [|[k| | |] ks] eqn:E.
  - left. exists OSW_WAIT, []. destruct s. simpl in *. subst. split_and!; [done|done|by left].
  - right. eexists _, ks. split; [done|]. simpl. lia.
  - left. eexists _, ks. split; [done|]. simpl. split; [lia|]. by left.
  - left. eexists _, ks. split; [done|]. simpl. split; [lia|]. right. split; [by left|lia].
  - left. eexists _, ks. split; [done|]. simpl. split; [lia|]. right. split; [by right|lia].
Qed.

Lemma no_output_pend s : no_output s = true → pend s = [].
Proof.
  unfold no_output, pend. destruct (out_buffer s) as [b|]; [|done].
  unfold empty. intros E%bool_decide_eq_true. unfold pending. by rewrite E.
Qed.

Section WriteProofs.
Variable fresh : nat → bytes.
Hypothesis fresh_length : ∀ n, length (fresh n) = n.
Variable default_buffer_size : Z.
Hypothesis default_range : 0 <= default_buffer_size < 2 ^ 32.
Variable handle_sendfile : Socket → option (Z * Socket).

(** Appending the data that was not sent. *)
Lemma append_buffer_spec s W data :
  sinv s W → write_event s = true → is_Some (out_buffer s) → data ≠ [] → zlen data < 2 ^ 32 →
  ∃ r s', append_buffer s (λ b, append fresh b data) = Some (r, s') ∧
    ((r = OSW_ERR ∧ sinv s' W ∧ no_output s = false) ∨ (r = OSW_OK ∧ sinv s' (W ++ data))).
Proof.
  intros [Hb Hs Hw He] Hev [b Eb] Hd Hl. unfold append_buffer. rewrite Eb in *. cbn [mbind option_bind].
  destruct (_ && _) eqn:Hfull.
  { eexists _, s. split; [done|]. left. split_and!; [done|split; by rewrite ?Eb|].
    unfold no_output. rewrite Eb. apply bool_decide_eq_false. intros E.
    destruct Hb as [_ _ Ht]. rewrite E in Ht. unfold length_ in Hfull. rewrite Ht in Hfull.
    change (u32 (total [])) with 0 in Hfull. rewrite Z.gtb_ltb in Hfull.
    apply andb_true_iff in Hfull as [Hlt%Z.ltb_lt _]. lia. }
  destruct (buf_append_spec fresh fresh_length b data Hb Hd Hl) as (b'&->&Hb'&Hp&_&_).
  cbn [mbind option_bind]. eexists _, _. split; [done|]. right. split; [done|].
  split; try done. unfold pend in *. simpl. rewrite Eb in Hw. rewrite Hp, Hw. by rewrite (assoc_L (++)).
Qed.

(** [_alloc_buffer] on a socket that kept back data. *)
Lemma alloc_buffer_spec s W :
  sinv s W → sinv (alloc_buffer s) W ∧ write_event (alloc_buffer s) = true ∧
    is_Some (out_buffer (alloc_buffer s)) ∧ no_output (alloc_buffer s) = no_output s.
Proof.
  intros [Hb [Hs1 Hs2] Hw He]. unfold alloc_buffer.
  destruct (out_buffer s) as [b|] eqn:Eb; simpl.
  - destruct (write_event s) eqn:Hev; (split; [split|]); simpl; rewrite ?Eb; try done;
      unfold no_output; simpl; by rewrite Eb.
  - assert (buffer_inv (make_buffer (sock_chunk_size s))) as Hm by (by apply make_buffer_inv).
    unfold no_output, pend in *. rewrite Eb in *.
    destruct (write_event s) eqn:Hev; (split; [by split|]); simpl; by rewrite ?Hev.
Qed.

Lemma send_sinv s W k n data :
  sinv s W → no_output s = true →
  sinv (set_kernel s k (wire s ++ take n data)) (W ++ take n data).
Proof.
  intros [Hb Hs Hw He] Hno. split; simpl; try done.
  unfold pend. simpl. fold (pend s). rewrite (no_output_pend s Hno) in *. rewrite app_nil_r in *. by subst W.
Qed.

Lemma out_write_spec s W buf :
  sinv s W → buf ≠ [] → zlen buf < 2 ^ 32 →
  ∃ r s', _write fresh default_buffer_size s buf = Some (r, s') ∧
    sinv s' (if r =? OSW_ERR then W else W ++ buf) ∧
    (r = OSW_ERR ∨ r = OSW_OK ∨ r = zlen buf).
Proof.
  intros Hinv Hd Hl. pose proof (zlen_pos buf Hd) as Hz. unfold _write, write_func.
  set (s0 := if buffer_size s =? 0 then _ else s).
  assert (sinv s0 W) as H0.
  { unfold s0. destruct (buffer_size s =? 0); [|done]. destruct Hinv as [? [] ? ?]. by split. }
  clearbody s0. destruct (u32 (zlen buf) >? buffer_size s0).
  { eexists _, _. split; [done|]. split; [done|by left]. }
  destruct (no_output s0) eqn:Hno.
  - destruct (send_cases s0 buf Hd) as [(e&k&->&_&He)|(n&k&->&Hn&_)].
    + assert (sinv (set_kernel s0 k (wire s0)) W) as H1 by (destruct H0; by split).
      destruct (Z.eqb_spec e OSW_WAIT) as [|Hne].
      * destruct (alloc_buffer_spec _ W H1) as (H2&Hev&Hsome&Hno2).
        destruct (append_buffer_spec _ W buf H2 Hev Hsome Hd Hl) as (r&s'&Ha&Hr).
        change (drop (Z.to_nat 0) buf) with buf. rewrite Ha. exists r, s'. split; [done|].
        destruct Hr as [(->&?&_)|[-> ?]]; split; try done; [by left|by right; left].
      * eexists _, _. split; [done|]. split; [done|by left].
    + pose proof (send_sinv s0 W k (Z.to_nat n) buf H0 Hno) as H1.
      destruct (Z.eqb_spec (zlen buf) n) as [En|En].
      * eexists _, _. split; [done|]. rewrite take_ge in * by (unfold zlen in *; lia).
        split; [|right; by right]. assert ((n =? OSW_ERR) = false) as -> by (apply Z.eqb_neq; unfold OSW_ERR; lia).
        done.
      * destruct (alloc_buffer_spec _ _ H1) as (H2&Hev&Hsome&Hno2).
        assert (drop (Z.to_nat n) buf ≠ []) as Hrest.
        { intros E. apply (f_equal length) in E. rewrite length_drop in E. unfold zlen in *. simpl in E. lia. }
        assert (zlen (drop (Z.to_nat n) buf) < 2 ^ 32) as Hl' by (unfold zlen in *; rewrite length_drop; lia).
        destruct (append_buffer_spec _ _ (drop (Z.to_nat n) buf) H2 Hev Hsome Hrest Hl') as (r&s'&Ha&Hr).
        rewrite Ha. exists r, s'. split; [done|].
        destruct Hr as [(->&_&Hbad)|[-> Hok]].
        -- rewrite Hno2 in Hbad. unfold no_output in Hbad, Hno. simpl in Hbad. congruence.
        -- rewrite <- (assoc_L (++)), take_drop in Hok. split; [done|right; by left].
  - assert (write_event s0 = true) as Hev by (by apply (si_event _ _ H0)).
    assert (is_Some (out_buffer s0)) as Hsome.
    { unfold no_output in Hno. destruct (out_buffer s0); [eauto|done]. }
    destruct (append_buffer_spec _ W buf H0 Hev Hsome Hd Hl) as (r&s'&Ha&Hr).
    change (drop (Z.to_nat 0) buf) with buf. rewrite Ha. exists r, s'. split; [done|].
    destruct Hr as [(->&?&_)|[-> ?]]; split; try done; [by left|by right; left].
Qed.

Lemma unsent_zlen lim c : chunk_ok lim c → zlen (unsent c) = clength c - coffset c.
Proof.
  intros Hok. pose proof (zlen_stored _ _ Hok). destruct Hok as (_&_&_&?&?).
  unfold unsent, zlen in *. rewrite length_drop. lia.
Qed.

Lemma load_unsent lim c : chunk_ok lim c → load (ptr c) (coffset c) (clength c - coffset c) = Some (unsent c).
Proof.
  intros (_&Hs&_&Ho&Hl). rewrite load_Some by lia. f_equal. unfold unsent, stored.
  rewrite take_drop_commute. f_equal. f_equal. lia.
Qed.

(** One [handle_send] moves a prefix of the pending bytes to the wire.  It makes
    progress, or it says why not. *)
Lemma handle_send_spec s W b :
  sinv s W → out_buffer s = Some b → queue b ≠ [] →
  ∃ r s', handle_send s = Some (r, s') ∧ sinv s' W ∧ write_event s' = write_event s ∧
    (r = OSW_OK ∧ (work s' < work s)%nat ∨ r = OSW_ERR ∧ (close_wait s' || send_wait s' = true)).
Proof.
  intros Hinv Eb Hq. pose proof Hinv as [Hb Hs Hw He]. rewrite Eb in Hb. destruct (queue b) as [|c q] eqn:Q; [done|].
  assert (write_event s = true) as Hev.
  { apply He. unfold no_output. rewrite Eb. apply bool_decide_eq_false. by rewrite Q. }
  destruct (buf_pop_spec b c q Hb Q) as (b'&Hpop&Hb'&Hq'&Hc').
  pose proof (bi_full _ Hb) as Hfull. rewrite Q in Hfull. apply Forall_cons in Hfull as [[Hok Hlen] Hfq].
  pose proof Hok as (Hty&Hsz&Hlim&Hof&Hle). pose proof (bi_chunk _ Hb).
  unfold handle_send, front. rewrite Eb. cbn [mbind option_bind]. rewrite Q. cbn [head mbind option_bind].
  rewrite u32_small by lia. unfold pend in Hw. rewrite Eb in Hw. unfold pending in Hw. rewrite Q in Hw.
  cbn [fmap list_fmap concat] in Hw.
  assert (∀ s1 w, wire s1 = w → wire s ++ unsent c = w → buffer_size s1 = buffer_size s →
    sock_chunk_size s1 = sock_chunk_size s → write_event s1 = write_event s →
    sinv (set_buffer s1 (Some b')) W) as Hpopped.
  { intros s1 w <- Ew E1 E2 E3. split; simpl; rewrite ?E1, ?E2, ?E3; try done.
    unfold pend, pending. simpl. by rewrite Hq', Hw, <- Ew, <- (assoc_L (++)). }
  destruct (Z.eqb_spec (clength c - coffset c) 0) as [E|E].
  { rewrite Hpop. cbn [mbind option_bind]. eexists _, _. split; [done|].
    split_and!; [|done|left; split; [done|unfold work; simpl; rewrite Eb, Q, Hq'; simpl; lia]].
    apply (Hpopped s (wire s)); try done. pose proof (unsent_zlen _ _ Hok) as Hu. rewrite E in Hu.
    apply zlen_0 in Hu. by rewrite Hu, app_nil_r. }
  rewrite (load_unsent _ _ Hok). cbn [mbind option_bind].
  pose proof (unsent_zlen _ _ Hok) as Hu.
  assert (unsent c ≠ []) as Hne by (intros E0; rewrite E0, zlen_nil in Hu; lia).
  destruct (send_cases s (unsent c) Hne) as [(e&k&->&Hk&Herr)|(n&k&->&Hn&Hk)].
  - assert (∀ ev cw sw cl, ev = write_event s → sinv (set_flags (set_kernel s k (wire s)) ev cw sw cl) W) as Hsame.
    { intros ev cw sw cl ->. destruct Hinv as [? ? ? ?]. by split. }
    destruct (Z.eqb_spec e OSW_CLOSE); [|destruct (Z.eqb_spec e OSW_WAIT)].
    + eexists _, _. split; [done|]. split_and!; [by apply Hsame|done|by right].
    + eexists _, _. split; [done|]. split_and!; [by apply Hsame|done|right]. split; [done|]. simpl. apply orb_true_r.
    + eexists _, _. split; [done|]. split_and!; [by destruct Hinv; split|done|left].
      split; [done|]. unfold work. simpl. destruct Herr as [?|[_ ?]]; [done|lia].
  - destruct (Z.eqb_spec n (clength c - coffset c)) as [En|En].
    + rewrite Hpop. cbn [mbind option_bind]. eexists _, _. split; [done|].
      split_and!; [|done|left; split; [done|unfold work; simpl; rewrite Eb, Q, Hq'; simpl; lia]].
      eapply (Hpopped (set_kernel s k _)); try done. simpl. rewrite take_ge; [done|]. unfold zlen in *. lia.
    + rewrite (proj2 (Z.ltb_lt _ _)) by lia. eexists _, _. split; [done|].
      split_and!; [|done|right; split; [done|simpl; apply orb_true_r]].
      rewrite u32_small by lia. split; simpl; try done.
      * destruct Hb as [? Hfl Ht]. split; simpl; try done; [|by rewrite Ht, Q].
        constructor; [|done]. split; [|done]. split_and!; simpl; try done; lia.
      * rewrite Hw. unfold pend, pending. simpl. rewrite <- (assoc_L (++)). f_equal.
        rewrite (assoc_L (++)). f_equal. unfold unsent, stored. cbn [coffset clength ptr].
        replace (Z.to_nat (coffset c + n)) with (Z.to_nat (coffset c) + Z.to_nat n)%nat by lia.
        rewrite <- drop_drop. by rewrite take_drop.
Qed.

Lemma writable_loop_spec fuel s W :
  sinv s W → (work s <= fuel)%nat →
  ∃ d s', writable_loop handle_sendfile fuel s = Some (d, s') ∧ sinv s' W ∧
    write_event s' = write_event s ∧ (d = true → no_output s' = true).
Proof.
  revert s. induction fuel as [|fuel IH]; intros s Hinv Hf; simpl.
  - destruct (no_output s) eqn:Hno; [by exists true, s|]. exfalso. unfold work, no_output in *.
    destruct (out_buffer s) as [b|]; [|done]. apply bool_decide_eq_false in Hno.
    destruct (queue b); simpl in *; [done|lia].
  - destruct (no_output s) eqn:Hno; [by exists true, s|].
    pose proof Hno as Hno'. unfold no_output in Hno'. destruct (out_buffer s) as [b|] eqn:Eb; [|done].
    apply bool_decide_eq_false in Hno'. cbn [mbind option_bind].
    destruct (handle_send_spec s W b Hinv Eb Hno') as (r&s1&Hh&Hi1&Hev&Hr).
    unfold front. destruct (queue b) as [|c q] eqn:Q; [done|]. cbn [head mbind option_bind].
    assert (ctype c = TYPE_DATA) as ->.
    { destruct Hinv as [Hb _ _ _]. rewrite Eb in Hb. destruct Hb as [_ Hfull _]. rewrite Q in Hfull.
      by apply Forall_cons in Hfull as [[[? _] _] _]. }
    rewrite Hh. cbn [mbind option_bind].
    destruct Hr as [[-> Hlt]|[-> Hflags]]; cbn [Z.ltb OSW_OK OSW_ERR].
    + change (OSW_OK <? 0) with false. cbv iota.
      destruct (IH s1 Hi1 ltac:(lia)) as (d&s'&?&?&Hev'&?). exists d, s'. split_and!; try done. congruence.
    + change (OSW_ERR <? 0) with true. cbv iota.
      destruct (close_wait s1) eqn:Hcw.
      { eexists _, _. split; [done|]. split_and!; [destruct Hi1; by split|done|done]. }
      simpl in Hflags. rewrite Hflags. eexists _, _. split; [done|]. by split_and!.
Qed.

Lemma writable_spec s W :
  sinv s W → ∃ s', _writable_callback handle_sendfile s = Some (OSW_OK, s') ∧ sinv s' W.
Proof.
  intros Hinv. unfold _writable_callback. fold (work s).
  destruct (writable_loop_spec (work s) s W Hinv ltac:(lia)) as (d&s1&->&[? ? ? ?]&_&Hd).
  cbn [mbind option_bind]. eexists. split; [done|]. destruct d; [|by split].
  split; simpl; try done. unfold no_output in *. simpl. by rewrite Hd.
Qed.

(** ** Sequences of writes and writable events *)

Inductive op := OWrite (buf : bytes) | OWritable.

(** The data accepted (the call did not return [OSW_ERR]) and the final socket. *)
Fixpoint run (s : Socket) (ops : list op) : option (bytes * Socket) :=
  match ops with
  | [] => Some ([], s)
  | OWrite buf :: ops =>
    '(r, s1) ← _write fresh default_buffer_size s buf;
    '(w, s2) ← run s1 ops;
    Some ((if r =? OSW_ERR then [] else buf) ++ w, s2)
  | OWritable :: ops => '(_, s1) ← _writable_callback handle_sendfile s; run s1 ops
  end.

(** Data of a length that [Buffer::append] can take. *)
Definition sized (o : op) : Prop := match o with OWrite buf => 0 < zlen buf < 2 ^ 32 | OWritable => True end.

Lemma run_spec ops s W :
  sinv s W → Forall sized ops →
  ∃ w s', run s ops = Some (w, s') ∧ sinv s' (W ++ w).
Proof.
  revert s W. induction ops as [|[buf|] ops IH]; intros s W Hinv Hok; simpl.
  - exists [], s. by rewrite app_nil_r.
  - apply Forall_cons in Hok as [Hne Hok].
    destruct (out_write_spec s W buf Hinv) as (r&s1&->&H1&_); [intros ->; by destruct Hne|by destruct Hne|].
    cbn [mbind option_bind]. destruct (IH s1 _ H1 Hok) as (w&s2&->&H2). cbn [mbind option_bind].
    eexists _, _. split; [done|]. destruct (r =? OSW_ERR); [done|]. by rewrite (assoc_L (++)).
  - apply Forall_cons in Hok as [_ Hok].
    destruct (writable_spec s W Hinv) as (s1&->&H1). cbn [mbind option_bind]. by apply IH.
Qed.
End WriteProofs.

(** A fresh socket. *)
Definition make_socket (buffer_size chunk_size : Z) (dontwait : bool) (kernel : list answer) : Socket :=
  MkSocket None buffer_size chunk_size dontwait false false false false kernel [].

(** C32: the byte stream is exact.  Whatever the kernel answers (partial sends, full
    socket buffers, errors) and however writes of at least one byte and less than 4 GiB
    (see [huge_write_cut]) and writable events interleave, the
    bytes the kernel took followed by the bytes still buffered are exactly the data of
    the accepted writes, in order: nothing is lost, duplicated or reordered; and while
    data is buffered the socket waits for the next writable event. *)
Theorem output_stream_exact fresh default_size sendfile bsize csize dontwait kernel ops :
  (∀ n, length (fresh n) = n) → 0 <= default_size < 2 ^ 32 →
  0 <= bsize < 2 ^ 32 → 0 <= csize < 2 ^ 31 → Forall sized ops →
  ∃ w s', run fresh default_size sendfile (make_socket bsize csize dontwait kernel) ops = Some (w, s') ∧
    w = wire s' ++ pend s' ∧ (pend s' ≠ [] → write_event s' = true).
Proof.
  intros Hf Hd Hb Hc Hok.
  destruct (run_spec fresh Hf default_size Hd sendfile ops (make_socket bsize csize dontwait kernel) [])
    as (w&s'&Hr&[_ _ Hw He]); [by split|done|].
  exists w, s'. split_and!; try done. intros Hp. apply He. destruct (no_output s') eqn:E; [|done].
  by apply no_output_pend in E.
Qed.

Lemma output_stream_exact_witness :
  ∃ w s', run (λ n, replicate n 0) 8388608 (λ _, None)
      (make_socket 100 2 false [Sent 1; Again; Sent 2; Sent 1])
      [OWrite [1; 2; 3]; OWrite [4; 5]; OWritable; OWritable] = Some (w, s') ∧
    w = wire s' ++ pend s' ∧ (pend s' ≠ [] → write_event s' = true).
Proof.
  apply (output_stream_exact (λ n, replicate n 0) 8388608 (λ _, None) 100 2 false).
  - intros n. apply length_replicate.
  - lia.
  - lia.
  - lia.
  - repeat constructor.
Defined.

(** A write of 4 GiB and [k] bytes passes the check of its length, which is done in 32 bits, and
    is reported as accepted, but only its first [k] bytes go to the buffer. *)
Theorem huge_write_cut fresh default_size csize data k :
  (∀ n, length (fresh n) = n) → 0 <= csize < 2 ^ 31 → 1 <= k <= default_size → default_size < 2 ^ 32 →
  zlen data = 2 ^ 32 + k →
  ∃ s', _write fresh default_size (make_socket 0 csize false []) data = Some (OSW_OK, s') ∧
    wire s' = [] ∧ pend s' = take (Z.to_nat k) data.
Proof.
  intros Hf Hc Hk Hd Hz. unfold _write, write_func, make_socket. cbn [buffer_size Z.eqb set_buffer_size out_buffer sock_chunk_size dontwait write_event
    close_wait send_wait closed kernel wire].
  assert (u32 (zlen data) = k) as Eu by (rewrite Hz; unfold u32, wrap; rewrite Z.add_comm; rewrite <- (Z.mul_1_l (2 ^ 32)) at 1; rewrite Z.mod_add by done; apply Z.mod_small; lia).
  rewrite Eu, Z.gtb_ltb, (proj2 (Z.ltb_ge _ _)) by lia. cbn. unfold append_buffer. cbn.
  rewrite andb_false_r. change (drop (Z.to_nat 0) data) with data.
  assert (taken data = take (Z.to_nat k) data) as Et by (unfold taken; by rewrite Eu).
  destruct (buf_append_taken fresh Hf (make_buffer csize) data) as (b & -> & _ & Hp & _).
  { by apply make_buffer_inv. }
  { intros E. apply (f_equal zlen) in E. rewrite zlen_taken, Eu, zlen_nil in E. lia. }
  cbn. eexists. split; [done|]. cbn. by rewrite Hp, Et.
Qed.

(** A partial [writev] duplicates data.  The kernel takes two of four bytes, the
    rest goes to the buffer through the vectored append, which ignores how much was
    sent: the peer will receive the first two bytes twice. *)
Theorem writev_partial_duplicates :
  ∃ s', _writev (λ n, replicate n 0) 8388608 (make_socket 100 16 false [Sent 2]) [[1; 2; 3]; [4]]
      = Some (OSW_OK, s') ∧
    wire s' = [1; 2] ∧ pend s' = [1; 2; 3; 4].
Proof. eexists. split; [vm_compute; reflexivity|]. split; vm_compute; reflexivity. Qed.
