(* ===== verification/LruCache.v ===== *)
(** * The LRU cache: include/openswoole_lru_cache.h

    [cache_list] is a [std::list] whose nodes keep their identity when they are
    spliced; an iterator is the identity of a node, and [cache_map] maps a key to the
    iterator of its node.  [None] is the use of an iterator of an erased node.
    [now] is the answer of [time]. *)

From S2P Require Import Prelude.

Section Lru.
Context {V : Type}.

(** [cache_node_t] with its key, and the list node it lives in. *)
Record node := MkCNode { iter : positive; ckey : bytes; expire_time : Z; value : V }.

Record LRUCache := MkLRU {
  cache_map : gmap bytes positive; cache_list : list node; cache_capacity : Z; fresh_iter : positive }.

Definition make_cache (capacity : Z) : LRUCache := MkLRU ∅ [] capacity 1.

(** Following an iterator. *)
Fixpoint deref (l : list node) (i : positive) : option node :=
  match l with
  | [] => None
  | n :: l => if bool_decide (iter n = i) then Some n else deref l i
  end.

(** [cache_list.erase(i)]. *)
Fixpoint erase (l : list node) (i : positive) : list node :=
  match l with
  | [] => []
  | n :: l => if bool_decide (iter n = i) then l else n :: erase l i
  end.

(** [cache_list.splice(cache_list.begin(), cache_list, i)]. *)
Definition splice (l : list node) (i : positive) : option (list node) :=
  n ← deref l i; Some (n :: erase l i).

Definition with_list (c : LRUCache) (l : list node) : LRUCache :=
  MkLRU (cache_map c) l (cache_capacity c) (fresh_iter c).

Definition get (c : LRUCache) (now : Z) (k : bytes) : option (option V * LRUCache) :=
  match cache_map c !! k with
  | None => Some (None, c)
  | Some i =>
    n ← deref (cache_list c) i;
    if (expire_time n <? now) && (0 <? expire_time n) then Some (None, c) else
    l ← splice (cache_list c) i;
    n' ← deref l i;
    Some (Some (value n'), with_list c l)
  end.

(** Writing through an iterator. *)
Fixpoint assign (l : list node) (i : positive) (e : Z) (v : V) : list node :=
  match l with
  | [] => []
  | n :: l => if bool_decide (iter n = i) then MkCNode i (ckey n) e v :: l else n :: assign l i e v
  end.

Definition set (c : LRUCache) (now : Z) (k : bytes) (v : V) (expire : Z) : option LRUCache :=
  let e := if expire <=? 0 then 0 else now + expire in
  match cache_map c !! k with
  | Some i =>
    _ ← deref (cache_list c) i;
    l ← splice (assign (cache_list c) i e v) i;
    Some (with_list c l)
  | None =>
    let size := zlen (cache_list c) in
    '(m, l) ← (if (size =? cache_capacity c) && (0 <? size) then
                 d ← last (cache_list c); Some (delete (ckey d) (cache_map c), removelast (cache_list c))
               else Some (cache_map c, cache_list c));
    let i := fresh_iter c in
    Some (MkLRU (<[k := i]> m) (MkCNode i k e v :: l) (cache_capacity c) (Pos.succ i))
  end.

Definition del (c : LRUCache) (k : bytes) : option LRUCache :=
  match cache_map c !! k with
  | None => Some c
  | Some i =>
    _ ← deref (cache_list c) i;
    Some (MkLRU (delete k (cache_map c)) (erase (cache_list c) i) (cache_capacity c) (fresh_iter c))
  end.

Definition clear (c : LRUCache) : LRUCache := MkLRU ∅ [] (cache_capacity c) (fresh_iter c).

(** ** The abstract cache: entries in order of their last use *)

Definition entry : Type := bytes * Z * V.
Definition abs_node (n : node) : entry := (ckey n, expire_time n, value n).
Definition abs (c : LRUCache) : list entry := abs_node <$> cache_list c.

Definition others (k : bytes) (l : list entry) : list entry := filter (λ e, e.1.1 ≠ k) l.
Definition find (k : bytes) (l : list entry) : option entry := head (filter (λ e, e.1.1 = k) l).

Inductive op := Get (now : Z) (k : bytes) | Set_ (now : Z) (k : bytes) (v : V) (expire : Z)
  | Del (k : bytes) | Clear.

Definition expired (now : Z) (e : entry) : bool := (e.1.2 <? now) && (0 <? e.1.2).

(** A use moves an entry to the front; a new key at capacity drops the last entry. *)
Definition spec (cap : Z) (l : list entry) (o : op) : option V * list entry :=
  match o with
  | Get now k =>
    match find k l with
    | None => (None, l)
    | Some e => if expired now e then (None, l) else (Some e.2, e :: others k l)
    end
  | Set_ now k v expire =>
    let e := (k, if expire <=? 0 then 0 else now + expire, v) in
    match find k l with
    | Some _ => (None, e :: others k l)
    | None => (None, e :: if (zlen l =? cap) && (0 <? zlen l) then removelast l else l)
    end
  | Del k => (None, others k l)
  | Clear => (None, [])
  end.

Definition step (c : LRUCache) (o : op) : option (option V * LRUCache) :=
  match o with
  | Get now k => get c now k
  | Set_ now k v expire => c' ← set c now k v expire; Some (None, c')
  | Del k => c' ← del c k; Some (None, c')
  | Clear => Some (None, clear c)
  end.

(** Nodes and map entries correspond; keys and iterators are unique. *)
Record cinv (c : LRUCache) : Prop := {
  ci_keys : NoDup (ckey <$> cache_list c);
  ci_iters : NoDup (iter <$> cache_list c);
  ci_map : ∀ k i, cache_map c !! k = Some i ↔ ∃ n, n ∈ cache_list c ∧ ckey n = k ∧ iter n = i;
  ci_fresh : ∀ n, n ∈ cache_list c → (iter n < fresh_iter c)%positive }.

Lemma deref_elem l n : NoDup (iter <$> l) → n ∈ l → deref l (iter n) = Some n.
Proof.
  induction l as [|m l IH]; simpl; intros Hnd Hin; [by apply elem_of_nil in Hin|].
  apply NoDup_cons in Hnd as [Hm Hnd]. apply elem_of_cons in Hin as [->|Hin].
  - by rewrite bool_decide_eq_true_2.
  - rewrite bool_decide_eq_false_2; [auto|]. intros E. apply Hm. rewrite E. by apply list_elem_of_fmap_2.
Qed.

(** Erasing the node of a key removes the entries of that key. *)
Lemma erase_filter l n :
  NoDup (iter <$> l) → n ∈ l → erase l (iter n) = filter (λ m, iter m ≠ iter n) l.
Proof.
  induction l as [|m l IH]; simpl; intros Hnd Hin; [done|].
  apply NoDup_cons in Hnd as [Hm Hnd]. rewrite filter_cons. case_bool_decide as E.
  - rewrite decide_False by tauto. clear IH. symmetry. rewrite <- E in *.
    clear Hin E. induction l as [|a l IHl]; [done|]. rewrite filter_cons.
    apply NoDup_cons in Hnd as [_ Hnd]. simpl in Hm. apply not_elem_of_cons in Hm as [? ?].
    rewrite decide_True by congruence. f_equal. by apply IHl.
  - rewrite decide_True by done. f_equal. apply IH; [done|].
    apply elem_of_cons in Hin as [->|?]; [done|done].
Qed.

(** On nodes with unique keys and iterators the two filters agree. *)
Lemma filter_iter_key l n :
  NoDup (ckey <$> l) → NoDup (iter <$> l) → n ∈ l →
  abs_node <$> filter (λ m, iter m ≠ iter n) l = others (ckey n) (abs_node <$> l).
Proof.
  intros Hk Hi Hn. unfold others.
  assert (∀ m, m ∈ l → (iter m ≠ iter n ↔ ckey m ≠ ckey n)) as Hag.
  { intros m Hm. split; intros H E; apply H.
    - apply list_elem_of_lookup in Hm as [a Ha], Hn as [b Hb].
      assert (a = b) as ->; [|congruence]. eapply (NoDup_lookup (ckey <$> l));
        [done|by rewrite list_lookup_fmap, Ha|by rewrite list_lookup_fmap, Hb, E].
    - apply list_elem_of_lookup in Hm as [a Ha], Hn as [b Hb].
      assert (a = b) as ->; [|congruence]. eapply (NoDup_lookup (iter <$> l));
        [done|by rewrite list_lookup_fmap, Ha|by rewrite list_lookup_fmap, Hb, E]. }
  clear Hk Hi Hn. induction l as [|m l IH]; [done|]. rewrite fmap_cons, !filter_cons.
  assert (iter m ≠ iter n ↔ ckey m ≠ ckey n) as Hm by (apply Hag; by left).
  destruct (decide (ckey m ≠ ckey n)) as [d|d].
  - rewrite (decide_True (P := iter m ≠ iter n)) by tauto. rewrite (decide_True (P := (abs_node m).1.1 ≠ _)) by done.
    rewrite fmap_cons. f_equal. apply IH. intros a ?. apply Hag. by right.
  - rewrite (decide_False (P := iter m ≠ iter n)) by tauto. rewrite (decide_False (P := (abs_node m).1.1 ≠ _)) by done.
    apply IH. intros a ?. apply Hag. by right.
Qed.

Lemma erase_perm l n : NoDup (iter <$> l) → n ∈ l → l ≡ₚ n :: erase l (iter n).
Proof.
  induction l as [|m l IH]; simpl; intros Hnd Hin; [by apply elem_of_nil in Hin|].
  apply NoDup_cons in Hnd as [Hm Hnd]. case_bool_decide as E.
  - apply elem_of_cons in Hin as [->|Hin]; [done|]. destruct Hm. rewrite E. by apply list_elem_of_fmap_2.
  - apply elem_of_cons in Hin as [->|Hin]; [done|]. rewrite (IH Hnd Hin) at 1. constructor.
Qed.

Lemma erase_assign l i e v : erase (assign l i e v) i = erase l i.
Proof.
  induction l as [|m l IH]; simpl; [done|]. case_bool_decide as E; simpl.
  - by rewrite bool_decide_eq_true_2.
  - rewrite bool_decide_eq_false_2 by done. by rewrite IH.
Qed.

Lemma deref_assign l n e v :
  NoDup (iter <$> l) → n ∈ l → deref (assign l (iter n) e v) (iter n) = Some (MkCNode (iter n) (ckey n) e v).
Proof.
  induction l as [|m l IH]; simpl; intros Hnd Hin; [by apply elem_of_nil in Hin|].
  apply NoDup_cons in Hnd as [Hm Hnd]. case_bool_decide as E; simpl.
  - rewrite bool_decide_eq_true_2 by done. apply elem_of_cons in Hin as [->|Hin]; [done|].
    destruct Hm. rewrite E. by apply list_elem_of_fmap_2.
  - rewrite bool_decide_eq_false_2 by done. apply IH; [done|]. by apply elem_of_cons in Hin as [->|?].
Qed.

Lemma find_abs l n : NoDup (ckey <$> l) → n ∈ l → find (ckey n) (abs_node <$> l) = Some (abs_node n).
Proof.
  unfold find. induction l as [|m l IH]; simpl; intros Hnd Hin; [by apply elem_of_nil in Hin|].
  apply NoDup_cons in Hnd as [Hm Hnd]. rewrite filter_cons. simpl.
  apply elem_of_cons in Hin as [->|Hin]; [by rewrite decide_True|].
  rewrite decide_False; [auto|]. intros E. apply Hm. rewrite E. by apply list_elem_of_fmap_2.
Qed.

Lemma find_none l k : (∀ n, n ∈ l → ckey n ≠ k) → find k (abs_node <$> l) = None.
Proof.
  intros H. unfold find. induction l as [|m l IH]; [done|]. rewrite fmap_cons, filter_cons.
  rewrite decide_False; [|apply H; by left]. apply IH. intros n ?. apply H. by right.
Qed.

(** Moving the node [n] to the front, possibly with a new value. *)
Lemma front_inv (c : LRUCache) n n' :
  cinv c → n ∈ cache_list c → ckey n' = ckey n → iter n' = iter n →
  cinv (with_list c (n' :: erase (cache_list c) (iter n))) ∧
  abs (with_list c (n' :: erase (cache_list c) (iter n))) = abs_node n' :: others (ckey n) (abs c).
Proof.
  intros [Hk Hi Hm Hf] Hn Ek Ei. pose proof (erase_perm _ n Hi Hn) as Hp. split.
  - assert (ckey <$> cache_list c ≡ₚ ckey <$> (n' :: erase (cache_list c) (iter n))) as Hpk.
    { rewrite Hp at 1. rewrite !fmap_cons, Ek. done. }
    assert (iter <$> cache_list c ≡ₚ iter <$> (n' :: erase (cache_list c) (iter n))) as Hpi.
    { rewrite Hp at 1. rewrite !fmap_cons, Ei. done. }
    split; simpl.
    + by rewrite <- Hpk.
    + by rewrite <- Hpi.
    + intros k i. rewrite Hm. split; intros (a&Ha&Eak&Eai).
      * rewrite Hp in Ha. apply elem_of_cons in Ha as [->|Ha].
        -- exists n'. split_and!; [by left|congruence|congruence].
        -- exists a. split_and!; [by right|done|done].
      * apply elem_of_cons in Ha as [->|Ha].
        -- exists n. split_and!; [done|congruence|congruence].
        -- exists a. split_and!; [rewrite Hp; by right|done|done].
    + intros a Ha. apply elem_of_cons in Ha as [->|Ha]; [rewrite Ei; by apply Hf|].
      apply Hf. rewrite Hp. by right.
  - unfold abs. cbn [with_list cache_list]. rewrite fmap_cons, erase_filter by done. f_equal. by apply filter_iter_key.
Qed.

Lemma others_absent k l : (∀ n, n ∈ l → ckey n ≠ k) → others k (abs_node <$> l) = abs_node <$> l.
Proof.
  intros H. unfold others. induction l as [|m l IH]; [done|]. rewrite fmap_cons, filter_cons.
  rewrite decide_True by (apply H; by left). f_equal. apply IH. intros n ?. apply H. by right.
Qed.

Lemma cache_push_inv (c : LRUCache) m l n :
  cinv (MkLRU m l (cache_capacity c) (fresh_iter c)) → (∀ a, a ∈ l → ckey a ≠ ckey n) →
  iter n = fresh_iter c →
  cinv (MkLRU (<[ckey n := fresh_iter c]> m) (n :: l) (cache_capacity c) (Pos.succ (fresh_iter c))).
Proof.
  intros [Hk Hi Hm Hf] Hnew Ei. simpl in *. split; simpl.
  - constructor; [|done]. intros (a&E&Ha)%list_elem_of_fmap. by apply (Hnew a).
  - constructor; [|done]. intros (a&E&Ha)%list_elem_of_fmap. apply Hf in Ha. rewrite Ei in E. lia.
  - intros k i. rewrite lookup_insert. case_decide as E.
    + split; [intros [= <-]; exists n; split_and!; [by left|done|done]|].
      intros (a&[->|Ha]%elem_of_cons&Ea&<-); [by rewrite Ei|]. destruct (Hnew a Ha). congruence.
    + rewrite Hm. split; intros (a&Ha&Ea&Eb).
      * exists a. split_and!; [by right|done|done].
      * apply elem_of_cons in Ha as [->|Ha]; [congruence|]. by exists a.
  - intros a [->|Ha]%elem_of_cons; [lia|]. apply Hf in Ha. lia.
Qed.

Lemma erase_inv (c : LRUCache) n :
  cinv c → n ∈ cache_list c →
  cinv (MkLRU (delete (ckey n) (cache_map c)) (erase (cache_list c) (iter n)) (cache_capacity c)
              (fresh_iter c)).
Proof.
  intros [Hk Hi Hm Hf] Hn. pose proof (erase_perm _ n Hi Hn) as Hp.
  assert (NoDup (ckey <$> (n :: erase (cache_list c) (iter n)))) as Hk' by by rewrite <- Hp.
  assert (NoDup (iter <$> (n :: erase (cache_list c) (iter n)))) as Hi' by by rewrite <- Hp.
  rewrite fmap_cons in Hk'. rewrite fmap_cons in Hi'. apply NoDup_cons in Hk' as [Hnk Hk'], Hi' as [_ Hi'].
  split; simpl; try done.
  - intros k i. rewrite lookup_delete. case_decide as E.
    + split; [done|]. intros (a&Ha&Ea&_). destruct Hnk. rewrite E, <- Ea. by apply list_elem_of_fmap_2.
    + rewrite Hm. split; intros (a&Ha&Ea&Eb); exists a; split_and!; try done.
      * rewrite Hp in Ha. apply elem_of_cons in Ha as [->|?]; [congruence|done].
      * rewrite Hp. by right.
  - intros a Ha. apply Hf. rewrite Hp. by right.
Qed.

(** The most recently used entry is never the one that is dropped. *)
Lemma removelast_snoc {A} (l : list A) x : removelast (l ++ [x]) = l.
Proof. apply removelast_last. Qed.

Lemma evict_inv (c : LRUCache) d l :
  cinv c → cache_list c = l ++ [d] →
  cinv (MkLRU (delete (ckey d) (cache_map c)) l (cache_capacity c) (fresh_iter c)).
Proof.
  intros H E. assert (d ∈ cache_list c) as Hd by (rewrite E; apply elem_of_app; right; by left).
  pose proof (erase_inv c d H Hd) as He.
  replace l with (erase (cache_list c) (iter d)); [done|].
  pose proof (ci_iters _ H) as Hi. rewrite E in *. clear - Hi.
  induction l as [|m l IH]; simpl in *; [by rewrite bool_decide_eq_true_2|].
  apply NoDup_cons in Hi as [Hm Hi]. rewrite bool_decide_eq_false_2.
  - f_equal. by apply IH.
  - intros E. apply Hm. rewrite E, fmap_app. apply elem_of_app. right. by left.
Qed.

Lemma step_spec (c : LRUCache) o :
  cinv c → ∃ c', step c o = Some ((spec (cache_capacity c) (abs c) o).1, c') ∧ cinv c' ∧
    abs c' = (spec (cache_capacity c) (abs c) o).2 ∧ cache_capacity c' = cache_capacity c.
Proof.
  intros Hc. pose proof Hc as [Hk Hi Hm Hf].
  assert (∀ k, (∃ n, n ∈ cache_list c ∧ ckey n = k ∧ cache_map c !! k = Some (iter n)) ∨
    (cache_map c !! k = None ∧ ∀ n, n ∈ cache_list c → ckey n ≠ k)) as Hcase.
  { intros k. destruct (cache_map c !! k) as [i|] eqn:E.
    - left. apply Hm in E as (n&?&?&<-). eauto.
    - right. split; [done|]. intros n Hn <-. assert (cache_map c !! ckey n = Some (iter n)) by (apply Hm; eauto).
      congruence. }
  destruct o as [now k|now k v expire|k|]; simpl.
  - unfold get. destruct (Hcase k) as [(n&Hn&<-&E)|[E Hno]]; rewrite E.
    + assert (find (ckey n) (abs c) = Some (abs_node n)) as -> by (by apply find_abs). rewrite deref_elem by done. cbn [mbind option_bind].
      unfold expired. simpl. destruct (_ && _) eqn:Hexp; [by exists c|].
      unfold splice. rewrite deref_elem by done. cbn [mbind option_bind deref].
      rewrite bool_decide_eq_true_2 by done. cbn [mbind option_bind]. eexists. split; [done|].
      destruct (front_inv c n n Hc Hn) as [? Ha]; done.
    + assert (find k (abs c) = None) as -> by (by apply find_none). by exists c.
  - unfold set. destruct (Hcase k) as [(n&Hn&<-&E)|[E Hno]]; rewrite E.
    + assert (find (ckey n) (abs c) = Some (abs_node n)) as -> by (by apply find_abs). rewrite deref_elem by done. cbn [mbind option_bind].
      unfold splice. rewrite deref_assign, erase_assign by done. cbn [mbind option_bind].
      eexists. split; [done|]. 
      destruct (front_inv c n (MkCNode (iter n) (ckey n) (if expire <=? 0 then 0 else now + expire) v) Hc Hn)
        as [? Ha]; done.
    + assert (find k (abs c) = None) as -> by (by apply find_none).
      assert (zlen (abs c) = zlen (cache_list c)) as -> by (unfold abs, zlen; by rewrite length_fmap).
      destruct (_ && _) eqn:Hfull.
      * destruct (exists_last (l := cache_list c)) as (l&d&El).
        { intros El. rewrite El in Hfull. cbn in Hfull. by rewrite andb_false_r in Hfull. }
        pose proof (evict_inv c d l Hc El) as Hev. rewrite El, last_snoc, removelast_snoc in *.
        cbn [mbind option_bind]. eexists. split; [done|]. split_and!; try done.
        -- eapply (cache_push_inv c _ l (MkCNode (fresh_iter c) k _ v)); try done.
           intros a Ha. apply Hno. apply elem_of_app. by left.
        -- unfold abs. rewrite El. simpl. rewrite fmap_app.
           change (abs_node <$> [d]) with [abs_node d]. by rewrite removelast_snoc.
      * cbn [mbind option_bind]. eexists. split; [done|]. split_and!; try done.
        eapply (cache_push_inv c _ (cache_list c) (MkCNode (fresh_iter c) k _ v)); try done.
  - unfold del. destruct (Hcase k) as [(n&Hn&<-&E)|[E Hno]]; rewrite E.
    + rewrite deref_elem by done. cbn [mbind option_bind]. eexists. split; [done|].
      split_and!; [by apply erase_inv| |done]. unfold abs. cbn [cache_list].
      rewrite erase_filter by done. by apply filter_iter_key.
    + exists c. split_and!; try done. unfold abs. by rewrite others_absent.
  - eexists. split; [done|]. split_and!; try done. split; simpl; try constructor.
    + rewrite lookup_empty. done.
    + intros (n&Hn&_). by apply elem_of_nil in Hn.
    + intros n Hn. by apply elem_of_nil in Hn.
Qed.

(** What the abstract cache promises: at most [cap] entries, one per key. *)
Lemma others_bound k (l : list entry) :
  zlen (others k l) <= zlen l ∧ (NoDup ((λ e : entry, e.1.1) <$> l) →
    NoDup ((λ e : entry, e.1.1) <$> others k l)) ∧ (k ∉ ((λ e : entry, e.1.1) <$> others k l)).
Proof.
  unfold others. split_and!.
  - unfold zlen. apply inj_le, length_filter.
  - intros H. eapply sublist_NoDup; [exact H|]. apply fmap_sublist, sublist_filter.
  - intros (e&E&He)%list_elem_of_fmap. apply list_elem_of_filter in He as [? _]. congruence.
Qed.

Lemma find_some_bound k (l : list entry) e :
  find k l = Some e → e.1.1 = k ∧ zlen (others k l) < zlen l.
Proof.
  intros H. unfold find in H. assert (e ∈ filter (λ e : entry, e.1.1 = k) l) as Hin.
  { destruct (filter _ l); [done|]. injection H as <-. by left. }
  apply list_elem_of_filter in Hin as [Ek Hin]. split; [done|].
  apply list_elem_of_split in Hin as (l1&l2&->).
  assert (others k (l1 ++ e :: l2) = others k l1 ++ others k l2) as ->.
  { unfold others. rewrite filter_app, filter_cons. by rewrite decide_False by tauto. }
  destruct (others_bound k l1) as [? _], (others_bound k l2) as [? _].
  rewrite !zlen_app, zlen_cons. lia.
Qed.

Lemma spec_bound cap (l : list entry) o :
  1 <= cap → zlen l <= cap → NoDup ((λ e : entry, e.1.1) <$> l) →
  zlen (spec cap l o).2 <= cap ∧ NoDup ((λ e : entry, e.1.1) <$> (spec cap l o).2).
Proof.
  intros Hcap Hlen Hnd. destruct o as [now k|now k v expire|k|]; simpl.
  - destruct (find k l) as [e|] eqn:E; [|done]. destruct (expired now e); [done|]. simpl.
    apply find_some_bound in E as [Ek Hlt]. destruct (others_bound k l) as (_&Hn&Hno).
    rewrite zlen_cons. split; [lia|]. constructor; [by rewrite Ek|auto].
  - destruct (find k l) as [e|] eqn:E; simpl.
    + apply find_some_bound in E as [Ek Hlt]. destruct (others_bound k l) as (_&Hn&Hno).
      rewrite zlen_cons. split; [lia|]. constructor; auto.
    + assert (k ∉ (λ e : entry, e.1.1) <$> l) as Hk.
      { intros (e&Ek&He)%list_elem_of_fmap. unfold find in E.
        assert (e ∈ filter (λ e : entry, e.1.1 = k) l) as Hin by (by apply list_elem_of_filter).
        destruct (filter _ l); [by apply elem_of_nil in Hin|done]. }
      rewrite zlen_cons. destruct (_ && _) eqn:Hf.
      * apply andb_true_iff in Hf as [Hf1%Z.eqb_eq Hf2%Z.ltb_lt].
        destruct (exists_last (l := l)) as (l'&d&->); [intros ->; done|].
        rewrite removelast_snoc. rewrite fmap_app in Hnd, Hk. apply NoDup_app in Hnd as [Hnd _].
        rewrite zlen_app, zlen_cons, zlen_nil in Hlen. split; [lia|].
        constructor; [|done]. intros ?. apply Hk, elem_of_app. by left.
      * split; [|by constructor]. apply andb_false_iff in Hf as [Hf%Z.eqb_neq|Hf%Z.ltb_ge]; lia.
  - destruct (others_bound k l) as (?&?&_). split; [lia|auto].
  - split; [rewrite zlen_nil; lia|constructor].
Qed.
End Lru.

Arguments LRUCache : clear implicits.
Arguments op : clear implicits.

(** C34: the cache with its iterators refines the abstract LRU cache.  Any sequence of
    calls on a cache of capacity at least one never follows an iterator of an erased
    node and answers as a list of entries ordered by last use, in which a new key at
    capacity drops the least recently used entry; the cache never holds more than
    [capacity] entries, and no key twice. *)
Theorem lru_refines {V} (capacity : Z) (ops : list (op V)) :
  1 <= capacity →
  ∃ rs c, exec step (make_cache capacity) ops = Some (rs, c) ∧
    runs (λ l o r l', spec capacity l o = (r, l')) [] ops rs (abs c) ∧
    zlen (cache_list c) <= capacity ∧ NoDup (ckey <$> cache_list c).
Proof.
  intros Hcap.
  destruct (exec_refines (step (V := V)) (λ l o r l', spec capacity l o = (r, l')) (λ _, True)
    (λ c l, cinv c ∧ cache_capacity c = capacity ∧ abs c = l ∧ zlen l <= capacity ∧
      NoDup ((λ e : entry, e.1.1) <$> l))) with (os := ops) (c := make_cache (V := V) capacity)
      (a := @nil (@entry V)) as (rs&c&l&He&(Hc&_&<-&Hlen&_)&Hr).
  - intros c l o (Hc&Hcp&<-&Hlen&Hnd) _. destruct (step_spec c o Hc) as (c'&Hs&Hc'&Ha&Hcp').
    rewrite Hcp in *. destruct (spec_bound capacity (abs c) o Hcap Hlen Hnd) as [Hl' Hn'].
    eexists _, c', (spec capacity (abs c) o).2. rewrite <- surjective_pairing. rewrite <- Ha in Hl', Hn'.
    split_and!; try done; by rewrite <- Ha.
  - split; [|split; [done|split; [done|split; [rewrite zlen_nil; lia|constructor]]]]. split; simpl; try constructor.
    + rewrite lookup_empty. done.
    + intros (n&Hn&_). by apply elem_of_nil in Hn.
    + intros n Hn. by apply elem_of_nil in Hn.
  - by apply Forall_true.
  - exists rs, c. split_and!; try done; [|apply Hc]. unfold abs, zlen in Hlen. by rewrite length_fmap in Hlen.
Qed.

Lemma lru_refines_witness :
  ∃ rs c, exec step (make_cache 2) [Set_ 0 [1] 10 0; Set_ 0 [2] 20 5; Get 3 [1]; Set_ 4 [3] 30 0;
      Get 4 [2]; Get 4 [1]] = Some (rs, c) ∧
    runs (λ l o r l', spec 2 l o = (r, l')) [] [Set_ 0 [1] 10 0; Set_ 0 [2] 20 5; Get 3 [1]; Set_ 4 [3] 30 0;
      Get 4 [2]; Get 4 [1]] rs (abs c) ∧
    zlen (cache_list c) <= 2 ∧ NoDup (ckey <$> cache_list c).
Proof. apply (lru_refines (V := Z) 2). lia. Defined.
