(* ===== verification/Http.v ===== *)
(** * HTTP/1 requests: src/protocol/http.cc, include/openswoole_http.h and
      [openswoole_hex2dec] of src/core/base.cc

    A request is parsed in the connection's buffer while its bytes arrive; the
    buffer is the allocated block [str] of which [length] bytes are received.  A
    pointer is its offset in the block.  [None] is an access outside the block.
    Characters are the bytes 0..255 where the source compares them as [char] with
    ASCII constants only; the character classes are those of the C locale.  The
    build with HTTP/2 and without [OSW_HTTP_100_CONTINUE] is modelled. *)

From S2P Require Import Prelude WebSocket Http2.

(** ** Characters *)

Definition isspace (c : Z) : bool := (c =? 32) || ((9 <=? c) && (c <=? 13)).
Definition isdigit (c : Z) : bool := (48 <=? c) && (c <=? 57).
Definition isupper (c : Z) : bool := (65 <=? c) && (c <=? 90).
Definition islower (c : Z) : bool := (97 <=? c) && (c <=? 122).
Definition isxdigit (c : Z) : bool :=
  isdigit c || ((65 <=? c) && (c <=? 70)) || ((97 <=? c) && (c <=? 102)).
Definition tolower (c : Z) : Z := if isupper c then c + 32 else c.
Definition toupper (c : Z) : Z := if islower c then c - 32 else c.

(** [openswoole_strcaseeq], and [openswoole_strcasect] of the string at [p]. *)
Definition openswoole_strcaseeq (a b : bytes) : bool := bool_decide (tolower <$> a = tolower <$> b).
Fixpoint strncaseeq (m : bytes) (p : Z) (s : bytes) : option bool :=
  match s with
  | [] => Some true
  | c :: s => d ← at_ m p; if tolower d =? tolower c then strncaseeq m (p + 1) s else Some false
  end.
Definition openswoole_strcasect (m : bytes) (p plen : Z) (s : bytes) : option bool :=
  if zlen s <=? plen then strncaseeq m p s else Some false.
(** [memcmp(p, s, strlen(s)) == 0]. *)
Definition memeq (m : bytes) (p : Z) (s : bytes) : option bool :=
  d ← load m p (zlen s); Some (bool_decide (d = s)).

(** ** URL coding *)

Definition hex_digit (c : Z) : Z :=
  let c := if isupper c then tolower c else c in if isdigit c then c - 48 else c - 97 + 10.
Definition url_htoi (a b : Z) : Z := hex_digit a * 16 + hex_digit b.

(** [url_decode]: the decoded bytes ([dest] never overtakes [data]). *)
Fixpoint url_decode (str : bytes) : bytes :=
  match str with
  | [] => []
  | c :: rest =>
    if c =? 43 (* '+' *) then 32 :: url_decode rest else
    match rest with
    | a :: b :: rest' =>
      if (c =? 37 (* '%' *)) && isxdigit a && isxdigit b
      then u8 (url_htoi a b) :: url_decode rest' else c :: url_decode rest
    | _ => c :: url_decode rest
    end
  end.

(** The condition under which [url_encode] escapes a [char]. *)
Definition must_escape (c : Z) : bool :=
  let c := i8 c in
  ((c <? 48) && negb (c =? 45) && negb (c =? 46)) || ((c <? 65) && (57 <? c)) ||
  ((90 <? c) && (c <? 97) && negb (c =? 95)) || ((122 <? c) && negb (c =? 126)).

Definition hexchars : bytes := lit "0123456789ABCDEF".
Definition hexchar (v : Z) : Z := nth (Z.to_nat v) hexchars 0.

(** The loop, on the block [ret]. *)
Fixpoint encode_loop (ret : bytes) (y : Z) (str : bytes) : option (bytes * Z) :=
  match str with
  | [] => Some (ret, y)
  | c :: str =>
    if must_escape c then
      ret ← store ret y [37; hexchar (Z.shiftr c 4); hexchar (Z.land c 15)];
      encode_loop ret (y + 3) str
    else ret ← store ret y [c]; encode_loop ret (y + 1) str
  end.

(** [url_encode]; [fresh n] is a block of [n] bytes.  The result is the returned
    string without its terminator. *)
Definition url_encode (fresh : nat → bytes) (str : bytes) : option bytes :=
  '(ret, y) ← encode_loop (fresh (3 * length str)%nat) 0 str;
  ret ← store ret y [0];
  load ret 0 y.

(** ** [openswoole_hex2dec] *)

Fixpoint hex2dec_loop (fuel : nat) (m : bytes) (p value : Z) : option (Z * Z) :=
  match fuel with
  | O => None
  | S fuel =>
    c ← at_ m p;
    if isdigit c then hex2dec_loop fuel m (p + 1) (u64 (value * 16 + (c - 48))) else
    let c := toupper c in
    if isupper c then hex2dec_loop fuel m (p + 1) (u64 (value * 16 + (c - 65) + 10))
    else Some (value, p)
  end.

(** The value and the number of bytes parsed. *)
Definition openswoole_hex2dec (m : bytes) (hex : Z) : option (Z * Z) :=
  c0 ← at_ m hex;
  prefix ← (if c0 =? 48 then c1 ← at_ m (hex + 1); Some (tolower c1 =? 120) else Some false);
  let p := if prefix : bool then hex + 2 else hex in
  '(value, q) ← hex2dec_loop (S (length m)) m p 0; Some (value, q - hex).

(** ** The request *)

Record Request := MkRequest {
  method : Z; version : Z; excepted : bool; header_parsed : bool; known_length : bool;
  keep_alive : bool; chunked : bool; nobody_chunked : bool;
  url_offset_ : Z; url_length_ : Z; request_line_length_ : Z; header_length_ : Z;
  content_length_ : Z;
  b_length : Z; b_offset : Z; b_str : bytes }.

Definition new_request (length : Z) (str : bytes) : Request :=
  MkRequest 0 0 false false false false false false 0 0 0 0 0 length 0 str.

Definition set_method (r : Request) (v : Z) : Request :=
  MkRequest v (version r) (excepted r) (header_parsed r) (known_length r) (keep_alive r) (chunked r)
    (nobody_chunked r) (url_offset_ r) (url_length_ r) (request_line_length_ r) (header_length_ r)
    (content_length_ r) (b_length r) (b_offset r) (b_str r).
Definition set_version (r : Request) (v : Z) : Request :=
  MkRequest (method r) v (excepted r) (header_parsed r) (known_length r) (keep_alive r) (chunked r)
    (nobody_chunked r) (url_offset_ r) (url_length_ r) (request_line_length_ r) (header_length_ r)
    (content_length_ r) (b_length r) (b_offset r) (b_str r).
Definition set_excepted (r : Request) : Request :=
  MkRequest (method r) (version r) true (header_parsed r) (known_length r) (keep_alive r) (chunked r)
    (nobody_chunked r) (url_offset_ r) (url_length_ r) (request_line_length_ r) (header_length_ r)
    (content_length_ r) (b_length r) (b_offset r) (b_str r).
Definition set_flags (r : Request) (parsed known keep chunk nobody : bool) : Request :=
  MkRequest (method r) (version r) (excepted r) parsed known keep chunk nobody
    (url_offset_ r) (url_length_ r) (request_line_length_ r) (header_length_ r)
    (content_length_ r) (b_length r) (b_offset r) (b_str r).
Definition set_url (r : Request) (o l : Z) : Request :=
  MkRequest (method r) (version r) (excepted r) (header_parsed r) (known_length r) (keep_alive r)
    (chunked r) (nobody_chunked r) o l (request_line_length_ r) (header_length_ r)
    (content_length_ r) (b_length r) (b_offset r) (b_str r).
Definition set_lengths (r : Request) (line header content : Z) : Request :=
  MkRequest (method r) (version r) (excepted r) (header_parsed r) (known_length r) (keep_alive r)
    (chunked r) (nobody_chunked r) (url_offset_ r) (url_length_ r) line header content
    (b_length r) (b_offset r) (b_str r).
Definition set_offset (r : Request) (o : Z) : Request :=
  MkRequest (method r) (version r) (excepted r) (header_parsed r) (known_length r) (keep_alive r)
    (chunked r) (nobody_chunked r) (url_offset_ r) (url_length_ r) (request_line_length_ r)
    (header_length_ r) (content_length_ r) (b_length r) o (b_str r).

(** *** The request line *)

Definition OSW_HTTP_PRI : Z := 26.
Definition OSW_HTTP_VERSION_10 : Z := 1.
Definition OSW_HTTP_VERSION_11 : Z := 2.

(** The methods in the order in which [get_protocol] tries them, with their codes. *)
Definition methods : list (bytes * Z) :=
  [(lit "GET", 2); (lit "POST", 4); (lit "PUT", 5); (lit "PATCH", 6); (lit "DELETE", 1);
   (lit "HEAD", 3); (lit "OPTIONS", 8); (lit "COPY", 10); (lit "LOCK", 11); (lit "MKCOL", 12);
   (lit "MOVE", 13); (lit "PROPFIND", 14); (lit "PROPPATCH", 15); (lit "UNLOCK", 16);
   (lit "REPORT", 17); (lit "PURGE", 25)].

Definition crlf : bytes := [13; 10].
Definition OSW_HTTP2_PRI_STRING : bytes :=
  lit "PRI * HTTP/2.0" ++ crlf ++ crlf ++ lit "SM" ++ crlf ++ crlf.

Fixpoint match_method (m : bytes) (ms : list (bytes * Z)) : option (option (Z * Z)) :=
  match ms with
  | [] => Some None
  | (s, code) :: ms => b ← memeq m 0 s; if b : bool then Some (Some (code, zlen s)) else match_method m ms
  end.

(** The loop over the rest of the request line, from [p] in [state]; it ends behind
    the version, or at [pe] in any state. *)
Fixpoint line_loop (fuel : nat) (r : Request) (p state : Z) : option (Z * Request) :=
  let _end r p := let p := p + 8 in
    Some (OSW_OK, set_offset (set_lengths r p (header_length_ r) (content_length_ r)) p) in
  if p <? b_length r then
    match fuel with
    | O => None
    | S fuel =>
      c ← at_ (b_str r) p;
      if state =? 0 then
        if isspace c then line_loop fuel r (p + 1) 0
        else line_loop fuel (set_url r p (url_length_ r)) (p + 1) 1
      else if state =? 1 then
        if isspace c then line_loop fuel (set_url r (url_offset_ r) (p - url_offset_ r)) (p + 1) 2
        else line_loop fuel r (p + 1) 1
      else
        if isspace c then line_loop fuel r (p + 1) 2 else
        if b_length r - p <? 8 then Some (OSW_ERR, r) else
        v11 ← memeq (b_str r) p (lit "HTTP/1.1");
        if v11 : bool then _end (set_version r OSW_HTTP_VERSION_11) p else
        v10 ← memeq (b_str r) p (lit "HTTP/1.0");
        if v10 : bool then _end (set_version r OSW_HTTP_VERSION_10) p
        else Some (OSW_ERR, set_excepted r)
    end
  else _end r p.

Definition get_protocol (r : Request) : option (Z * Request) :=
  if b_length r <? 16 then Some (OSW_ERR, r) else
  mm ← match_method (b_str r) methods;
  match mm with
  | Some (code, n) => line_loop (Z.to_nat (b_length r)) (set_method r code) n 0
  | None =>
    pri ← memeq (b_str r) 0 (lit "PRI");
    if pri : bool then
      let r := set_method r OSW_HTTP_PRI in
      full ← (if zlen OSW_HTTP2_PRI_STRING <=? b_length r
              then memeq (b_str r) 0 OSW_HTTP2_PRI_STRING else Some false);
      if full : bool then Some (OSW_OK, set_offset r (zlen OSW_HTTP2_PRI_STRING))
      else Some (OSW_ERR, set_excepted r)
    else Some (OSW_ERR, set_excepted r)
  end.

(** *** The header *)

(** [while ( *p == ' ') p++]. *)
Fixpoint skip_spaces (fuel : nat) (m : bytes) (p : Z) : option Z :=
  match fuel with
  | O => None
  | S fuel => c ← at_ m p; if c =? 32 then skip_spaces fuel m (p + 1) else Some p
  end.

(** [strtoull(p, nullptr, 10)]: white space, a sign, digits; it saturates. *)
Fixpoint strtoull_space (fuel : nat) (m : bytes) (p : Z) : option Z :=
  match fuel with
  | O => None
  | S fuel => c ← at_ m p; if isspace c then strtoull_space fuel m (p + 1) else Some p
  end.
Fixpoint strtoull_digits (fuel : nat) (m : bytes) (p acc : Z) : option Z :=
  match fuel with
  | O => None
  | S fuel =>
    c ← at_ m p;
    if isdigit c then strtoull_digits fuel m (p + 1) (acc * 10 + (c - 48)) else Some acc
  end.
Definition strtoull (m : bytes) (p : Z) : option Z :=
  let fuel := S (length m) in
  p ← strtoull_space fuel m p;
  c ← at_ m p;
  v ← strtoull_digits fuel m (if (c =? 43) || (c =? 45) then p + 1 else p) 0;
  Some (if 2 ^ 64 <=? v then 2 ^ 64 - 1 else if c =? 45 then u64 (- v) else v).

Definition UINT32_MAX : Z := 2 ^ 32 - 1.

(** One iteration's body: the new request and the new [p], before [p++]. *)
Definition header_field (r : Request) (p pe : Z) : option (Request * Z) :=
  let m := b_str r in
  let fuel := S (length m) in
  is_length ← openswoole_strcasect m p (u64 (pe - p)) (lit "Content-Length:");
  if is_length : bool then
    p ← skip_spaces fuel m (p + 15);
    n ← strtoull m p;
    Some (set_flags (set_lengths r (request_line_length_ r) (header_length_ r) (Z.min n UINT32_MAX))
            (header_parsed r) true (keep_alive r) (chunked r) (nobody_chunked r), p)
  else
  is_connection ← openswoole_strcasect m p (u64 (pe - p)) (lit "Connection:");
  if is_connection : bool then
    p ← skip_spaces fuel m (p + 11);
    b ← openswoole_strcasect m p (u64 (pe - p)) (lit "keep-alive");
    Some (set_flags r (header_parsed r) (known_length r) (if b : bool then true else keep_alive r)
            (chunked r) (nobody_chunked r), p)
  else
  is_encoding ← openswoole_strcasect m p (u64 (pe - p)) (lit "Transfer-Encoding:");
  if is_encoding : bool then
    p ← skip_spaces fuel m (p + 18);
    b ← openswoole_strcasect m p (u64 (pe - p)) (lit "chunked");
    Some (set_flags r (header_parsed r) (known_length r) (keep_alive r)
            (if b : bool then true else chunked r) (nobody_chunked r), p)
  else Some (r, p).

Fixpoint header_loop (fuel : nat) (r : Request) (p pe : Z) : option Request :=
  if p <? pe then
    match fuel with
    | O => None
    | S fuel =>
      c1 ← at_ (b_str r) (p - 1);
      c2 ← at_ (b_str r) (p - 2);
      if (c1 =? 10) && (c2 =? 13) then
        '(r, p) ← header_field r p pe; header_loop fuel r (p + 1) pe
      else header_loop fuel r (p + 1) pe
    end
  else Some r.

Definition parse_header_info (r : Request) : option Request :=
  r ← header_loop (S (length (b_str r))) r (request_line_length_ r + 2) (header_length_ r - 4);
  Some (set_flags r true (known_length r) (keep_alive r) (chunked r)
          (if chunked r && known_length r && (content_length_ r =? 0) then true
           else nobody_chunked r)).

(** [get_header_length] looks for the empty line from [offset] on, where the search
    of the bytes received before ended. *)
Definition crlfcrlf : bytes := crlf ++ crlf.

Fixpoint header_end_loop (fuel : nat) (r : Request) (p : Z) : option (Z * Request) :=
  if p <=? b_length r - 4 then
    match fuel with
    | O => None
    | S fuel =>
      b ← memeq (b_str r) p crlfcrlf;
      if b : bool then
        Some (OSW_OK, set_offset (set_lengths r (request_line_length_ r) (u32 (p + 4))
                                    (content_length_ r)) (p + 4))
      else header_end_loop fuel r (p + 1)
    end
  else Some (OSW_ERR, set_offset r p).

Definition get_header_length (r : Request) : option (Z * Request) :=
  header_end_loop (S (length (b_str r))) r (b_offset r).

(** *** The chunked body

    [base] is the address of the buffer: [p] is computed from the peer's chunk length
    modulo 2^64 and compared as an address.  An iteration of the loop returns or goes
    on with a new [p]. *)

Inductive Iteration :=
  | Return (ret : Z) (r : Request)
  | Continue (r : Request) (p : Z).

Definition chunk_step (base : Z) (r : Request) (p : Z) : option Iteration :=
  let pe := b_length r in
  if u64 (pe - p) <? 1 + 2 then Some (Return OSW_ERR r) else
  '(chunk_length, n_parsed) ← openswoole_hex2dec (b_str r) p;
  let head := p + n_parsed in
  c ← at_ (b_str r) head;
  if negb (c =? 13) then Some (Return OSW_ERR (set_excepted r)) else
  let p := u64 (base + head + 2 + chunk_length + 2) - base in
  let r := set_lengths r (request_line_length_ r) (header_length_ r)
             (u32 (p - header_length_ r)) in
  if pe <? p then Some (Return OSW_ERR r) else
  let r := set_offset r p in
  if chunk_length =? 0 then
    Some (Return OSW_OK (set_flags r (header_parsed r) true (keep_alive r) (chunked r)
                           (nobody_chunked r)))
  else Some (Continue r p).

(** At most [S fuel] iterations; [Continue] is a loop that still runs. *)
Fixpoint chunk_loop (fuel : nat) (base : Z) (r : Request) (p : Z) : option Iteration :=
  i ← chunk_step base r p;
  match i, fuel with
  | Continue r p, S fuel => chunk_loop fuel base r p
  | _, _ => Some i
  end.

Definition get_chunked_body_length (fuel : nat) (base : Z) (r : Request) : option Iteration :=
  chunk_loop fuel base r (b_offset r).

(** *** The date *)

Fixpoint date_loop (fuel : nat) (m : bytes) (p pe state date : Z) : option bytes :=
  if p <? pe then
    match fuel with
    | O => None
    | S fuel =>
      if state =? 0 then
        b ← openswoole_strcasect m p (u64 (pe - p)) (lit "If-Modified-Since");
        if b : bool then date_loop fuel m (p + 18 + 1) pe 1 date
        else date_loop fuel m (p + 1) pe 0 date
      else if state =? 1 then
        c ← at_ m p;
        if isspace c then date_loop fuel m (p + 1) pe 1 date else date_loop fuel m (p + 1) pe 2 p
      else
        b ← openswoole_strcasect m p (u64 (pe - p)) crlf;
        if b : bool then load m date (p - date) else date_loop fuel m (p + 1) pe 2 date
    end
  else Some [].

Definition get_date_if_modified_since (r : Request) : option bytes :=
  date_loop (S (length (b_str r))) (b_str r) (url_offset_ r + url_length_ r + 10)
    (header_length_ r) 0 0.

(** ** Methods, status lines and the protocol of a connection *)

Definition method_strings : list bytes :=
  lit <$> ["DELETE"; "GET"; "HEAD"; "POST"; "PUT"; "PATCH"; "CONNECT"; "OPTIONS"; "TRACE"; "COPY";
    "LOCK"; "MKCOL"; "MOVE"; "PROPFIND"; "PROPPATCH"; "UNLOCK"; "REPORT"; "MKACTIVITY"; "CHECKOUT";
    "MERGE"; "M-SEARCH"; "NOTIFY"; "SUBSCRIBE"; "UNSUBSCRIBE"; "PURGE"; "PRI"]%string.

Fixpoint method_loop (ms : list bytes) (i : Z) (s : bytes) : Z :=
  match ms with
  | [] => -1
  | m :: ms => if openswoole_strcaseeq m s then i + 1 else method_loop ms (i + 1) s
  end.
Definition get_method (s : bytes) : Z := method_loop method_strings 0 s.

(** [Some None] is the null pointer, [None] an access outside [method_strings]. *)
Definition get_method_string (method : Z) : option (option bytes) :=
  if (method <? 0) || (OSW_HTTP_PRI <? method) then Some None else
  if 0 <=? method - 1 then s ← method_strings !! Z.to_nat (method - 1); Some (Some s) else None.

Definition status_messages : list (Z * string) :=
  [(100, "100 Continue"); (101, "101 Switching Protocols"); (201, "201 Created");
   (202, "202 Accepted"); (203, "203 Non-Authoritative Information"); (204, "204 No Content");
   (205, "205 Reset Content"); (206, "206 Partial Content"); (207, "207 Multi-Status");
   (208, "208 Already Reported"); (226, "226 IM Used"); (300, "300 Multiple Choices");
   (301, "301 Moved Permanently"); (302, "302 Found"); (303, "303 See Other");
   (304, "304 Not Modified"); (305, "305 Use Proxy"); (307, "307 Temporary Redirect");
   (400, "400 Bad Request"); (401, "401 Unauthorized"); (402, "402 Payment Required");
   (403, "403 Forbidden"); (404, "404 Not Found"); (405, "405 Method Not Allowed");
   (406, "406 Not Acceptable"); (407, "407 Proxy Authentication Required");
   (408, "408 Request Timeout"); (409, "409 Conflict"); (410, "410 Gone");
   (411, "411 Length Required"); (412, "412 Precondition Failed");
   (413, "413 Request Entity Too Large"); (414, "414 Request URI Too Long");
   (415, "415 Unsupported Media Type"); (416, "416 Requested Range Not Satisfiable");
   (417, "417 Expectation Failed"); (418, "418 I'm a teapot"); (421, "421 Misdirected Request");
   (422, "422 Unprocessable Entity"); (423, "423 Locked"); (424, "424 Failed Dependency");
   (426, "426 Upgrade Required"); (428, "428 Precondition Required");
   (429, "429 Too Many Requests"); (431, "431 Request Header Fields Too Large");
   (500, "500 Internal Server Error"); (501, "501 Method Not Implemented");
   (502, "502 Bad Gateway"); (503, "503 Service Unavailable"); (504, "504 Gateway Timeout");
   (505, "505 HTTP Version Not Supported"); (506, "506 Variant Also Negotiates");
   (507, "507 Insufficient Storage"); (508, "508 Loop Detected"); (510, "510 Not Extended");
   (511, "511 Network Authentication Required")]%string.

Fixpoint status_switch (cases : list (Z * string)) (code : Z) : bytes :=
  match cases with
  | [] => lit "200 OK"
  | (c, s) :: cases => if c =? code then lit s else status_switch cases code
  end.
Definition get_status_message (code : Z) : bytes := status_switch status_messages code.

Definition STATUS_HANDSHAKE : Z := 2.

(** [get_package_length] with the connection's two fields: the result and the new
    [real_header_length]. *)
Definition get_package_length (websocket_status : Z) (http2_stream : bool) (real_header_length : Z)
    (data : bytes) (length : Z) : option (Z * Z) :=
  if STATUS_HANDSHAKE <=? websocket_status
  then WebSocket.get_package_length real_header_length data length
  else if http2_stream
  then n ← get_frame_length data length; Some (n, real_header_length)
  else Some (OSW_ERR, real_header_length).

Definition get_package_length_size (websocket_status : Z) (http2_stream : bool) : Z :=
  if STATUS_HANDSHAKE <=? websocket_status
  then OSW_WEBSOCKET_HEADER_LEN + OSW_WEBSOCKET_MASK_LEN + 8
  else if http2_stream then OSW_HTTP2_FRAME_HEADER_SIZE else 0.

(** ** URL coding: proofs *)

(** The escaped form of a string. *)
Fixpoint escaped (str : bytes) : bytes :=
  match str with
  | [] => []
  | c :: str =>
    (if must_escape c then [37; hexchar (Z.shiftr c 4); hexchar (Z.land c 15)] else [c])
      ++ escaped str
  end.

(** The length of the escaped form, of at most three characters for every byte, and
    exactly three when all bytes are escaped. *)
Lemma escaped_length str :
  (length (escaped str) <= 3 * length str)%nat ∧
  (Exists (λ c, must_escape c = false) str → length (escaped str) < 3 * length str)%nat ∧
  (Forall (λ c, must_escape c = true) str → length (escaped str) = 3 * length str)%nat.
Proof.
  induction str as [|c str (IH1 & IH2 & IH3)]; cbn [escaped length].
  - split_and!; [lia| |lia]. intros H. by apply Exists_nil in H.
  - rewrite length_app. destruct (must_escape c) eqn:E; cbn [length].
    + split_and!; [lia| |].
      * intros [H|H]%Exists_cons; [congruence|]. specialize (IH2 H). lia.
      * intros [_ H]%Forall_cons. specialize (IH3 H). lia.
    + split_and!; [lia|lia|]. intros [H _]%Forall_cons. congruence.
Qed.

(** The loop writes the escaped form behind what it has written. *)
Lemma encode_loop_writes str pre old :
  (length (escaped str) <= length old)%nat →
  encode_loop (pre ++ old) (zlen pre) str =
    Some (pre ++ escaped str ++ drop (length (escaped str)) old, zlen pre + zlen (escaped str)).
Proof.
  revert pre old. induction str as [|c str IH]; intros pre old Hl.
  { cbn. rewrite Z.add_0_r. done. }
  cbn [escaped] in *. rewrite length_app in Hl.
  set (piece := if must_escape c then [37; hexchar (Z.shiftr c 4); hexchar (Z.land c 15)] else [c]) in *.
  assert (encode_loop (pre ++ old) (zlen pre) (c :: str) =
    (ret ← store (pre ++ old) (zlen pre) piece; encode_loop ret (zlen pre + zlen piece) str)) as ->
    by (cbn [encode_loop]; unfold piece; by destruct (must_escape c)).
  rewrite <- (take_drop (length piece) old) at 1.
  rewrite store_mid by (try done; rewrite length_take; lia). cbn [mbind option_bind].
  rewrite <- zlen_app, app_assoc, IH by (rewrite length_drop; lia).
  rewrite !zlen_app, drop_drop, <- !app_assoc, length_app. do 2 f_equal. lia.
Qed.

(** Decoding an escaped byte. *)
Definition byte_ok (c : Z) : bool :=
  if must_escape c then
    isxdigit (hexchar (Z.shiftr c 4)) && isxdigit (hexchar (Z.land c 15)) &&
    (u8 (url_htoi (hexchar (Z.shiftr c 4)) (hexchar (Z.land c 15))) =? c)
  else negb (c =? 43) && negb (c =? 37).

Lemma bytes_ok c : is_byte c → byte_ok c = true.
Proof.
  intros Hc. assert (forallb byte_ok (Z.of_nat <$> seq 0 256) = true) as H by by vm_compute.
  rewrite forallb_forall in H. apply H, list_elem_of_In, list_elem_of_fmap.
  exists (Z.to_nat c). unfold is_byte in Hc. split; [lia|]. apply elem_of_seq. lia.
Qed.

Lemma decode_escaped str : is_bytes str → url_decode (escaped str) = str.
Proof.
  induction 1 as [|c str Hc _ IH]; [done|]. cbn [escaped]. apply bytes_ok in Hc. unfold byte_ok in Hc.
  destruct (must_escape c).
  - rewrite !andb_true_iff, Z.eqb_eq in Hc. destruct Hc as [[H1 H2] H3].
    cbn [app url_decode]. change (37 =? 43) with false. change (37 =? 37) with true.
    rewrite H1, H2, H3. cbn [andb]. by rewrite IH.
  - rewrite andb_true_iff, !negb_true_iff in Hc. destruct Hc as [H1 H2].
    cbn [app url_decode]. rewrite H1, H2. cbn [andb].
    rewrite <- IH at 2. by destruct (escaped str) as [|? [|? ?]].
Qed.

(** [url_encode] then [url_decode] gives the string back, and the encoder stays
    inside its allocation of three times the length, for every string with a byte
    that needs no escape; on a string without such a byte (the empty one included)
    the terminating NUL is written behind the end of the allocation. *)
Theorem url_coding_roundtrip (fresh : nat → bytes) (str : bytes) :
  (∀ n, length (fresh n) = n) → is_bytes str →
  (Exists (λ c, must_escape c = false) str →
     ∃ e, url_encode fresh str = Some e ∧ url_decode e = str) ∧
  (Forall (λ c, must_escape c = true) str → url_encode fresh str = None).
Proof.
  intros Hf Hb. destruct (escaped_length str) as (H1 & H2 & H3).
  unfold url_encode. set (blk := fresh _).
  assert (length blk = 3 * length str)%nat as Hk by apply Hf.
  pose proof (encode_loop_writes str [] blk ltac:(lia)) as He. cbn [app] in He.
  change (zlen []) with 0 in He. rewrite He. cbn [mbind option_bind]. rewrite Z.add_0_l.
  split; intros H.
  - specialize (H2 H). rewrite <- (take_drop 1 (drop _ blk)).
    rewrite store_mid by (try done; rewrite length_take, length_drop; cbn [length]; lia).
    cbn [mbind option_bind]. exists (escaped str). split; [|by apply decode_escaped].
    apply (load_mid []); done.
  - specialize (H3 H). unfold store. rewrite andb_comm, (proj2 (Z.leb_gt _ _)); [done|].
    rewrite zlen_app. unfold zlen. rewrite length_drop. simpl length. lia.
Qed.

Lemma url_coding_roundtrip_witness :
  (∃ e, url_encode (λ n, replicate n 0) (lit "a b/c") = Some e ∧ url_decode e = lit "a b/c") ∧
  url_encode (λ n, replicate n 0) (lit "  ") = None.
Proof.
  split.
  - apply (url_coding_roundtrip (λ n, replicate n 0) (lit "a b/c")).
    + intros. apply length_replicate.
    + vm_compute lit. repeat constructor; unfold is_byte; lia.
    + by constructor.
  - apply (url_coding_roundtrip (λ n, replicate n 0) (lit "  ")).
    + intros. apply length_replicate.
    + vm_compute lit. repeat constructor; unfold is_byte; lia.
    + repeat constructor.
Defined.

(** ** The end of the header *)

(** The buffer after more bytes were received behind those it holds. *)
Definition receive (r : Request) (d : bytes) : option Request :=
  m ← store (b_str r) (b_length r) d;
  Some (MkRequest (method r) (version r) (excepted r) (header_parsed r) (known_length r)
    (keep_alive r) (chunked r) (nobody_chunked r) (url_offset_ r) (url_length_ r)
    (request_line_length_ r) (header_length_ r) (content_length_ r)
    (b_length r + zlen d) (b_offset r) m).

(** [get_header_length] is called once more whenever bytes arrive, until it succeeds. *)
Fixpoint receive_header (r : Request) (ds : list bytes) : option (Z * Request) :=
  '(ret, r) ← get_header_length r;
  if ret =? OSW_OK then Some (ret, r) else
  match ds with
  | [] => Some (ret, r)
  | d :: ds => r ← receive r d; receive_header r ds
  end.

Definition received (r : Request) : bytes := take (Z.to_nat (b_length r)) (b_str r).
Definition empty_line_at (s : bytes) (i : Z) : Prop := load s i 4 = Some crlfcrlf.
#[export] Instance empty_line_at_dec s i : Decision (empty_line_at s i).
Proof. unfold empty_line_at. apply _. Defined.
Definition first_empty_line (s : bytes) (from k : Z) : Prop :=
  from <= k ∧ empty_line_at s k ∧ ∀ i, from <= i < k → ¬ empty_line_at s i.
Definition buffer_ok (r : Request) : Prop := 0 <= b_length r <= zlen (b_str r) ∧ 0 <= b_offset r.

Lemma load_app_l s x o n : 0 <= o → 0 <= n → o + n <= zlen s → load (s ++ x) o n = load s o n.
Proof.
  intros. rewrite <- (load_take (s ++ x) (length s)); [by rewrite take_app_length|lia|lia|done|].
  rewrite zlen_app. pose proof (zlen_nonneg x). lia.
Qed.

Lemma empty_line_inside s i : empty_line_at s i → 0 <= i ∧ i + 4 <= zlen s.
Proof. by intros (?&?&?&_)%load_is_Some. Qed.

Lemma empty_line_app s x i : i + 4 <= zlen s → empty_line_at (s ++ x) i ↔ empty_line_at s i.
Proof.
  intros Hi. destruct (decide (0 <= i)).
  - unfold empty_line_at. by rewrite load_app_l by lia.
  - split; intros H%empty_line_inside; lia.
Qed.

Lemma first_empty_line_app s x o k : first_empty_line s o k → first_empty_line (s ++ x) o k.
Proof.
  intros (H1 & H2 & H3). pose proof (empty_line_inside _ _ H2) as [??]. split; [done|].
  split; [by apply empty_line_app|]. intros i Hi. rewrite empty_line_app by lia. by apply H3.
Qed.

Lemma received_zlen r : buffer_ok r → zlen (received r) = b_length r.
Proof. intros [? _]. unfold received, zlen in *. rewrite length_take. lia. Qed.

Lemma memeq_received r p :
  buffer_ok r → 0 <= p → p + 4 <= b_length r →
  memeq (b_str r) p crlfcrlf = Some (bool_decide (empty_line_at (received r) p)).
Proof.
  intros [Hb _] H0 Hp. unfold memeq. change (zlen crlfcrlf) with 4.
  rewrite load_Some by lia. cbn [mbind option_bind]. f_equal. apply bool_decide_ext.
  unfold empty_line_at, received. rewrite load_take, load_Some by lia.
  split; [by intros ->|by intros [=]].
Qed.

(** The request when its header was found to end behind the empty line at [k]. *)
Definition found (r : Request) (k : Z) : Request :=
  set_offset (set_lengths r (request_line_length_ r) (k + 4) (content_length_ r)) (k + 4).

(** The loop finds the first empty line among the received bytes from [p] on. *)
Lemma header_end_loop_spec fuel r p :
  buffer_ok r → 0 <= p → b_length r - p < Z.of_nat fuel → b_length r < 2 ^ 32 →
  (∃ k, header_end_loop fuel r p = Some (OSW_OK, found r k) ∧ first_empty_line (received r) p k) ∨
  (header_end_loop fuel r p = Some (OSW_ERR, set_offset r (Z.max p (b_length r - 3))) ∧
     ∀ i, p <= i → ¬ empty_line_at (received r) i).
Proof.
  intros Hb. revert p. induction fuel as [|fuel IH]; intros p Hp Hf Hl; cbn [header_end_loop];
    (destruct (Z.leb_spec p (b_length r - 4)); [try lia|]).
  1, 3: right; split; [do 3 f_equal; lia|];
    intros i Hi E%empty_line_inside; rewrite received_zlen in E by done; lia.
  rewrite memeq_received by (done || lia). cbn [mbind option_bind].
  case_bool_decide as E.
  - left. exists p. rewrite u32_small by lia. split; [done|]. split; [lia|]. split; [done|]. intros; lia.
  - destruct (IH (p + 1)) as [(k & H1 & H2 & H3 & H4)|[H1 H2]]; [lia..| |].
    + left. exists k. split; [done|]. split; [lia|]. split; [done|].
      intros i Hi. destruct (decide (i = p)) as [->|]; [done|]. apply H4. lia.
    + right. split; [rewrite H1; do 3 f_equal; lia|].
      intros i Hi. destruct (decide (i = p)) as [->|]; [done|]. apply H2. lia.
Qed.

Lemma receive_spec r d :
  buffer_ok r → b_length r + zlen d <= zlen (b_str r) →
  ∃ r', receive r d = Some r' ∧ buffer_ok r' ∧ b_length r' = b_length r + zlen d ∧
    b_offset r' = b_offset r ∧ zlen (b_str r') = zlen (b_str r) ∧ received r' = received r ++ d.
Proof.
  intros [Hb Ho] Hd. unfold receive. pose proof (zlen_nonneg d).
  destruct (store (b_str r) (b_length r) d) as [m|] eqn:E.
  2: { by rewrite store_Some in E by lia. }
  pose proof (store_length _ _ _ _ E) as Hm. cbn [mbind option_bind]. eexists. split; [done|].
  split_and!; cbn; try (done || lia). { split; cbn; lia. }
  apply store_is_Some in E as (_ & _ & ->). unfold received. cbn [b_length b_str].
  rewrite app_assoc, take_app_length'; [done|].
  rewrite length_app, length_take. unfold zlen in *. lia.
Qed.

(** Wherever the network cuts the header, the calls of [get_header_length] after
    every receipt find the first empty line of the whole stream at or behind the
    offset where the search started, no earlier and no later one, and fail exactly
    when the stream has none. *)
Theorem header_end_found (r : Request) (ds : list bytes) :
  buffer_ok r → b_length r + zlen (concat ds) <= zlen (b_str r) → zlen (b_str r) < 2 ^ 32 →
  ∃ ret r', receive_header r ds = Some (ret, r') ∧
    let s := received r ++ concat ds in
    (ret = OSW_OK ∧
       ∃ k, first_empty_line s (b_offset r) k ∧ header_length_ r' = k + 4 ∧ b_offset r' = k + 4) ∨
    (ret = OSW_ERR ∧ ∀ i, b_offset r <= i → ¬ empty_line_at s i).
Proof.
  revert r. induction ds as [|d ds IH]; intros r Hb Hd Hm; cbn [concat receive_header] in *;
    (destruct (header_end_loop_spec (S (length (b_str r))) r (b_offset r))
      as [(k & H1 & Hk)|[H1 H2]];
      [done|apply Hb|destruct Hb; unfold zlen in *; lia|destruct Hb; lia|..]);
    unfold get_header_length; rewrite H1; cbn [mbind option_bind].
  - exists OSW_OK, (found r k). split; [done|]. left. rewrite app_nil_r. eauto.
  - exists OSW_ERR. eexists. split; [done|]. right. rewrite app_nil_r. done.
  - exists OSW_OK, (found r k). split; [done|]. left. eauto 10 using first_empty_line_app.
  - change (OSW_ERR =? OSW_OK) with false. cbn iota. rewrite zlen_app in Hd. zl_nonneg.
    set (r1 := set_offset r (Z.max (b_offset r) (b_length r - 3))).
    destruct (receive_spec r1 d) as (r2 & -> & Hb2 & Hl2 & Ho2 & Hz2 & Hr2);
      [destruct Hb; split; cbn; lia|cbn; lia|]. cbn [mbind option_bind].
    destruct (IH r2) as (ret & r' & Hret & Hcases); [done|cbn in *; lia..|].
    exists ret, r'. split; [done|].
    change (received r1) with (received r) in Hr2. rewrite Hr2, Ho2, <- app_assoc in Hcases.
    cbn [b_offset r1 set_offset] in Hcases.
    assert (∀ i, b_offset r <= i < Z.max (b_offset r) (b_length r - 3) →
              ¬ empty_line_at (received r ++ d ++ concat ds) i) as Hno.
    { intros i Hi. rewrite empty_line_app by (rewrite received_zlen by done; lia). apply H2. lia. }
    destruct Hcases as [(-> & k & (Hk1 & Hk2 & Hk3) & Hk4)|[-> Hn]]; [left|right]; (split; [done|]).
    + exists k. split; [|done]. split; [lia|]. split; [done|]. intros i Hi.
      destruct (decide (i < Z.max (b_offset r) (b_length r - 3))); [apply Hno; lia|apply Hk3; lia].
    + intros i Hi.
      destruct (decide (i < Z.max (b_offset r) (b_length r - 3))); [apply Hno; lia|apply Hn; lia].
Qed.

Lemma header_end_found_witness :
  let s := lit "GET / HTTP/1.1" ++ crlf ++ lit "A: b" ++ crlf ++ crlf ++ lit "rest" in
  let r := set_offset (new_request 16 (take 16 s ++ replicate 40 0)) 14 in
  let ds := [take 7 (drop 16 s); drop 23 s] in
  ∃ ret r', receive_header r ds = Some (ret, r') ∧
    let s := received r ++ concat ds in
    (ret = OSW_OK ∧
       ∃ k, first_empty_line s (b_offset r) k ∧ header_length_ r' = k + 4 ∧ b_offset r' = k + 4) ∨
    (ret = OSW_ERR ∧ ∀ i, b_offset r <= i → ¬ empty_line_at s i).
Proof.
  intros s r ds. apply (header_end_found r ds).
  - split_and!; vm_compute; discriminate.
  - vm_compute. discriminate.
  - vm_compute. reflexivity.
Defined.

(** ** The chunked body: proofs *)

Definition hex_value (c : Z) : Z := if isdigit c then c - 48 else toupper c - 65 + 10.
Fixpoint hexval (v : Z) (h : bytes) : Z :=
  match h with [] => v | c :: h => hexval (v * 16 + hex_value c) h end.

(** A chunk is its size line's digits and its data. *)
Definition chunk_text (c : bytes * bytes) : bytes := c.1 ++ crlf ++ c.2 ++ crlf.
Definition chunk_ok (c : bytes * bytes) : Prop :=
  c.1 ≠ [] ∧ Forall (λ x, isxdigit x = true) c.1 ∧ hexval 0 c.1 = zlen c.2.

Lemma hex_value_range c : isxdigit c = true → 0 <= hex_value c < 16.
Proof.
  unfold isxdigit, hex_value, isdigit, toupper, islower.
  rewrite !orb_true_iff, !andb_true_iff, !Z.leb_le. case_Z; cbn; lia.
Qed.

Lemma hexval_mono v h : 0 <= v → Forall (λ x, isxdigit x = true) h → v <= hexval v h.
Proof.
  intros Hv H. revert v Hv. induction H as [|c h Hc _ IH]; intros v Hv; cbn [hexval]; [lia|].
  apply hex_value_range in Hc. specialize (IH (v * 16 + hex_value c)). lia.
Qed.

Lemma at_app_r' pre x i : 0 <= i → at_ (pre ++ x) (zlen pre + i) = at_ x i.
Proof.
  intros. unfold at_, zlen. rewrite !(proj2 (Z.leb_le _ _)) by lia.
  rewrite lookup_app_r by lia. f_equal. lia.
Qed.

(** One digit. *)
Lemma hex2dec_digit fuel m p v c :
  at_ m p = Some c → isxdigit c = true →
  hex2dec_loop (S fuel) m p v = hex2dec_loop fuel m (p + 1) (u64 (v * 16 + hex_value c)).
Proof.
  intros Hat Hc. cbn [hex2dec_loop]. rewrite Hat. cbn [mbind option_bind]. unfold hex_value.
  destruct (isdigit c) eqn:E; [done|].
  assert (isupper (toupper c) = true) as ->.
  { unfold isxdigit, isdigit, isupper, toupper, islower in *.
    destruct (Z.leb_spec 48 c), (Z.leb_spec c 57), (Z.leb_spec 65 c), (Z.leb_spec c 70),
      (Z.leb_spec 97 c), (Z.leb_spec c 102), (Z.leb_spec c 122); cbn in *; try done; try lia;
      case_Z; lia || done. }
  f_equal. f_equal. lia.
Qed.

Lemma hex2dec_loop_digits fuel pre h rest v :
  (length h < fuel)%nat → Forall (λ x, isxdigit x = true) h → 0 <= v → hexval v h < 2 ^ 64 →
  hex2dec_loop fuel (pre ++ h ++ 13 :: rest) (zlen pre) v = Some (hexval v h, zlen pre + zlen h).
Proof.
  intros Hf Hh. revert fuel pre v Hf. induction Hh as [|c h Hc Hh IH]; intros [|fuel] pre v Hf Hv Hb;
    cbn [length] in Hf; try lia.
  - cbn [hex2dec_loop app]. rewrite at_prefix, zlen_nil, Z.add_0_r. done.
  - rewrite (hex2dec_digit _ _ _ _ c) by (done || apply at_prefix).
    pose proof (hex_value_range c Hc). cbn [hexval] in *.
    pose proof (hexval_mono (v * 16 + hex_value c) h ltac:(lia) Hh) as Hm.
    rewrite u64_small by lia.
    replace (pre ++ (c :: h) ++ 13 :: rest) with ((pre ++ [c]) ++ h ++ 13 :: rest)
      by by rewrite <- app_assoc.
    replace (zlen pre + 1) with (zlen (pre ++ [c])) by zl.
    rewrite IH by (done || lia). do 2 f_equal. zl.
Qed.

Lemma hex2dec_spec pre h rest :
  h ≠ [] → Forall (λ x, isxdigit x = true) h → hexval 0 h < 2 ^ 64 →
  openswoole_hex2dec (pre ++ h ++ 13 :: rest) (zlen pre) = Some (hexval 0 h, zlen h).
Proof.
  intros Hne Hh Hb. destruct h as [|c0 h]; [done|]. unfold openswoole_hex2dec.
  cbn [app]. rewrite at_prefix. cbn [mbind option_bind].
  assert (∃ c1, at_ (pre ++ c0 :: h ++ 13 :: rest) (zlen pre + 1) = Some c1 ∧ (tolower c1 =? 120) = false)
    as (c1 & -> & Ht).
  { replace (pre ++ c0 :: h ++ 13 :: rest) with ((pre ++ [c0]) ++ h ++ 13 :: rest)
      by by rewrite <- app_assoc.
    replace (zlen pre + 1) with (zlen (pre ++ [c0])) by zl.
    destruct h as [|c1 h]; cbn [app]; [exists 13|exists c1]; (split; [apply at_prefix|]); [done|].
    apply Forall_cons in Hh as [_ [Hc _]%Forall_cons].
    unfold isxdigit, isdigit, tolower, isupper in *. apply Z.eqb_neq. intros E.
    revert Hc E. case_Z; cbn; try done; lia. }
  cbn [mbind option_bind]. rewrite Ht.
  assert ((if c0 =? 48 then Some false else Some false) = Some false) as -> by by destruct (c0 =? 48).
  cbn [mbind option_bind].
  pose proof (hex2dec_loop_digits (S (length (pre ++ c0 :: h ++ 13 :: rest))) pre (c0 :: h) rest 0) as E.
  cbn [app] in E. rewrite E; [|rewrite !length_app; cbn [length]; rewrite length_app; lia|done|done|done].
  cbn [mbind option_bind]. do 2 f_equal. lia.
Qed.

(** The request at a later position of the chunked body. *)
Definition moved (r : Request) (len p : Z) : Request :=
  set_offset (set_lengths r (request_line_length_ r) (header_length_ r) len) p.

(** An iteration at a size line of which the CR is in the buffer. *)
Lemma chunk_step_line base r pre h rest :
  b_str r = pre ++ h ++ 13 :: rest → h ≠ [] → Forall (λ x, isxdigit x = true) h →
  hexval 0 h < 2 ^ 64 → 3 <= b_length r - zlen pre < 2 ^ 64 →
  chunk_step base r (zlen pre) =
    let p := u64 (base + zlen pre + zlen h + 4 + hexval 0 h) - base in
    let len := u32 (p - header_length_ r) in
    Some (if b_length r <? p then Return OSW_ERR (moved r len (b_offset r)) else
          if hexval 0 h =? 0
          then Return OSW_OK (set_flags (moved r len p) (header_parsed r) true (keep_alive r)
                                (chunked r) (nobody_chunked r))
          else Continue (moved r len p) p).
Proof.
  intros Hs Hne Hh Hv Hl. unfold chunk_step. rewrite u64_small by lia.
  rewrite (proj2 (Z.ltb_ge _ _)) by lia. rewrite Hs, hex2dec_spec by done.
  cbn [mbind option_bind]. rewrite (app_assoc pre), <- zlen_app, at_prefix, zlen_app.
  cbn [mbind option_bind]. change (negb (13 =? 13)) with false. cbn iota.
  replace (base + (zlen pre + zlen h) + 2 + hexval 0 h + 2)
    with (base + zlen pre + zlen h + 4 + hexval 0 h) by lia.
  cbv zeta. unfold moved. destruct (b_length r <? _); [by destruct r|]. by destruct (hexval 0 h =? 0).
Qed.

Lemma chunk_text_zlen c : zlen (chunk_text c) = zlen c.1 + zlen c.2 + 4.
Proof. unfold chunk_text. rewrite !zlen_app. change (zlen crlf) with 2. lia. Qed.

Section ChunkedBody.
(** The address of the buffer: the buffer lies inside the address space. *)
Context (base : Z).

Definition placed (r : Request) : Prop :=
  0 <= base ∧ base + zlen (b_str r) < 2 ^ 64 ∧ zlen (b_str r) < 2 ^ 32 ∧ b_length r <= zlen (b_str r).

Lemma chunk_bounds r pre c rest :
  placed r → b_str r = pre ++ chunk_text c ++ rest → chunk_ok c →
  0 <= hexval 0 c.1 < 2 ^ 64 ∧ zlen pre + zlen c.1 + 4 + hexval 0 c.1 = zlen (pre ++ chunk_text c) ∧
  u64 (base + zlen pre + zlen c.1 + 4 + hexval 0 c.1) - base = zlen (pre ++ chunk_text c) ∧ 0 < zlen c.1.
Proof.
  intros (H0 & H1 & H2 & H3) Hs (Hne & _ & Hv).
  assert (zlen (b_str r) = zlen pre + (zlen (chunk_text c) + zlen rest)) as Hz
    by by rewrite Hs, !zlen_app.
  rewrite zlen_app, chunk_text_zlen in *. pose proof (zlen_pos _ Hne). zl_nonneg. rewrite Hv.
  split; [lia|]. split; [lia|]. split; [|lia]. rewrite u64_small by lia. lia.
Qed.

(** A complete chunk with data is skipped, ... *)
Lemma chunk_step_skip r pre c rest :
  placed r → b_str r = pre ++ chunk_text c ++ rest → chunk_ok c → c.2 ≠ [] →
  zlen (pre ++ chunk_text c) <= b_length r →
  let p := zlen (pre ++ chunk_text c) in
  chunk_step base r (zlen pre) = Some (Continue (moved r (u32 (p - header_length_ r)) p) p).
Proof.
  intros Hp Hs Hc Hd Hl p. pose proof (chunk_bounds _ _ _ _ Hp Hs Hc) as (Hb & _ & Hb2 & Hb3).
  destruct Hc as (Hne & Hh & Hv), Hp as (?&?&?&?). pose proof (zlen_pos _ Hd).
  rewrite zlen_app, chunk_text_zlen in Hl. zl_nonneg.
  rewrite (chunk_step_line _ _ _ c.1 (10 :: c.2 ++ crlf ++ rest)); try (done || lia).
  2: { rewrite Hs. unfold chunk_text. by rewrite <- !app_assoc. }
  cbv zeta. rewrite Hb2, Hv.
  rewrite (proj2 (Z.ltb_ge _ _)) by (rewrite zlen_app, chunk_text_zlen; lia).
  by rewrite (proj2 (Z.eqb_neq _ _)) by lia.
Qed.

(** ... the empty one ends the body, ... *)
Lemma chunk_step_last r pre c rest :
  placed r → b_str r = pre ++ chunk_text c ++ rest → chunk_ok c → c.2 = [] →
  zlen (pre ++ chunk_text c) <= b_length r →
  let p := zlen (pre ++ chunk_text c) in
  chunk_step base r (zlen pre) = Some (Return OSW_OK
    (set_flags (moved r (u32 (p - header_length_ r)) p) (header_parsed r) true (keep_alive r)
       (chunked r) (nobody_chunked r))).
Proof.
  intros Hp Hs Hc Hd Hl p. pose proof (chunk_bounds _ _ _ _ Hp Hs Hc) as (Hb & _ & Hb2 & Hb3).
  destruct Hc as (Hne & Hh & Hv), Hp as (?&?&?&?). 
  rewrite zlen_app, chunk_text_zlen in Hl. zl_nonneg.
  rewrite (chunk_step_line _ _ _ c.1 (10 :: c.2 ++ crlf ++ rest)); try (done || lia).
  2: { rewrite Hs. unfold chunk_text. by rewrite <- !app_assoc. }
  cbv zeta. rewrite Hb2, Hv, Hd.
  by rewrite (proj2 (Z.ltb_ge _ _)) by (rewrite zlen_app, chunk_text_zlen; lia).
Qed.

(** ... and a chunk of which only a part has arrived, less than three bytes or more than the digits
    of its size, is left for the next call. *)
Lemma chunk_step_wait r pre c rest :
  placed r → chunk_ok c → base + zlen (pre ++ chunk_text c) < 2 ^ 64 →
  (b_length r < zlen pre + 3 ∨ zlen pre + zlen c.1 < b_length r ∧ b_str r = pre ++ c.1 ++ 13 :: rest) →
  zlen pre <= b_length r < zlen (pre ++ chunk_text c) →
  ∃ len, chunk_step base r (zlen pre) = Some (Return OSW_ERR (moved r len (b_offset r))).
Proof.
  intros (?&?&?&?) (Hne & Hh & Hv) Hfit Hl Hin. zl_nonneg.
  destruct (decide (b_length r - zlen pre < 3)).
  { exists (content_length_ r). unfold chunk_step. rewrite u64_small by lia.
    rewrite (proj2 (Z.ltb_lt _ _)) by lia. by destruct r. }
  destruct Hl as [?|[Hl Hs]]; [lia|]. rewrite zlen_app, chunk_text_zlen in *. zl_nonneg.
  rewrite (chunk_step_line _ _ _ c.1 rest); try (done || lia).
  cbv zeta. rewrite Hv. rewrite u64_small by lia. rewrite (proj2 (Z.ltb_lt _ _)) by lia. by eexists.
Qed.

(** The complete chunks in front are skipped one by one. *)
Lemma chunk_loop_skip cs n r pre rest :
  placed r → b_str r = pre ++ concat (chunk_text <$> cs) ++ rest →
  Forall (λ c, chunk_ok c ∧ c.2 ≠ []) cs → b_offset r = zlen pre →
  zlen (pre ++ concat (chunk_text <$> cs)) <= b_length r →
  let p := zlen (pre ++ concat (chunk_text <$> cs)) in
  ∃ len, chunk_loop (length cs + n) base r (zlen pre) = chunk_loop n base (moved r len p) p.
Proof.
  revert r pre. induction cs as [|c cs IH]; intros r pre Hp Hs Hc Ho Hl p; unfold p in *; clear p;
    cbn [fmap list_fmap concat length] in *.
  { exists (content_length_ r). rewrite app_nil_r in *. rewrite <- Ho. by destruct r. }
  apply Forall_cons in Hc as [[Hc Hd] Hcs]. rewrite <- app_assoc in Hs.
  assert (zlen (pre ++ chunk_text c) <= b_length r) as Hl'.
  { rewrite app_assoc, zlen_app in Hl. zl_nonneg. lia. }
  replace (S (length cs) + n)%nat with (S (length cs + n)) by lia.
  cbn [chunk_loop]. rewrite (chunk_step_skip _ _ _ _ Hp Hs Hc Hd Hl'). cbn [mbind option_bind].
  set (r1 := moved r _ _).
  destruct (IH r1 (pre ++ chunk_text c)) as [len E]; try done.
  - by rewrite <- app_assoc.
  - by rewrite <- app_assoc.
  - exists len. rewrite E, <- app_assoc. done.
Qed.
End ChunkedBody.

(** The received bytes [take n b] begin with [f]. *)
Lemma received_front (b f x : bytes) n :
  take n b `prefix_of` f ++ x → (length f <= n)%nat → (n <= length b)%nat → ∃ y, b = f ++ y.
Proof.
  intros [k Hk] Hf Hn. exists (drop (length f) b). rewrite <- (take_drop (length f) b) at 1. f_equal.
  apply (f_equal (take (length f))) in Hk. rewrite take_app_length in Hk.
  rewrite take_app_le in Hk by (rewrite length_take; lia). rewrite take_take, Nat.min_l in Hk by lia. done.
Qed.

(** C37. Chunked bodies are measured whatever the receipts.  The bytes received so far are a prefix
    of a stream: what lies in front of the search, complete chunks with data, one more chunk and
    anything behind; what the rest of the memory holds does not matter.  When the last chunk is
    empty and received, the result is [OSW_OK], after as many iterations as there are chunks, with
    the offset at the end of the body.  When the received bytes end inside that chunk, with less than
    three bytes of it or with the CR of its size line, the result is [OSW_ERR] without a protocol
    error, and the offset is that chunk's start, where the next call goes on.  (A receipt that ends
    between the third digit of a size and its CR is taken for a protocol error: see
    [cut_size_line].)  The body ends inside the address space. *)
Theorem chunked_body_measured base r pre cs last rest :
  placed base r → take (Z.to_nat (b_length r)) (b_str r) `prefix_of` pre ++ concat (chunk_text <$> cs) ++ chunk_text last ++ rest →
  Forall (λ c, chunk_ok c ∧ c.2 ≠ []) cs → chunk_ok last → b_offset r = zlen pre →
  0 <= header_length_ r <= zlen pre →
  let front := pre ++ concat (chunk_text <$> cs) in
  let body_end := zlen (front ++ chunk_text last) in
  base + body_end < 2 ^ 64 →
  (last.2 = [] → body_end <= b_length r →
     ∃ r', get_chunked_body_length (length cs) base r = Some (Return OSW_OK r') ∧
       known_length r' = true ∧ b_offset r' = body_end ∧
       content_length_ r' = body_end - header_length_ r ∧ excepted r' = excepted r) ∧
  (zlen front <= b_length r < body_end → b_length r < zlen front + 3 ∨ zlen front + zlen last.1 < b_length r →
     ∃ r', get_chunked_body_length (length cs) base r = Some (Return OSW_ERR r') ∧
       b_offset r' = zlen front ∧ b_str r' = b_str r ∧ header_length_ r' = header_length_ r ∧
       excepted r' = excepted r).
Proof.
  intros Hp Hs Hcs Hlast Ho Hh front body_end Hsp. unfold get_chunked_body_length. rewrite Ho.
  pose proof Hp as (Hb0 & Hb1 & Hb2 & Hb3).
  assert (∀ f x, pre ++ concat (chunk_text <$> cs) ++ chunk_text last ++ rest = f ++ x → zlen f <= b_length r →
    ∃ y, b_str r = f ++ y) as Hfront.
  { intros f x E Hf. apply (received_front _ f x (Z.to_nat (b_length r))); unfold zlen in *; [by rewrite <- E|lia|lia]. }
  assert (zlen front <= b_length r → ∃ len,
    chunk_loop (length cs) base r (zlen pre) = chunk_loop 0 base (moved r len (zlen front)) (zlen front))
    as Hskip.
  { intros Hl. destruct (Hfront front (chunk_text last ++ rest)) as [y Hy]; [unfold front; by rewrite <- app_assoc|done|].
    destruct (chunk_loop_skip base cs 0 r pre y) as [len E]; try done; [by rewrite Hy; unfold front; rewrite <- app_assoc|].
    rewrite Nat.add_0_r in E. by exists len. }
  assert (zlen front <= body_end) as Hend by (unfold body_end; rewrite zlen_app; zl_nonneg; lia).
  split.
  - intros Hd Hl. destruct Hskip as [len ->]; [lia|]. cbn [chunk_loop].
    destruct (Hfront (front ++ chunk_text last) rest) as [y Hy]; [unfold front; by rewrite <- !app_assoc|done|].
    rewrite <- app_assoc in Hy. rewrite (chunk_step_last base _ front last y) by done. cbn [mbind option_bind].
    eexists. split; [done|]. cbn. split_and!; try done. apply u32_small.
    fold body_end. assert (zlen pre <= zlen front) by (unfold front; rewrite zlen_app; zl_nonneg; lia). lia.
  - intros Hin Hl. destruct Hskip as [len ->]; [lia|]. cbn [chunk_loop].
    assert (∃ y, b_length r < zlen front + 3 ∨ zlen front + zlen last.1 < b_length r ∧ b_str r = front ++ last.1 ++ 13 :: y) as [y Hy].
    { destruct Hl as [?|Hl]; [exists []; by left|].
      destruct (Hfront (front ++ last.1 ++ [13]) (10 :: last.2 ++ crlf ++ rest)) as [y Hy].
      - unfold front, chunk_text, crlf. by rewrite <- !app_assoc.
      - rewrite !zlen_app. change (zlen [13]) with 1. lia.
      - exists y. right. split; [done|]. by rewrite Hy, <- !app_assoc. }
    destruct (chunk_step_wait base (moved r len (zlen front)) front last y) as [len' ->]; try done.
    cbn [mbind option_bind]. by eexists.
Qed.

(** The size line [100] of a chunk, received without its CR: the byte behind the received ones is
    taken for the end of the number, and the request is refused. *)
Example cut_size_line :
  (match get_chunked_body_length 0 4096 (new_request 3 (lit "100" ++ [0; 0; 0; 0])) with
   | Some (Return ret r) => Some (ret, excepted r) | _ => None end) = Some (OSW_ERR, true).
Proof. by vm_compute. Qed.

Definition chunk_stream : bytes := lit "HEAD" ++ lit "3" ++ crlf ++ lit "abc" ++ crlf ++ lit "0" ++ crlf ++ crlf.

(** A buffer of 32 bytes with the first [n] bytes of the stream. *)
Definition chunk_example (n : Z) : Request :=
  set_offset (set_lengths (new_request n (take (Z.to_nat n) chunk_stream ++ repeat 0 (32 - Z.to_nat n))) 0 4 0) 4.

Lemma chunked_body_measured_witness :
  (∃ r', get_chunked_body_length 1 4096 (chunk_example 17) = Some (Return OSW_OK r') ∧
     b_offset r' = 17) ∧
  (∃ r', get_chunked_body_length 1 4096 (chunk_example 15) = Some (Return OSW_ERR r') ∧
     b_offset r' = 12).
Proof.
  assert (Forall (λ c, chunk_ok c ∧ c.2 ≠ []) [(lit "3", lit "abc")]) as Hcs.
  { constructor; [|constructor]. split; [|done]. split_and!; [done|by repeat constructor|done]. }
  assert (chunk_ok (lit "0", [])) as Hl by (split_and!; [done|by repeat constructor|done]).
  split.
  - destruct (chunked_body_measured 4096 (chunk_example 17) (lit "HEAD") [(lit "3", lit "abc")]
      (lit "0", []) []) as [H _]; [by vm_compute|by exists []|done..|by vm_compute|by vm_compute|].
    destruct H as (r'&?&_&?&_); [done|by vm_compute|]. by exists r'.
  - destruct (chunked_body_measured 4096 (chunk_example 15) (lit "HEAD") [(lit "3", lit "abc")]
      (lit "0", []) []) as [_ H]; [by vm_compute|by exists (drop 15 chunk_stream)|done..|by vm_compute|by vm_compute|].
    destruct H as (r'&?&?&_); [by vm_compute|right; by vm_compute|]. by exists r'.
Defined.

Lemma chunk_loop_stuck fuel base r p :
  (∀ len o, ∃ len' o', chunk_step base (moved r len o) p = Some (Continue (moved r len' o') p)) →
  ∀ len o, ∃ len' o', chunk_loop fuel base (moved r len o) p = Some (Continue (moved r len' o') p).
Proof.
  intros H. induction fuel as [|fuel IH]; intros len o; cbn [chunk_loop];
    destruct (H len o) as (len1 & o1 & ->); cbn [mbind option_bind]; eauto.
Qed.

(** A chunk size that wraps the address space keeps the search in place for
    ever: a size line whose value is [2^64] minus the length of the line and of
    the two line ends moves [p] to where it was, the test against the end of the
    buffer passes, and no number of iterations returns.  The peer sends 18 bytes. *)
Theorem chunked_length_loops fuel base r pre h rest :
  placed base r → b_str r = pre ++ h ++ 13 :: rest → h ≠ [] → Forall (λ x, isxdigit x = true) h →
  hexval 0 h = 2 ^ 64 - (zlen h + 4) → b_offset r = zlen pre →
  3 <= b_length r - zlen pre →
  ∃ r', get_chunked_body_length fuel base r = Some (Continue r' (b_offset r)).
Proof.
  intros (H0 & H1 & H2 & H3) Hs Hne Hh Hv Ho Hl. pose proof (zlen_pos _ Hne).
  assert (zlen (b_str r) = zlen pre + (zlen h + (1 + zlen rest))) as Hz
    by by rewrite Hs, !zlen_app, zlen_cons.
  zl_nonneg.
  unfold get_chunked_body_length. rewrite Ho.
  destruct (chunk_loop_stuck fuel base r (zlen pre)) with (len := content_length_ r) (o := b_offset r)
    as (len' & o' & E).
  2: { exists (moved r len' o'). rewrite <- E. by destruct r. }
  intros len o. do 2 eexists. rewrite (chunk_step_line _ _ pre h rest) by (done || cbn; lia).
  assert (u64 (base + zlen pre + zlen h + 4 + hexval 0 h) - base = zlen pre) as E.
  { rewrite Hv. replace (base + zlen pre + zlen h + 4 + (2 ^ 64 - (zlen h + 4)))
      with (base + zlen pre + 1 * 2 ^ 64) by lia.
    unfold u64, wrap. rewrite Z.mod_add by lia. rewrite Z.mod_small by lia. lia. }
  cbv zeta. rewrite E. cbn [moved set_offset set_lengths b_length].
  rewrite (proj2 (Z.ltb_ge _ _)) by lia. rewrite (proj2 (Z.eqb_neq _ _)) by lia. done.
Qed.

Definition loop_example : Request :=
  set_offset (new_request 22 (lit "HEAD" ++ lit "FFFFFFFFFFFFFFEC" ++ crlf)) 4.

Lemma chunked_length_loops_witness :
  (∃ r', get_chunked_body_length 100 140737488347136 loop_example = Some (Continue r' 4)).
Proof.
  apply (chunked_length_loops 100 140737488347136 loop_example (lit "HEAD")
    (lit "FFFFFFFFFFFFFFEC") [10]); try done; by repeat constructor || by vm_compute.
Defined.

(** A size line cut behind its third digit is a protocol error, since the search
    reads the bytes behind the received ones. *)
Example chunk_size_split_rejected :
  ∃ r', get_chunked_body_length 1 4096
    (set_offset (new_request 8 (lit "HEAD" ++ lit "1000" ++ replicate 8 0)) 4) = Some (Return OSW_ERR r') ∧
    excepted r' = true.
Proof. eexists. split; vm_compute; reflexivity. Qed.

(** ** The request line: proofs *)

(** The buffer holds the beginning of the stream [s]. *)
Definition agrees (r : Request) (s : bytes) : Prop :=
  0 <= b_length r <= zlen (b_str r) ∧ b_length r <= zlen s ∧
  take (Z.to_nat (b_length r)) (b_str r) = take (Z.to_nat (b_length r)) s.

Lemma agrees_at r s p : agrees r s → p < b_length r → at_ (b_str r) p = at_ s p.
Proof.
  intros (H1 & H2 & H3) Hp. destruct (decide (0 <= p)).
  - rewrite <- (at_take (b_str r) (Z.to_nat (b_length r))), <- (at_take s (Z.to_nat (b_length r))) by lia.
    by rewrite H3.
  - unfold at_. by rewrite (proj2 (Z.leb_gt _ _)) by lia.
Qed.

Lemma agrees_load r s p n : agrees r s → 0 <= p → 0 <= n → p + n <= b_length r → load (b_str r) p n = load s p n.
Proof.
  intros (H1 & H2 & H3) ???.
  rewrite <- (load_take (b_str r) (Z.to_nat (b_length r))), <- (load_take s (Z.to_nat (b_length r))) by lia.
  by rewrite H3.
Qed.

Lemma agrees_memeq r s p x : agrees r s → 0 <= p → p + zlen x <= b_length r → memeq (b_str r) p x = memeq s p x.
Proof. intros H ??. unfold memeq. zl_nonneg. by rewrite (agrees_load r s) by (done || lia). Qed.

Definition request_line (m url v : bytes) : bytes := m ++ 32 :: url ++ 32 :: v.
Definition line_ok (m url v : bytes) : Prop :=
  m ∈ fst <$> methods ∧ url ≠ [] ∧ Forall (λ c, isspace c = false) url ∧
  (v = lit "HTTP/1.1" ∨ v = lit "HTTP/1.0").

(** What the request line's parser leaves alone. *)
Definition same_rest (r r' : Request) : Prop :=
  method r' = method r ∧ excepted r' = excepted r ∧ header_parsed r' = header_parsed r ∧
  known_length r' = known_length r ∧ keep_alive r' = keep_alive r ∧ chunked r' = chunked r ∧
  nobody_chunked r' = nobody_chunked r ∧ header_length_ r' = header_length_ r ∧
  content_length_ r' = content_length_ r ∧ b_length r' = b_length r ∧ b_str r' = b_str r.

Lemma same_rest_trans r1 r2 r3 : same_rest r1 r2 → same_rest r2 r3 → same_rest r1 r3.
Proof. unfold same_rest. intros H1 H2. decompose [and] H1. decompose [and] H2. split_and!; congruence. Qed.

(** Its outcome for a line that ends at [e]: it stops at the end of the line or
    eight bytes behind the received ones, which is not behind the line, or asks for
    more bytes. *)
Definition line_outcome (r r' : Request) (ret e : Z) : Prop :=
  same_rest r r' ∧
  ((ret = OSW_OK ∧ b_offset r' = request_line_length_ r' ∧ 0 <= b_offset r' <= e) ∨
   (ret = OSW_ERR ∧ b_offset r' = b_offset r ∧ request_line_length_ r' = request_line_length_ r ∧
    b_length r < e)).

Lemma version_at pre (v : bytes) rest x : length v = length x →
  memeq (pre ++ v ++ rest) (zlen pre) x = Some (bool_decide (v = x)).
Proof. intros Hv. unfold memeq. rewrite (load_mid pre v rest); [done|done|]. unfold zlen. lia. Qed.

Section RequestLine.
Context (s : bytes).

(** Behind the second space. *)
Lemma line_loop_version fuel r pre v rest :
  agrees r s → s = pre ++ v ++ rest → v = lit "HTTP/1.1" ∨ v = lit "HTTP/1.0" →
  zlen pre <= b_length r → (0 < fuel)%nat →
  ∃ ret r', line_loop fuel r (zlen pre) 2 = Some (ret, r') ∧ line_outcome r r' ret (zlen pre + 8).
Proof.
  intros Ha Hs Hv Hp Hf. destruct fuel as [|fuel]; [lia|]. cbn [line_loop]. zl_nonneg.
  destruct (Z.ltb_spec (zlen pre) (b_length r)) as [Hlt|].
  2: { do 2 eexists. split; [done|]. split; [by split_and!|]. left. cbn. split_and!; lia. }
  assert (zlen v = 8) as Hv8 by (by destruct Hv as [-> | ->]).
  assert (at_ s (zlen pre) = Some 72) as Hat.
  { rewrite Hs. destruct Hv as [-> | ->]; apply (at_prefix pre 72). }
  rewrite (agrees_at r s) by done. rewrite Hat. cbn [mbind option_bind]. change (isspace 72) with false. cbn iota.
  destruct (Z.ltb_spec (b_length r - zlen pre) 8).
  { do 2 eexists. split; [done|]. split; [by split_and!|]. right. split_and!; try done. lia. }
  rewrite !(agrees_memeq r s) by (done || (change (zlen (lit _)) with 8; lia)).
  rewrite Hs, !version_at by (by destruct Hv as [-> | ->]).
  destruct Hv as [-> | ->]; cbn [mbind option_bind].
  - rewrite bool_decide_eq_true_2 by done. do 2 eexists. split; [done|]. split; [by split_and!|].
    left. cbn. split_and!; lia.
  - rewrite bool_decide_eq_false_2 by done. cbn [mbind option_bind]. rewrite bool_decide_eq_true_2 by done.
    do 2 eexists. split; [done|]. split; [by split_and!|]. left. cbn. split_and!; lia.
Qed.

(** Inside the URL. *)
Lemma line_loop_url u : ∀ fuel r pre v rest,
  agrees r s → s = pre ++ u ++ 32 :: v ++ rest → v = lit "HTTP/1.1" ∨ v = lit "HTTP/1.0" →
  Forall (λ c, isspace c = false) u → zlen pre <= b_length r →
  b_length r - zlen pre < Z.of_nat fuel →
  ∃ ret r', line_loop fuel r (zlen pre) 1 = Some (ret, r') ∧
    line_outcome r r' ret (zlen pre + zlen u + 1 + 8).
Proof.
  induction u as [|c u IH]; intros fuel r pre v rest Ha Hs Hv Hu Hp Hf; zl_nonneg;
    (destruct fuel as [|fuel]; [lia|]); cbn [line_loop];
    (destruct (Z.ltb_spec (zlen pre) (b_length r)) as [Hlt|];
      [|do 2 eexists; split; [done|]; split; [by split_and!|]; left; cbn; split_and!; rewrite ?zlen_cons; lia]);
    rewrite (agrees_at r s) by done; rewrite Hs; cbn [app]; rewrite at_prefix; cbn [mbind option_bind].
  - change (isspace 32) with true. change (1 =? 0) with false. change (1 =? 1) with true. cbn iota.
    destruct (line_loop_version fuel (set_url r (url_offset_ r) (zlen pre - url_offset_ r)) (pre ++ [32]) v rest)
      as (ret & r' & E & [Hsame Hout]); try done.
    + rewrite Hs. by rewrite <- app_assoc.
    + cbn [b_length set_url]. zl.
    + lia.
    + exists ret, r'. replace (zlen pre + 1) with (zlen (pre ++ [32])) by zl. split; [exact E|].
      replace (zlen pre + zlen [] + 1 + 8) with (zlen (pre ++ [32]) + 8) by zl.
      split; [|exact Hout]. eapply same_rest_trans; [|done]. by split_and!.
  - apply Forall_cons in Hu as [Hc Hu]. rewrite Hc. change (1 =? 0) with false. change (1 =? 1) with true. cbn iota.
    destruct (IH fuel r (pre ++ [c]) v rest) as (ret & r' & E & Hout); try done.
    + rewrite Hs. by rewrite <- app_assoc.
    + zl.
    + zl.
    + exists ret, r'. replace (zlen pre + 1) with (zlen (pre ++ [c])) by zl. split; [exact E|].
      replace (zlen pre + zlen (c :: u) + 1 + 8) with (zlen (pre ++ [c]) + zlen u + 1 + 8) by zl. done.
Qed.
(** From the end of the method on. *)
Lemma line_loop_spec fuel r m url v rest :
  agrees r s → s = request_line m url v ++ rest → url ≠ [] → Forall (λ c, isspace c = false) url →
  v = lit "HTTP/1.1" ∨ v = lit "HTTP/1.0" → 0 < zlen m → zlen m + 2 <= b_length r →
  b_length r <= Z.of_nat fuel →
  ∃ ret r', line_loop fuel r (zlen m) 0 = Some (ret, r') ∧
    line_outcome r r' ret (zlen (request_line m url v)).
Proof.
  intros Ha Hs Hne Hu Hv Hm Hp Hf. destruct url as [|c u]; [done|]. apply Forall_cons in Hu as [Hc Hu].
  zl_nonneg. destruct fuel as [|[|fuel]]; [lia..|]. unfold request_line in Hs.
  assert (s = (m ++ [32]) ++ c :: u ++ 32 :: v ++ rest) as Hs1 by (rewrite Hs; app_eq).
  assert (at_ s (zlen m) = Some 32) as H32 by (rewrite Hs1, <- app_assoc; apply at_prefix).
  assert (at_ s (zlen m + 1) = Some c) as Hat
    by (rewrite Hs1; replace (zlen m + 1) with (zlen (m ++ [32])) by zl; apply at_prefix).
  cbn [line_loop]. rewrite !(proj2 (Z.ltb_lt _ _)) by lia.
  rewrite !(agrees_at r s) by (done || lia). rewrite H32, Hat. cbn [mbind option_bind].
  change (isspace 32) with true. rewrite Hc. change (0 =? 0) with true. cbn iota.
  destruct (line_loop_url u fuel (set_url r (zlen m + 1) (url_length_ r)) (m ++ [32] ++ [c]) v rest)
    as (ret & r' & E & [Hsame Hout]); try done.
  - rewrite Hs1. app_eq.
  - cbn [b_length set_url]. zl.
  - cbn [b_length set_url]. zl.
  - exists ret, r'. replace (zlen m + 1 + 1) with (zlen (m ++ [32] ++ [c])) by zl. split; [exact E|].
    replace (zlen (request_line m (c :: u) v)) with (zlen (m ++ [32] ++ [c]) + zlen u + 1 + 8).
    + split; [|exact Hout]. eapply same_rest_trans; [|done]. by split_and!.
    + unfold request_line. assert (zlen v = 8) by (by destruct Hv as [-> | ->]). zl.
Qed.
End RequestLine.

(** No method is a prefix of another one. *)
Definition prefix_of (a b : bytes) : bool := bool_decide (take (length a) b = a).
Lemma methods_prefix_free :
  Forall (λ x, Forall (λ y, x.1 = y.1 ∨ prefix_of x.1 y.1 = false ∧ prefix_of y.1 x.1 = false) methods)
    methods ∧ Forall (λ x, (3 <= length x.1 <= 9)%nat ∧ 0 < x.2 < OSW_HTTP_PRI) methods.
Proof.
  split; repeat (apply Forall_cons; split); try apply Forall_nil;
    try (first [left; reflexivity|right; split; reflexivity]); split; vm_compute; lia || split; lia || done.
Qed.

Lemma take_prefix (a b x : bytes) :
  take (length a) x = a → take (length b) x = b → prefix_of a b = true ∨ prefix_of b a = true.
Proof.
  intros Ha Hb. destruct (decide (length a <= length b)%nat); [left|right];
    apply bool_decide_eq_true_2.
  - rewrite <- Hb, take_take. by rewrite Nat.min_l by done.
  - rewrite <- Ha, take_take. by rewrite Nat.min_l by lia.
Qed.

Lemma memeq_prefix x s : zlen s <= zlen x → memeq x 0 s = Some (bool_decide (take (length s) x = s)).
Proof.
  intros Hl. unfold memeq. zl_nonneg. rewrite load_Some by lia. cbn [mbind option_bind].
  change (Z.to_nat 0) with 0%nat. rewrite drop_0. unfold zlen. by rewrite Nat2Z.id.
Qed.

(** The method in front of a stream of at least sixteen bytes is recognised. *)
Lemma match_method_spec x m code rest :
  x = m ++ rest → (m, code) ∈ methods → 16 <= zlen x →
  match_method x methods = Some (Some (code, zlen m)).
Proof.
  intros Hx Hin Hl. destruct methods_prefix_free as [Hpf Hlen].
  assert (take (length m) x = m) as Hm by (rewrite Hx; apply take_app_length).
  assert (∀ ms, (∀ y, y ∈ ms → y ∈ methods) → (m, code) ∈ ms → NoDup (fst <$> ms) →
    match_method x ms = Some (Some (code, zlen m))) as H.
  2: { apply H; [done|done|]. apply (bool_decide_unpack _). by vm_compute. }
  induction ms as [|[y cy] ms IH]; intros Hsub Hms Hnd; [by apply elem_of_nil in Hms|].
  cbn [fmap list_fmap fst] in Hnd. apply NoDup_cons in Hnd as [Hy Hnd]. cbn [match_method].
  assert ((y, cy) ∈ methods) as Hym by (apply Hsub; apply elem_of_cons; by left).
  rewrite Forall_forall in Hlen. pose proof (Hlen _ Hym) as [Hly _]. cbn [fst] in Hly.
  rewrite memeq_prefix by (unfold zlen in *; lia). cbn [mbind option_bind].
  apply elem_of_cons in Hms as [[= <- <-]|Hms].
  { rewrite bool_decide_eq_true_2 by done. done. }
  rewrite bool_decide_eq_false_2; [apply IH; [set_solver|done|done]|].
  intros Hty. rewrite Forall_forall in Hpf. pose proof (Hpf _ Hym) as Hpf'. rewrite Forall_forall in Hpf'.
  destruct (Hpf' _ Hin) as [E|[E1 E2]]; cbn [fst] in *.
  - apply Hy. rewrite E. apply list_elem_of_fmap. by exists (m, code).
  - destruct (take_prefix y m x Hty Hm); congruence.
Qed.

(** The parser of the request line on any received part of at least sixteen bytes. *)
Lemma get_protocol_spec r s m url v rest :
  agrees r s → s = request_line m url v ++ rest → line_ok m url v → 16 <= b_length r →
  ∃ ret r' code, get_protocol r = Some (ret, r') ∧ 0 < code < OSW_HTTP_PRI ∧
    line_outcome (set_method r code) r' ret (zlen (request_line m url v)).
Proof.
  intros Ha Hs (Hm & Hne & Hu & Hv) Hl. unfold get_protocol. rewrite (proj2 (Z.ltb_ge _ _)) by lia.
  apply list_elem_of_fmap in Hm as ([m' code] & -> & Hm). cbn [fst] in *.
  destruct methods_prefix_free as [_ Hlen]. rewrite Forall_forall in Hlen. specialize (Hlen _ Hm) as [Hlm Hcode].
  cbn [fst snd] in *.
  assert (∃ rest', b_str r = m' ++ rest') as [rest' Hb].
  { exists (drop (length m') (b_str r)). rewrite <- (take_drop (length m') (b_str r)) at 1. f_equal.
    destruct Ha as (H1 & H2 & H3).
    replace (take (length m') (b_str r)) with (take (length m') (take (Z.to_nat (b_length r)) (b_str r)))
      by (rewrite take_take; f_equal; lia).
    rewrite H3, take_take, Nat.min_l by lia. rewrite Hs. unfold request_line.
    rewrite <- app_assoc. apply take_app_length. }
  rewrite (match_method_spec (b_str r) m' code rest' Hb Hm) by (destruct Ha as (? & _); lia).
  cbn [mbind option_bind].
  destruct (line_loop_spec s (Z.to_nat (b_length r)) (set_method r code) m' url v rest)
    as (ret & r' & E & Hout); try done.
  - unfold zlen. lia.
  - cbn. unfold zlen. lia.
  - cbn. lia.
  - exists ret, r', code. done.
Qed.

(** ** The header fields: proofs *)

Lemma strncaseeq_total m p s : 0 <= p → p + zlen s <= zlen m → is_Some (strncaseeq m p s).
Proof.
  revert p. induction s as [|c s IH]; intros p Hp Hl; cbn [strncaseeq]; [by eexists|].
  rewrite zlen_cons in Hl. zl_nonneg. destruct (at_inside m p) as [d ->]; [lia|].
  cbn [mbind option_bind]. destruct (_ =? _); [apply IH; lia|by eexists].
Qed.

Lemma strcasect_total m p plen s :
  0 <= p → p + plen <= zlen m → ∃ b, openswoole_strcasect m p plen s = Some b.
Proof.
  intros Hp Hl. unfold openswoole_strcasect. destruct (Z.leb_spec (zlen s) plen); [|by eexists].
  apply strncaseeq_total; lia.
Qed.

Lemma strncaseeq_ext m m' p s :
  (∀ i, p <= i < p + zlen s → at_ m i = at_ m' i) → strncaseeq m p s = strncaseeq m' p s.
Proof.
  revert p. induction s as [|c s IH]; intros p He; cbn [strncaseeq]; [done|]. rewrite zlen_cons in He. zl_nonneg.
  rewrite (He p) by lia. destruct (at_ m' p); [|done]. cbn [mbind option_bind].
  destruct (_ =? _); [|done]. apply IH. intros i Hi. apply He. lia.
Qed.

Lemma strcasect_ext m m' p plen s :
  (∀ i, p <= i < p + plen → at_ m i = at_ m' i) →
  openswoole_strcasect m p plen s = openswoole_strcasect m' p plen s.
Proof.
  intros He. unfold openswoole_strcasect. destruct (Z.leb_spec (zlen s) plen); [|done].
  apply strncaseeq_ext. intros i Hi. apply He. lia.
Qed.

Lemma skip_spaces_spec m q : ∀ fuel p,
  0 <= p <= q → at_ m q = Some 13 → q - p < Z.of_nat fuel → ∃ p', skip_spaces fuel m p = Some p' ∧ p <= p' <= q.
Proof.
  induction fuel as [|fuel IH]; intros p Hp Hq Hf; [lia|]. cbn [skip_spaces].
  destruct (at_ m p) as [c|] eqn:E.
  - cbn [mbind option_bind]. destruct (Z.eqb_spec c 32) as [->|]; [|exists p; split; [done|lia]].
    destruct (decide (p = q)) as [->|]; [congruence|].
    destruct (IH (p + 1)) as (p' & -> & ?); [lia|done|lia|]. exists p'. split; [done|lia].
  - exfalso. apply at_bounds in Hq. destruct (at_inside m p) as [c Hc]; [lia|congruence].
Qed.

(** A header of [h] bytes without a field that announces a body. *)
Definition no_body (s : bytes) (h : Z) : Prop :=
  ∀ p, 2 <= p < h - 4 → at_ s (p - 1) = Some 10 → at_ s (p - 2) = Some 13 →
    openswoole_strcasect s p (h - 4 - p) (lit "Content-Length:") = Some false ∧
    openswoole_strcasect s p (h - 4 - p) (lit "Transfer-Encoding:") = Some false.

Lemma header_field_plain r p h :
  zlen (b_str r) < 2 ^ 63 → no_body (b_str r) h → at_ (b_str r) (h - 4) = Some 13 →
  2 <= p < h - 4 → at_ (b_str r) (p - 1) = Some 10 → at_ (b_str r) (p - 2) = Some 13 →
  ∃ k p', header_field r p (h - 4) =
    Some (set_flags r (header_parsed r) (known_length r) k (chunked r) (nobody_chunked r), p') ∧ p <= p' <= h - 4.
Proof.
  intros Hb Hn Hcr Hp H1 H2. destruct (Hn p Hp H1 H2) as [Hc Ht]. unfold header_field.
  pose proof (at_bounds _ _ _ Hcr) as [_ Hh].
  rewrite u64_small by lia. rewrite Hc. cbn [mbind option_bind].
  destruct (strcasect_total (b_str r) p (h - 4 - p) (lit "Connection:")) as [b Eb]; [lia..|]. rewrite Eb.
  cbn [mbind option_bind]. destruct b.
  - assert (p + 11 <= h - 4) as H11.
    { unfold openswoole_strcasect in Eb. change (zlen (lit "Connection:")) with 11 in Eb.
      destruct (Z.leb_spec 11 (h - 4 - p)); [lia|done]. }
    destruct (skip_spaces_spec (b_str r) (h - 4) (S (length (b_str r))) (p + 11)) as (p' & -> & Hp');
      [lia|done|unfold zlen in Hh; lia|]. cbn [mbind option_bind]. rewrite u64_small by lia.
    destruct (strcasect_total (b_str r) p' (h - 4 - p') (lit "keep-alive")) as [b' ->]; [lia..|].
    cbn [mbind option_bind]. do 2 eexists. split; [done|lia].
  - rewrite Ht. cbn [mbind option_bind]. exists (keep_alive r), p. split; [by destruct r|lia].
Qed.

Lemma header_loop_plain fuel : ∀ r p h,
  zlen (b_str r) < 2 ^ 63 → no_body (b_str r) h → at_ (b_str r) (h - 4) = Some 13 →
  2 <= p → h - 4 - p < Z.of_nat fuel →
  ∃ k, header_loop fuel r p (h - 4) =
    Some (set_flags r (header_parsed r) (known_length r) k (chunked r) (nobody_chunked r)).
Proof.
  induction fuel as [|fuel IH]; intros r p h Hb Hn Hcr Hp Hf; cbn [header_loop];
    (destruct (Z.ltb_spec p (h - 4)) as [Hlt|];
      [|exists (keep_alive r); by destruct r]); [lia|].
  assert (∀ i, 0 <= i <= h - 4 → ∃ c, at_ (b_str r) i = Some c) as Hat.
  { intros i Hi. apply at_inside. apply at_bounds in Hcr. lia. }
  destruct (Hat (p - 1)) as [c1 E1]; [lia|]. destruct (Hat (p - 2)) as [c2 E2]; [lia|].
  rewrite E1, E2. cbn [mbind option_bind].
  destruct (Z.eqb_spec c1 10) as [->|], (Z.eqb_spec c2 13) as [->|]; cbn [andb]; try (apply IH; (done || lia)).
  destruct (header_field_plain r p h) as (k & p' & -> & Hp'); try done. cbn [mbind option_bind].
  destruct (IH (set_flags r (header_parsed r) (known_length r) k (chunked r) (nobody_chunked r)) (p' + 1) h)
    as [k' E]; [done..|lia|lia|].
  exists k'. exact E.
Qed.

(** A header without such a field announces no body. *)
Lemma parse_header_plain r :
  zlen (b_str r) < 2 ^ 63 → no_body (b_str r) (header_length_ r) →
  at_ (b_str r) (header_length_ r - 4) = Some 13 → 0 <= request_line_length_ r →
  known_length r = false → chunked r = false → nobody_chunked r = false →
  ∃ k, parse_header_info r = Some (set_flags r true false k false false).
Proof.
  intros Hb Hn Hcr Hl Hk Hc Hnc. unfold parse_header_info.
  pose proof (at_bounds _ _ _ Hcr) as [_ Hh].
  destruct (header_loop_plain (S (length (b_str r))) r (request_line_length_ r + 2) (header_length_ r))
    as [k E]; try done; [lia|unfold zlen in Hh; lia|].
  rewrite E. cbn. rewrite Hk, Hc, Hnc. by exists k.
Qed.
