(* ===== verification/Coroutine.v ===== *)
(** * The coroutine scheduler: src/coroutine/base.cc, src/coroutine/context.cc,
      include/openswoole_coroutine.h

    A [Coroutine] object holds the scheduler's fields and its [Context].  A context
    is two saved machine continuations: [ctx], where the coroutine goes on when it is
    swapped in, and [swap_ctx], where the code that swapped it in goes on.  A saved
    continuation is valid for one jump; [ctx] records in which function the coroutine
    stopped, since that function's locals live on its stack.  [running] is what the
    machine executes, [None] being the main context (the event loop), as opposed to
    [current], which the scheduler believes.

    [None] is a failed assertion, a jump into a stale continuation or an access to a
    deleted object.  One operation runs until user code goes on: what follows a
    [swap_in] in [resume] or [run] is part of the operation that swaps out.  The swap
    callbacks and [task] belong to the host language and touch none of this; the
    cancel function is the one of [yield_ex]; [bailout] (process exit) is left out. *)

From S2P Require Import Prelude.

Inductive State := STATE_INIT | STATE_WAITING | STATE_RUNNING | STATE_END.
Inductive ResumeCode := RC_OK | RC_TIMEDOUT | RC_CANCELED.
#[export] Instance State_eq_dec : EqDecision State.
Proof. solve_decision. Defined.

(** Where a swapped-out coroutine stopped: before its function, in [yield], or in
    [yield_ex] with its timer. *)
Inductive Frame := InEntry | InYield | InYieldEx (timer : option Z).

Record Coroutine := MkCo {
  state : State; resume_code_ : ResumeCode; cid : Z; origin : option positive;
  cancel_fn_ : bool;
  end_ : bool; ctx : option Frame; swap_ctx : option (option positive) }.

(** What [yield_ex] returned, by the last error it set. *)
Inductive YieldResult := Resumed | CoTimedOut | CoCanceled.

Record Scheduler := MkSched {
  current : option positive; last_cid : Z; coroutines : gmap Z positive; peak_num : Z;
  objects : gmap positive Coroutine; fresh : positive;
  running : option positive;
  timers : gmap Z positive; next_timer : Z;
  results : list (Z * YieldResult) }.

Definition init_sched : Scheduler := MkSched None 0 ∅ 0 ∅ 1 None ∅ 1 [].

Definition set_current (g : Scheduler) (c : option positive) : Scheduler :=
  MkSched c (last_cid g) (coroutines g) (peak_num g) (objects g) (fresh g) (running g)
    (timers g) (next_timer g) (results g).
Definition set_running (g : Scheduler) (c : option positive) : Scheduler :=
  MkSched (current g) (last_cid g) (coroutines g) (peak_num g) (objects g) (fresh g) c
    (timers g) (next_timer g) (results g).
Definition set_object (g : Scheduler) (p : positive) (o : Coroutine) : Scheduler :=
  MkSched (current g) (last_cid g) (coroutines g) (peak_num g) (<[p := o]> (objects g)) (fresh g)
    (running g) (timers g) (next_timer g) (results g).
Definition set_timers (g : Scheduler) (t : gmap Z positive) (n : Z) : Scheduler :=
  MkSched (current g) (last_cid g) (coroutines g) (peak_num g) (objects g) (fresh g) (running g)
    t n (results g).
Definition log (g : Scheduler) (c : Z) (r : YieldResult) : Scheduler :=
  MkSched (current g) (last_cid g) (coroutines g) (peak_num g) (objects g) (fresh g) (running g)
    (timers g) (next_timer g) (results g ++ [(c, r)]).

(** ** Contexts *)

Definition set_ctx (o : Coroutine) (c : option Frame) (s : option (option positive)) : Coroutine :=
  MkCo (state o) (resume_code_ o) (cid o) (origin o) (cancel_fn_ o) (end_ o) c s.

(** [swap_in]: the continuation jumped to. *)
Definition swap_in (g : Scheduler) (p : positive) : option (Frame * Scheduler) :=
  o ← objects g !! p;
  f ← ctx o;
  Some (f, set_running (set_object g p (set_ctx o None (Some (running g)))) (Some p)).

(** [swap_out], called by the code of [p] itself. *)
Definition swap_out (g : Scheduler) (p : positive) (f : Frame) : option Scheduler :=
  if bool_decide (running g = Some p) then
    o ← objects g !! p;
    back ← swap_ctx o;
    Some (set_running (set_object g p (set_ctx o (Some f) None)) back)
  else None.

(** ** Scheduling *)

Definition get_by_cid (g : Scheduler) (c : Z) : option positive := coroutines g !! c.
Definition get_current_cid (g : Scheduler) : option Z :=
  match current g with
  | None => Some (-1)
  | Some p => o ← objects g !! p; Some (cid o)
  end.
Definition get_origin_cid (g : Scheduler) (p : positive) : option Z :=
  o ← objects g !! p;
  match origin o with
  | None => Some (-1)
  | Some q => oq ← objects g !! q; Some (cid oq)
  end.
Definition count (g : Scheduler) : Z := Z.of_nat (size (coroutines g)).
Definition is_suspending (o : Coroutine) : bool := bool_decide (state o = STATE_WAITING).

Definition set_state (o : Coroutine) (s : State) (rc : ResumeCode) (org : option positive)
    (cf : bool) : Coroutine :=
  MkCo s rc (cid o) org cf (end_ o) (ctx o) (swap_ctx o).

(** [close]. *)
Definition close (g : Scheduler) (p : positive) : option Scheduler :=
  if bool_decide (current g = Some p) then
    o ← objects g !! p;
    Some (MkSched (origin o) (last_cid g) (delete (cid o) (coroutines g)) (peak_num g)
            (delete p (objects g)) (fresh g) (running g) (timers g) (next_timer g) (results g))
  else None.

(** [check_end], by the code that swapped [p] in, after [p] swapped out. *)
Definition check_end (g : Scheduler) (p : positive) : option Scheduler :=
  o ← objects g !! p; if end_ o then close g p else Some g.

(** The code that runs when [p] is swapped in: the rest of the function in which it
    stopped. *)
Definition continue_ (g : Scheduler) (p : positive) (f : Frame) : option Scheduler :=
  o ← objects g !! p;
  match f with
  | InEntry | InYield => Some g
  | InYieldEx timer =>
    let g := set_object g p (set_state o (state o) (resume_code_ o) (origin o) false) in
    match resume_code_ o with
    | RC_TIMEDOUT => Some (log g (cid o) CoTimedOut)
    | rc =>
      let g := match timer with
               | Some t => set_timers g (delete t (timers g)) (next_timer g)
               | None => g
               end in
      Some (log g (cid o) (match rc with RC_CANCELED => CoCanceled | _ => Resumed end))
    end
  end.

(** [Coroutine::create]: the constructor and [run]. *)
Definition create (g : Scheduler) : option Scheduler :=
  let p := fresh g in
  let c := last_cid g + 1 in
  let cs := <[c := p]> (coroutines g) in
  let n := Z.of_nat (size cs) in
  let o := MkCo STATE_INIT RC_OK c (current g) false false (Some InEntry) None in
  let g := MkSched (Some p) c cs (if peak_num g <? n then n else peak_num g)
             (<[p := o]> (objects g)) (Pos.succ p) (running g) (timers g) (next_timer g)
             (results g) in
  '(f, g) ← swap_in g p; continue_ g p f.

(** The end of a coroutine's function: [context_func] and the resumer's [check_end]. *)
Definition finish (g : Scheduler) (p : positive) : option Scheduler :=
  o ← objects g !! p;
  let g := set_object g p (MkCo (state o) (resume_code_ o) (cid o) (origin o) (cancel_fn_ o) true
                             (ctx o) (swap_ctx o)) in
  g ← swap_out g p InEntry; check_end g p.

(** [yield], from the function of which [f] keeps the locals. *)
Definition yield_in (g : Scheduler) (p : positive) (f : Frame) : option Scheduler :=
  if bool_decide (current g = Some p) then
    o ← objects g !! p;
    let g := set_object g p (set_state o STATE_WAITING RC_OK (origin o) (cancel_fn_ o)) in
    let g := set_current g (origin o) in
    g ← swap_out g p f; check_end g p
  else None.
Definition yield (g : Scheduler) (p : positive) : option Scheduler := yield_in g p InYield.

(** [yield_ex]; [timeout] tells whether the argument is positive. *)
Definition yield_ex (g : Scheduler) (p : positive) (timeout : bool) : option Scheduler :=
  let '(timer, g) := if timeout
    then (Some (next_timer g), set_timers g (<[next_timer g := p]> (timers g)) (next_timer g + 1))
    else (None, g) in
  o ← objects g !! p;
  let g := set_object g p (set_state o (state o) (resume_code_ o) (origin o) true) in
  yield_in g p (InYieldEx timer).

(** [resume]. *)
Definition resume (g : Scheduler) (p : positive) : option Scheduler :=
  if bool_decide (current g = Some p) then None else
  o ← objects g !! p;
  let g' := set_object g p (set_state o STATE_RUNNING (resume_code_ o) (current g) (cancel_fn_ o)) in
  '(f, g') ← swap_in (set_current g' (Some p)) p; continue_ g' p f.

(** [cancel]: the result and the state. *)
Definition cancel (g : Scheduler) (p : positive) : option (bool * Scheduler) :=
  o ← objects g !! p;
  if cancel_fn_ o then
    let g := set_object g p (set_state o (state o) RC_CANCELED (origin o) false) in
    g ← resume g p; Some (true, g)
  else Some (false, g).

(** The callback of the timer of [yield_ex]; the timer is one-shot. *)
Definition timer_callback (g : Scheduler) (t : Z) : option Scheduler :=
  p ← timers g !! t;
  let g := set_timers g (delete t (timers g)) (next_timer g) in
  o ← objects g !! p;
  resume (set_object g p (set_state o (state o) RC_TIMEDOUT (origin o) (cancel_fn_ o))) p.

(** ** Runs

    What user code may do: a coroutine creates, yields, ends; coroutines and the event
    loop create, cancel and resume suspended coroutines by their id; the event loop
    fires timers. *)
Inductive action :=
  | ACreate | AYield | AYieldEx (timeout : bool) | AEnd
  | AResume (c : Z) | ACancel (c : Z) | ATimer (t : Z).

Definition allowed (g : Scheduler) (a : action) : Prop :=
  match a with
  | ACreate => True
  | AYield | AYieldEx _ | AEnd => is_Some (running g)
  | AResume c => ∃ p o, get_by_cid g c = Some p ∧ objects g !! p = Some o ∧ is_suspending o = true
  | ACancel c => is_Some (get_by_cid g c)
  | ATimer t => running g = None ∧ is_Some (timers g !! t)
  end.

Definition step (g : Scheduler) (a : action) : option Scheduler :=
  match a with
  | ACreate => create g
  | AYield => p ← running g; yield g p
  | AYieldEx b => p ← running g; yield_ex g p b
  | AEnd => p ← running g; finish g p
  | AResume c => p ← get_by_cid g c; resume g p
  | ACancel c => p ← get_by_cid g c; '(_, g) ← cancel g p; Some g
  | ATimer t => timer_callback g t
  end.

Inductive reachable : Scheduler → Prop :=
  | reach_init : reachable init_sched
  | reach_step g a g' : reachable g → allowed g a → step g a = Some g' → reachable g'.

(** ** The invariant *)

Definition active (o : Coroutine) : Prop :=
  (state o = STATE_INIT ∨ state o = STATE_RUNNING) ∧ ctx o = None ∧ cancel_fn_ o = false.
Definition waiting (o : Coroutine) (f : Frame) : Prop :=
  state o = STATE_WAITING ∧ ctx o = Some f ∧ f ≠ InEntry ∧ resume_code_ o = RC_OK ∧
  cancel_fn_ o = match f with InYieldEx _ => true | _ => false end.

(** The running coroutines are a stack: each one's [origin] is the one below, and
    so is the continuation to which it swaps out. *)
Fixpoint chain (m : gmap positive Coroutine) (c : option positive) (l : list positive) : Prop :=
  match l with
  | [] => c = None
  | p :: l => c = Some p ∧
    ∃ o, m !! p = Some o ∧ active o ∧ swap_ctx o = Some (origin o) ∧ chain m (origin o) l
  end.

Record ginv (l : list positive) (g : Scheduler) : Prop := {
  g_chain : chain (objects g) (running g) l;
  g_nodup : NoDup l;
  g_current : (current g = running g);
  g_waiting : ∀ p o, objects g !! p = Some o → p ∉ l → ∃ f, waiting o f;
  g_end : ∀ p o, objects g !! p = Some o → end_ o = false;
  g_map : ∀ c p, coroutines g !! c = Some p ↔ ∃ o, objects g !! p = Some o ∧ cid o = c;
  g_cid : ∀ p o, objects g !! p = Some o → 1 <= cid o <= last_cid g;
  g_last : 0 <= last_cid g;
  g_fresh : ∀ p, is_Some (objects g !! p) → (p < fresh g)%positive;
  g_peak : count g <= peak_num g;
  g_timers : ∀ t p, timers g !! t = Some p ↔
    ∃ o, objects g !! p = Some o ∧ ctx o = Some (InYieldEx (Some t));
  g_next : ∀ t, is_Some (timers g !! t) → t < next_timer g }.

Lemma chain_frame m m' c l : (∀ p, p ∈ l → m' !! p = m !! p) → chain m c l → chain m' c l.
Proof.
  revert c. induction l as [|p l IH]; intros c Hm; [done|]. intros (-> & o & H1 & H2 & H3 & H4).
  split; [done|]. exists o. rewrite Hm by set_solver. split_and!; try done.
  apply IH; [|done]. intros q Hq. apply Hm. set_solver.
Qed.

Lemma chain_top g l p : ginv l g → running g = Some p →
  ∃ o l', l = p :: l' ∧ objects g !! p = Some o ∧ active o ∧ swap_ctx o = Some (origin o) ∧
    chain (objects g) (origin o) l' ∧ (p ∉ l') ∧ NoDup l'.
Proof.
  intros Hi Hr. pose proof (g_chain _ _ Hi) as Hc. rewrite Hr in Hc. destruct l as [|q l]; [done|].
  destruct Hc as ([= <-] & o & H1 & H2 & H3 & H4). pose proof (g_nodup _ _ Hi) as [H5 H6]%NoDup_cons.
  by exists o, l.
Qed.

Lemma waiting_not_active o f : waiting o f → ¬ active o.
Proof. intros (H & _) [[?|?] _]; congruence. Qed.

Lemma chain_active m c l p o : chain m c l → p ∈ l → m !! p = Some o → active o.
Proof.
  revert c. induction l as [|q l IH]; intros c Hc Hp Ho; [by apply elem_of_nil in Hp|].
  destruct Hc as (_ & o' & H1 & H2 & _ & H4). apply elem_of_cons in Hp as [->|Hp]; [congruence|eauto].
Qed.

(** A coroutine is suspended exactly when it is not on the stack. *)
Lemma suspended_iff g l p o : ginv l g → objects g !! p = Some o → is_suspending o = true ↔ p ∉ l.
Proof.
  intros Hi Ho. unfold is_suspending. rewrite bool_decide_eq_true. split.
  - intros Hs Hp. pose proof (chain_active _ _ _ _ _ (g_chain _ _ Hi) Hp Ho) as [[?|?] _]; congruence.
  - intros Hp. by destruct (g_waiting _ _ Hi _ _ Ho Hp) as (f & ? & _).
Qed.

(** ** What each operation does *)

(** The state after the running coroutine [p] stopped in [f]. *)
Definition yielded (g : Scheduler) (p : positive) (o : Coroutine) (f : Frame) : Scheduler :=
  let t := match f with InYieldEx (Some t) => <[t := p]> (timers g) | _ => timers g end in
  let n := match f with InYieldEx (Some t) => t + 1 | _ => next_timer g end in
  let cf := match f with InYieldEx _ => true | _ => false end in
  MkSched (origin o) (last_cid g) (coroutines g) (peak_num g)
    (<[p := MkCo STATE_WAITING RC_OK (cid o) (origin o) cf (end_ o) (Some f) None]> (objects g))
    (fresh g) (origin o) t n (results g).

(** The state after [p], which had stopped in [f], was resumed with code [rc]. *)
Definition woken (g : Scheduler) (p : positive) (o : Coroutine) (f : Frame) (rc : ResumeCode) :
    Scheduler :=
  let t := match f with InYieldEx (Some t) => delete t (timers g) | _ => timers g end in
  let r := match rc with RC_OK => Resumed | RC_TIMEDOUT => CoTimedOut | RC_CANCELED => CoCanceled end in
  let log := match f with InYieldEx _ => [(cid o, r)] | _ => [] end in
  MkSched (Some p) (last_cid g) (coroutines g) (peak_num g)
    (<[p := MkCo STATE_RUNNING rc (cid o) (current g) false (end_ o) None (Some (running g))]>
       (objects g))
    (fresh g) (Some p) t (next_timer g) (results g ++ log).

(** The state after a new coroutine started, and after the running one ended. *)
Definition created (g : Scheduler) : Scheduler :=
  let p := fresh g in
  let cs := <[last_cid g + 1 := p]> (coroutines g) in
  MkSched (Some p) (last_cid g + 1) cs (Z.max (peak_num g) (Z.of_nat (size cs)))
    (<[p := MkCo STATE_INIT RC_OK (last_cid g + 1) (current g) false false None (Some (running g))]>
       (objects g))
    (Pos.succ p) (Some p) (timers g) (next_timer g) (results g).
Definition ended (g : Scheduler) (p : positive) (o : Coroutine) : Scheduler :=
  MkSched (origin o) (last_cid g) (delete (cid o) (coroutines g)) (peak_num g)
    (delete p (objects g)) (fresh g) (origin o) (timers g) (next_timer g) (results g).

(** Evaluation of an operation on known objects. *)
Ltac run_op :=
  unfold set_current, set_running, set_object, set_timers, log, set_ctx, set_state;
  repeat (progress (cbn [mbind option_bind fst snd current running objects timers next_timer results
               last_cid coroutines peak_num fresh state resume_code_ cid origin cancel_fn_ end_ ctx
               swap_ctx];
    rewrite ?lookup_insert_eq, ?insert_insert_eq;
    try rewrite bool_decide_eq_true_2 by done;
    repeat match goal with H : objects ?g !! ?p = Some _ |- context [objects ?g !! ?p] => rewrite H end)).

Lemma yield_eq l g p o :
  ginv l g → running g = Some p → objects g !! p = Some o → yield g p = Some (yielded g p o InYield).
Proof.
  intros Hi Hr Ho. pose proof (g_current _ _ Hi) as Hc. rewrite Hr in Hc.
  destruct (chain_top _ _ _ Hi Hr) as (o' & l' & _ & Ho' & (_ & _ & Hcf) & Hs & _).
  rewrite Ho in Ho'. injection Ho' as <-. pose proof (g_end _ _ Hi _ _ Ho) as He.
  unfold yield, yield_in, swap_out, check_end. run_op. rewrite Hs. run_op.
  rewrite He. unfold yielded. by rewrite He, Hcf.
Qed.

Lemma yield_ex_eq l g p o b :
  ginv l g → running g = Some p → objects g !! p = Some o →
  yield_ex g p b = Some (yielded g p o (InYieldEx (if b then Some (next_timer g) else None))).
Proof.
  intros Hi Hr Ho. pose proof (g_current _ _ Hi) as Hc. rewrite Hr in Hc.
  destruct (chain_top _ _ _ Hi Hr) as (o' & l' & _ & Ho' & (_ & _ & Hcf) & Hs & _).
  rewrite Ho in Ho'. injection Ho' as <-. pose proof (g_end _ _ Hi _ _ Ho) as He.
  unfold yield_ex, yield_in, swap_out, check_end.
  destruct b; run_op; rewrite Hs; run_op; rewrite He; unfold yielded; by rewrite He.
Qed.

Lemma finish_eq l g p o :
  ginv l g → running g = Some p → objects g !! p = Some o → finish g p = Some (ended g p o).
Proof.
  intros Hi Hr Ho. pose proof (g_current _ _ Hi) as Hc. rewrite Hr in Hc.
  destruct (chain_top _ _ _ Hi Hr) as (o' & l' & _ & Ho' & _ & Hs & _).
  rewrite Ho in Ho'. injection Ho' as <-.
  unfold finish, swap_out, check_end, close. run_op. rewrite Hs. run_op.
  unfold ended. by rewrite delete_insert_eq.
Qed.

Lemma create_eq g : objects g !! fresh g = None → create g = Some (created g).
Proof.
  intros Ho. unfold create, swap_in, continue_. run_op. unfold created. do 3 f_equal.
  case_Z; lia.
Qed.

(** Resuming a coroutine that is not on the stack, whatever its resume code. *)
Lemma resume_eq l g p o f rc :
  ginv l g → p ∉ l → objects g !! p = Some o → waiting o f →
  match f with InYield => rc = RC_OK | _ => True end →
  (∀ cf, (f = InYield → cf = false) → rc ≠ RC_TIMEDOUT → resume (set_object g p (set_state o (state o) rc (origin o) cf)) p
     = Some (woken g p o f rc)) ∧
  (∀ t, f = InYieldEx (Some t) → 
     resume (set_object (set_timers g (delete t (timers g)) (next_timer g)) p
        (set_state o (state o) RC_TIMEDOUT (origin o) (cancel_fn_ o))) p = Some (woken g p o f RC_TIMEDOUT)).
Proof.
  intros Hi Hp Ho (Hst & Hctx & Hne & Hrc & Hcf) Hf.
  assert (current g ≠ Some p) as Hcur.
  { rewrite (g_current _ _ Hi). intros E. destruct (chain_top _ _ _ Hi E) as (?&?&->&_). set_solver. }
  split.
  - intros cf Hcfn Hto. unfold resume, swap_in, continue_. run_op. rewrite bool_decide_eq_false_2 by done.
    run_op. rewrite Hctx. run_op. unfold woken. destruct f as [| |[t|]]; try done; destruct rc; try done; run_op.
    all: try rewrite (Hcfn eq_refl); rewrite ?app_nil_r; done.
  - intros t ->. unfold resume, swap_in, continue_. run_op. rewrite bool_decide_eq_false_2 by done.
    run_op. rewrite Hctx. run_op. done.
Qed.

(** ** Preservation *)

Lemma objects_insert g (p : positive) o o' : objects g !! p = Some o → cid o' = cid o →
  ∀ c q, (∃ x, <[p := o']> (objects g) !! q = Some x ∧ cid x = c) ↔
         (∃ x, objects g !! q = Some x ∧ cid x = c).
Proof.
  intros Ho Hc c q. destruct (decide (q = p)) as [->|Hq].
  - rewrite lookup_insert_eq, Ho. naive_solver congruence.
  - by rewrite lookup_insert_ne by done.
Qed.

(** A change of one object that keeps its identity keeps the tables. *)
Lemma ginv_object l l' g p o o' ts nt rs rn :
  ginv l g → objects g !! p = Some o → cid o' = cid o → end_ o' = false →
  chain (<[p := o']> (objects g)) rn l' → NoDup l' →
  (∀ q, q ∉ l' → q ≠ p → q ∉ l) → (p ∉ l' → ∃ f, waiting o' f) →
  (∀ t q, ts !! t = Some q ↔
     ∃ x, <[p := o']> (objects g) !! q = Some x ∧ ctx x = Some (InYieldEx (Some t))) →
  (∀ t, is_Some (ts !! t) → t < nt) →
  ginv l' (MkSched rn (last_cid g) (coroutines g) (peak_num g) (<[p := o']> (objects g)) (fresh g)
             rn ts nt rs).
Proof.
  intros Hi Ho Hc He Hch Hn Hl Hw Ht Hnt. destruct Hi. split; cbn; try done.
  - intros q x Hq Hql. destruct (decide (q = p)) as [->|Hne].
    + rewrite lookup_insert_eq in Hq. injection Hq as <-. by apply Hw.
    + rewrite lookup_insert_ne in Hq by done. eauto.
  - intros q x. destruct (decide (q = p)) as [->|Hne].
    + rewrite lookup_insert_eq. by intros [= <-].
    + rewrite lookup_insert_ne by done. eauto.
  - intros c q. rewrite objects_insert by done. apply g_map0.
  - intros q x. destruct (decide (q = p)) as [->|Hne].
    + rewrite lookup_insert_eq. intros [= <-]. rewrite Hc. eauto.
    + rewrite lookup_insert_ne by done. eauto.
  - intros q. destruct (decide (q = p)) as [->|Hne]; [eauto|]. rewrite lookup_insert_ne by done. eauto.
Qed.

Lemma yielded_inv l g p o f :
  ginv (p :: l) g → running g = Some p → objects g !! p = Some o → f ≠ InEntry →
  (∀ t, f = InYieldEx (Some t) → t = next_timer g) → ginv l (yielded g p o f).
Proof.
  intros Hi Hr Ho Hf Ht. destruct (chain_top _ _ _ Hi Hr) as (o' & l' & [= <-] & Ho' & Ha & Hs & Hch & Hp & Hn).
  rewrite Ho in Ho'. injection Ho' as <-. destruct Ha as (Hst & Hctx & Hcf).
  unfold yielded. apply (ginv_object (p :: l) l g p o); try done; cbn.
  - by apply (g_end _ _ Hi p).
  - apply (chain_frame (objects g)); [|done]. intros q Hq. rewrite lookup_insert_ne; [done|]. by intros <-.
  - set_solver.
  - intros _. exists f. by split_and!.
  - intros t q. destruct (decide (q = p)) as [->|Hne].
    + rewrite lookup_insert_eq. split.
      * intros Hq. eexists. split; [done|]. cbn. destruct f as [| |[t'|]]; try done.
        1, 3: exfalso; apply (g_timers _ _ Hi) in Hq as (x & Hx & Hx'); congruence.
        destruct (decide (t = t')) as [->|]; [done|]. rewrite lookup_insert_ne in Hq by done.
        exfalso. apply (g_timers _ _ Hi) in Hq as (x & Hx & Hx'); congruence.
      * intros (x & [= <-] & Hx). cbn in Hx. injection Hx as ->. by rewrite lookup_insert_eq.
    + rewrite lookup_insert_ne by done. rewrite <- (g_timers _ _ Hi).
      destruct f as [| |[t'|]]; try done. destruct (decide (t = t')) as [->|];
        [|by rewrite lookup_insert_ne by done]. rewrite lookup_insert_eq.
      split; [naive_solver|]. intros Hq. pose proof (g_next _ _ Hi t' (mk_is_Some _ _ Hq)).
      specialize (Ht _ eq_refl). lia.
  - intros t. destruct f as [| |[t'|]]; try apply (g_next _ _ Hi). specialize (Ht _ eq_refl) as ->.
    destruct (decide (t = next_timer g)) as [->|]; [lia|]. rewrite lookup_insert_ne by done.
    intros H%(g_next _ _ Hi). lia.
Qed.

Lemma woken_inv l g p o f rc :
  ginv l g → p ∉ l → objects g !! p = Some o → waiting o f → ginv (p :: l) (woken g p o f rc).
Proof.
  intros Hi Hp Ho (Hst & Hctx & Hne & Hrc & Hcf). unfold woken.
  pose proof (g_current _ _ Hi) as Hcur.
  apply (ginv_object l (p :: l) g p o); try done; cbn.
  - by apply (g_end _ _ Hi p).
  - split; [done|]. eexists. rewrite lookup_insert_eq. split; [done|]. cbn. split_and!; [|by rewrite Hcur|].
    + by split_and!; [right|..].
    + rewrite Hcur. apply (chain_frame (objects g)); [|apply (g_chain _ _ Hi)]. intros q Hq.
      rewrite lookup_insert_ne; [done|]. by intros <-.
  - apply NoDup_cons. split; [done|apply (g_nodup _ _ Hi)].
  - set_solver.
  - intros Hpp. set_solver.
  - intros t q. destruct (decide (q = p)) as [->|Hq].
    + rewrite lookup_insert_eq. split; [|naive_solver]. intros Ht. exfalso.
      assert (timers g !! t = Some p) as (x & Hx & Hx')%(g_timers _ _ Hi).
      { destruct f as [| |[t'|]]; try done. by apply lookup_delete_Some in Ht as [_ ?]. }
      rewrite Ho in Hx. injection Hx as <-. rewrite Hctx in Hx'. injection Hx' as ->.
      by rewrite lookup_delete_eq in Ht.
    + rewrite lookup_insert_ne by done. rewrite <- (g_timers _ _ Hi).
      destruct f as [| |[t'|]]; try done. rewrite lookup_delete_Some. split; [naive_solver|].
      intros Ht. split; [|done]. intros <-.
      assert (timers g !! t' = Some p) by (apply (g_timers _ _ Hi); eauto). congruence.
  - intros t [q Hq]. apply (g_next _ _ Hi). destruct f as [| |[t'|]]; eauto.
    apply lookup_delete_Some in Hq as [_ ?]. eauto.
Qed.

Lemma chain_object m c l p : chain m c l → p ∈ l → is_Some (m !! p).
Proof.
  revert c. induction l as [|q l IH]; intros c Hc Hp; [by apply elem_of_nil in Hp|].
  destruct Hc as (_ & o & Ho & _ & _ & Hc). apply elem_of_cons in Hp as [->|Hp]; eauto.
Qed.

Lemma created_inv l g : ginv l g → ginv (fresh g :: l) (created g).
Proof.
  intros Hi. assert (objects g !! fresh g = None) as Hf.
  { apply eq_None_not_Some. intros H%(g_fresh _ _ Hi). lia. }
  assert (fresh g ∉ l) as Hfl.
  { intros [o Ho]%(chain_object _ _ _ _ (g_chain _ _ Hi)). congruence. }
  assert (coroutines g !! (last_cid g + 1) = None) as Hc.
  { apply eq_None_not_Some. intros [p (o & Ho & Hc)%(g_map _ _ Hi)].
    pose proof (g_cid _ _ Hi _ _ Ho). lia. }
  pose proof (g_current _ _ Hi) as Hcur. destruct Hi. split; cbn; try done.
  - split; [done|]. eexists. rewrite lookup_insert_eq. split; [done|]. cbn. split_and!; [|by rewrite Hcur|].
    + by split_and!; [left|..].
    + rewrite Hcur. apply (chain_frame (objects g)); [|done]. intros q Hq.
      rewrite lookup_insert_ne; [done|]. by intros <-.
  - by apply NoDup_cons.
  - intros q o Hq [Hq1 Hq2]%not_elem_of_cons. rewrite lookup_insert_ne in Hq by done. eauto.
  - intros q o [[<- <-]|[_ ?]]%lookup_insert_Some; [done|eauto].
  - intros c q. destruct (decide (c = last_cid g + 1)) as [->|Hne].
    + rewrite lookup_insert_eq. split.
      * intros [= <-]. rewrite lookup_insert_eq. by eexists.
      * intros (o & [[-> <-]|[_ Ho]]%lookup_insert_Some & Hcid); [done|].
        pose proof (g_cid0 _ _ Ho). lia.
    + rewrite lookup_insert_ne by done. rewrite g_map0. split; intros (o & Ho & <-).
      * exists o. split; [|done]. rewrite lookup_insert_ne; [done|]. intros <-. congruence.
      * apply lookup_insert_Some in Ho as [[<- <-]|[_ Ho]]; [done|]. by exists o.
  - intros q o [[<- <-]|[_ Ho]]%lookup_insert_Some; cbn; [lia|]. pose proof (g_cid0 _ _ Ho). lia.
  - lia.
  - intros q [o [[<- _]|[_ Ho]]%lookup_insert_Some]; [lia|]. pose proof (g_fresh0 q (mk_is_Some _ _ Ho)). lia.
  - unfold count. cbn. lia.
  - intros t q. rewrite g_timers0. split; intros (o & Ho & Hctx).
    + exists o. split; [|done]. rewrite lookup_insert_ne; [done|]. intros <-. congruence.
    + apply lookup_insert_Some in Ho as [[<- <-]|[_ Ho]]; [done|]. by exists o.
Qed.

Lemma ended_inv l g p o :
  ginv (p :: l) g → running g = Some p → objects g !! p = Some o → ginv l (ended g p o).
Proof.
  intros Hi Hr Ho. destruct (chain_top _ _ _ Hi Hr) as (o' & l' & [= <-] & Ho' & Ha & Hs & Hch & Hp & Hn).
  rewrite Ho in Ho'. injection Ho' as <-. destruct Ha as (Hst & Hctx & Hcf).
  assert (coroutines g !! cid o = Some p) as Hm by (apply (g_map _ _ Hi); eauto).
  destruct Hi. split; cbn; try done.
  - apply (chain_frame (objects g)); [|done]. intros q Hq. rewrite lookup_delete_ne; [done|]. by intros <-.
  - intros q x [Hne Hx]%lookup_delete_Some Hql. apply (g_waiting0 q); [done|]. set_solver.
  - intros q x [_ Hx]%lookup_delete_Some. eauto.
  - intros c q. rewrite lookup_delete_Some, g_map0. split.
    + intros (Hne & x & Hx & <-). exists x. split; [|done]. rewrite lookup_delete_ne; [done|].
      intros <-. congruence.
    + intros (x & [Hne Hx]%lookup_delete_Some & <-). split; [|by eauto]. intros Hc. apply Hne.
      assert (coroutines g !! cid x = Some q) by (apply g_map0; eauto). congruence.
  - intros q x [_ Hx]%lookup_delete_Some. eauto.
  - intros q [x [_ Hx]%lookup_delete_Some]. eauto.
  - unfold count in *. cbn. rewrite map_size_delete_Some by eauto. lia.
  - intros t q. rewrite g_timers0. split; intros (x & Hx & Hc).
    + exists x. split; [|done]. rewrite lookup_delete_ne; [done|]. intros <-. congruence.
    + apply lookup_delete_Some in Hx as [_ Hx]. by exists x.
Qed.

Lemma init_ginv : ginv [] init_sched.
Proof.
  split; cbn; try done; intros *; rewrite ?lookup_empty; try naive_solver.
  apply NoDup_nil_2.
Qed.

(** A step that wakes the waiting coroutine [p], with the code it gets. *)
Inductive wakes (o : Coroutine) : action → ResumeCode → Prop :=
  | wakes_resume : wakes o (AResume (cid o)) RC_OK
  | wakes_cancel tm : ctx o = Some (InYieldEx tm) → wakes o (ACancel (cid o)) RC_CANCELED
  | wakes_timer t : ctx o = Some (InYieldEx (Some t)) → wakes o (ATimer t) RC_TIMEDOUT.

Lemma wakes_step l g p o f a rc :
  ginv l g → objects g !! p = Some o → p ∉ l → waiting o f → wakes o a rc →
  step g a = Some (woken g p o f rc).
Proof.
  intros Hi Ho Hp Hw Ha. pose proof Hw as (Hst & Hctx & Hne & Hrc & Hcf).
  assert (coroutines g !! cid o = Some p) as Hm by (apply (g_map _ _ Hi); eauto).
  destruct Ha as [|tm Hc|t Hc]; cbn [step]; unfold get_by_cid; rewrite ?Hm; cbn [mbind option_bind].
  - destruct (resume_eq l g p o f RC_OK) as [E _]; try done; [by destruct f|].
    rewrite <- (E (cancel_fn_ o)); [|by intros ->|done]. f_equal.
    unfold set_object, set_state. rewrite insert_id; [by destruct g|]. rewrite Ho.
    rewrite <- Hrc. by destruct o.
  - assert (f = InYieldEx tm) as -> by congruence. unfold cancel. rewrite Ho. cbn [mbind option_bind].
    rewrite Hcf. destruct (resume_eq l g p o (InYieldEx tm) RC_CANCELED) as [E _]; try done.
    by rewrite E.
  - assert (f = InYieldEx (Some t)) as -> by congruence. unfold timer_callback.
    rewrite (proj2 (g_timers _ _ Hi t p)) by eauto. cbn [mbind option_bind].
    cbn [objects set_timers]. rewrite Ho. cbn [mbind option_bind].
    destruct (resume_eq l g p o (InYieldEx (Some t)) RC_TIMEDOUT) as [_ E]; try done. by apply E.
Qed.

(** Every allowed action succeeds and keeps the invariant. *)
Lemma step_ginv l g a : ginv l g → allowed g a → ∃ g' l', step g a = Some g' ∧ ginv l' g'.
Proof.
  intros Hi Ha.
  assert (∀ p o rc, objects g !! p = Some o → p ∉ l → wakes o a rc → ∃ g' l', step g a = Some g' ∧ ginv l' g')
    as Hwake.
  { intros p o rc Ho Hp Hw. destruct (g_waiting _ _ Hi _ _ Ho Hp) as [f Hf].
    exists (woken g p o f rc), (p :: l). split; [by eapply wakes_step|by apply woken_inv]. }
  assert (∀ p, running g = Some p → ∃ l' o, l = p :: l' ∧ objects g !! p = Some o) as Htop.
  { intros p Hr. destruct (chain_top _ _ _ Hi Hr) as (o & l' & -> & Ho & _). eauto. }
  destruct a as [| |b| |c|c|t]; cbn [allowed step] in *.
  - exists (created g), (fresh g :: l). split; [|by apply created_inv]. apply create_eq.
    apply eq_None_not_Some. intros H%(g_fresh _ _ Hi). lia.
  - destruct Ha as [p Hr]. destruct (Htop p Hr) as (l' & o & -> & Ho). rewrite Hr. cbn [mbind option_bind].
    do 2 eexists. split; [by eapply yield_eq|]. by eapply yielded_inv.
  - destruct Ha as [p Hr]. destruct (Htop p Hr) as (l' & o & -> & Ho). rewrite Hr. cbn [mbind option_bind].
    do 2 eexists. split; [by eapply yield_ex_eq|]. eapply yielded_inv; try done. destruct b; naive_solver.
  - destruct Ha as [p Hr]. destruct (Htop p Hr) as (l' & o & -> & Ho). rewrite Hr. cbn [mbind option_bind].
    do 2 eexists. split; [by eapply finish_eq|]. by eapply ended_inv.
  - destruct Ha as (p & o & Hc & Ho & Hs). pose proof Hc as (o' & Ho' & <-)%(g_map _ _ Hi).
    rewrite Ho in Ho'. injection Ho' as <-. eapply (Hwake p o); [done| |apply wakes_resume].
    by eapply suspended_iff.
  - destruct Ha as [p Hc]. pose proof Hc as (o & Ho & <-)%(g_map _ _ Hi). rewrite Hc. cbn [mbind option_bind].
    destruct (cancel_fn_ o) eqn:Hcf.
    + assert (p ∉ l) as Hp.
      { intros Hp. destruct (chain_active _ _ _ _ _ (g_chain _ _ Hi) Hp Ho) as (_ & _ & ?). congruence. }
      destruct (g_waiting _ _ Hi _ _ Ho Hp) as [f (_ & Hctx & _ & _ & Hf)]. rewrite Hcf in Hf.
      destruct f as [| |tm]; try done.
      destruct (Hwake p o RC_CANCELED Ho Hp (wakes_cancel o tm Hctx)) as (g' & l' & Hst & Hi').
      cbn [step] in Hst. rewrite Hc in Hst. cbn [mbind option_bind] in Hst. eauto.
    + exists g, l. split; [|done]. unfold cancel. rewrite Ho. cbn [mbind option_bind]. by rewrite Hcf.
  - destruct Ha as [_ [p Ht]]. pose proof Ht as (o & Ho & Hctx)%(g_timers _ _ Hi).
    eapply (Hwake p o); [done| |by apply wakes_timer]. intros Hp.
    destruct (chain_active _ _ _ _ _ (g_chain _ _ Hi) Hp Ho) as (_ & ? & _). congruence.
Qed.

Lemma reachable_ginv g : reachable g → ∃ l, ginv l g.
Proof.
  induction 1 as [|g a g' _ [l IH] Ha Hs]; [eexists; apply init_ginv|].
  destruct (step_ginv l g a IH Ha) as (g'' & l' & E & Hi). exists l'. congruence.
Qed.

(** C4. The scheduler's view is the machine's, in every state that user code can reach
    by creating, yielding, resuming suspended coroutines, cancelling, ending and timers,
    in any order and nesting: [current] is the coroutine that runs; the running ones
    form a stack without repetition in which [origin] is the continuation that
    [swap_out] returns to, and exactly the others are suspended; the table of
    coroutines holds the live ones under their own ids, at most [peak_num] of them; a
    pending timer belongs to a suspended coroutine; and every allowed operation runs
    without a failed assertion, a jump into a stale context or an access to a deleted
    coroutine. *)
Theorem coroutine_stack_discipline g : reachable g →
  current g = running g ∧
  (∃ l, NoDup l ∧ chain (objects g) (running g) l ∧
     ∀ p o, objects g !! p = Some o → (is_suspending o = true ↔ p ∉ l)) ∧
  (∀ c p, get_by_cid g c = Some p ↔ ∃ o, objects g !! p = Some o ∧ cid o = c) ∧
  count g <= peak_num g ∧
  (∀ t p, timers g !! t = Some p → ∃ o, objects g !! p = Some o ∧ is_suspending o = true) ∧
  ∀ a, allowed g a → ∃ g', step g a = Some g'.
Proof.
  intros [l Hi]%reachable_ginv. split_and!.
  - apply (g_current _ _ Hi).
  - exists l. split_and!; [apply (g_nodup _ _ Hi)|apply (g_chain _ _ Hi)|].
    intros p o Ho. by eapply suspended_iff.
  - apply (g_map _ _ Hi).
  - apply (g_peak _ _ Hi).
  - intros t p (o & Ho & Hc)%(g_timers _ _ Hi). exists o. split; [done|].
    eapply suspended_iff; [done..|]. intros Hp.
    destruct (chain_active _ _ _ _ _ (g_chain _ _ Hi) Hp Ho) as (_ & ? & _). congruence.
  - intros a (g' & _ & ? & _)%(step_ginv l g a Hi). eauto.
Qed.

(** The state after some actions. *)
Definition after (os : list action) : Scheduler :=
  default init_sched (foldl (λ g a, g ← g; step g a) (Some init_sched) os).

(** The first coroutine waits in [yield_ex]; the second resumes it, and it waits
    again; the second waits. *)
Lemma example_reachable : reachable (after [ACreate; AYieldEx true; ACreate; AResume 1; AYieldEx true; AYieldEx false]).
Proof.
  assert (reachable (after [ACreate])) as H by (by apply (reach_step init_sched ACreate); [constructor|..]).
  assert (reachable (after [ACreate; AYieldEx true])) as H1
    by (apply (reach_step _ (AYieldEx true) _ H); [by eexists|by vm_compute]).
  assert (reachable (after [ACreate; AYieldEx true; ACreate])) as H2
    by (by apply (reach_step _ ACreate _ H1); [|vm_compute]).
  assert (reachable (after [ACreate; AYieldEx true; ACreate; AResume 1])) as H3.
  { apply (reach_step _ (AResume 1) _ H2); [|by vm_compute]. exists 1%positive. eexists. by vm_compute. }
  assert (reachable (after [ACreate; AYieldEx true; ACreate; AResume 1; AYieldEx true])) as H4
    by (apply (reach_step _ (AYieldEx true) _ H3); [by eexists|by vm_compute]).
  apply (reach_step _ (AYieldEx false) _ H4); [by eexists|by vm_compute].
Qed.

Lemma coroutine_stack_discipline_witness :
  let g := after [ACreate; AYieldEx true; ACreate; AResume 1; AYieldEx true; AYieldEx false] in
  current g = running g ∧ ∃ g', step g (ATimer 2) = Some g'.
Proof.
  intros g. destruct (coroutine_stack_discipline g example_reachable) as (H & _ & _ & _ & _ & Hs).
  split; [done|]. apply Hs. split; [done|by eexists].
Defined.

(** A coroutine in [yield_ex] is woken by exactly one of [resume], [cancel] and its
    timer, and [yield_ex] reports which: it returns success, [CO_CANCELED] or
    [CO_TIMEDOUT]; its timer is gone, so nothing wakes it again later; the coroutine
    runs at once, and when it yields control returns to the code that woke it. *)
Theorem yield_ex_outcome g p o tm a rc :
  reachable g → objects g !! p = Some o → ctx o = Some (InYieldEx tm) → wakes o a rc →
  ∃ g', step g a = Some g' ∧ running g' = Some p ∧
    results g' = results g ++
      [(cid o, match rc with RC_OK => Resumed | RC_TIMEDOUT => CoTimedOut | RC_CANCELED => CoCanceled end)] ∧
    (∀ t, timers g' !! t ≠ Some p) ∧
    ∃ g'', step g' AYield = Some g'' ∧ running g'' = running g ∧ current g'' = running g.
Proof.
  intros [l Hi]%reachable_ginv Ho Hctx Ha.
  assert (p ∉ l) as Hp.
  { intros Hp. destruct (chain_active _ _ _ _ _ (g_chain _ _ Hi) Hp Ho) as (_ & ? & _). congruence. }
  destruct (g_waiting _ _ Hi _ _ Ho Hp) as [f Hf]. pose proof Hf as (_ & Hc & _).
  assert (f = InYieldEx tm) as -> by congruence.
  pose proof (woken_inv l g p o (InYieldEx tm) rc Hi Hp Ho Hf) as Hi'.
  exists (woken g p o (InYieldEx tm) rc). split; [by eapply wakes_step|]. split_and!; try done.
  - intros t (x & Hx & Hx')%(g_timers _ _ Hi'). cbn in Hx. rewrite lookup_insert_eq in Hx. by injection Hx as <-.
  - eexists. split; [cbn [step]; cbn [running woken mbind option_bind]; eapply yield_eq; [done|done|]|].
    + cbn. by rewrite lookup_insert_eq.
    + cbn. by rewrite (g_current _ _ Hi).
Qed.

Lemma yield_ex_outcome_witness :
  ∃ g', step (after [ACreate; AYieldEx true; ACreate; AResume 1; AYieldEx true; AYieldEx false]) (ACancel 1)
    = Some g' ∧ results g' = [(1, Resumed); (1, CoCanceled)].
Proof.
  pose (o := MkCo STATE_WAITING RC_OK 1 (Some 2%positive) true false (Some (InYieldEx (Some 2))) None).
  destruct (yield_ex_outcome _ 1%positive o (Some 2) (ACancel 1) RC_CANCELED example_reachable)
    as (g' & H1 & _ & H2 & _); [by vm_compute|done|by apply (wakes_cancel o (Some 2))|].
  exists g'. split; [exact H1|]. rewrite H2. by vm_compute.
Defined.

(** [resume] only asserts that its target is not the current coroutine: a coroutine
    that resumes the one which resumed it jumps into a stale context. *)
Example resume_active_faults :
  let g := after [ACreate; ACreate] in
  running g = Some 2%positive ∧ get_by_cid g 1 = Some 1%positive ∧ resume g 1 = None.
Proof. by vm_compute. Qed.
