(* ===== verification/Dns.v ===== *)
(** * The DNS client: src/network/dns.cc without c-ares

    [dns_lookup_impl_with_socket] builds a query in [packet], sends it, receives the
    answer into the same array and parses it.  A pointer into an array is an offset in
    the block that holds it; [None] is an access outside the block (or a loop that the
    fuel, the size of the block, does not cover).  The socket is the function from the
    query to the received datagram. *)

From S2P Require Import Prelude.
From Stdlib Require Import DecimalString.

Definition OSW_BUFFER_SIZE_STD : nat := Z.to_nat 8192.
Definition OSW_DNS_A_RECORD : Z := 1.
Definition OSW_DNS_AAAA_RECORD : Z := 28.

(** [sizeof(RecordHeader)], [sizeof(Q_FLAGS)], [sizeof(RR_FLAGS)] (with its padding). *)
Definition sizeof_header : Z := 12.
Definition sizeof_qflags : Z := 4.
Definition sizeof_rrflags : Z := 12.

(** [strlen] of the string at [p]. *)
Fixpoint strlen_loop (fuel : nat) (m : bytes) (p n : Z) : option Z :=
  match fuel with
  | O => None
  | S fuel => c ← at_ m (p + n); if c =? 0 then Some n else strlen_loop fuel m p (n + 1)
  end.
Definition strlen (m : bytes) (p : Z) : option Z := strlen_loop (S (length m)) m p 0.

Definition be16 (m : bytes) (p : Z) : option Z := hi ← at_ m p; lo ← at_ m (p + 1); Some (hi * 256 + lo).

(** ** Names *)

(** The loop of [domain_encode] over [src = dest + 1]. *)
Fixpoint encode_dots (fuel : nat) (m : bytes) (dest i n pos : Z) : option (bytes * Z) :=
  match fuel with
  | O => Some (m, pos)
  | S fuel =>
    if i <? n then
      c ← at_ m (dest + 1 + i);
      if c =? 46 then
        let len := i - pos in
        m ← store m (dest + pos) [u8 len];
        encode_dots fuel m dest (i + 1) n (pos + len + 1)
      else encode_dots fuel m dest (i + 1) n pos
    else Some (m, pos)
  end.

(** [domain_encode(src, n, dest)] where [src] is the C string [domain]: [src[n]] is
    its terminator. *)
Definition domain_encode (domain : bytes) (m : bytes) (dest : Z) : option bytes :=
  let n := zlen domain in
  m ← store m (dest + 1) (domain ++ [0]);
  m ← store m (dest + n + 1) [46];
  m ← store m (dest + n + 2) [0];
  let n := n + 1 in
  '(m, pos) ← encode_dots (S (Z.to_nat n)) m dest 0 n 0;
  store m (dest + pos) [0].

(** [domain_decode] of the string at [str]. *)
Fixpoint shift_loop (fuel : nat) (m : bytes) (str i j len : Z) : option (bytes * Z) :=
  if j <? len then
    match fuel with
    | O => None
    | S fuel =>
      c ← at_ m (str + i + 1);
      m ← store m (str + i) [c];
      shift_loop fuel m str (i + 1) (j + 1) len
    end
  else Some (m, i).

Fixpoint decode_labels (fuel : nat) (m : bytes) (str i : Z) : option (bytes * Z) :=
  n ← strlen m str;
  if i <? n then
    match fuel with
    | O => None
    | S fuel =>
      c ← at_ m (str + i);
      '(m, i) ← shift_loop (S (length m)) m str i 0 (u32 (i8 c));
      m ← store m (str + i) [46];
      decode_labels fuel m str (i + 1)
    end
  else Some (m, i).

Definition domain_decode (m : bytes) (str : Z) : option bytes :=
  '(m, i) ← decode_labels (S (length m)) m str 0;
  store m (str + i - 1) [0].

(** ** The query *)

Definition dns_query (fresh : nat → bytes) (request_id : Z) (domain : bytes) (ipv6 : bool) :
    option (bytes * bytes) :=
  let packet := fresh OSW_BUFFER_SIZE_STD in
  packet ← store packet 0 (be_bytes 2 request_id ++ [1; 0] ++ be_bytes 2 1 ++ [0; 0; 0; 0; 0; 0]);
  let steps := sizeof_header in
  packet ← domain_encode domain packet steps;
  n ← strlen packet steps;
  let steps := steps + (n + 1) in
  packet ← store packet steps
    (be_bytes 2 (if ipv6 then OSW_DNS_AAAA_RECORD else OSW_DNS_A_RECORD) ++ be_bytes 2 1);
  let steps := steps + sizeof_qflags in
  sent ← load packet 0 steps;
  Some (sent, packet).

(** ** The answer *)

(** A possibly compressed name at [temp], copied to the row [name] from [j] on. *)
Fixpoint name_loop (fuel : nat) (packet : bytes) (temp : Z) (name : bytes) (j : Z) :
    option (bytes * Z) :=
  match fuel with
  | O => None
  | S fuel =>
    c ← at_ packet temp;
    if c =? 0 then Some (name, j) else
    if c =? 192 then
      t ← at_ packet (temp + 1); name_loop fuel packet t name j
    else name ← store name j [c]; name_loop fuel packet (temp + 1) name (j + 1)
  end.

(** [rdata[i][j] = packet[steps + j]]. *)
Fixpoint copy_loop (n : nat) (packet : bytes) (steps : Z) (rdata : bytes) (j : Z) : option bytes :=
  match n with
  | O => Some rdata
  | S n => c ← at_ packet (steps + j); rdata ← store rdata j [c]; copy_loop n packet steps rdata (j + 1)
  end.

Definition row_size : nat := 254.

(** One resource record: its type, its row of [rdata] and the next [steps]. *)
Definition parse_record (fuel : nat) (name : bytes) (packet : bytes) (steps : Z) :
    option (Z * bytes * Z) :=
  '(name, j) ← name_loop fuel packet steps name 0;
  name ← store name j [0];
  _ ← domain_decode name 0;
  let steps := steps + 2 in
  type ← be16 packet steps;
  rdlength ← be16 packet (steps + 8);
  let steps := steps + sizeof_rrflags - 2 in
  rdata ← copy_loop (Z.to_nat rdlength) packet steps (replicate row_size 0) 0;
  rdata ← (if type =? 5 then
             '(rdata, j) ← name_loop fuel packet steps rdata 0;
             rdata ← store rdata j [0];
             domain_decode rdata 0
           else Some rdata);
  Some (type, rdata, steps + rdlength).

Fixpoint parse_records (n : nat) (fuel i : nat) (name : nat → bytes) (packet : bytes) (steps : Z) :
    option (list (Z * bytes)) :=
  match n with
  | O => Some []
  | S n =>
    '(type, rdata, steps) ← parse_record fuel (name i) packet steps;
    rest ← parse_records n fuel (S i) name packet steps;
    Some ((type, rdata) :: rest)
  end.

(** [parse_ip_address]. *)
Definition dec (n : Z) : string := NilEmpty.string_of_uint (Nat.to_uint (Z.to_nat n)).
Definition hex_nibble (n : Z) : string :=
  match String.get (Z.to_nat n) "0123456789abcdef" with
  | Some a => String.String a String.EmptyString
  | None => String.EmptyString
  end.
Definition hex_byte (n : Z) : string := hex_nibble (n / 16) +:+ hex_nibble (n mod 16).
Definition parse_ip_address (addr : bytes) (ipv4 : bool) : string :=
  let b i := nth i addr 0 in
  if ipv4 then dec (b 0%nat) +:+ "." +:+ dec (b 1%nat) +:+ "." +:+ dec (b 2%nat) +:+ "." +:+ dec (b 3%nat)
  else String.concat ":" ((λ i, hex_byte (b (2 * i)%nat) +:+ hex_byte (b (2 * i + 1)%nat)) <$> seq 0 8).

(** The loop that collects [result]. *)
Definition addresses (rrs : list (Z * bytes)) : list string :=
  (λ rr : Z * bytes, parse_ip_address rr.2 (rr.1 =? OSW_DNS_A_RECORD)) <$>
    filter (λ rr : Z * bytes, rr.1 = OSW_DNS_A_RECORD ∨ rr.1 = OSW_DNS_AAAA_RECORD) rrs.

(** From the received datagram, of which [packet] has room for all but one byte, to
    the addresses; [name n] is the uninitialised row of [name]. *)
Definition dns_answer (fuel : nat) (name : nat → bytes) (packet : bytes) (request_id : Z)
    (datagram : bytes) : option (list string) :=
  let ret := take (OSW_BUFFER_SIZE_STD - 1) datagram in
  if bool_decide (ret = []) then Some [] else
  packet ← store packet 0 (ret ++ [0]);
  let steps := sizeof_header in
  packet ← domain_decode packet steps;
  n ← strlen packet steps;
  let steps := steps + (n + 2) + sizeof_qflags in
  ancount ← be16 packet 6;
  let ancount := if ancount >? 10 then 10 else ancount in
  rrs ← parse_records (Z.to_nat ancount) fuel 0 name packet steps;
  id ← be16 packet 0;
  if negb (id =? request_id) then Some [] else
  Some (addresses rrs).

(** ** Names: proofs *)

(** A name on the wire, and with a dot behind every label. *)
Definition wire (ls : list bytes) : bytes := concat ((λ l, zlen l :: l) <$> ls).
Definition dots (ls : list bytes) : bytes := concat ((λ l, l ++ [46]) <$> ls).
Fixpoint join (ls : list bytes) : bytes :=
  match ls with [] => [] | [l] => l | l :: ls => l ++ 46 :: join ls end.
Definition label_ok (l : bytes) : Prop :=
  0 < zlen l < 128 ∧ Forall (λ c, c ≠ 0 ∧ c ≠ 46) l.

Lemma wire_app a b : wire (a ++ b) = wire a ++ wire b.
Proof. unfold wire. by rewrite fmap_app, concat_app. Qed.
Lemma dots_app a b : dots (a ++ b) = dots a ++ dots b.
Proof. unfold dots. by rewrite fmap_app, concat_app. Qed.
Lemma dots_join ls : ls ≠ [] → dots ls = join ls ++ [46].
Proof.
  induction ls as [|l ls IH]; [done|]. intros _. destruct ls as [|l2 ls]; [cbn; by rewrite app_nil_r|].
  change (dots (l :: l2 :: ls)) with ((l ++ [46]) ++ dots (l2 :: ls)).
  rewrite IH by done. change (join (l :: l2 :: ls)) with (l ++ 46 :: join (l2 :: ls)).
  by rewrite <- !app_assoc.
Qed.
Lemma wire_dots_zlen ls : zlen (wire ls) = zlen (dots ls).
Proof.
  induction ls as [|l ls IH]; [done|]. change (wire (l :: ls)) with ((zlen l :: l) ++ wire ls).
  change (dots (l :: ls)) with ((l ++ [46]) ++ dots ls). zl.
Qed.
Lemma dots_nonzero ls : Forall label_ok ls → Forall (λ c, c ≠ 0) (dots ls).
Proof.
  induction 1 as [|l ls [_ Hl] _ IH]; [constructor|]. change (dots (l :: ls)) with ((l ++ [46]) ++ dots ls).
  rewrite !Forall_app. split_and!; [|by repeat constructor|done]. eapply Forall_impl; [done|]. naive_solver.
Qed.
Lemma wire_nonzero ls : Forall label_ok ls → Forall (λ c, c ≠ 0) (wire ls).
Proof.
  induction 1 as [|l ls [Hn Hl] _ IH]; [constructor|].
  change (wire (l :: ls)) with ((zlen l :: l) ++ wire ls).
  rewrite Forall_app, Forall_cons. split_and!; [lia| |done]. eapply Forall_impl; [done|]. naive_solver.
Qed.

Lemma strlen_loop_spec fuel pre a s suf :
  Forall (λ c, c ≠ 0) s → (length s < fuel)%nat →
  strlen_loop fuel (pre ++ a ++ s ++ 0 :: suf) (zlen pre) (zlen a) = Some (zlen a + zlen s).
Proof.
  intros Hs. revert fuel a. induction Hs as [|c s Hc _ IH]; intros [|fuel] a Hf; cbn [length] in Hf; try lia.
  - cbn [strlen_loop app]. rewrite app_assoc, <- zlen_app, at_prefix. cbn. by rewrite Z.add_0_r.
  - cbn [strlen_loop app]. rewrite app_assoc, <- zlen_app, at_prefix. cbn [mbind option_bind].
    rewrite (proj2 (Z.eqb_neq _ _) Hc). specialize (IH fuel (a ++ [c])).
    rewrite <- app_assoc. rewrite <- app_assoc in IH. cbn [app] in IH.
    replace (zlen (a ++ [c])) with (zlen a + 1) in IH by zl. rewrite IH by lia. f_equal. zl.
Qed.

Lemma strlen_spec pre s suf :
  Forall (λ c, c ≠ 0) s → strlen (pre ++ s ++ 0 :: suf) (zlen pre) = Some (zlen s).
Proof.
  intros Hs. unfold strlen.
  pose proof (strlen_loop_spec (S (length (pre ++ s ++ 0 :: suf))) pre [] s suf Hs) as H.
  cbn [app] in H. apply H. rewrite !length_app. lia.
Qed.

(** *** Encoding *)

Lemma encode_dots_skip fuel pre l suf dest i n pos :
  Forall (λ c, c ≠ 0 ∧ c ≠ 46) l → zlen pre = dest + 1 + i → i + zlen l <= n →
  encode_dots (length l + fuel) (pre ++ l ++ suf) dest i n pos =
  encode_dots fuel (pre ++ l ++ suf) dest (i + zlen l) n pos.
Proof.
  intros Hl. revert pre i. induction Hl as [|c l Hc _ IH]; intros pre i Hp Hn.
  { cbn [length plus]. by rewrite zlen_nil, Z.add_0_r. }
  rewrite zlen_cons in Hn. zl_nonneg. cbn [length plus encode_dots].
  rewrite (proj2 (Z.ltb_lt _ _)) by lia. rewrite <- Hp. cbn [app]. rewrite at_prefix. cbn [mbind option_bind].
  rewrite (proj2 (Z.eqb_neq _ _)) by apply Hc.
  specialize (IH (pre ++ [c]) (i + 1)). rewrite <- app_assoc in IH. cbn [app] in IH.
  rewrite IH by (zl || lia). rewrite zlen_cons. f_equal. lia.
Qed.

Lemma encode_dots_spec ls : ∀ fuel pre done_ y suf,
  Forall label_ok ls → (length (dots ls) < fuel)%nat →
  let i := zlen (wire done_) in
  encode_dots fuel (pre ++ wire done_ ++ y :: dots ls ++ suf) (zlen pre) i (i + zlen (dots ls)) i =
  Some (pre ++ wire (done_ ++ ls) ++ (match ls with [] => y | _ => 46 end) :: suf, i + zlen (dots ls)).
Proof.
  induction ls as [|l ls IH]; intros fuel pre done_ y suf Hok Hf i; unfold i; clear i.
  - rewrite app_nil_r. change (zlen (dots [])) with 0. rewrite Z.add_0_r.
    destruct fuel; [cbn in Hf; lia|]. cbn [encode_dots]. by rewrite Z.ltb_irrefl.
  - apply Forall_cons in Hok as [[Hl1 Hl2] Hok]. 
    change (dots (l :: ls)) with ((l ++ [46]) ++ dots ls) in *. rewrite !length_app in Hf. cbn [length] in Hf.
    replace fuel with (length l + S (fuel - length l - 1))%nat by lia.
    set (n := zlen (wire done_) + zlen ((l ++ [46]) ++ dots ls)).
    assert (zlen (wire done_) + zlen l + 1 + zlen (dots ls) = n) as Hn by (unfold n; zl).
    replace (pre ++ wire done_ ++ y :: ((l ++ [46]) ++ dots ls) ++ suf)
      with ((pre ++ wire done_ ++ [y]) ++ l ++ (46 :: dots ls ++ suf)) by app_eq.
    zl_nonneg. rewrite encode_dots_skip by (done || zl || lia).
    cbn [encode_dots]. rewrite (proj2 (Z.ltb_lt _ _)) by lia.
    replace (zlen pre + 1 + (zlen (wire done_) + zlen l)) with (zlen ((pre ++ wire done_ ++ [y]) ++ l)) by zl.
    rewrite app_assoc at 1. rewrite at_prefix. cbn [mbind option_bind]. change (46 =? 46) with true. cbn iota.
    replace (zlen (wire done_) + zlen l - zlen (wire done_)) with (zlen l) by lia.
    replace ((pre ++ wire done_ ++ [y]) ++ l ++ 46 :: dots ls ++ suf)
      with ((pre ++ wire done_) ++ [y] ++ l ++ 46 :: dots ls ++ suf) by app_eq.
    rewrite store_mid by (done || zl). cbn [mbind option_bind]. rewrite u8_small by lia.
    specialize (IH (fuel - length l - 1)%nat pre (done_ ++ [l]) 46 suf Hok ltac:(lia)). cbv zeta in IH.
    assert (zlen (wire (done_ ++ [l])) = zlen (wire done_) + zlen l + 1) as E.
    { rewrite wire_app. unfold wire at 2. cbn. rewrite app_nil_r. zl. }
    rewrite E, wire_app in IH. change (wire [l]) with ((zlen l :: l) ++ []) in IH. rewrite app_nil_r in IH.
    rewrite <- !app_assoc in IH. cbn [app] in *. rewrite <- app_assoc. cbn [app].
    rewrite Hn in IH. rewrite IH. do 2 f_equal.
    replace (done_ ++ l :: ls) with (done_ ++ [l] ++ ls) by done. by destruct ls.
Qed.

Lemma domain_encode_spec pre old suf ls :
  Forall label_ok ls → ls ≠ [] → zlen old = zlen (join ls) + 3 →
  domain_encode (join ls) (pre ++ old ++ suf) (zlen pre) = Some (pre ++ wire ls ++ 0 :: 0 :: suf).
Proof.
  intros Hok Hne Hold. unfold domain_encode. pose proof (zlen_nonneg (join ls)) as Hj.
  destruct old as [|x old]; [rewrite zlen_nil in Hold; lia|]. rewrite zlen_cons in Hold.
  assert (length old = length (join ls) + 2)%nat as Hlen by (unfold zlen in Hold; lia).
  rewrite <- (take_drop (length (join ls) + 1) old).
  set (a := take _ old). set (b := drop _ old).
  assert (length a = length (join ls) + 1)%nat as Ha by (unfold a; rewrite length_take; lia).
  assert (length b = 1)%nat as Hb by (unfold b; rewrite length_drop; lia).
  destruct b as [|z [|]]; try done. clearbody a.
  replace (pre ++ (x :: a ++ [z]) ++ suf) with ((pre ++ [x]) ++ a ++ z :: suf) by app_eq.
  rewrite (store_mid (pre ++ [x]) a) by (rewrite ?length_app; cbn; zl || lia). cbn [mbind option_bind].
  replace ((pre ++ [x]) ++ (join ls ++ [0]) ++ z :: suf) with ((pre ++ [x] ++ join ls) ++ [0] ++ z :: suf)
    by app_eq.
  rewrite store_mid by (done || zl). cbn [mbind option_bind].
  replace ((pre ++ [x] ++ join ls) ++ [46] ++ z :: suf) with ((pre ++ [x] ++ join ls ++ [46]) ++ [z] ++ suf)
    by app_eq.
  rewrite store_mid by (done || zl). cbn [mbind option_bind].
  pose proof (encode_dots_spec ls (S (Z.to_nat (zlen (join ls) + 1))) pre [] x (0 :: suf) Hok) as E.
  rewrite dots_join in E by done. cbv zeta in E. change (wire []) with (@nil Z) in E. change (zlen []) with 0 in E.
  replace (0 + zlen (join ls ++ [46])) with (zlen (join ls) + 1) in E by zl.
  cbn [app] in E. rewrite <- !app_assoc in E. cbn [app] in E.
  match goal with |- context [encode_dots _ ?m _ _ _ _] =>
    replace m with (pre ++ x :: join ls ++ 46 :: 0 :: suf) by app_eq end.
  rewrite E by (rewrite length_app; unfold zlen; cbn; lia).
  cbn [mbind option_bind]. destruct ls as [|l ls]; [done|].
  replace (pre ++ wire (l :: ls) ++ 46 :: 0 :: suf) with ((pre ++ wire (l :: ls)) ++ [46] ++ 0 :: suf)
    by app_eq.
  rewrite store_mid; [by rewrite <- !app_assoc| |done].
  rewrite zlen_app, wire_dots_zlen, dots_join by done. zl.
Qed.

(** *** Decoding *)

Lemma shift_loop_spec fuel l : ∀ pre x suf str i j,
  (length l <= fuel)%nat → zlen pre = str + i →
  shift_loop fuel (pre ++ x :: l ++ suf) str i j (j + zlen l) =
  Some (pre ++ l ++ default x (last l) :: suf, i + zlen l).
Proof.
  revert fuel. induction l as [|c l IH]; intros fuel pre x suf str i j Hf Hp.
  { cbn [app last default]. rewrite zlen_nil, !Z.add_0_r.
    destruct fuel; cbn [shift_loop]; by rewrite Z.ltb_irrefl. }
  cbn [length] in Hf. destruct fuel as [|fuel]; [lia|]. cbn [shift_loop]. rewrite zlen_cons. zl_nonneg.
  rewrite (proj2 (Z.ltb_lt _ _)) by lia.
  replace (pre ++ x :: (c :: l) ++ suf) with ((pre ++ [x]) ++ c :: l ++ suf) by app_eq.
  replace (str + i + 1) with (zlen (pre ++ [x])) by zl. rewrite at_prefix. cbn [mbind option_bind].
  replace ((pre ++ [x]) ++ c :: l ++ suf) with (pre ++ [x] ++ c :: l ++ suf) by app_eq.
  rewrite store_mid by (done || lia). cbn [mbind option_bind].
  replace (pre ++ [c] ++ c :: l ++ suf) with ((pre ++ [c]) ++ c :: l ++ suf) by app_eq.
  replace (j + (1 + zlen l)) with (j + 1 + zlen l) by lia.
  rewrite IH by (zl || lia). f_equal. f_equal; [|lia].
  rewrite <- app_assoc. cbn [app]. do 4 f_equal. destruct l as [|z l]; [done|].
  change (last (c :: z :: l)) with (last (z :: l)).
  destruct (last (z :: l)) eqn:E; [done|]. by apply last_None in E.
Qed.

Lemma decode_labels_spec ls : ∀ fuel pre done_ suf,
  Forall label_ok (done_ ++ ls) → (length ls <= fuel)%nat →
  decode_labels fuel (pre ++ dots done_ ++ wire ls ++ 0 :: suf) (zlen pre) (zlen (dots done_)) =
  Some (pre ++ dots (done_ ++ ls) ++ 0 :: suf, zlen (dots (done_ ++ ls))).
Proof.
  induction ls as [|l ls IH]; intros fuel pre done_ suf Hok Hf.
  - assert (strlen (pre ++ dots done_ ++ wire [] ++ 0 :: suf) (zlen pre) = Some (zlen (dots done_))) as E.
    { rewrite app_nil_r in Hok. apply strlen_spec. by apply dots_nonzero. }
    rewrite app_nil_r. destruct fuel; cbn [decode_labels]; rewrite E; cbn [mbind option_bind];
      by rewrite Z.ltb_irrefl.
  - cbn [length] in Hf. destruct fuel as [|fuel]; [lia|].
    pose proof Hok as [Hd [Hl Hls]%Forall_cons]%Forall_app. pose proof Hl as [Hl1 Hl2].
    assert (strlen (pre ++ dots done_ ++ wire (l :: ls) ++ 0 :: suf) (zlen pre)
      = Some (zlen (dots done_) + zlen (wire (l :: ls)))) as E.
    { rewrite <- zlen_app, (app_assoc (dots done_)). apply strlen_spec. apply Forall_app.
      split; [by apply dots_nonzero|apply wire_nonzero; by constructor]. }
    cbn [decode_labels]. rewrite E. cbn [mbind option_bind].
    change (wire (l :: ls)) with ((zlen l :: l) ++ wire ls). zl_nonneg.
    rewrite (proj2 (Z.ltb_lt _ _)) by zl.
    set (m := pre ++ _).
    assert (m = (pre ++ dots done_) ++ zlen l :: l ++ wire ls ++ 0 :: suf) as -> by (unfold m; app_eq).
    rewrite <- zlen_app, at_prefix. cbn [mbind option_bind].
    replace (u32 (i8 (zlen l))) with (0 + zlen l).
    2: { rewrite Z.add_0_l. unfold i8. rewrite (swrap_small 8) by lia. rewrite u32_small by lia. done. }
    rewrite shift_loop_spec; [|rewrite !length_app; cbn [length]; rewrite length_app; lia|zl].
    cbn [mbind option_bind].
    replace ((pre ++ dots done_) ++ l ++ default (zlen l) (last l) :: wire ls ++ 0 :: suf)
      with ((pre ++ dots done_ ++ l) ++ [default (zlen l) (last l)] ++ wire ls ++ 0 :: suf) by app_eq.
    rewrite store_mid by (done || zl). cbn [mbind option_bind].
    specialize (IH fuel pre (done_ ++ [l]) suf). rewrite <- app_assoc in IH. cbn [app] in IH.
    rewrite <- IH by (done || lia).
    assert (dots (done_ ++ [l]) = dots done_ ++ l ++ [46]) as Ed
      by (rewrite dots_app; unfold dots at 2; cbn; by rewrite app_nil_r).
    rewrite Ed. f_equal; [app_eq|zl].
Qed.

Lemma domain_decode_spec pre suf ls :
  Forall label_ok ls → ls ≠ [] →
  domain_decode (pre ++ wire ls ++ 0 :: suf) (zlen pre) = Some (pre ++ join ls ++ 0 :: 0 :: suf).
Proof.
  intros Hok Hne. unfold domain_decode.
  pose proof (decode_labels_spec ls (S (length (pre ++ wire ls ++ 0 :: suf))) pre [] suf Hok) as E.
  change (dots []) with (@nil Z) in E. change (zlen []) with 0 in E. cbn [app] in E. rewrite E.
  - cbn [mbind option_bind]. rewrite dots_join by done.
    replace (pre ++ (join ls ++ [46]) ++ 0 :: suf) with ((pre ++ join ls) ++ [46] ++ 0 :: suf) by app_eq.
    rewrite store_mid by (done || zl). f_equal. app_eq.
  - rewrite !length_app. enough (length ls <= length (wire ls))%nat by lia. clear.
    induction ls as [|l ls IH]; [done|]. change (wire (l :: ls)) with ((zlen l :: l) ++ wire ls).
    rewrite length_app. cbn [length]. lia.
Qed.

(** C26. Names survive the wire format: [domain_encode] of a host name writes its labels,
    each behind its length, and the root label, inside the [strlen + 3] bytes it
    uses, and [domain_decode] turns them back in place into the host name. *)
Theorem dns_name_roundtrip pre old suf ls :
  Forall label_ok ls → ls ≠ [] → zlen old = zlen (join ls) + 3 →
  ∃ m, domain_encode (join ls) (pre ++ old ++ suf) (zlen pre) = Some m ∧
    strlen m (zlen pre) = Some (zlen (wire ls)) ∧ load m (zlen pre) (zlen (wire ls)) = Some (wire ls) ∧
    ∃ m', domain_decode m (zlen pre) = Some m' ∧
      strlen m' (zlen pre) = Some (zlen (join ls)) ∧ load m' (zlen pre) (zlen (join ls)) = Some (join ls) ∧
      take (length pre) m' = pre ∧ drop (length pre + length (join ls) + 3) m' = suf.
Proof.
  intros Hok Hne Hold. eexists. split; [by apply domain_encode_spec|].
  split; [apply strlen_spec; by apply wire_nonzero|]. split; [by apply load_mid|].
  eexists. split; [by apply domain_decode_spec|].
  assert (Forall (λ c, c ≠ 0) (join ls)) as Hj.
  { pose proof (dots_nonzero ls Hok) as H. rewrite dots_join in H by done. by apply Forall_app in H as [? _]. }
  split; [by apply strlen_spec|]. split; [by apply load_mid|]. split; [by rewrite take_app_length|].
  replace (pre ++ join ls ++ 0 :: 0 :: 0 :: suf) with ((pre ++ join ls ++ [0; 0; 0]) ++ suf) by app_eq.
  rewrite drop_app_length'; [done|]. rewrite !length_app. cbn [length]. lia.
Qed.

Lemma dns_name_roundtrip_witness :
  ∃ m m', domain_encode (lit "www.a.com") (replicate 20 7) 0 = Some m ∧ domain_decode m 0 = Some m' ∧
    load m' 0 9 = Some (lit "www.a.com").
Proof.
  destruct (dns_name_roundtrip [] (replicate 12 7) (replicate 8 7) [lit "www"; lit "a"; lit "com"])
    as (m & H1 & _ & _ & m' & H2 & _ & H3 & _).
  - repeat constructor; done.
  - done.
  - by vm_compute.
  - exists m, m'. split_and!; assumption.
Defined.

(** ** Answers: proofs *)

(** A resource record on the wire, its name a pointer to the question. *)
Definition rr_wire (rr : bytes * (Z * bytes)) : bytes :=
  [192; 12] ++ be_bytes 2 rr.2.1 ++ [0; 1] ++ rr.1 ++ be_bytes 2 (zlen rr.2.2) ++ rr.2.2.
Definition rr_ok (rr : bytes * (Z * bytes)) : Prop :=
  zlen rr.1 = 4 ∧ 0 <= rr.2.1 < 65536 ∧ rr.2.1 ≠ 5 ∧ zlen rr.2.2 <= 254.

Lemma be16_spec pre v suf p :
  0 <= v < 65536 → p = zlen pre → be16 (pre ++ be_bytes 2 v ++ suf) p = Some v.
Proof.
  intros Hv ->. unfold be16. change (be_bytes 2 v) with [v / 256 mod 256; v mod 256]. cbn [app].
  rewrite at_prefix. cbn [mbind option_bind].
  replace (pre ++ v / 256 mod 256 :: v mod 256 :: suf) with ((pre ++ [v / 256 mod 256]) ++ v mod 256 :: suf)
    by app_eq.
  replace (zlen pre + 1) with (zlen (pre ++ [v / 256 mod 256])) by zl. rewrite at_prefix.
  cbn [mbind option_bind]. f_equal. zdiv.
Qed.

(** Copying an uncompressed name. *)
Lemma name_loop_copy fuel pre s suf : ∀ a b,
  Forall (λ c, c ≠ 0 ∧ c ≠ 192) s → (length s < fuel)%nat → (length s <= length b)%nat →
  name_loop fuel (pre ++ s ++ 0 :: suf) (zlen pre) (a ++ b) (zlen a) =
  Some (a ++ s ++ drop (length s) b, zlen a + zlen s).
Proof.
  revert fuel pre. induction s as [|c s IH]; intros [|fuel] pre a b Hs Hf Hb; cbn [length] in *; try lia.
  - cbn [name_loop app]. rewrite at_prefix. cbn [mbind option_bind]. change (0 =? 0) with true. cbn iota.
    by rewrite zlen_nil, Z.add_0_r.
  - apply Forall_cons in Hs as [[Hc1 Hc2] Hs]. cbn [name_loop app]. rewrite at_prefix. cbn [mbind option_bind].
    rewrite (proj2 (Z.eqb_neq _ _) Hc1), (proj2 (Z.eqb_neq _ _) Hc2).
    destruct b as [|x b]; [cbn in Hb; lia|]. cbn [length] in Hb.
    change (a ++ x :: b) with (a ++ [x] ++ b). rewrite store_mid by done. cbn [mbind option_bind].
    specialize (IH fuel (pre ++ [c]) (a ++ [c]) b Hs ltac:(lia) ltac:(lia)).
    replace ((pre ++ [c]) ++ s ++ 0 :: suf) with (pre ++ c :: s ++ 0 :: suf) in IH by app_eq.
    replace ((a ++ [c]) ++ b) with (a ++ [c] ++ b) in IH by app_eq.
    replace (zlen (pre ++ [c])) with (zlen pre + 1) in IH by zl.
    replace (zlen (a ++ [c])) with (zlen a + 1) in IH by zl.
    rewrite IH. f_equal. f_equal; [app_eq|zl].
Qed.

Lemma copy_loop_spec d : ∀ pre suf steps a b j,
  zlen a = j → zlen pre = steps + j → (length d <= length b)%nat →
  copy_loop (length d) (pre ++ d ++ suf) steps (a ++ b) j = Some (a ++ d ++ drop (length d) b).
Proof.
  induction d as [|c d IH]; intros pre suf steps a b j Ha Hp Hb; [done|]. cbn [length] in *.
  destruct b as [|x b]; [cbn in Hb; lia|]. cbn [length] in Hb. cbn [copy_loop app].
  rewrite <- Hp, at_prefix. cbn [mbind option_bind].
  change (a ++ x :: b) with (a ++ [x] ++ b). rewrite store_mid by done. cbn [mbind option_bind].
  specialize (IH (pre ++ [c]) suf steps (a ++ [c]) b (j + 1)).
  replace ((pre ++ [c]) ++ d ++ suf) with (pre ++ c :: d ++ suf) in IH by app_eq.
  replace ((a ++ [c]) ++ b) with (a ++ [c] ++ b) in IH by app_eq.
  rewrite IH by (zl || lia). f_equal. app_eq.
Qed.

(** [domain_decode] of a name that is not in wire format takes its first character
    for a length; this stays inside the row while the name is no longer than that. *)
Lemma domain_decode_text c s tail :
  Forall (λ x, x ≠ 0) (c :: s) → zlen (c :: s) <= c < 128 →
  c + 1 < zlen (c :: s ++ 0 :: tail) →
  ∃ m', domain_decode (c :: s ++ 0 :: tail) 0 = Some m'.
Proof.
  intros Hnz Hc Hm. rewrite zlen_cons in Hc. zl_nonneg. autorewrite with zlen in Hm.
  unfold domain_decode. cbn [length decode_labels].
  rewrite (strlen_spec [] (c :: s) tail Hnz : strlen (c :: s ++ 0 :: tail) 0 = _). cbn [mbind option_bind].
  rewrite zlen_cons, (proj2 (Z.ltb_lt _ _)) by lia. change (at_ (c :: s ++ 0 :: tail) (0 + 0)) with (Some c).
  cbn [mbind option_bind].
  assert (∃ t1 t2, tail = t1 ++ t2 ∧ zlen t1 = c - 1 - zlen s ∧ t2 ≠ []) as (t1 & t2 & -> & Ht1 & Ht2).
  { exists (take (Z.to_nat (c - 1 - zlen s)) tail), (drop (Z.to_nat (c - 1 - zlen s)) tail).
    unfold zlen in *. rewrite take_drop, length_take. split_and!; [done|lia|].
    intros E%(f_equal length). rewrite length_drop in E. cbn in E. lia. }
  replace (u32 (i8 c)) with (0 + zlen (s ++ 0 :: t1)).
  2: { unfold i8. rewrite (swrap_small 8) by lia. rewrite u32_small by lia. zl. }
  replace (c :: s ++ 0 :: t1 ++ t2) with ([] ++ c :: (s ++ 0 :: t1) ++ t2) by app_eq.
  rewrite shift_loop_spec; [|rewrite !length_app; cbn [length]; rewrite !length_app; lia|done].
  cbn [mbind option_bind app]. set (x := default _ _). set (l := s ++ 0 :: t1).
  assert (zlen l = c) as Hl by (unfold l; zl).
  replace (l ++ x :: t2) with (l ++ [x] ++ t2) by done. rewrite store_mid by (done || lia).
  cbn [mbind option_bind].
  assert (strlen (l ++ [46] ++ t2) 0 = Some (zlen s)) as E.
  { apply Forall_cons in Hnz as [_ Hnz].
    rewrite <- (strlen_spec [] s (t1 ++ 46 :: t2) Hnz). f_equal. unfold l. app_eq. }
  destruct (length _) as [|f] at 1; cbn [decode_labels]; rewrite E; cbn [mbind option_bind];
    rewrite (proj2 (Z.ltb_ge _ _)) by lia; cbn [mbind option_bind].
  all: rewrite store_mid by (done || lia); by eexists.
Qed.

Lemma be_bytes_2_zlen v : zlen (be_bytes 2 v) = 2.
Proof. unfold zlen. by rewrite be_bytes_length. Qed.

Section Answer.
(** The question's name as it stands in the packet after it was decoded. *)
Context (head : bytes) (c : Z) (s : bytes) (rest : bytes).
Context (Hhead : zlen head = 12) (Hname : Forall (λ x, x ≠ 0 ∧ x ≠ 192) (c :: s))
  (Hc : zlen (c :: s) <= c < 128).

Let packet := head ++ (c :: s) ++ 0 :: rest.

(** A pointer to the question copies its name ... *)
Lemma name_pointer fuel name P S :
  packet = P ++ 192 :: 12 :: S → length name = row_size → (length s + 2 < fuel)%nat →
  name_loop fuel packet (zlen P) name 0 = Some ((c :: s) ++ drop (length (c :: s)) name, zlen (c :: s)).
Proof.
  intros HP Hn Hf. destruct fuel as [|fuel]; [lia|]. cbn [name_loop].
  assert (at_ packet (zlen P) = Some 192) as -> by (rewrite HP; apply at_prefix).
  assert (at_ packet (zlen P + 1) = Some 12) as ->.
  { rewrite HP. replace (P ++ 192 :: 12 :: S) with ((P ++ [192]) ++ 12 :: S) by app_eq.
    replace (zlen P + 1) with (zlen (P ++ [192])) by zl. apply at_prefix. }
  cbn [mbind option_bind]. change (192 =? 0) with false. change (192 =? 192) with true. cbn iota.
  rewrite <- Hhead. unfold packet.
  rewrite zlen_cons in Hc. unfold row_size, zlen in *.
  apply (name_loop_copy fuel head (c :: s) rest [] name Hname); cbn [length]; lia.
Qed.

(** ... which is then decoded once more, to no effect but inside its row. *)
Lemma name_decoded name :
  length name = row_size →
  ∃ m m', store ((c :: s) ++ drop (length (c :: s)) name) (zlen (c :: s)) [0] = Some m ∧
    domain_decode m 0 = Some m'.
Proof.
  intros Hn. rewrite zlen_cons in Hc. zl_nonneg.
  assert (length s < 128)%nat as Hs by (unfold zlen in Hc; lia).
  destruct (drop (length (c :: s)) name) as [|y tl] eqn:E;
    apply (f_equal length) in E; rewrite length_drop, Hn in E; unfold row_size in E; cbn [length] in E; [lia|].
  change (y :: tl) with ([y] ++ tl). rewrite store_mid by done. eexists. 
  assert (Forall (λ x, x ≠ 0) (c :: s)) as Hnz by (eapply Forall_impl; [exact Hname|]; naive_solver).
  destruct (domain_decode_text c s tl Hnz) as [m' Em]; [rewrite zlen_cons; lia| |by exists m'].
  autorewrite with zlen. unfold zlen in *. lia.
Qed.

Lemma parse_record_spec fuel name P rr S :
  rr_ok rr → packet = P ++ rr_wire rr ++ S → length name = row_size → (length s + 2 < fuel)%nat →
  parse_record fuel name packet (zlen P) =
  Some (rr.2.1, rr.2.2 ++ replicate (row_size - length rr.2.2) 0, zlen P + zlen (rr_wire rr)).
Proof.
  intros (Httl & Ht & Ht5 & Hd) HP Hn Hf. destruct rr as [ttl [type d]]. cbn [fst snd] in *. zl_nonneg.
  set (flags := be_bytes 2 type ++ [0; 1] ++ ttl).
  assert (zlen flags = 8) as Hfl by (unfold flags; rewrite !zlen_app, be_bytes_2_zlen; zl).
  unfold parse_record.
  rewrite (name_pointer fuel name P (flags ++ be_bytes 2 (zlen d) ++ d ++ S)); [|rewrite HP; unfold flags, rr_wire; app_eq|done..].
  cbn [mbind option_bind]. destruct (name_decoded name Hn) as (m & m' & -> & E). cbn [mbind option_bind].
  rewrite E. cbn [mbind option_bind].
  assert (be16 packet (zlen P + 2) = Some type) as ->.
  { assert (packet = (P ++ [192; 12]) ++ be_bytes 2 type ++ [0; 1] ++ ttl ++ be_bytes 2 (zlen d) ++ d ++ S) as ->
      by (rewrite HP; unfold rr_wire; app_eq). apply be16_spec; [done|zl]. }
  cbn [mbind option_bind].
  assert (be16 packet (zlen P + 2 + 8) = Some (zlen d)) as ->.
  { assert (packet = (P ++ [192; 12] ++ flags) ++ be_bytes 2 (zlen d) ++ d ++ S) as ->
      by (rewrite HP; unfold rr_wire, flags; app_eq). apply be16_spec; [lia|zl]. }
  cbn [mbind option_bind].
  assert (copy_loop (Z.to_nat (zlen d)) packet (zlen P + 2 + sizeof_rrflags - 2) (replicate row_size 0) 0
    = Some (d ++ replicate (row_size - length d) 0)) as ->.
  { assert (packet = (P ++ [192; 12] ++ flags ++ be_bytes 2 (zlen d)) ++ d ++ S) as ->
      by (rewrite HP; unfold rr_wire, flags; app_eq).
    unfold zlen at 1. rewrite Nat2Z.id. rewrite <- drop_replicate.
    apply (copy_loop_spec d _ S _ [] (replicate row_size 0) 0); [done| |].
    - unfold sizeof_rrflags. rewrite !zlen_app, be_bytes_2_zlen, !zlen_cons, zlen_nil. lia.
    - rewrite length_replicate. unfold row_size, zlen in *. lia. }
  cbn [mbind option_bind]. rewrite (proj2 (Z.eqb_neq _ _) Ht5). cbn [mbind option_bind]. do 2 f_equal.
  unfold rr_wire, sizeof_rrflags. cbn [fst snd].
  rewrite !zlen_app, !be_bytes_2_zlen, !zlen_cons, zlen_nil. lia.
Qed.

Definition stored (rr : bytes * (Z * bytes)) : Z * bytes :=
  (rr.2.1, rr.2.2 ++ replicate (row_size - length rr.2.2) 0).

Lemma parse_records_spec fuel name rrs : ∀ i P S,
  Forall rr_ok rrs → packet = P ++ concat (rr_wire <$> rrs) ++ S → (∀ i, length (name i) = row_size) →
  (length s + 2 < fuel)%nat →
  parse_records (length rrs) fuel i name packet (zlen P) = Some (stored <$> rrs).
Proof.
  induction rrs as [|rr rrs IH]; intros i P S Hok HP Hn Hf; [done|].
  apply Forall_cons in Hok as [Hrr Hok]. cbn [length parse_records fmap list_fmap].
  cbn [fmap list_fmap concat] in HP. rewrite <- app_assoc in HP.
  rewrite (parse_record_spec fuel (name i) P rr (concat (rr_wire <$> rrs) ++ S)) by done.
  cbn [mbind option_bind]. rewrite <- zlen_app, (IH (Datatypes.S i) (P ++ rr_wire rr) S);
    [done|done|by rewrite HP, <- app_assoc|done|done].
Qed.
End Answer.

Lemma nth_zeros (d : bytes) k i : nth i (d ++ replicate k 0) 0 = nth i d 0.
Proof.
  revert i. induction d as [|x d IH]; intros i; cbn [app].
  - revert i. induction k as [|k IH]; intros [|i]; cbn; try done. rewrite IH. by destruct i.
  - destruct i; cbn; [done|apply IH].
Qed.

(** The unused bytes of a row are zero and do not show in an address. *)
Lemma addresses_stored rrs : addresses (stored <$> rrs) = addresses (snd <$> rrs).
Proof.
  assert (∀ d b, parse_ip_address (d ++ replicate (row_size - length d) 0) b = parse_ip_address d b) as Hp.
  { intros d b. unfold parse_ip_address. destruct b; [by rewrite !nth_zeros|].
    f_equal. apply list_fmap_ext. intros. by rewrite !nth_zeros. }
  unfold addresses. induction rrs as [|[ttl [t d]] rrs IH]; [done|]. cbn [fmap list_fmap].
  change (stored (ttl, (t, d))) with (t, d ++ replicate (row_size - length d) 0).
  rewrite !filter_cons. cbn [fst snd].
  destruct (decide (t = OSW_DNS_A_RECORD ∨ t = OSW_DNS_AAAA_RECORD)); [|exact IH].
  cbn [fmap list_fmap fst snd]. rewrite Hp. f_equal. exact IH.
Qed.

(** A response to a question for the name [ls]: header, question, answers, and whatever
    follows them. *)
Definition response (id : Z) (f1 f2 : bytes) (ls : list bytes) (qflags : bytes)
    (rrs : list (bytes * (Z * bytes))) (extra : bytes) : bytes :=
  (be_bytes 2 id ++ f1 ++ be_bytes 2 (zlen rrs) ++ f2) ++ wire ls ++ 0 :: qflags ++
  concat (rr_wire <$> rrs) ++ extra.

Lemma join_nonempty ls : Forall label_ok ls → ls ≠ [] → join ls ≠ [].
Proof.
  intros [|l ls' [Hl _] _] Hne E; [done|]. destruct l; [by destruct Hl|]. by destruct ls'.
Qed.

(** C33. The addresses of a lookup are those of the answer records.  From a response with
    any header flags and up to ten answers that point to the question's name (of any type
    but CNAME, with at most 254 bytes of data), of which the name is no longer than its
    first character's code, exactly the A and AAAA records' addresses are returned, in
    order, and all accesses stay inside the packet and the rows; a response to another
    request gives none. *)
Theorem dns_answers_parsed fuel name packet request_id id f1 f2 ls qflags rrs extra :
  let datagram := response id f1 f2 ls qflags rrs extra in
  let n := zlen (join ls) in
  length packet = OSW_BUFFER_SIZE_STD → zlen datagram < 8192 → (∀ i, length (name i) = row_size) →
  0 <= id < 65536 → zlen f1 = 4 → zlen f2 = 4 → zlen qflags = 4 →
  Forall label_ok ls → ls ≠ [] → Forall (λ x, x ≠ 192) (join ls) → n <= nth 0 (join ls) 0 < 128 →
  Forall rr_ok rrs → zlen rrs <= 10 → (length (join ls) + 2 < fuel)%nat →
  dns_answer fuel name packet request_id datagram =
    Some (if id =? request_id then addresses (snd <$> rrs) else []).
Proof.
  intros datagram n Hp Hd Hname Hid Hf1 Hf2 Hq Hls Hne H192 Hfirst Hrrs Hrn Hfuel.
  set (head := be_bytes 2 id ++ f1 ++ be_bytes 2 (zlen rrs) ++ f2).
  assert (zlen head = 12) as Hh by (unfold head; rewrite !zlen_app, !be_bytes_2_zlen; lia).
  unfold dns_answer. rewrite take_ge by (unfold zlen, OSW_BUFFER_SIZE_STD in *; lia).
  rewrite bool_decide_eq_false_2.
  2: { intros E. assert (zlen datagram = 0) as E0 by by rewrite E. unfold datagram, response in E0.
       fold head in E0. rewrite zlen_app in E0. zl_nonneg. lia. }
  set (tail := drop (length (datagram ++ [0])) packet).
  assert (store packet 0 (datagram ++ [0]) =
    Some (head ++ wire ls ++ 0 :: qflags ++ concat (rr_wire <$> rrs) ++ extra ++ 0 :: tail)) as ->.
  { rewrite store_Some by (rewrite ?zlen_app; unfold zlen, OSW_BUFFER_SIZE_STD in *; cbn [length]; lia).
    change (Z.to_nat 0) with 0%nat. cbn [take plus app]. fold tail. unfold datagram, response. fold head.
    f_equal. app_eq. }
  cbn [mbind option_bind]. unfold sizeof_header. rewrite <- Hh at 1. rewrite domain_decode_spec by done.
  cbn [mbind option_bind].
  pose proof (dots_nonzero ls Hls) as Hnz. rewrite dots_join in Hnz by done. apply Forall_app in Hnz as [Hnz _].
  set (rest := 0 :: qflags ++ concat (rr_wire <$> rrs) ++ extra ++ 0 :: tail).
  rewrite <- Hh at 1. rewrite strlen_spec by done. cbn [mbind option_bind].
  assert (be16 (head ++ join ls ++ 0 :: rest) 6 = Some (zlen rrs)) as ->.
  { unfold head. replace ((be_bytes 2 id ++ f1 ++ be_bytes 2 (zlen rrs) ++ f2) ++ join ls ++ 0 :: rest)
      with ((be_bytes 2 id ++ f1) ++ be_bytes 2 (zlen rrs) ++ f2 ++ join ls ++ 0 :: rest) by app_eq.
    pose proof (zlen_nonneg rrs). apply be16_spec; [lia|]. rewrite zlen_app, be_bytes_2_zlen. lia. }
  cbn [mbind option_bind]. rewrite Z.gtb_ltb, (proj2 (Z.ltb_ge _ _)) by lia.
  pose proof (join_nonempty ls Hls Hne) as Hjne. subst n.
  destruct (join ls) as [|c s] eqn:Ej; [done|]. cbn [nth] in Hfirst.
  replace (Z.to_nat (zlen rrs)) with (length rrs) by (unfold zlen; lia).
  replace (12 + (zlen (c :: s) + 2) + sizeof_qflags) with (zlen (head ++ (c :: s) ++ 0 :: 0 :: qflags))
    by (unfold sizeof_qflags; zl).
  rewrite (parse_records_spec head c s rest Hh) with (S := extra ++ 0 :: tail).
  - cbn [mbind option_bind].
    assert (be16 (head ++ (c :: s) ++ 0 :: rest) 0 = Some id) as ->.
    { unfold head. rewrite <- app_assoc. by apply (be16_spec []). }
    cbn [mbind option_bind]. destruct (id =? request_id); cbn [negb]; [|done]. by rewrite addresses_stored.
  - apply Forall_and; split; done.
  - done.
  - done.
  - unfold rest. app_eq.
  - done.
  - cbn [length] in Hfuel. lia.
Qed.

Definition example_response : bytes :=
  response 7 [129; 128; 0; 1] [0; 0; 0; 0] [lit "www"; lit "a"; lit "com"] [0; 1; 0; 1]
    [([0; 0; 0; 9], (1, [10; 0; 0; 255])); ([0; 0; 0; 9], (28, replicate 16 17))] [].

Lemma dns_answers_parsed_witness :
  dns_answer 20 (λ _, replicate row_size 170) (replicate OSW_BUFFER_SIZE_STD 0) 7 example_response =
  Some ["10.0.0.255"; "1111:1111:1111:1111:1111:1111:1111:1111"]%string.
Proof.
  unfold example_response. etrans; [apply dns_answers_parsed|by vm_compute].
  all: first [intros; apply length_replicate | done | repeat constructor; done | cbn; lia].
Defined.

(** A name that points to itself: the loop never ends, whatever is in the packet. *)
Lemma name_pointer_loops fuel packet t name j :
  at_ packet t = Some 192 → at_ packet (t + 1) = Some t → name_loop fuel packet t name j = None.
Proof.
  intros H1 H2. induction fuel as [|fuel IH]; [done|]. cbn [name_loop]. rewrite H1.
  cbn [mbind option_bind]. change (192 =? 0) with false. change (192 =? 192) with true. cbn iota.
  by rewrite H2.
Qed.

(** An answer with more than 254 bytes of data overruns its row. *)
Example rdata_overflows :
  dns_answer 1000 (λ _, replicate row_size 170) (replicate OSW_BUFFER_SIZE_STD 0) 7
    (response 7 [129; 128; 0; 1] [0; 0; 0; 0] [lit "www"; lit "a"; lit "com"] [0; 1; 0; 1]
      [([0; 0; 0; 9], (16, replicate 255 1))] []) = None.
Proof. by vm_compute. Qed.
