(* ===== verification/HttpPort.v ===== *)
(** * Reading HTTP requests from a connection: [Port_onRead_http] of src/server/port.cc

    The handlers of a readable connection.  In HTTP mode the handler receives into the
    connection's buffer, parses with the operations of [Http] and hands complete
    requests to the workers; a connection that was upgraded to WebSocket or HTTP/2 is
    read by frames, with [recv_with_length_protocol] of [Protocol].  The handlers
    compose the request parser, the receive buffer ([SwString]) and the socket and the
    framing of [Protocol]; allocations succeed, and TLS is left out.

    Parameters: [fresh n] is a new block of [n] bytes, [base] the address of the
    buffer, [static_handler] tells whether the static-file handler serves a request,
    [closes data] whether the dispatch of [data] leaves the connection inactive or
    removed; [chunk_fuel] and [frame_fuel] bound the loops over the chunks and the
    frames.  [handled] is the list of the requests handed over, with the flag of
    those served statically, [sent] that of the packets sent back. *)

From S2P Require Import Prelude Pack SwString Protocol WebSocket Http2 Http.

Definition OSW_HTTP_HEADER_MAX_SIZE : Z := 65536.
Definition OSW_BUFFER_SIZE_BIG : nat := Z.to_nat 65536.
Definition OSW_HTTP_BAD_REQUEST_PACKET : bytes := lit "HTTP/1.1 400 Bad Request" ++ crlf ++ crlf.
Definition OSW_HTTP_REQUEST_ENTITY_TOO_LARGE_PACKET : bytes :=
  lit "HTTP/1.1 413 Request Entity Too Large" ++ crlf ++ crlf.

(** The port's protocol with its function pointers: the length functions look at the
    connection's [websocket_status] and [http2_stream], the package function returns
    its result, whether it removed the connection, and what was handed over. *)
Record ListenPort := MkListenPort {
  protocol : Protocol; length_func : Z → bool → bytes → option Z;
  length_size_func : option (Z → bool → Z);
  package_func : list (bool * bytes) → bytes → Z * bool * list (bool * bytes);
  open_http2_protocol : bool }.

(** A connection with its socket: the request and the buffer, the state of the
    upgrades, the socket's flags, what the network brings, whether the connection is
    closed, and what was handed over and sent. *)
Record HttpConn := MkHttpConn {
  request : Request; tried_to_dispatch : bool;
  http2_stream : bool; websocket_status : Z; http_upgrade : bool;
  h_recv_wait : bool; h_skip_recv : bool; hnet : list recv_event; closed : bool;
  handled : list (bool * bytes); sent : list bytes }.

Definition set_request (c : HttpConn) (r : Request) : HttpConn :=
  MkHttpConn r (tried_to_dispatch c) (http2_stream c) (websocket_status c) (http_upgrade c)
    (h_recv_wait c) (h_skip_recv c) (hnet c) (closed c) (handled c) (sent c).
Definition set_tried (c : HttpConn) (b : bool) : HttpConn :=
  MkHttpConn (request c) b (http2_stream c) (websocket_status c) (http_upgrade c)
    (h_recv_wait c) (h_skip_recv c) (hnet c) (closed c) (handled c) (sent c).
Definition set_hnet (c : HttpConn) (n : list recv_event) : HttpConn :=
  MkHttpConn (request c) (tried_to_dispatch c) (http2_stream c) (websocket_status c)
    (http_upgrade c) (h_recv_wait c) (h_skip_recv c) n (closed c) (handled c) (sent c).
Definition set_upgrade (c : HttpConn) (h2 : bool) (ws : Z) (up skip : bool) : HttpConn :=
  MkHttpConn (request c) (tried_to_dispatch c) h2 ws up
    (h_recv_wait c) skip (hnet c) (closed c) (handled c) (sent c).
Definition handle (c : HttpConn) (static closing : bool) (data : bytes) : HttpConn :=
  MkHttpConn (request c) (tried_to_dispatch c) (http2_stream c) (websocket_status c)
    (http_upgrade c) (h_recv_wait c) (h_skip_recv c) (hnet c) (closed c || closing)
    (handled c ++ [(static, data)]) (sent c).
Definition send (c : HttpConn) (packets : list bytes) : HttpConn :=
  MkHttpConn (request c) (tried_to_dispatch c) (http2_stream c) (websocket_status c)
    (http_upgrade c) (h_recv_wait c) (h_skip_recv c) (hnet c) (closed c) (handled c)
    (sent c ++ packets).
Definition trigger_close_event (c : HttpConn) : HttpConn :=
  MkHttpConn (request c) (tried_to_dispatch c) (http2_stream c) (websocket_status c)
    (http_upgrade c) (h_recv_wait c) (h_skip_recv c) (hnet c) true (handled c) (sent c).

(** The request's buffer as a [String], and back. *)
Definition buffer_of (r : Request) : String :=
  MkString (b_length r) (zlen (b_str r)) (b_offset r) (b_str r).
Definition with_buffer (r : Request) (b : String) : Request :=
  MkRequest (method r) (version r) (excepted r) (header_parsed r) (known_length r) (keep_alive r)
    (chunked r) (nobody_chunked r) (url_offset_ r) (url_length_ r) (request_line_length_ r)
    (header_length_ r) (content_length_ r) (s_length b) (s_offset b) (s_str b).

(** [request->clean()], and a new [Request] on the same buffer after
    [destroy_http_request]. *)
Definition clean (r : Request) : Request := set_offset (new_request (b_length r) (b_str r)) (b_offset r).

Definition destroy_http_request (c : HttpConn) : HttpConn :=
  set_tried (set_request c (clean (request c))) false.
Definition clear_buffer (c : HttpConn) : HttpConn :=
  set_request c (with_buffer (request c) (clear (buffer_of (request c)))).

(** [_close_fd], with the packet that is sent before. *)
Definition close_fd (c : HttpConn) (packet : list bytes) : HttpConn :=
  trigger_close_event (destroy_http_request (send c packet)).

Section HttpPort.
Variable fresh : nat → bytes.
Variable base : Z.
Variables chunk_fuel frame_fuel : nat.
Variable port : ListenPort.
Variable static_handler : Request → bool.
Variable closes : bytes → bool.

(** ** Framed connections *)

(** The socket of [Protocol] that a connection is, and back. *)
Definition conn_of (c : HttpConn) : Protocol.Conn (list (bool * bytes)) :=
  Protocol.MkConn (buffer_of (request c)) (hnet c) (h_recv_wait c) (h_skip_recv c) (closed c) (handled c).
Definition with_conn (c : HttpConn) (s : Protocol.Conn (list (bool * bytes))) : HttpConn :=
  MkHttpConn (with_buffer (request c) (Protocol.buffer s)) (tried_to_dispatch c) (http2_stream c)
    (websocket_status c) (http_upgrade c) (recv_wait s) (skip_recv s) (net s) (removed s) (app s)
    (sent c).

(** What follows a framed read: the close event, and a large buffer that is empty is
    replaced at the next event. *)
Definition after_read (ret : Z) (c : HttpConn) : HttpConn :=
  let c := if ret <? 0 then trigger_close_event c else c in
  if (b_length (request c) =? 0) && (65536 * 2 <? zlen (b_str (request c)))
  then set_request c (with_buffer (request c)
         (MkString 0 65536 0 (fresh OSW_BUFFER_SIZE_BIG)))
  else c.

Definition Port_onRead_check_length (c : HttpConn) : option (Z * HttpConn) :=
  '(ret, s) ← recv_with_length_protocol fresh (package_func port)
      (length_func port (websocket_status c) (http2_stream c)) frame_fuel (protocol port)
      ((λ f, f (websocket_status c) (http2_stream c)) <$> length_size_func port) (conn_of c);
  Some (OSW_OK, after_read ret (with_conn c s)).

Definition Port_onRead_check_eof (pagesize : Z) (c : HttpConn) : option (Z * HttpConn) :=
  '(ret, s) ← recv_with_eof_protocol fresh (package_func port) frame_fuel pagesize
      (protocol port) false (conn_of c);
  Some (OSW_OK, after_read ret (with_conn c s)).

(** Every piece that [recv] returns is a package; the result is the dispatch's. *)
Definition Port_onRead_raw (c : HttpConn) : option (Z * HttpConn) :=
  let r := request c in
  let '(e, net) := recv (hnet c) (zlen (b_str r)) in
  let c := set_hnet c net in
  match e with
  | Got data =>
    m ← store (b_str r) 0 data;
    let b := MkString (zlen data) (zlen (b_str r)) (zlen data) m in
    let '(ret, rm, h) := package_func port (handled c) data in
    Some (ret, MkHttpConn (with_buffer r b) (tried_to_dispatch c) (http2_stream c) (websocket_status c)
      (http_upgrade c) (h_recv_wait c) (h_skip_recv c) (hnet c) (closed c || rm) h (sent c))
  | WouldBlock | Failed => Some (OSW_OK, c)
  | PeerClosed | Broken => Some (OSW_OK, trigger_close_event c)
  end.

(** ** HTTP connections *)

(** [buffer->extend_align(n)]. *)
Fixpoint align_loop (fuel : nat) (align_size new_size : Z) : option Z :=
  if align_size <? new_size then
    match fuel with O => None | S fuel => align_loop fuel (align_size * 2) new_size end
  else Some align_size.
Definition extend_align (b : String) (new_size : Z) : option String :=
  n ← align_loop 64 (OSW_MEM_ALIGNED_SIZE (s_size b * 2)) new_size;
  Some (reserve fresh b n).

(** [buffer->size] grows to hold the request. *)
Definition make_room (r : Request) (request_length : Z) : option Request :=
  b ← (if zlen (b_str r) <? request_length then extend fresh (buffer_of r) request_length
       else Some (buffer_of r));
  Some (with_buffer r b).
Definition make_room_chunked (r : Request) (request_length : Z) : option Request :=
  b ← (let b := buffer_of r in
       if s_length b =? s_size b then extend fresh b (s_size b * 2) else Some b);
  b ← (if s_size b <? request_length then extend_align b request_length else Some b);
  Some (with_buffer r b).

Inductive hlabel := _recv_data | _parse.

(** The dispatch of a whole request with a body, and what follows. *)
Definition dispatch_body (c : HttpConn) (request_length : Z) : option ((Z + hlabel) * HttpConn) :=
  let r := request c in
  let r := MkRequest (method r) (version r) (excepted r) (header_parsed r) (known_length r)
    (keep_alive r) (chunked r) (nobody_chunked r) (url_offset_ r) (url_length_ r)
    (request_line_length_ r) (header_length_ r) (content_length_ r)
    (if request_length <? b_length r then request_length else b_length r) request_length (b_str r) in
  data ← load (b_str r) 0 (b_length r);
  let c := handle (set_request c r) false (closes data) data in
  if closed c then Some (inl OSW_OK, c) else
  let c := destroy_http_request c in
  Some (inl OSW_OK,
    if 65536 * 2 <? zlen (b_str r)
    then set_request c (new_request 0 (fresh OSW_BUFFER_SIZE_BIG))
    else clear_buffer c).

(** The rest of the handler once the header is complete and parsed. *)
Definition read_body (c : HttpConn) : option ((Z + hlabel) * HttpConn) :=
  let r := request c in
  if chunked r then
    i ← get_chunked_body_length chunk_fuel base r;
    match i with
    | Continue _ _ => None
    | Return ret r =>
      let c := set_request c r in
      if ret <? 0 then
        if excepted r then Some (inl OSW_OK, close_fd c [OSW_HTTP_BAD_REQUEST_PACKET]) else
        let request_length := u32 (header_length_ r + content_length_ r) in
        if package_max_length (protocol port) <? request_length
        then Some (inl OSW_OK, close_fd c [OSW_HTTP_REQUEST_ENTITY_TOO_LARGE_PACKET]) else
        r ← make_room_chunked r request_length;
        Some (inr _recv_data, set_request c r)
      else dispatch_body c (u32 (header_length_ r + content_length_ r))
    end
  else
    let request_length := u32 (header_length_ r + content_length_ r) in
    if package_max_length (protocol port) <? request_length
    then Some (inl OSW_OK, close_fd c [OSW_HTTP_REQUEST_ENTITY_TOO_LARGE_PACKET]) else
    r ← make_room r request_length;
    let c := set_request c r in
    if b_length r <? request_length then Some (inr _recv_data, c) else dispatch_body c request_length.

(** The first attempt to dispatch: requests without a body. *)
Definition try_dispatch (c : HttpConn) : option ((Z + hlabel) * HttpConn) :=
  let r := request c in
  if tried_to_dispatch c then read_body c else
  if nobody_chunked r && (b_length r <? header_length_ r + 5) then Some (inr _recv_data, c) else
  let r := if nobody_chunked r
           then set_lengths r (request_line_length_ r) (u32 (header_length_ r + 5)) (content_length_ r)
           else r in
  let c := set_tried (set_request c r) true in
  if (content_length_ r =? 0) && (known_length r || negb (chunked r)) then
    let r := set_offset r (header_length_ r) in
    data ← load (b_str r) 0 (header_length_ r);
    let static := static_handler r in
    let c := handle (set_request c r) static (closes data) data in
    if closed c then Some (inl OSW_OK, c) else
    if header_length_ r <? b_length r then
      b ← reduce (buffer_of r) (header_length_ r);
      Some (inr _parse, set_tried (set_request c (clean (with_buffer r b))) false)
    else Some (inl OSW_OK, clear_buffer (destroy_http_request c))
  else read_body c.

(** [_parse]: the request line and the header. *)
Definition parse (c : HttpConn) : option ((Z + hlabel) * HttpConn) :=
  '(ret, r) ← (if method (request c) =? 0 then get_protocol (request c) else Some (OSW_OK, request c));
  let c := set_request c r in
  if ret <? 0 then
    if negb (excepted r) && (b_length r <? OSW_HTTP_HEADER_MAX_SIZE) then Some (inl OSW_OK, c)
    else Some (inl OSW_OK, close_fd c [OSW_HTTP_BAD_REQUEST_PACKET])
  else if OSW_HTTP_PRI <? method r then Some (inl OSW_OK, close_fd c [OSW_HTTP_BAD_REQUEST_PACKET])
  else if method r =? OSW_HTTP_PRI then
    if negb (open_http2_protocol port) then Some (inl OSW_OK, close_fd c [OSW_HTTP_BAD_REQUEST_PACKET]) else
    let c := send (set_upgrade c true (websocket_status c) (http_upgrade c) (h_skip_recv c))
               [send_setting_frame] in
    if b_length r =? zlen OSW_HTTP2_PRI_STRING
    then Some (inl OSW_OK, clear_buffer (destroy_http_request c)) else
    b ← reduce (buffer_of r) (b_offset r);
    let c := destroy_http_request (set_request c (with_buffer r b)) in
    '(ret, c) ← Port_onRead_check_length (set_upgrade c true (websocket_status c) (http_upgrade c) true);
    Some (inl ret, c)
  else
  '(ret, r) ← (if header_length_ r =? 0 then get_header_length r else Some (OSW_OK, r));
  let c := set_request c r in
  if ret <? 0 then
    if zlen (b_str r) =? b_length r
    then Some (inl OSW_OK, close_fd c [OSW_HTTP_BAD_REQUEST_PACKET])
    else Some (inr _recv_data, c)
  else
  r ← (if header_parsed r then Some r else parse_header_info r);
  try_dispatch (set_request c r).

(** [_recv_data]. *)
Definition recv_data (c : HttpConn) : option ((Z + hlabel) * HttpConn) :=
  let r := request c in
  let '(e, net) := recv (hnet c) (zlen (b_str r) - b_length r) in
  let c := set_hnet c net in
  match e with
  | Got data => r ← receive r data; Some (inr _parse, set_request c r)
  | WouldBlock | Failed => Some (inl OSW_OK, c)
  | PeerClosed | Broken => Some (inl OSW_OK, close_fd c [])
  end.

Definition http_step (l : hlabel) (c : HttpConn) : option ((Z + hlabel) * HttpConn) :=
  match l with _recv_data => recv_data c | _parse => parse c end.

Fixpoint http_run (fuel : nat) (l : hlabel) (c : HttpConn) : option (Z * HttpConn) :=
  match fuel with
  | O => None
  | S fuel =>
    r ← http_step l c;
    match r with
    | (inl ret, c) => Some (ret, c)
    | (inr l, c) => http_run fuel l c
    end
  end.

Definition STATUS_ACTIVE : Z := 3.

Definition Port_onRead_http (fuel : nat) (c : HttpConn) : option (Z * HttpConn) :=
  if STATUS_HANDSHAKE <=? websocket_status c then
    let c := if http_upgrade c then c
             else set_upgrade (destroy_http_request c) (http2_stream c) STATUS_ACTIVE true
                    (h_skip_recv c) in
    Port_onRead_check_length c
  else if http2_stream c then Port_onRead_check_length c
  else http_run fuel _recv_data c.
End HttpPort.

(** ** Requests without a body *)

(** A request: a request line and header fields of which none announces a body, up
    to and with the first empty line. *)
Definition plain_request (R : bytes) : Prop :=
  ∃ m url v fields, R = request_line m url v ++ fields ∧ line_ok m url v ∧
    first_empty_line R 0 (zlen R - 4) ∧ no_body R (zlen R).

Lemma method_no_cr m : m ∈ fst <$> methods → 13 ∉ m.
Proof.
  intros Hm. assert (Forall (λ m, 13 ∉ m) (fst <$> methods)) as H.
  { apply (bool_decide_unpack _). by vm_compute. }
  rewrite Forall_forall in H. by apply H.
Qed.

Lemma line_no_cr m url v i : line_ok m url v → at_ (request_line m url v) i ≠ Some 13.
Proof.
  intros (Hm & _ & Hu & Hv) E. assert (13 ∈ request_line m url v) as Hin.
  { unfold at_ in E. destruct (0 <=? i); [|done]. by apply list_elem_of_lookup_2 in E. }
  unfold request_line in Hin. apply elem_of_app in Hin as [Hin|Hin]; [by apply method_no_cr in Hin|].
  apply elem_of_cons in Hin as [|Hin]; [done|]. apply elem_of_app in Hin as [Hin|Hin].
  - rewrite Forall_forall in Hu. by apply Hu in Hin.
  - apply elem_of_cons in Hin as [|Hin]; [done|].
    destruct Hv as [-> | ->]; apply (bool_decide_pack (13 ∈ _)) in Hin; by vm_compute in Hin.
Qed.

Lemma line_length m url v : line_ok m url v → 14 <= zlen (request_line m url v).
Proof.
  intros (Hm & Hu & _ & Hv). apply list_elem_of_fmap in Hm as ([m' code] & -> & Hm).
  destruct methods_prefix_free as [_ Hlen]. rewrite Forall_forall in Hlen. specialize (Hlen _ Hm) as [Hlm _].
  assert (zlen v = 8) by (by destruct Hv as [-> | ->]). pose proof (zlen_pos _ Hu).
  cbn [fst] in *. unfold request_line. autorewrite with zlen. unfold zlen in *. lia.
Qed.

Lemma plain_request_line R : plain_request R →
  ∃ m url v fields, R = request_line m url v ++ fields ∧ line_ok m url v ∧
    14 <= zlen (request_line m url v) <= zlen R - 4 ∧ at_ R (zlen R - 4) = Some 13.
Proof.
  intros (m & url & v & fields & HR & Hl & (Hf & He & _) & _). exists m, url, v, fields.
  split; [done|]. split; [done|]. zl_nonneg.
  assert (at_ R (zlen R - 4) = Some 13) as Hat.
  { apply load_is_Some in He as (H1 & _ & H2 & H3). unfold at_. rewrite (proj2 (Z.leb_le _ _)) by lia.
    rewrite <- (Nat.add_0_r (Z.to_nat _)), <- lookup_drop.
    rewrite <- (lookup_take_lt _ (Z.to_nat 4)), <- H3 by lia. done. }
  split; [|done]. split; [by apply line_length|]. destruct (Z.le_gt_cases (zlen (request_line m url v)) (zlen R - 4)); [lia|].
  exfalso. apply (line_no_cr m url v (zlen R - 4) Hl). rewrite <- Hat. symmetry.
  rewrite HR at 1. unfold at_. destruct (0 <=? _) eqn:E; [|done]. rewrite lookup_app_l; [done|].
  unfold zlen in *. lia.
Qed.

(** ** The network *)

Definition quiet (e : recv_event) : Prop :=
  match e with Got d => d ≠ [] | WouldBlock => True | _ => False end.
Definition event_data (e : recv_event) : bytes := match e with Got d => d | _ => [] end.
Definition net_data (net : list recv_event) : bytes := concat (event_data <$> net).
Definition net_size (net : list recv_event) : nat := sum_list ((λ e, S (length (event_data e))) <$> net).

Lemma recv_quiet net n : 0 < n → Forall quiet net →
  (∃ d net', recv net n = (Got d, net') ∧ d ≠ [] ∧ zlen d <= n ∧ net_data net = d ++ net_data net' ∧
     Forall quiet net' ∧ (net_size net' < net_size net)%nat) ∨
  (∃ net', recv net n = (WouldBlock, net') ∧ net_data net = net_data net' ∧ Forall quiet net' ∧
     (net = [] ∧ net' = [] ∨ (net_size net' < net_size net)%nat)).
Proof.
  intros Hn Hq. unfold recv. rewrite (proj2 (Z.leb_gt _ _)) by lia.
  destruct net as [|[d| | | |] net]; try (by apply Forall_cons in Hq as [[] _]).
  - right. exists []. split_and!; [done..|by left].
  - apply Forall_cons in Hq as [Hd Hq]. left. cbn in Hd. destruct (Z.leb_spec (zlen d) n).
    + exists d, net. split_and!; try done. unfold net_size. cbn. lia.
    + exists (take (Z.to_nat n) d), (Got (drop (Z.to_nat n) d) :: net). unfold zlen in *.
      split_and!; try done.
      * intros E%(f_equal length). rewrite length_take in E. cbn in E. lia.
      * rewrite length_take. lia.
      * unfold net_data. cbn. by rewrite app_assoc, take_drop.
      * constructor; [|done]. intros E%(f_equal length). rewrite length_drop in E. cbn in E. lia.
      * unfold net_size. cbn. rewrite length_drop. lia.
  - apply Forall_cons in Hq as [_ Hq]. right. exists net. split_and!; try done. right. unfold net_size. cbn. lia.
Qed.

(** ** Dispatching *)

Section Invariant.
(** The size of the buffer. *)
Context (N : Z).

(** A request of which the line was looked at and the header's end not found. *)
Definition lined (r : Request) (R : bytes) : Prop :=
  0 < method r < OSW_HTTP_PRI ∧ excepted r = false ∧ header_parsed r = false ∧ known_length r = false ∧
  chunked r = false ∧ nobody_chunked r = false ∧ header_length_ r = 0 ∧ content_length_ r = 0 ∧
  0 <= b_offset r <= zlen R - 4 ∧ 0 <= request_line_length_ r.

(** The connection's buffer and socket hold the requests [Rs]. *)
Record pinv (c : HttpConn) (Rs : list bytes) : Prop := {
  p_plain : Forall (λ R, plain_request R ∧ zlen R <= N) Rs;
  p_open : closed c = false; p_http : http2_stream c = false ∧ websocket_status c = 0; p_tried : tried_to_dispatch c = false;
  p_size : zlen (b_str (request c)) = N;
  p_length : 0 <= b_length (request c) <= N;
  p_quiet : Forall quiet (hnet c);
  p_stream : received (request c) ++ net_data (hnet c) = concat Rs;
  p_request : clean (request c) = request c ∧ b_offset (request c) = 0 ∨
    ∃ R Rs', Rs = R :: Rs' ∧ lined (request c) R }.

Lemma pinv_buffer c Rs : pinv c Rs → buffer_ok (request c).
Proof.
  intros H. pose proof (p_length _ _ H). pose proof (p_size _ _ H). split; [lia|].
  destruct (p_request _ _ H) as [[_ ->]|(R & Rs' & _ & Hl)]; [done|]. unfold lined in Hl. lia.
Qed.

Lemma pinv_agrees c Rs : pinv c Rs → agrees (request c) (concat Rs).
Proof.
  intros H. pose proof (p_length _ _ H). pose proof (p_size _ _ H). pose proof (p_stream _ _ H) as Hs.
  assert (length (received (request c)) = Z.to_nat (b_length (request c))) as Hl.
  { unfold received. rewrite length_take. unfold zlen in *. lia. }
  split_and!; [lia..| |].
  - rewrite <- Hs, zlen_app. unfold zlen at 1. zl_nonneg. lia.
  - rewrite <- Hs, take_app_length'; [done|lia].
Qed.

(** More bytes are needed, and there is room for them. *)
Definition needs_more (c : HttpConn) (Rs : list bytes) : Prop :=
  b_length (request c) < N ∧ ∀ R Rs', Rs = R :: Rs' → b_length (request c) < zlen R.

(** What [parse] does: it hands over complete requests and keeps the rest. *)
Definition parsed (c : HttpConn) (Rs : list bytes) (res : Z + hlabel) (c' : HttpConn) : Prop :=
  hnet c' = hnet c ∧ sent c' = sent c ∧
  ∃ done_ Rs', Rs = done_ ++ Rs' ∧ pinv c' Rs' ∧ snd <$> handled c' = (snd <$> handled c) ++ done_ ∧
    match res with
    | inl ret => ret = OSW_OK ∧ needs_more c' Rs'
    | inr _recv_data => done_ = [] ∧ needs_more c' Rs'
    | inr _parse => length done_ = 1%nat
    end.

(** The invariant of a connection whose request was replaced. *)
Lemma pinv_request c c' Rs Rs' :
  pinv c Rs → Forall (λ R, plain_request R ∧ zlen R <= N) Rs' →
  closed c' = false → tried_to_dispatch c' = false → hnet c' = hnet c →
  (http2_stream c', websocket_status c') = (http2_stream c, websocket_status c) →
  zlen (b_str (request c')) = N → 0 <= b_length (request c') <= N →
  received (request c') ++ net_data (hnet c) = concat Rs' →
  (clean (request c') = request c' ∧ b_offset (request c') = 0 ∨
    ∃ R Rs2, Rs' = R :: Rs2 ∧ lined (request c') R) →
  pinv c' Rs'.
Proof.
  intros Hi ? ? ? Hn [= E1 E2] ? ? ? ?. split; rewrite ?Hn, ?E1, ?E2; try done; [apply (p_http _ _ Hi)|apply (p_quiet _ _ Hi)].
Qed.

End Invariant.

Section Plain.
Context (fresh : nat → bytes) (base : Z) (chunk_fuel frame_fuel : nat) (port : ListenPort)
  (static_handler : Request → bool) (N : Z).
Context (HN : 16 < N <= 65536).

Abbreviation port_parse := (parse fresh base chunk_fuel frame_fuel port static_handler (λ _, false)).

Abbreviation pinv := (pinv N).
Abbreviation parsed := (parsed N).
Abbreviation needs_more := (needs_more N).

Lemma parse_after_protocol c r' :
  method (request c) = 0 → get_protocol (request c) = Some (OSW_OK, r') → method r' ≠ 0 →
  port_parse c = port_parse (set_request c r').
Proof.
  intros Hm Hg Hm'. unfold parse. rewrite Hm, Hg. cbn [request set_request].
  rewrite (proj2 (Z.eqb_neq _ _) Hm'). done.
Qed.

Lemma lined_search r R rest :
  plain_request R → buffer_ok r → zlen (b_str r) <= 65536 →
  agrees r (R ++ rest) → 0 <= b_offset r <= zlen R - 4 →
  (get_header_length r = Some (OSW_OK, found r (zlen R - 4)) ∧ zlen R <= b_length r) ∨
  (get_header_length r = Some (OSW_ERR, set_offset r (Z.max (b_offset r) (b_length r - 3))) ∧
     b_length r < zlen R).
Proof.
  intros (m & url & v & fields & _ & _ & (_ & He & Hfirst) & _) Hb Hsz (H1 & H2 & H3) Ho.
  assert (∀ i, empty_line_at (received r) i → empty_line_at (R ++ rest) i ∧ i + 4 <= b_length r) as Hsub.
  { intros i Hi. pose proof (empty_line_inside _ _ Hi) as [Hi1 Hi2]. rewrite received_zlen in Hi2 by done.
    split; [|done]. rewrite <- (take_drop (Z.to_nat (b_length r)) (R ++ rest)), <- H3.
    fold (received r). apply empty_line_app; [by rewrite received_zlen by done|done]. }
  assert (∀ i, empty_line_at (R ++ rest) i → zlen R - 4 <= i) as Hge.
  { intros i Hi. destruct (Z.le_gt_cases (zlen R - 4) i); [done|]. exfalso.
    pose proof (empty_line_inside _ _ Hi) as [? _].
    apply (Hfirst i); [lia|]. by rewrite <- (empty_line_app R rest i) by lia. }
  assert (zlen R <= b_length r → empty_line_at (received r) (zlen R - 4)) as Hat.
  { intros Hl. unfold received. rewrite H3, take_app_ge by (unfold zlen in *; lia).
    apply empty_line_app; [lia|done]. }
  unfold get_header_length.
  destruct (header_end_loop_spec (S (length (b_str r))) r (b_offset r))
    as [(k & E & Hk1 & Hk2 & Hk3)|[E Hno]]; [done|lia|unfold zlen in *; lia|lia|left|right]; rewrite E.
  - destruct (Hsub _ Hk2) as [Hk4 Hk5]. pose proof (Hge _ Hk4).
    assert (zlen R <= b_length r) as Hl by lia. split; [|done].
    destruct (Z.eq_dec k (zlen R - 4)) as [->|Hne]; [done|]. exfalso.
    apply (Hk3 (zlen R - 4)); [lia|by apply Hat].
  - split; [done|]. destruct (Z.le_gt_cases (zlen R) (b_length r)) as [Hl|]; [|lia].
    exfalso. apply (Hno (zlen R - 4)); [lia|by apply Hat].
Qed.

(** What a complete header leads to. *)
Lemma dispatch_plain c R rest :
  let r := request c in
  plain_request R → agrees r (R ++ rest) → lined r R → zlen R <= b_length r → zlen (b_str r) = N →
  tried_to_dispatch c = false → closed c = false →
  ∃ k, let r1 := set_flags (found r (zlen R - 4)) true false k false false in
    let c1 := handle (set_request (set_tried c true) (set_offset r1 (zlen R)))
                (static_handler (set_offset r1 (zlen R))) false R in
  get_header_length r = Some (OSW_OK, found r (zlen R - 4)) →
  port_parse c =
    if zlen R <? b_length r then
      b ← reduce (buffer_of (set_offset r1 (zlen R))) (zlen R);
      Some (inr _parse, set_tried (set_request c1 (clean (with_buffer (set_offset r1 (zlen R)) b))) false)
    else Some (inl OSW_OK, clear_buffer (destroy_http_request c1)).
Proof.
  intros r HR Ha (Hm & Hex & Hhp & Hkn & Hch & Hnc & Hhl & Hcl & Ho & Hrl) Hl Hsz Htr Hop.
  destruct (plain_request_line R HR) as (m & url & v & fields & _ & _ & HR4 & Hcr).
  pose proof Ha as (Ha1 & Ha2 & Ha3).
  assert (∀ i, i < zlen R → at_ (b_str r) i = at_ R i) as Hat.
  { intros i Hi. rewrite (agrees_at r (R ++ rest)) by (done || lia). unfold at_. destruct (Z.leb_spec 0 i); [|done].
    rewrite lookup_app_l; [done|]. unfold zlen in *. lia. }
  assert (no_body (b_str r) (zlen R)) as Hnb.
  { destruct HR as (? & ? & ? & ? & _ & _ & _ & Hn). intros p Hp H1 H2.
    rewrite Hat in H1, H2 by lia. destruct (Hn p Hp H1 H2) as [E1 E2].
    split; [rewrite <- E1|rewrite <- E2]; apply strcasect_ext; intros i Hi; apply Hat; lia. }
  destruct (parse_header_plain (found r (zlen R - 4))) as [k Ek]; try done.
  - cbn. lia.
  - cbn. by replace (zlen R - 4 + 4) with (zlen R) by lia.
  - cbn. replace (zlen R - 4 + 4 - 4) with (zlen R - 4) by lia. rewrite Hat by lia. done.
  - exists k. intros r1 c1 Hg. unfold parse. fold r. rewrite (proj2 (Z.eqb_neq (method r) 0)) by lia.
    cbn [mbind option_bind]. change (OSW_OK <? 0) with false. cbn iota.
    rewrite (proj2 (Z.ltb_ge _ _)) by lia. rewrite (proj2 (Z.eqb_neq _ _)) by lia.
    rewrite Hhl. change (0 =? 0) with true. cbn iota. rewrite Hg. cbn [mbind option_bind].
    change (OSW_OK <? 0) with false. cbn iota. change (header_parsed (found r (zlen R - 4))) with (header_parsed r).
    rewrite Hhp, Ek. cbn [mbind option_bind]. unfold try_dispatch. cbn [tried_to_dispatch set_request]. rewrite Htr.
    cbn [request set_request].
    cbn [nobody_chunked set_flags andb content_length_ found set_offset set_lengths known_length chunked negb orb].
    rewrite Hcl. change (0 =? 0) with true. cbn [andb]. 
    cbn [header_length_ b_str set_flags set_offset set_lengths found].
    replace (zlen R - 4 + 4) with (zlen R) by lia.
    rewrite (agrees_load r (R ++ rest)) by (done || lia). rewrite (load_mid [] R rest) by done.
    cbn [mbind option_bind]. unfold handle at 1. cbn [closed set_request set_tried]. rewrite Hop. cbn [orb].
    cbn [b_length set_flags set_offset set_lengths found]. by destruct (zlen R <? b_length r).
Qed.


Lemma pinv_lined c R Rs :
  pinv c (R :: Rs) → lined (request c) R → ∃ res c', port_parse c = Some (res, c') ∧ parsed c (R :: Rs) res c'.
Proof.
  intros Hi Hl. pose proof (pinv_buffer _ _ _ Hi) as Hb. pose proof (pinv_agrees _ _ _ Hi) as Ha.
  pose proof (p_plain _ _ _ Hi) as [[HR HRN] HRs]%Forall_cons. pose proof (p_size _ _ _ Hi) as Hsz.
  pose proof (p_length _ _ _ Hi) as Hlen. pose proof (p_stream _ _ _ Hi) as Hst. cbn [concat] in *.
  assert (0 <= b_offset (request c) <= zlen R - 4) as Ho by (unfold lined in Hl; lia).
  destruct (lined_search (request c) R (concat Rs)) as [[Hg Hfull]|[Hg Hpart]]; try done; [lia| |].
  - destruct (dispatch_plain c R (concat Rs) HR Ha Hl Hfull Hsz (p_tried _ _ _ Hi) (p_open _ _ _ Hi)) as [k E].
    cbv zeta in E. rewrite (E Hg). clear E. set (r1 := set_offset _ (zlen R)).
    assert (∃ x, received (request c) = R ++ x) as [x Hx].
    { destruct Ha as (H1 & H2 & H3). unfold received. rewrite H3, take_app_ge by (unfold zlen in *; lia). eauto. }
    rewrite Hx, <- app_assoc in Hst. apply app_inv_head in Hst.
    assert (zlen x = b_length (request c) - zlen R) as Hxl
      by (pose proof (received_zlen _ Hb) as Hz; rewrite Hx, zlen_app in Hz; lia).
    destruct (Z.ltb_spec (zlen R) (b_length (request c))) as [Hmore|Hexact].
    + destruct (reduce_spec (buffer_of r1) (zlen R)) as (b & -> & (Hw1 & Hw2 & _) & Hcont & Hoff & Hlb & Hsb).
      { split_and!; cbn; lia. }
      { cbn. lia. }
      cbn [mbind option_bind]. cbn [buffer_of s_length s_size b_length r1 set_offset set_flags found set_lengths b_str] in *.
      do 2 eexists. split; [done|]. split; [done|]. split; [done|].
      exists [R], Rs. split; [done|]. split; [|split; [cbn; by rewrite fmap_app|done]].
      eapply (pinv_request N c); [exact Hi|done|cbn; by rewrite (p_open _ _ _ Hi)|done|done|done|cbn; lia|cbn; lia| |].
      * rewrite <- Hst. f_equal. unfold received. cbn. unfold contents in Hcont. rewrite Hcont. cbn.
        fold (received (request c)). rewrite Hx. unfold zlen. by rewrite Nat2Z.id, drop_app_length.
      * left. cbn. by rewrite Hoff.
    + do 2 eexists. split; [done|]. split; [done|]. split; [done|].
      exists [R], Rs. split; [done|]. split; [|split; [cbn; by rewrite fmap_app|split; [done|]]].
      2: { split; [cbn; lia|]. intros R2 Rs2 ->. apply Forall_cons in HRs as [[HR2 _] _].
           destruct (plain_request_line R2 HR2) as (? & ? & ? & ? & _ & _ & ? & _). cbn. lia. }
      eapply (pinv_request N c); [exact Hi|done|cbn; by rewrite (p_open _ _ _ Hi)|done|done|done|cbn; lia|cbn; lia| |].
      * rewrite <- Hst. assert (x = []) as -> by (apply zlen_0; zl_nonneg; lia). done.
      * by left.
  - unfold parse. pose proof Hl as (Hm & Hex & Hhp & Hkn & Hch & Hnc & Hhl & Hcl & _ & Hrl).
    rewrite (proj2 (Z.eqb_neq (method (request c)) 0)) by lia.
    cbn [mbind option_bind]. change (OSW_OK <? 0) with false. cbn iota.
    rewrite (proj2 (Z.ltb_ge _ _)) by lia. rewrite (proj2 (Z.eqb_neq (method _) _)) by lia.
    rewrite Hhl. change (0 =? 0) with true. cbn iota. rewrite Hg. cbn [mbind option_bind].
    change (OSW_ERR <? 0) with true. cbn iota. cbn [b_str b_length set_offset].
    rewrite (proj2 (Z.eqb_neq (zlen _) _)) by lia.
    do 2 eexists. split; [done|]. split; [done|]. split; [done|].
    exists [], (R :: Rs). split; [done|]. split; [|split; [cbn; by rewrite app_nil_r|split; [done|split; [cbn; lia|]]]].
    2: { intros R2 Rs2 [= <- <-]. cbn. lia. }
    eapply (pinv_request N c); [exact Hi|apply (p_plain _ _ _ Hi)|apply (p_open _ _ _ Hi)|apply (p_tried _ _ _ Hi)|done|done|done|done|done|].
    right. exists R, Rs. split; [done|]. unfold lined. cbn. split_and!; try done; lia.
Qed.

Lemma parse_spec c Rs : pinv c Rs → ∃ res c', port_parse c = Some (res, c') ∧ parsed c Rs res c'.
Proof.
  intros Hi. pose proof (p_length _ _ _ Hi) as Hlen.
  destruct (p_request _ _ _ Hi) as [[Hcl Ho]|(R & Rs' & -> & Hl)]; [|by apply pinv_lined].
  assert (method (request c) = 0) as Hm by by rewrite <- Hcl.
  assert (excepted (request c) = false) as Hex by by rewrite <- Hcl.
  assert (∀ r', get_protocol (request c) = Some (OSW_ERR, r') → excepted r' = false →
    b_length r' < 65536 → port_parse c = Some (inl OSW_OK, set_request c r')) as Hwait.
  { intros r' Hg He Hl. unfold parse. rewrite Hm, Hg. change (0 =? 0) with true. cbn iota.
    cbn [mbind option_bind]. change (OSW_ERR <? 0) with true. cbn iota. rewrite He.
    unfold OSW_HTTP_HEADER_MAX_SIZE. by rewrite (proj2 (Z.ltb_lt _ _)) by lia. }
  destruct (Z.lt_ge_cases (b_length (request c)) 16) as [Hs|Hs].
  { assert (get_protocol (request c) = Some (OSW_ERR, request c)) as Hg
      by (unfold get_protocol; by rewrite (proj2 (Z.ltb_lt _ _)) by lia).
    do 2 eexists. split; [apply (Hwait (request c)); done || lia|].
    split; [done|]. split; [done|]. exists [], Rs. cbn. rewrite app_nil_r.
    split; [done|]. split; [by destruct c|]. split; [done|]. split; [done|]. split; [cbn; lia|].
    intros R Rs' ->. pose proof (p_plain _ _ _ Hi) as [[HR _] _]%Forall_cons.
    destruct (plain_request_line R HR) as (? & ? & ? & ? & _ & _ & ? & _). cbn. lia. }
  pose proof (pinv_agrees _ _ _ Hi) as Ha. destruct Rs as [|R Rs].
  { destruct Ha as (_ & H & _). cbn [concat] in H. rewrite zlen_nil in H. lia. }
  pose proof (p_plain _ _ _ Hi) as [[HR HRN] HRs]%Forall_cons.
  destruct (plain_request_line R HR) as (m & url & v & fields & HRe & Hline & Hle & _).
  cbn [concat] in Ha. rewrite HRe, <- app_assoc in Ha.
  destruct (get_protocol_spec _ _ m url v _ Ha eq_refl Hline Hs) as (ret & r' & code & Hg & Hcode & Hsame & Hout).
  unfold same_rest in Hsame. cbn [method excepted header_parsed known_length keep_alive chunked
    nobody_chunked header_length_ content_length_ b_length b_str set_method] in Hsame.
  destruct Hsame as (S1 & S2 & S3 & S4 & S5 & S6 & S7 & S8 & S9 & S10 & S11).
  assert (0 <= b_offset r' <= zlen R - 4 ∧ 0 <= request_line_length_ r') as [Hoff Hrl].
  { destruct Hout as [(_ & H1 & H2)|(_ & H1 & H2 & _)]; [lia|]. cbn in H1, H2.
    rewrite <- Hcl in H2. cbn in H2. lia. }
  assert (lined r' R) as Hlined.
  { unfold lined. rewrite S1, S2, S3, S4, S6, S7, S8, S9, <- Hcl. cbn. split_and!; done || lia. }
  assert (pinv (set_request c r') (R :: Rs)) as Hi'.
  { eapply (pinv_request N c); [exact Hi|apply (p_plain _ _ _ Hi)|apply (p_open _ _ _ Hi)|apply (p_tried _ _ _ Hi)|done|done|..];
      cbn [request set_request].
    - rewrite S11. apply (p_size _ _ _ Hi).
    - by rewrite S10.
    - unfold received. rewrite S10, S11. apply (p_stream _ _ _ Hi).
    - right. by exists R, Rs. }
  destruct Hout as [(-> & _)|(-> & _ & _ & Hshort)].
  - rewrite (parse_after_protocol c r') by (done || lia).
    destruct (pinv_lined _ R Rs Hi' Hlined) as (res & c' & E & H1 & H2 & H3). by exists res, c'.
  - cbn in Hshort. do 2 eexists. split; [apply (Hwait r'); [done|by rewrite S2|rewrite S10; lia]|].
    split; [done|]. split; [done|]. exists [], (R :: Rs). cbn. rewrite app_nil_r.
    split; [done|]. split; [done|]. split; [done|]. split; [done|]. split; [cbn; lia|].
    intros R2 Rs2 [= <- <-]. cbn. lia.
Qed.

(** ** Whole runs *)

Abbreviation port_run :=
  (http_run fresh base chunk_fuel frame_fuel port static_handler (λ _, false)).

(** Bytes that arrive go behind those received. *)
Lemma receive_pinv c Rs d net :
  pinv c Rs → net_data (hnet c) = d ++ net_data net → Forall quiet net →
  b_length (request c) + zlen d <= N →
  ∃ r', receive (request c) d = Some r' ∧ pinv (set_request (set_hnet c net) r') Rs.
Proof.
  intros Hi Hd Hq Hl. pose proof (p_length _ _ _ Hi) as Hlen. pose proof (p_size _ _ _ Hi) as Hsz.
  destruct (receive_spec (request c) d (pinv_buffer _ _ _ Hi)) as (r' & Hr & Hb & Hl' & Ho & Hz & Hrec); [lia|].
  pose proof (zlen_nonneg d). exists r'. split; [done|]. split; cbn [closed tried_to_dispatch request hnet set_request set_hnet];
    [apply (p_plain _ _ _ Hi)|apply (p_open _ _ _ Hi)|apply (p_http _ _ _ Hi)|apply (p_tried _ _ _ Hi)|lia|lia|done| |].
  - rewrite Hrec, <- app_assoc, <- Hd. apply (p_stream _ _ _ Hi).
  - unfold receive in Hr. destruct (store _ _ _) as [m|]; [|done]. cbn in Hr. injection Hr as <-.
    destruct (p_request _ _ _ Hi) as [[Hc Ho']|(R & Rs' & -> & Hlin)]; [left|right; by exists R, Rs'].
    split; [|done]. clear -Hc. destruct (request c). cbn in *. injection Hc as <- <- <- <- <- <- <- <- <- <- <- <- <-. done.
Qed.

Definition work (l : hlabel) (c : HttpConn) (Rs : list bytes) : nat :=
  3 * net_size (hnet c) + 2 * length Rs + match l with _parse => 1 | _recv_data => 0 end.

(** One call of the handler. *)
Lemma http_run_spec fuel : ∀ l c Rs,
  pinv c Rs → (l = _recv_data → needs_more c Rs) → (work l c Rs < fuel)%nat →
  ∃ c' done_ Rs', port_run fuel l c = Some (OSW_OK, c') ∧ Rs = done_ ++ Rs' ∧ pinv c' Rs' ∧
    needs_more c' Rs' ∧ snd <$> handled c' = (snd <$> handled c) ++ done_ ∧ sent c' = sent c ∧
    (net_size (hnet c') <= net_size (hnet c))%nat ∧
    (l = _recv_data → hnet c ≠ [] → net_size (hnet c') < net_size (hnet c))%nat.
Proof.
  induction fuel as [|fuel IH]; intros l c Rs Hi Hl Hw; [lia|]. cbn [http_run].
  destruct l; cbn [http_step].
  - destruct (Hl eq_refl) as [Hroom Hmore]. pose proof (p_size _ _ _ Hi) as Hsz.
    unfold recv_data. rewrite Hsz.
    destruct (recv_quiet (hnet c) (N - b_length (request c))) as
      [(d & net & -> & Hne & Hle & Hd & Hq & Hs)|(net & -> & Hd & Hq & Hs)]; [lia|apply (p_quiet _ _ _ Hi)| |].
    + destruct (receive_pinv c Rs d net Hi Hd Hq) as (r' & -> & Hi'); [lia|]. cbn [mbind option_bind].
      destruct (IH _parse _ Rs Hi') as (c' & done_ & Rs' & E & H1 & H2 & H3 & H4 & H5 & H6 & _); [done| |].
      { unfold work in *. cbn [hnet set_request set_hnet]. lia. }
      exists c', done_, Rs'. cbn [hnet set_request set_hnet handled sent] in H4, H5, H6. split_and!; try done; [lia|]. intros. lia.
    + cbn [mbind option_bind]. exists (set_hnet c net), [], Rs. cbn [handled sent hnet set_hnet]. rewrite app_nil_r.
      split_and!; try done.
      * destruct Hi. split; cbn [closed tried_to_dispatch request hnet set_hnet]; try done. by rewrite <- Hd.
      * destruct Hs as [[Hs ->]|Hs]; [rewrite Hs|]; lia.
      * intros _ Hne. destruct Hs as [[? _]|Hs]; [done|lia].
  - destruct (parse_spec c Rs Hi) as (res & c1 & -> & Hn & Hse & done_ & Rs1 & -> & Hi1 & Hh & Hres).
    cbn [mbind option_bind]. destruct res as [ret|[|]].
    + destruct Hres as [-> Hm]. exists c1, done_, Rs1. rewrite Hn. split_and!; done || lia.
    + destruct Hres as [-> Hm]. destruct (IH _recv_data c1 Rs1 Hi1) as (c' & d' & Rs' & E & H1 & H2 & H3 & H4 & H5 & H6 & _);
        [done|unfold work in *; rewrite length_app in Hw; rewrite Hn; lia|].
      exists c', d', Rs'. rewrite Hn in H6. rewrite Hh in H4. rewrite app_nil_r in H4. split_and!; try done; congruence.
    + destruct (IH _parse c1 Rs1 Hi1) as (c' & d' & Rs' & E & H1 & H2 & H3 & H4 & H5 & H6 & _);
        [done|unfold work in *; rewrite length_app in Hw; cbn [app] in *; rewrite Hn; lia|].
      exists c', (done_ ++ d'), Rs'. rewrite Hn in H6. rewrite Hh in H4. rewrite <- app_assoc in H4. subst Rs1.
      split_and!; try done; [by rewrite app_assoc|congruence].
Qed.
End Plain.

(** [n] readable events in a row. *)
Fixpoint http_events (n : nat) (handler : HttpConn → option (Z * HttpConn)) (c : HttpConn) : option HttpConn :=
  match n with
  | O => Some c
  | S n => '(_, c) ← handler c; http_events n handler c
  end.

Definition new_conn (block : bytes) (net : list recv_event) : HttpConn :=
  MkHttpConn (new_request 0 block) false false 0 false false false net false [] [].

Lemma events_spec fresh base chunk_fuel frame_fuel port static_handler N fuel : 16 < N <= 65536 →
  ∀ n c Rs, pinv N c Rs → needs_more N c Rs → (net_size (hnet c) <= n)%nat →
    (3 * net_size (hnet c) + 2 * length Rs < fuel)%nat →
    ∃ c', http_events n (Port_onRead_http fresh base chunk_fuel frame_fuel port static_handler
         (λ _, false) fuel) c = Some c' ∧ snd <$> handled c' = (snd <$> handled c) ++ Rs ∧ closed c' = false ∧
      sent c' = sent c ∧ b_length (request c') = 0 ∧ hnet c' = [].
Proof.
  intros HN. induction n as [|n IH]; intros c Rs Hi Hm Hsz Hfu.
  - exists c. assert (hnet c = []) as Hnil.
    { destruct (hnet c) as [|e net'] eqn:E; [done|]. unfold net_size in Hsz. cbn in Hsz. lia. }
    pose proof (p_stream _ _ _ Hi) as Hs. rewrite Hnil in Hs. unfold net_data in Hs. cbn in Hs.
    rewrite app_nil_r in Hs. destruct Hm as [_ Hm]. assert (buffer_ok (request c)) as Hb by by eapply pinv_buffer.
    pose proof (received_zlen _ Hb) as Hz. rewrite Hs in Hz. destruct Rs as [|R Rs].
    + cbn [concat] in Hz. rewrite zlen_nil in Hz. cbn. rewrite app_nil_r. split_and!; try done. apply (p_open _ _ _ Hi).
    + specialize (Hm R Rs eq_refl). cbn [concat] in Hz. rewrite zlen_app in Hz. zl_nonneg. lia.
  - cbn [http_events]. unfold Port_onRead_http at 2. destruct (p_http _ _ _ Hi) as [-> ->]. cbn iota.
    change (STATUS_HANDSHAKE <=? 0) with false. cbn iota.
    destruct (http_run_spec fresh base chunk_fuel frame_fuel port static_handler N HN
      fuel _recv_data c Rs Hi) as (c' & done_ & Rs2 & -> & -> & Hi' & Hm' & Hh & Hse & Hle & Hlt);
      [done|unfold work; lia|]. cbn [mbind option_bind].
    destruct (IH c' Rs2 Hi' Hm') as (c'' & E & H1 & H2 & H3 & H4).
    + destruct (hnet c) as [|e net'] eqn:E; [unfold net_size in *; cbn in *; lia|].
      specialize (Hlt eq_refl ltac:(done)). lia.
    + rewrite length_app in Hfu. lia.
    + exists c''. split; [done|]. rewrite H1, Hh, <- app_assoc. split_and!; try done; try congruence; apply H4.
Qed.

(** C39. Pipelined requests are dispatched exactly.  However the network cuts a stream of
    requests without bodies, each of at most the size of the buffer, the handler of the
    readable events hands every request over exactly once, in order and byte for byte,
    sends no error, keeps the connection and ends with an empty buffer; it terminates
    within a number of steps that is linear in the bytes and events.  (The fields of the
    request line play no part in this: see [line_outcome].) *)
Theorem http_pipeline_dispatched fresh base chunk_fuel frame_fuel port static_handler
    block net Rs n fuel :
  16 < zlen block <= 65536 → Forall (λ R, plain_request R ∧ zlen R <= zlen block) Rs →
  Forall quiet net → net_data net = concat Rs →
  (net_size net <= n)%nat → (3 * net_size net + 2 * length Rs < fuel)%nat →
  ∃ c, http_events n (Port_onRead_http fresh base chunk_fuel frame_fuel port static_handler
         (λ _, false) fuel) (new_conn block net) = Some c ∧
    snd <$> handled c = Rs ∧ closed c = false ∧ sent c = [] ∧ b_length (request c) = 0 ∧ hnet c = [].
Proof.
  intros HN HRs Hq Hd Hn Hf.
  destruct (events_spec fresh base chunk_fuel frame_fuel port static_handler (zlen block) fuel HN
    n (new_conn block net) Rs) as (c & E & H1 & H2 & H3 & H4); cbn; try done.
  - split; try done; cbn; try lia. left. done.
  - split; cbn; [lia|]. intros R Rs' ->. apply Forall_cons in HRs as [[HR _] _].
    destruct (plain_request_line R HR) as (? & ? & ? & ? & _ & _ & ? & _). lia.
  - exists c. done.
Qed.

(** A request of the examples. *)
Definition plain_example : bytes := lit "GET / HTTP/1.1" ++ crlf ++ lit "A: b" ++ crlf ++ crlf.

Lemma plain_example_ok : plain_request plain_example.
Proof.
  exists (lit "GET"), (lit "/"), (lit "HTTP/1.1"), (crlf ++ lit "A: b" ++ crlf ++ crlf).
  split; [done|]. split; [|split].
  - split_and!; [by apply (bool_decide_unpack _); vm_compute|done|by repeat constructor|by left].
  - split; [done|]. split; [done|]. assert (Forall (λ i, ¬ empty_line_at plain_example i) (seqZ 0 20)) as H
      by by apply (bool_decide_unpack _); vm_compute.
    rewrite Forall_forall in H. intros i Hi. change (zlen plain_example - 4) with 20 in Hi.
    apply H, elem_of_seqZ. lia.
  - change (zlen plain_example) with 24. intros p Hp H1 H2.
    assert (Forall (λ p, at_ plain_example (p - 1) = Some 10 → 
      openswoole_strcasect plain_example p (24 - 4 - p) (lit "Content-Length:") = Some false ∧
      openswoole_strcasect plain_example p (24 - 4 - p) (lit "Transfer-Encoding:") = Some false) (seqZ 2 18)) as H
      by by apply (bool_decide_unpack _); vm_compute.
    rewrite Forall_forall in H. apply H; [apply elem_of_seqZ; lia|done].
Qed.

Definition example_port : ListenPort :=
  MkListenPort (MkProtocol false [] 78 9 0 0 2097152) (λ _ _ d, get_frame_length d (zlen d)) None
    (λ h d, (OSW_OK, false, h ++ [(false, d)])) true.

Lemma http_pipeline_dispatched_witness :
  let R := plain_example in
  let net := [Got (take 10 R); WouldBlock; Got (drop 10 R ++ take 20 R); Got (drop 20 R)] in
  ∃ c, http_events 60 (Port_onRead_http (λ n, replicate n 0) 4096 10 10 example_port (λ _, false) (λ _, false) 200)
         (new_conn (replicate 32 0) net) = Some c ∧
    snd <$> handled c = [R; R] ∧ closed c = false ∧ sent c = [] ∧ b_length (request c) = 0 ∧ hnet c = [].
Proof.
  intros R net. apply http_pipeline_dispatched.
  - by vm_compute.
  - by repeat constructor; try apply plain_example_ok.
  - by repeat constructor.
  - done.
  - by apply (bool_decide_unpack _); vm_compute.
  - by apply (bool_decide_unpack _); vm_compute.
Defined.

(** The same connection, run; the second request was cut between the events. *)
Example http_pipeline_run :
  let R := plain_example in
  let net := [Got (take 10 R); WouldBlock; Got (drop 10 R ++ take 20 R); Got (drop 20 R)] in
  (c ← http_events 6 (Port_onRead_http (λ n, replicate n 0) 4096 10 10 example_port (λ _, false) (λ _, false) 20)
     (new_conn (replicate 32 0) net); Some (handled c)) = Some [(false, R); (false, R)].
Proof. by vm_compute. Qed.

(** Bytes behind a request with a body are discarded: the handler cuts the buffer at
    the request's end and clears it, so a second request that came in the same packet
    is lost. *)
Example pipelined_behind_body_lost :
  let P := lit "POST / HTTP/1.1" ++ crlf ++ lit "Content-Length: 2" ++ crlf ++ crlf ++ lit "ab" in
  (c ← http_events 6 (Port_onRead_http (λ n, replicate n 0) 4096 10 10 example_port (λ _, false) (λ _, false) 20)
     (new_conn (replicate 100 0) [Got (P ++ plain_example)]);
   Some (handled c, b_length (request c), hnet c)) = Some ([(false, P)], 0, []).
Proof. by vm_compute. Qed.

(** A request line that is cut inside the version is not looked at again: the request
    goes on with version 0, while the same bytes in one packet give version 1.1. *)
Example version_cut :
  let s := lit "OPTIONS /abcdefg HTTP/1.1" ++ crlf ++ lit "A: b" ++ crlf in
  let version_of net :=
    (c ← http_events 2 (Port_onRead_http (λ n, replicate n 0) 4096 10 10 example_port (λ _, false) (λ _, false) 20)
       (new_conn (replicate 100 0) net);
     Some (version (request c))) in
  version_of [Got s] = Some OSW_HTTP_VERSION_11 ∧ version_of [Got (take 21 s); Got (drop 21 s)] = Some 0.
Proof. by vm_compute. Qed.

(** The HTTP/2 preface switches the connection over: the server's settings are sent,
    and the frames behind the preface are handed over by the frame reader. *)
Example http2_upgrade :
  let frame := set_frame_header 4 3 0 1 ++ lit "abc" in
  (c ← http_events 3 (Port_onRead_http (λ n, replicate n 0) 4096 10 10 example_port (λ _, false) (λ _, false) 20)
     (new_conn (replicate 64 0) [Got (OSW_HTTP2_PRI_STRING ++ frame ++ take 5 frame); Got (drop 5 frame)]);
   Some (handled c, sent c, http2_stream c, closed c)) =
  Some ([(false, frame); (false, frame)], [send_setting_frame], true, false).
Proof. by vm_compute. Qed.
