(* ===== verification/Pipe.v ===== *)
(** * Messages between the reactor threads and the workers: src/server/process.cc,
      src/server/worker.cc, src/server/reactor_thread.cc

    A packet travels through a unix datagram socket: [process_send_packet] sends it in
    one datagram or cuts it into chunks, [Worker_onPipeReceive] puts the chunks of the
    packets, which arrive interleaved, together again, keyed by the message's id, and
    [ReactorThread_onPipeRead] does the same for the answers, keyed by the worker.

    A datagram is a header with its bytes, and the socket is the queue of the datagrams;
    a read that has no room for a datagram's end loses it.  The kernel's answers to the
    sends are a parameter.  What is handed to [accept_task] and [send_to_connection] is
    recorded. *)

From S2P Require Import Prelude SwString.

(** ** Data *)

Record DataHead := MkDataHead {
  fd : Z; msg_id : Z; len : Z; reactor_id : Z; type : Z; flags : Z; server_fd : Z;
  ext_flags : Z; time : Z }.

Definition set_flags (h : DataHead) (f : Z) : DataHead :=
  MkDataHead (fd h) (msg_id h) (len h) (reactor_id h) (type h) f (server_fd h) (ext_flags h) (time h).
Definition set_len (h : DataHead) (n : Z) : DataHead :=
  MkDataHead (fd h) (msg_id h) n (reactor_id h) (type h) (flags h) (server_fd h) (ext_flags h) (time h).
Definition set_msg_id (h : DataHead) (i : Z) : DataHead :=
  MkDataHead (fd h) i (len h) (reactor_id h) (type h) (flags h) (server_fd h) (ext_flags h) (time h).

Definition sizeof_DataHead : Z := 40.
Definition OSW_IPC_MAX_SIZE : Z := 8192.
Definition OSW_IPC_BUFFER_SIZE : Z := OSW_IPC_MAX_SIZE - sizeof_DataHead.
Definition OSW_BUFFER_SIZE_STD : Z := 8192.
Definition OSW_WORKER_MAX_RECV_CHUNK_COUNT : nat := 32.

Definition OSW_EVENT_DATA_PTR : Z := 2.
Definition OSW_EVENT_DATA_CHUNK : Z := 4.
Definition OSW_EVENT_DATA_BEGIN : Z := 8.
Definition OSW_EVENT_DATA_END : Z := 16.
Definition OSW_EVENT_DATA_OBJ_PTR : Z := 32.

(** [flags & flag]. *)
Definition has (h : DataHead) (flag : Z) : bool := negb (Z.land (flags h) flag =? 0).

Abbreviation datagram := (DataHead * bytes)%type.

(** ** Sending *)

(** The kernel's answer to one send. *)
Inductive send_result := Sent | Nobufs | SendFailed.
#[global] Instance send_result_eq_dec : EqDecision send_result.
Proof. solve_decision. Defined.

Section Send.
(** The answer to the [k]-th attempt to send. *)
Variable answer : nat → send_result.

(** The loop over the chunks: the result, and the attempts with their answers. *)
Fixpoint chunk_loop (fuel k : nat) (max_length : Z) (info : DataHead) (data : bytes)
    (l_payload offset : Z) : option (bool * list (datagram * send_result)) :=
  if 0 <? l_payload then
    match fuel with
    | O => None
    | S fuel =>
      let '(info, copy_n) :=
        if max_length <? l_payload then (info, max_length)
        else (set_flags info (Z.lor (flags info) OSW_EVENT_DATA_END), l_payload) in
      payload ← load data offset copy_n;
      let attempt := ((info, payload), answer k) in
      match answer k with
      | Sent =>
        let info := if has info OSW_EVENT_DATA_BEGIN
                    then set_flags info (Z.ldiff (flags info) OSW_EVENT_DATA_BEGIN) else info in
        '(ret, l) ← chunk_loop fuel (S k) max_length info data (u32 (l_payload - copy_n)) (offset + copy_n);
        Some (ret, attempt :: l)
      | Nobufs =>
        if OSW_BUFFER_SIZE_STD <? max_length then
          '(ret, l) ← chunk_loop fuel (S k) OSW_IPC_BUFFER_SIZE info data l_payload offset;
          Some (ret, attempt :: l)
        else Some (false, [attempt])
      | SendFailed => Some (false, [attempt])
      end
    end
  else Some (true, []).

(** [worker_msg_id] is the server's counter; its new value is returned too. *)
Definition process_send_packet (fuel : nat) (ipc_max_size worker_msg_id : Z) (info : DataHead)
    (data : bytes) : option (bool * Z * list (datagram * send_result)) :=
  let l_payload := len info in
  let max_length := u32 (ipc_max_size - sizeof_DataHead) in
  let info := set_msg_id info worker_msg_id in
  let worker_msg_id := u64 (worker_msg_id + 1) in
  let use_chunk (k : nat) (max_length : Z) :=
    chunk_loop fuel k max_length
      (set_flags info (Z.lor OSW_EVENT_DATA_CHUNK OSW_EVENT_DATA_BEGIN)) data l_payload 0 in
  if l_payload <=? max_length then
    let info := set_flags info 0 in
    payload ← load data 0 l_payload;
    let attempt := ((info, payload), answer 0) in
    match answer 0 with
    | Sent => Some (true, worker_msg_id, [attempt])
    | Nobufs => '(ret, l) ← use_chunk 1%nat OSW_IPC_BUFFER_SIZE; Some (ret, worker_msg_id, attempt :: l)
    | SendFailed => Some (false, worker_msg_id, [attempt])
    end
  else '(ret, l) ← use_chunk 0%nat max_length; Some (ret, worker_msg_id, l).
End Send.

(** The datagrams that reached the socket. *)
Definition delivered (l : list (datagram * send_result)) : list datagram :=
  fst <$> filter (λ a, a.2 = Sent) l.

(** ** Receiving in a worker *)

(** The task: its bytes in place, a pointer, or a pointer to a [String]. *)
Inductive task_data := Inline (data : bytes) | Ptr (data : bytes) | Obj (buffer : String).

(** [Server::get_packet]; [None] is data taken for a pointer that is none. *)
Definition get_packet (info : DataHead) (data : task_data) : option bytes :=
  if has info OSW_EVENT_DATA_PTR then match data with Ptr d => Some d | _ => None end
  else if has info OSW_EVENT_DATA_OBJ_PTR then
    match data with Obj b => load (s_str b) 0 (s_length b) | _ => None end
  else match data with Inline d => load d 0 (len info) | _ => None end.

Record PipeWorker := MkPipeWorker {
  pipe : list datagram; worker_buffers : gmap Z String; tasks : list datagram }.

Section Receive.
Variable fresh : nat → bytes.
Variable ipc_max_size : Z.

(** [get_worker_buffer]: the buffer and the new map. *)
Definition get_worker_buffer (info : DataHead) (bs : gmap Z String) : option (String * gmap Z String) :=
  match bs !! msg_id info with
  | Some b => Some (b, bs)
  | None =>
    if has info OSW_EVENT_DATA_BEGIN
    then let b := make_string fresh (len info) in Some (b, <[msg_id info := b]> bs)
    else None
  end.

(** [accept_task] of a received task, and the buffer's release. *)
Definition accept (info : DataHead) (data : task_data) (w : PipeWorker) : option (Z * PipeWorker) :=
  d ← get_packet info data;
  Some (OSW_OK, MkPipeWorker (pipe w)
    (if has info OSW_EVENT_DATA_END then delete (msg_id info) (worker_buffers w) else worker_buffers w)
    (tasks w ++ [(info, d)])).

(** [Worker_onPipeReceive] from [_read_from_pipe]; [budget] further chunks may be received
    be received in this event. *)
Fixpoint read_from_pipe (budget : nat) (w : PipeWorker) : option (Z * PipeWorker) :=
  match pipe w with
  | [] => Some (OSW_OK, w)
  | (info, data) :: rest =>
    if has info OSW_EVENT_DATA_CHUNK then
      match get_worker_buffer info (worker_buffers w) with
      | None => Some (OSW_OK, w)
      | Some (b, bs) =>
        let remain_len := u64 (len info - s_length b) in
        let iov_len := Z.min (u64 (ipc_max_size - sizeof_DataHead)) remain_len in
        let data := take (Z.to_nat iov_len) data in
        m ← store (s_str b) (s_length b) data;
        let b := MkString (s_length b + zlen data) (s_size b) (s_offset b) m in
        let w := MkPipeWorker rest (<[msg_id info := b]> bs) (tasks w) in
        if has info OSW_EVENT_DATA_END
        then accept (set_flags info (Z.lor (flags info) OSW_EVENT_DATA_OBJ_PTR)) (Obj b) w
        else match budget with O => Some (OSW_OK, w) | S budget => read_from_pipe budget w end
      end
    else
      accept info (Inline (take (Z.to_nat (ipc_max_size - sizeof_DataHead)) data))
        (MkPipeWorker rest (worker_buffers w) (tasks w))
  end.

Definition Worker_onPipeReceive (w : PipeWorker) : option (Z * PipeWorker) :=
  read_from_pipe (OSW_WORKER_MAX_RECV_CHUNK_COUNT - 1) w.
End Receive.

(** ** Receiving in a reactor thread *)

Definition OSW_BUFFER_SIZE_BIG : Z := 65536.
Definition OSW_SERVER_EVENT_CLOSE_FORCE : Z := 5.
Definition OSW_SERVER_EVENT_INCOMING : Z := 15.
Definition OSW_SERVER_EVENT_SHUTDOWN : Z := 16.

(** What a message leads to: an answer for [send_to_connection], or the handling of
    one of the three control events. *)
Inductive reaction := SendTo (info : DataHead) (data : bytes) | Incoming (info : DataHead)
  | Shutdown | CloseForce (info : DataHead).

Record PipeReactor := MkPipeReactor {
  r_pipe : list datagram; send_buffers : gmap Z String; reactions : list reaction }.

Section Reactor.
Variable fresh : nat → bytes.
Variable ipc_max_size : Z.
(** The pipe's descriptor, [ev->fd], and whether the handling of a control event ends
    the handler. *)
Variable ev_fd : Z.
Variable ends : reaction → bool.

(** One message: whether the handler returns, the buffers and what follows. *)
Definition on_message (info : DataHead) (data : bytes) (bs : gmap Z String) :
    option (bool * gmap Z String * list reaction) :=
  if has info OSW_EVENT_DATA_CHUNK then
    let key := i32 (Z.shiftl ev_fd 16 + server_fd info) in
    let package := default (alloc fresh OSW_BUFFER_SIZE_BIG) (bs !! key) in
    package ← append fresh package data;
    if has info OSW_EVENT_DATA_END then
      d ← load (s_str package) 0 (s_length package);
      Some (false, delete key bs, [SendTo (set_len info (u32 (s_length package))) d])
    else Some (true, <[key := package]> bs, [])
  else
    let control e := Some (ends e, bs, [e]) in
    if type info =? OSW_SERVER_EVENT_INCOMING then control (Incoming info)
    else if type info =? OSW_SERVER_EVENT_SHUTDOWN then control Shutdown
    else if type info =? OSW_SERVER_EVENT_CLOSE_FORCE then control (CloseForce info)
    else d ← load data 0 (len info); Some (false, bs, [SendTo info d]).

(** [ReactorThread_onPipeRead]: it reads on until the pipe is empty or a chunk is not
    the last of its message. *)
Fixpoint pipe_read_loop (pipe : list datagram) (bs : gmap Z String) (done_ : list reaction) :
    option (Z * PipeReactor) :=
  match pipe with
  | [] => Some (OSW_OK, MkPipeReactor [] bs done_)
  | (info, data) :: rest =>
    '(stop, bs, l) ← on_message info (take (Z.to_nat (ipc_max_size - sizeof_DataHead)) data) bs;
    if stop : bool then Some (OSW_OK, MkPipeReactor rest bs (done_ ++ l))
    else pipe_read_loop rest bs (done_ ++ l)
  end.

Definition ReactorThread_onPipeRead (r : PipeReactor) : option (Z * PipeReactor) :=
  pipe_read_loop (r_pipe r) (send_buffers r) (reactions r).
End Reactor.

(** ** Trains of chunks *)

Definition chunk_flags (first last : bool) : Z :=
  4 + (if first then 8 else 0) + (if last then 16 else 0).
Definition chunk_head (h : DataHead) (first last : bool) : DataHead :=
  set_flags h (chunk_flags first last).

(** The datagrams [ds] carry the bytes [rest], or the first part of them, in order and
    in pieces of one to [M] bytes; the last piece, and no other, is marked. *)
Fixpoint chunks_of (M : Z) (h : DataHead) (first : bool) (rest : bytes) (ds : list datagram) : Prop :=
  match ds with
  | [] => True
  | (i, d) :: ds =>
    d ≠ [] ∧ zlen d <= M ∧ ∃ rest', rest = d ++ rest' ∧
      i = chunk_head h first (bool_decide (rest' = [])) ∧ chunks_of M h false rest' ds
  end.

(** The datagrams of a packet: itself, or a train of chunks. *)
Definition train (M : Z) (h : DataHead) (data : bytes) (ds : list datagram) : Prop :=
  ds = [(set_flags h 0, data)] ∧ zlen data <= M ∨ chunks_of M h true data ds.

Definition is_last (h : DataHead) : bool := negb (has h OSW_EVENT_DATA_CHUNK) || has h OSW_EVENT_DATA_END.

(** No send of a datagram that is marked as the last chunk was refused for lack of
    buffer space. *)
Definition nobufs_ok (l : list (datagram * send_result)) : Prop :=
  Forall (λ a, a.2 = Nobufs → has a.1.1 OSW_EVENT_DATA_END = false) l.

Lemma has_chunk h first last :
  has (chunk_head h first last) OSW_EVENT_DATA_CHUNK = true ∧
  has (chunk_head h first last) OSW_EVENT_DATA_BEGIN = first ∧
  has (chunk_head h first last) OSW_EVENT_DATA_END = last.
Proof. by destruct first, last. Qed.

Lemma chunk_head_end h first :
  set_flags (chunk_head h first false) (Z.lor (flags (chunk_head h first false)) OSW_EVENT_DATA_END)
  = chunk_head h first true.
Proof. by destruct first. Qed.

Lemma chunk_head_next h first last :
  (if has (chunk_head h first last) OSW_EVENT_DATA_BEGIN
   then set_flags (chunk_head h first last) (Z.ldiff (flags (chunk_head h first last)) OSW_EVENT_DATA_BEGIN)
   else chunk_head h first last) = chunk_head h false last.
Proof. by destruct first, last. Qed.

Lemma delivered_cons d o l : delivered ((d, o) :: l) = (if decide (o = Sent) then [d] else []) ++ delivered l.
Proof. unfold delivered. rewrite filter_cons. cbn. by destruct (decide (o = Sent)). Qed.

(** What is left after [copy_n] bytes, as the loop's arguments. *)
Lemma after_chunk (data pre rest : bytes) copy_n :
  zlen data < 2 ^ 32 → data = pre ++ rest → 0 < copy_n <= zlen rest →
  let d := take (Z.to_nat copy_n) rest in let rest' := drop (Z.to_nat copy_n) rest in
  load data (zlen pre) copy_n = Some d ∧ u32 (zlen rest - copy_n) = zlen rest' ∧
  zlen pre + copy_n = zlen (pre ++ d) ∧ data = (pre ++ d) ++ rest' ∧ (length rest' < length rest)%nat ∧
  d ≠ [] ∧ zlen d = copy_n ∧ rest = d ++ rest' ∧ (rest' = [] ↔ copy_n = zlen rest).
Proof.
  intros Hd -> Hc d rest'. pose proof (zlen_nonneg pre). rewrite zlen_app in Hd.
  assert (rest = d ++ rest') as Hr by (symmetry; apply take_drop).
  assert (zlen d = copy_n) as Hz by (unfold d, zlen in *; rewrite length_take; lia).
  assert (zlen rest' = zlen rest - copy_n) as Hz' by (rewrite Hr, zlen_app; lia).
  split_and!; try done.
  - rewrite Hr at 1. by apply load_mid.
  - rewrite u32_small; lia.
  - rewrite zlen_app. lia.
  - by rewrite <- app_assoc, <- Hr.
  - unfold zlen in *. lia.
  - intros E. rewrite E, zlen_nil in Hz. lia.
  - split; [intros E; rewrite E, zlen_nil in Hz'; lia|intros ->; apply zlen_0; lia].
Qed.

(** The loop ends for any answers, ... *)
Lemma chunk_loop_total answer data : zlen data < 2 ^ 32 → ∀ fuel k max_length info pre rest,
  data = pre ++ rest → 0 < max_length →
  (length rest + (if (OSW_BUFFER_SIZE_STD <? max_length)%Z then 1 else 0) <= fuel)%nat →
  is_Some (chunk_loop answer fuel k max_length info data (zlen rest) (zlen pre)).
Proof.
  intros Hd. induction fuel as [|fuel IH]; intros k max_length info pre rest Hdata Hm Hf; cbn [chunk_loop];
    (destruct (Z.ltb_spec 0 (zlen rest)) as [Hp|]; [|done]); [unfold zlen in Hp; lia|].
  assert (∀ info copy_n, 0 < copy_n <= zlen rest → is_Some (
    payload ← load data (zlen pre) copy_n;
    match answer k with
    | Sent =>
      '(ret, l) ← chunk_loop answer fuel (S k) max_length (if has info OSW_EVENT_DATA_BEGIN
                    then set_flags info (Z.ldiff (flags info) OSW_EVENT_DATA_BEGIN) else info) data
                    (u32 (zlen rest - copy_n)) (zlen pre + copy_n);
      Some (ret, ((info, payload), answer k) :: l)
    | Nobufs =>
      if OSW_BUFFER_SIZE_STD <? max_length then
        '(ret, l) ← chunk_loop answer fuel (S k) OSW_IPC_BUFFER_SIZE info data (zlen rest) (zlen pre);
        Some (ret, ((info, payload), answer k) :: l)
      else Some (false, [((info, payload), answer k)])
    | SendFailed => Some (false, [((info, payload), answer k)])
    end)) as Hstep; [|destruct (Z.ltb_spec max_length (zlen rest)); apply Hstep; lia].
  intros i copy_n Hc. destruct (after_chunk data pre rest copy_n Hd Hdata Hc) as (-> & -> & -> & Hd' & Hl & _).
  cbn [mbind option_bind].
  destruct (answer k); [|destruct (OSW_BUFFER_SIZE_STD <? max_length) eqn:E; [|done]|done].
  - match goal with |- context [chunk_loop _ _ _ _ ?i] =>
      edestruct (IH (S k) max_length i _ _ Hd' Hm) as [[ret l] ->]; [lia|done] end.
  - destruct (IH (S k) OSW_IPC_BUFFER_SIZE i pre rest Hdata) as [[ret l] ->]; [done| |done].
    change (OSW_BUFFER_SIZE_STD <? OSW_IPC_BUFFER_SIZE) with false. cbn iota. lia.
Qed.

(** ... and sends a train of chunks, all of it when it succeeds. *)
Lemma chunk_loop_train answer h data M : zlen data < 2 ^ 32 → ∀ fuel k max_length first pre rest ret l,
  data = pre ++ rest → 0 < max_length → (max_length <= M ∨ zlen rest <= M) →
  chunk_loop answer fuel k max_length (chunk_head h first false) data (zlen rest) (zlen pre) = Some (ret, l) →
  nobufs_ok l →
  chunks_of M h first rest (delivered l) ∧ (ret = true → concat (snd <$> delivered l) = rest).
Proof.
  intros Hd. induction fuel as [|fuel IH]; intros k max_length first pre rest ret l Hdata Hm HM; cbn [chunk_loop];
    (destruct (Z.ltb_spec 0 (zlen rest)) as [Hp|Hp];
      [|intros [= <- <-] _; split; [done|]; intros _; symmetry; apply zlen_0; zl_nonneg; lia]); [done|].
  destruct (Z.ltb_spec max_length (zlen rest)) as [Hlt|Hle].
  - destruct (after_chunk data pre rest max_length Hd Hdata ltac:(lia)) as (-> & -> & -> & Hd' & Hl & Hne & Hz & Hr & Hlast).
    cbn [mbind option_bind]. rewrite chunk_head_next.
    set (d := take _ rest) in *. set (rest' := drop _ rest) in *.
    assert (rest' ≠ []) as Hne' by (rewrite Hlast; lia).
    destruct (answer k) eqn:Ea.
    + destruct (chunk_loop _ _ _ _ _ _ _ _) as [[ret' l']|] eqn:E; [|done]. intros [= <- <-] [_ Hok]%Forall_cons.
      destruct (IH (S k) max_length false _ rest' ret' l' Hd' Hm) as [H1 H2]; [|done|done|].
      { assert (zlen rest' <= zlen rest) by (unfold zlen; lia). lia. }
      rewrite delivered_cons, decide_True by done. split.
      * cbn [app chunks_of]. split; [done|]. split; [lia|]. exists rest'. split; [done|].
        by rewrite bool_decide_false by done.
      * intros Hret. cbn [app fmap list_fmap concat snd]. by rewrite (H2 Hret).
    + destruct (OSW_BUFFER_SIZE_STD <? max_length) eqn:Es; [|intros [= <- <-] _; by rewrite delivered_cons].
      destruct (chunk_loop _ _ _ _ _ _ _ _) as [[ret' l']|] eqn:E; [|done]. intros [= <- <-] [_ Hok]%Forall_cons.
      rewrite delivered_cons, decide_False by done. apply Z.ltb_lt in Es.
      apply (IH (S k) OSW_IPC_BUFFER_SIZE first pre rest ret' l'); try done.
      unfold OSW_BUFFER_SIZE_STD in Es. change OSW_IPC_BUFFER_SIZE with 8152. lia.
    + intros [= <- <-] _. by rewrite delivered_cons.
  - destruct (after_chunk data pre rest (zlen rest) Hd Hdata ltac:(lia)) as (-> & -> & -> & Hd' & Hl & Hne & Hz & Hr & Hlast).
    cbn [mbind option_bind]. rewrite chunk_head_end, chunk_head_next.
    set (d := take _ rest) in *. set (rest' := drop _ rest) in *.
    assert (rest' = []) as Hnil by by apply Hlast.
    destruct (answer k) eqn:Ea.
    + rewrite Hnil, zlen_nil. destruct fuel; cbn [chunk_loop]; change (0 <? 0) with false; cbn [mbind option_bind];
        intros [= <- <-] _; rewrite delivered_cons, decide_True by done; rewrite Hnil, app_nil_r in Hr;
        (split; [cbn [app chunks_of delivered fmap list_fmap filter list_filter]; split; [done|]; split; [lia|]; exists []; by rewrite app_nil_r|
          intros _; cbn; by rewrite app_nil_r]).
    + intros E Hok. exfalso. destruct (OSW_BUFFER_SIZE_STD <? max_length).
      * destruct (chunk_loop _ _ _ _ _ _ _ _) as [[ret' l']|]; [|done]. injection E as <- <-.
        apply Forall_cons in Hok as [Hok _]. specialize (Hok eq_refl). cbn [fst] in Hok.
        by rewrite (proj2 (proj2 (has_chunk h first true))) in Hok.
      * injection E as <- <-. apply Forall_cons in Hok as [Hok _]. specialize (Hok eq_refl). cbn [fst] in Hok.
        by rewrite (proj2 (proj2 (has_chunk h first true))) in Hok.
    + intros [= <- <-] _. by rewrite delivered_cons.
Qed.

Lemma load_all m : load m 0 (zlen m) = Some m.
Proof. rewrite load_Some by (zl_nonneg; lia). unfold zlen. by rewrite Nat2Z.id, firstn_all. Qed.

(** A packet is sent as itself or as a train of chunks, ... *)
Lemma sent_train answer fuel ipc_max_size id h data ret next l :
  len h = zlen data → zlen data < 2 ^ 32 → sizeof_DataHead < ipc_max_size < 2 ^ 32 →
  process_send_packet answer fuel ipc_max_size id h data = Some (ret, next, l) → nobufs_ok l →
  train (ipc_max_size - sizeof_DataHead) (set_msg_id h id) data (delivered l) ∧
  (ret = true → concat (snd <$> delivered l) = data).
Proof.
  intros Hlen Hd Hi. unfold process_send_packet. rewrite Hlen, u32_small by (unfold sizeof_DataHead in *; lia).
  set (M := ipc_max_size - sizeof_DataHead). assert (0 < M) as HM by (unfold M; lia).
  assert (∀ k max_length ret l, 0 < max_length → (max_length <= M ∨ zlen data <= M) →
    chunk_loop answer fuel k max_length
      (set_flags (set_msg_id h id) (Z.lor OSW_EVENT_DATA_CHUNK OSW_EVENT_DATA_BEGIN)) data (zlen data) 0 = Some (ret, l) →
    nobufs_ok l → chunks_of M (set_msg_id h id) true data (delivered l) ∧
      (ret = true → concat (snd <$> delivered l) = data)) as Hchunk.
  { intros k max_length ret' l' Hm HmM E Hok.
    by apply (chunk_loop_train answer (set_msg_id h id) data M Hd fuel k max_length true [] data ret' l'). }
  destruct (Z.leb_spec (zlen data) M) as [Hle|Hgt].
  - rewrite (load_all data). cbn [mbind option_bind]. destruct (answer 0%nat) eqn:Ea.
    + intros [= <- <- <-] _. rewrite delivered_cons, decide_True by done.
      split; [left; by split|]. intros _. cbn. apply app_nil_r.
    + destruct (chunk_loop _ _ _ _ _ _ _ _) as [[ret' l']|] eqn:E; [|done]. intros [= <- <- <-] [_ Hok]%Forall_cons.
      rewrite delivered_cons, decide_False by done. destruct (Hchunk 1%nat OSW_IPC_BUFFER_SIZE _ _ eq_refl (or_intror Hle) E Hok).
      split; [by right|done].
    + intros [= <- <- <-] _. rewrite delivered_cons, decide_False by done. split; [by right|done].
  - destruct (chunk_loop _ _ _ _ _ _ _ _) as [[ret' l']|] eqn:E; [|done]. intros [= <- <- <-] Hok.
    destruct (Hchunk _ _ _ _ HM (or_introl (Z.le_refl _)) E Hok). split; [by right|done].
Qed.

(** ... and a send ends, with a fuel above the length of the data, for any answers. *)
Lemma send_packet_total answer fuel ipc_max_size id h data :
  len h = zlen data → zlen data < 2 ^ 32 → sizeof_DataHead < ipc_max_size < 2 ^ 32 → (length data < fuel)%nat →
  is_Some (process_send_packet answer fuel ipc_max_size id h data).
Proof.
  intros Hlen Hd Hi Hf. unfold process_send_packet. rewrite Hlen, u32_small by (unfold sizeof_DataHead in *; lia).
  assert (∀ k max_length info, 0 < max_length →
    is_Some (chunk_loop answer fuel k max_length info data (zlen data) 0)) as Hchunk.
  { intros k max_length info Hm.
    apply (chunk_loop_total answer data Hd fuel k max_length info [] data); [done|done|]. destruct (_ <? _)%Z; lia. }
  destruct (Z.leb_spec (zlen data) (ipc_max_size - sizeof_DataHead)) as [Hle|Hgt].
  - rewrite (load_all data). cbn [mbind option_bind]. destruct (answer 0%nat); [done| |done].
    match goal with |- context [chunk_loop _ _ ?k ?m ?i] => destruct (Hchunk k m i) as [[ret l] ->]; done end.
  - match goal with |- context [chunk_loop _ _ ?k ?m ?i] => destruct (Hchunk k m i) as [[ret l] ->]; [lia|done] end.
Qed.

(** ** The worker puts the packets together *)

(** The datagrams of message [i], and the bytes of a message that is not complete. *)
Definition of_msg (i : Z) (ds : list datagram) : list datagram := filter (λ d, msg_id d.1 = i) ds.
Definition open_of (ds : list datagram) : option bytes :=
  match last ds with
  | None => None
  | Some d => if is_last d.1 then None else Some (concat (snd <$> ds))
  end.

(** The task that a datagram completes. *)
Definition completes (packets : gmap Z (DataHead * bytes)) (d : datagram) : option datagram :=
  '(h, data) ← packets !! msg_id d.1;
  if is_last d.1
  then Some (set_flags (set_msg_id h (msg_id d.1))
               (if has d.1 OSW_EVENT_DATA_CHUNK then Z.lor (flags d.1) OSW_EVENT_DATA_OBJ_PTR else flags d.1), data)
  else None.

Lemma of_msg_app i ds es : of_msg i (ds ++ es) = of_msg i ds ++ of_msg i es.
Proof. apply filter_app. Qed.

Lemma of_msg_snoc i ds d : of_msg i (ds ++ [d]) = of_msg i ds ++ (if decide (msg_id d.1 = i) then [d] else []).
Proof. rewrite of_msg_app. unfold of_msg at 2. rewrite filter_cons. by destruct (decide _). Qed.

Lemma chunks_of_prefix M h first rest ds es : chunks_of M h first rest (ds ++ es) → chunks_of M h first rest ds.
Proof.
  revert first rest. induction ds as [|[i d] ds IH]; intros first rest; [done|].
  cbn [app chunks_of]. intros (? & ? & rest' & ? & ? & ?). split_and!; eauto.
Qed.

Lemma train_prefix M h data ds es : train M h data (ds ++ es) → train M h data ds.
Proof.
  intros [[E Hz]|Hc]; [|right; by eapply chunks_of_prefix].
  destruct ds as [|d ds]; [by right|]. injection E as -> E. apply app_eq_nil in E as [-> _]. by left.
Qed.

(** The place of a chunk in its train. *)
Lemma chunk_in_train M h ds d es : ∀ first rest,
  chunks_of M h first rest (ds ++ d :: es) →
  d.2 ≠ [] ∧ zlen d.2 <= M ∧ ∃ rest', rest = concat (snd <$> ds) ++ d.2 ++ rest' ∧
    d.1 = chunk_head h (first && bool_decide (ds = [])) (bool_decide (rest' = [])) ∧
    Forall (λ d, is_last d.1 = false) ds.
Proof.
  induction ds as [|[i x] ds IH]; intros first rest; cbn [app chunks_of].
  - destruct d as [i d]. intros (Hne & HM & rest' & -> & -> & _). split; [done|]. split; [done|].
    exists rest'. by rewrite andb_true_r.
  - intros (Hne & HM & rest1 & -> & -> & Hc). destruct (IH _ _ Hc) as (Hd & HdM & rest' & -> & E & Hl).
    split; [done|]. split; [done|]. exists rest'. cbn [fmap list_fmap concat snd]. rewrite <- app_assoc. split; [done|].
    split; [by rewrite E, andb_false_r|]. constructor; [|done]. cbn [fst]. unfold is_last.
    destruct (has_chunk h first (bool_decide (concat (snd <$> ds) ++ d.2 ++ rest' = []))) as (-> & _ & ->).
    rewrite bool_decide_false; [done|]. intros [_ [? _]%app_eq_nil]%app_eq_nil. done.
Qed.

Lemma open_of_going ds : Forall (λ d, is_last d.1 = false) ds → ds ≠ [] → open_of ds = Some (concat (snd <$> ds)).
Proof.
  intros Hl Hne. unfold open_of. destruct (last ds) as [d|] eqn:E; [|by apply last_None in E].
  apply last_Some_elem_of in E. rewrite Forall_forall in Hl. apply Hl in E. by rewrite E.
Qed.

Lemma open_of_snoc ds d :
  open_of (ds ++ [d]) = if is_last d.1 then None else Some (concat (snd <$> ds) ++ d.2).
Proof.
  unfold open_of. rewrite last_snoc. destruct (is_last d.1); [done|].
  rewrite fmap_app, concat_app. cbn. by rewrite app_nil_r.
Qed.

Section Worker.
Context (fresh : nat → bytes) (fresh_length : ∀ n, length (fresh n) = n).
Context (ipc_max_size : Z) (Hipc : sizeof_DataHead < ipc_max_size < 2 ^ 32).
Context (packets : gmap Z (DataHead * bytes)) (all : list datagram).
Context (Hids : ∀ d, d ∈ all → is_Some (packets !! msg_id d.1)).
Context (Htrain : ∀ i h data, packets !! i = Some (h, data) →
  len h = zlen data ∧ zlen data < 2 ^ 32 ∧
  train (ipc_max_size - sizeof_DataHead) (set_msg_id h i) data (of_msg i all)).

(** A buffer holds the bytes of its message that have arrived, and has room for the rest. *)
Definition buffered (past : list datagram) (i : Z) (b : option String) : Prop :=
  match b with
  | None => open_of (of_msg i past) = None
  | Some b => wf b ∧ open_of (of_msg i past) = Some (contents b) ∧
      ∀ h data, packets !! i = Some (h, data) → zlen data <= s_size b
  end.

(** The state of the worker after the datagrams [past]. *)
Record winv (past : list datagram) (w : PipeWorker) : Prop := {
  w_all : all = past ++ pipe w;
  w_tasks : tasks w = omap (completes packets) past;
  w_buffers : ∀ i, buffered past i (worker_buffers w !! i) }.

Lemma buffered_other past d i b : msg_id d.1 ≠ i → buffered past i b → buffered (past ++ [d]) i b.
Proof. intros Hne Hb. unfold buffered in *. rewrite of_msg_snoc, decide_False, app_nil_r by done. done. Qed.

(** The buffer of the message a chunk belongs to. *)
Lemma worker_buffer_spec past w i h pk first last :
  winv past w → packets !! i = Some (h, pk) → first = bool_decide (of_msg i past = []) →
  Forall (λ d, is_last d.1 = false) (of_msg i past) →
  ∃ b bs, get_worker_buffer fresh (chunk_head (set_msg_id h i) first last) (worker_buffers w) = Some (b, bs) ∧
    wf b ∧ contents b = concat (snd <$> of_msg i past) ∧ zlen pk <= s_size b ∧
    ∀ j, j ≠ i → bs !! j = worker_buffers w !! j.
Proof.
  intros Hi Hp -> Hl. destruct (Htrain _ _ _ Hp) as (Hlen & Hsz & _). pose proof (w_buffers _ _ Hi i) as Hb.
  unfold get_worker_buffer. cbn [chunk_head set_flags set_msg_id msg_id].
  destruct (decide (of_msg i past = [])) as [E|Hne].
  - rewrite E. destruct (worker_buffers w !! i) as [b|]; cbn [buffered] in Hb.
    { destruct Hb as (_ & Hb & _). by rewrite E in Hb. }
    rewrite bool_decide_true by done.
    rewrite (proj1 (proj2 (has_chunk (set_msg_id h i) true last))).
    destruct (alloc_wf fresh fresh_length (len h)) as (Hw & Hc & Hs); [rewrite Hlen; zl_nonneg; lia|].
    do 2 eexists. split; [done|]. split; [done|]. split; [done|]. split; [by rewrite <- Hlen|].
    intros j Hj. by apply lookup_insert_ne.
  - rewrite (open_of_going _ Hl Hne) in Hb || idtac. destruct (worker_buffers w !! i) as [b|]; cbn [buffered] in Hb.
    + destruct Hb as (Hw & Hb & Hs). rewrite (open_of_going _ Hl Hne) in Hb. injection Hb as Hb.
      do 2 eexists. split; [done|]. split; [done|]. split; [done|]. split; [by eapply Hs|done].
    + by rewrite (open_of_going _ Hl Hne) in Hb.
Qed.

(** What one datagram does. *)
Definition stepped (past : list datagram) (w : PipeWorker) (d : datagram) (rest : list datagram) (budget : nat) : Prop :=
  ∃ w', winv (past ++ [d]) w' ∧ pipe w' = rest ∧
    read_from_pipe fresh ipc_max_size budget w =
      if is_last d.1 then Some (OSW_OK, w')
      else match budget with O => Some (OSW_OK, w') | S budget => read_from_pipe fresh ipc_max_size budget w' end.

Lemma read_whole past w i h pk rest budget :
  let d := (set_flags (set_msg_id h i) 0, pk) in
  winv past w → pipe w = d :: rest → packets !! i = Some (h, pk) → of_msg i past = [] →
  zlen pk <= ipc_max_size - sizeof_DataHead → stepped past w d rest budget.
Proof.
  intros d Hi Hpipe Hp Hpast HM. destruct (Htrain _ _ _ Hp) as (Hlen & _).
  exists (MkPipeWorker rest (worker_buffers w) (tasks w ++ [d])). split; [|split; [done|]].
  - split; cbn [pipe tasks worker_buffers].
    + rewrite (w_all _ _ Hi), Hpipe. app_eq.
    + rewrite omap_app, (w_tasks _ _ Hi). f_equal. cbn [omap list_omap]. unfold completes, d.
      cbn [fst msg_id set_flags set_msg_id]. by rewrite Hp.
    + intros j. destruct (decide (i = j)) as [<-|Hne]; [|by apply buffered_other; [|apply (w_buffers _ _ Hi)]].
      pose proof (w_buffers _ _ Hi i) as Hb. destruct (worker_buffers w !! i) as [b|]; cbn [buffered] in Hb |- *.
      { destruct Hb as (_ & Hb & _). by rewrite Hpast in Hb. }
      rewrite of_msg_snoc, decide_True by done. by rewrite open_of_snoc.
  - unfold d in *. destruct budget; cbn [read_from_pipe]; rewrite Hpipe; unfold accept, get_packet, has;
      cbn [flags set_flags fst]; rewrite !Z.land_0_l; cbn [negb len set_flags set_msg_id Z.eqb];
      rewrite take_ge by (unfold zlen in *; lia); by rewrite Hlen, load_all.
Qed.

(** A chunk goes behind the bytes of its message that are there. *)
Lemma chunk_stored past w i h pk data rest rest' :
  let d := (chunk_head (set_msg_id h i) (bool_decide (of_msg i past = [])) (bool_decide (rest' = [])), data) in
  winv past w → pipe w = d :: rest → packets !! i = Some (h, pk) →
  pk = concat (snd <$> of_msg i past) ++ data ++ rest' → Forall (λ d, is_last d.1 = false) (of_msg i past) →
  zlen data <= ipc_max_size - sizeof_DataHead →
  ∃ b bs, wf b ∧ contents b = concat (snd <$> of_msg i past) ++ data ∧ zlen pk <= s_size b ∧
    (∀ j, j ≠ i → bs !! j = worker_buffers w !! j) ∧
    ∀ budget, let w1 := MkPipeWorker rest (<[i := b]> bs) (tasks w) in
      read_from_pipe fresh ipc_max_size budget w =
      if bool_decide (rest' = [])
      then accept (set_flags d.1 (Z.lor (flags d.1) OSW_EVENT_DATA_OBJ_PTR)) (Obj b) w1
      else match budget with O => Some (OSW_OK, w1) | S budget => read_from_pipe fresh ipc_max_size budget w1 end.
Proof.
  intros d Hi Hpipe Hp Hpk Hl HM. destruct (Htrain _ _ _ Hp) as (Hlen & Hsz & _).
  set (first := bool_decide (of_msg i past = [])) in *. set (fin := bool_decide (rest' = [])) in *.
  destruct (worker_buffer_spec past w i h pk first fin Hi Hp eq_refl Hl) as (b & bs & Eb & Hw & Hcont & Hroom & Hbs).
  pose proof (contents_zlen _ Hw) as Hbl. rewrite Hcont in Hbl.
  assert (zlen pk = s_length b + zlen data + zlen rest') as Hz by (rewrite Hpk, !zlen_app; lia).
  zl_nonneg. pose proof Hw as (Hw1 & Hw2 & Hw3 & Hw4).
  destruct (store (s_str b) (s_length b) data) as [m|] eqn:Es; [|rewrite store_Some in Es by lia; done].
  pose proof (store_contents _ _ _ Hw Es) as Hm. rewrite Hcont in Hm. pose proof (store_length _ _ _ _ Es) as Hml.
  exists (MkString (s_length b + zlen data) (s_size b) (s_offset b) m), bs.
  split; [split_and!; cbn; try done; lia|]. split; [done|]. split; [done|]. split; [done|].
  intros n. destruct (has_chunk (set_msg_id h i) first fin) as (E1 & E2 & E3).
  destruct n; cbn [read_from_pipe]; rewrite Hpipe; unfold d at 1; rewrite E1, Eb, E3;
    cbn [len chunk_head set_flags set_msg_id msg_id]; rewrite Hlen, !u64_small by (unfold sizeof_DataHead in *; lia);
    rewrite take_ge by (unfold zlen in *; lia); rewrite Es; done.
Qed.

Lemma read_chunk past w i h pk data rest rest' budget :
  let d := (chunk_head (set_msg_id h i) (bool_decide (of_msg i past = [])) (bool_decide (rest' = [])), data) in
  winv past w → pipe w = d :: rest → packets !! i = Some (h, pk) →
  pk = concat (snd <$> of_msg i past) ++ data ++ rest' → Forall (λ d, is_last d.1 = false) (of_msg i past) →
  zlen data <= ipc_max_size - sizeof_DataHead → stepped past w d rest budget.
Proof.
  intros d Hi Hpipe Hp Hpk Hl HM.
  destruct (chunk_stored past w i h pk data rest rest' Hi Hpipe Hp Hpk Hl HM) as (b & bs & Hw & Hcont & Hroom & Hbs & Hread).
  pose proof (contents_zlen _ Hw) as Hbl. pose proof Hw as (Hw1 & Hw2 & _). fold d in Hread.
  set (first := bool_decide (of_msg i past = [])) in *. set (fin := bool_decide (rest' = [])) in *.
  assert (is_last d.1 = fin) as Hlast
    by (unfold is_last, d; cbn [fst]; by destruct (has_chunk (set_msg_id h i) first fin) as (-> & _ & ->)).
  assert (∀ j bb, j ≠ i → bb = bs !! j → buffered (past ++ [d]) j bb) as Hother.
  { intros j bb Hj ->. apply buffered_other; [done|]. rewrite (Hbs j Hj). apply (w_buffers _ _ Hi). }
  assert (all = (past ++ [d]) ++ rest) as Hall by (rewrite (w_all _ _ Hi), Hpipe; app_eq).
  unfold stepped. rewrite Hread, Hlast. clear Hread. destruct fin eqn:Ef.
  - apply bool_decide_eq_true in Ef. subst rest'. rewrite app_nil_r in Hpk.
    exists (MkPipeWorker rest (delete i bs) (tasks w ++ [(set_flags d.1 (Z.lor (flags d.1) OSW_EVENT_DATA_OBJ_PTR), pk)])).
    split; [|split; [done|]].
    + split; cbn [pipe tasks worker_buffers]; [done| |].
      * rewrite omap_app, (w_tasks _ _ Hi). f_equal. cbn [omap list_omap]. unfold completes. rewrite Hlast.
        cbn [fst d msg_id chunk_head set_flags set_msg_id]. rewrite Hp. cbn [mbind option_bind].
        by rewrite (proj1 (has_chunk (set_msg_id h i) first true)).
      * intros j. destruct (decide (j = i)) as [->|Hj]; [|by apply Hother; [|apply lookup_delete_ne]].
        rewrite lookup_delete_eq. cbn [buffered]. rewrite of_msg_snoc, decide_True by done. by rewrite open_of_snoc, Hlast.
    + unfold accept, get_packet. assert (load (s_str b) 0 (s_length b) = Some pk) as ->.
      { rewrite load_Some by (cbn; lia). f_equal. rewrite Hpk, <- Hcont. done. }
      unfold d, has; cbn [fst flags set_flags chunk_head]. destruct first; cbn; by rewrite delete_insert_eq.
  - apply bool_decide_eq_false in Ef. exists (MkPipeWorker rest (<[i := b]> bs) (tasks w)). split; [|by split]. split; cbn [pipe tasks worker_buffers]; [done| |].
    + rewrite omap_app, (w_tasks _ _ Hi). cbn [omap list_omap]. unfold completes. rewrite Hlast.
      destruct (packets !! msg_id d.1) as [[]|]; cbn; by rewrite app_nil_r.
    + intros j. destruct (decide (j = i)) as [->|Hj]; [|by apply Hother; [|apply lookup_insert_ne]].
      rewrite lookup_insert_eq. cbn [buffered]. rewrite of_msg_snoc, decide_True by done.
      rewrite open_of_snoc, Hlast, Hcont. split; [done|]. split; [done|].
      intros h2 pk2. rewrite Hp. intros [= <- <-]. done.
Qed.

(** One datagram. *)
Lemma read_step past w d rest budget :
  winv past w → pipe w = d :: rest → stepped past w d rest budget.
Proof.
  intros Hi Hpipe. pose proof (w_all _ _ Hi) as Hall. rewrite Hpipe in Hall. remember (msg_id d.1) as i eqn:Ei.
  destruct (Hids d) as [[h pk] Hp]; [rewrite Hall; apply elem_of_app; right; apply elem_of_cons; by left|].
  rewrite <- Ei in Hp. destruct (Htrain _ _ _ Hp) as (Hlen & Hsz & Ht).
  rewrite Hall, of_msg_app in Ht. unfold of_msg at 2 in Ht. rewrite filter_cons_True in Ht by done.
  destruct Ht as [[Hone HM]|Hc].
  - assert (of_msg i past = [] ∧ d = (set_flags (set_msg_id h i) 0, pk)) as [Hpast ->].
    { destruct (of_msg i past) as [|x l]; [by injection Hone as ->|]. cbn in Hone. injection Hone as _ E.
      by apply app_eq_nil in E as [_ ?]. }
    by apply read_whole.
  - destruct (chunk_in_train _ _ _ _ _ _ _ Hc) as (Hne & HdM & rest' & Hpk & Hd & Hl). rewrite andb_true_l in Hd.
    destruct d as [info data]. cbn [fst snd] in *. clear Ei. subst info. by eapply read_chunk.
Qed.

(** One call of the handler. *)
Lemma read_spec budget : ∀ past w, winv past w →
  ∃ past' w', read_from_pipe fresh ipc_max_size budget w = Some (OSW_OK, w') ∧ winv past' w' ∧
    (length (pipe w') <= length (pipe w) ∧ (pipe w ≠ [] → length (pipe w') < length (pipe w)))%nat.
Proof.
  induction budget as [|budget IH]; intros past w Hi; destruct (pipe w) as [|d rest] eqn:Hp;
    try (exists past, w; cbn [read_from_pipe]; rewrite Hp; by split_and!).
  - destruct (read_step past w d rest 0 Hi Hp) as (w2 & Hi2 & Hr2 & ->).
    exists (past ++ [d]), w2. rewrite Hr2. cbn. split; [by destruct (is_last d.1)|]. split; [done|]. lia.
  - destruct (read_step past w d rest (S budget) Hi Hp) as (w2 & Hi2 & Hr2 & ->). destruct (is_last d.1).
    + exists (past ++ [d]), w2. rewrite Hr2. cbn. split; [done|]. split; [done|]. lia.
    + destruct (IH _ _ Hi2) as (past' & w' & E & Hi' & Hl & _). exists past', w'. split; [done|]. split; [done|].
      rewrite Hr2 in Hl. cbn. lia.
Qed.

(** [n] readable events in a row. *)
Fixpoint pipe_events (n : nat) (w : PipeWorker) : option PipeWorker :=
  match n with
  | O => Some w
  | S n => '(_, w) ← Worker_onPipeReceive fresh ipc_max_size w; pipe_events n w
  end.

Lemma pipe_events_spec n : ∀ past w, winv past w → (length (pipe w) <= n)%nat →
  ∃ w', pipe_events n w = Some w' ∧ winv all w' ∧ pipe w' = [].
Proof.
  induction n as [|n IH]; intros past w Hi Hn; cbn [pipe_events].
  - exists w. assert (pipe w = []) as Hp by (apply length_zero_iff_nil; lia).
    pose proof (w_all _ _ Hi) as Ha. rewrite Hp, app_nil_r in Ha. rewrite Ha at 1. done.
  - unfold Worker_onPipeReceive. destruct (read_spec (OSW_WORKER_MAX_RECV_CHUNK_COUNT - 1) past w Hi)
      as (past' & w1 & -> & Hi1 & Hl & Hlt). cbn [mbind option_bind].
    apply (IH past' w1 Hi1). destruct (pipe w) eqn:E; [cbn in *; lia|]. specialize (Hlt ltac:(done)). lia.
Qed.
End Worker.

(** C40. Packets survive the pipe.  Take any packets with distinct ids, each sent by
    [process_send_packet], cut into chunks as the kernel's answers demand, possibly not
    to its end, and any interleaving of their datagrams in the worker's pipe.  As many
    readable events as there are datagrams empty the pipe, and [accept_task] gets for
    every packet whose last datagram is there, in the order of these, the packet's header
    and exactly its bytes; the buffers hold exactly the parts of the incomplete packets,
    and no access leaves a buffer.  (The refusal of the send of a last chunk for lack of
    buffer space is excluded: see [last_chunk_refused].) *)
Theorem pipe_packets_delivered fresh ipc_max_size (packets : gmap Z (DataHead * bytes)) (all : list datagram) n :
  (∀ k, length (fresh k) = k) → sizeof_DataHead < ipc_max_size < 2 ^ 32 →
  (∀ d, d ∈ all → is_Some (packets !! msg_id d.1)) →
  (∀ i h data, packets !! i = Some (h, data) → len h = zlen data ∧ zlen data < 2 ^ 32 ∧
     ∃ answer fuel ret next l, process_send_packet answer fuel ipc_max_size i h data = Some (ret, next, l) ∧
       nobufs_ok l ∧ of_msg i all `prefix_of` delivered l) →
  (length all <= n)%nat →
  ∃ w, pipe_events fresh ipc_max_size n (MkPipeWorker all ∅ []) = Some w ∧ pipe w = [] ∧
    tasks w = omap (completes packets) all ∧
    ∀ i, contents <$> worker_buffers w !! i = open_of (of_msg i all).
Proof.
  intros Hf Hipc Hids Hsent Hn.
  assert (∀ i h data, packets !! i = Some (h, data) → len h = zlen data ∧ zlen data < 2 ^ 32 ∧
    train (ipc_max_size - sizeof_DataHead) (set_msg_id h i) data (of_msg i all)) as Htrain.
  { intros i h data Hp. destruct (Hsent _ _ _ Hp) as (Hl & Hd & answer & fuel & ret & next & l & E & Hok & [k Hk]).
    split; [done|]. split; [done|]. apply train_prefix with k. rewrite <- Hk.
    by apply (sent_train answer fuel ipc_max_size i h data ret next l). }
  destruct (pipe_events_spec fresh Hf ipc_max_size Hipc packets all Hids Htrain n [] (MkPipeWorker all ∅ []))
    as (w & E & Hi & Hp); [|done|].
  { split; [done|done|]. intros i. cbn [worker_buffers]. by rewrite lookup_empty. }
  exists w. split; [done|]. split; [done|]. split; [apply (w_tasks _ _ _ _ Hi)|].
  intros i. pose proof (w_buffers _ _ _ _ Hi i) as Hb. destruct (worker_buffers w !! i); cbn in Hb |- *; [|done].
  by destruct Hb as (_ & -> & _).
Qed.

Definition example_head (n : Z) : DataHead := MkDataHead 1 0 n 0 0 0 0 0 0.

(** Two packets, in two chunks and in one, and a third that is cut off. *)
Lemma pipe_packets_delivered_witness :
  let fresh n := replicate n 0 in
  let packets : gmap Z (DataHead * bytes) :=
    {[ 5 := (example_head 7, lit "abcdefg"); 6 := (example_head 3, lit "xyz"); 7 := (example_head 5, lit "12345") ]} in
  let head i n first last := chunk_head (set_msg_id (example_head n) i) first last in
  let all := [(head 5 7 true false, lit "abcd"); (head 7 5 true false, lit "1234");
              (set_msg_id (example_head 3) 6, lit "xyz"); (head 5 7 false true, lit "efg")] in
  ∃ w, pipe_events fresh 44 4 (MkPipeWorker all ∅ []) = Some w ∧ pipe w = [] ∧
    tasks w = omap (completes packets) all ∧
    ∀ i, contents <$> worker_buffers w !! i = open_of (of_msg i all).
Proof.
  intros fresh packets head all. apply pipe_packets_delivered.
  - intros k. apply length_replicate.
  - by vm_compute.
  - assert (Forall (λ d, is_Some (packets !! msg_id d.1)) all) as H by by repeat constructor.
    rewrite Forall_forall in H. done.
  - intros i h data. unfold packets. rewrite !lookup_insert_Some, lookup_singleton_Some.
    intros [[<- [= <- <-]]|[_ [[<- [= <- <-]]|[_ [<- [= <- <-]]]]]]; (split; [done|split; [done|]]);
      exists (λ _, Sent), 10%nat; do 3 eexists; (split; [by vm_compute|]).
    + split; [by repeat constructor|]. by exists [].
    + split; [by repeat constructor|]. by exists [].
    + split; [by repeat constructor|]. eexists. by vm_compute.
  - done.
Defined.

(** The same pipe, run: the two complete packets arrive. *)
Example pipe_run :
  let head i n first last := chunk_head (set_msg_id (example_head n) i) first last in
  let all := [(head 5 7 true false, lit "abcd"); (head 7 5 true false, lit "1234");
              (set_msg_id (example_head 3) 6, lit "xyz"); (head 5 7 false true, lit "efg")] in
  (w ← pipe_events (λ n, replicate n 0) 44 4 (MkPipeWorker all ∅ []);
   Some (snd <$> tasks w, (λ b, contents b) <$> worker_buffers w !! 7)) =
  Some ([lit "xyz"; lit "abcdefg"], Some (lit "1234")).
Proof. by vm_compute. Qed.

(** A last chunk whose send is refused is sent again in smaller chunks, but the mark of
    the last chunk is kept: the first of them already carries it. *)
Example last_chunk_refused :
  let n := Z.to_nat 18000 in
  (r ← process_send_packet (λ k, if decide (k = 1)%nat then Nobufs else Sent) (S n) 9040 1
         (example_head 18000) (replicate n 97);
   Some (r.1.1, (λ d, (flags d.1, zlen d.2)) <$> delivered r.2)) =
  Some (true, [(chunk_flags true false, 9000); (chunk_flags false true, 8152); (chunk_flags false true, 848)]).
Proof. by vm_compute. Qed.

(** A chunk whose message is unknown stays in the pipe, which is only peeked at: the
    worker reads nothing behind it any more. *)
Lemma unknown_chunk_sticks fresh ipc_max_size info data rest bs ts n :
  has info OSW_EVENT_DATA_CHUNK = true → has info OSW_EVENT_DATA_BEGIN = false → bs !! msg_id info = None →
  let w := MkPipeWorker ((info, data) :: rest) bs ts in
  pipe_events fresh ipc_max_size n w = Some w.
Proof.
  intros Hc Hb Hn w. assert (∀ budget, read_from_pipe fresh ipc_max_size budget w = Some (OSW_OK, w)) as Hr.
  { intros budget. destruct budget; unfold w; cbn [read_from_pipe pipe worker_buffers]; unfold get_worker_buffer; by rewrite Hc, Hn, Hb. }
  induction n as [|n IH]; [done|]. cbn [pipe_events]. unfold Worker_onPipeReceive. by rewrite Hr.
Qed.

(** A header without data whose send is refused is reported as sent, though it is not. *)
Lemma empty_refused_lost answer fuel ipc_max_size id h :
  sizeof_DataHead < ipc_max_size < 2 ^ 32 → len h = 0 → answer 0%nat = Nobufs →
  ∃ next l, process_send_packet answer fuel ipc_max_size id h [] = Some (true, next, l) ∧ delivered l = [].
Proof.
  intros Hi Hl Ha. unfold process_send_packet. rewrite Hl, u32_small by (unfold sizeof_DataHead in *; lia).
  rewrite (proj2 (Z.leb_le _ _)) by lia. rewrite Ha. cbn [mbind option_bind load]. change (load [] 0 0) with (Some (@nil Z)).
  cbn [mbind option_bind]. destruct fuel; cbn [chunk_loop]; change (0 <? 0) with false; cbn; by do 2 eexists.
Qed.

(** ** The reactor puts the answers together *)

(** A packet with all its datagrams; its type is not that of a control event. *)
Definition sent_whole (M : Z) (p : datagram) (ds : list datagram) : Prop :=
  len p.1 = zlen p.2 ∧ zlen p.2 < 2 ^ 32 ∧
  (type p.1 ∉ [OSW_SERVER_EVENT_INCOMING; OSW_SERVER_EVENT_SHUTDOWN; OSW_SERVER_EVENT_CLOSE_FORCE]) ∧
  train M p.1 p.2 ds ∧ concat (snd <$> ds) = p.2 ∧ ds ≠ [].

(** What reaches [send_to_connection]: the packet's header, but for the flags, and its bytes. *)
Definition answered (p : datagram) (r : reaction) : Prop := ∃ f, r = SendTo (set_flags p.1 f) p.2.

Section Answers.
Context (fresh : nat → bytes) (fresh_length : ∀ n, length (fresh n) = n).
Context (ipc_max_size : Z) (Hipc : sizeof_DataHead < ipc_max_size) (ev_fd : Z) (ends : reaction → bool).

Abbreviation M := (ipc_max_size - sizeof_DataHead).
Definition key_of (h : DataHead) : Z := i32 (Z.shiftl ev_fd 16 + server_fd h).

Lemma on_chunk h first fin d sofar bs package :
  package = default (alloc fresh OSW_BUFFER_SIZE_BIG) (bs !! key_of h) → wf package → contents package = sofar →
  zlen (sofar ++ d) < 2 ^ 32 → ∃ b, wf b ∧ contents b = sofar ++ d ∧
  on_message fresh ev_fd ends (chunk_head h first fin) d bs =
    Some (if fin then (false, delete (key_of h) bs, [SendTo (set_len (chunk_head h first fin) (zlen (sofar ++ d))) (sofar ++ d)])
          else (true, <[key_of h := b]> bs, [])).
Proof.
  intros Hp Hw Hc Hz. pose proof (contents_zlen _ Hw) as Hl. rewrite Hc in Hl. rewrite zlen_app in Hz.
  destruct (append_spec fresh fresh_length package d Hw) as (b & Hb & Hwb & Hcb & _ & Hlb); [lia|].
  rewrite Hc in Hcb. exists b. split; [done|]. split; [done|].
  unfold on_message. destruct (has_chunk h first fin) as (-> & _ & ->).
  change (i32 (Z.shiftl ev_fd 16 + server_fd (chunk_head h first fin))) with (key_of h).
  rewrite <- Hp, Hb. cbn [mbind option_bind]. destruct fin; [|done].
  pose proof (contents_zlen _ Hwb) as Hl'. rewrite Hcb in Hl'. pose proof Hwb as ((? & ?) & ? & _).
  assert (load (s_str b) 0 (s_length b) = Some (sofar ++ d)) as -> by (rewrite load_Some by lia; by rewrite <- Hcb).
  cbn [mbind option_bind]. rewrite <- Hl', u32_small; [done|]. rewrite zlen_app. zl_nonneg. lia.
Qed.

(** The answers that are still to come, with the part of the first that is buffered. *)
Definition rinv (ps : list datagram) (pipe : list datagram) (bs : gmap Z String) : Prop :=
  (bs = ∅ ∧ ∃ dss, pipe = concat dss ∧ Forall2 (sent_whole M) ps dss) ∨
  (∃ h sofar rest ds dss ps' b, ps = (h, sofar ++ rest) :: ps' ∧ pipe = ds ++ concat dss ∧
     Forall2 (sent_whole M) ps' dss ∧ chunks_of M h false rest ds ∧ concat (snd <$> ds) = rest ∧ rest ≠ [] ∧
     len h = zlen (sofar ++ rest) ∧ zlen (sofar ++ rest) < 2 ^ 32 ∧
     bs = {[key_of h := b]} ∧ wf b ∧ contents b = sofar).

(** A chunk, the first of its answer or a later one. *)
Lemma on_chunk_rinv h first sofar d rest' ds dss ps bs package :
  package = default (alloc fresh OSW_BUFFER_SIZE_BIG) (bs !! key_of h) → wf package → contents package = sofar →
  (bs = ∅ ∨ ∃ b, bs = {[key_of h := b]}) →
  chunks_of M h false rest' ds → concat (snd <$> ds) = rest' → Forall2 (sent_whole M) ps dss →
  len h = zlen (sofar ++ d ++ rest') → zlen (sofar ++ d ++ rest') < 2 ^ 32 →
  ∃ stop bs' out, on_message fresh ev_fd ends (chunk_head h first (bool_decide (rest' = []))) d bs = Some (stop, bs', out) ∧
    ((out = [] ∧ rinv ((h, sofar ++ d ++ rest') :: ps) (ds ++ concat dss) bs') ∨
     (∃ r, out = [r] ∧ answered (h, sofar ++ d ++ rest') r ∧ rinv ps (ds ++ concat dss) bs')).
Proof.
  intros Hp Hw Hc Hbs Hch Hcat Hps Hlen Hz.
  destruct (on_chunk h first (bool_decide (rest' = [])) d sofar bs package Hp Hw Hc) as (b & Hwb & Hcb & ->).
  { rewrite !zlen_app in *. zl_nonneg. lia. }
  destruct (decide (rest' = [])) as [->|Hne].
  - rewrite bool_decide_true by done. rewrite app_nil_r in *.
    assert (ds = []) as ->.
    { destruct ds as [|[i x] ds]; [done|]. destruct Hch as (? & _ & r & E & _). by destruct x. }
    do 3 eexists. split; [done|]. right. eexists. split; [done|]. split.
    + exists (chunk_flags first true). f_equal. destruct h. cbn in *. by rewrite Hlen.
    + left. split; [|by exists dss]. destruct Hbs as [->|[b' ->]]; [apply delete_empty|apply delete_singleton_eq].
  - rewrite bool_decide_false by done. do 3 eexists. split; [done|]. left. split; [done|]. right.
    exists h, (sofar ++ d), rest', ds, dss, ps, b. rewrite <- app_assoc. split_and!; try done.
    destruct Hbs as [->|[b' ->]]; [apply insert_empty|apply insert_singleton_eq].
Qed.

(** One message. *)
Lemma on_message_spec ps d pipe bs :
  rinv ps (d :: pipe) bs →
  ∃ stop bs' out, on_message fresh ev_fd ends d.1 (take (Z.to_nat M) d.2) bs = Some (stop, bs', out) ∧
    ((out = [] ∧ rinv ps pipe bs') ∨
     (∃ p ps' r, ps = p :: ps' ∧ out = [r] ∧ answered p r ∧ rinv ps' pipe bs')).
Proof.
  intros [(-> & dss & Hpipe & Hps)|(h & sofar & rest & ds & dss & ps' & b & -> & Hpipe & Hps & Hch & Hcat & Hne & Hlen & Hz & -> & Hw & Hc)].
  - destruct Hps as [|p ds ps dss (Hlen & Hz & Hty & Ht & Hcat & Hne) Hps]; [done|].
    destruct ds as [|x ds]; [done|]. injection Hpipe as <- ->. destruct p as [h data]. cbn [fst snd] in *.
    destruct Ht as [[[= -> ->] HM]|Hch].
    + cbn [fst snd]. rewrite take_ge by (unfold zlen in *; lia). unfold on_message, has. cbn [flags set_flags fst snd]. rewrite Z.land_0_l.
      cbn [Z.eqb negb type set_flags]. rewrite !not_elem_of_cons in Hty. destruct Hty as (H1 & H2 & H3 & _).
      rewrite !(proj2 (Z.eqb_neq _ _)) by done. cbn [len set_flags]. rewrite Hlen, load_all. cbn [mbind option_bind].
      do 3 eexists. split; [done|]. right. exists (h, data), ps. eexists. split; [done|]. split; [done|].
      split; [by exists 0|]. left. split; [done|]. by exists dss.
    + destruct d as [i d]. destruct Hch as (Hd & HdM & rest' & -> & -> & Hch). cbn [fst snd].
      rewrite take_ge by (unfold zlen in *; lia). cbn [fmap list_fmap concat snd] in Hcat. apply app_inv_head in Hcat.
      destruct (alloc_wf fresh fresh_length OSW_BUFFER_SIZE_BIG) as (Hwf & Hcont & _); [done|].
      destruct (on_chunk_rinv h true [] d rest' ds dss ps ∅ (alloc fresh OSW_BUFFER_SIZE_BIG))
        as (stop & bs' & out & -> & [Ho|(r & Ho)]); try done; try (by left);
        exists stop, bs', out; (split; [done|]); [by left|right].
      exists (h, d ++ rest'), ps, r. by split.
  - destruct ds as [|x ds]; [by cbn in Hcat|]. injection Hpipe as <- ->. destruct d as [i d].
    destruct Hch as (Hd & HdM & rest' & -> & -> & Hch). cbn [fst snd].
    rewrite take_ge by (unfold zlen in *; lia). cbn [fmap list_fmap concat snd] in Hcat. apply app_inv_head in Hcat.
    destruct (on_chunk_rinv h false sofar d rest' ds dss ps' {[key_of h := b]} b)
      as (stop & bs' & out & -> & [Ho|(r & Ho)]); try done; try (by rewrite lookup_singleton_eq); try (by right; exists b);
      exists stop, bs', out; (split; [done|]); [by left|right].
    exists (h, sofar ++ d ++ rest'), ps', r. by split.
Qed.

Lemma pipe_read_spec pipe : ∀ ps bs done_, rinv ps pipe bs →
  ∃ pipe' bs' out ps1 ps2, pipe_read_loop fresh ipc_max_size ev_fd ends pipe bs done_ =
      Some (OSW_OK, MkPipeReactor pipe' bs' (done_ ++ out)) ∧
    ps = ps1 ++ ps2 ∧ Forall2 answered ps1 out ∧ rinv ps2 pipe' bs' ∧
    (length pipe' <= length pipe ∧ (pipe ≠ [] → length pipe' < length pipe))%nat.
Proof.
  induction pipe as [|[info data] pipe IH]; intros ps bs done_ Hr; cbn [pipe_read_loop].
  - exists [], bs, [], [], ps. rewrite app_nil_r. by split_and!.
  - destruct (on_message_spec _ _ _ _ Hr) as (stop & bs1 & out & E & Hout). cbn [fst snd] in E. rewrite E.
    cbn [mbind option_bind].
    assert (∃ ps1 ps2, ps = ps1 ++ ps2 ∧ Forall2 answered ps1 out ∧ rinv ps2 pipe bs1) as (ps1 & ps2 & -> & Ho & Hr1).
    { destruct Hout as [[-> Hr1]|(p & ps' & r & -> & -> & Ha & Hr1)]; [by exists [], ps|].
      exists [p], ps'. split_and!; [done|by repeat constructor|done]. }
    destruct stop.
    + exists pipe, bs1, out, ps1, ps2. split_and!; try done; cbn; lia.
    + destruct (IH ps2 bs1 (done_ ++ out) Hr1) as (pipe' & bs' & out' & ps3 & ps4 & -> & -> & Ho' & Hr' & Hl & _).
      exists pipe', bs', (out ++ out'), (ps1 ++ ps3), ps4. rewrite !app_assoc.
      split_and!; try done; [by apply Forall2_app|cbn; lia|cbn; lia].
Qed.

(** [n] readable events in a row. *)
Fixpoint reactor_events (n : nat) (r : PipeReactor) : option PipeReactor :=
  match n with
  | O => Some r
  | S n => '(_, r) ← ReactorThread_onPipeRead fresh ipc_max_size ev_fd ends r; reactor_events n r
  end.

Lemma reactor_events_spec n : ∀ r ps, rinv ps (r_pipe r) (send_buffers r) → (length (r_pipe r) <= n)%nat →
  ∃ out, reactor_events n r = Some (MkPipeReactor [] ∅ (reactions r ++ out)) ∧ Forall2 answered ps out.
Proof.
  induction n as [|n IH]; intros r ps Hr Hn; cbn [reactor_events].
  - destruct r as [pipe bs re]. cbn [r_pipe send_buffers reactions] in *.
    assert (pipe = []) as -> by (apply length_zero_iff_nil; lia). exists [].
    destruct Hr as [(-> & dss & Hp & Hps)|(h & sofar & rest & ds & dss & ps' & b & -> & Hp & _ & _ & Hcat & Hne & _)].
    + rewrite app_nil_r. split; [done|]. destruct Hps as [|p ds ps dss (_ & _ & _ & _ & _ & Hne) Hps]; [done|].
      symmetry in Hp. by apply app_eq_nil in Hp as [? _].
    + symmetry in Hp. apply app_eq_nil in Hp as [-> _]. by cbn in Hcat.
  - unfold ReactorThread_onPipeRead.
    destruct (pipe_read_spec (r_pipe r) ps (send_buffers r) (reactions r) Hr)
      as (pipe' & bs' & out & ps1 & ps2 & -> & -> & Ho & Hr' & Hl & Hlt). cbn [mbind option_bind].
    destruct (IH (MkPipeReactor pipe' bs' (reactions r ++ out)) ps2) as (out' & -> & Ho'); [done| |].
    { cbn. destruct (r_pipe r) eqn:E; [cbn in *; lia|]. specialize (Hlt ltac:(done)). lia. }
    exists (out ++ out'). cbn [reactions]. rewrite app_assoc. split; [done|by apply Forall2_app].
Qed.
End Answers.

(** The datagrams [ds] of an answer that was sent with success as message [i]. *)
Definition answer_sent (ipc_max_size : Z) (p : Z * datagram) (ds : list datagram) : Prop :=
  let '(i, (h, data)) := p in
  len h = zlen data ∧ zlen data < 2 ^ 32 ∧
  (type h ∉ [OSW_SERVER_EVENT_INCOMING; OSW_SERVER_EVENT_SHUTDOWN; OSW_SERVER_EVENT_CLOSE_FORCE]) ∧
  ∃ answer fuel next l, process_send_packet answer fuel ipc_max_size i h data = Some (true, next, l) ∧
    nobufs_ok l ∧ ds = delivered l ∧ ds ≠ [].

(** C8. Answers survive the pipe.  When a worker sends answers of less than 4 GiB, cut into chunks
    as the kernel's answers demand, [process_send_packet] reports success with at least one
    datagram delivered, and no last chunk was refused for lack of buffer space
    (see [last_chunk_refused] and [empty_refused_lost]), the reactor thread hands
    [send_to_connection] exactly these answers, in order, each with its header and its
    bytes, within as many readable events as there are datagrams, and keeps no buffer. *)
Theorem answers_delivered fresh ipc_max_size ev_fd ends (ps : list (Z * datagram)) dss n :
  (∀ k, length (fresh k) = k) → sizeof_DataHead < ipc_max_size < 2 ^ 32 →
  Forall2 (answer_sent ipc_max_size) ps dss → (length (concat dss) <= n)%nat →
  ∃ out, reactor_events fresh ipc_max_size ev_fd ends n (MkPipeReactor (concat dss) ∅ []) =
      Some (MkPipeReactor [] ∅ out) ∧
    Forall2 (λ p r, answered (set_msg_id p.2.1 p.1, p.2.2) r) ps out.
Proof.
  intros Hf Hipc Hps Hn.
  destruct (reactor_events_spec fresh Hf ipc_max_size (proj1 Hipc) ev_fd ends n (MkPipeReactor (concat dss) ∅ [])
    ((λ p, (set_msg_id p.2.1 p.1, p.2.2)) <$> ps)) as (out & E & Ho); [|done|].
  - left. split; [done|]. exists dss. split; [done|]. apply Forall2_fmap_l. eapply Forall2_impl; [exact Hps|].
    intros [i [h data]] ds (Hlen & Hz & Hty & answer & fuel & next & l & Es & Hok & -> & Hne).
    destruct (sent_train answer fuel ipc_max_size i h data true next l Hlen Hz Hipc Es Hok) as [Ht Hc].
    split_and!; try done. by apply Hc.
  - exists out. split; [done|]. by pose proof (proj1 (Forall2_fmap_l _ _ _ _) Ho).
Qed.

Lemma answers_delivered_witness :
  let head i n first last := chunk_head (set_msg_id (example_head n) i) first last in
  let ps := [(5, (example_head 7, lit "abcdefg")); (6, (example_head 3, lit "xyz"))] in
  let dss := [[(head 5 7 true false, lit "abcd"); (head 5 7 false true, lit "efg")];
              [(set_msg_id (example_head 3) 6, lit "xyz")]] in
  ∃ out, reactor_events (λ n, replicate n 0) 44 9 (λ _, false) 3 (MkPipeReactor (concat dss) ∅ []) =
      Some (MkPipeReactor [] ∅ out) ∧
    Forall2 (λ p r, answered (set_msg_id p.2.1 p.1, p.2.2) r) ps out.
Proof.
  intros head ps dss. apply answers_delivered.
  - intros k. apply length_replicate.
  - by vm_compute.
  - repeat constructor; try (by apply (bool_decide_unpack _); vm_compute);
      exists (λ _, Sent), 10%nat; do 2 eexists; (split; [by vm_compute|]); (split; [by repeat constructor|done]).
  - done.
Defined.

(** The reactor thread does not look at the mark of a first chunk: behind an answer whose
    send failed half way, the next answer of the worker arrives with the lost answer's
    beginning in front. *)
Example cut_answer_corrupts :
  let head n first last := chunk_head (example_head n) first last in
  let pipe := [(head 7 true false, lit "abcd"); (head 6 true false, lit "1234"); (head 6 false true, lit "56")] in
  (r ← reactor_events (λ n, replicate n 0) 44 9 (λ _, false) 3 (MkPipeReactor pipe ∅ []);
   Some (reactions r)) = Some [SendTo (set_len (head 6 false true) 10) (lit "abcd123456")].
Proof. by vm_compute. Qed.
