(* ===== verification/Sessions.v ===== *)
(** * Sessions and connections of the server: src/server/master.cc,
      src/server/reactor_thread.cc, include/openswoole_server.h

    A connection lives in [connection_list] at its descriptor.  The application names
    it by a session id, which is never given twice: [session_list] maps the id modulo
    the size of the list to the descriptor.  [add_connection] finds a free slot behind
    the last id given, [close_connection] frees it, [get_connection_verify] finds the
    connection of an id, and [foreach_connection] visits the connections between the
    least and the greatest descriptor.

    [None] is an access outside a list.  Only the fields that these operations look at
    are modelled; timers, the socket's options, TLS and the close of the descriptor are
    left out. *)

From S2P Require Import Prelude.
From Stdlib Require Import Sorted.

Definition OSW_SESSION_LIST_SIZE : Z := 1024 * 1024.

Record Session := MkSession { se_id : Z; se_fd : Z; se_reactor_id : Z }.

(** The words of a peer's address that the dispatch looks at: [sin_addr.s_addr] and
    [s6_addr32[3]]. *)
Record Address := MkAddress { s_addr : Z; s6_addr32_3 : Z }.

Record Connection := MkConnection {
  active : bool; socket_type : Z; fd : Z; worker_id : Z; session_id : Z; ssl : bool; ssl_ready : bool;
  closed : bool; close_force : bool; reactor_id : Z; server_fd : Z; info : Address; socket : bool; uid : Z }.
Definition zero_connection : Connection :=
  MkConnection false 0 0 0 0 false false false false 0 0 (MkAddress 0 0) false 0.

Record Server := MkServer {
  max_connection : Z; reactor_num : Z; session_list : gmap Z Session; connection_list : list Connection;
  session_round : Z; min_fd : Z; max_fd : Z; accept_count : Z; close_count : Z; connection_num : Z }.

(** ** Lookups *)

(** The list is created with zeros. *)
Definition get_session (s : Server) (id : Z) : option Session :=
  let i := Z.rem id OSW_SESSION_LIST_SIZE in
  if i <? 0 then None else Some (default (MkSession 0 0 0) (session_list s !! i)).

Definition connection_at (s : Server) (fd : Z) : option Connection :=
  if fd <? 0 then None else connection_list s !! Z.to_nat fd.

(** The inner [None] is the null pointer. *)
Definition get_connection (s : Server) (fd : Z) : option (option Connection) :=
  if max_connection s <? u32 fd then Some None else c ← connection_at s fd; Some (Some c).

Definition get_connection_verify_no_ssl (s : Server) (id : Z) : option (option Connection) :=
  session ← get_session s id;
  conn ← get_connection s (se_fd session);
  match conn with
  | None => Some None
  | Some c =>
    if negb (active c) then Some None
    else if negb (se_id session =? id) || negb (session_id c =? id) then Some None
    else Some (Some c)
  end.

Definition get_connection_verify (s : Server) (id : Z) : option (option Connection) :=
  conn ← get_connection_verify_no_ssl s id;
  Some (c ← conn; if ssl c && negb (ssl_ready c) then None else Some c).

Definition is_valid_connection (c : option Connection) : bool :=
  match c with Some c => socket c && active c | None => false end.

(** [foreach_connection]: the connections given to the callback. *)
Fixpoint foreach_loop (n : nat) (s : Server) (fd : Z) : option (list Connection) :=
  match n with
  | O => Some []
  | S n =>
    c ← get_connection s fd;
    l ← foreach_loop n s (fd + 1);
    Some (match c with Some c' => if is_valid_connection c then c' :: l else l | None => l end)
  end.
Definition foreach_connection (s : Server) : option (list Connection) :=
  foreach_loop (Z.to_nat (max_fd s - min_fd s + 1)) s (min_fd s).

(** ** A new connection *)

Definition set_session (s : Server) (id : Z) (se : Session) : Server :=
  MkServer (max_connection s) (reactor_num s) (<[Z.rem id OSW_SESSION_LIST_SIZE := se]> (session_list s))
    (connection_list s) (session_round s) (min_fd s) (max_fd s) (accept_count s) (close_count s) (connection_num s).
Definition with_connections (s : Server) (l : list Connection) : Server :=
  MkServer (max_connection s) (reactor_num s) (session_list s) l (session_round s) (min_fd s) (max_fd s)
    (accept_count s) (close_count s) (connection_num s).
Definition set_connection (s : Server) (fd : Z) (c : Connection) : option Server :=
  _ ← connection_at s fd; Some (with_connections s (<[Z.to_nat fd := c]> (connection_list s))).
Definition set_round (s : Server) (r : Z) : Server :=
  MkServer (max_connection s) (reactor_num s) (session_list s) (connection_list s) r (min_fd s) (max_fd s)
    (accept_count s) (close_count s) (connection_num s).
Definition set_range (s : Server) (lo hi : Z) : Server :=
  MkServer (max_connection s) (reactor_num s) (session_list s) (connection_list s) (session_round s) lo hi
    (accept_count s) (close_count s) (connection_num s).
Definition count (s : Server) (a c n : Z) : Server :=
  MkServer (max_connection s) (reactor_num s) (session_list s) (connection_list s) (session_round s) (min_fd s)
    (max_fd s) (accept_count s + a) (close_count s + c) (u32 (connection_num s + n)).

(** The search for a free slot: the new session id, if there is one. *)
Fixpoint find_slot (n : nat) (s : Server) (id : Z) : option (option Z) :=
  match n with
  | O => Some None
  | S n =>
    let id := i64 (id + 1) in
    session ← get_session s id;
    if se_fd session =? 0 then Some (Some id) else find_slot n s id
  end.

(** The part of [add_connection] under the lock of the sessions. *)
Definition alloc_session (s : Server) (fd : Z) : option (option Z * Server) :=
  id ← find_slot (Z.to_nat (max_connection s)) s (session_round s);
  match id with
  | None => Some (None, s)
  | Some id => Some (Some id, set_session s id (MkSession id fd (fd mod reactor_num s)))
  end.

(** The fields that [add_connection] sets. *)
Definition new_connection (type fd id reactor_id server_fd : Z) (info : Address) : Connection :=
  MkConnection true type fd (-1) id false false false false reactor_id server_fd info true 0.

(** [add_connection], in the process mode, for a descriptor that [accept] returned: the new
    session id, unless there is no slot. *)
Definition add_connection (s : Server) (fd server_fd type : Z) (info : Address) : option (option Z * Server) :=
  let s := count s 1 0 1 in
  let s := if max_fd s <? fd then set_range s (min_fd s) fd
           else if fd <? min_fd s then set_range s fd (max_fd s) else s in
  s ← set_connection s fd zero_connection;
  '(id, s) ← alloc_session s fd;
  match id with
  | None => Some (None, s)
  | Some id =>
    let s := set_round s id in
    s ← set_connection s fd (new_connection type fd id (fd mod reactor_num s) server_fd info);
    Some (Some id, s)
  end.

(** ** The close of a connection *)

(** The search for the new greatest descriptor. *)
Fixpoint find_max (n : nat) (s : Server) (find_max_fd : Z) : option Z :=
  match n with
  | O => None
  | S n =>
    c ← get_connection s find_max_fd;
    if negb (is_valid_connection c) && (min_fd s <? find_max_fd) then find_max n s (find_max_fd - 1)
    else Some find_max_fd
  end.

Definition close_connection (s : Server) (fd : Z) : option Server :=
  conn ← connection_at s fd;
  let s := count s 0 1 (-1) in
  session ← get_session s (session_id conn);
  let s := set_session s (session_id conn) (MkSession (se_id session) 0 (se_reactor_id session)) in
  s ← (if fd =? max_fd s
       then m ← find_max (S (Z.to_nat fd)) s (fd - 1); Some (set_range s (min_fd s) m)
       else Some s);
  set_connection s fd zero_connection.

(** ** Runs *)

Inductive session_op := Add (fd server_fd type : Z) (info : Address) | Close (fd : Z).

(** The state after the calls, and the ids that were given. *)
Fixpoint run_sessions (ops : list session_op) (s : Server) : option (Server * list Z) :=
  match ops with
  | [] => Some (s, [])
  | Add fd server_fd type info :: ops =>
    '(id, s) ← add_connection s fd server_fd type info;
    id ← id;
    '(s, ids) ← run_sessions ops s; Some (s, id :: ids)
  | Close fd :: ops => s ← close_connection s fd; run_sessions ops s
  end.

(** ** The invariant *)

Definition slot (id : Z) : Z := Z.rem id OSW_SESSION_LIST_SIZE.

(** [open] maps the ids of the open connections to their descriptors. *)
Record sinv (s : Server) (open : gmap Z Z) : Prop := {
  i_max : 0 < max_connection s <= OSW_SESSION_LIST_SIZE;
  i_len : zlen (connection_list s) = max_connection s;
  i_round : 0 <= session_round s;
  i_open : ∀ id f, open !! id = Some f → 0 < id <= session_round s ∧ 0 < f < max_connection s ∧
    (∃ se, session_list s !! slot id = Some se ∧ se_id se = id ∧ se_fd se = f) ∧
    ∃ c, connection_list s !! Z.to_nat f = Some c ∧ active c = true ∧ socket c = true ∧
      session_id c = id ∧ fd c = f;
  i_active : ∀ f c, connection_list s !! f = Some c → active c = true → open !! session_id c = Some (Z.of_nat f);
  i_slot : ∀ i se, session_list s !! i = Some se → se_fd se ≠ 0 →
    open !! se_id se = Some (se_fd se) ∧ slot (se_id se) = i;
  i_bounds : 0 <= min_fd s <= max_fd s + 1 ∧ max_fd s < max_connection s;
  i_range : ∀ id f, open !! id = Some f → min_fd s <= f <= max_fd s }.

Lemma slot_mod id : 0 <= id → slot id = id mod OSW_SESSION_LIST_SIZE.
Proof. intros. unfold slot. by apply Z.rem_mod_nonneg. Qed.

Definition session_at (s : Server) (id : Z) : Session := default (MkSession 0 0 0) (session_list s !! slot id).

Lemma get_session_at s id : 0 <= id → get_session s id = Some (session_at s id).
Proof.
  intros Hid. unfold get_session. fold (slot id). rewrite (proj2 (Z.ltb_ge _ _)); [done|].
  rewrite slot_mod by done. by apply Z.mod_pos_bound.
Qed.

Lemma find_slot_spec s n : ∀ id, 0 <= id → id + Z.of_nat n < 2 ^ 63 →
  (∃ id', find_slot n s id = Some (Some id') ∧ id < id' <= id + Z.of_nat n ∧ se_fd (session_at s id') = 0) ∨
  (find_slot n s id = Some None ∧ ∀ k, id < k <= id + Z.of_nat n → se_fd (session_at s k) ≠ 0).
Proof.
  induction n as [|n IH]; intros id Hid Hn; cbn [find_slot]; [right; split; [done|lia]|].
  rewrite i64_small by lia. rewrite get_session_at by lia. cbn [mbind option_bind].
  destruct (Z.eqb_spec (se_fd (session_at s (id + 1))) 0) as [E|Hne].
  - left. exists (id + 1). split; [done|]. split; [lia|done].
  - destruct (IH (id + 1)) as [(id' & E & Hr & Hf)|[E Hall]]; [lia|lia|left|right].
    + exists id'. split; [done|]. split; [lia|done].
    + split; [done|]. intros k Hk. destruct (Z.eq_dec k (id + 1)) as [->|]; [done|]. apply Hall. lia.
Qed.

(** There always is a free slot: a slot in use belongs to a descriptor of its own, and
    there are fewer descriptors than slots that are tried. *)
Lemma slot_free s open : sinv s open →
  ¬ ∀ k, session_round s < k <= session_round s + max_connection s → se_fd (session_at s k) ≠ 0.
Proof.
  intros Hi Hall. pose proof (i_max _ _ Hi) as Hm. pose proof (i_round _ _ Hi) as Hr.
  set (ks := seqZ (session_round s + 1) (max_connection s)).
  set (fds := (λ k, se_fd (session_at s k)) <$> ks).
  assert (∀ k, k ∈ ks → open !! se_id (session_at s k) = Some (se_fd (session_at s k)) ∧
    slot (se_id (session_at s k)) = slot k) as Hk.
  { intros k Hk%elem_of_seqZ. specialize (Hall k ltac:(lia)). unfold session_at in *.
    destruct (session_list s !! slot k) as [se|] eqn:E; [|done]. by apply (i_slot _ _ Hi). }
  assert (NoDup fds) as Hnd.
  { apply NoDup_fmap_2_strong; [|apply NoDup_seqZ]. intros k1 k2 H1 H2 E.
    destruct (Hk _ H1) as [O1 S1]. destruct (Hk _ H2) as [O2 S2]. rewrite E in O1.
    destruct (i_open _ _ Hi _ _ O1) as (_ & _ & _ & c1 & C1 & _ & _ & I1 & _).
    destruct (i_open _ _ Hi _ _ O2) as (_ & _ & _ & c2 & C2 & _ & _ & I2 & _).
    rewrite C1 in C2. injection C2 as <-. rewrite I1 in I2. rewrite I2, S2 in S1.
    apply elem_of_seqZ in H1, H2. rewrite !slot_mod in S1 by lia. unfold OSW_SESSION_LIST_SIZE in *. zdiv. }
  assert (fds ⊆+ seqZ 1 (max_connection s - 1)) as Hsub.
  { apply NoDup_submseteq; [done|]. intros f (k & -> & H)%list_elem_of_fmap.
    destruct (Hk _ H) as [O _]. destruct (i_open _ _ Hi _ _ O) as (_ & Hf & _). apply elem_of_seqZ. lia. }
  apply submseteq_length in Hsub. unfold fds, ks in Hsub. rewrite length_fmap, !length_seqZ in Hsub. lia.
Qed.

Lemma connection_inside s open f : sinv s open → 0 <= f < max_connection s → is_Some (connection_at s f).
Proof.
  intros Hi Hf. unfold connection_at. rewrite (proj2 (Z.ltb_ge _ _)) by lia.
  apply lookup_lt_is_Some_2. pose proof (i_len _ _ Hi). unfold zlen in *. lia.
Qed.

Lemma get_connection_inside s open f : sinv s open → 0 <= f < max_connection s →
  get_connection s f = Some (connection_at s f).
Proof.
  intros Hi Hf. destruct (connection_inside s open f Hi Hf) as [c E]. pose proof (i_max _ _ Hi) as Hm.
  unfold get_connection. unfold OSW_SESSION_LIST_SIZE in *. rewrite u32_small by lia.
  rewrite (proj2 (Z.ltb_ge _ _)) by lia. by rewrite E.
Qed.

Lemma set_connection_Some s f c : 0 <= f < zlen (connection_list s) →
  set_connection s f c = Some (with_connections s (<[Z.to_nat f := c]> (connection_list s))).
Proof.
  intros Hf. unfold set_connection, connection_at. rewrite (proj2 (Z.ltb_ge _ _)) by lia.
  destruct (lookup_lt_is_Some_2 (connection_list s) (Z.to_nat f)) as [d ->]; [unfold zlen in Hf; lia|done].
Qed.

(** The new connection takes its slot; the counters and the range follow. *)
Lemma sinv_add s s' open id f c :
  sinv s open → 0 < f < max_connection s → (∀ id, open !! id ≠ Some f) → session_round s < id →
  se_fd (session_at s id) = 0 →
  max_connection s' = max_connection s → session_round s' = id →
  (∃ r, session_list s' = <[slot id := MkSession id f r]> (session_list s)) →
  connection_list s' = <[Z.to_nat f := c]> (connection_list s) →
  active c = true → socket c = true → session_id c = id → fd c = f →
  min_fd s' = Z.min (min_fd s) f → max_fd s' = Z.max (max_fd s) f →
  sinv s' (<[id := f]> open).
Proof.
  intros Hi Hf Hnew Hid Hfree Em Er [r Es] Ec Hact Hsock Hsid Hfd Emin Emax.
  pose proof (i_round _ _ Hi) as Hr. pose proof (i_len _ _ Hi) as Hlen.
  assert (∀ id' f', open !! id' = Some f' → id' ≠ id ∧ f' ≠ f ∧ slot id' ≠ slot id) as Hother.
  { intros id' f' O. destruct (i_open _ _ Hi _ _ O) as (Hid' & Hf' & (se & E & _ & Hse) & _).
    split; [lia|]. split; [intros ->; by apply (Hnew id')|]. intros Eq. unfold session_at in Hfree.
    rewrite <- Eq, E in Hfree. cbn in Hfree. lia. }
  assert (Z.to_nat f < length (connection_list s))%nat as Hin by (unfold zlen in Hlen; lia).
  split; rewrite ?Em, ?Er, ?Ec.
  - apply (i_max _ _ Hi).
  - unfold zlen in *. by rewrite length_insert.
  - lia.
  - intros id' f'. rewrite lookup_insert_Some, Es. intros [[<- <-]|[Hne O]].
    + split; [lia|]. split; [done|]. split; [eexists; by rewrite lookup_insert_eq|].
      exists c. by rewrite list_lookup_insert_eq.
    + destruct (Hother _ _ O) as (_ & Hf' & Hs). destruct (i_open _ _ Hi _ _ O) as (? & ? & Hse & Hc).
      split; [lia|]. split; [done|]. rewrite lookup_insert_ne by done. split; [done|].
      rewrite list_lookup_insert_ne by lia. done.
  - intros g d. rewrite list_lookup_insert_Some. intros [(<- & <- & _)|[Hne E]] Ha.
    + rewrite Hsid, lookup_insert_eq, Z2Nat.id by lia. done.
    + pose proof (i_active _ _ Hi _ _ E Ha) as O. rewrite lookup_insert_ne; [done|]. by destruct (Hother _ _ O).
  - intros i se. rewrite Es, lookup_insert_Some. intros [[<- <-]|[Hne E]] Hne0.
    + cbn. by rewrite lookup_insert_eq.
    + destruct (i_slot _ _ Hi _ _ E Hne0) as [O Hs]. split; [|done]. rewrite lookup_insert_ne; [done|]. by destruct (Hother _ _ O).
  - pose proof (i_bounds _ _ Hi). lia.
  - rewrite Emin, Emax. intros id' f'. rewrite lookup_insert_Some. intros [[_ <-]|[_ O]]; [lia|].
    pose proof (i_range _ _ Hi _ _ O). lia.
Qed.

Lemma add_connection_spec s open f server_fd type info :
  sinv s open → 0 < f < max_connection s → (∀ id, open !! id ≠ Some f) →
  session_round s + max_connection s < 2 ^ 63 →
  ∃ id s', add_connection s f server_fd type info = Some (Some id, s') ∧ sinv s' (<[id := f]> open) ∧
    session_round s < id <= session_round s + max_connection s ∧ session_round s' = id ∧
    max_connection s' = max_connection s.
Proof.
  intros Hi Hf Hnew Hb. unfold add_connection. pose proof (i_bounds _ _ Hi) as Hbo.
  set (s1 := if max_fd (count s 1 0 1) <? f then _ else _).
  assert (max_connection s1 = max_connection s ∧ session_list s1 = session_list s ∧
    connection_list s1 = connection_list s ∧ session_round s1 = session_round s ∧
    min_fd s1 = Z.min (min_fd s) f ∧ max_fd s1 = Z.max (max_fd s) f) as (E1 & E2 & E3 & E4 & E5 & E6).
  { unfold s1. cbn [max_fd min_fd count]. destruct (Z.ltb_spec (max_fd s) f); [|destruct (Z.ltb_spec f (min_fd s))];
      cbn [max_connection session_list connection_list session_round min_fd max_fd set_range count]; split_and!; done || lia. }
  clearbody s1. pose proof (i_len _ _ Hi) as Hlen. pose proof (i_max _ _ Hi) as Hm.
  rewrite set_connection_Some by (rewrite E3; lia). cbn [mbind option_bind].
  unfold alloc_session. cbn [max_connection session_round with_connections]. rewrite E1, E4.
  match goal with |- context [find_slot _ ?s2 _] => set (s2' := s2) end.
  assert (∀ k, session_at s2' k = session_at s k) as Hsa by (intros k; unfold session_at; cbn; by rewrite E2).
  destruct (find_slot_spec s2' (Z.to_nat (max_connection s)) (session_round s)) as [(id & -> & Hr & Hfr)|[_ Hall]];
    [apply (i_round _ _ Hi)|lia| |].
  2: { exfalso. apply (slot_free s open Hi). intros k Hk. rewrite <- Hsa. apply Hall. lia. }
  cbn [mbind option_bind]. rewrite Hsa in Hfr.
  rewrite set_connection_Some by (cbn; rewrite E3; unfold zlen in *; rewrite length_insert; lia). cbn [mbind option_bind].
  do 2 eexists. split; [done|]. split; [|cbn; split; [lia|by split]].
  eapply (sinv_add s); try done; cbn; try done; try lia.
  - eexists. rewrite E2. done.
  - by rewrite E3, list_insert_insert_eq.
  - done.
  - done.
  - done.
  - done.
Qed.

(** ** The close of a connection *)

Lemma find_max_spec s open n : sinv s open → ∀ cur, 0 <= cur < max_connection s → cur < Z.of_nat n →
  ∃ m, find_max n s cur = Some m ∧ Z.min cur (min_fd s) <= m <= cur ∧
    ∀ g c, m < g <= cur → connection_at s g = Some c → is_valid_connection (Some c) = false.
Proof.
  intros Hi. induction n as [|n IH]; intros cur Hc Hn; [lia|]. cbn [find_max].
  destruct (connection_inside s open cur Hi Hc) as [c Ec].
  rewrite (get_connection_inside s open) by done. cbn [mbind option_bind]. rewrite Ec.
  destruct (is_valid_connection (Some c)) eqn:Ev; cbn [negb andb].
  { exists cur. split; [done|]. split; [lia|]. intros; lia. }
  destruct (Z.ltb_spec (min_fd s) cur) as [Hlt|Hge].
  - pose proof (i_bounds _ _ Hi). destruct (IH (cur - 1)) as (m & -> & Hm & Hall); [lia|lia|].
    exists m. split; [done|]. split; [lia|]. intros g d Hg Ed.
    destruct (Z.eq_dec g cur) as [->|]; [congruence|]. apply (Hall g); [lia|done].
  - exists cur. split; [done|]. split; [lia|]. intros; lia.
Qed.

Lemma sinv_close s s' open id f :
  sinv s open → open !! id = Some f →
  max_connection s' = max_connection s → session_round s' = session_round s →
  (∃ r, session_list s' = <[slot id := MkSession id 0 r]> (session_list s)) →
  connection_list s' = <[Z.to_nat f := zero_connection]> (connection_list s) →
  min_fd s' = min_fd s → min_fd s <= max_fd s' + 1 → max_fd s' <= max_fd s →
  (∀ id' f', open !! id' = Some f' → f' ≠ f → f' <= max_fd s') →
  sinv s' (delete id open).
Proof.
  intros Hi O Em Er [r Es] Ec Emin Hb1 Hb2 Hmax.
  destruct (i_open _ _ Hi _ _ O) as (Hid & Hf & (se & Ese & Ese1 & Ese2) & c & Hc & Ha & Hso & Hsid & Hfd).
  assert (∀ id' f', open !! id' = Some f' → id' ≠ id → f' ≠ f ∧ slot id' ≠ slot id) as Hother.
  { intros id' f' O' Hne. destruct (i_open _ _ Hi _ _ O') as (_ & Hf' & (se' & Ese' & Ese1' & _) & c' & Hc' & _ & _ & Hsid' & _).
    split; [intros ->; congruence|]. intros Eq. rewrite Eq in Ese'. congruence. }
  split; rewrite ?Em, ?Er, ?Ec, ?Emin.
  - apply (i_max _ _ Hi).
  - pose proof (i_len _ _ Hi). unfold zlen in *. by rewrite length_insert.
  - apply (i_round _ _ Hi).
  - intros id' f'. rewrite lookup_delete_Some, Es. intros [Hne O'].
    destruct (Hother _ _ O' ltac:(done)) as [Hf' Hs]. destruct (i_open _ _ Hi _ _ O') as (? & ? & Hse' & Hc').
    split; [lia|]. split; [done|]. rewrite lookup_insert_ne by done. split; [done|].
    by rewrite list_lookup_insert_ne by lia.
  - intros g d. rewrite list_lookup_insert_Some. intros [(<- & <- & _)|[Hne E]] Had; [done|].
    pose proof (i_active _ _ Hi _ _ E Had) as O'. rewrite lookup_delete_ne; [done|]. intros Eq.
    rewrite <- Eq, O in O'. injection O' as ->. lia.
  - intros i se'. rewrite Es, lookup_insert_Some. intros [[<- <-]|[Hne E]] Hne0; [done|].
    destruct (i_slot _ _ Hi _ _ E Hne0) as [O' Hs]. split; [|done]. rewrite lookup_delete_ne; [done|]. congruence.
  - pose proof (i_bounds _ _ Hi). lia.
  - intros id' f'. rewrite lookup_delete_Some. intros [Hne O']. pose proof (i_range _ _ Hi _ _ O').
    destruct (Hother _ _ O' ltac:(done)) as [Hf' _]. split; [lia|]. by eapply Hmax.
Qed.

Lemma close_connection_spec s open id f :
  sinv s open → open !! id = Some f →
  ∃ s', close_connection s f = Some s' ∧ sinv s' (delete id open) ∧ session_round s' = session_round s ∧
    max_connection s' = max_connection s.
Proof.
  intros Hi O. destruct (i_open _ _ Hi _ _ O) as (Hid & Hf & (se & Ese & Ese1 & Ese2) & c & Hc & Ha & Hso & Hsid & Hfd).
  assert (connection_at s f = Some c) as Hcat by (unfold connection_at; by rewrite (proj2 (Z.ltb_ge _ _)) by lia).
  unfold close_connection. rewrite Hcat. cbn [mbind option_bind]. rewrite Hsid, get_session_at by lia.
  cbn [mbind option_bind]. set (s1 := set_session _ _ _).
  assert (session_at (count s 0 1 (-1)) id = se) as Hse by (unfold session_at; cbn; by rewrite Ese).
  assert (connection_list s1 = connection_list s ∧ max_connection s1 = max_connection s ∧ min_fd s1 = min_fd s ∧
    max_fd s1 = max_fd s) as (E1 & E2 & E3 & E4) by done.
  assert (∃ m, (if f =? max_fd s1 then m ← find_max (S (Z.to_nat f)) s1 (f - 1); Some (set_range s1 (min_fd s1) m) else Some s1)
    = Some (set_range s1 (min_fd s1) m) ∧ min_fd s <= m + 1 ∧ m <= max_fd s ∧
    ∀ id' f', open !! id' = Some f' → f' ≠ f → f' <= m) as (m & -> & Hm1 & Hm2 & Hm3).
  { rewrite E3, E4. pose proof (i_range _ _ Hi _ _ O) as Hrf. destruct (Z.eqb_spec f (max_fd s)) as [Ef|Hne].
    - assert (∀ n x, find_max n s1 x = find_max n s x) as Hfm by (induction n as [|n IH]; intros x; [done|]; cbn [find_max]; by rewrite IH).
      rewrite Hfm. destruct (find_max_spec s open (S (Z.to_nat f)) Hi (f - 1)) as (m & -> & Hm & Hall); [lia|lia|].
      exists m. split; [done|]. split; [lia|]. split; [lia|]. intros id' f' O' Hne.
      pose proof (i_range _ _ Hi _ _ O') as Hr'. destruct (Z.le_gt_cases f' m) as [|Hgt]; [done|]. exfalso.
      destruct (i_open _ _ Hi _ _ O') as (_ & Hf' & _ & c' & Hc' & Ha' & Hso' & _).
      assert (connection_at s f' = Some c') as Hcat' by (unfold connection_at; by rewrite (proj2 (Z.ltb_ge _ _)) by lia).
      specialize (Hall f' c' ltac:(lia) Hcat'). cbn in Hall. by rewrite Ha', Hso' in Hall.
    - exists (max_fd s). split; [done|]. pose proof (i_bounds _ _ Hi). split; [lia|]. split; [lia|].
      intros id' f' O' _. apply (i_range _ _ Hi _ _ O'). }
  pose proof (i_len _ _ Hi) as Hlen. cbn [mbind option_bind]. rewrite set_connection_Some by (cbn; lia).
  eexists. split; [done|]. split; [|done].
  eapply (sinv_close s); try done. eexists. cbn. rewrite Hse, Ese1. done.
Qed.

(** ** Lookups *)

Lemma verify_spec s open id : sinv s open → 0 < id →
  get_connection_verify_no_ssl s id = Some (f ← open !! id; connection_at s f).
Proof.
  intros Hi Hid. pose proof (i_max _ _ Hi) as Hm. unfold get_connection_verify_no_ssl.
  rewrite get_session_at by lia. cbn [mbind option_bind].
  assert (∀ f c, connection_at s f = Some c → active c = true → open !! session_id c = Some f) as Hact.
  { intros f c Hc Ha. unfold connection_at in Hc. destruct (Z.ltb_spec f 0); [done|].
    rewrite (i_active _ _ Hi _ _ Hc Ha). f_equal. lia. }
  destruct (open !! id) as [f|] eqn:O; cbn [mbind option_bind].
  - destruct (i_open _ _ Hi _ _ O) as (_ & Hf & (se & Ese & Ese1 & Ese2) & c & Hc & Ha & _ & Hsid & _).
    unfold session_at. rewrite Ese. change (default _ (Some se)) with se. rewrite Ese2, (get_connection_inside s open) by (done || lia).
    cbn [mbind option_bind]. unfold connection_at. rewrite (proj2 (Z.ltb_ge _ _)) by lia. rewrite Hc, Ha, Ese1, Hsid.
    by rewrite Z.eqb_refl.
  - destruct (decide (se_fd (session_at s id) = 0)) as [E|Hne].
    + rewrite E, (get_connection_inside s open) by (done || lia).
      destruct (connection_inside s open 0 Hi) as [c Hc]; [lia|]. rewrite Hc. cbn [mbind option_bind].
      destruct (active c) eqn:Ha; [|done]. pose proof (Hact _ _ Hc Ha) as O'.
      destruct (i_open _ _ Hi _ _ O') as (_ & ? & _). lia.
    + unfold session_at in *. destruct (session_list s !! slot id) as [se|] eqn:Ese; [|done]. change (default _ (Some se)) with se in *.
      destruct (i_slot _ _ Hi _ _ Ese Hne) as [O' _]. destruct (i_open _ _ Hi _ _ O') as (_ & Hf & _).
      rewrite (get_connection_inside s open) by (done || lia).
      destruct (connection_inside s open (se_fd se) Hi) as [c Hc]; [lia|]. rewrite Hc. cbn [mbind option_bind].
      destruct (active c); [|done]. destruct (Z.eqb_spec (se_id se) id) as [Eq|]; [congruence|done].
Qed.

Lemma valid_open s open f c : sinv s open → connection_at s f = Some c →
  is_valid_connection (Some c) = true ↔ f ∈ (map_img open : gset Z).
Proof.
  intros Hi Hc. unfold connection_at in Hc. destruct (Z.ltb_spec f 0) as [|Hf]; [done|]. rewrite elem_of_map_img. split.
  - cbn. intros [_ Ha]%andb_true_iff. exists (session_id c). rewrite (i_active _ _ Hi _ _ Hc Ha). f_equal. lia.
  - intros [id O]. destruct (i_open _ _ Hi _ _ O) as (_ & _ & _ & c' & Hc' & Ha & Hso & _).
    rewrite Hc in Hc'. injection Hc' as <-. cbn. by rewrite Ha, Hso.
Qed.

Lemma foreach_loop_spec s open n : sinv s open → ∀ lo, 0 <= lo → lo + Z.of_nat n <= max_connection s →
  ∃ l, foreach_loop n s lo = Some l ∧ fd <$> l = filter (λ f, f ∈ (map_img open : gset Z)) (seqZ lo (Z.of_nat n)).
Proof.
  intros Hi. induction n as [|n IH]; intros lo Hlo Hn; cbn [foreach_loop]; [by exists []|].
  destruct (connection_inside s open lo Hi) as [c Hc]; [lia|].
  rewrite (get_connection_inside s open) by (done || lia). rewrite Hc. cbn [mbind option_bind].
  destruct (IH (lo + 1)) as (l & -> & Hl); [lia|lia|]. cbn [mbind option_bind]. eexists. split; [done|].
  rewrite seqZ_cons by lia. replace (Z.pred (Z.of_nat (S n))) with (Z.of_nat n) by lia.
  replace (Z.succ lo) with (lo + 1) by lia.
  pose proof (valid_open s open lo c Hi Hc) as Hv. destruct (is_valid_connection (Some c)) eqn:E.
  - rewrite filter_cons_True by (by apply Hv). cbn. rewrite Hl. f_equal.
    pose proof (proj1 Hv eq_refl) as (id & O)%elem_of_map_img.
    destruct (i_open _ _ Hi _ _ O) as (_ & _ & _ & c' & Hc' & _ & _ & _ & Hfd).
    unfold connection_at in Hc. rewrite (proj2 (Z.ltb_ge _ _)) in Hc by lia. congruence.
  - rewrite filter_cons_False; [done|]. intros H. by apply Hv in H.
Qed.

Lemma filter_none {A} (P : A → Prop) `{∀ x, Decision (P x)} l : (∀ x, x ∈ l → ¬ P x) → filter P l = [].
Proof.
  induction l as [|x l IH]; intros Hn; [done|]. rewrite filter_cons_False by (apply Hn; by left).
  apply IH. intros y Hy. apply Hn. by right.
Qed.

(** The open connections are visited in the order of their descriptors. *)
Lemma foreach_spec s open : sinv s open →
  ∃ l, foreach_connection s = Some l ∧
    fd <$> l = filter (λ f, f ∈ (map_img open : gset Z)) (seqZ 0 (max_connection s)).
Proof.
  intros Hi. destruct (i_bounds _ _ Hi) as [Hb1 Hb2]. set (n := max_fd s - min_fd s + 1).
  assert (0 <= n) as Hn by (unfold n; lia).
  destruct (foreach_loop_spec s open (Z.to_nat n) Hi (min_fd s)) as (l & E & Hl); [lia|unfold n in *; lia|].
  exists l. split; [done|]. rewrite Hl. rewrite !Z2Nat.id by lia.
  replace (max_connection s) with (min_fd s + (n + (max_connection s - min_fd s - n))) by lia.
  rewrite seqZ_app, seqZ_app, !filter_app by (unfold n in *; lia).
  assert (∀ f, f ∈ (map_img open : gset Z) → min_fd s <= f <= max_fd s) as Hr
    by (intros f (id & O)%elem_of_map_img; by apply (i_range _ _ Hi _ _ O)).
  rewrite (filter_none _ (seqZ 0 (min_fd s))), (filter_none _ (seqZ _ (max_connection s - min_fd s - n))).
  - by rewrite app_nil_r, Z.add_0_l.
  - intros x Hx%elem_of_seqZ Hin%Hr. unfold n in *. lia.
  - intros x Hx%elem_of_seqZ Hin%Hr. lia.
Qed.

(** ** Runs *)

(** Calls that a server makes: a descriptor that [accept] returns is below the limit and
    not in use, and one that is closed is in use. *)
Fixpoint legal (max : Z) (ops : list session_op) (fds : gset Z) : Prop :=
  match ops with
  | [] => True
  | Add fd _ _ _ :: ops => 0 < fd < max ∧ (fd ∉ fds) ∧ legal max ops ({[fd]} ∪ fds)
  | Close fd :: ops => fd ∈ fds ∧ legal max ops (fds ∖ {[fd]})
  end.

(** The open sessions after the calls, when [ids] are the ids that were given. *)
Fixpoint track (ops : list session_op) (ids : list Z) (open : gmap Z Z) : gmap Z Z :=
  match ops, ids with
  | Add fd _ _ _ :: ops, id :: ids => track ops ids (<[id := fd]> open)
  | Close fd :: ops, ids => track ops ids (filter (λ p, p.2 ≠ fd) open)
  | _, _ => open
  end.

(** A server whose lists were just created. *)
Definition fresh_server (s : Server) : Prop :=
  0 < max_connection s <= OSW_SESSION_LIST_SIZE ∧ session_list s = ∅ ∧
  connection_list s = replicate (Z.to_nat (max_connection s)) zero_connection ∧ 0 <= session_round s ∧
  0 <= min_fd s <= max_fd s + 1 ∧ max_fd s < max_connection s.

Lemma fresh_sinv s : fresh_server s → sinv s ∅.
Proof.
  intros (Hm & Hs & Hc & Hr & Hb1 & Hb2). split; try done.
  - rewrite Hc. unfold zlen. rewrite length_replicate. lia.
  - intros f c E Ha. rewrite Hc in E. apply lookup_replicate in E as [-> _]. done.
  - intros i se. by rewrite Hs.
Qed.

Lemma filter_close (open : gmap Z Z) id f : open !! id = Some f → (∀ id', open !! id' = Some f → id' = id) →
  filter (λ p : Z * Z, p.2 ≠ f) open = delete id open.
Proof.
  intros O Hu. apply map_eq. intros i. destruct (decide (i = id)) as [->|Hne].
  - rewrite lookup_delete_eq. apply map_lookup_filter_None_2. right. intros y Hy. rewrite O in Hy. injection Hy as <-. naive_solver.
  - rewrite lookup_delete_ne by done. destruct (open !! i) as [y|] eqn:E.
    + apply map_lookup_filter_Some_2; [done|]. cbn. intros ->. by apply Hne, Hu.
    + apply map_lookup_filter_None_2. by left.
Qed.

Lemma run_sessions_spec ops : ∀ s open, sinv s open → legal (max_connection s) ops (map_img open) →
  session_round s + Z.of_nat (length ops) * max_connection s < 2 ^ 63 →
  ∃ s' ids, run_sessions ops s = Some (s', ids) ∧ sinv s' (track ops ids open) ∧
    Forall (λ id, session_round s < id) ids ∧ StronglySorted Z.lt ids ∧ max_connection s' = max_connection s.
Proof.
  induction ops as [|[f server_fd type info|f] ops IH]; intros s open Hi Hl Hb; cbn [run_sessions].
  - exists s, []. split_and!; try done; constructor.
  - destruct Hl as (Hf & Hnew & Hl). pose proof (i_max _ _ Hi) as Hm. cbn [length] in Hb.
    destruct (add_connection_spec s open f server_fd type info Hi Hf) as (id & s1 & -> & Hi1 & Hid & Hr1 & Hm1); [|lia|].
    { intros id O. apply Hnew, elem_of_map_img. by exists id. }
    cbn [mbind option_bind].
    destruct (IH s1 (<[id := f]> open) Hi1) as (s2 & ids & -> & Hi2 & Hlt & Hs & Hm2).
    + rewrite Hm1. rewrite map_img_insert_notin_L; [done|].
      destruct (open !! id) as [f'|] eqn:O; [|done]. destruct (i_open _ _ Hi _ _ O). lia.
    + rewrite Hr1, Hm1. lia.
    + cbn [mbind option_bind]. exists s2, (id :: ids). split; [done|]. split; [done|].
      rewrite Hr1 in Hlt. split; [constructor; [lia|]; eapply Forall_impl; [exact Hlt|cbn; lia]|].
      split; [by constructor|congruence].
  - destruct Hl as (Hin & Hl). apply elem_of_map_img in Hin as [id O].
    assert (∀ id', open !! id' = Some f → id' = id) as Hu.
    { intros id' O'. destruct (i_open _ _ Hi _ _ O) as (_ & _ & _ & c & Hc & _ & _ & H1 & _).
      destruct (i_open _ _ Hi _ _ O') as (_ & _ & _ & c' & Hc' & _ & _ & H2 & _). congruence. }
    pose proof (i_max _ _ Hi) as Hm. cbn [length] in Hb.
    destruct (close_connection_spec s open id f Hi O) as (s1 & -> & Hi1 & Hr1 & Hm1). cbn [mbind option_bind].
    destruct (IH s1 (delete id open) Hi1) as (s2 & ids & -> & Hi2 & Hlt & Hs & Hm2).
    + rewrite Hm1. replace (map_img (delete id open) : gset Z) with ((map_img open : gset Z) ∖ {[f]}); [done|].
      apply set_eq. intros g. rewrite elem_of_difference, elem_of_singleton, !elem_of_map_img. split.
      * intros [[i E] Hg]. exists i. rewrite lookup_delete_ne; [done|]. congruence.
      * intros [i [Hne E]%lookup_delete_Some]. split; [by exists i|]. intros ->. by apply Hne, eq_sym, Hu.
    + rewrite Hr1, Hm1. lia.
    + exists s2, ids. cbn [track]. rewrite (filter_close open id f O Hu). rewrite Hr1 in Hlt. split_and!; try done. congruence.
Qed.

(** C14. A session id names one connection for ever.  Whatever connections are opened and
    closed, in any order, [add_connection] always finds a slot, the ids it gives are
    strictly increasing, so none is given twice, and the lookup of any id, also of one
    whose connection is long closed and whose slot and descriptor are in use again, finds
    exactly the connection it was given to, as long as that is open, and nothing
    otherwise; [foreach_connection] visits exactly the open connections, in the order of
    their descriptors.  No access leaves the lists. *)
Theorem session_ids_unique s ops :
  fresh_server s → legal (max_connection s) ops ∅ →
  session_round s + Z.of_nat (length ops) * max_connection s < 2 ^ 63 →
  ∃ s' ids, run_sessions ops s = Some (s', ids) ∧ StronglySorted Z.lt ids ∧
    let open := track ops ids ∅ in
    (∀ id, 0 < id → get_connection_verify_no_ssl s' id = Some (f ← open !! id; connection_at s' f)) ∧
    (∀ id f, open !! id = Some f → ∃ c, connection_at s' f = Some c ∧ session_id c = id ∧ fd c = f) ∧
    ∃ l, foreach_connection s' = Some l ∧
      fd <$> l = filter (λ f, f ∈ (map_img open : gset Z)) (seqZ 0 (max_connection s)).
Proof.
  intros Hs Hl Hb.
  destruct (run_sessions_spec ops s ∅ (fresh_sinv s Hs)) as (s' & ids & E & Hi & _ & Hsort & Hm);
    [by rewrite map_img_empty_L|done|].
  exists s', ids. split; [done|]. split; [done|]. cbn zeta. split; [|split].
  - intros id Hid. by apply verify_spec.
  - intros id f O. destruct (i_open _ _ Hi _ _ O) as (_ & Hf & _ & c & Hc & _ & _ & H1 & H2).
    exists c. unfold connection_at. rewrite (proj2 (Z.ltb_ge _ _)) by lia. done.
  - rewrite <- Hm. by apply foreach_spec.
Qed.

Definition peer : Address := MkAddress 16777343 0.
Definition example_server : Server := MkServer 8 2 ∅ (replicate 8 zero_connection) 0 3 3 0 0 0.

Lemma session_ids_unique_witness :
  let ops := [Add 5 3 1 peer; Add 6 3 1 peer; Close 5; Add 5 3 1 peer; Close 6] in
  ∃ s' ids, run_sessions ops example_server = Some (s', ids) ∧ StronglySorted Z.lt ids ∧
    let open := track ops ids ∅ in
    (∀ id, 0 < id → get_connection_verify_no_ssl s' id = Some (f ← open !! id; connection_at s' f)) ∧
    (∀ id f, open !! id = Some f → ∃ c, connection_at s' f = Some c ∧ session_id c = id ∧ fd c = f) ∧
    ∃ l, foreach_connection s' = Some l ∧
      fd <$> l = filter (λ f, f ∈ (map_img open : gset Z)) (seqZ 0 (max_connection example_server)).
Proof.
  intros ops. apply session_ids_unique.
  - split_and!; done || by vm_compute.
  - cbn [legal ops]. split_and!; try done; set_solver.
  - by vm_compute.
Defined.

(** The first connection's id, 1, is not found any more though its descriptor is in use
    again; the new one's is. *)
Example stale_session :
  (r ← run_sessions [Add 5 3 1 peer; Add 6 3 1 peer; Close 5; Add 5 3 1 peer; Close 6] example_server;
   stale ← get_connection_verify_no_ssl r.1 1; new ← get_connection_verify_no_ssl r.1 3;
   Some (r.2, option_map session_id stale, option_map session_id new)) = Some ([1; 2; 3], None, Some 3).
Proof. by vm_compute. Qed.

(** [get_connection] accepts the descriptor [max_connection], one behind the list. *)
Lemma get_connection_one_past s open : sinv s open → get_connection s (max_connection s) = None.
Proof.
  intros Hi. pose proof (i_max _ _ Hi) as Hm. pose proof (i_len _ _ Hi) as Hl. unfold OSW_SESSION_LIST_SIZE in *.
  unfold get_connection. rewrite u32_small by lia. rewrite Z.ltb_irrefl. unfold connection_at.
  rewrite (proj2 (Z.ltb_ge _ _)) by lia. by rewrite lookup_ge_None_2 by (unfold zlen in Hl; lia).
Qed.

(** The round is written behind the lock.  When two processes add a connection at once and
    write their rounds in the other order, an id is given a second time once its connection
    is closed. *)
Example session_round_race :
  (r1 ← alloc_session example_server 5;
   r2 ← alloc_session r1.2 6;
   id1 ← r1.1; id2 ← r2.1;
   let s := set_round (set_round r2.2 id2) id1 in
   let s := set_session s id2 (MkSession id2 0 0) in
   r3 ← alloc_session s 7;
   Some (id1, id2, r3.1)) = Some (1, 2, Some 2).
Proof. by vm_compute. Qed.
