(* ===== verification/Dispatch.v ===== *)
(** * The dispatch of packets to the workers: [schedule_worker] of src/server/master.cc and
      [ProcessFactory::dispatch] of src/server/process.cc

    The worker for a packet is chosen by the user's function, by a counter, by a hash of
    the connection, by idleness or by load; the packet then goes through the worker's
    pipe.  [None] is an access outside the connections, a null pointer that is followed,
    or a remainder by zero. *)

From S2P Require Import Prelude SwString Pipe Sessions.

Definition DISPATCH_ROUND : Z := 1.
Definition DISPATCH_FDMOD : Z := 2.
Definition DISPATCH_IPMOD : Z := 4.
Definition DISPATCH_UIDMOD : Z := 5.
Definition DISPATCH_CO_CONN_LB : Z := 8.
Definition DISPATCH_CO_REQ_LB : Z := 9.
Definition DISPATCH_RESULT_USERFUNC_FALLBACK : Z := -3.
Definition OSW_WORKER_IDLE : Z := 2.
Definition OSW_SOCK_TCP : Z := 1.

Record Worker := MkWorker { status : Z; coroutine_num : Z; dispatch_count : Z }.

Record Master := MkMaster {
  server : Server; workers : list Worker; dispatch_mode : Z; worker_round_id : Z;
  scheduler_warning : bool; worker_msg_id : Z; ipc_max_size : Z; gs_dispatch_count : Z }.

Definition set_server (m : Master) (s : Server) : Master :=
  MkMaster s (workers m) (dispatch_mode m) (worker_round_id m) (scheduler_warning m) (worker_msg_id m)
    (ipc_max_size m) (gs_dispatch_count m).
Definition set_round_id (m : Master) (r : Z) (warn : bool) : Master :=
  MkMaster (server m) (workers m) (dispatch_mode m) r (scheduler_warning m || warn) (worker_msg_id m)
    (ipc_max_size m) (gs_dispatch_count m).
Definition set_msg (m : Master) (i : Z) : Master :=
  MkMaster (server m) (workers m) (dispatch_mode m) (worker_round_id m) (scheduler_warning m) i
    (ipc_max_size m) (gs_dispatch_count m).

(** ** The choice of a worker *)

(** [get_lowest_load_worker_id], from worker [i] on. *)
Fixpoint lowest_loop (ws : list Worker) (i lowest min : Z) : Z :=
  match ws with
  | [] => lowest
  | w :: ws =>
    if coroutine_num w <? min then lowest_loop ws (i + 1) i (coroutine_num w)
    else lowest_loop ws (i + 1) lowest min
  end.
Definition get_lowest_load_worker_id (m : Master) : option Z :=
  match workers m with
  | [] => None
  | w :: ws => Some (lowest_loop ws 1 0 (coroutine_num w))
  end.

(** The search for an idle worker: whether one was found, the key and the counter. *)
Fixpoint idle_loop (n : nat) (ws : list Worker) (round key : Z) : option (bool * Z * Z) :=
  match n with
  | O => Some (false, key, round)
  | S n =>
    let key := round mod zlen ws in
    let round := u32 (round + 1) in
    w ← ws !! Z.to_nat key;
    if status w =? OSW_WORKER_IDLE then Some (true, key, round) else idle_loop n ws round key
  end.

Definition set_worker_id (c : Connection) (w : Z) : Connection :=
  MkConnection (active c) (socket_type c) (Sessions.fd c) w (session_id c) (ssl c) (ssl_ready c) (closed c)
    (close_force c) (Sessions.reactor_id c) (Sessions.server_fd c) (info c) (socket c) (uid c).

Section Dispatch.
(** The user's function, which sees the connection. *)
Variable dispatch_func : option (Master → option Connection → Z).

Definition schedule_worker (m : Master) (fd : Z) : option (Z * Master) :=
  user ← (match dispatch_func with
          | None => Some DISPATCH_RESULT_USERFUNC_FALLBACK
          | Some f => conn ← get_connection (server m) fd; Some (f m conn)
          end);
  if negb (user =? DISPATCH_RESULT_USERFUNC_FALLBACK) then Some (user, m) else
  let n := zlen (workers m) in
  let modulo key m := if n =? 0 then None else Some (key mod n, m) in
  let mode := dispatch_mode m in
  if mode =? DISPATCH_ROUND then
    modulo (worker_round_id m) (set_round_id m (u32 (worker_round_id m + 1)) false)
  else if mode =? DISPATCH_FDMOD then modulo (u32 fd) m
  else if mode =? DISPATCH_IPMOD then
    conn ← get_connection (server m) fd;
    modulo (match conn with
            | None => u32 fd
            | Some c => if socket_type c =? OSW_SOCK_TCP then s_addr (info c) else s6_addr32_3 (info c)
            end) m
  else if mode =? DISPATCH_UIDMOD then
    conn ← get_connection (server m) fd;
    modulo (match conn with None => u32 fd | Some c => if uid c =? 0 then u32 fd else uid c end) m
  else if mode =? DISPATCH_CO_CONN_LB then
    conn ← get_connection (server m) fd;
    c ← conn;
    if worker_id c <? 0 then
      w ← get_lowest_load_worker_id m;
      s ← set_connection (server m) fd (set_worker_id c w);
      Some (w, set_server m s)
    else Some (worker_id c, m)
  else if mode =? DISPATCH_CO_REQ_LB then w ← get_lowest_load_worker_id m; Some (w, m)
  else
    if n =? 0 then None else
    '(found, key, round) ← idle_loop (S (length (workers m))) (workers m) (worker_round_id m) 0;
    Some (key, set_round_id m round (negb found)).

(** ** The dispatch of a packet *)

Definition OSW_SERVER_EVENT_RECV_DATA : Z := 0.
Definition OSW_SERVER_EVENT_CLOSE : Z := 3.

Definition is_stream_event (type : Z) : bool :=
  bool_decide (type ∈ [0; 4; 3; 11; 12; 13; 14]).

Definition set_fd (h : DataHead) (id srv : Z) : DataHead :=
  MkDataHead id (msg_id h) (len h) (Pipe.reactor_id h) (type h) (flags h) srv (ext_flags h) (time h).

Definition bump (w : Worker) : Worker := MkWorker (status w) (coroutine_num w) (dispatch_count w + 1).

(** [ProcessFactory::dispatch]: the result, the worker's pipe that was written to with the
    attempts to send, and the new state. *)
Definition dispatch (answer : nat → send_result) (fuel : nat) (m : Master) (task : DataHead) (data : bytes) :
    option (bool * option (Z * list (datagram * send_result)) * Master) :=
  let fd := i32 (Pipe.fd task) in
  '(target, m) ← schedule_worker m fd;
  if target <? 0 then Some (false, None, m) else
  let send (task : DataHead) (m : Master) :=
    let m := if type task =? OSW_SERVER_EVENT_RECV_DATA
             then MkMaster (server m) (alter bump (Z.to_nat target) (workers m)) (dispatch_mode m)
                    (worker_round_id m) (scheduler_warning m) (worker_msg_id m) (ipc_max_size m)
                    (gs_dispatch_count m + 1)
             else m in
    '(ret, next, l) ← process_send_packet answer fuel (ipc_max_size m) (worker_msg_id m) task data;
    Some (ret, Some (target, l), set_msg m next) in
  if is_stream_event (type task) then
    conn ← get_connection (server m) fd;
    match conn with
    | None => Some (false, None, m)
    | Some c =>
      if negb (active c) then Some (false, None, m) else
      if closed c && negb ((type task =? OSW_SERVER_EVENT_CLOSE) && close_force c)
      then Some (true, None, m) else
      s ← set_connection (server m) fd (set_worker_id c target);
      send (set_fd task (session_id c) (u16 (Sessions.server_fd c))) (set_server m s)
    end
  else send task m.
End Dispatch.

(** ** The load *)

Lemma lowest_loop_spec ws : ∀ pre lowest min,
  (∃ w, pre !! Z.to_nat lowest = Some w ∧ coroutine_num w = min) → 0 <= lowest →
  Forall (λ w, min <= coroutine_num w) pre →
  let r := lowest_loop ws (zlen pre) lowest min in
  0 <= r ∧ ∃ w, (pre ++ ws) !! Z.to_nat r = Some w ∧ Forall (λ w', coroutine_num w <= coroutine_num w') (pre ++ ws).
Proof.
  induction ws as [|w ws IH]; intros pre lowest min (w0 & E0 & Em) Hl Hall; cbn [lowest_loop].
  - rewrite app_nil_r. split; [done|]. exists w0. by rewrite Em.
  - replace (zlen pre + 1) with (zlen (pre ++ [w])) by (rewrite zlen_app; done).
    replace (pre ++ w :: ws) with ((pre ++ [w]) ++ ws) by app_eq.
    destruct (Z.ltb_spec (coroutine_num w) min) as [Hlt|Hge]; apply IH.
    + exists w. split; [|done]. unfold zlen. rewrite Nat2Z.id. by rewrite lookup_app_r, Nat.sub_diag by lia.
    + unfold zlen. lia.
    + apply Forall_app. split; [|repeat constructor; lia]. eapply Forall_impl; [exact Hall|cbn; lia].
    + exists w0. split; [|done]. by apply lookup_app_l_Some.
    + done.
    + apply Forall_app. split; [done|]. by repeat constructor.
Qed.

Lemma lowest_load_spec m : workers m ≠ [] →
  ∃ r w, get_lowest_load_worker_id m = Some r ∧ 0 <= r ∧ workers m !! Z.to_nat r = Some w ∧
    Forall (λ w', coroutine_num w <= coroutine_num w') (workers m).
Proof.
  intros Hne. unfold get_lowest_load_worker_id. destruct (workers m) as [|w ws]; [done|].
  destruct (lowest_loop_spec ws [w] 0 (coroutine_num w)) as (Hr & w' & E & H);
    [by exists w|done|by repeat constructor|]. by do 2 eexists.
Qed.

(** ** Idle workers *)

Lemma idle_loop_spec ws n : ws ≠ [] → ∀ round key, 0 <= round → round + Z.of_nat n < 2 ^ 32 →
  ∃ found key' round', idle_loop n ws round key = Some (found, key', round') ∧
    (found = true → ∃ w, ws !! Z.to_nat key' = Some w ∧ status w = OSW_WORKER_IDLE ∧ 0 <= key' < zlen ws) ∧
    (found = false → (n = 0%nat ∧ key' = key ∨ 0 <= key' < zlen ws) ∧
      ∀ k w, round <= k < round + Z.of_nat n → ws !! Z.to_nat (k mod zlen ws) = Some w → status w ≠ OSW_WORKER_IDLE).
Proof.
  intros Hne%zlen_pos. induction n as [|n IH]; intros round key Hr Hb; cbn [idle_loop].
  - do 3 eexists. split; [done|]. split; [done|]. intros _. split; [by left|]. lia.
  - pose proof (Z.mod_pos_bound round (zlen ws) Hne) as Hm.
    destruct (lookup_lt_is_Some_2 ws (Z.to_nat (round mod zlen ws))) as [w E]; [unfold zlen in *; lia|].
    rewrite E. cbn [mbind option_bind]. rewrite u32_small by lia. destruct (Z.eqb_spec (status w) OSW_WORKER_IDLE) as [Hi|Hni].
    + do 3 eexists. split; [done|]. split; [|done]. intros _. by exists w.
    + destruct (IH (round + 1) (round mod zlen ws)) as (found & key' & round' & -> & H1 & H2); [lia|lia|].
      do 3 eexists. split; [done|]. split; [done|]. intros Hf. destruct (H2 Hf) as [Hk Hall]. split.
      * right. destruct Hk as [[_ ->]|]; [|done]. lia.
      * intros k w' Hk' E'. destruct (Z.eq_dec k round) as [->|]; [congruence|]. apply (Hall k); [lia|done].
Qed.

Lemma mod_reached round n i : 0 < n → 0 <= i < n → ∃ k, round <= k < round + n ∧ k mod n = i.
Proof.
  intros Hn Hi. exists (round + (i - round) mod n). pose proof (Z.mod_pos_bound (i - round) n Hn).
  split; [lia|]. rewrite Zplus_mod_idemp_r. replace (round + (i - round)) with i by lia. by apply Z.mod_small.
Qed.

(** When the counter does not wrap, a worker that is idle is found. *)
Lemma idle_found ws round : ws ≠ [] → 0 <= round → round + zlen ws + 1 < 2 ^ 32 →
  ∃ found key round', idle_loop (S (length ws)) ws round 0 = Some (found, key, round') ∧ 0 <= key < zlen ws ∧
    ((∃ w, w ∈ ws ∧ status w = OSW_WORKER_IDLE) →
      ∃ w, ws !! Z.to_nat key = Some w ∧ status w = OSW_WORKER_IDLE).
Proof.
  intros Hne Hr Hb. destruct (idle_loop_spec ws (S (length ws)) Hne round 0 Hr) as (found & key & round' & E & H1 & H2);
    [unfold zlen in Hb; lia|].
  exists found, key, round'. split; [done|]. destruct found.
  - destruct (H1 eq_refl) as (w & ? & ? & ?). split; [done|]. by exists w.
  - destruct (H2 eq_refl) as [[[? _]|Hk] Hall]; [done|]. split; [done|]. intros (w & Hin & Hs).
    apply list_elem_of_lookup in Hin as [i Hi]. pose proof (lookup_lt_Some _ _ _ Hi).
    destruct (mod_reached round (zlen ws) (Z.of_nat i)) as (k & Hk1 & Hk2); [by apply zlen_pos|unfold zlen; lia|].
    exfalso. apply (Hall k w); [unfold zlen in Hk1; lia| |done]. by rewrite Hk2, Nat2Z.id.
Qed.

(** Also when it wraps, the search ends at an existing worker. *)
Lemma idle_loop_range ws n : ws ≠ [] → ∀ round key, 0 <= key < zlen ws →
  ∃ found key' round', idle_loop n ws round key = Some (found, key', round') ∧ 0 <= key' < zlen ws.
Proof.
  intros Hne%zlen_pos. induction n as [|n IH]; intros round key Hk; cbn [idle_loop]; [by do 3 eexists|].
  pose proof (Z.mod_pos_bound round (zlen ws) Hne) as Hm.
  destruct (lookup_lt_is_Some_2 ws (Z.to_nat (round mod zlen ws))) as [w E]; [unfold zlen in *; lia|].
  rewrite E. cbn [mbind option_bind]. destruct (status w =? OSW_WORKER_IDLE); [by do 3 eexists|by apply IH].
Qed.

(** The worker [w] has the least load. *)
Definition least_loaded (m : Master) (w : Z) : Prop :=
  ∃ x, workers m !! Z.to_nat w = Some x ∧ Forall (λ y, coroutine_num x <= coroutine_num y) (workers m).

(** C30. The choice of a worker.  Without a user's function, for a descriptor of the connection
    list (see [conn_lb_null]) whose connection is bound to no worker or to an existing one,
    [schedule_worker] returns an existing worker [w], by the mode: the counter modulo the number of
    workers, after which the counter goes on by one and wraps at [2 ^ 32]; the descriptor modulo
    that number, so always the same worker for a connection; the peer's address modulo it; the
    connection's uid, or its descriptor when there is none, modulo it; an idle worker, if there is
    one and the counter does not wrap during the search (see [idle_missed_at_wrap]); a worker with
    the least load; the worker that the connection is bound to, with nothing changed, or, when it is
    bound to none, a worker with the least load, to which it is bound then. *)
Theorem schedule_worker_spec m open f :
  sinv (server m) open → 0 <= f < max_connection (server m) → workers m ≠ [] →
  (∀ c, connection_at (server m) f = Some c → worker_id c < zlen (workers m)) →
  ∃ c w m', connection_at (server m) f = Some c ∧ schedule_worker None m f = Some (w, m') ∧
    0 <= w < zlen (workers m) ∧ workers m' = workers m ∧
    (dispatch_mode m = DISPATCH_ROUND →
      w = worker_round_id m mod zlen (workers m) ∧ worker_round_id m' = u32 (worker_round_id m + 1)) ∧
    (dispatch_mode m = DISPATCH_FDMOD → w = f mod zlen (workers m)) ∧
    (dispatch_mode m = DISPATCH_IPMOD →
      w = (if socket_type c =? OSW_SOCK_TCP then s_addr (info c) else s6_addr32_3 (info c)) mod zlen (workers m)) ∧
    (dispatch_mode m = DISPATCH_UIDMOD → w = (if uid c =? 0 then f else uid c) mod zlen (workers m)) ∧
    (dispatch_mode m = 3 → 0 <= worker_round_id m → worker_round_id m + zlen (workers m) + 1 < 2 ^ 32 →
      (∃ x, x ∈ workers m ∧ status x = OSW_WORKER_IDLE) →
      ∃ x, workers m !! Z.to_nat w = Some x ∧ status x = OSW_WORKER_IDLE) ∧
    (dispatch_mode m = DISPATCH_CO_REQ_LB → least_loaded m w) ∧
    (dispatch_mode m = DISPATCH_CO_CONN_LB →
      if worker_id c <? 0
      then least_loaded m w ∧ connection_at (server m') f = Some (set_worker_id c w)
      else w = worker_id c ∧ m' = m).
Proof.
  intros Hi Hf Hne Hid. pose proof (zlen_pos _ Hne) as Hn. pose proof (i_max _ _ Hi) as Hmax.
  destruct (connection_inside _ _ f Hi Hf) as [c Hc]. pose proof (get_connection_inside _ _ f Hi Hf) as Hg.
  destruct (lowest_load_spec m Hne) as (r & x & Er & Hr0 & Ex & Hx).
  destruct (idle_loop_range (workers m) (S (length (workers m))) Hne (worker_round_id m) 0 ltac:(lia)) as (found & key & round' & Ek & Hk).
  assert (0 <= worker_round_id m → worker_round_id m + zlen (workers m) + 1 < 2 ^ 32 →
    (∃ x, x ∈ workers m ∧ status x = OSW_WORKER_IDLE) → ∃ x, workers m !! Z.to_nat key = Some x ∧ status x = OSW_WORKER_IDLE) as Hidle.
  { intros Hr Hb. destruct (idle_found _ _ Hne Hr Hb) as (? & ? & ? & Ek' & _ & ?). rewrite Ek in Ek'. by injection Ek' as -> -> ->. }
  assert (∀ k, 0 <= k mod zlen (workers m) < zlen (workers m)) as Hmod by (intros k; by apply Z.mod_pos_bound).
  assert (0 <= r < zlen (workers m)) as Hrr by (apply lookup_lt_Some in Ex; unfold zlen; lia).
  assert (least_loaded m r) as Hll by by exists x. exists c.
  unfold schedule_worker. cbn [mbind option_bind]. rewrite Z.eqb_refl. cbn [negb].
  rewrite (proj2 (Z.eqb_neq (zlen (workers m)) 0)) by lia. rewrite Hg, Hc, Er, Ek. cbn [mbind option_bind].
  unfold DISPATCH_ROUND, DISPATCH_FDMOD, DISPATCH_IPMOD, DISPATCH_UIDMOD, DISPATCH_CO_CONN_LB, DISPATCH_CO_REQ_LB,
    OSW_SESSION_LIST_SIZE in *. specialize (Hid c Hc).
  destruct (Z.eqb_spec (dispatch_mode m) 1); [|destruct (Z.eqb_spec (dispatch_mode m) 2);
    [|destruct (Z.eqb_spec (dispatch_mode m) 4); [|destruct (Z.eqb_spec (dispatch_mode m) 5);
    [|destruct (Z.eqb_spec (dispatch_mode m) 8); [|destruct (Z.eqb_spec (dispatch_mode m) 9)]]]]].
  all: rewrite ?(u32_small f) by lia.
  5: destruct (Z.ltb_spec (worker_id c) 0).
  5: rewrite set_connection_Some by (pose proof (i_len _ _ Hi); lia).
  all: do 2 eexists; (split; [done|]); (split; [done|]); split_and!; try done; try lia; try (by eauto); try apply Hmod.
  intros _. split; [done|]. unfold connection_at. cbn [server set_server connection_list with_connections].
  rewrite (proj2 (Z.ltb_ge _ _)) by lia. apply list_lookup_insert_eq. pose proof (i_len _ _ Hi). unfold zlen in *. lia.
Qed.

Definition example_master (mode : Z) : Master :=
  MkMaster example_server [MkWorker 1 5 0; MkWorker 2 3 0; MkWorker 1 4 0] mode 2 false 1 8232 0.

Lemma schedule_worker_spec_witness :
  let m := example_master 3 in
  ∃ w m', schedule_worker None m 5 = Some (w, m') ∧ ∃ x, workers m !! Z.to_nat w = Some x ∧ status x = OSW_WORKER_IDLE.
Proof.
  intros m. destruct (schedule_worker_spec m ∅ 5) as (c & w & m' & _ & E & _ & _ & _ & _ & _ & _ & Hidle & _);
    [|done|done| |].
  - apply fresh_sinv. split_and!; done || by vm_compute.
  - intros c Hc. injection Hc as <-. done.
  - exists w, m'. split; [done|]. apply Hidle; [done|done|done|]. exists (MkWorker 2 3 0). split; [|done]. right. left.
Defined.

(** The modes on the example. *)
Example schedule_modes :
  (λ mode, option_map fst (schedule_worker None (example_master mode) 5)) <$> [1; 2; 3; 9] =
  [Some 2; Some 2; Some 1; Some 1].
Proof. by vm_compute. Qed.

(** At the wrap of the counter the idle worker can be missed: seven workers, of which only
    the sixth is idle. *)
Example idle_missed_at_wrap :
  let busy := MkWorker 1 0 0 in
  (r ← idle_loop 8 [busy; busy; busy; busy; busy; MkWorker OSW_WORKER_IDLE 0 0; busy] (2 ^ 32 - 4) 0;
   Some r.1.1) = Some false.
Proof. by vm_compute. Qed.

(** The least-loaded binding of an unknown connection follows a null pointer. *)
Lemma conn_lb_null m f : dispatch_mode m = DISPATCH_CO_CONN_LB → get_connection (server m) f = Some None →
  schedule_worker None m f = None.
Proof. intros Hm Hg. unfold schedule_worker. cbn [mbind option_bind]. rewrite Z.eqb_refl. cbn [negb]. rewrite Hm. cbn. by rewrite Hg. Qed.

(** ** The dispatch *)

(** A packet of an open connection goes to the worker that was chosen, under the
    connection's session id, and the connection is bound to that worker. *)
Lemma dispatch_open answer fuel m open id f task data w m1 :
  sinv (server m) open → open !! id = Some f → Pipe.fd task = f → type task = OSW_SERVER_EVENT_RECV_DATA →
  schedule_worker None m f = Some (w, m1) → 0 <= w → server m1 = server m →
  (∀ c, connection_at (server m) f = Some c → closed c = false ∧ 0 <= Sessions.server_fd c < 2 ^ 16) →
  len task = zlen data → zlen data < 2 ^ 32 → sizeof_DataHead < ipc_max_size m1 < 2 ^ 32 → (length data < fuel)%nat →
  ∃ ret l m2 c, dispatch None answer fuel m task data = Some (ret, Some (w, l), m2) ∧
    connection_at (server m) f = Some c ∧
    process_send_packet answer fuel (ipc_max_size m1) (worker_msg_id m1)
      (set_fd task id (Sessions.server_fd c)) data = Some (ret, worker_msg_id m2, l) ∧
    connection_at (server m2) f = Some (set_worker_id c w).
Proof.
  intros Hi O Hfd Hty Hs Hw Hsv Hcl Hlen Hd Hipc Hfu.
  destruct (i_open _ _ Hi _ _ O) as (Hid & Hf & _ & c & Hc & Ha & Hso & Hsid & _). pose proof (i_max _ _ Hi) as Hmax.
  unfold OSW_SESSION_LIST_SIZE in Hmax.
  assert (connection_at (server m) f = Some c) as Hcat by (unfold connection_at; by rewrite (proj2 (Z.ltb_ge _ _)) by lia).
  destruct (Hcl c Hcat) as [Hc1 Hc2]. unfold dispatch. rewrite Hfd, i32_small by lia. rewrite Hs. cbn [mbind option_bind].
  rewrite (proj2 (Z.ltb_ge _ _)) by lia. rewrite Hty. change (is_stream_event OSW_SERVER_EVENT_RECV_DATA) with true. cbn iota.
  rewrite Hsv, (get_connection_inside _ _ f Hi) by lia. rewrite Hcat. cbn [mbind option_bind]. rewrite Ha, Hc1. cbn [negb andb].
  rewrite set_connection_Some by (pose proof (i_len _ _ Hi); lia). cbn [mbind option_bind].
  cbn [type set_fd ipc_max_size worker_msg_id set_server]. rewrite Hty, Z.eqb_refl, Hsid.
  rewrite (u16_small (Sessions.server_fd c)) by lia. cbn [ipc_max_size worker_msg_id set_server].
  destruct (send_packet_total answer fuel (ipc_max_size m1) (worker_msg_id m1) (set_fd task id (Sessions.server_fd c)) data)
    as [[[ret next] l] E]; [done..|].
  rewrite E. cbn [mbind option_bind]. do 4 eexists. split; [done|]. split; [done|]. split; [done|].
  unfold connection_at. cbn. rewrite (proj2 (Z.ltb_ge _ _)) by lia. apply list_lookup_insert_eq.
  pose proof (i_len _ _ Hi). unfold zlen in *. lia.
Qed.
