(* ===== verification/Redis.v ===== *)
(** * The Redis protocol: src/protocol/redis.cc, include/openswoole_redis.h

    [recv_packet] receives a command, [parse] takes it apart, [format] prints a reply.
    The memory is a block and a pointer an index into it; [None] is an access outside the
    block, a null pointer that is followed, or exhausted fuel.  [strtol] and the [%zu]
    and [%ld] of [printf] are the standard library's. *)

From S2P Require Import Prelude SwString Protocol Http.

(** ** Decimal numbers *)

(** The digits of a number that is not negative. *)
Fixpoint digits (fuel : nat) (n : Z) : bytes :=
  match fuel with
  | O => []
  | S fuel => if n <? 10 then [48 + n] else digits fuel (n / 10) ++ [48 + n mod 10]
  end.
(** [%zu], [%ld] and [std::to_string]. *)
Definition print_number (z : Z) : bytes :=
  if z <? 0 then 45 :: digits 20 (- z) else digits 20 z.

(** [strtol(p, &endptr, 10)]: white space, a sign and digits.  Without digits [endptr]
    is [p]. *)
Fixpoint strtol_digits (fuel : nat) (m : bytes) (p acc : Z) : option (Z * Z) :=
  match fuel with
  | O => None
  | S fuel =>
    c ← at_ m p;
    if isdigit c then strtol_digits fuel m (p + 1) (acc * 10 + (c - 48)) else Some (acc, p)
  end.
Definition strtol (m : bytes) (p : Z) : option (Z * Z) :=
  let fuel := S (length m) in
  q ← strtoull_space fuel m p;
  c ← at_ m q;
  let start := if (c =? 43) || (c =? 45) then q + 1 else q in
  '(v, e) ← strtol_digits fuel m start 0;
  if e =? start then Some (0, p) else
  let v := if c =? 45 then - v else v in
  Some (Z.max (- 2 ^ 63) (Z.min v (2 ^ 63 - 1)), e).

(** [get_number]: the inner [None] is the null pointer. *)
Definition get_number (m : bytes) (p : Z) : option (option (Z * Z)) :=
  '(v, endptr) ← strtol m (p + 1);
  c ← at_ m endptr;
  if negb (c =? 13) then Some None else
  d ← at_ m (endptr + 1);
  Some (if d =? 10 then Some (endptr + 2, i32 v) else None).

(** ** [parse] *)

Inductive RState := STATE_RECEIVE_TOTAL_LINE | STATE_RECEIVE_LENGTH | STATE_RECEIVE_STRING.

(** One iteration: the new state, pointer, length and results. *)
Definition parse_string (m : bytes) (p length : Z) (result : list bytes) :
    option (RState * Z * Z * list bytes) :=
  s ← load m p length;
  Some (STATE_RECEIVE_LENGTH, p + length + 2, length, result ++ [s]).
Definition parse_length (m : bytes) (state : RState) (p length : Z) (result : list bytes) :
    option (RState * Z * Z * list bytes) :=
  c ← at_ m p;
  if c =? 36 then
    r ← get_number m p;
    '(p, ret) ← r;
    if ret =? -1 then Some (state, p, length, result)
    else Some (STATE_RECEIVE_STRING, p, ret, result)
  else if c =? 58 then
    r ← get_number m p;
    '(p, ret) ← r;
    Some (state, p, length, result ++ [print_number ret])
  else parse_string m p length result.
Definition parse_step (m : bytes) (state : RState) (p length : Z) (result : list bytes) :
    option (RState * Z * Z * list bytes) :=
  match state with
  | STATE_RECEIVE_TOTAL_LINE =>
    c ← at_ m p;
    if c =? 42 then r ← get_number m p; '(p, _) ← r; Some (STATE_RECEIVE_LENGTH, p, length, result)
    else parse_length m state p length result
  | STATE_RECEIVE_LENGTH => parse_length m state p length result
  | STATE_RECEIVE_STRING => parse_string m p length result
  end.

Fixpoint parse_loop (fuel : nat) (m : bytes) (pe : Z) (state : RState) (p length : Z) (result : list bytes) :
    option (list bytes) :=
  match fuel with
  | O => None
  | S fuel =>
    '(state, p, length, result) ← parse_step m state p length result;
    if p <? pe then parse_loop fuel m pe state p length result else Some result
  end.
Definition parse (fuel : nat) (m : bytes) (len : Z) : option (list bytes) :=
  parse_loop fuel m len STATE_RECEIVE_TOTAL_LINE 0 0 [].

(** ** [format] *)

Definition OSW_REDIS_MAX_STRING_SIZE : Z := 536870912.

Inductive ReplyType := REPLY_ERROR | REPLY_NIL | REPLY_STATUS | REPLY_INT | REPLY_STRING | REPLY_SET | REPLY_MAP.

Section Format.
Variable fresh : nat → bytes.

(** [buf->format] prints the text, which is not empty, and a terminator at the start of
    the buffer, over its contents; the result is the length. *)
Definition sformat (buf : String) (text : bytes) : option (Z * String) :=
  let buf := if s_size buf <? zlen text + 1 then reserve fresh buf (zlen text + 1) else buf in
  m ← store (s_str buf) 0 (text ++ [0]);
  Some (zlen text, MkString (zlen text) (s_size buf) (s_offset buf) m).

(** [%.*s] with the length of the value: the value up to its first zero byte. *)
Fixpoint c_str (v : bytes) : bytes :=
  match v with [] => [] | b :: v => if b =? 0 then [] else b :: c_str v end.

Definition format_nil (buf : String) : option (bool * String) :=
  buf ← append fresh buf (lit "$-1" ++ crlf); Some (true, buf).

Definition format_value (buf : String) (type : ReplyType) (value : bytes) : option (bool * String) :=
  match type with
  | REPLY_STATUS =>
    match value with
    | [] => buf ← append fresh buf (lit "+OK" ++ crlf); Some (true, buf)
    | _ => '(n, buf) ← sformat buf (lit "+" ++ c_str value ++ crlf); Some (0 <? n, buf)
    end
  | REPLY_ERROR =>
    match value with
    | [] => buf ← append fresh buf (lit "-ERR" ++ crlf); Some (true, buf)
    | _ => '(n, buf) ← sformat buf (lit "-" ++ c_str value ++ crlf); Some (0 <? n, buf)
    end
  | REPLY_STRING =>
    if (zlen value =? 0) || (OSW_REDIS_MAX_STRING_SIZE <? zlen value) then Some (false, buf) else
    '(n, buf) ← sformat buf (lit "$" ++ print_number (zlen value) ++ crlf);
    if n =? 0 then Some (false, buf) else
    buf ← append fresh buf value;
    buf ← append fresh buf crlf;
    Some (true, buf)
  | _ => Some (false, buf)
  end.

Definition format_int (buf : String) (value : Z) : option (bool * String) :=
  '(n, buf) ← sformat buf (lit ":" ++ print_number value ++ crlf); Some (0 <? n, buf).
End Format.

(** ** [recv_packet] *)

Record RedisRequest := MkRedisRequest {
  state : RState; n_lines_total : Z; n_lines_received : Z; n_bytes_total : Z; n_bytes_received : Z }.
Definition zero_request : RedisRequest := MkRedisRequest STATE_RECEIVE_TOTAL_LINE 0 0 0 0.

(** The connection: its request, the receive buffer, the network, whether it was removed,
    and the packages handed over. *)
Record RedisConn := MkRedisConn {
  r_request : RedisRequest; r_buffer : String; r_net : list recv_event; r_removed : bool;
  r_packages : list bytes }.
Definition set_request (c : RedisConn) (r : RedisRequest) : RedisConn :=
  MkRedisConn r (r_buffer c) (r_net c) (r_removed c) (r_packages c).
Definition set_buffer (c : RedisConn) (b : String) : RedisConn :=
  MkRedisConn (r_request c) b (r_net c) (r_removed c) (r_packages c).

Section Recv.
Variable fresh : nat → bytes.
Variables (pagesize package_max_length : Z).
(** The dispatch of a package: its result and whether it removed the connection. *)
Variable onPackage : bytes → Z * bool.

(** An iteration ends with a value of the function or with the new pointer. *)
Definition recv_string (c : RedisConn) (p : Z) : option ((Z + Z) * RedisConn) :=
  let r := r_request c in
  let b := r_buffer c in
  let pe := s_length b in
  if pe - p <? n_bytes_total r - n_bytes_received r then
    Some (inl OSW_OK, set_request c (MkRedisRequest (state r) (n_lines_total r) (n_lines_received r)
                         (n_bytes_total r) (i32 (n_bytes_received r + (pe - p)))))
  else
    let p := p + n_bytes_total r + 2 in
    let r := MkRedisRequest STATE_RECEIVE_LENGTH (n_lines_total r) (n_lines_received r + 1) 0 (n_bytes_received r) in
    let c := set_buffer (set_request c r) (with_offset b (s_length b)) in
    if n_lines_received r =? n_lines_total r then
      data ← load (s_str b) 0 (s_length b);
      let '(ret, rm) := onPackage data in
      let c := MkRedisConn (r_request c) (r_buffer c) (r_net c) (r_removed c || rm) (r_packages c ++ [data]) in
      if ret <? 0 then Some (inl OSW_ERR, c)
      else if r_removed c then Some (inl OSW_OK, c)
      else Some (inl OSW_OK, set_buffer (set_request c zero_request) (clear (r_buffer c)))
    else Some (inr p, c).

Definition recv_length (c : RedisConn) (p : Z) : option ((Z + Z) * RedisConn) :=
  let r := r_request c in
  let m := s_str (r_buffer c) in
  ch ← at_ m p;
  if ch =? 36 then
    n ← get_number m p;
    match n with
    | None => None
    | Some (p, ret) =>
      if ret <? 0 then Some (inr p, c)
      else if package_max_length <? ret + p then Some (inl OSW_ERR, c)
      else Some (inr p, set_request c (MkRedisRequest STATE_RECEIVE_STRING (n_lines_total r) (n_lines_received r)
                                         ret (n_bytes_received r)))
    end
  else if ch =? 58 then
    n ← get_number m p;
    match n with None => Some (inl OSW_ERR, c) | Some (p, _) => Some (inr p, c) end
  else recv_string c p.

Definition recv_step (c : RedisConn) (p : Z) : option ((Z + Z) * RedisConn) :=
  let r := r_request c in
  match state r with
  | STATE_RECEIVE_TOTAL_LINE =>
    ch ← at_ (s_str (r_buffer c)) p;
    if ch =? 42 then
      n ← get_number (s_str (r_buffer c)) p;
      match n with
      | None => Some (inl OSW_ERR, c)
      | Some (p, ret) =>
        Some (inr p, set_request c (MkRedisRequest STATE_RECEIVE_LENGTH ret (n_lines_received r)
                                      (n_bytes_total r) (n_bytes_received r)))
      end
    else recv_length c p
  | STATE_RECEIVE_LENGTH => recv_length c p
  | STATE_RECEIVE_STRING => recv_string c p
  end.

(** The loop over the received bytes; behind it the function fails. *)
Fixpoint recv_lines (fuel : nat) (c : RedisConn) (p : Z) : option (Z * RedisConn) :=
  match fuel with
  | O => None
  | S fuel =>
    '(r, c) ← recv_step c p;
    match r with
    | inl ret => Some (ret, c)
    | inr p => if p <? s_length (r_buffer c) then recv_lines fuel c p else Some (OSW_ERR, c)
    end
  end.

(** [recv_packet], from [_recv_data]. *)
Fixpoint recv_packet (fuel : nat) (c : RedisConn) : option (Z * RedisConn) :=
  match fuel with
  | O => None
  | S fuel' =>
    let b := r_buffer c in
    let '(e, net) := recv (r_net c) (s_size b - s_length b) in
    let c := MkRedisConn (r_request c) b net (r_removed c) (r_packages c) in
    match e with
    | Got data =>
      b ← Protocol.received b data;
      let c := set_buffer c b in
      last ← load (s_str b) (s_length b - 2) 2;
      if bool_decide (last = crlf) then recv_lines fuel c 0
      else if s_size b <? package_max_length then
        let extend_size := u32 (openswoole_size_align (s_size b * 2) pagesize) in
        let extend_size := if package_max_length <? extend_size then package_max_length else extend_size in
        b ← extend fresh b extend_size;
        recv_packet fuel' (set_buffer c b)
      else if s_length b =? s_size b then Some (OSW_ERR, c)
      else recv_packet fuel' c
    | e => r ← recv_failed e; Some (r, c)
    end
  end.

(** The handler of a readable connection; the close event removes the connection. *)
Definition Port_onRead_redis (fuel : nat) (c : RedisConn) : option (Z * RedisConn) :=
  '(ret, c) ← recv_packet fuel c;
  Some (OSW_OK, if ret <? 0 then MkRedisConn (r_request c) (r_buffer c) (r_net c) true (r_packages c) else c).
End Recv.

(** ** Numbers *)

(** The value of a run of digits behind [acc]. *)
Definition dec_value (acc : Z) (ds : bytes) : Z := fold_left (λ a d, a * 10 + (d - 48)) ds acc.

Lemma digits_spec fuel : ∀ n, 0 <= n < 10 ^ Z.of_nat fuel → (0 < fuel)%nat →
  Forall (λ d, isdigit d = true) (digits fuel n) ∧ digits fuel n ≠ [] ∧ dec_value 0 (digits fuel n) = n.
Proof.
  induction fuel as [|fuel IH]; intros n Hn Hf; [lia|]. cbn [digits]. destruct (Z.ltb_spec n 10) as [Hlt|Hge].
  - split_and!; [|done|cbn; lia]. repeat constructor. unfold isdigit. rewrite !(proj2 (Z.leb_le _ _)) by lia. done.
  - replace (Z.of_nat (S fuel)) with (Z.of_nat fuel + 1) in Hn by lia. rewrite Z.pow_add_r in Hn by lia.
    destruct fuel as [|fuel]; [cbn in Hn; lia|].
    destruct (IH (n / 10)) as (H1 & H2 & H3); [|lia|].
    { split; [zdiv|]. apply Z.div_lt_upper_bound; lia. }
    split_and!.
    + apply Forall_app. split; [done|]. repeat constructor. unfold isdigit. rewrite !(proj2 (Z.leb_le _ _)) by zdiv. done.
    + intros [E _]%app_eq_nil. done.
    + unfold dec_value in *. rewrite fold_left_app, H3. cbn. zdiv.
Qed.

Lemma strtol_digits_run c post ds : isdigit c = false → ∀ fuel pre acc,
  Forall (λ d, isdigit d = true) ds → (length ds < fuel)%nat →
  strtol_digits fuel (pre ++ ds ++ c :: post) (zlen pre) acc = Some (dec_value acc ds, zlen pre + zlen ds).
Proof.
  intros Hc. induction ds as [|d ds IH]; intros [|fuel] pre acc Hd Hf; cbn [length] in Hf; try lia; cbn [strtol_digits app].
  - rewrite app_nil_l, at_prefix. cbn [mbind option_bind]. rewrite Hc, zlen_nil, Z.add_0_r. done.
  - apply Forall_cons in Hd as [Hd Hds]. rewrite <- app_comm_cons, at_prefix. cbn [mbind option_bind]. rewrite Hd.
    replace (pre ++ d :: ds ++ c :: post) with ((pre ++ [d]) ++ ds ++ c :: post) by app_eq.
    replace (zlen pre + 1) with (zlen (pre ++ [d])) by (rewrite zlen_app; done).
    rewrite IH by (done || lia). rewrite zlen_app, zlen_cons, zlen_cons, zlen_nil. do 2 f_equal. lia.
Qed.

(** A number that a C [long] holds is read back, up to the byte behind it. *)
Lemma strtol_print pre z post : - 2 ^ 63 <= z < 2 ^ 63 →
  strtol (pre ++ print_number z ++ 13 :: post) (zlen pre) = Some (z, zlen pre + zlen (print_number z)).
Proof.
  intros Hz. unfold print_number. destruct (Z.ltb_spec z 0) as [Hneg|Hpos].
  - destruct (digits_spec 20 (- z)) as (Hd & Hne & Hv); [cbn; lia|lia|]. set (ds := digits 20 (- z)) in *.
    unfold strtol. rewrite <- app_comm_cons. cbn [strtoull_space]. rewrite at_prefix. cbn [mbind option_bind]. change (isspace 45) with false. cbn iota.
    cbn [mbind option_bind]. rewrite at_prefix. cbn [mbind option_bind]. change ((45 =? 43) || (45 =? 45)) with true. cbn iota.
    replace (zlen pre + 1) with (zlen (pre ++ [45])) by (rewrite zlen_app; done).
    replace (pre ++ 45 :: ds ++ 13 :: post) with ((pre ++ [45]) ++ ds ++ 13 :: post) by app_eq.
    rewrite strtol_digits_run by (done || (rewrite !length_app; cbn; lia)). cbn [mbind option_bind].
    pose proof (zlen_pos _ Hne). rewrite (proj2 (Z.eqb_neq _ _)) by lia. rewrite Hv, zlen_app, zlen_cons, zlen_cons, zlen_nil.
    change (45 =? 45) with true. cbn iota. do 2 f_equal; lia.
  - destruct (digits_spec 20 z) as (Hd & Hne & Hv); [cbn; lia|lia|]. set (ds := digits 20 z) in *.
    assert (∃ d ds', ds = d :: ds' ∧ 48 <= d <= 57) as (d & ds' & E & Hd48).
    { destruct ds as [|d ds']; [done|]. apply Forall_cons in Hd as [Hd _]. unfold isdigit in Hd.
      apply andb_true_iff in Hd as [?%Z.leb_le ?%Z.leb_le]. by exists d, ds'. }
    unfold strtol. cbn [strtoull_space]. assert (at_ (pre ++ ds ++ 13 :: post) (zlen pre) = Some d) as Hat by (rewrite E; apply at_prefix).
    rewrite Hat. cbn [mbind option_bind].
    assert (isspace d = false) as -> by (unfold isspace; rewrite (proj2 (Z.eqb_neq _ _)), (proj2 (Z.leb_gt d 13)), andb_false_r by lia; done).
    cbn [mbind option_bind]. rewrite Hat. cbn [mbind option_bind]. rewrite !(proj2 (Z.eqb_neq d _)) by lia. cbn [orb].
    rewrite strtol_digits_run by (done || (rewrite !length_app; cbn; lia)). cbn [mbind option_bind].
    pose proof (zlen_pos _ Hne). rewrite (proj2 (Z.eqb_neq _ _)) by lia. rewrite Hv. do 2 f_equal; lia.
Qed.

Lemma get_number_print pre b z post : - 2 ^ 31 <= z < 2 ^ 31 →
  get_number (pre ++ b :: print_number z ++ crlf ++ post) (zlen pre) =
    Some (Some (zlen (pre ++ b :: print_number z ++ crlf), z)).
Proof.
  intros Hz. unfold get_number.
  replace (pre ++ b :: print_number z ++ crlf ++ post) with ((pre ++ [b]) ++ print_number z ++ 13 :: 10 :: post) by app_eq.
  replace (zlen pre + 1) with (zlen (pre ++ [b])) by (rewrite zlen_app; done).
  rewrite strtol_print by lia. cbn [mbind option_bind]. rewrite app_assoc, <- zlen_app, at_prefix. cbn [mbind option_bind].
  change (13 =? 13) with true. cbn [negb].
  replace (((pre ++ [b]) ++ print_number z) ++ 13 :: 10 :: post) with ((((pre ++ [b]) ++ print_number z) ++ [13]) ++ 10 :: post) by app_eq.
  replace (zlen ((pre ++ [b]) ++ print_number z) + 1) with (zlen (((pre ++ [b]) ++ print_number z) ++ [13])) by (rewrite (zlen_app _ [13]); done).
  rewrite at_prefix. cbn [mbind option_bind]. change (10 =? 10) with true. cbn iota. rewrite i32_small by lia.
  do 3 f_equal. unfold crlf. zl.
Qed.

(** ** Commands *)

(** An argument and a command on the wire. *)
Definition arg_text (a : bytes) : bytes := lit "$" ++ print_number (zlen a) ++ crlf ++ a ++ crlf.
Definition command_text (args : list bytes) : bytes :=
  lit "*" ++ print_number (zlen args) ++ crlf ++ concat (arg_text <$> args).

Lemma parse_length_arg pre a post length result : zlen a < 2 ^ 31 →
  parse_length (pre ++ arg_text a ++ post) STATE_RECEIVE_LENGTH (zlen pre) length result =
    Some (STATE_RECEIVE_STRING, zlen (pre ++ lit "$" ++ print_number (zlen a) ++ crlf), zlen a, result).
Proof.
  intros Ha. pose proof (zlen_nonneg a). unfold arg_text. change (lit "$") with [36].
  replace (pre ++ ([36] ++ print_number (zlen a) ++ crlf ++ a ++ crlf) ++ post)
    with (pre ++ 36 :: print_number (zlen a) ++ crlf ++ a ++ crlf ++ post) by app_eq.
  unfold parse_length. rewrite at_prefix. cbn [mbind option_bind]. change (36 =? 36) with true. cbn iota.
  rewrite get_number_print by lia. cbn [mbind option_bind]. rewrite (proj2 (Z.eqb_neq _ _)) by lia. done.
Qed.

(** The arguments are read in two iterations each. *)
Lemma parse_args post args : Forall (λ a, zlen a < 2 ^ 31) args → args ≠ [] → ∀ fuel pre length result,
  (2 * List.length args <= fuel)%nat →
  parse_loop fuel (pre ++ concat (arg_text <$> args) ++ post) (zlen (pre ++ concat (arg_text <$> args)))
    STATE_RECEIVE_LENGTH (zlen pre) length result = Some (result ++ args).
Proof.
  induction args as [|a args IH]; intros Hargs Hne fuel pre length result Hf; [done|].
  apply Forall_cons in Hargs as [Ha Hargs]. destruct fuel as [|[|fuel]]; cbn [List.length] in Hf; [lia..|].
  cbn [fmap list_fmap concat]. set (rest := concat (arg_text <$> args)) in *.
  set (head := pre ++ lit "$" ++ print_number (zlen a) ++ crlf).
  assert (arg_text a = (lit "$" ++ print_number (zlen a) ++ crlf) ++ a ++ crlf) as Ea by (unfold arg_text; app_eq).
  assert (zlen head < zlen (pre ++ arg_text a ++ rest)) as Hlt1 by (unfold head; rewrite Ea; unfold crlf; zl).
  cbn [parse_loop parse_step]. rewrite <- (app_assoc (arg_text a)), parse_length_arg by done. fold head. cbn [mbind option_bind].
  rewrite (proj2 (Z.ltb_lt _ _)) by done. cbn [parse_loop parse_step]. unfold parse_string.
  replace (pre ++ arg_text a ++ rest ++ post) with (head ++ a ++ crlf ++ rest ++ post) by (unfold head; rewrite Ea; app_eq).
  rewrite load_mid by done. cbn [mbind option_bind].
  replace (zlen head + zlen a + 2) with (zlen (head ++ a ++ crlf)) by (rewrite !zlen_app; unfold crlf; zl).
  replace (pre ++ arg_text a ++ rest) with ((head ++ a ++ crlf) ++ rest) by (unfold head; rewrite Ea; app_eq).
  replace (head ++ a ++ crlf ++ rest ++ post) with ((head ++ a ++ crlf) ++ rest ++ post) by app_eq.
  destruct args as [|a2 args].
  - unfold rest. cbn [fmap list_fmap concat]. rewrite app_nil_r, Z.ltb_irrefl. done.
  - rewrite (proj2 (Z.ltb_lt _ _)).
    2: { rewrite (zlen_app _ rest). unfold rest. cbn [fmap list_fmap concat]. unfold arg_text. change (lit "$") with [36]. zl. }
    rewrite IH by (done || lia). app_eq.
Qed.

Lemma parse_command args post fuel :
  zlen args < 2 ^ 31 → Forall (λ a, zlen a < 2 ^ 31) args → (2 * length args < fuel)%nat →
  parse fuel (command_text args ++ post) (zlen (command_text args)) = Some args.
Proof.
  intros Hn Ha Hf. unfold parse. destruct fuel as [|fuel]; [lia|]. cbn [parse_loop parse_step].
  pose proof (zlen_nonneg args). unfold command_text. change (lit "*") with [42].
  set (rest := concat (arg_text <$> args)). set (head := [42] ++ print_number (zlen args) ++ crlf).
  replace (([42] ++ print_number (zlen args) ++ crlf ++ rest) ++ post)
    with ([] ++ 42 :: print_number (zlen args) ++ crlf ++ rest ++ post) by app_eq.
  change 0 with (zlen (@nil Z)) at 1. rewrite at_prefix. cbn [mbind option_bind]. change (42 =? 42) with true. cbn iota.
  rewrite (get_number_print [] 42 (zlen args)) by lia. cbn [mbind option_bind].
  replace ([] ++ 42 :: print_number (zlen args) ++ crlf ++ rest ++ post) with (head ++ rest ++ post) by (unfold head; app_eq).
  replace ([] ++ 42 :: print_number (zlen args) ++ crlf) with head by done.
  replace ([42] ++ print_number (zlen args) ++ crlf ++ rest) with (head ++ rest) by (unfold head; app_eq).
  destruct args as [|a args].
  - unfold rest. cbn [fmap list_fmap concat]. rewrite app_nil_r, Z.ltb_irrefl. done.
  - rewrite (proj2 (Z.ltb_lt _ _)).
    2: { rewrite (zlen_app head). unfold rest. cbn [fmap list_fmap concat]. unfold arg_text. change (lit "$") with [36]. zl. }
    unfold rest. rewrite parse_args by (done || lia). done.
Qed.

(** ** Receiving *)

Section Whole.
Context (package_max_length : Z) (onPackage : bytes → Z * bool).

(** The connection inside a command: [k] of [total] arguments were read. *)
Definition reading (st : RState) (total k nb : Z) (b : String) net pk : RedisConn :=
  MkRedisConn (MkRedisRequest st total k nb 0) b net false pk.

Lemma recv_arg_length pre a rest junk total k nb b net pk :
  s_str b = (pre ++ arg_text a ++ rest) ++ junk → s_length b = zlen (pre ++ arg_text a ++ rest) →
  zlen (pre ++ arg_text a ++ rest) <= package_max_length → zlen a < 2 ^ 31 →
  recv_step package_max_length onPackage (reading STATE_RECEIVE_LENGTH total k nb b net pk) (zlen pre) =
    Some (inr (zlen (pre ++ lit "$" ++ print_number (zlen a) ++ crlf)),
          reading STATE_RECEIVE_STRING total k (zlen a) b net pk).
Proof.
  intros Hs Hl Hm Ha. pose proof (zlen_nonneg a). unfold recv_step, recv_length, reading.
  cbn [r_request state r_buffer]. rewrite Hs. unfold arg_text in *. change (lit "$") with [36] in *.
  replace ((pre ++ ([36] ++ print_number (zlen a) ++ crlf ++ a ++ crlf) ++ rest) ++ junk)
    with (pre ++ 36 :: print_number (zlen a) ++ crlf ++ a ++ crlf ++ rest ++ junk) by app_eq.
  rewrite at_prefix. cbn [mbind option_bind]. change (36 =? 36) with true. cbn iota.
  rewrite get_number_print by lia. cbn [mbind option_bind]. rewrite (proj2 (Z.ltb_ge _ _)) by lia.
  rewrite (proj2 (Z.ltb_ge _ _)); [done|]. autorewrite with zlen in *. zl_nonneg. lia.
Qed.

Lemma recv_args junk data net pk total args :
  zlen data <= package_max_length → onPackage data = (OSW_OK, false) →
  Forall (λ a, zlen a < 2 ^ 31) args → args ≠ [] → ∀ fuel pre k nb b,
  data = pre ++ concat (arg_text <$> args) → s_str b = data ++ junk → s_length b = zlen data →
  k + zlen args = total → (2 * length args <= fuel)%nat →
  ∃ b', recv_lines package_max_length onPackage fuel (reading STATE_RECEIVE_LENGTH total k nb b net pk) (zlen pre) =
      Some (OSW_OK, MkRedisConn zero_request b' net false (pk ++ [data])) ∧ s_length b' = 0 ∧ s_size b' = s_size b ∧
    s_str b' = s_str b.
Proof.
  intros Hmax Hon. induction args as [|a args IH]; intros Hargs Hne fuel pre k nb b Hd Hs Hl Hk Hf; [done|].
  apply Forall_cons in Hargs as [Ha Hargs]. destruct fuel as [|[|fuel]]; cbn [length] in Hf; [lia..|].
  cbn [fmap list_fmap concat] in Hd. set (rest := concat (arg_text <$> args)) in *.
  set (head := pre ++ lit "$" ++ print_number (zlen a) ++ crlf).
  assert (arg_text a = (lit "$" ++ print_number (zlen a) ++ crlf) ++ a ++ crlf) as Ea by (unfold arg_text; app_eq).
  assert (data = (head ++ a ++ crlf) ++ rest) as Hd' by (rewrite Hd, Ea; unfold head; app_eq).
  assert (zlen data = zlen head + zlen a + 2 + zlen rest) as Hz by (rewrite Hd', !zlen_app; unfold crlf; zl).
  assert (zlen (head ++ a ++ crlf) = zlen head + zlen a + 2) as Hh by (rewrite !zlen_app; unfold crlf; zl).
  pose proof (zlen_nonneg a). pose proof (zlen_nonneg rest). rewrite zlen_cons in Hk.
  cbn [recv_lines]. rewrite (recv_arg_length pre a rest junk) by (rewrite <- ?Hd; done). fold head. cbn [mbind option_bind].
  change (s_length (r_buffer (reading STATE_RECEIVE_STRING total k (zlen a) b net pk))) with (s_length b).
  rewrite (proj2 (Z.ltb_lt _ _)) by lia. cbn [recv_lines]. unfold recv_step at 1. cbn [reading r_request state].
  unfold recv_string. cbn [reading r_request r_buffer n_bytes_total n_bytes_received n_lines_total n_lines_received state].
  rewrite (proj2 (Z.ltb_ge (s_length b - zlen head) (zlen a - 0))) by lia. destruct args as [|a2 args].
  - rewrite zlen_nil in Hk. rewrite (proj2 (Z.eqb_eq (k + 1) total)) by lia. rewrite Hs, Hl.
    rewrite (load_mid [] data junk) by done. cbn [mbind option_bind]. rewrite Hon.
    change (OSW_OK <? 0) with false. cbn. eexists. split; [done|]. cbn. by rewrite Hs.
  - rewrite zlen_cons in Hk. pose proof (zlen_nonneg args). rewrite (proj2 (Z.eqb_neq (k + 1) total)) by lia.
    cbn [mbind option_bind set_buffer set_request r_buffer with_offset s_length].
    rewrite (proj2 (Z.ltb_lt _ _)).
    2: { rewrite Hl, Hz. unfold rest. cbn [fmap list_fmap concat]. unfold arg_text. change (lit "$") with [36]. zl. }
    replace (zlen head + zlen a + 2) with (zlen (head ++ a ++ crlf)) by lia.
    destruct (IH Hargs ltac:(done) fuel (head ++ a ++ crlf) (k + 1) 0 (with_offset b (s_length b))) as (b' & E & E1 & E2 & E3);
      [done|done|done|rewrite zlen_cons; lia|lia|].
    exists b'. split; [|done]. exact E.
Qed.
End Whole.

(** A connection that waits for a command. *)
Definition idle (c : RedisConn) (n : Z) : Prop :=
  r_request c = zero_request ∧ wf (r_buffer c) ∧ s_length (r_buffer c) = 0 ∧ s_size (r_buffer c) = n ∧
  r_removed c = false.

Definition good_command (n : Z) (args : list bytes) : Prop :=
  args ≠ [] ∧ zlen args < 2 ^ 31 ∧ Forall (λ a, zlen a < 2 ^ 31) args ∧ zlen (command_text args) <= n.

Lemma command_ends args : args ≠ [] → ∃ x, command_text args = x ++ crlf.
Proof.
  intros Hne. destruct (exists_last Hne) as (l & a & ->). unfold command_text, arg_text.
  rewrite fmap_app, concat_app. cbn [fmap list_fmap concat]. rewrite app_nil_r.
  exists (lit "*" ++ print_number (zlen (l ++ [a])) ++ crlf ++ concat (arg_text <$> l) ++
          (lit "$" ++ print_number (zlen a) ++ crlf) ++ a). app_eq.
Qed.

Lemma recv_command fresh pagesize package_max_length onPackage fuel c n args net :
  idle c n → good_command n args → zlen (command_text args) <= package_max_length →
  r_net c = Got (command_text args) :: net → onPackage (command_text args) = (OSW_OK, false) →
  (2 * length args < fuel)%nat →
  ∃ c', recv_packet fresh pagesize package_max_length onPackage fuel c = Some (OSW_OK, c') ∧ idle c' n ∧
    r_net c' = net ∧ r_packages c' = r_packages c ++ [command_text args].
Proof.
  intros (Hr & Hw & Hl & Hn & Hrm) (Hne & Hargs & Hall & Hfit) Hmax Hnet Hon Hf.
  set (cmd := command_text args) in *. destruct (command_ends args Hne) as [x Hx]. fold cmd in Hx.
  assert (0 < zlen cmd) as Hpos by (rewrite Hx, zlen_app; unfold crlf; zl).
  destruct fuel as [|fuel]; [lia|]. cbn [recv_packet]. rewrite Hnet, Hl, Z.sub_0_r, Hn. unfold recv.
  rewrite (proj2 (Z.leb_gt _ _)) by lia. rewrite (proj2 (Z.leb_le _ _)) by lia.
  destruct (received_spec (r_buffer c) cmd Hw) as (b & -> & Hwb & Hc & Ho & Hsz & Hlb); [lia|].
  cbn [mbind option_bind]. rewrite Hl, Z.add_0_l in Hlb.
  assert (s_str b = cmd ++ drop (Z.to_nat (s_length b)) (s_str b)) as Hstr.
  { assert (contents (r_buffer c) = []) as E0 by (unfold contents; by rewrite Hl). rewrite E0, app_nil_l in Hc.
    rewrite <- Hc. unfold contents. by rewrite take_drop. }
  set (junk := drop _ (s_str b)) in *.
  assert (load (s_str b) (s_length b - 2) 2 = Some crlf) as ->.
  { rewrite Hstr, Hx, <- app_assoc. apply load_mid; [|done]. rewrite Hlb, Hx, zlen_app. unfold crlf. zl. }
  cbn [mbind option_bind]. rewrite bool_decide_true by done. cbn [set_buffer r_request r_buffer r_net r_removed r_packages].
  rewrite Hr, Hrm. cbn [recv_lines]. unfold recv_step. cbn [set_buffer r_request r_buffer state zero_request].
  rewrite Hstr. pose proof (zlen_nonneg args).
  set (head := [42] ++ print_number (zlen args) ++ crlf). set (rest := concat (arg_text <$> args)).
  assert (cmd = head ++ rest) as Hcmd by (unfold cmd, command_text, head, rest; change (lit "*") with [42]; app_eq).
  assert (cmd ++ junk = [] ++ 42 :: print_number (zlen args) ++ crlf ++ rest ++ junk) as Hm by (rewrite Hcmd; unfold head; app_eq).
  rewrite Hm. change 0 with (zlen (@nil Z)) at 1. rewrite at_prefix. cbn [mbind option_bind]. change (42 =? 42) with true. cbn iota.
  rewrite (get_number_print [] 42 (zlen args)) by lia. cbn [mbind option_bind].
  replace ([] ++ 42 :: print_number (zlen args) ++ crlf) with head by done.
  cbn [set_request set_buffer r_request r_buffer r_net r_removed r_packages zero_request n_lines_received n_bytes_total n_bytes_received].
  rewrite Hlb. assert (zlen head < zlen cmd) as Hlt.
  { rewrite Hcmd, zlen_app. unfold rest. destruct args as [|a args]; [done|]. cbn [fmap list_fmap concat].
    unfold arg_text. change (lit "$") with [36]. zl. }
  rewrite (proj2 (Z.ltb_lt _ _)) by lia.
  destruct (recv_args package_max_length onPackage junk cmd net (r_packages c) (zlen args) args Hmax Hon Hall Hne
    fuel head 0 0 b) as (b' & E & E1 & E2 & E3); [done|done|done|done|lia|].
  eexists. split; [exact E|]. split; [|done]. split; [done|]. cbn [r_buffer r_removed].
  pose proof Hwb as (? & ? & ? & ?). split; [|split; [done|split; [lia|done]]].
  split; [lia|]. split; [by rewrite E2, E3|]. split; [lia|]. intros Hz0. lia.
Qed.

(** [n] readable events in a row. *)
Fixpoint redis_events (n : nat) (handler : RedisConn → option (Z * RedisConn)) (c : RedisConn) : option RedisConn :=
  match n with O => Some c | S n => '(_, c) ← handler c; redis_events n handler c end.

(** C25. Redis commands arrive.  Commands that come in one packet each are handed over one
    by one, byte for byte, and the connection is ready for the next; [parse] takes every
    one apart into exactly its arguments, whatever bytes these hold, without a read outside
    the command. *)
Theorem redis_commands_parsed fresh pagesize package_max_length onPackage fuel c n cmds :
  idle c n → n <= package_max_length → Forall (good_command n) cmds → (∀ d, onPackage d = (OSW_OK, false)) →
  r_net c = (λ args, Got (command_text args)) <$> cmds → Forall (λ args, 2 * length args < fuel)%nat cmds →
  ∃ c', redis_events (length cmds) (Port_onRead_redis fresh pagesize package_max_length onPackage fuel) c = Some c' ∧
    r_packages c' = r_packages c ++ (command_text <$> cmds) ∧ idle c' n ∧
    Forall (λ args, parse fuel (command_text args) (zlen (command_text args)) = Some args) cmds.
Proof.
  intros Hi Hmax Hgood Hon. revert c Hi.
  induction cmds as [|args cmds IH]; intros c Hi Hnet Hf; cbn [redis_events length].
  { exists c. cbn. rewrite app_nil_r. by split_and!. }
  apply Forall_cons in Hgood as [Hg Hgood]. apply Forall_cons in Hf as [Hfa Hf]. pose proof Hg as (Hne & Hn & Hall & Hfit).
  unfold Port_onRead_redis at 2.
  destruct (recv_command fresh pagesize package_max_length onPackage fuel c n args
    ((λ args, Got (command_text args)) <$> cmds) Hi Hg) as (c1 & -> & Hi1 & Hnet1 & Hp1); [lia|done|done|done|].
  cbn [mbind option_bind]. change (OSW_OK <? 0) with false. cbn iota.
  destruct (IH Hgood c1 Hi1 Hnet1 Hf) as (c' & -> & Hp & Hi' & Hpa).
  exists c'. split; [done|]. rewrite Hp, Hp1. split; [cbn; app_eq|]. split; [done|]. constructor; [|done].
  rewrite <- (app_nil_r (command_text args)) at 1. by apply parse_command.
Qed.

Definition redis_example (net : list recv_event) : RedisConn :=
  MkRedisConn zero_request (MkString 0 64 0 (replicate 64 0)) net false [].

Lemma redis_commands_parsed_witness :
  let cmds := [[lit "GET"; lit "a" ++ crlf]; [lit "PING"]] in
  ∃ c', redis_events 2 (Port_onRead_redis (λ n, replicate n 0) 4096 1000 (λ _, (OSW_OK, false)) 20)
      (redis_example ((λ args, Got (command_text args)) <$> cmds)) = Some c' ∧
    r_packages c' = command_text <$> cmds ∧ idle c' 64 ∧
    Forall (λ args, parse 20 (command_text args) (zlen (command_text args)) = Some args) cmds.
Proof.
  intros cmds. apply (redis_commands_parsed (λ n, replicate n 0) 4096 1000 (λ _, (OSW_OK, false)) 20
    (redis_example ((λ args, Got (command_text args)) <$> cmds)) 64 cmds).
  - split_and!; try done; by vm_compute.
  - done.
  - repeat constructor; by vm_compute.
  - done.
  - done.
  - repeat constructor.
Defined.

(** A command cut behind one of its arguments is a protocol error: the loop over the lines
    leaves at the end of the received bytes and falls into the failure. *)
Example cut_command_rejected :
  let cmd := command_text [lit "GET"; lit "a"] in
  (r ← recv_packet (λ n, replicate n 0) 4096 1000 (λ _, (OSW_OK, false)) 20
         (redis_example [Got (take 13 cmd); Got (drop 13 cmd)]); Some r.1) = Some OSW_ERR.
Proof. by vm_compute. Qed.

(** An argument's length that is no number makes the handler follow a null pointer. *)
Example bad_length_faults :
  recv_packet (λ n, replicate n 0) 4096 1000 (λ _, (OSW_OK, false)) 20
    (redis_example [Got (lit "*1" ++ crlf ++ lit "$x" ++ crlf)]) = None.
Proof. by vm_compute. Qed.

(** A reply that [format] printed is parsed back. *)
Example format_parsed :
  (r ← format_value (λ n, replicate n 0) (MkString 0 8 0 (replicate 8 0)) REPLY_STRING (lit "hello");
   parse 10 (contents r.2) (zlen (contents r.2))) = Some [lit "hello"].
Proof. by vm_compute. Qed.
