(* ===== verification/NetSocket.v ===== *)
(** * Sockets: scatter/gather vectors, error classes, blocking transfers and file chunks of
      src/network/socket.cc and include/openswoole_socket.h

    The kernel is a list of answers to the coming calls.  An [IOVector] keeps the remaining
    buffers as pairs of an offset into the buffer and a length. *)

From S2P Require Import Prelude Protocol.

(** ** Error classes: [Socket::catch_error] *)

Definition EINTR : Z := 4.
Definition EIO : Z := 5.
Definition EBADF : Z := 9.
Definition EAGAIN : Z := 11.
Definition EFAULT : Z := 14.
Definition ENOENT : Z := 2.
Definition EINVAL : Z := 22.
Definition EPIPE : Z := 32.
Definition ENETDOWN : Z := 100.
Definition ENETUNREACH : Z := 101.
Definition ECONNABORTED : Z := 103.
Definition ECONNRESET : Z := 104.
Definition ENOTCONN : Z := 107.
Definition ETIMEDOUT : Z := 110.
Definition ECONNREFUSED : Z := 111.
Definition EHOSTDOWN : Z := 112.
Definition EHOSTUNREACH : Z := 113.
Definition ECANCELED : Z := 125.
Definition OSW_ERROR_SSL_BAD_CLIENT : Z := 1015.
Definition OSW_ERROR_SSL_RESET : Z := 1017.
Definition OSW_INVALID : Z := 6.

Definition catch_error (err : Z) : option Z :=
  if err =? EFAULT then None
  else if bool_decide (err ∈ [EBADF; ENOENT]) then Some OSW_INVALID
  else if bool_decide (err ∈ [ECONNRESET; ECONNABORTED; EPIPE; ENOTCONN; ETIMEDOUT; ECONNREFUSED;
      ENETDOWN; ENETUNREACH; EHOSTDOWN; EHOSTUNREACH; OSW_ERROR_SSL_BAD_CLIENT;
      OSW_ERROR_SSL_RESET]) then Some OSW_CLOSE
  else if bool_decide (err ∈ [EAGAIN; 0]) then Some OSW_WAIT
  else Some OSW_ERROR.

(** ** [struct IOVector] *)

Record iovec := MkIov { iov_base : Z; iov_len : Z }.

Record IOVector := MkIOVector {
  iov_iterator : list iovec; remain_count : Z; index : Z; offset_bytes : Z }.

(** The constructor, for buffers of the given lengths. *)
Definition make_iovector (lens : list Z) : IOVector :=
  MkIOVector (MkIov 0 <$> lens) (zlen lens) 0 0.

(** The body of the loop of [update_iterator] at the buffer [i], which ends the search. *)
Definition advance (v : IOVector) (i _offset_bytes len : Z) : option IOVector :=
  let whole := _offset_bytes =? len in
  let _index := if whole then i + 1 else i in
  let _offset_bytes := if whole then 0 else _offset_bytes in
  let remain := remain_count v - _index in
  let idx := index v + _index in
  let off := (if 0 <? i then 0 else offset_bytes v) + _offset_bytes in
  if remain =? 0 then Some (MkIOVector (iov_iterator v) remain idx off) else
  match drop (Z.to_nat _index) (iov_iterator v) with
  | x :: rest =>
    Some (MkIOVector (MkIov (iov_base x + _offset_bytes) (iov_len x - _offset_bytes) :: rest)
            remain idx off)
  | [] => None
  end.

(** The loop over the remaining buffers; [None] is [abort()]. *)
Fixpoint update_loop (v : IOVector) (todo : list iovec) (i total_bytes n : Z) : option IOVector :=
  match todo with
  | [] => None
  | x :: todo =>
    let total_bytes := total_bytes + iov_len x in
    if n <=? total_bytes then advance v i (iov_len x - (total_bytes - n)) (iov_len x)
    else update_loop v todo (i + 1) total_bytes n
  end.

Definition update_iterator (v : IOVector) (n : Z) : option IOVector :=
  if (n <=? 0) || (remain_count v =? 0) then Some v
  else update_loop v (take (Z.to_nat (remain_count v)) (iov_iterator v)) 0 0 n.

(** The bytes that a vector still covers: buffer [index + k] holds its [k]th piece. *)
Definition piece (buf : bytes) (x : iovec) : bytes :=
  take (Z.to_nat (iov_len x)) (drop (Z.to_nat (iov_base x)) buf).

Definition remaining (bufs : list bytes) (v : IOVector) : bytes :=
  concat (zip_with piece (drop (Z.to_nat (index v)) bufs)
            (take (Z.to_nat (remain_count v)) (iov_iterator v))).

(** ** Waiting and blocking transfers *)

(** One [poll]: ready, timeout, or an error. *)
Inductive poll_answer := PollReady | PollTimeout | PollError (err : Z).

(** [Socket::wait_event]: the result; the loop never repeats. *)
Definition wait_event (p : poll_answer) : Z :=
  match p with
  | PollTimeout => OSW_ERR
  | PollError e => if negb (e =? EINTR) then OSW_ERR else OSW_OK
  | PollReady => OSW_OK
  end.

(** What one [send] does: it takes bytes, or fails; [polls] answers the waiting. *)
Inductive send_answer := Took (k : positive) | SendError (err : Z).

(** [Socket::send_blocking] from [written] bytes on: the result and what is on the wire. *)
Fixpoint send_blocking (kernel : list (send_answer * poll_answer)) (data wire : bytes)
    (written : Z) : option (Z * bytes) :=
  if written <? zlen data then
    match kernel with
    | [] => None
    | (Took k, _) :: kernel =>
      let n := Z.min (Z.pos k) (zlen data - written) in
      send_blocking kernel data (wire ++ take (Z.to_nat n) (drop (Z.to_nat written) data))
        (written + n)
    | (SendError e, p) :: kernel =>
      if e =? EINTR then send_blocking kernel data wire written else
      c ← catch_error e;
      if (c =? OSW_WAIT) && (wait_event p =? OSW_OK) then send_blocking kernel data wire written
      else Some (OSW_ERR, wire)
    end
  else Some (written, wire).

(** [Socket::recv_blocking] with [got] read so far. *)
Fixpoint recv_blocking (kernel : list (recv_event * poll_answer)) (len : Z) (got : bytes) :
    option (Z * bytes) :=
  if zlen got =? len then Some (zlen got, got) else
  match kernel with
  | [] => None
  | (Got d, _) :: kernel => recv_blocking kernel len (got ++ take (Z.to_nat (len - zlen got)) d)
  | (PeerClosed, _) :: _ => Some (zlen got, got)
  | (WouldBlock, p) :: kernel =>
    if wait_event p =? OSW_OK then recv_blocking kernel len got else Some (-1, got)
  | (_, _) :: _ => Some (-1, got)
  end.

(** [Socket::set_recv_timeout] and [set_send_timeout]: which option is set and which field. *)
Record timeouts := MkTimeouts { so_rcvtimeo : Z; so_sndtimeo : Z; recv_timeout_ : Z; send_timeout_ : Z }.
Definition set_recv_timeout (t : timeouts) (timeout : Z) : timeouts :=
  MkTimeouts (so_rcvtimeo t) timeout (recv_timeout_ t) timeout.
Definition set_send_timeout (t : timeouts) (timeout : Z) : timeouts :=
  MkTimeouts timeout (so_sndtimeo t) timeout (send_timeout_ t).
Definition set_timeout (t : timeouts) (timeout : Z) : timeouts :=
  set_send_timeout (set_recv_timeout t timeout) timeout.

(** ** Vectors: consuming [n] bytes *)

Definition in_buffer (buf : bytes) (x : iovec) : Prop :=
  0 <= iov_base x ∧ 0 <= iov_len x ∧ iov_base x + iov_len x <= zlen buf.

Record iov_wf (bufs : list bytes) (v : IOVector) : Prop := {
  iw_index : 0 <= index v;
  iw_count : 0 <= remain_count v <= zlen (iov_iterator v);
  iw_pieces : Forall2 in_buffer (drop (Z.to_nat (index v)) bufs)
                (take (Z.to_nat (remain_count v)) (iov_iterator v)) }.

Lemma piece_zlen buf x : in_buffer buf x → zlen (piece buf x) = iov_len x.
Proof.
  intros (?&?&?). unfold piece, zlen in *. rewrite length_take, length_drop. lia.
Qed.

Lemma piece_drop buf x k :
  0 <= k → in_buffer buf x → k <= iov_len x →
  piece buf (MkIov (iov_base x + k) (iov_len x - k)) = drop (Z.to_nat k) (piece buf x).
Proof.
  intros Hk (?&?&?) Hle. unfold piece. cbn [iov_base iov_len].
  rewrite skipn_firstn_comm, drop_drop. f_equal; [lia|f_equal; lia].
Qed.

Lemma make_iovector_wf bufs : iov_wf bufs (make_iovector (zlen <$> bufs)).
Proof.
  unfold make_iovector. constructor; cbn [index remain_count iov_iterator].
  - lia.
  - unfold zlen. rewrite !length_fmap. lia.
  - rewrite drop_0. unfold zlen at 1. rewrite length_fmap, Nat2Z.id.
    rewrite take_ge by (by rewrite !length_fmap). rewrite Forall2_fmap_r, Forall2_fmap_r.
    apply Forall_Forall2_diag, Forall_forall. intros b _. unfold in_buffer. cbn. zl_nonneg. lia.
Qed.

Lemma make_iovector_remaining bufs : remaining bufs (make_iovector (zlen <$> bufs)) = concat bufs.
Proof.
  unfold remaining, make_iovector. cbn [index remain_count iov_iterator]. rewrite drop_0.
  unfold zlen at 1. rewrite length_fmap, Nat2Z.id, take_ge by (by rewrite !length_fmap).
  f_equal. induction bufs as [|b bufs IH]; [done|]. cbn [fmap list_fmap zip_with]. f_equal; [|exact IH].
  unfold piece. cbn. unfold zlen. rewrite Nat2Z.id. apply take_ge. lia.
Qed.

Lemma iov_suffix bufs todo extra rest idx off :
  0 <= idx → drop (Z.to_nat idx) bufs = rest → Forall2 in_buffer rest todo →
  iov_wf bufs (MkIOVector (todo ++ extra) (zlen todo) idx off) ∧
  remaining bufs (MkIOVector (todo ++ extra) (zlen todo) idx off) =
    concat (zip_with piece rest todo).
Proof.
  intros Hi Hb HF.
  assert (take (Z.to_nat (zlen todo)) (todo ++ extra) = todo) as Ht
    by (unfold zlen; rewrite Nat2Z.id; apply take_app_length).
  split; [constructor|]; cbn [index remain_count iov_iterator]; [done|zl|by rewrite Hb, Ht|].
  unfold remaining. cbn [index remain_count iov_iterator]. by rewrite Hb, Ht.
Qed.

(** The loop stands at [x :: todo], behind [pre]; the buffers from [x] on are [b :: rest]. *)
Lemma advance_spec bufs v pre x todo extra b rest k :
  0 <= index v → iov_iterator v = pre ++ (x :: todo) ++ extra →
  remain_count v = zlen (pre ++ x :: todo) →
  drop (Z.to_nat (index v) + length pre) bufs = b :: rest →
  Forall2 in_buffer (b :: rest) (x :: todo) → 0 < k <= iov_len x →
  ∃ v', advance v (zlen pre) k (iov_len x) = Some v' ∧ iov_wf bufs v' ∧
    remaining bufs v' = drop (Z.to_nat k) (concat (zip_with piece (b :: rest) (x :: todo))).
Proof.
  intros Hi Hit Hrc Hb HF Hk. pose proof HF as [Hx HFt]%Forall2_cons.
  pose proof (piece_zlen _ _ Hx) as Hpl.
  unfold advance. rewrite Hrc, zlen_app, zlen_cons, Hit. zl_nonneg. cbn [zip_with concat].
  destruct (Z.eqb_spec k (iov_len x)) as [->|Hne].
  - rewrite (drop_app_length' (piece b x)) by (unfold zlen in Hpl; lia).
    assert (drop (Z.to_nat (index v + (zlen pre + 1))) bufs = rest) as Hb'.
    { replace (Z.to_nat (index v + (zlen pre + 1))) with (Z.to_nat (index v) + length pre + 1)%nat
        by (unfold zlen; lia). by rewrite <- drop_drop, Hb. }
    replace (zlen pre + (1 + zlen todo) - (zlen pre + 1)) with (zlen todo) by lia.
    destruct (Z.eqb_spec (zlen todo) 0) as [He|He].
    + apply zlen_0 in He as ->. inversion HFt; subst. eexists. split; [done|].
      pose proof (iov_suffix bufs [] (pre ++ [x] ++ extra) [] (index v + (zlen pre + 1))) as T.
      cbn [Datatypes.app] in T. apply T; [lia|done|constructor].
    + replace (Z.to_nat (zlen pre + 1)) with (length pre + 1)%nat by (unfold zlen; lia).
      rewrite <- drop_drop, drop_app_length. cbn [drop Datatypes.app]. destruct todo as [|y todo]; [done|].
      cbn [Datatypes.app]. eexists. split; [done|].
      replace (MkIov (iov_base y + 0) (iov_len y - 0)) with y by (destruct y; cbn; f_equal; lia).
      apply (iov_suffix bufs (y :: todo) extra rest); [lia|done|done].
  - rewrite (proj2 (Z.eqb_neq _ 0)) by lia.
    replace (Z.to_nat (zlen pre)) with (length pre) by (unfold zlen; lia).
    rewrite drop_app_length. cbn [Datatypes.app]. eexists. split; [done|].
    assert (drop (Z.to_nat (index v + zlen pre)) bufs = b :: rest) as Hb'.
    { rewrite <- Hb. f_equal. unfold zlen. lia. }
    replace (zlen pre + (1 + zlen todo) - zlen pre) with (1 + zlen todo) by lia.
    set (x' := MkIov (iov_base x + k) (iov_len x - k)). rewrite <- (zlen_cons x' todo).
    destruct (iov_suffix bufs (x' :: todo) extra (b :: rest) (index v + zlen pre)
      ((if 0 <? zlen pre then 0 else offset_bytes v) + k)) as [Hw Hr]; [lia|done|..].
    { constructor; [|done]. destruct Hx as (?&?&?). unfold in_buffer, x'. cbn [iov_base iov_len]. lia. }
    split; [exact Hw|]. etransitivity; [exact Hr|]. cbn [zip_with concat].
    unfold x'. rewrite piece_drop by (try done; lia).
    by rewrite drop_app_le by (unfold zlen in Hpl; lia).
Qed.

Lemma update_loop_spec bufs v pre todo extra rest total n :
  0 <= index v → iov_iterator v = pre ++ todo ++ extra → remain_count v = zlen (pre ++ todo) →
  drop (Z.to_nat (index v) + length pre) bufs = rest → Forall2 in_buffer rest todo →
  total < n <= total + zlen (concat (zip_with piece rest todo)) →
  ∃ v', update_loop v todo (zlen pre) total n = Some v' ∧ iov_wf bufs v' ∧
    remaining bufs v' = drop (Z.to_nat (n - total)) (concat (zip_with piece rest todo)).
Proof.
  revert pre rest total. induction todo as [|x todo IH]; intros pre rest total Hi Hit Hrc Hb HF Hn.
  - rewrite zip_with_nil_r in Hn. cbn [concat] in Hn. rewrite zlen_nil in Hn. lia.
  - destruct rest as [|b rest]; [inversion HF|]. cbn [update_loop].
    pose proof HF as [Hx HFt]%Forall2_cons. pose proof (piece_zlen _ _ Hx) as Hpl.
    cbn [zip_with concat] in *. rewrite zlen_app in Hn.
    destruct (Z.leb_spec n (total + iov_len x)).
    + replace (iov_len x - (total + iov_len x - n)) with (n - total) by lia.
      by apply (advance_spec bufs v pre x todo extra b rest); try lia.
    + destruct (IH (pre ++ [x]) rest (total + iov_len x)) as (v' & H1 & H2 & H3).
      * done.
      * rewrite Hit. app_eq.
      * rewrite Hrc. f_equal. app_eq.
      * rewrite length_app, Nat.add_assoc, <- drop_drop, Hb. done.
      * done.
      * lia.
      * rewrite zlen_app, zlen_cons, zlen_nil, Z.add_0_r in H1. exists v'. split; [done|].
        split; [done|]. rewrite H3, drop_app_ge by (unfold zlen in Hpl; lia).
        f_equal. unfold zlen in Hpl. lia.
Qed.

(** [update_iterator] consumes exactly the bytes that were transferred, whatever buffers they
    span; it never aborts as long as the kernel transferred no more than it was given. *)
Lemma update_iterator_exact bufs v n :
  iov_wf bufs v → n <= zlen (remaining bufs v) →
  ∃ v', update_iterator v n = Some v' ∧ iov_wf bufs v' ∧
    remaining bufs v' = drop (Z.to_nat n) (remaining bufs v).
Proof.
  intros [H1 H2 H3] Hn. unfold update_iterator. destruct (Z.leb_spec n 0) as [|Hpos].
  { exists v. replace (Z.to_nat n) with O by lia. rewrite drop_0. by split. }
  cbn [orb]. destruct (Z.eqb_spec (remain_count v) 0) as [E|].
  { unfold remaining in Hn. rewrite E in Hn. cbn [Z.to_nat] in Hn.
    rewrite take_0, zip_with_nil_r in Hn. cbn [concat] in Hn. rewrite zlen_nil in Hn. lia. }
  destruct (update_loop_spec bufs v [] (take (Z.to_nat (remain_count v)) (iov_iterator v))
    (drop (Z.to_nat (remain_count v)) (iov_iterator v)) (drop (Z.to_nat (index v)) bufs) 0 n H1) as (v' & Hv & Hw & Hr).
  - cbn [Datatypes.app]. by rewrite take_drop.
  - cbn [Datatypes.app]. unfold zlen in *. rewrite length_take. lia.
  - cbn [length]. by rewrite Nat.add_0_r.
  - done.
  - unfold remaining in Hn. lia.
  - exists v'. rewrite Z.sub_0_r in Hr. done.
Qed.

(** Repeated vectored writes: every answer of the kernel is a positive number of bytes of the
    remaining vector, at most all of them. *)
Fixpoint write_vector (kernel : list positive) (bufs : list bytes) (v : IOVector) (wire : bytes) :
    option (IOVector * bytes) :=
  match kernel with
  | [] => Some (v, wire)
  | k :: kernel =>
    let n := Z.min (Z.pos k) (zlen (remaining bufs v)) in
    let wire := wire ++ take (Z.to_nat n) (remaining bufs v) in
    v ← update_iterator v n; write_vector kernel bufs v wire
  end.

Lemma write_vector_exact kernel bufs v wire :
  iov_wf bufs v →
  ∃ v' wire', write_vector kernel bufs v wire = Some (v', wire') ∧ iov_wf bufs v' ∧
    wire' ++ remaining bufs v' = wire ++ remaining bufs v.
Proof.
  revert v wire. induction kernel as [|k kernel IH]; intros v wire Hw; cbn [write_vector].
  - by exists v, wire.
  - set (n := Z.min _ _). assert (n <= zlen (remaining bufs v)) as Hn by (unfold n; lia).
    destruct (update_iterator_exact bufs v n Hw Hn) as (v1 & -> & Hw1 & Hr1).
    cbn [mbind option_bind]. destruct (IH v1 (wire ++ take (Z.to_nat n) (remaining bufs v)) Hw1)
      as (v' & wire' & -> & Hw' & Hr'). exists v', wire'. split; [done|]. split; [done|].
    rewrite Hr', Hr1, <- app_assoc. by rewrite take_drop.
Qed.

(** ** Blocking transfers *)

(** [send_blocking] reports exactly the bytes that are on the wire, in order. *)
Lemma send_blocking_exact kernel data wire written r wire' :
  0 <= written <= zlen data →
  send_blocking kernel data (wire ++ take (Z.to_nat written) data) written = Some (r, wire') →
  (r = zlen data ∧ wire' = wire ++ data) ∨
  (r = OSW_ERR ∧ ∃ k, wire' = wire ++ take k data).
Proof.
  revert written. induction kernel as [|[a p] kernel IH]; intros written Hw; cbn [send_blocking].
  - destruct (Z.ltb_spec written (zlen data)); [done|]. intros [= <- <-]. left.
    rewrite take_ge by (unfold zlen in *; lia). split; [lia|done].
  - destruct (Z.ltb_spec written (zlen data)).
    2: { intros [= <- <-]. left. rewrite take_ge by (unfold zlen in *; lia). split; [lia|done]. }
    destruct a as [k|e].
    + set (n := Z.min _ _). intros Hs. apply (IH (written + n)); [unfold n; lia|].
      rewrite <- Hs. f_equal. rewrite <- app_assoc. f_equal.
      replace (Z.to_nat (written + n)) with (Z.to_nat written + Z.to_nat n)%nat by (unfold n; lia).
      by rewrite take_take_drop.
    + destruct (e =? EINTR); [by apply IH|]. destruct (catch_error e); [|done].
      cbn [mbind option_bind]. destruct (_ && _); [by apply IH|].
      intros [= <- <-]. right. eauto.
Qed.

Definition is_took (a : send_answer) : bool := match a with Took _ => true | _ => false end.

(** It returns as soon as the kernel took enough, however often it was interrupted. *)
Lemma send_blocking_returns kernel data wire written :
  0 <= written <= zlen data →
  Forall (λ a, match a.1 with
    | Took _ => True
    | SendError e => e = EINTR ∨ e = EAGAIN ∧ wait_event a.2 = OSW_OK end) kernel →
  (Z.to_nat (zlen data - written) <=
    length (filter (λ a, is_took a.1 = true) kernel))%nat →
  ∃ wire', send_blocking kernel data wire written = Some (zlen data, wire').
Proof.
  revert wire written. induction kernel as [|[a p] kernel IH]; intros wire written Hw HF Hl;
    cbn [send_blocking].
  - cbn in Hl. destruct (Z.ltb_spec written (zlen data)); [lia|].
    replace written with (zlen data) by lia. by eexists.
  - apply Forall_cons in HF as [Ha HF]. destruct (Z.ltb_spec written (zlen data)).
    2: { replace written with (zlen data) by lia. by eexists. }
    rewrite filter_cons in Hl. cbn [fst snd] in *. destruct a as [k|e].
    + rewrite decide_True in Hl by done. cbn [length] in Hl. apply IH; [lia|done|lia].
    + rewrite decide_False in Hl by done. destruct Ha as [->|[-> Hp]].
      * by apply IH.
      * rewrite Hp. cbn. by apply IH.
Qed.

(** ** Defects *)

(** After the first buffer was filled in two reads, [offset_bytes] still counts the bytes of
    the first read although [index] is at the untouched second buffer. *)
Example offset_bytes_stale :
  (v ← update_iterator (make_iovector [10; 10]) 5; v ← update_iterator v 5;
   Some (index v, offset_bytes v, iov_iterator v)) = Some (1, 5, [MkIov 0 10]).
Proof. reflexivity. Qed.

(** [wait_event] reports an interrupted [poll] as readiness. *)
Example wait_event_interrupted : wait_event (PollError EINTR) = OSW_OK.
Proof. reflexivity. Qed.

(** Setting the receive timeout sets the send timeout and the other way round. *)
Lemma set_timeouts_swapped t a b :
  set_send_timeout (set_recv_timeout t a) b = MkTimeouts b a b a.
Proof. done. Qed.
