(* ===== verification/CoSocket.v ===== *)
(** * Coroutine sockets: src/coroutine/socket.cc, include/openswoole_coroutine_socket.h

    An operation that would block suspends its coroutine until the reactor, a timer, a
    cancellation or a close from another coroutine resumes it.  [rx] and [tx] are what the
    coming [recv] and [send] calls of the kernel find, [wakes] what resumes the coroutine
    each time it waits.  An operation ends ([Done]), is still suspended when [wakes] is used
    up ([Waiting]), or commits a fault ([Fault]: an access outside a buffer, a fatal error).
    The build without TLS is modelled. *)

From S2P Require Import Prelude Pack SwString Protocol NetSocket.

(** What resumes a waiting coroutine: the event it waits for, an error event, the timer, a
    cancellation, [close] by another coroutine; [AddFailed] is a failed [add_event]. *)
Inductive wake :=
  | Event (hup : bool) | ErrorEvent | TimedOut | Cancelled | ClosedByOther | AddFailed (err : Z).

Record CoSocket := MkCo {
  rx : list recv_event; tx : list send_answer; wire : bytes; wakes : list wake;
  timer_ok : bool; event_hup : bool; errno : Z; errCode : Z; closed : bool; sock_fd : Z;
  connected : bool; shutdown_read : bool; shutdown_write : bool;
  read_co : option Z; write_co : option Z; zero_copy : bool;
  read_buffer : option String; write_buffer : bytes }.

Definition with_rx (s : CoSocket) (r : list recv_event) : CoSocket :=
  MkCo r (tx s) (wire s) (wakes s) (timer_ok s) (event_hup s) (errno s) (errCode s) (closed s)
    (sock_fd s) (connected s) (shutdown_read s) (shutdown_write s) (read_co s) (write_co s)
    (zero_copy s) (read_buffer s) (write_buffer s).
Definition with_tx (s : CoSocket) (t : list send_answer) (w : bytes) : CoSocket :=
  MkCo (rx s) t w (wakes s) (timer_ok s) (event_hup s) (errno s) (errCode s) (closed s)
    (sock_fd s) (connected s) (shutdown_read s) (shutdown_write s) (read_co s) (write_co s)
    (zero_copy s) (read_buffer s) (write_buffer s).
Definition with_wakes (s : CoSocket) (ws : list wake) (hup : bool) : CoSocket :=
  MkCo (rx s) (tx s) (wire s) ws (timer_ok s) hup (errno s) (errCode s) (closed s)
    (sock_fd s) (connected s) (shutdown_read s) (shutdown_write s) (read_co s) (write_co s)
    (zero_copy s) (read_buffer s) (write_buffer s).
Definition with_errors (s : CoSocket) (no code : Z) : CoSocket :=
  MkCo (rx s) (tx s) (wire s) (wakes s) (timer_ok s) (event_hup s) no code (closed s)
    (sock_fd s) (connected s) (shutdown_read s) (shutdown_write s) (read_co s) (write_co s)
    (zero_copy s) (read_buffer s) (write_buffer s).
Definition with_closed (s : CoSocket) (fd : Z) : CoSocket :=
  MkCo (rx s) (tx s) (wire s) (wakes s) (timer_ok s) (event_hup s) (errno s) (errCode s) true
    fd (connected s) (shutdown_read s) (shutdown_write s) (read_co s) (write_co s)
    (zero_copy s) (read_buffer s) (write_buffer s).
Definition with_shutdown (s : CoSocket) (c r w : bool) : CoSocket :=
  MkCo (rx s) (tx s) (wire s) (wakes s) (timer_ok s) (event_hup s) (errno s) (errCode s) (closed s)
    (sock_fd s) c r w (read_co s) (write_co s) (zero_copy s) (read_buffer s) (write_buffer s).
Definition with_buffers (s : CoSocket) (r : option String) (w : bytes) : CoSocket :=
  MkCo (rx s) (tx s) (wire s) (wakes s) (timer_ok s) (event_hup s) (errno s) (errCode s) (closed s)
    (sock_fd s) (connected s) (shutdown_read s) (shutdown_write s) (read_co s) (write_co s)
    (zero_copy s) r w.

(** ** The monad of socket operations *)

Inductive res (A : Type) := Done (a : A) (s : CoSocket) | Waiting (s : CoSocket) | Fault.
Arguments Done {A}.
Arguments Waiting {A}.
Arguments Fault {A}.

Definition io (A : Type) : Type := CoSocket → res A.
Definition ret {A} (a : A) : io A := λ s, Done a s.
Definition bind {A B} (m : io A) (f : A → io B) : io B :=
  λ s, match m s with Done a s => f a s | Waiting s => Waiting s | Fault => Fault end.
Definition lift {A} (o : option A) : io A :=
  λ s, match o with Some a => Done a s | None => Fault end.
Definition modify (f : CoSocket → CoSocket) : io () := λ s, Done tt (f s).
Definition gets {A} (f : CoSocket → A) : io A := λ s, Done (f s) s.
Definition call {A} (f : CoSocket → A * CoSocket) : io A := λ s, let '(a, s) := f s in Done a s.

Declare Scope io_scope.
Delimit Scope io_scope with io.
Notation "'let!' x ':=' m 'in' k" :=
  (bind m (λ x, k)) (at level 10, x name, m at level 100, k at level 200) : io_scope.
Open Scope io_scope.

Definition OSW_BUFFER_SIZE_BIG : Z := 65536.
Definition EINPROGRESS : Z := 115.
Definition OSW_ERROR_PACKAGE_LENGTH_TOO_LARGE : Z := 1201.
Definition OSW_ERROR_PACKAGE_LENGTH_NOT_FOUND : Z := 1202.

(** [Socket::set_err] and [check_return_value]. *)
Definition set_err (e : Z) (s : CoSocket) : CoSocket := with_errors s e e.
Definition check_return_value (retval : Z) (s : CoSocket) : CoSocket :=
  if 0 <=? retval then set_err 0 s
  else if errCode s =? 0 then set_err (errno s) s else s.

(** ** The calls into the kernel *)

Definition recv_errno (e : recv_event) : Z :=
  match e with WouldBlock => EAGAIN | Broken => ECONNRESET | _ => EIO end.

(** [network::Socket::recv]: the return value and the bytes. *)
Definition sock_recv (n : Z) (s : CoSocket) : (Z * bytes) * CoSocket :=
  let '(e, r) := recv (rx s) n in
  let s := with_rx s r in
  match e with
  | Got d => ((zlen d, d), s)
  | PeerClosed => ((0, []), s)
  | e =>
    let s := with_errors s (recv_errno e) (errCode s) in
    if (recv_errno e =? EAGAIN) && event_hup s then ((0, []), s) else ((-1, []), s)
  end.

(** [network::Socket::send]; an interrupted call is repeated. *)
Fixpoint send_answers (data : bytes) (t : list send_answer) (s : CoSocket) : Z * CoSocket :=
  match t with
  | [] => (-1, with_errors (with_tx s [] (wire s)) EAGAIN (errCode s))
  | Took k :: t =>
    let n := Z.min (Z.pos k) (zlen data) in
    (n, with_tx s t (wire s ++ take (Z.to_nat n) data))
  | SendError e :: t =>
    if e =? EINTR then send_answers data t s
    else (-1, with_errors (with_tx s t (wire s)) e (errCode s))
  end.
Definition sock_send (data : bytes) (s : CoSocket) : Z * CoSocket := send_answers data (tx s) s.

(** [Socket::is_available]; a coroutine already bound to the event is a fatal error. *)
Definition is_available (rd wr : bool) : io bool := λ s,
  if (rd && bool_decide (is_Some (read_co s))) || (wr && bool_decide (is_Some (write_co s)))
  then Fault
  else if closed s then Done false (set_err ECONNRESET s) else Done true s.

(** The rest of [wait_event] once the coroutine is resumed. *)
Definition resumed {X} (x : X) (s : CoSocket) : res (bool * X) :=
  Done (negb (closed s) && (errCode s =? 0), x) s.

(** [wait_event], [readable_event_callback], [writable_event_callback],
    [error_event_callback], [timer_callback], [cancel] and [close]: the coroutine waits
    until it is resumed; an event first runs the [barrier], which may keep it waiting. *)
Fixpoint wait_loop {X} (barrier : option (X → CoSocket → option (bool * X * CoSocket)))
    (ws : list wake) (x : X) (s : CoSocket) : res (bool * X) :=
  match ws with
  | [] => Waiting (with_wakes s [] (event_hup s))
  | w :: ws =>
    let s := with_wakes s ws (event_hup s) in
    match w with
    | Event hup =>
      let s := set_err 0 (with_wakes s ws (event_hup s || hup)) in
      match barrier with
      | None => resumed x s
      | Some f =>
        match f x s with
        | None => Fault
        | Some (again, x, s) =>
          if again && negb (event_hup s) then wait_loop barrier ws x s else resumed x s
        end
      end
    | ErrorEvent => resumed x (set_err 0 s)
    | TimedOut => resumed x (set_err ETIMEDOUT s)
    | Cancelled => resumed x (set_err ECANCELED s)
    | ClosedByOther => resumed x (set_err ECONNRESET (with_closed s (sock_fd s)))
    | AddFailed _ => wait_loop barrier ws x s
    end
  end.

Definition wait_event {X} (barrier : option (X → CoSocket → option (bool * X * CoSocket))) (x : X) :
    io (bool * X) := λ s,
  match wakes s with
  | AddFailed e :: ws => Done (false, x) (set_err e (with_wakes s ws (event_hup s)))
  | ws => wait_loop barrier ws x (set_err 0 s)
  end.

(** [wait_event(OSW_EVENT_WRITE, &buf, n)]: the data is copied into the write buffer. *)
Definition keep_copy (data : bytes) : io () :=
  modify (λ s, if negb (zero_copy s) && (0 <? zlen data) then with_buffers s (read_buffer s) data else s).

(** Whether a failed call waits: [catch_error(errno) == OSW_WAIT && timer.start()]. *)
Definition would_wait : io bool := λ s,
  match catch_error (errno s) with
  | None => Fault
  | Some c => Done ((c =? OSW_WAIT) && timer_ok s) s
  end.

(** [check_return_value(retval)] and the result. *)
Definition finish {A} (retval : Z) (a : A) : io A := λ s, Done a (check_return_value retval s).

(** ** [recv], [send], [recv_all], [send_all] *)

Fixpoint recv_loop (fuel : nat) (n : Z) : io (Z * bytes) :=
  match fuel with
  | O => λ _, Fault
  | S fuel =>
    let! rd := call (sock_recv n) in
    if fst rd <? 0 then
      let! w := would_wait in
      if w : bool then
        let! ok := wait_event None tt in
        if fst ok : bool then recv_loop fuel n
        else finish (fst rd) rd
      else finish (fst rd) rd
    else finish (fst rd) rd
  end.

(** [Socket::recv]. *)
Definition co_recv (n : Z) : io (Z * bytes) :=
  let! ok := is_available true false in
  if ok : bool then let! fuel := gets (λ s, S (length (wakes s))) in recv_loop fuel n else ret (-1, []).

Fixpoint send_loop (fuel : nat) (data : bytes) : io Z :=
  match fuel with
  | O => λ _, Fault
  | S fuel =>
    let! r := call (sock_send data) in
    if r <? 0 then
      let! w := would_wait in
      if w : bool then
        let! _ := keep_copy data in
        let! ok := wait_event None tt in
        if fst ok : bool then send_loop fuel data else finish r r
      else finish r r
    else finish r r
  end.

(** [Socket::send]. *)
Definition co_send (data : bytes) : io Z :=
  let! ok := is_available false true in
  if ok : bool then let! fuel := gets (λ s, S (length (wakes s))) in send_loop fuel data else ret (-1).

(** The event barrier of [recv_all]: the last return value and the bytes so far. *)
Definition recv_barrier (n : Z) (x : Z * bytes) (s : CoSocket) :
    option (bool * (Z * bytes) * CoSocket) :=
  let '((r, d), s) := sock_recv (n - zlen (snd x)) s in
  if r <? 0 then c ← catch_error (errno s); Some (c =? OSW_WAIT, (r, snd x), s)
  else if 0 <? r then Some (zlen (snd x ++ d) <? n, (r, snd x ++ d), s)
  else Some (false, (r, snd x), s).

(** What both [_all] operations do after the first call: wait with the barrier. *)
Definition wait_all {X} (barrier : X → CoSocket → option (bool * X * CoSocket)) (retval : X → Z)
    (x : X) : io X :=
  let! started := gets timer_ok in
  if started : bool then
    let! ok := wait_event (Some barrier) x in
    if fst ok : bool then finish (retval (snd ok)) (snd ok) else ret (snd ok)
  else ret x.

(** Whether the first call failed for good: [retval < 0 && catch_error(errno) != OSW_WAIT]. *)
Definition failed_for_good (r : Z) : io bool := λ s,
  if r <? 0 then
    match catch_error (errno s) with
    | None => Fault
    | Some c => if c =? OSW_WAIT then Done false s else Done true (set_err (errno s) s)
    end
  else Done false s.

(** [Socket::recv_all]. *)
Definition recv_all (n : Z) : io (Z * bytes) :=
  let! ok := is_available true false in
  if negb ok then ret (-1, []) else
  let! rd := call (sock_recv n) in
  if (fst rd =? 0) || (fst rd =? n) then ret rd else
  let! bad := failed_for_good (fst rd) in
  if bad : bool then ret rd else
  let! x := wait_all (recv_barrier n) fst (-1, snd rd) in
  ret (if (fst x <? 0) && (zlen (snd x) =? 0) then (-1, []) else (zlen (snd x), snd x)).

(** The event barrier of [send_all]. *)
Definition send_barrier (data : bytes) (x : Z * Z) (s : CoSocket) : option (bool * (Z * Z) * CoSocket) :=
  let '(r, s) := sock_send (drop (Z.to_nat (snd x)) data) s in
  if r <? 0 then c ← catch_error (errno s); Some (c =? OSW_WAIT, (r, snd x), s)
  else if 0 <? r then Some (snd x + r <? zlen data, (r, snd x + r), s)
  else Some (false, (r, snd x), s).

(** [Socket::send_all]. *)
Definition send_all (data : bytes) : io Z :=
  let! ok := is_available false true in
  if negb ok then ret (-1) else
  let! r := call (sock_send data) in
  if (r =? 0) || (r =? zlen data) then ret r else
  let! bad := failed_for_good r in
  if bad : bool then ret r else
  let! x := wait_all (send_barrier data) fst (-1, if 0 <? r then r else 0) in
  ret (if (fst x <? 0) && (snd x =? 0) then -1 else snd x).

(** [Socket::poll]; the result [-1] of a closed socket is converted to [bool]. *)
Definition poll (rd wr : bool) : io bool :=
  let! ok := is_available rd wr in
  if negb ok then ret true else
  let! started := gets timer_ok in
  if started : bool then let! ok := wait_event None tt in ret (fst ok) else ret false.

(** ** Vectored writes *)

(** [network::Socket::writev] of an [IOVector]. *)
Definition sock_writev (bufs : list bytes) (v : IOVector) (s : CoSocket) :
    option (Z * IOVector * CoSocket) :=
  let '(r, s) := sock_send (remaining bufs v) s in
  v ← update_iterator v r; Some (r, v, s).

(** The loop of the barrier of [writev_all]: the last return value, the total, the vector. *)
Fixpoint writev_loop (fuel : nat) (bufs : list bytes) (x : Z * Z * IOVector) (s : CoSocket) :
    option (bool * (Z * Z * IOVector) * CoSocket) :=
  match fuel with
  | O => None
  | S fuel =>
    let '(_, sum, v) := x in
    '(r, v, s) ← sock_writev bufs v s;
    if r <? 0 then c ← catch_error (errno s); Some (c =? OSW_WAIT, (r, sum, v), s)
    else if r =? 0 then Some (false, (r, sum, v), s)
    else if 0 <? remain_count v then writev_loop fuel bufs (r, sum + r, v) s
    else Some (false, (r, sum + r, v), s)
  end.
Definition writev_barrier (bufs : list bytes) (x : Z * Z * IOVector) (s : CoSocket) :
    option (bool * (Z * Z * IOVector) * CoSocket) :=
  writev_loop (S (length (tx s))) bufs x s.

(** [Socket::writev_all]. *)
Definition writev_all (bufs : list bytes) (v : IOVector) : io (Z * IOVector) :=
  let! ok := is_available false true in
  if negb ok then ret (-1, v) else
  let! rv := (λ s, match sock_writev bufs v s with
                   | Some (r, v, s) => Done (r, v) s | None => Fault end) in
  let! bad := failed_for_good (fst rv) in
  if bad : bool then ret rv else
  if fst rv =? 0 then ret rv else
  let sum := if 0 <? fst rv then fst rv else 0 in
  if remain_count (snd rv) =? 0 then ret rv else
  let! x := wait_all (writev_barrier bufs) (λ x, fst (fst x)) (fst rv, sum, snd rv) in
  ret (snd (fst x), snd x).

(** ** Buffered reads and packets *)

Section Packets.
Variable fresh : nat → bytes.

(** [get_read_buffer]. *)
Definition get_read_buffer : io String := λ s,
  match read_buffer s with
  | Some b => Done b s
  | None => let b := make_string fresh OSW_BUFFER_SIZE_BIG in
            Done b (with_buffers s (Some b) (write_buffer s))
  end.
Definition put_read_buffer (b : String) : io () :=
  modify (λ s, with_buffers s (Some b) (write_buffer s)).

(** [recv(buffer->str + buffer->length, n)] and [buffer->length += retval]: the return value;
    the bytes of a positive one are in the buffer. *)
Definition recv_into (b : String) (n : Z) : io (Z * String) :=
  let! rd := co_recv n in
  if fst rd <=? 0 then ret (fst rd, b) else
  let! b := lift (received b (snd rd)) in
  let! _ := put_read_buffer b in
  ret (fst rd, b).

(** [Socket::recv_with_buffer]. *)
Definition recv_with_buffer (n : Z) : io (Z * bytes) :=
  let! ok := is_available true false in
  if negb ok then ret (-1, []) else
  let! b := get_read_buffer in
  let buffer_bytes := s_length b - s_offset b in
  if n <=? buffer_bytes then
    let! d := lift (load (s_str b) (s_offset b) n) in
    let! _ := put_read_buffer (with_offset b (s_offset b + n)) in
    ret (n, d)
  else
    let! pre := lift (load (s_str b) (s_offset b) buffer_bytes) in
    let b := with_offset b (s_offset b + buffer_bytes) in
    let! b := lift (if s_size b / 2 <=? s_offset b then reduce b (s_offset b) else Some b) in
    let! _ := put_read_buffer b in
    let! rb := recv_into b (s_size b - s_length b) in
    if fst rb <=? 0 then ret (if 0 <? buffer_bytes then (buffer_bytes, pre) else (fst rb, [])) else
    let b := snd rb in
    let copy_bytes := Z.min (n - buffer_bytes) (s_length b - s_offset b) in
    let! d := lift (load (s_str b) (s_offset b) copy_bytes) in
    let! _ := put_read_buffer (with_offset b (s_offset b + copy_bytes)) in
    ret (buffer_bytes + copy_bytes, pre ++ d).

(** [Socket::recv_line] with the memory [buf] behind the pointer. *)
Fixpoint line_loop (fuel : nat) (maxlen n m : Z) (buf : bytes) : io (Z * bytes) :=
  match fuel with
  | O => λ _, Fault
  | S fuel =>
    let! c := lift (at_ buf n) in
    if negb (c =? 10) && negb (c =? 13) && (n <? maxlen) then
      let n := if 0 <? m then n + 1 else n in
      if n <? maxlen then
        let! rd := recv_with_buffer 1 in
        if fst rd <? 0 then ret (-1, buf)
        else if fst rd =? 0 then ret ((if 0 <? n then n else 0), buf)
        else let! buf := lift (store buf n (snd rd)) in line_loop fuel maxlen n (fst rd) buf
      else line_loop fuel maxlen n m buf
    else ret ((if n <? maxlen then n + 1 else n), buf)
  end.
Definition recv_line (buf : bytes) (maxlen : Z) : io (Z * bytes) :=
  let! buf := lift (store buf 0 [0]) in
  line_loop (S (S (Z.to_nat maxlen))) maxlen 0 0 buf.

Variable p : Protocol.
(** [protocol.get_package_length]: the length and [protocol.real_header_length]. *)
Variable get_package_length : bytes → option (Z * Z).

(** [Socket::recv_packet_with_length_protocol]. *)
Inductive packet_label := _recv_header | _get_length.

Fixpoint packet_loop (fuel : nat) (l : packet_label) (header_len : Z) : io Z :=
  match fuel with
  | O => λ _, Fault
  | S fuel =>
    let! b := get_read_buffer in
    match l with
    | _recv_header =>
      let! rb := recv_into b (u64 (header_len - s_length b)) in
      if fst rb <=? 0 then ret (fst rb) else packet_loop fuel _get_length header_len
    | _get_length =>
      let! lr := lift (get_package_length (contents b)) in
      let '(packet_len, real_header_length) := lr in
      if packet_len <? 0 then
        let! _ := modify (set_err OSW_ERROR_PACKAGE_LENGTH_NOT_FOUND) in ret 0
      else if packet_len =? 0 then
        packet_loop fuel _recv_header
          (if negb (real_header_length =? 0) then real_header_length else header_len)
      else if package_max_length p <? packet_len then
        let! _ := put_read_buffer (clear b) in
        let! _ := modify (set_err OSW_ERROR_PACKAGE_LENGTH_TOO_LARGE) in ret (-1)
      else
        let b := with_offset b packet_len in
        let! _ := put_read_buffer b in
        if packet_len <=? s_length b then ret packet_len else
        let! b := lift (if s_size b <? packet_len then extend fresh b packet_len else Some b) in
        let! _ := put_read_buffer b in
        let! rd := recv_all (packet_len - s_length b) in
        if 0 <? fst rd then
          let! b := lift (received b (snd rd)) in
          let! _ := put_read_buffer b in
          ret (if negb (s_length b =? packet_len) then 0 else packet_len)
        else ret (fst rd)
    end
  end.

Definition recv_packet_with_length_protocol (fuel : nat) : io Z :=
  let! b := get_read_buffer in
  let header_len := u32 (package_length_offset p + package_length_size p) in
  packet_loop fuel
    (if (0 <? s_length b) && ((header_len <=? s_length b) ||
        ((package_length_size p =? 0) && (package_length_type p =? 0)))
     then _get_length else _recv_header) header_len.

(** [Socket::recv_packet_with_eof_protocol]; [find] is true at the label [_find_eof]. *)
Fixpoint eof_loop (fuel : nat) (find : bool) : io Z :=
  match fuel with
  | O => λ _, Fault
  | S fuel =>
    let! b := get_read_buffer in
    if negb find then
      let l_buf := Z.min (s_size b - s_length b) OSW_BUFFER_SIZE_BIG in
      let! rb := recv_into b l_buf in
      if fst rb <=? 0 then let! _ := put_read_buffer (clear b) in ret (fst rb)
      else eof_loop fuel (negb (s_length (snd rb) <? zlen (package_eof p)))
    else
      let! eof := lift (openswoole_strnpos (contents b) (package_eof p)) in
      if 0 <=? eof then
        let off := eof + zlen (package_eof p) in
        let! _ := put_read_buffer (with_offset b off) in ret off
      else if s_length b =? package_max_length p then
        let! _ := put_read_buffer (clear b) in
        let! _ := modify (set_err OSW_ERROR_PACKAGE_LENGTH_TOO_LARGE) in ret (-1)
      else if (s_length b =? s_size b) && (s_size b <? package_max_length p) then
        let new_size := Z.min (s_size b * 2) (package_max_length p) in
        let! b := lift (extend fresh b new_size) in
        let! _ := put_read_buffer b in
        eof_loop fuel false
      else eof_loop fuel false
  end.
Definition recv_packet_with_eof_protocol (fuel : nat) : io Z :=
  let! b := get_read_buffer in eof_loop fuel (0 <? s_length b).

(** The branches of [Socket::recv_packet] on the protocol. *)
Definition recv_packet_body (fuel : nat) (open_length_check open_eof_check : bool) (b : String) : io Z :=
  if open_length_check then recv_packet_with_length_protocol fuel
  else if open_eof_check then recv_packet_with_eof_protocol fuel
  else
    let! rd := co_recv (s_size b) in
    if 0 <? fst rd then
      let! m := lift (store (s_str b) 0 (snd rd)) in
      let! _ := put_read_buffer (MkString (fst rd) (s_size b) (fst rd) m) in
      ret (fst rd)
    else ret (fst rd).

(** A failed call clears the read buffer. *)
Definition recv_packet_end (recv_bytes : Z) : io Z :=
  if recv_bytes <=? 0 then
    let! b := get_read_buffer in
    let! _ := put_read_buffer (clear b) in ret recv_bytes
  else ret recv_bytes.

(** [Socket::recv_packet]; the packet is the first [retval] bytes of the read buffer. *)
Definition recv_packet (fuel : nat) (open_length_check open_eof_check : bool) : io Z :=
  let! ok := is_available true false in
  if negb ok then ret (-1) else
  let! started := gets timer_ok in
  if negb started then ret 0 else
  let! b := get_read_buffer in
  let! b := lift (if 0 <? s_offset b then reduce b (s_offset b) else Some b) in
  let! _ := put_read_buffer b in
  bind (recv_packet_body fuel open_length_check open_eof_check b) recv_packet_end.

(** [Socket::pop_packet]: the packet's memory; what follows it stays in a new buffer. *)
Definition pop_packet (buffer_init_size : Z) : io (option bytes) :=
  let! b := get_read_buffer in
  if s_offset b =? 0 then ret None else
  let! r := lift (SwString.pop fresh b buffer_init_size) in
  let! _ := put_read_buffer (snd r) in
  ret (Some (fst r)).
End Packets.

(** ** Closing *)

Inductive shut := SHUT_RD | SHUT_WR | SHUT_RDWR.

(** [Socket::shutdown]; [kernel] is the errno of [::shutdown], 0 for success.  [errno] keeps
    its value when the call succeeds. *)
Definition shutdown (how : shut) (kernel : Z) (s : CoSocket) : bool * CoSocket :=
  let s := set_err 0 s in
  if negb (connected s && negb (closed s)) ||
     (match how with SHUT_RD => shutdown_read s | SHUT_WR => shutdown_write s | SHUT_RDWR => false end)
  then (false, set_err ENOTCONN s)
  else if (kernel =? 0) || (kernel =? ENOTCONN) then
    let s := with_errors s kernel (errCode s) in
    let how := if kernel =? ENOTCONN then SHUT_RDWR else how in
    let r := match how with SHUT_WR => shutdown_read s | _ => true end in
    let w := match how with SHUT_RD => shutdown_write s | _ => true end in
    (true, with_shutdown s (if r && w then false else connected s) r w)
  else (false, set_err kernel s).

(** [Socket::cancel]: the coroutine that is resumed. *)
Definition cancel (rd : bool) (s : CoSocket) : option Z * CoSocket :=
  match (if rd then read_co s else write_co s) with
  | Some c => (Some c, set_err ECANCELED s)
  | None => (None, s)
  end.

(** [Socket::close]: whether the object can be freed, and the coroutines that are resumed,
    the writer first. *)
Definition close (kernel : Z) (s : CoSocket) : bool * list Z * CoSocket :=
  if sock_fd s <? 0 then (true, [], set_err EBADF s) else
  let s := if connected s then snd (shutdown SHUT_RDWR kernel s) else s in
  match option_list (write_co s) ++ option_list (read_co s) with
  | [] => (true, [], with_closed s (-1))
  | cs =>
    if closed s then (false, [], set_err EINPROGRESS s)
    else (false, cs, set_err ECONNRESET (with_closed s (sock_fd s)))
  end.

(** ** Reading from a calm stream *)

#[local] Ltac io :=
  unfold put_read_buffer, bind, ret, lift, modify, gets, call, finish;
  cbv beta iota; cbn [fst snd].

(** A stream of data and of moments without data, in any order. *)
Definition calm (l : list recv_event) : Prop :=
  Forall (λ e, e = WouldBlock ∨ ∃ d, e = Got d ∧ d ≠ []) l.

Definition weight (l : list recv_event) : nat := (length l + length (net_data l))%nat.

Lemma net_data_cons e l : net_data (e :: l) = event_data e ++ net_data l.
Proof. done. Qed.

Lemma weight_cons e l : weight (e :: l) = S (length (event_data e) + weight l).
Proof. unfold weight. rewrite net_data_cons, length_app. cbn [length]. lia. Qed.

(** A socket whose coroutine is resumed by events only, often enough for all that comes. *)
Record calm_socket (s : CoSocket) : Prop := {
  cs_calm : calm (rx s);
  cs_wakes : Forall (λ w, w = Event false) (wakes s);
  cs_enough : (weight (rx s) <= length (wakes s))%nat;
  cs_flags : event_hup s = false ∧ timer_ok s = true ∧ closed s = false ∧ read_co s = None }.

Lemma recv_calm l n :
  calm l → l ≠ [] → 0 < n →
  ∃ e l', recv l n = (e, l') ∧ calm l' ∧ (weight l' < weight l)%nat ∧
    (e = WouldBlock ∧ net_data l' = net_data l ∨
     ∃ d, e = Got d ∧ d ≠ [] ∧ zlen d <= n ∧ net_data l = d ++ net_data l').
Proof.
  intros Hc Hne Hn. unfold recv. rewrite (proj2 (Z.leb_gt n 0)) by lia.
  destruct l as [|e l]; [done|]. apply Forall_cons in Hc as [He Hc].
  destruct He as [->|(d & -> & Hd)].
  - exists WouldBlock, l. split; [done|]. split; [done|]. split; [rewrite weight_cons; lia|by left].
  - destruct (Z.leb_spec (zlen d) n) as [Hle|Hgt].
    + exists (Got d), l. split; [done|]. split; [done|]. split.
      { rewrite weight_cons. lia. }
      right. eauto 10.
    + exists (Got (take (Z.to_nat n) d)), (Got (drop (Z.to_nat n) d) :: l). unfold zlen in *.
      split; [done|]. split; [|split].
      * constructor; [|done]. right. eexists. split; [done|]. intros E.
        apply (f_equal length) in E. rewrite length_drop in E. cbn in E. lia.
      * rewrite !weight_cons. cbn [event_data]. rewrite length_drop. lia.
      * right. eexists. split; [done|]. split; [|split].
        -- intros E. apply (f_equal length) in E. rewrite length_take in E. cbn in E. lia.
        -- rewrite length_take. lia.
        -- rewrite !net_data_cons. cbn [event_data]. by rewrite (assoc_L (++)), take_drop.
Qed.

(** The fields that receiving leaves alone. *)
Definition same_rest (s s' : CoSocket) : Prop :=
  event_hup s' = event_hup s ∧ timer_ok s' = timer_ok s ∧ closed s' = closed s ∧
  read_co s' = read_co s ∧ read_buffer s' = read_buffer s ∧ wire s' = wire s ∧ tx s' = tx s.

Lemma rest_trans s1 s2 s3 : same_rest s1 s2 → same_rest s2 s3 → same_rest s1 s3.
Proof. intros (?&?&?&?&?&?&?) (?&?&?&?&?&?&?). split_and!; congruence. Qed.

Lemma calm_same s s' :
  calm_socket s → same_rest s s' → calm (rx s') → Forall (λ w, w = Event false) (wakes s') →
  (weight (rx s') <= length (wakes s'))%nat → calm_socket s'.
Proof.
  intros [_ _ _ (?&?&?&?)] (?&?&?&?&_) ???. constructor; try done. split_and!; congruence.
Qed.

(** One [recv] of the kernel. *)
Lemma sock_recv_calm s n :
  calm (rx s) → event_hup s = false → net_data (rx s) ≠ [] → 0 < n →
  ∃ r d s', sock_recv n s = ((r, d), s') ∧ same_rest s s' ∧ wakes s' = wakes s ∧ errCode s' = errCode s ∧
    calm (rx s') ∧ (weight (rx s') < weight (rx s))%nat ∧ net_data (rx s) = d ++ net_data (rx s') ∧
    (r = -1 ∧ d = [] ∧ errno s' = EAGAIN ∨ r = zlen d ∧ 0 < r <= n).
Proof.
  intros Hc Hh Hne Hn. unfold sock_recv.
  assert (rx s ≠ []) as Hr by (intros E; by rewrite E in Hne).
  destruct (recv_calm (rx s) n Hc Hr Hn)
    as (e & l' & -> & Hc' & Hlt & [[-> Hnd]|(d & -> & Hd & Hdn & Hnd)]).
  - cbn [recv_errno]. cbn [event_hup with_errors with_rx]. rewrite Hh, andb_false_r.
    do 3 eexists. split; [done|]. cbn. split_and!; try done. by left.
  - apply zlen_pos in Hd. do 3 eexists. split; [done|]. cbn. split_and!; try done. right. lia.
Qed.

(** Waiting for the next event. *)
Lemma wait_plain s :
  event_hup s = false → closed s = false → Forall (λ w, w = Event false) (wakes s) → wakes s ≠ [] →
  ∃ s', wait_event None tt s = Done (true, tt) s' ∧ same_rest s s' ∧ rx s' = rx s ∧
    wakes s = Event false :: wakes s' ∧ errCode s' = 0.
Proof.
  intros Hh Hc Hw Hne. unfold wait_event. destruct (wakes s) as [|w ws] eqn:E; [done|].
  apply Forall_cons in Hw as [-> _]. cbn [wait_loop]. unfold resumed. cbn. rewrite Hh, Hc.
  eexists. split; [done|]. unfold same_rest. cbn. by rewrite Hh, Hc.
Qed.

Lemma check_return_same r s : same_rest s (check_return_value r s) ∧
  rx (check_return_value r s) = rx s ∧ wakes (check_return_value r s) = wakes s.
Proof. unfold check_return_value, same_rest. destruct (0 <=? r), (errCode s =? 0); done. Qed.

(** [recv] returns data as soon as there is some. *)
Lemma recv_loop_data fuel n s :
  calm_socket s → net_data (rx s) ≠ [] → 0 < n → (weight (rx s) < fuel)%nat →
  ∃ d s', recv_loop fuel n s = Done (zlen d, d) s' ∧ 0 < zlen d <= n ∧
    net_data (rx s) = d ++ net_data (rx s') ∧ calm_socket s' ∧ same_rest s s'.
Proof.
  revert s. induction fuel as [|fuel IH]; intros s Hs Hne Hn Hf; [lia|].
  cbn [recv_loop]. io. pose proof Hs as [Hc Hw He (Hh & Ht & Hcl & Hrc)].
  destruct (sock_recv_calm s n Hc Hh Hne Hn)
    as (r & d & s1 & -> & Hsr & Hws & _ & Hc1 & Hlt & Hnd & [(-> & -> & Herr)|[-> Hd]]); cbn [fst snd].
  - rewrite (proj2 (Z.ltb_lt (-1) 0)) by lia. unfold would_wait. rewrite Herr.
    change (catch_error EAGAIN) with (Some OSW_WAIT). cbv beta iota.
    pose proof Hsr as (Eh & Et & Ec & Er & _). rewrite Et, Ht. cbn [andb Z.eqb Pos.eqb OSW_WAIT].
    destruct (wait_plain s1) as (s2 & -> & Hs12 & Hrx & Hws2 & _); [congruence|congruence|by rewrite Hws| |].
    { rewrite Hws. intros E. rewrite E in He. cbn in He. lia. }
    cbn [fst snd]. rewrite Hws in Hws2.
    destruct (IH s2) as (d & s' & -> & Hd & Hnd' & Hs' & Hsr').
    + apply (calm_same s); [done|by eapply rest_trans|by rewrite Hrx| |].
      * rewrite Hws2 in Hw. by apply Forall_cons in Hw as [_ ?].
      * rewrite Hws2 in He. cbn in He. rewrite Hrx. lia.
    + rewrite Hrx. by rewrite Hnd in Hne.
    + done.
    + rewrite Hrx. lia.
    + exists d, s'. split; [done|]. split; [done|]. split; [by rewrite Hnd, <- Hnd', Hrx|].
      split; [done|]. eapply rest_trans; [|done]. by eapply rest_trans.
  - rewrite (proj2 (Z.ltb_ge _ 0)) by lia. unfold finish.
    destruct (check_return_same (zlen d) s1) as (Hsr' & Hrx' & Hws').
    exists d, (check_return_value (zlen d) s1). split; [done|]. split; [done|].
    rewrite Hrx'. split; [done|].
    assert (same_rest s (check_return_value (zlen d) s1)) as Hall by (by eapply rest_trans).
    split; [|done]. eapply calm_same; [done|done|by rewrite Hrx'|by rewrite Hws', Hws|].
    rewrite Hrx', Hws', Hws. lia.
Qed.

Lemma net_data_nonempty l : net_data l ≠ [] → (0 < weight l)%nat.
Proof. unfold weight. destruct l; cbn; [done|lia]. Qed.

(** The barrier collects what is missing. *)
Lemma barrier_collects n ws : ∀ s r got,
  calm (rx s) → Forall (λ w, w = Event false) ws → (weight (rx s) <= length ws)%nat →
  event_hup s = false → timer_ok s = true → closed s = false → read_co s = None →
  zlen got < n <= zlen got + zlen (net_data (rx s)) →
  ∃ r' more s', wait_loop (Some (recv_barrier n)) ws (r, got) s = Done (true, (r', got ++ more)) s' ∧
    0 < r' ∧ zlen (got ++ more) = n ∧ net_data (rx s) = more ++ net_data (rx s') ∧
    calm_socket s' ∧ same_rest s s'.
Proof.
  induction ws as [|w ws IH]; intros s r got Hc Hw He Hh Ht Hcl Hrc Hn;
    (assert (net_data (rx s) ≠ []) as Hne by (intros E; rewrite E, zlen_nil in Hn; lia)).
  { apply net_data_nonempty in Hne. cbn in He. lia. }
  apply Forall_cons in Hw as [-> Hw]. cbn [wait_loop]. cbn [length] in He.
  set (s0 := set_err 0 _).
  assert (same_rest s s0 ∧ rx s0 = rx s ∧ wakes s0 = ws ∧ event_hup s0 = false)
    as (Hs0 & Hrx0 & Hws0 & Hh0) by (unfold s0, same_rest; cbn; by rewrite Hh).
  destruct (sock_recv_calm s0 (n - zlen got))
    as (r1 & d & s1 & Hr1 & Hs1 & Hws1 & He1 & Hc1 & Hlt & Hnd & Hcase); [by rewrite Hrx0|done|by rewrite Hrx0|lia|].
  change (errCode s0) with 0 in He1.
  rewrite Hrx0 in Hlt, Hnd. pose proof (rest_trans _ _ _ Hs0 Hs1) as Hs01.
  pose proof Hs01 as (Eh & Et & Ec & Er & _). unfold recv_barrier at 1. cbn [snd]. rewrite Hr1.
  destruct Hcase as [(-> & -> & Herr)|[-> Hd]].
  - rewrite (proj2 (Z.ltb_lt (-1) 0)), Herr by lia. change (catch_error EAGAIN) with (Some OSW_WAIT).
    cbn [mbind option_bind]. rewrite Eh, Hh. cbn [andb negb Z.eqb OSW_WAIT Pos.eqb].
    cbn [Datatypes.app] in Hnd.
    destruct (IH s1 (-1) got) as (r' & more & s' & -> & ? & ? & Hnd' & ? & ?); try congruence; try lia.
    exists r', more, s'. split_and!; try done; [by rewrite Hnd|by eapply rest_trans].
  - rewrite (proj2 (Z.ltb_ge (zlen d) 0)), (proj2 (Z.ltb_lt 0 (zlen d))) by lia.
    rewrite zlen_app. destruct (Z.ltb_spec (zlen got + zlen d) n) as [Hmore|Hdone].
    + rewrite Eh, Hh. cbn [andb negb].
      destruct (IH s1 (zlen d) (got ++ d)) as (r' & more & s' & -> & ? & Hl & Hnd' & ? & ?);
        try congruence; try lia; [rewrite zlen_app; rewrite Hnd, zlen_app in Hn; lia|].
      exists r', (d ++ more), s'. rewrite Hnd, Hnd', !(assoc_L (++)).
      split_and!; try done. by eapply rest_trans.
    + cbn [andb]. unfold resumed. rewrite Ec, Hcl, He1. cbn [negb andb Z.eqb].
      exists (zlen d), d, s1. split; [done|]. rewrite zlen_app.
      split_and!; try done; try lia. constructor; [done|by rewrite Hws1, Hws0| |split_and!; congruence].
      rewrite Hws1, Hws0. lia.
Qed.

Lemma available_calm s : calm_socket s → is_available true false s = Done true s.
Proof.
  intros [_ _ _ (_ & _ & Hc & Hr)]. unfold is_available. rewrite Hr, Hc. by rewrite bool_decide_eq_false_2 by (by intros [??]).
Qed.

Lemma co_recv_data n s :
  calm_socket s → net_data (rx s) ≠ [] → 0 < n →
  ∃ d s', co_recv n s = Done (zlen d, d) s' ∧ 0 < zlen d <= n ∧
    net_data (rx s) = d ++ net_data (rx s') ∧ calm_socket s' ∧ same_rest s s'.
Proof.
  intros Hs Hne Hn. unfold co_recv. io. rewrite (available_calm s Hs).
  apply recv_loop_data; try done. pose proof (cs_enough _ Hs). lia.
Qed.

(** [recv_all] collects exactly [n] bytes of the stream. *)
Lemma recv_all_data n s :
  calm_socket s → 0 < n <= zlen (net_data (rx s)) →
  ∃ d s', recv_all n s = Done (n, d) s' ∧ zlen d = n ∧
    net_data (rx s) = d ++ net_data (rx s') ∧ calm_socket s' ∧ same_rest s s'.
Proof.
  intros Hs Hn. unfold recv_all. io. rewrite (available_calm s Hs). cbn [negb].
  pose proof Hs as [Hc Hw He (Hh & Ht & Hcl & Hrc)].
  assert (net_data (rx s) ≠ []) as Hne by (intros E; rewrite E in Hn; unfold zlen in Hn; cbn in Hn; lia).
  destruct (sock_recv_calm s n Hc Hh Hne ltac:(lia))
    as (r & d & s1 & -> & Hsr & Hws & _ & Hc1 & Hlt & Hnd & Hcase); cbn [fst snd].
  pose proof Hsr as (Eh & Et & Ec & Er & _).
  assert (calm_socket s1) as Hs1 by (apply (calm_same s); try done; rewrite Hws; [done|lia]).
  assert (r = n ∨ r ≠ n ∧ r ≠ 0 ∧ zlen d < n ∧ failed_for_good r s1 = Done false s1) as [->|(Hr1 & Hr2 & Hdn & Hbad)].
  { unfold failed_for_good. destruct Hcase as [(-> & -> & ->)|[-> ?]].
    - right. change (zlen (@nil Z)) with 0. split_and!; try lia. done.
    - destruct (decide (zlen d = n)); [by left|right]. split_and!; try lia.
      by rewrite (proj2 (Z.ltb_ge _ _)) by lia. }
  - rewrite Z.eqb_refl, orb_true_r. exists d, s1. destruct Hcase as [(? & _)|[? _]]; [lia|]. by split_and!.
  - rewrite (proj2 (Z.eqb_neq r 0)), (proj2 (Z.eqb_neq r n)) by done. cbn [orb]. rewrite Hbad.
    unfold wait_all. io. rewrite Et, Ht. unfold wait_event.
    destruct (barrier_collects n (wakes s1) (set_err 0 s1) (-1) d)
      as (r' & more & s' & Hwl & Hr' & Hl & Hnd' & Hs' & Hsr');
      [exact Hc1|by rewrite Hws|cbn [rx set_err with_errors]; rewrite Hws; lia|cbn; congruence..| |].
    { cbn [rx set_err with_errors]. rewrite Hnd, zlen_app in Hn. lia. }
    assert (match wakes s1 with
      | AddFailed e :: ws => Done (false, (-1, d)) (set_err e (with_wakes s1 ws (event_hup s1)))
      | ws => wait_loop (Some (recv_barrier n)) ws (-1, d) (set_err 0 s1)
      end = Done (true, (r', d ++ more)) s') as ->.
    { rewrite <- Hwl. pose proof (cs_wakes _ Hs1) as HF. destruct (wakes s1) as [|w ws]; [done|].
      by apply Forall_cons in HF as [-> _]. }
    cbn [fst snd]. rewrite (proj2 (Z.ltb_ge r' 0)) by lia. cbn [andb].
    destruct (check_return_same r' s') as (Hsr2 & Hrx2 & Hws2).
    exists (d ++ more), (check_return_value r' s'). rewrite Hl, Hrx2. cbn [rx set_err with_errors] in Hnd'.
    split_and!; try done.
    + by rewrite Hnd, Hnd', (assoc_L (++)).
    + apply (calm_same s'); [done|done|rewrite Hrx2; apply Hs'|rewrite Hws2; apply Hs'|rewrite Hrx2, Hws2; apply Hs'].
    + eapply rest_trans; [done|]. eapply rest_trans; [exact Hsr'|done].
Qed.

(** ** Packets by length *)

Lemma calm_buffers s b w : calm_socket s → calm_socket (with_buffers s b w).
Proof. intros [???(?&?&?&?)]. by constructor. Qed.

Lemma same_rest_buffer s s' : same_rest s s' → read_buffer s' = read_buffer s.
Proof. by intros (_&_&_&_&?&_). Qed.

Lemma recv_into_data b n s :
  calm_socket s → wf b → 0 < n → s_length b + n <= s_size b →
  net_data (rx s) ≠ [] →
  ∃ d b' s', recv_into b n s = Done (zlen d, b') s' ∧ 0 < zlen d <= n ∧ wf b' ∧
    contents b' = contents b ++ d ∧ s_offset b' = s_offset b ∧ s_size b' = s_size b ∧
    s_length b' = s_length b + zlen d ∧ read_buffer s' = Some b' ∧
    net_data (rx s) = d ++ net_data (rx s') ∧ calm_socket s'.
Proof.
  intros Hs Hw Hn Hsz Hne. unfold recv_into. io.
  destruct (co_recv_data n s Hs Hne Hn) as (d & s1 & -> & Hd & Hnd & Hs1 & Hsr).
  cbn [fst snd]. rewrite (proj2 (Z.leb_gt (zlen d) 0)) by lia.
  destruct (received_spec b d Hw ltac:(lia)) as (b' & -> & Hw' & Hc' & Ho' & Hz' & Hl').
  exists d, b'. eexists. split; [done|]. split_and!; try done; try lia. by apply calm_buffers.
Qed.

Section Packets.
Variable fresh : nat → bytes.
Hypothesis fresh_length : ∀ n, length (fresh n) = n.
Variable p : Protocol.
Variable tot : bytes → Z.
Let hdr : Z := package_length_offset p + package_length_size p.
Variable glen : bytes → option (Z * Z).
Hypothesis Hhdr : 0 < hdr <= OSW_BUFFER_SIZE_BIG.
Hypothesis Hsize : 0 < package_length_size p.
Hypothesis Hmax : package_max_length p < 2 ^ 31.
Hypothesis Hglen : ∀ s, glen s = Some (if zlen s <? hdr then 0 else announced p tot s, 0).

(** The bytes that were read ahead of the packet of the last call. *)
Definition unread (s : CoSocket) : bytes :=
  match read_buffer s with None => [] | Some b => drop (Z.to_nat (s_offset b)) (contents b) end.

Definition buffer_ok (s : CoSocket) : Prop :=
  match read_buffer s with
  | None => True
  | Some b => wf b ∧ 0 <= s_offset b <= s_length b ∧ OSW_BUFFER_SIZE_BIG <= s_size b
  end.

Definition stream (s : CoSocket) : bytes := unread s ++ net_data (rx s).

(** The packet that a call leaves at the front of the read buffer. *)
Definition has_packet (s : CoSocket) (pk : bytes) : Prop :=
  ∃ b, read_buffer s = Some b ∧ s_offset b = zlen pk ∧ take (length pk) (contents b) = pk ∧
    wf b ∧ s_offset b <= s_length b ∧ OSW_BUFFER_SIZE_BIG <= s_size b.

Lemma frames_cons s pk ps r :
  frames p tot s (pk :: ps) r →
  hdr <= zlen s ∧ 0 < announced p tot s <= package_max_length p ∧ announced p tot s <= zlen s ∧
  pk = take (Z.to_nat (announced p tot s)) s ∧ frames p tot (drop (Z.to_nat (announced p tot s)) s) ps r.
Proof. unfold hdr. inversion 1; subst. split_and!; (done || lia). Qed.

(** From a complete header on. *)
Lemma get_length_packet fuel b s ps pk r h :
  calm_socket s → read_buffer s = Some b → wf b → OSW_BUFFER_SIZE_BIG <= s_size b →
  hdr <= s_length b → frames p tot (contents b ++ net_data (rx s)) (pk :: ps) r →
  ∃ s', packet_loop fresh p glen (S fuel) _get_length h s = Done (zlen pk) s' ∧
    has_packet s' pk ∧ calm_socket s' ∧ frames p tot (stream s') ps r.
Proof.
  intros Hs Hb Hw Hsz Hhl Hf. pose proof (contents_zlen b Hw) as Hcz.
  cbn [packet_loop]. io. unfold get_read_buffer at 1. rewrite Hb. cbv beta iota. rewrite Hglen.
  rewrite (proj2 (Z.ltb_ge (zlen (contents b)) hdr)) by lia. cbv beta iota.
  apply frames_cons in Hf as (_ & Ha & Hle & Hpk & Hf).
  rewrite announced_app in * by (fold hdr; lia). set (n := announced p tot (contents b)) in *.
  assert (zlen pk = n) as Hpn by (rewrite Hpk; unfold zlen in *; rewrite length_take; lia).
  assert (length pk = Z.to_nat n) as Hpl by (unfold zlen in Hpn; lia).
  rewrite (proj2 (Z.ltb_ge n 0)), (proj2 (Z.eqb_neq n 0)), (proj2 (Z.ltb_ge _ n)) by lia.
  set (b1 := with_offset b n). set (s1 := with_buffers s (Some b1) (write_buffer s)).
  assert (wf b1 ∧ contents b1 = contents b) as [Hw1 Hc1].
  { split; [|done]. destruct Hw as (?&?&?&?). unfold b1, wf. cbn.
    unfold OSW_BUFFER_SIZE_BIG in *. split_and!; try done; lia. }
  assert (calm_socket s1) as Hs1 by (by apply calm_buffers).
  change (s_length b1) with (s_length b). destruct (Z.leb_spec n (s_length b)) as [Hin|Hout].
  - exists s1. rewrite Hpn. split; [done|].
    assert (take (length pk) (contents b) = pk) as Htk.
    { rewrite Hpl, Hpk. symmetry. apply take_app_le. unfold zlen in *. lia. }
    split; [exists b1; cbn; split_and!; try done; lia|]. split; [done|].
    unfold stream, unread. cbn [read_buffer s1 with_buffers rx]. rewrite Hc1. cbn [b1 with_offset s_offset].
    rewrite drop_app_le in Hf by (unfold zlen in *; lia). done.
  - (* the rest of the packet *)
    assert (∃ b2, (if s_size b1 <? n then extend fresh b1 n else Some b1) = Some b2 ∧ wf b2 ∧
      contents b2 = contents b ∧ s_offset b2 = n ∧ s_length b2 = s_length b ∧ n <= s_size b2 ∧
      OSW_BUFFER_SIZE_BIG <= s_size b2) as (b2 & -> & Hw2 & Hc2 & Ho2 & Hl2 & Hn2 & Hz2).
    { destruct (Z.ltb_spec (s_size b1) n) as [Hlt|]; [|exists b1; split_and!; (done || lia)].
      unfold extend. rewrite (proj2 (Z.ltb_lt _ _)) by done.
      destruct (reserve_spec fresh fresh_length b1 n) as (?&?&?&?&?); [done|cbn; lia|lia|].
      eexists. split; [done|]. change (s_size b) with (s_size b1) in Hsz. split_and!; (done || lia || congruence). }
    cbv beta iota. set (s2 := with_buffers s1 (Some b2) (write_buffer s1)).
    assert (calm_socket s2) as Hs2 by (by apply calm_buffers).
    destruct (recv_all_data (n - s_length b2) s2) as (d & s3 & -> & Hd & Hnd & Hs3 & Hsr); [done|..].
    { cbn [s2 s1 with_buffers rx]. rewrite zlen_app in Hle. lia. }
    cbn [fst snd]. rewrite (proj2 (Z.ltb_lt 0 _)) by lia.
    destruct (received_spec b2 d Hw2 ltac:(lia)) as (b3 & -> & Hw3 & Hc3 & Ho3 & Hz3 & Hl3).
    assert (contents b3 = pk) as Hpk3.
    { rewrite Hc3, Hc2, Hpk. change (rx s2) with (rx s) in Hnd. rewrite Hnd, (assoc_L (++)).
      rewrite take_app_le by (rewrite length_app; unfold zlen in *; lia).
      symmetry. apply take_ge. rewrite length_app. unfold zlen in *. lia. }
    rewrite Hl3, Hd. replace (s_length b2 + (n - s_length b2)) with n by lia. rewrite Z.eqb_refl. cbn [negb].
    eexists. rewrite Hpn. split; [done|]. split; [|split; [by apply calm_buffers|]].
    + exists b3. split; [done|]. rewrite Ho3, Hpk3, take_ge by lia. split_and!; (done || lia).
    + unfold stream, unread. cbn [read_buffer with_buffers rx]. rewrite Ho3, Ho2, Hpk3, drop_ge by lia.
      cbn [Datatypes.app]. change (rx s2) with (rx s) in Hnd. rewrite Hnd, (assoc_L (++)), <- Hc2, <- Hc3, Hpk3 in Hf.
      by rewrite drop_app_length' in Hf by lia.
Qed.

(** Waiting for the header first. *)
Lemma recv_header_packet fuel b s ps pk r :
  calm_socket s → read_buffer s = Some b → wf b → OSW_BUFFER_SIZE_BIG <= s_size b →
  s_length b < hdr → (2 * Z.to_nat (hdr - s_length b) < fuel)%nat →
  frames p tot (contents b ++ net_data (rx s)) (pk :: ps) r →
  ∃ s', packet_loop fresh p glen fuel _recv_header hdr s = Done (zlen pk) s' ∧
    has_packet s' pk ∧ calm_socket s' ∧ frames p tot (stream s') ps r.
Proof.
  revert b s. induction fuel as [fuel IH] using lt_wf_ind. intros b s Hs Hb Hw Hsz Hlt Hfu Hf.
  destruct fuel as [|[|fuel]]; [lia..|]. set (F := S fuel). cbn [packet_loop]. io.
  unfold get_read_buffer at 1. rewrite Hb. cbv beta iota.
  pose proof Hw as (Hl0 & _). pose proof (contents_zlen b Hw) as Hcz.
  pose proof (frames_cons _ _ _ _ Hf) as (Hh & _). rewrite zlen_app in Hh.
  unfold OSW_BUFFER_SIZE_BIG in *. rewrite u64_small by lia.
  destruct (recv_into_data b (hdr - s_length b) s) as
    (d & b' & s1 & -> & Hd & Hw' & Hc' & Ho' & Hz' & Hl' & Hb1 & Hnd & Hs1); try done; try lia.
  { intros E. rewrite E in Hh. unfold zlen at 2 in Hh. cbn in Hh. lia. }
  cbn [fst snd]. rewrite (proj2 (Z.leb_gt (zlen d) 0)) by lia.
  assert (frames p tot (contents b' ++ net_data (rx s1)) (pk :: ps) r) as Hf'
    by (by rewrite Hc', <- (assoc_L (++)), <- Hnd).
  destruct (decide (s_length b' < hdr)) as [Hshort|Hfull].
  - unfold F. cbn [packet_loop]. io. unfold get_read_buffer at 1. rewrite Hb1. cbv beta iota.
    rewrite Hglen, (contents_zlen b' Hw'), (proj2 (Z.ltb_lt (s_length b') hdr)) by done. cbv beta iota.
    rewrite (proj2 (Z.ltb_ge 0 0)), Z.eqb_refl by lia. cbn [negb Z.eqb].
    apply (IH fuel ltac:(lia) b'); try done; lia.
  - apply (get_length_packet fuel b'); try done; unfold OSW_BUFFER_SIZE_BIG; lia.
Qed.

(** The call up to the protocol: what was read ahead moves to the front of the buffer. *)
Lemma get_read_buffer_calm s : calm_socket s → buffer_ok s →
  ∃ b s', get_read_buffer fresh s = Done b s' ∧ read_buffer s' = Some b ∧ calm_socket s' ∧ rx s' = rx s ∧ wf b ∧
    0 <= s_offset b <= s_length b ∧ OSW_BUFFER_SIZE_BIG <= s_size b ∧
    drop (Z.to_nat (s_offset b)) (contents b) = unread s.
Proof using fresh_length.
  clear -fresh_length. intros Hs Hb. unfold get_read_buffer, buffer_ok, unread in *.
  destruct (read_buffer s) as [b|] eqn:E.
  - exists b, s. split_and!; try done; by apply Hb.
  - destruct (alloc_wf fresh fresh_length OSW_BUFFER_SIZE_BIG) as (Hwa & Hca & Hsa);
      [unfold OSW_BUFFER_SIZE_BIG; lia|]. do 2 eexists. split; [done|].
    unfold make_string. rewrite Hca. split_and!; try done; [by apply calm_buffers|cbn; lia..].
Qed.

Lemma recv_packet_opens fuel lc ec s :
  calm_socket s → buffer_ok s →
  ∃ b s1, recv_packet fresh p glen fuel lc ec s
      = bind (recv_packet_body fresh p glen fuel lc ec b) (recv_packet_end fresh) s1 ∧
    read_buffer s1 = Some b ∧ calm_socket s1 ∧ rx s1 = rx s ∧ wf b ∧ s_offset b = 0 ∧
    contents b = unread s ∧ OSW_BUFFER_SIZE_BIG <= s_size b.
Proof.
  intros Hs Hb. unfold recv_packet. io. rewrite (available_calm s Hs). cbn [negb].
  pose proof (cs_flags _ Hs) as (_ & Ht & _). rewrite Ht. cbn [negb].
  destruct (get_read_buffer_calm s Hs Hb) as (b0 & s0 & -> & _ & Hs0 & Hrx0 & Hw0 & Ho0 & Hz0 & Hu0).
  destruct (Z.ltb_spec 0 (s_offset b0)) as [Hpos|Hz].
  - destruct (reduce_spec b0 (s_offset b0) Hw0 ltac:(lia)) as (b1 & -> & ? & ? & ? & _ & ?).
    exists b1. eexists. split; [done|]. split_and!; try (done || lia || congruence). by apply calm_buffers.
  - assert (s_offset b0 = 0) as Hz0' by lia. exists b0. eexists. split; [done|].
    split_and!; try done; [by apply calm_buffers|]. by rewrite <- Hu0, Hz0', drop_0.
Qed.

(** One call returns the next packet of the stream. *)
Lemma recv_packet_length fuel s ps pk r :
  calm_socket s → buffer_ok s → (2 * Z.to_nat hdr + 1 < fuel)%nat →
  frames p tot (stream s) (pk :: ps) r →
  ∃ s', recv_packet fresh p glen fuel true false s = Done (zlen pk) s' ∧
    has_packet s' pk ∧ calm_socket s' ∧ frames p tot (stream s') ps r.
Proof.
  intros Hs Hb Hfu Hf.
  destruct (recv_packet_opens fuel true false s Hs Hb)
    as (b1 & s1 & -> & Hb1 & Hs1 & Hrx1 & Hw1 & _ & Hc1 & Hz1).
  assert (frames p tot (contents b1 ++ net_data (rx s1)) (pk :: ps) r) as Hf1
    by (by rewrite Hc1, Hrx1).
  unfold recv_packet_body, recv_packet_with_length_protocol. io. unfold get_read_buffer at 1.
  rewrite Hb1. cbv beta iota. change (package_length_offset p + package_length_size p) with hdr.
  pose proof Hhdr as Hh'. unfold OSW_BUFFER_SIZE_BIG in Hh'. rewrite (u32_small hdr) by lia.
  pose proof (frames_cons _ _ _ _ Hf1) as (Hh & Ha & Hle & Hpk & _).
  assert (0 < zlen pk) as Hpos by (rewrite Hpk; unfold zlen in *; rewrite length_take; lia).
  assert (∀ l, (if (0 <? s_length b1) && ((hdr <=? s_length b1) ||
        ((package_length_size p =? 0) && (package_length_type p =? 0))) then _get_length else _recv_header) = l →
    ∃ s', packet_loop fresh p glen fuel l hdr s1 = Done (zlen pk) s' ∧
      has_packet s' pk ∧ calm_socket s' ∧ frames p tot (stream s') ps r) as Hcase.
  { intros l <-. pose proof (contents_zlen b1 Hw1) as Hcz.
    destruct fuel as [|fuel]; [lia|]. destruct (Z.leb_spec hdr (s_length b1)) as [Hfull|Hshort].
    - rewrite (proj2 (Z.ltb_lt 0 (s_length b1))) by lia. cbn [andb orb].
      by apply (get_length_packet fuel b1).
    - rewrite (proj2 (Z.eqb_neq (package_length_size p) 0)) by lia. cbn [andb orb]. rewrite andb_false_r.
      apply (recv_header_packet (S fuel) b1); try done. pose proof Hw1 as (?&_). lia. }
  destruct (Hcase _ eq_refl) as (s' & -> & ? & ? & ?). unfold recv_packet_end. cbv beta iota.
  rewrite (proj2 (Z.leb_gt (zlen pk) 0)) by lia. by exists s'.
Qed.

(** The packets of [k] calls. *)
Fixpoint recv_packets (lc ec : bool) (fuel k : nat) : io (list bytes) :=
  match k with
  | O => ret []
  | S k =>
    let! n := recv_packet fresh p glen fuel lc ec in
    let! b := get_read_buffer fresh in
    let! d := lift (load (s_str b) 0 n) in
    let! ds := recv_packets lc ec fuel k in
    ret (d :: ds)
  end.

Lemma has_packet_load s pk :
  has_packet s pk → ∃ b, get_read_buffer fresh s = Done b s ∧ load (s_str b) 0 (zlen pk) = Some pk ∧
    buffer_ok s.
Proof using Type.
  clear -fresh. intros (b & Hb & Ho & Ht & Hw & Hl & Hz). exists b. unfold get_read_buffer. rewrite Hb.
  split; [done|]. zl_nonneg. pose proof Hw as (Hlen & Hsz & _). split.
  - rewrite load_Some by lia. f_equal. transitivity (take (length pk) (contents b)); [|done].
    change (Z.to_nat 0) with 0%nat. unfold contents, zlen in *.
    rewrite drop_0, take_take, Nat.min_l by lia. by rewrite Nat2Z.id.
  - unfold buffer_ok. rewrite Hb. split_and!; (done || lia).
Qed.

Lemma recv_packets_length fuel ps : ∀ s r,
  calm_socket s → buffer_ok s → (2 * Z.to_nat hdr + 1 < fuel)%nat →
  frames p tot (stream s) ps r →
  ∃ s', recv_packets true false fuel (length ps) s = Done ps s' ∧ calm_socket s' ∧ stream s' = r.
Proof.
  induction ps as [|pk ps IH]; intros s r Hs Hb Hfu Hf; cbn [recv_packets length].
  - exists s. split; [done|]. split; [done|]. apply frames_concat in Hf. by rewrite Hf.
  - io. destruct (recv_packet_length fuel s ps pk r Hs Hb Hfu Hf) as (s1 & -> & Hp1 & Hs1 & Hf1).
    destruct (has_packet_load s1 pk Hp1) as (b & -> & -> & Hb1). cbv beta iota.
    destruct (IH s1 r Hs1 Hb1 Hfu Hf1) as (s' & -> & ? & ?). by exists s'.
Qed.
End Packets.

(** [default_length_func] as the hook of a coroutine socket; it sets no [real_header_length]. *)
Definition default_length (p : Protocol) (d : bytes) : option (Z * Z) :=
  n ← default_length_func p None d; Some (n, 0).

(** C20: packets by length on a coroutine socket: if what was read ahead and what is still to
    come form the packages [ps] and an incomplete rest [r], then [length ps] calls of
    [recv_packet] return exactly [ps], in order, and leave [r], however the data is cut
    into chunks and however often the coroutine has to wait.  [2 * header + 2] rounds of
    the loop are enough for each call. *)
Theorem packets_by_length fresh p s ps r :
  (∀ n, length (fresh n) = n) → length_config p →
  package_length_offset p + package_length_size p <= OSW_BUFFER_SIZE_BIG →
  calm_socket s → buffer_ok s → frames p (default_total p) (stream s) ps r →
  ∃ s', recv_packets fresh p (default_length p) true false
      (2 * Z.to_nat (package_length_offset p + package_length_size p) + 2) (length ps) s = Done ps s' ∧
    stream s' = r.
Proof.
  intros Hfr Hp Hh Hs Hb Hf. pose proof Hp as (Ht & Ho & Hsz & Hmax). pose proof (type_size_pos _ Ht) as Hpos.
  destruct (recv_packets_length fresh Hfr p (default_total p) (default_length p)) with
    (fuel := (2 * Z.to_nat (package_length_offset p + package_length_size p) + 2)%nat)
    (ps := ps) (s := s) (r := r) as (s' & -> & _ & ?); try done; try lia.
  - intros d. unfold default_length. by rewrite (default_length_total p d Hp).
  - by exists s'.
Qed.

(** ** Packets by a delimiter *)

Section Delimited.
Variable fresh : nat → bytes.
Hypothesis fresh_length : ∀ n, length (fresh n) = n.
Variable p : Protocol.
Hypothesis Heof : 0 < zlen (package_eof p) <= OSW_BUFFER_SIZE_BIG.
Hypothesis Hmax : package_max_length p < 2 ^ 31.
Let d : bytes := package_eof p.

Lemma eof_nonempty : d ≠ [].
Proof. intros E. unfold d in E. rewrite E in Heof. unfold zlen in Heof. cbn in Heof. lia. Qed.

Lemma cuts_first s pk ps r :
  cuts d s (pk :: ps) r →
  ∃ i, occ d s i ∧ (∀ j, (j < i)%nat → ¬ occ d s j) ∧ pk = take (i + length d) s ∧
    length pk = (i + length d)%nat ∧ cuts d (drop (i + length d) s) ps r.
Proof.
  inversion 1 as [|s0 i ps0 r0 Ho Hm Hc]; subst. exists i. split_and!; try done.
  pose proof (occ_bound _ _ _ eof_nonempty Ho). rewrite length_take. lia.
Qed.

(** The end of the first packet lies behind data without a delimiter. *)
Lemma first_behind s t pk ps r :
  cuts d (s ++ t) (pk :: ps) r → (∀ j, ¬ occ d s j) → (length s < length pk)%nat ∧ t ≠ [].
Proof.
  intros (i & Ho & _ & _ & Hl & _)%cuts_first Hno.
  assert (¬ (i + length d <= length s)%nat) as Hout by (intros Hle; apply (Hno i); by apply occ_app_l in Ho).
  split; [lia|]. intros ->. rewrite app_nil_r in Ho. by apply (Hno i).
Qed.

Lemma eof_loop_packet fuel : ∀ find b s ps pk r,
  calm_socket s → read_buffer s = Some b → wf b → OSW_BUFFER_SIZE_BIG <= s_size b →
  (find = false → s_length b < s_size b ∧ ∀ j, ¬ occ d (contents b) j) →
  (2 * length (net_data (rx s)) + (if find then 1 else 0) < fuel)%nat →
  cuts d (contents b ++ net_data (rx s)) (pk :: ps) r → zlen pk <= package_max_length p →
  ∃ s', eof_loop fresh p fuel find s = Done (zlen pk) s' ∧
    has_packet s' pk ∧ calm_socket s' ∧ cuts d (stream s') ps r.
Proof.
  induction fuel as [|fuel IH]; intros find b s ps pk r Hs Hb Hw Hsz Hroom Hfu Hc Hpk; [lia|].
  cbn [eof_loop]. io. unfold get_read_buffer at 1. rewrite Hb. cbv beta iota.
  pose proof (contents_zlen b Hw) as Hcz. pose proof Hw as (Hl0 & Hz0 & _). destruct find; cbn [negb].
  - (* look for the delimiter *)
    unfold openswoole_strnpos. change (package_eof p) with d.
    destruct (strnstr_spec (contents b) d eof_nonempty) as ([q|] & -> & Hq);
      cbn [mbind option_bind default from_option id].
    + destruct Hq as (i & -> & Ho & Hm). rewrite (proj2 (Z.leb_le 0 (Z.of_nat i))) by lia.
      pose proof (occ_bound _ _ _ eof_nonempty Ho) as Hi.
      apply cuts_first in Hc as (i' & Ho' & Hm' & -> & Hl & Hc).
      assert (i' = i) as ->.
      { destruct (Nat.lt_trichotomy i' i) as [H|[->|H]]; [|done|].
        - destruct (Hm i' H). apply occ_app_l in Ho'; [done|lia].
        - destruct (Hm' i H). by apply occ_app_l. }
      rewrite take_app_le in * by done. rewrite drop_app_le in Hc by done.
      assert (zlen (take (i + length d) (contents b)) = Z.of_nat i + zlen d) as Hzl
        by (unfold zlen in *; lia).
      rewrite Hzl. eexists. split; [done|]. split; [|split; [by apply calm_buffers|]].
      * eexists. split; [done|]. cbn. rewrite Hzl, Hl. unfold zlen in *. split_and!; try (done || lia).
        destruct Hw as (?&?&?&?). unfold wf, zlen in *; cbn. unfold OSW_BUFFER_SIZE_BIG in Hsz. split_and!; (done || lia).
      * unfold stream, unread. cbn. unfold zlen. by rewrite <- Nat2Z.inj_add, Nat2Z.id.
    + rewrite (proj2 (Z.leb_gt 0 (-1))) by lia.
      destruct (first_behind _ _ _ _ _ Hc Hq) as [Hlt _]. unfold zlen in Hcz, Hpk.
      rewrite (proj2 (Z.eqb_neq (s_length b) _)) by lia.
      destruct (Z.eqb_spec (s_length b) (s_size b)) as [Efull|Hpart].
      * rewrite (proj2 (Z.ltb_lt _ _)) by lia. cbn [andb].
        set (n := Z.min _ _). unfold extend. rewrite (proj2 (Z.ltb_lt (s_size b) n)) by (unfold OSW_BUFFER_SIZE_BIG in *; lia).
        destruct (reserve_spec fresh fresh_length b n Hw) as (Hw' & Hc' & Ho' & Hl' & Hn');
          [unfold OSW_BUFFER_SIZE_BIG in *; lia..|].
        eapply IH; [by apply calm_buffers|done|done|unfold OSW_BUFFER_SIZE_BIG in *; lia| |cbn [rx with_buffers]; lia| |done].
        -- intros _. rewrite Hc'. unfold OSW_BUFFER_SIZE_BIG in *. split; [lia|done].
        -- by rewrite Hc'.
      * cbn [andb]. eapply (IH false b s); try done; [|lia]. intros _. split; [lia|done].
  - (* read more *)
    destruct (Hroom eq_refl) as [Hr Hno]. destruct (first_behind _ _ _ _ _ Hc Hno) as [_ Hne].
    destruct (recv_into_data b (Z.min (s_size b - s_length b) OSW_BUFFER_SIZE_BIG) s) as
      (x & b' & s1 & -> & Hd & Hw' & Hc' & Ho' & Hz' & Hl' & Hb1 & Hnd & Hs1); try done;
      [unfold OSW_BUFFER_SIZE_BIG; lia..|].
    cbn [fst snd]. rewrite (proj2 (Z.leb_gt (zlen x) 0)) by lia.
    assert (length (net_data (rx s)) = (length x + length (net_data (rx s1)))%nat) as Hnl
      by (by rewrite Hnd, length_app).
    apply (IH _ b'); try done; [lia| | |by rewrite Hc', <- (assoc_L (++)), <- Hnd].
    + destruct (Z.ltb_spec (s_length b') (zlen (package_eof p))) as [Hlt|]; [|done].
      intros _. split; [lia|]. intros j Hj%occ_bound; [|apply eof_nonempty].
      pose proof (contents_zlen b' Hw'). unfold zlen, d in *. lia.
    + unfold zlen in Hd. destruct (negb _); lia.
Qed.

(** One call returns the next packet. *)
Lemma recv_packet_eof glen fuel s ps pk r :
  calm_socket s → buffer_ok s → (2 * length (stream s) + 1 < fuel)%nat →
  cuts d (stream s) (pk :: ps) r → zlen pk <= package_max_length p →
  ∃ s', recv_packet fresh p glen fuel false true s = Done (zlen pk) s' ∧
    has_packet s' pk ∧ calm_socket s' ∧ cuts d (stream s') ps r.
Proof.
  intros Hs Hb Hfu Hc Hpk.
  destruct (recv_packet_opens fresh fresh_length p glen fuel false true s Hs Hb)
    as (b1 & s1 & -> & Hb1 & Hs1 & Hrx1 & Hw1 & _ & Hc1 & Hz1).
  unfold recv_packet_body, recv_packet_with_eof_protocol. io. unfold get_read_buffer at 1.
  rewrite Hb1. cbv beta iota.
  destruct (eof_loop_packet fuel (0 <? s_length b1) b1 s1 ps pk r) as (s' & -> & ? & ? & ?); try done.
  - intros Hl%Z.ltb_ge. pose proof Hw1 as (? & _). unfold OSW_BUFFER_SIZE_BIG in *. split; [lia|].
    intros j Hj%occ_bound; [|apply eof_nonempty]. pose proof (contents_zlen b1 Hw1). unfold zlen, d in *. lia.
  - unfold stream in Hfu. rewrite length_app in Hfu. rewrite Hrx1. destruct (0 <? s_length b1); lia.
  - by rewrite Hc1, Hrx1.
  - apply cuts_first in Hc as (i & _ & _ & _ & Hl & _). unfold recv_packet_end. cbv beta iota.
    rewrite (proj2 (Z.leb_gt (zlen pk) 0)) by (unfold zlen, d in *; lia). by exists s'.
Qed.

Lemma recv_packets_eof glen fuel ps : ∀ s r,
  calm_socket s → buffer_ok s → (2 * length (stream s) + 1 < fuel)%nat →
  cuts d (stream s) ps r → Forall (λ pk, zlen pk <= package_max_length p) ps →
  ∃ s', recv_packets fresh p glen false true fuel (length ps) s = Done ps s' ∧ stream s' = r.
Proof.
  induction ps as [|pk ps IH]; intros s r Hs Hb Hfu Hc Hall; cbn [recv_packets length].
  - exists s. split; [done|]. apply cuts_concat in Hc. by rewrite Hc.
  - apply Forall_cons in Hall as [Hpk Hall].
    io. destruct (recv_packet_eof glen fuel s ps pk r Hs Hb Hfu Hc Hpk) as (s1 & -> & Hp1 & Hs1 & Hc1).
    destruct (has_packet_load fresh s1 pk Hp1) as (b & -> & -> & Hb1). cbv beta iota.
    destruct (IH s1 r Hs1 Hb1) as (s' & -> & ?); try done.
    + pose proof (cuts_concat _ _ _ _ Hc) as E0. pose proof (cuts_concat _ _ _ _ Hc1) as E1.
      rewrite E0 in Hfu. rewrite E1. cbn [concat] in Hfu. rewrite !length_app in *. lia.
    + by exists s'.
Qed.
End Delimited.

(** The same for packets that end with a delimiter, none longer than
    [package_max_length]; [2 * stream + 2] rounds are enough for each call. *)
Theorem packets_by_eof fresh p glen s ps r :
  (∀ n, length (fresh n) = n) → 0 < zlen (package_eof p) <= 8 → package_max_length p < 2 ^ 31 →
  calm_socket s → buffer_ok s → cuts (package_eof p) (stream s) ps r →
  Forall (λ pk, zlen pk <= package_max_length p) ps →
  ∃ s', recv_packets fresh p glen false true (2 * length (stream s) + 2) (length ps) s = Done ps s' ∧
    stream s' = r.
Proof.
  intros Hfr He Hm Hs Hb Hc Hall. apply (recv_packets_eof fresh Hfr p); try done; try lia.
  unfold OSW_BUFFER_SIZE_BIG. lia.
Qed.

(** ** Writing whatever the kernel answers *)

(** A property of the socket and of the barrier's data that waiting keeps. *)
Section WaitInvariant.
Context {X : Type} (I : X → CoSocket → Prop).
Variable barrier : X → CoSocket → option (bool * X * CoSocket).
Hypothesis I_same : ∀ x s s', I x s → wire s' = wire s → tx s' = tx s → I x s'.
Hypothesis I_barrier : ∀ x s, I x s → ∃ again x' s', barrier x s = Some (again, x', s') ∧ I x' s'.

Lemma wait_loop_inv ws : ∀ x s, I x s →
  match wait_loop (Some barrier) ws x s with
  | Done (_, x') s' => I x' s' | Waiting s' => ∃ x', I x' s' | Fault => False
  end.
Proof.
  induction ws as [|w ws IH]; intros x s Hi; cbn [wait_loop].
  { exists x. by eapply I_same. }
  destruct w; unfold resumed; try (by eapply I_same); [|apply IH; by eapply I_same].
  set (s0 := set_err 0 _). destruct (I_barrier x s0) as (again & x' & s' & -> & Hi'); [by eapply I_same|].
  destruct (again && negb (event_hup s')); [by apply IH|done].
Qed.

Lemma wait_event_inv x s : I x s →
  match wait_event (Some barrier) x s with
  | Done (_, x') s' => I x' s' | Waiting s' => ∃ x', I x' s' | Fault => False
  end.
Proof.
  intros Hi. unfold wait_event.
  pose proof (wait_loop_inv (wakes s) x (set_err 0 s) ltac:(by eapply I_same)) as Hl.
  destruct (wakes s) as [|[] ws]; try exact Hl. by eapply I_same.
Qed.

Lemma wait_all_inv retval x s : I x s →
  match wait_all barrier retval x s with
  | Done x' s' => I x' s' | Waiting s' => ∃ x', I x' s' | Fault => False
  end.
Proof.
  intros Hi. unfold wait_all. io. destruct (timer_ok s); [|done].
  pose proof (wait_event_inv x s Hi) as Hw. destruct (wait_event _ x s) as [[ok x'] s'|s'|]; try done.
  cbn [fst snd]. destruct ok; [|done]. unfold check_return_value.
  destruct (0 <=? retval x'), (errCode s' =? 0); try done; by eapply I_same.
Qed.
End WaitInvariant.

(** The kernel reports every error but a bad address. *)
Definition sane (t : list send_answer) : Prop := Forall (λ a, a ≠ SendError EFAULT) t.

(** The first [k] bytes of the data are on the wire, and no others. *)
Definition sent (w data : bytes) (k : Z) (s : CoSocket) : Prop :=
  wire s = w ++ take (Z.to_nat k) data ∧ 0 <= k <= zlen data ∧ sane (tx s).

Lemma catch_error_sane e : e ≠ EFAULT → ∃ c, catch_error e = Some c.
Proof.
  intros He. unfold catch_error. rewrite (proj2 (Z.eqb_neq e EFAULT)) by done.
  repeat case_match; eauto.
Qed.

Lemma sock_send_sent w data k s :
  sent w data k s →
  ∃ r s', sock_send (drop (Z.to_nat k) data) s = (r, s') ∧
    (r = -1 ∧ sent w data k s' ∧ errno s' ≠ EFAULT ∨ 0 <= r ∧ sent w data (k + r) s').
Proof.
  intros (Hw & Hk & Ht). unfold sock_send. set (rest := drop _ _).
  assert (zlen rest = zlen data - k) as Hr by (unfold rest, zlen in *; rewrite length_drop; lia).
  remember (tx s) as t eqn:E. clear E. revert s Hw. induction t as [|a t IH]; intros s Hw; cbn [send_answers].
  { do 2 eexists. split; [done|]. left. by split_and!. }
  apply Forall_cons in Ht as [Ha Ht]. destruct a as [n|e].
  - do 2 eexists. split; [done|]. right. split; [lia|]. unfold sent. cbn. split_and!; try done; try lia.
    rewrite Hw, <- (assoc_L (++)). f_equal. rewrite Z2Nat.inj_add by lia. apply take_take_drop.
  - destruct (e =? EINTR); [by apply IH|].
    do 2 eexists. split; [done|]. left. split_and!; try done. cbn. congruence.
Qed.

Lemma send_barrier_sent w data x s :
  sent w data (snd x) s →
  ∃ again x' s', send_barrier data x s = Some (again, x', s') ∧ sent w data (snd x') s'.
Proof.
  intros Hs. unfold send_barrier. destruct (sock_send_sent _ _ _ _ Hs) as (r & s' & -> & [(-> & Hs' & He)|[Hr Hs']]).
  - rewrite (proj2 (Z.ltb_lt (-1) 0)) by lia. destruct (catch_error_sane _ He) as [c ->].
    do 3 eexists. by split.
  - rewrite (proj2 (Z.ltb_ge r 0)) by lia. destruct (Z.ltb_spec 0 r); do 3 eexists; (split; [done|]); [done|].
    replace r with 0 in Hs' by lia. by rewrite Z.add_0_r in Hs'.
Qed.

(** C31: [send_all] is exact: whatever the kernel answers, but for a bad address, on which the
    process aborts, and however the wait ends, the bytes
    on the wire are a prefix of the data, and the return value is its length; an error is
    returned only when nothing was written. *)
Theorem send_all_exact data s :
  write_co s = None → sane (tx s) →
  match send_all data s with
  | Done r s' => -1 <= r <= zlen data ∧ wire s' = wire s ++ take (Z.to_nat r) data
  | Waiting s' => ∃ k, 0 <= k <= zlen data ∧ wire s' = wire s ++ take (Z.to_nat k) data
  | Fault => False
  end.
Proof.
  intros Hco Ht. pose proof (zlen_nonneg data) as Hz. unfold send_all. io. unfold is_available. rewrite Hco. cbn [andb orb].
  rewrite bool_decide_eq_false_2 by (by intros [??]).
  destruct (closed s); cbn [negb]; [rewrite app_nil_r; split; [lia|done]|].
  change (sock_send data s) with (sock_send (drop (Z.to_nat 0) data) s).
  destruct (sock_send_sent (wire s) data 0 s) as (r & s1 & -> & Hr).
  { split_and!; try done; try lia. by rewrite app_nil_r. }
  assert (∃ k, sent (wire s) data k s1 ∧ k = Z.max 0 r ∧ -1 <= r) as (k & Hs1 & Hk & Hr1).
  { destruct Hr as [(-> & ? & _)|[? ?]]; [by exists 0|exists r; split_and!; (done || lia)]. }
  assert (-1 <= r <= zlen data ∧ wire s1 = wire s ++ take (Z.to_nat r) data) as Hfirst.
  { destruct Hs1 as (Hw & ? & _). split; [lia|]. rewrite Hw. do 2 f_equal. lia. }
  destruct ((r =? 0) || (r =? zlen data)); [done|].
  assert (failed_for_good r s1 = Done false s1 ∨ ∃ s2, failed_for_good r s1 = Done true s2 ∧ wire s2 = wire s1)
    as [->|(s2 & -> & Hw2)]; [| |by rewrite Hw2].
  { unfold failed_for_good. destruct Hr as [(-> & _ & He)|[? _]].
    - cbn [Z.ltb Z.compare]. destruct (catch_error_sane _ He) as [c ->]. destruct (c =? OSW_WAIT); eauto.
    - rewrite (proj2 (Z.ltb_ge r 0)) by lia. eauto. }
  pose proof (wait_all_inv (λ x, sent (wire s) data (snd x)) (send_barrier data)) as Hinv.
  specialize (Hinv ltac:(intros ??? (?&?&?) ? Et; unfold sent; rewrite Et; split_and!; congruence || lia)
    (send_barrier_sent (wire s) data) fst (-1, if 0 <? r then r else 0) s1).
  destruct (wait_all _ _ _ s1) as [[rv tot] s'|s'|]; cbn [fst snd] in *.
  - destruct Hinv as (Hw' & Hb & _).
    { destruct (Z.ltb_spec 0 r); [replace r with k by lia|replace 0 with k by lia]; done. }
    destruct (Z.eqb_spec tot 0) as [->|]; [|rewrite andb_false_r; split; [lia|done]].
    destruct (rv <? 0); cbn [andb]; split; (done || lia).
  - destruct Hinv as (x' & Hw' & ? & _); [|by eauto].
    destruct (Z.ltb_spec 0 r); [replace r with k by lia|replace 0 with k by lia]; done.
  - apply Hinv. destruct (Z.ltb_spec 0 r); [replace r with k by lia|replace 0 with k by lia]; done.
Qed.

(** ** Concrete runs *)

(** A connected socket with the given input, answers and events. *)
Definition demo (r : list recv_event) (t : list send_answer) (ws : list wake) : CoSocket :=
  MkCo r t [] ws true false 0 0 false 5 true false false None None false None [].

Lemma demo_calm r n :
  calm r → (weight r <= n)%nat → calm_socket (demo r [] (replicate n (Event false))).
Proof.
  intros Hc Hn. constructor; cbn; [done| |by rewrite length_replicate|done].
  by apply Forall_replicate.
Qed.

Lemma packets_by_length_witness :
  let p := MkProtocol false [] 110 2 0 2 1000 in
  let s := demo [Got [0]; WouldBlock; Got [3; 7; 8]; Got [9; 0; 1; 5; 0; 9]; Got [1; 2]] []
             (replicate 20 (Event false)) in
  let ps := [[0; 3; 7; 8; 9]; [0; 1; 5]] in
  ∃ s', recv_packets (repeat 0) p (default_length p) true false
      (2 * Z.to_nat (package_length_offset p + package_length_size p) + 2) (length ps) s = Done ps s' ∧
    stream s' = [0; 9; 1; 2].
Proof.
  intros p s ps. apply (packets_by_length (repeat 0) p s ps [0; 9; 1; 2]).
  - apply repeat_length.
  - split; [by vm_compute; do 4 right; left|by vm_compute].
  - by vm_compute.
  - apply demo_calm; [|vm_compute; lia].
    repeat apply Forall_cons_2; try apply Forall_nil_2; eauto; right; eexists; split; done.
  - done.
  - set (t := default_total p). set (s0 := stream s).
    set (s1 := drop (Z.to_nat (announced p t s0)) s0).
    set (s2 := drop (Z.to_nat (announced p t s1)) s1).
    unfold ps. assert ([0; 9; 1; 2] = s2) as -> by (vm_compute; reflexivity).
    assert ([0; 3; 7; 8; 9] = take (Z.to_nat (announced p t s0)) s0) as -> by (vm_compute; reflexivity).
    assert ([0; 1; 5] = take (Z.to_nat (announced p t s1)) s1) as -> by (vm_compute; reflexivity).
    apply frames_package; [by vm_compute..|]. apply frames_package; [by vm_compute..|].
    apply frames_body; by vm_compute.
Defined.

Lemma packets_by_eof_witness :
  let p := MkProtocol true [13; 10] 0 0 0 0 8 in
  let s := demo [Got [1]; WouldBlock; Got [2; 13]; Got [10; 13; 10; 7]] [] (replicate 20 (Event false)) in
  let ps := [[1; 2; 13; 10]; [13; 10]] in
  ∃ s', recv_packets (repeat 0) p (λ _, None) false true (2 * length (stream s) + 2) (length ps) s = Done ps s' ∧
    stream s' = [7].
Proof.
  intros p s ps. apply (packets_by_eof (repeat 0) p (λ _, None) s ps [7]).
  - apply repeat_length.
  - by vm_compute.
  - by vm_compute.
  - apply demo_calm; [|vm_compute; lia].
    repeat apply Forall_cons_2; try apply Forall_nil_2; eauto; right; eexists; split; done.
  - done.
  - change (cuts [13; 10] [1; 2; 13; 10; 13; 10; 7] [[1; 2; 13; 10]; [13; 10]] [7]).
    apply (cuts_package [13; 10] [1; 2; 13; 10; 13; 10; 7] 2 [[13; 10]] [7]); [by vm_compute|intros [|[|j]] Hj; [by vm_compute..|lia]|].
    apply (cuts_package [13; 10] [13; 10; 7] 0 [] [7]); [by vm_compute|lia|].
    apply cuts_rest. intros j Hj. apply occ_bound in Hj; [cbn in Hj; lia|done].
  - repeat constructor; by vm_compute.
Defined.

Lemma send_all_exact_witness :
  let data := [1; 2; 3; 4] in
  let s := demo [] [Took 2; SendError EAGAIN; Took 1; SendError EPIPE] (replicate 4 (Event false)) in
  match send_all data s with
  | Done r s' => -1 <= r <= zlen data ∧ wire s' = wire s ++ take (Z.to_nat r) data
  | Waiting s' => ∃ k, 0 <= k <= zlen data ∧ wire s' = wire s ++ take (Z.to_nat k) data
  | Fault => False
  end ∧ match send_all data s with Done r _ => r | _ => 0 end = 3.
Proof.
  intros data s. split; [|vm_compute; reflexivity].
  apply (send_all_exact data s); [reflexivity|]. repeat constructor; discriminate.
Defined.

(** A closed socket polls as ready: the error value [-1] of a [bool] function is [true]. *)
Lemma poll_closed_ready rd wr s :
  closed s = true → read_co s = None → write_co s = None →
  poll rd wr s = Done true (set_err ECONNRESET s).
Proof.
  intros Hc Hr Hw. unfold poll. io. unfold is_available. rewrite Hc, Hr, Hw.
  rewrite bool_decide_eq_false_2 by (by intros [??]). by rewrite !andb_false_r.
Qed.

(** What a finished operation returned. *)
Definition returned {A} (r : res A) : option A := match r with Done a _ => Some a | _ => None end.

(** [recv_line] reads one byte past a full buffer. *)
Example recv_line_reads_past :
  let s := demo [Got [97; 98; 99]] [] (replicate 9 (Event false)) in
  recv_line (repeat 0) (repeat 0 2) 2 s = Fault ∧
  returned (recv_line (repeat 0) (repeat 0 3) 2 s) = Some (2, [97; 98; 0]).
Proof. by vm_compute. Qed.

(** It also ends a line at the carriage return and leaves the line feed, which is then a
    line of its own. *)
Example recv_line_splits_crlf :
  returned ((let! a := recv_line (repeat 0) (repeat 0 4) 3 in
             let! b := recv_line (repeat 0) (repeat 0 4) 3 in ret (a, b))
    (demo [Got [97; 13; 10]] [] (replicate 9 (Event false))))
  = Some ((2, [97; 13; 0; 0]), (1, [10; 0; 0; 0])).
Proof. by vm_compute. Qed.

(** The delimiter protocol tests [length == package_max_length]: below the size of the
    read buffer the limit has no effect, a longer package is returned. *)
Example eof_limit_ignored :
  returned (recv_packet (repeat 0) (MkProtocol false [10] 0 0 0 0 4) (λ _, None) 9 false true
    (demo [Got [1; 2; 3; 4; 5; 6; 10]] [] (replicate 9 (Event false)))) = Some 7.
Proof. by vm_compute. Qed.

(** A length function that asks for more data although the header is complete makes the
    next read ask for [2^64 - k] bytes, past the end of the buffer. *)
Example header_length_wraps :
  let p := MkProtocol false [] 110 2 0 2 1000 in
  packet_loop (repeat 0) p (λ _, Some (0, 1)) 9 _get_length 2
    (with_buffers (demo [Got (repeat 1 9)] [] (replicate 9 (Event false)))
       (Some (MkString 2 4 0 (repeat 0 4))) []) = Fault.
Proof. by vm_compute. Qed.

(** ** Closing *)

(** Closing is exact: with no coroutine waiting the descriptor goes away; otherwise the
    writer and the reader are resumed, in this order, and only the first call does so. *)
Lemma close_resumes k s :
  0 <= sock_fd s → closed s = false →
  match close k s with
  | (freed, cs, s') => closed s' = true ∧ cs = option_list (write_co s) ++ option_list (read_co s) ∧
      (freed = true ↔ cs = []) ∧ (freed = true → sock_fd s' = -1) ∧
      (freed = false → ∀ k', close k' s' = (false, [], set_err EINPROGRESS (snd (close k' s'))))
  end.
Proof.
  intros Hfd Hc. unfold close at 1. rewrite (proj2 (Z.ltb_ge _ 0)) by done.
  set (s1 := if connected s then _ else s).
  assert (closed s1 = false ∧ write_co s1 = write_co s ∧ read_co s1 = read_co s ∧ sock_fd s1 = sock_fd s)
    as (Hc1 & Hw1 & Hr1 & Hf1).
  { subst s1. destruct (connected s) eqn:Hcn; [|done]. unfold shutdown, set_err. cbn.
    rewrite Hcn, Hc. cbn. destruct ((k =? 0) || (k =? ENOTCONN)); cbn; [|done].
    by destruct (k =? ENOTCONN). }
  rewrite Hw1, Hr1. destruct (option_list (write_co s) ++ option_list (read_co s)) as [|c cs] eqn:E; [done|].
  rewrite Hc1. split_and!; try done. intros _ k'. unfold close. cbn [sock_fd with_closed set_err with_errors].
  rewrite Hf1, (proj2 (Z.ltb_ge _ 0)) by done. cbn [connected with_closed set_err with_errors].
  set (s2 := set_err ECONNRESET _). set (s3 := if connected s1 then _ else _).
  assert (closed s3 = true ∧ write_co s3 = write_co s ∧ read_co s3 = read_co s) as (Hc3 & Hw3 & Hr3).
  { subst s3 s2. destruct (connected s1) eqn:Hcn; [|done]. unfold shutdown, set_err. cbn. by rewrite Hcn. }
  by rewrite Hw3, Hr3, E, Hc3.
Qed.
