(* ===== verification/Reactor.v ===== *)
(** * The reactor: include/openswoole_reactor.h, src/reactor/base.cc, src/reactor/epoll.cc,
      src/reactor/poll.cc, src/reactor/select.cc

    A reactor watches sockets through one of three implementations; [ReactorImpl] is their
    interface, [ReactorLaws] what the reactor relies on.  [armed] is what the next wait
    watches.  The operations on read and write events are proved against the interface to
    keep [armed] equal to an abstract map of interests, and the implementations by
    [epoll], [poll] and [select] discharge it.  Sockets are named by their descriptors; an
    operation that leaves an array has no result.  kqueue and io_uring are not modelled. *)

From stdpp Require Import gmap list.
From S2P Require Import Prelude.

(** ** Events *)

Definition OSW_EVENT_DEAULT : Z := Z.shiftl 1 8.
Definition OSW_EVENT_READ : Z := Z.shiftl 1 9.
Definition OSW_EVENT_WRITE : Z := Z.shiftl 1 10.
Definition OSW_EVENT_ERROR : Z := Z.shiftl 1 11.
Definition OSW_EVENT_ONCE : Z := Z.shiftl 1 12.
Definition OSW_MAX_FDTYPE : Z := 32.

(** A test [flags & bit]. *)
Definition has (flags bit : Z) : bool := negb (Z.land flags bit =? 0).
(** [flags & ~bit]. *)
Definition without (flags bit : Z) : Z := Z.land flags (Z.lnot bit).

Definition isset_read_event (ev : Z) : bool := (ev <? OSW_EVENT_DEAULT) || has ev OSW_EVENT_READ.
Definition isset_write_event (ev : Z) : bool := has ev OSW_EVENT_WRITE.
Definition isset_error_event (ev : Z) : bool := has ev OSW_EVENT_ERROR.
Definition get_fd_type (flags : Z) : Z :=
  without (without (without (without flags OSW_EVENT_READ) OSW_EVENT_WRITE) OSW_EVENT_ERROR) OSW_EVENT_ONCE.

(** ** The reactor's state *)

Record Sock := MkSock { events : Z; removed : bool; event_hup : bool; fd_type : Z }.

(** [sock] are the socket objects, [sockets_] the registered ones. *)
Record Reactor (Imp : Type) := MkReactor { sock : gmap Z Sock; sockets_ : gset Z; impl : Imp }.
Arguments MkReactor {Imp}.
Arguments sock {Imp}.
Arguments sockets_ {Imp}.
Arguments impl {Imp}.

Section Base.
Context {Imp : Type}.
Implicit Types r : Reactor Imp.

Definition get_event_num r : nat := size (sockets_ r).

(** [Reactor::_add], [_set], [_del]. *)
Definition _add (fd ev : Z) (s : Sock) r : Reactor Imp :=
  MkReactor (<[fd := MkSock ev false (event_hup s) (fd_type s)]> (sock r)) ({[fd]} ∪ sockets_ r) (impl r).
Definition _set (fd ev : Z) (s : Sock) r : Reactor Imp :=
  MkReactor (<[fd := MkSock ev (removed s) (event_hup s) (fd_type s)]> (sock r)) (sockets_ r) (impl r).
Definition _del (fd : Z) (s : Sock) r : Reactor Imp :=
  MkReactor (<[fd := MkSock 0 true (event_hup s) (fd_type s)]> (sock r)) (sockets_ r ∖ {[fd]}) (impl r).
Definition with_impl r (i : Imp) : Reactor Imp := MkReactor (sock r) (sockets_ r) i.
End Base.

(** ** The interface of the implementations *)

(** The first argument is the error the kernel would report for reasons of its own, 0 for
    none. *)
Class ReactorImpl (Imp : Type) := {
  impl_add : Z → Z → Z → Reactor Imp → option (Z * Reactor Imp);
  impl_set : Z → Z → Z → Reactor Imp → option (Z * Reactor Imp);
  impl_del : Z → Z → Reactor Imp → option (Z * Reactor Imp);
  armed : Reactor Imp → gmap Z (bool * bool) }.

(** What is watched for given [events]. *)
Definition interest_of (ev : Z) : bool * bool := (isset_read_event ev, isset_write_event ev).

Class ReactorLaws (Imp : Type) `{ReactorImpl Imp} := {
  rep : Reactor Imp → Prop;
  good_fd : Z → Prop;
  fits : Reactor Imp → nat → Prop;
  fits_less : ∀ r n n', (n' <= n)%nat → fits r n → fits r n';
  add_new : ∀ r fd ev s, rep r → good_fd fd → fits r (S (get_event_num r)) →
    sock r !! fd = Some s → fd ∉ sockets_ r →
    ∃ r', impl_add 0 fd ev r = Some (OSW_OK, r') ∧ rep r' ∧ (∀ n, fits r' n ↔ fits r n) ∧
      sockets_ r' = {[fd]} ∪ sockets_ r ∧
      sock r' = <[fd := MkSock ev false (event_hup s) (fd_type s)]> (sock r) ∧
      armed r' = <[fd := interest_of ev]> (armed r);
  add_again : ∀ r fd ev s, rep r → good_fd fd → sock r !! fd = Some s → fd ∈ sockets_ r →
    events s = ev → removed s = false → ∃ c, impl_add 0 fd ev r = Some (c, r);
  (* [set] may run after the caller has already changed [events] *)
  set_known : ∀ r fd ev ev0 s, rep r → good_fd fd → sock r !! fd = Some s → fd ∈ sockets_ r →
    ∃ r', impl_set 0 fd ev (_set fd ev0 s r) = Some (OSW_OK, r') ∧ rep r' ∧ (∀ n, fits r' n ↔ fits r n) ∧
      sockets_ r' = sockets_ r ∧
      sock r' = <[fd := MkSock ev (removed s) (event_hup s) (fd_type s)]> (sock r) ∧
      armed r' = <[fd := interest_of ev]> (armed r);
  del_known : ∀ r fd s, rep r → good_fd fd → fits r (get_event_num r) →
    sock r !! fd = Some s → fd ∈ sockets_ r → removed s = false →
    ∃ r', impl_del 0 fd r = Some (OSW_OK, r') ∧ rep r' ∧ (∀ n, fits r' n ↔ fits r n) ∧
      sockets_ r' = sockets_ r ∖ {[fd]} ∧
      sock r' = <[fd := MkSock 0 true (event_hup s) (fd_type s)]> (sock r) ∧
      armed r' = delete fd (armed r);
  del_removed : ∀ r fd s, sock r !! fd = Some s → removed s = true → impl_del 0 fd r = Some (OSW_ERR, r) }.

(** ** The operations of the reactor *)

Section Operations.
Context `{ReactorImpl Imp}.
Implicit Types r : Reactor Imp.

(** [add_event] and [del_event]. *)
Definition add_event (k fd event_type : Z) r : option (Z * Reactor Imp) :=
  s ← sock r !! fd;
  if negb (has (events s) event_type) then impl_set k fd (Z.lor (events s) event_type) r
  else Some (OSW_OK, r).
Definition del_event (k fd event_type : Z) r : option (Z * Reactor Imp) :=
  s ← sock r !! fd;
  if has (events s) event_type then impl_set k fd (without (events s) event_type) r
  else Some (OSW_OK, r).

(** What the four operations share: the bit [ev] is changed on a socket that has the bit
    [other], before the implementation is told. *)
Definition set_events (k fd ev : Z) (s : Sock) r : option (Z * Reactor Imp) :=
  impl_set k fd ev (_set fd ev s r).

Definition remove_read_event (k fd : Z) r : option (Z * Reactor Imp) :=
  s ← sock r !! fd;
  if has (events s) OSW_EVENT_WRITE then set_events k fd (without (events s) OSW_EVENT_READ) s r
  else impl_del k fd r.
Definition remove_write_event (k fd : Z) r : option (Z * Reactor Imp) :=
  s ← sock r !! fd;
  if has (events s) OSW_EVENT_READ then set_events k fd (without (events s) OSW_EVENT_WRITE) s r
  else impl_del k fd r.
Definition add_read_event (k fd : Z) r : option (Z * Reactor Imp) :=
  s ← sock r !! fd;
  if has (events s) OSW_EVENT_WRITE then set_events k fd (Z.lor (events s) OSW_EVENT_READ) s r
  else impl_add k fd OSW_EVENT_READ r.
Definition add_write_event (k fd : Z) r : option (Z * Reactor Imp) :=
  s ← sock r !! fd;
  if has (events s) OSW_EVENT_READ then set_events k fd (Z.lor (events s) OSW_EVENT_WRITE) s r
  else impl_add k fd OSW_EVENT_WRITE r.
Definition exists_ (fd : Z) r : option bool :=
  s ← sock r !! fd; Some (negb (removed s) && negb (events s =? 0)).
End Operations.

(** ** [epoll] *)

Definition EPOLLIN : Z := 1.
Definition EPOLLOUT : Z := 4.
Definition EPOLLERR : Z := 8.
Definition EPOLLHUP : Z := 16.
Definition EPOLLRDHUP : Z := 8192.
Definition EPOLLONESHOT : Z := Z.shiftl 1 30.
Definition EBADF : Z := 9.
Definition ENOENT : Z := 2.
Definition EEXIST : Z := 17.

(** The kernel's interest list. *)
Record Epoll := MkEpoll { interest : gmap Z Z }.

Inductive ctl := CtlAdd (ev : Z) | CtlMod (ev : Z) | CtlDel.

(** [epoll_ctl]: the errno, 0 for success, and the new list. *)
Definition epoll_ctl (k : Z) (op : ctl) (fd : Z) (l : gmap Z Z) : Z * gmap Z Z :=
  if negb (k =? 0) then (k, l) else
  match op, l !! fd with
  | CtlAdd ev, None => (0, <[fd := ev]> l)
  | CtlAdd _, Some _ => (EEXIST, l)
  | CtlMod ev, Some _ => (0, <[fd := ev]> l)
  | CtlDel, Some _ => (0, delete fd l)
  | _, None => (ENOENT, l)
  end.

(** [ReactorEpoll::get_events]. *)
Definition get_events (fdtype : Z) : Z :=
  let ev := if isset_read_event fdtype then EPOLLIN else 0 in
  let ev := if isset_write_event fdtype then Z.lor ev EPOLLOUT else ev in
  let ev := if has fdtype OSW_EVENT_ONCE then Z.lor ev EPOLLONESHOT else ev in
  if isset_error_event fdtype then Z.lor ev (Z.lor (Z.lor EPOLLRDHUP EPOLLHUP) EPOLLERR) else ev.

Definition epoll_add (k fd ev : Z) (r : Reactor Epoll) : option (Z * Reactor Epoll) :=
  s ← sock r !! fd;
  let '(e, l) := epoll_ctl k (CtlAdd (get_events ev)) fd (interest (impl r)) in
  if negb (e =? 0) then Some (OSW_ERR, r)
  else Some (OSW_OK, _add fd ev s (with_impl r (MkEpoll l))).

Definition epoll_set (k fd ev : Z) (r : Reactor Epoll) : option (Z * Reactor Epoll) :=
  s ← sock r !! fd;
  let '(e, l) := epoll_ctl k (CtlMod (get_events ev)) fd (interest (impl r)) in
  if negb (e =? 0) then Some (OSW_ERR, r)
  else Some (OSW_OK, _set fd ev s (with_impl r (MkEpoll l))).

Definition epoll_del (k fd : Z) (r : Reactor Epoll) : option (Z * Reactor Epoll) :=
  s ← sock r !! fd;
  if removed s then Some (OSW_ERR, r) else
  let '(e, l) := epoll_ctl k CtlDel fd (interest (impl r)) in
  if negb (e =? 0) && negb (e =? EBADF) && negb (e =? ENOENT) then Some (OSW_ERR, r)
  else Some (OSW_OK, _del fd s (with_impl r (MkEpoll l))).

Definition epoll_armed (r : Reactor Epoll) : gmap Z (bool * bool) :=
  (λ ev, (has ev EPOLLIN, has ev EPOLLOUT)) <$> interest (impl r).

#[global] Instance epoll_impl : ReactorImpl Epoll :=
  {| impl_add := epoll_add; impl_set := epoll_set; impl_del := epoll_del; armed := epoll_armed |}.

(** ** [poll] *)

Definition POLLIN : Z := 1.
Definition POLLOUT : Z := 4.
Definition POLLERR : Z := 8.
Definition POLLHUP : Z := 16.

(** One entry of the arrays [fds_] and [events_], which have [max_fd_num] entries. *)
Record Pollfd := MkPollfd { p_sock : Z; p_fd : Z; p_events : Z; p_revents : Z }.
Record Poll := MkPoll { entries : list Pollfd }.

(** The search of [exists], [set] and [del] among the first [n] entries. *)
Fixpoint find_from (n i : nat) (l : list Pollfd) (fd : Z) : option (option nat) :=
  match n with
  | O => Some None
  | S n => e ← l !! i; if p_fd e =? fd then Some (Some i) else find_from n (S i) l fd
  end.

Definition poll_events (ev : Z) (err : bool) : Z :=
  let e := if isset_read_event ev then POLLIN else 0 in
  let e := if isset_write_event ev then Z.lor e POLLOUT else e in
  if err && isset_error_event ev then Z.lor e POLLHUP else e.

Definition poll_add (k fd ev : Z) (r : Reactor Poll) : option (Z * Reactor Poll) :=
  s ← sock r !! fd;
  let l := entries (impl r) in
  let cur := get_event_num r in
  found ← find_from cur 0 l fd;
  match found with
  | Some _ => Some (OSW_ERR, r)
  | None =>
    if Nat.eqb cur (length l) then Some (OSW_ERR, r) else
    e ← l !! cur;
    Some (OSW_OK, with_impl (_add fd ev s r)
      (MkPoll (<[cur := MkPollfd fd fd (poll_events ev true) (p_revents e)]> l)))
  end.

Definition poll_set (k fd ev : Z) (r : Reactor Poll) : option (Z * Reactor Poll) :=
  s ← sock r !! fd;
  let l := entries (impl r) in
  found ← find_from (get_event_num r) 0 l fd;
  match found with
  | Some i =>
    e ← l !! i;
    Some (OSW_OK, _set fd ev s
      (with_impl r (MkPoll (<[i := MkPollfd (p_sock e) fd (poll_events ev false) (p_revents e)]> l))))
  | None => Some (OSW_ERR, r)
  end.

(** The inner loop of [del]: the entries from [i] on move down, [n] of them. *)
Fixpoint move_down (n i : nat) (l : list Pollfd) : option (list Pollfd) :=
  match n with
  | O => Some l
  | S n => e ← l !! S i; move_down n (S i) (<[i := e]> l)
  end.

Definition poll_del (k fd : Z) (r : Reactor Poll) : option (Z * Reactor Poll) :=
  s ← sock r !! fd;
  if removed s then Some (OSW_ERR, r) else
  let l := entries (impl r) in
  found ← find_from (get_event_num r) 0 l fd;
  match found with
  | Some i =>
    l ← move_down (get_event_num r - i) i l;
    Some (OSW_OK, _del fd s (with_impl r (MkPoll l)))
  | None => Some (OSW_ERR, r)
  end.

(** The entries that are passed to [::poll]. *)
Definition polled (r : Reactor Poll) : list Pollfd := take (get_event_num r) (entries (impl r)).

Definition poll_pair (e : Pollfd) : Z * (bool * bool) := (p_fd e, (has (p_events e) POLLIN, has (p_events e) POLLOUT)).

Definition poll_armed (r : Reactor Poll) : gmap Z (bool * bool) := list_to_map (poll_pair <$> polled r).

#[global] Instance poll_impl : ReactorImpl Poll :=
  {| impl_add := poll_add; impl_set := poll_set; impl_del := poll_del; armed := poll_armed |}.

(** ** [select] *)

Definition FD_SETSIZE : Z := 1024.

Record Select := MkSelect { fds : gmap Z Z; maxfd : Z; rfds : gset Z; wfds : gset Z; efds : gset Z }.

(** [OSW_FD_SET] and [OSW_FD_CLR]. *)
Definition fd_set (fd : Z) (s : gset Z) : gset Z := if fd <? FD_SETSIZE then {[fd]} ∪ s else s.
Definition fd_clr (fd : Z) (s : gset Z) : gset Z := if fd <? FD_SETSIZE then s ∖ {[fd]} else s.

Definition select_add (k fd ev : Z) (r : Reactor Select) : option (Z * Reactor Select) :=
  s ← sock r !! fd;
  if FD_SETSIZE <? fd then Some (OSW_ERR, r) else
  let i := impl r in
  let f := match fds i !! fd with None => <[fd := fd]> (fds i) | Some _ => fds i end in
  Some (OSW_OK, with_impl (_add fd ev s r)
    (MkSelect f (if maxfd i <? fd then fd else maxfd i) (rfds i) (wfds i) (efds i))).

Definition select_del (k fd : Z) (r : Reactor Select) : option (Z * Reactor Select) :=
  s ← sock r !! fd;
  if removed s then Some (OSW_ERR, r) else
  let i := impl r in
  match fds i !! fd with
  | None => Some (OSW_ERR, r)
  | Some _ =>
    Some (OSW_OK, _del fd s (with_impl r (MkSelect (delete fd (fds i)) (maxfd i)
      (fd_clr fd (rfds i)) (fd_clr fd (wfds i)) (fd_clr fd (efds i)))))
  end.

Definition select_set (k fd ev : Z) (r : Reactor Select) : option (Z * Reactor Select) :=
  s ← sock r !! fd;
  match fds (impl r) !! fd with
  | None => Some (OSW_ERR, r)
  | Some _ => Some (OSW_OK, _set fd ev s r)
  end.

(** The sets that [wait] builds: each descriptor below [FD_SETSIZE] with its socket's events. *)
Definition select_armed (r : Reactor Select) : gmap Z (bool * bool) :=
  map_imap (λ fd id, s ← sock r !! id;
    Some (if fd <? FD_SETSIZE then interest_of (events s) else (false, false))) (fds (impl r)).

#[global] Instance select_impl : ReactorImpl Select :=
  {| impl_add := select_add; impl_set := select_set; impl_del := select_del; armed := select_armed |}.

(** ** The reactor keeps a map of interests *)

Section Client.
Context `{ReactorLaws Imp}.
Implicit Types (r : Reactor Imp) (m : gmap Z (bool * bool)).

(** The events of a socket with the given interest. *)
Definition bits (i : option (bool * bool)) : Z :=
  match i with
  | Some (rd, wr) => (if rd : bool then OSW_EVENT_READ else 0) + (if wr : bool then OSW_EVENT_WRITE else 0)
  | None => 0
  end.

(** The reactor, the implementation and the socket objects tell the same story. *)
Record agrees r m : Prop := {
  ag_rep : rep r;
  ag_armed : armed r = m;
  ag_dom : sockets_ r = dom m;
  ag_fits : fits r (size m);
  ag_some : ∀ fd, m !! fd ≠ Some (false, false);
  ag_sock : ∀ fd s, sock r !! fd = Some s →
    events s = bits (m !! fd) ∧ removed s = bool_decide (m !! fd = None) }.

Inductive rop := AddRead | AddWrite | RemoveRead | RemoveWrite | Delete.

Definition rstep (o : rop) (fd : Z) r : option (Z * Reactor Imp) :=
  match o with
  | AddRead => add_read_event 0 fd r
  | AddWrite => add_write_event 0 fd r
  | RemoveRead => remove_read_event 0 fd r
  | RemoveWrite => remove_write_event 0 fd r
  | Delete => impl_del 0 fd r
  end.

(** The abstract map: nothing is watched for a descriptor without interest. *)
Definition put_interest (fd : Z) (i : bool * bool) m : gmap Z (bool * bool) :=
  if bool_decide (i = (false, false)) then delete fd m else <[fd := i]> m.
Definition interest_step (o : rop) (fd : Z) m : gmap Z (bool * bool) :=
  let '(rd, wr) := default (false, false) (m !! fd) in
  match o with
  | AddRead => put_interest fd (true, wr) m
  | AddWrite => put_interest fd (rd, true) m
  | RemoveRead => put_interest fd (false, wr) m
  | RemoveWrite => put_interest fd (rd, false) m
  | Delete => delete fd m
  end.

Lemma interest_bits i : i ≠ (false, false) → interest_of (bits (Some i)) = i.
Proof. by destruct i as [[] []]. Qed.

(** A socket object whose record was written as the map says. *)
Lemma agrees_sock r m m' fd s x :
  agrees r m → sock r !! fd = Some s → (∀ g, g ≠ fd → m' !! g = m !! g) →
  events x = bits (m' !! fd) → removed x = bool_decide (m' !! fd = None) →
  ∀ g y, <[fd := x]> (sock r) !! g = Some y → events y = bits (m' !! g) ∧ removed y = bool_decide (m' !! g = None).
Proof.
  intros Ha Hs Hm He Hr g y. destruct (decide (g = fd)) as [->|Hg].
  - rewrite lookup_insert_eq. by intros [= <-].
  - rewrite lookup_insert_ne by done. intros Hy. rewrite (Hm g Hg). by apply (ag_sock r m Ha).
Qed.

Lemma agrees_put fd r r' m i s b :
  agrees r m → sock r !! fd = Some s → rep r' → fits r' (size (<[fd := i]> m)) →
  i ≠ (false, false) → sockets_ r' = {[fd]} ∪ sockets_ r → b = false →
  sock r' = <[fd := MkSock (bits (Some i)) b (event_hup s) (fd_type s)]> (sock r) →
  armed r' = <[fd := interest_of (bits (Some i))]> (armed r) → agrees r' (<[fd := i]> m).
Proof.
  intros Ha Hs Hrep Hfit Hi Hset Hb Hsock Harm. split.
  - done.
  - rewrite Harm, (interest_bits i Hi). by rewrite (ag_armed _ _ Ha).
  - by rewrite Hset, dom_insert_L, (ag_dom _ _ Ha).
  - done.
  - intros g. destruct (decide (g = fd)) as [->|Hg]; [rewrite lookup_insert_eq; congruence|].
    rewrite lookup_insert_ne by done. apply (ag_some _ _ Ha).
  - rewrite Hsock. apply (agrees_sock r m _ fd s _ Ha Hs); cbn; rewrite ?lookup_insert_eq; try done.
    intros g Hg. by rewrite lookup_insert_ne.
Qed.

Lemma agrees_delete fd r r' m s :
  agrees r m → sock r !! fd = Some s → rep r' → fits r' (size (delete fd m)) →
  sockets_ r' = sockets_ r ∖ {[fd]} →
  sock r' = <[fd := MkSock 0 true (event_hup s) (fd_type s)]> (sock r) →
  armed r' = delete fd (armed r) → agrees r' (delete fd m).
Proof.
  intros Ha Hs Hrep Hfit Hset Hsock Harm. split.
  - done.
  - by rewrite Harm, (ag_armed _ _ Ha).
  - by rewrite Hset, dom_delete_L, (ag_dom _ _ Ha).
  - done.
  - intros g. destruct (decide (g = fd)) as [->|Hg]; [by rewrite lookup_delete_eq|].
    rewrite lookup_delete_ne by done. apply (ag_some _ _ Ha).
  - rewrite Hsock. apply (agrees_sock r m _ fd s _ Ha Hs); cbn; rewrite ?lookup_delete_eq; try done.
    intros g Hg. by rewrite lookup_delete_ne.
Qed.

(** One operation of the reactor is the step on the map. *)
Definition simulates r (res : option (Z * Reactor Imp)) m' : Prop :=
  ∃ c r', res = Some (c, r') ∧ agrees r' m' ∧ (∀ n, fits r' n ↔ fits r n) ∧ dom (sock r') = dom (sock r).

Lemma dom_known r fd s x : sock r !! fd = Some s → dom (<[fd := x]> (sock r)) = dom (sock r).
Proof. intros Hs. rewrite dom_insert_L. apply elem_of_dom_2 in Hs. set_solver. Qed.

Lemma add_simulates r m fd s i :
  agrees r m → good_fd fd → fits r (size (<[fd := i]> m)) → sock r !! fd = Some s → m !! fd = None →
  i ≠ (false, false) → simulates r (impl_add 0 fd (bits (Some i)) r) (<[fd := i]> m).
Proof.
  intros Ha Hg Hf Hs Hm Hi.
  assert (fd ∉ sockets_ r) as Hn by (rewrite (ag_dom _ _ Ha); by apply not_elem_of_dom).
  assert (get_event_num r = size m) as Hnum by (unfold get_event_num; by rewrite (ag_dom _ _ Ha), size_dom).
  destruct (add_new r fd (bits (Some i)) s (ag_rep _ _ Ha) Hg ltac:(by rewrite Hnum, <- (map_size_insert_None fd i m Hm)) Hs Hn)
    as (r' & -> & Hrep & Hfit & Hset & Hsock & Harm).
  eexists _, r'. split; [done|]. split; [|by rewrite Hsock, (dom_known r fd s)].
  eapply agrees_put; try done. by apply Hfit.
Qed.

Lemma set_simulates r m fd s j i :
  agrees r m → good_fd fd → sock r !! fd = Some s → m !! fd = Some j →
  i ≠ (false, false) → simulates r (set_events 0 fd (bits (Some i)) s r) (<[fd := i]> m).
Proof.
  intros Ha Hg Hs Hm Hi.
  assert (fd ∈ sockets_ r) as Hn by (rewrite (ag_dom _ _ Ha); by eapply elem_of_dom_2).
  destruct (set_known r fd (bits (Some i)) (bits (Some i)) s (ag_rep _ _ Ha) Hg Hs Hn)
    as (r' & E & Hrep & Hfit & Hset & Hsock & Harm).
  unfold set_events. rewrite E. eexists _, r'. split; [done|]. split; [|by rewrite Hsock, (dom_known r fd s)].
  eapply (agrees_put fd r r' m i s (removed s)); try done.
  - apply Hfit. rewrite map_size_insert_Some by done. apply (ag_fits _ _ Ha).
  - rewrite Hset. set_solver.
  - destruct (ag_sock _ _ Ha fd s Hs) as [_ ->]. by rewrite Hm.
Qed.

Lemma del_simulates r m fd s :
  agrees r m → good_fd fd → sock r !! fd = Some s → simulates r (impl_del 0 fd r) (delete fd m).
Proof.
  intros Ha Hg Hs. destruct (ag_sock _ _ Ha fd s Hs) as [He Hr]. destruct (m !! fd) as [j|] eqn:Hm.
  - assert (fd ∈ sockets_ r) as Hn by (rewrite (ag_dom _ _ Ha); by eapply elem_of_dom_2).
    assert (get_event_num r = size m) as Hnum by (unfold get_event_num; by rewrite (ag_dom _ _ Ha), size_dom).
    destruct (del_known r fd s (ag_rep _ _ Ha) Hg ltac:(rewrite Hnum; apply Ha) Hs Hn Hr)
      as (r' & -> & Hrep & Hfit & Hset & Hsock & Harm).
    eexists _, r'. split; [done|]. split; [|by rewrite Hsock, (dom_known r fd s)].
    eapply agrees_delete; try done. apply Hfit. apply (fits_less r (size m)); [|apply Ha].
    rewrite map_size_delete_Some by eauto. lia.
  - rewrite (del_removed r fd s Hs Hr). eexists _, r. rewrite delete_id by done. by split_and!.
Qed.

Lemma same_simulates r m c : agrees r m → simulates r (Some (c, r)) m.
Proof. intros Ha. by eexists _, r. Qed.

(** Adding the only event of a socket once more. *)
Lemma again_simulates r m fd s i :
  agrees r m → good_fd fd → sock r !! fd = Some s → m !! fd = Some i →
  simulates r (impl_add 0 fd (bits (Some i)) r) (<[fd := i]> m).
Proof.
  intros Ha Hg Hs Hm. destruct (ag_sock _ _ Ha fd s Hs) as [He Hr]. rewrite Hm in He, Hr.
  assert (fd ∈ sockets_ r) as Hn by (rewrite (ag_dom _ _ Ha); by eapply elem_of_dom_2).
  destruct (add_again r fd (bits (Some i)) s) as [c ->]; try done; [apply Ha|].
  rewrite insert_id by done. by apply same_simulates.
Qed.

Lemma rstep_simulates o r m fd s :
  agrees r m → good_fd fd → fits r (size (interest_step o fd m)) → sock r !! fd = Some s →
  simulates r (rstep o fd r) (interest_step o fd m).
Proof.
  intros Ha Hg Hf Hs. destruct (ag_sock _ _ Ha fd s Hs) as [He Hr]. revert Hf.
  pose proof (ag_some _ _ Ha fd) as Hff. unfold interest_step, put_interest.
  destruct o; cbn [rstep];
    unfold add_read_event, add_write_event, remove_read_event, remove_write_event;
    try (destruct (default _ _); intros _; by eapply del_simulates); rewrite Hs; cbn [mbind option_bind]; rewrite He.
  all: destruct (m !! fd) as [[[] []]|] eqn:Hm; cbn [default from_option id]; try done; intros Hf.
  all: first [ exact (set_simulates r m fd s _ (true, true) Ha Hg Hs Hm ltac:(done))
             | exact (set_simulates r m fd s _ (true, false) Ha Hg Hs Hm ltac:(done))
             | exact (set_simulates r m fd s _ (false, true) Ha Hg Hs Hm ltac:(done))
             | exact (again_simulates r m fd s _ Ha Hg Hs Hm)
             | exact (add_simulates r m fd s (true, false) Ha Hg Hf Hs Hm ltac:(done))
             | exact (add_simulates r m fd s (false, true) Ha Hg Hf Hs Hm ltac:(done))
             | exact (del_simulates r m fd s Ha Hg Hs) ].
Qed.

(** A run of operations. *)
Fixpoint rrun (ops : list (rop * Z)) r : option (Reactor Imp) :=
  match ops with
  | [] => Some r
  | (o, fd) :: ops => '(_, r) ← rstep o fd r; rrun ops r
  end.
End Client.

Fixpoint interest_run (ops : list (rop * Z)) (m : gmap Z (bool * bool)) : gmap Z (bool * bool) :=
  match ops with
  | [] => m
  | (o, fd) :: ops => interest_run ops (interest_step o fd m)
  end.

Lemma rrun_agrees `{ReactorLaws Imp} (B : nat) ops : ∀ (r : Reactor Imp) m,
  agrees r m → fits r B →
  (∀ pre suf, ops = pre ++ suf → (size (interest_run pre m) <= B)%nat) →
  Forall (λ x, good_fd x.2 ∧ x.2 ∈ dom (sock r)) ops →
  ∃ r', rrun ops r = Some r' ∧ agrees r' (interest_run ops m).
Proof.
  induction ops as [|[o fd] ops IH]; intros r m Ha Hf Hsz Hgood; [by exists r|].
  apply Forall_cons in Hgood as [[Hg [s Hs]%elem_of_dom] Hgood]. cbn [snd] in *.
  pose proof (Hsz [(o, fd)] ops eq_refl) as Hsz1. cbn in Hsz1.
  destruct (rstep_simulates o r m fd s Ha Hg) as (c & r' & E & Ha' & Hf' & Hd); [|done|].
  { by apply (fits_less r B). }
  cbn [rrun interest_run]. rewrite E. cbn [mbind option_bind]. apply IH; [done|by apply Hf'| |].
  - intros pre suf ->. by apply (Hsz ((o, fd) :: pre) suf).
  - by rewrite Hd.
Qed.

(** ** The implementations keep the contract *)

Lemma get_events_armed ev : (has (get_events ev) EPOLLIN, has (get_events ev) EPOLLOUT) = interest_of ev.
Proof.
  unfold get_events, interest_of.
  by destruct (isset_read_event ev), (isset_write_event ev), (has ev OSW_EVENT_ONCE), (isset_error_event ev).
Qed.

#[global, program] Instance epoll_laws : ReactorLaws Epoll := {|
  rep r := dom (interest (impl r)) = sockets_ r;
  good_fd _ := True; fits _ _ := True |}.
Next Obligation. done. Qed.
Next Obligation.
  intros r fd ev s Hr _ _ Hs Hn. cbn. unfold epoll_add, epoll_ctl. rewrite Hs. cbn.
  rewrite <- Hr in Hn. apply not_elem_of_dom in Hn as Hn'. rewrite Hn'. cbn.
  eexists. split; [done|]. cbn. rewrite dom_insert_L, Hr. split_and!; try done.
  unfold epoll_armed. cbn. by rewrite fmap_insert, get_events_armed.
Qed.
Next Obligation.
  intros r fd ev s Hr _ Hs Hn He Hrm. cbn. unfold epoll_add, epoll_ctl. rewrite Hs. cbn.
  rewrite <- Hr in Hn. apply elem_of_dom in Hn as [x Hx]. rewrite Hx. cbn. by eexists.
Qed.
Next Obligation.
  intros r fd ev ev0 s Hr _ Hs Hn. cbn. unfold epoll_set, epoll_ctl. cbn. rewrite lookup_insert_eq. cbn.
  pose proof Hn as Hn'. rewrite <- Hr in Hn'. apply elem_of_dom in Hn' as [x Hx]. rewrite Hx. cbn.
  eexists. split; [done|]. cbn. rewrite dom_insert_L, Hr. split_and!; try done; [set_solver| |].
  - by rewrite insert_insert_eq.
  - unfold epoll_armed. cbn. by rewrite fmap_insert, get_events_armed.
Qed.
Next Obligation.
  intros r fd s Hr _ _ Hs Hn Hrm. cbn. unfold epoll_del, epoll_ctl. rewrite Hs. cbn. rewrite Hrm.
  rewrite <- Hr in Hn. apply elem_of_dom in Hn as [x Hx]. rewrite Hx. cbn.
  eexists. split; [done|]. cbn. rewrite dom_delete_L, Hr. split_and!; try done.
  unfold epoll_armed. cbn. by rewrite fmap_delete.
Qed.
Next Obligation. intros r fd s Hs Hrm. cbn. unfold epoll_del. rewrite Hs. cbn. by rewrite Hrm. Qed.

Lemma poll_events_armed ev err :
  (has (poll_events ev err) POLLIN, has (poll_events ev err) POLLOUT) = interest_of ev.
Proof.
  unfold poll_events, interest_of.
  by destruct (isset_read_event ev), (isset_write_event ev), (err && isset_error_event ev).
Qed.

Lemma find_from_spec n l fd : ∀ i, (i + n <= length l)%nat →
  (find_from n i l fd = Some None ∧ fd ∉ p_fd <$> take n (drop i l)) ∨
  ∃ j e, find_from n i l fd = Some (Some j) ∧ (i <= j < i + n)%nat ∧ l !! j = Some e ∧ p_fd e = fd.
Proof.
  induction n as [|n IH]; intros i Hi; cbn [find_from].
  { left. split; [done|]. cbn. apply not_elem_of_nil. }
  destruct (lookup_lt_is_Some_2 l i) as [e He]; [lia|]. rewrite He. cbn [mbind option_bind].
  destruct (Z.eqb_spec (p_fd e) fd) as [E|E].
  { right. exists i, e. split_and!; (done || lia). }
  destruct (IH (S i) ltac:(lia)) as [[-> Hn]|(j & e' & -> & ? & ? & ?)].
  - left. split; [done|]. rewrite (drop_S l e i He). cbn. rewrite not_elem_of_cons. split; [congruence|done].
  - right. exists j, e'. split_and!; (done || lia).
Qed.

Lemma move_down_spec k : ∀ i l, (i + k < length l)%nat →
  move_down k i l = Some (take i l ++ take k (drop (S i) l) ++ drop (i + k) l).
Proof.
  induction k as [|k IH]; intros i l Hi; cbn [move_down].
  { rewrite take_0, Nat.add_0_r. cbn [app]. by rewrite take_drop. }
  destruct (lookup_lt_is_Some_2 l (S i)) as [e He]; [lia|]. rewrite He. cbn [mbind option_bind].
  rewrite IH by (rewrite length_insert; lia). f_equal.
  rewrite (take_S_r _ i e) by (rewrite list_lookup_insert_eq; [done|lia]).
  rewrite take_insert_ge, !drop_insert_lt by lia.
  rewrite (drop_S l e (S i) He). cbn [take]. rewrite <- !(assoc_L (++)). cbn [app].
  by replace (S i + k)%nat with (i + S k)%nat by lia.
Qed.

Definition poll_rep (r : Reactor Poll) : Prop :=
  (get_event_num r <= length (entries (impl r)))%nat ∧ NoDup (p_fd <$> polled r) ∧
  ∀ fd, fd ∈ p_fd <$> polled r ↔ fd ∈ sockets_ r.

(** One entry of the array is one entry of the map. *)
Lemma entry_armed (L : list Pollfd) j e :
  NoDup (p_fd <$> L) → L !! j = Some e →
  let M : gmap Z (bool * bool) := list_to_map (poll_pair <$> delete j L) in
  (∀ e', p_fd e' = p_fd e → (list_to_map (poll_pair <$> (<[j := e']> L)) : gmap Z (bool * bool))
     = <[p_fd e := (poll_pair e').2]> M) ∧ M !! p_fd e = None ∧ NoDup (p_fd <$> delete j L) ∧
  ∀ g, g ∈ p_fd <$> delete j L ↔ g ∈ p_fd <$> L ∧ g ≠ p_fd e.
Proof.
  intros Hnd Hj M. assert (∀ e', (<[j := e']> L) ≡ₚ e' :: delete j L) as Hp.
  { intros e'. rewrite (delete_Permutation (<[j := e']> L) j e') by (apply list_lookup_insert_eq; by eapply lookup_lt_Some).
    f_equiv. rewrite !delete_take_drop, take_insert_ge, drop_insert_lt by lia. done. }
  assert (p_fd <$> L ≡ₚ p_fd e :: (p_fd <$> delete j L)) as Hpp by (by rewrite (delete_Permutation L j e Hj) at 1).
  assert (p_fd e ∉ p_fd <$> delete j L ∧ NoDup (p_fd <$> delete j L)) as [Hnot Hnd'].
  { rewrite Hpp in Hnd. by apply NoDup_cons in Hnd. }
  assert ((poll_pair <$> delete j L).*1 = p_fd <$> delete j L) as Hfst by (by rewrite <- list_fmap_compose).
  split_and!; [|by apply not_elem_of_list_to_map_1; rewrite Hfst|done|].
  2: { intros g. rewrite Hpp, elem_of_cons. split; [intros Hg; split; [by right|by intros ->]|by intros [[->|] ?]]. }
  intros e' He'. rewrite (list_to_map_proper _ (poll_pair <$> e' :: delete j L)).
  - cbn. by rewrite He'.
  - rewrite <- list_fmap_compose. change (fst ∘ poll_pair) with p_fd.
    rewrite (Hp e'). cbn. rewrite He'. by apply NoDup_cons.
  - by rewrite (Hp e').
Qed.

Lemma polled_index r j e :
  poll_rep r → (j < get_event_num r)%nat → entries (impl r) !! j = Some e → polled r !! j = Some e.
Proof. intros _ Hj He. unfold polled. by rewrite lookup_take_lt. Qed.

Lemma poll_known r fd :
  poll_rep r → fd ∈ sockets_ r →
  ∃ j e, find_from (get_event_num r) 0 (entries (impl r)) fd = Some (Some j) ∧ (j < get_event_num r)%nat ∧
    entries (impl r) !! j = Some e ∧ p_fd e = fd ∧ polled r !! j = Some e.
Proof.
  intros (Hl & Hnd & Hin) Hn.
  destruct (find_from_spec (get_event_num r) (entries (impl r)) fd 0) as [[_ Hno]|(j & e & ? & ? & ? & ?)]; [lia| |].
  - by apply Hin in Hn.
  - exists j, e. split_and!; try done; [lia|]. apply polled_index; try done. lia.
Qed.

#[global, program] Instance poll_laws : ReactorLaws Poll := {|
  rep := poll_rep; good_fd _ := True; fits r n := (n < length (entries (impl r)))%nat |}.
Next Obligation. cbn. lia. Qed.
Next Obligation.
  intros r fd ev s (Hl & Hnd & Hin) _ Hf Hs Hn. cbn. unfold poll_add. rewrite Hs. cbn [mbind option_bind].
  destruct (find_from_spec (get_event_num r) (entries (impl r)) fd 0) as [[-> Hno]|(j & e & _ & Hj & He & Hfd)]; [lia| |].
  2: { destruct Hn. apply Hin. apply list_elem_of_fmap. exists e. split; [done|].
       apply list_elem_of_lookup. exists j. apply polled_index; [done|lia|done]. }
  cbn [mbind option_bind]. rewrite (proj2 (Nat.eqb_neq _ _)) by lia.
  destruct (lookup_lt_is_Some_2 (entries (impl r)) (get_event_num r)) as [e He]; [lia|]. rewrite He. cbn [mbind option_bind].
  set (e' := MkPollfd _ _ _ _). eexists. split; [done|].
  assert (size ({[fd]} ∪ sockets_ r) = S (get_event_num r)) as Hsz.
  { rewrite size_union by set_solver. by rewrite size_singleton. }
  assert (∀ x, polled (with_impl (_add fd ev s r) (MkPoll (<[get_event_num r := x]> (entries (impl r))))) = polled r ++ [x]) as Hp.
  { intros x. unfold polled, get_event_num at 1. cbn. rewrite Hsz.
    rewrite (take_S_r _ _ x) by (rewrite list_lookup_insert_eq; [done|lia]). by rewrite take_insert_ge. }
  change (fd ∉ p_fd <$> polled r) in Hno.
  split; [|split; [cbn; by rewrite length_insert|split; [done|split; [done|]]]].
  - unfold poll_rep. rewrite Hp. unfold get_event_num at 1. cbn [sockets_ impl with_impl _add entries].
    rewrite Hsz, length_insert, fmap_app. cbn. split_and!; [lia| |].
    + apply NoDup_app. split_and!; [done|set_solver|apply NoDup_singleton].
    + intros g. rewrite elem_of_app, Hin. set_solver.
  - unfold poll_armed. rewrite Hp, fmap_app. change (poll_pair <$> [e']) with [(fd, (poll_pair e').2)].
    rewrite list_to_map_snoc by (by rewrite <- list_fmap_compose).
    cbn [poll_pair e' snd p_events]. by rewrite poll_events_armed.
Qed.
Next Obligation.
  intros r fd ev s Hr _ Hs Hn He Hrm. cbn. unfold poll_add. rewrite Hs. cbn [mbind option_bind].
  destruct (poll_known r fd Hr Hn) as (j & e & -> & _). by eexists.
Qed.
Next Obligation.
  intros r fd ev ev0 s Hr _ Hs Hn. cbn. unfold poll_set. cbn [sock _set]. rewrite lookup_insert_eq.
  cbn [mbind option_bind]. change (get_event_num (_set fd ev0 s r)) with (get_event_num r).
  change (impl (_set fd ev0 s r)) with (impl r).
  destruct (poll_known r fd Hr Hn) as (j & e & -> & Hj & He & Hfd & Hpj). cbn [mbind option_bind]. rewrite He. cbn [mbind option_bind].
  set (e' := MkPollfd _ _ _ _). eexists. split; [done|]. pose proof Hr as (Hl & Hnd & Hin).
  assert (∀ x i, polled (_set fd ev (MkSock ev0 (removed s) (event_hup s) (fd_type s))
      (with_impl (_set fd ev0 s r) (MkPoll (<[i := x]> (entries (impl r)))))) = take (get_event_num r) (<[i := x]> (entries (impl r)))) as Hp by done.
  destruct (entry_armed (polled r) j e Hnd Hpj) as (Hins & Hnone & Hnd' & _).
  split; [|split; [cbn; by rewrite length_insert|split; [done|split; [cbn; by rewrite insert_insert_eq|]]]].
  - unfold poll_rep. rewrite Hp, take_insert_lt by done. cbn. rewrite length_insert. fold (polled r).
    assert (p_fd <$> <[j:=e']> (polled r) = p_fd <$> polled r) as ->.
    { rewrite list_fmap_insert. apply list_insert_id. rewrite list_lookup_fmap, Hpj. cbn. congruence. }
    done.
  - unfold poll_armed. rewrite Hp, take_insert_lt by done. fold (polled r).
    rewrite (Hins e') by (cbn; congruence). cbn [poll_pair e' snd p_events]. rewrite poll_events_armed.
    rewrite <- (list_insert_id (polled r) j e Hpj) at 2. rewrite (Hins e eq_refl), Hfd. by rewrite insert_insert_eq.
Qed.
Next Obligation.
  intros r fd s Hr _ Hf Hs Hn Hrm. cbn. cbn in Hf. unfold poll_del. rewrite Hs. cbn [mbind option_bind]. rewrite Hrm.
  destruct (poll_known r fd Hr Hn) as (j & e & -> & Hj & He & Hfd & Hpj). cbn [mbind option_bind].
  pose proof Hr as (Hl & Hnd & Hin).
  rewrite move_down_spec by lia. cbn [mbind option_bind]. set (l' := _ ++ _).
  assert (length l' = length (entries (impl r))) as Hlen.
  { unfold l'. rewrite !length_app, !length_take, !length_drop. lia. }
  eexists. split; [done|].
  assert (size (sockets_ r ∖ {[ fd ]}) = (get_event_num r - 1)%nat) as Hsz.
  { unfold get_event_num. rewrite size_difference by set_solver. by rewrite size_singleton. }
  assert (polled (_del fd s (with_impl r (MkPoll l'))) = delete j (polled r)) as Hp.
  { unfold polled, get_event_num at 1. cbn. rewrite Hsz. unfold l'.
    rewrite (assoc_L (++)), take_app_le by (rewrite length_app, !length_take, !length_drop; lia).
    rewrite delete_take_drop, take_take, Nat.min_l by lia.
    rewrite take_app_ge by (rewrite length_take; lia). f_equal.
    rewrite length_take, Nat.min_l by lia. rewrite take_take, skipn_firstn_comm. f_equal. lia. }
  destruct (entry_armed (polled r) j e Hnd Hpj) as (Hins & Hnone & Hnd' & Hdel).
  split; [|split; [cbn; by rewrite Hlen|split; [done|split; [done|]]]].
  - unfold poll_rep. rewrite Hp. unfold get_event_num at 1. cbn. rewrite Hsz, Hlen. split_and!; [lia|done|].
    intros g. by rewrite elem_of_difference, <- Hin, elem_of_singleton, Hdel, Hfd.
  - unfold poll_armed. rewrite Hp.
    rewrite <- (list_insert_id (polled r) j e Hpj) at 2. rewrite (Hins e eq_refl), Hfd.
    rewrite Hfd in Hnone. by rewrite delete_insert_id.
Qed.
Next Obligation. intros r fd s Hs Hrm. cbn. unfold poll_del. rewrite Hs. cbn. by rewrite Hrm. Qed.

Definition select_rep (r : Reactor Select) : Prop :=
  dom (fds (impl r)) = sockets_ r ∧
  ∀ fd id, fds (impl r) !! fd = Some id → id = fd ∧ 0 <= fd < FD_SETSIZE ∧ fd <= maxfd (impl r) ∧ fd ∈ dom (sock r).

Lemma select_armed_lookup r fd :
  select_rep r → select_armed r !! fd
    = (if bool_decide (fd ∈ sockets_ r) then s ← sock r !! fd; Some (interest_of (events s)) else None).
Proof.
  intros [Hd Hid]. unfold select_armed. rewrite map_lookup_imap.
  destruct (fds (impl r) !! fd) as [id|] eqn:E; cbn [mbind option_bind].
  - destruct (Hid _ _ E) as (-> & Hlt & _ & _). rewrite bool_decide_eq_true_2 by (rewrite <- Hd; by eapply elem_of_dom_2).
    by rewrite (proj2 (Z.ltb_lt fd FD_SETSIZE)) by lia.
  - rewrite bool_decide_eq_false_2; [done|]. rewrite <- Hd. by apply not_elem_of_dom.
Qed.

(** The map after a change of one socket. *)
Lemma select_armed_change r r' fd x :
  select_rep r → select_rep r' → sock r' = <[fd := x]> (sock r) →
  (sockets_ r' = {[fd]} ∪ sockets_ r → select_armed r' = <[fd := interest_of (events x)]> (select_armed r)) ∧
  (sockets_ r' = sockets_ r ∖ {[fd]} → select_armed r' = delete fd (select_armed r)).
Proof.
  intros Hr Hr' Hs. split; intros Hset; apply map_eq; intros g; rewrite (select_armed_lookup r' g Hr'), Hset, Hs.
  - destruct (decide (g = fd)) as [->|Hg].
    + rewrite !lookup_insert_eq, bool_decide_eq_true_2 by set_solver. done.
    + rewrite !lookup_insert_ne, (select_armed_lookup r g Hr) by done.
      erewrite bool_decide_ext; [done|]. set_solver.
  - destruct (decide (g = fd)) as [->|Hg].
    + rewrite lookup_delete_eq, bool_decide_eq_false_2 by set_solver. done.
    + rewrite lookup_insert_ne, lookup_delete_ne, (select_armed_lookup r g Hr) by done.
      erewrite bool_decide_ext; [done|]. set_solver.
Qed.

#[global, program] Instance select_laws : ReactorLaws Select := {|
  rep := select_rep; good_fd fd := 0 <= fd < FD_SETSIZE; fits _ _ := True |}.
Next Obligation. done. Qed.
Next Obligation.
  intros r fd ev s Hr Hg _ Hs Hn. pose proof Hr as [Hd Hid]. cbn in *. unfold select_add. rewrite Hs. cbn [mbind option_bind].
  rewrite (proj2 (Z.ltb_ge FD_SETSIZE fd)) by lia. rewrite <- Hd in Hn. apply not_elem_of_dom in Hn as Hn'. rewrite Hn'.
  set (r' := with_impl _ _). exists r'. split; [done|].
  assert (select_rep r') as Hr'.
  { split; cbn; [by rewrite dom_insert_L, Hd|]. intros g id. destruct (decide (g = fd)) as [->|Hne].
    - rewrite lookup_insert_eq. intros [= <-]. destruct (Z.ltb_spec (maxfd (impl r)) fd); split_and!; (done || lia || set_solver).
    - rewrite lookup_insert_ne by done. intros (-> & ? & ? & ?)%Hid.
      destruct (Z.ltb_spec (maxfd (impl r)) fd); split_and!; (done || lia || set_solver). }
  split_and!; try done. by apply (proj1 (select_armed_change r r' fd _ Hr Hr' eq_refl)).
Qed.
Next Obligation.
  intros r fd ev s Hr Hg Hs Hn He Hrm. cbn in *. unfold select_add. rewrite Hs. cbn [mbind option_bind].
  rewrite (proj2 (Z.ltb_ge FD_SETSIZE fd)) by lia. destruct Hr as [Hd Hid]. pose proof Hn as Hn'.
  rewrite <- Hd in Hn'. apply elem_of_dom in Hn' as [x Hx]. rewrite Hx. eexists. f_equal. f_equal.
  destruct r as [sk st [f mx a b c]]; cbn in *. unfold with_impl, _add. cbn. f_equal; [|set_solver|].
  - rewrite insert_id; [done|]. rewrite Hs. f_equal. destruct s; cbn in *. congruence.
  - destruct (Hid _ _ Hx) as (_ & _ & Hm & _). by rewrite (proj2 (Z.ltb_ge mx fd)).
Qed.
Next Obligation.
  intros r fd ev ev0 s Hr Hg Hs Hn. pose proof Hr as [Hd Hid]. cbn in *. unfold select_set. cbn. rewrite lookup_insert_eq.
  cbn [mbind option_bind]. pose proof Hn as Hn'. rewrite <- Hd in Hn'. apply elem_of_dom in Hn' as [x Hx]. rewrite Hx.
  set (r' := _set _ _ _ _). exists r'. split; [done|].
  assert (sock r' = <[fd := MkSock ev (removed s) (event_hup s) (fd_type s)]> (sock r)) as Hsk
    by (cbn; by rewrite insert_insert_eq).
  assert (select_rep r') as Hr'.
  { split; [done|]. rewrite Hsk. intros g id (-> & ? & ? & ?)%Hid. split_and!; (done || lia || set_solver). }
  split_and!; try done. apply (proj1 (select_armed_change r r' fd _ Hr Hr' Hsk)). cbn. set_solver.
Qed.
Next Obligation.
  intros r fd s Hr Hg _ Hs Hn Hrm. pose proof Hr as [Hd Hid]. cbn in *. unfold select_del. rewrite Hs.
  cbn [mbind option_bind]. rewrite Hrm. pose proof Hn as Hn'. rewrite <- Hd in Hn'. apply elem_of_dom in Hn' as [x Hx]. rewrite Hx.
  set (r' := _del _ _ _). exists r'. split; [done|].
  assert (select_rep r') as Hr'.
  { split; cbn; [by rewrite dom_delete_L, Hd|]. intros g id. rewrite lookup_delete_Some.
    intros [_ (-> & ? & ? & ?)%Hid]. split_and!; (done || lia || set_solver). }
  split_and!; try done. by apply (proj2 (select_armed_change r r' fd _ Hr Hr' eq_refl)).
Qed.
Next Obligation. intros r fd s Hs Hrm. cbn. unfold select_del. rewrite Hs. cbn. by rewrite Hrm. Qed.

(** ** The three reactors *)

(** Socket objects as [make_socket] leaves them, and empty reactors. *)
Definition new_sock (t : Z) : Sock := MkSock 0 true false t.
Definition epoll_reactor (types : gmap Z Z) : Reactor Epoll := MkReactor (new_sock <$> types) ∅ (MkEpoll ∅).
Definition poll_reactor (types : gmap Z Z) (arrays : list Pollfd) : Reactor Poll :=
  MkReactor (new_sock <$> types) ∅ (MkPoll arrays).
Definition select_reactor (types : gmap Z Z) : Reactor Select :=
  MkReactor (new_sock <$> types) ∅ (MkSelect ∅ 0 ∅ ∅ ∅).

Lemma agrees_empty `{ReactorLaws Imp} (types : gmap Z Z) i :
  let r := MkReactor (new_sock <$> types) ∅ i in
  rep r → armed r = ∅ → fits r 0 → agrees r ∅.
Proof.
  intros r Hr Ha Hf. split; try done.
  intros fd s. cbn. rewrite lookup_fmap. destruct (types !! fd); cbn; [|done]. by intros [= <-].
Qed.

(** C7: the three implementations watch the same events.  With a kernel that refuses no call,
    after any sequence of operations on
    known descriptors below [FD_SETSIZE], with fewer than [max_fd_num] registered at a time,
    what [epoll], [poll] and [select] wait for is the map of the interests that were added
    and not removed, and no array was left. *)
Theorem reactors_watch_interests (types : gmap Z Z) (arrays : list Pollfd) ops :
  Forall (λ x, 0 <= x.2 < FD_SETSIZE ∧ x.2 ∈ dom types) ops →
  (∀ pre suf, ops = pre ++ suf → (size (interest_run pre ∅) < length arrays)%nat) →
  ∃ e p s, rrun ops (epoll_reactor types) = Some e ∧ rrun ops (poll_reactor types arrays) = Some p ∧
    rrun ops (select_reactor types) = Some s ∧
    armed e = interest_run ops ∅ ∧ armed p = interest_run ops ∅ ∧ armed s = interest_run ops ∅.
Proof.
  intros Hgood Hsize.
  assert (∀ P : Z → Prop, (∀ fd, 0 <= fd < FD_SETSIZE → P fd) →
    Forall (λ x : rop * Z, P x.2 ∧ x.2 ∈ dom (new_sock <$> types)) ops) as Hok.
  { intros P HP. eapply Forall_impl; [exact Hgood|]. intros x [??]. rewrite dom_fmap_L. auto. }
  pose proof (Hsize [] ops eq_refl) as H0. cbn in H0.
  destruct (rrun_agrees (length arrays - 1) ops (epoll_reactor types) ∅) as (e & He & Hae).
  { by apply agrees_empty. } { done. } { intros pre suf ->. pose proof (Hsize pre suf eq_refl). lia. } { by apply Hok. }
  destruct (rrun_agrees (length arrays - 1) ops (poll_reactor types arrays) ∅) as (p & Hp & Hap).
  { assert (get_event_num (poll_reactor types arrays) = 0%nat) as Hz by (apply size_empty).
    assert (polled (poll_reactor types arrays) = []) as Hnil by (unfold polled; by rewrite Hz).
    apply agrees_empty; [|change (poll_armed (poll_reactor types arrays) = ∅); unfold poll_armed; by rewrite Hnil|cbn; lia].
    change (poll_rep (poll_reactor types arrays)).
    split_and!; [rewrite Hz; lia|rewrite Hnil; constructor|rewrite Hnil; set_solver]. } { cbn. lia. }
  { intros pre suf ->. pose proof (Hsize pre suf eq_refl). lia. } { by apply Hok. }
  destruct (rrun_agrees (length arrays - 1) ops (select_reactor types) ∅) as (s & Hs & Has).
  { apply agrees_empty; [split; [done|]|done|done]. intros fd id. cbn. by rewrite lookup_empty. } { done. }
  { intros pre suf ->. pose proof (Hsize pre suf eq_refl). lia. } { by apply Hok. }
  exists e, p, s. split_and!; try done; [apply Hae|apply Hap|apply Has].
Qed.

(** ** Where the story breaks *)

(** [del_event] of the last event keeps the socket registered with [events = 0], which the
    implementations read as "readable": [epoll] goes on reporting input. *)
Lemma del_event_keeps_reading (r : Reactor Epoll) fd s :
  rep r → sock r !! fd = Some s → fd ∈ sockets_ r → events s = OSW_EVENT_READ →
  ∃ r', del_event 0 fd OSW_EVENT_READ r = Some (OSW_OK, r') ∧
    (∃ s', sock r' !! fd = Some s' ∧ events s' = 0) ∧ armed r' !! fd = Some (true, false).
Proof.
  intros Hr Hs Hn He. unfold del_event. rewrite Hs. cbn [mbind option_bind]. rewrite He. cbn [has].
  destruct (set_known r fd 0 (events s) s Hr Logic.I Hs Hn) as (r' & E & _ & _ & _ & Hsk & Ha).
  assert (_set fd (events s) s r = r) as Hid.
  { destruct r, s; cbn in *. unfold _set. cbn. f_equal. by apply insert_id. }
  rewrite Hid in E. change (without OSW_EVENT_READ OSW_EVENT_READ) with 0. rewrite E.
  exists r'. split; [done|]. rewrite Hsk, Ha, !lookup_insert_eq. eauto.
Qed.

(** The operations change [events] before the kernel agrees: after a failure the socket
    claims an event that is not watched. *)
Example failed_add_disagrees :
  let r0 := epoll_reactor {[7 := 0]} in
  ∃ r1 r2, add_write_event 0 7 r0 = Some (OSW_OK, r1) ∧ add_read_event 12 7 r1 = Some (OSW_ERR, r2) ∧
    (s ← sock r2 !! 7; Some (events s)) = Some (Z.lor OSW_EVENT_READ OSW_EVENT_WRITE) ∧
    armed r2 !! 7 = Some (false, true).
Proof. eexists _, _. by split_and!. Qed.

(** [ReactorPoll::del] copies the entry behind the last one: on a full array it reads
    past the end. *)
Example poll_del_reads_past :
  let r0 := poll_reactor {[7 := 0]} [MkPollfd 0 0 0 0] in
  ∃ r1, add_read_event 0 7 r0 = Some (OSW_OK, r1) ∧ remove_read_event 0 7 r1 = None.
Proof. eexists. by split_and!. Qed.

(** [ReactorSelect::add] accepts the descriptor [FD_SETSIZE], which is never watched. *)
Example select_limit_off_by_one :
  ∃ r1, add_read_event 0 1024 (select_reactor {[1024 := 0]}) = Some (OSW_OK, r1) ∧
    armed r1 !! 1024 = Some (false, false).
Proof. eexists. by split_and!. Qed.

(** A run over two sockets. *)
Definition demo_ops : list (rop * Z) := [(AddRead, 3); (AddWrite, 3); (AddRead, 4); (RemoveRead, 3); (Delete, 4)].

Lemma reactors_watch_interests_witness :
  let types : gmap Z Z := {[3 := 0; 4 := 0]} in
  let arrays := repeat (MkPollfd 0 0 0 0) 3 in
  ∃ e p s, rrun demo_ops (epoll_reactor types) = Some e ∧ rrun demo_ops (poll_reactor types arrays) = Some p ∧
    rrun demo_ops (select_reactor types) = Some s ∧
    armed e = interest_run demo_ops ∅ ∧ armed p = interest_run demo_ops ∅ ∧ armed s = interest_run demo_ops ∅.
Proof.
  intros types arrays. apply (reactors_watch_interests types arrays demo_ops).
  - repeat constructor; by vm_compute.
  - intros pre suf E. do 5 (destruct pre as [|? pre]; [vm_compute; lia|injection E as <- E]).
    destruct pre as [|? pre]; [vm_compute; lia|discriminate].
Defined.

Example demo_ops_end : interest_run demo_ops ∅ = {[3 := (false, true)]}.
Proof. by vm_compute. Qed.
