(* ===== verification/ReactorLoop.v ===== *)
(** * The event loop: [wait] of src/reactor/epoll.cc, poll.cc and select.cc, the handler
      tables and end callbacks of src/reactor/base.cc

    What the kernel reports is a list of answers to the coming waits.  Handlers and tasks
    are parameters; [calls] and [done_tasks] record which ran.  Calling a null handler or
    leaving an array has no result. *)

From stdpp Require Import gmap list.
From S2P Require Import Prelude Reactor.

(** ** Handlers and dispatch *)

Inductive kind := KRead | KWrite | KError.

Section Dispatch.
Context {Imp H T : Type}.

Record Handlers := MkHandlers {
  read_handler : gmap Z H; write_handler : gmap Z H; error_handler : gmap Z H;
  default_write_handler : option H; default_error_handler : option H }.

(** The reactor with its handlers, the calls made so far and the state of the loop. *)
Record Loop := MkLoop {
  core : Reactor Imp; handlers : Handlers; calls : list (kind * H * Z);
  running : bool; once : bool; wait_exit : bool; defer_tasks : option (list T);
  done_tasks : list T; timeout_msec : Z; waited : list Z }.

Definition with_core (l : Loop) (r : Reactor Imp) : Loop :=
  MkLoop r (handlers l) (calls l) (running l) (once l) (wait_exit l) (defer_tasks l) (done_tasks l) (timeout_msec l) (waited l).
Definition with_call (l : Loop) (c : kind * H * Z) : Loop :=
  MkLoop (core l) (handlers l) (calls l ++ [c]) (running l) (once l) (wait_exit l) (defer_tasks l) (done_tasks l) (timeout_msec l) (waited l).
Definition with_tasks (l : Loop) (q : option (list T)) (d : list T) : Loop :=
  MkLoop (core l) (handlers l) (calls l) (running l) (once l) (wait_exit l) q d (timeout_msec l) (waited l).
Definition with_running (l : Loop) (b : bool) : Loop :=
  MkLoop (core l) (handlers l) (calls l) b (once l) (wait_exit l) (defer_tasks l) (done_tasks l) (timeout_msec l) (waited l).
Definition with_timeout (l : Loop) (t : Z) : Loop :=
  MkLoop (core l) (handlers l) (calls l) (running l) (once l) (wait_exit l) (defer_tasks l) (done_tasks l) t (waited l).

Definition with_wait (l : Loop) (t : Z) : Loop :=
  MkLoop (core l) (handlers l) (calls l) (running l) (once l) (wait_exit l) (defer_tasks l) (done_tasks l) (timeout_msec l)
    (waited l ++ [t]).

(** [Reactor::set_handler]. *)
Definition set_handler (_fdtype : Z) (handler : H) (h : Handlers) : bool * Handlers :=
  let fdtype := get_fd_type _fdtype in
  let '(MkHandlers rd wr er dw de) := h in
  if OSW_MAX_FDTYPE <=? fdtype then (false, h)
  else if isset_read_event _fdtype then (true, MkHandlers (<[fdtype := handler]> rd) wr er dw de)
  else if isset_write_event _fdtype then (true, MkHandlers rd (<[fdtype := handler]> wr) er dw de)
  else if isset_error_event _fdtype then (true, MkHandlers rd wr (<[fdtype := handler]> er) dw de)
  else (false, h).

(** [Reactor::get_handler] and [get_error_handler]. *)
Definition get_handler (k : kind) (fd_type : Z) (h : Handlers) : option H :=
  match k with
  | KRead => read_handler h !! fd_type
  | KWrite => match write_handler h !! fd_type with Some x => Some x | None => default_write_handler h end
  | KError => match error_handler h !! fd_type with Some x => Some x | None => default_error_handler h end
  end.
Definition get_error_handler (fd_type : Z) (h : Handlers) : option H :=
  match get_handler KError fd_type h with
  | Some x => Some x
  | None => match get_handler KRead fd_type h with
            | Some x => Some x
            | None => get_handler KWrite fd_type h
            end
  end.

(** What a handler does to the reactor. *)
Variable exec : kind → H → Z → Loop → option Loop.

(** [handler(reactor_, &event)]; calling a null handler has no result. *)
Definition invoke (k : kind) (fd : Z) (h : option H) (l : Loop) : option Loop :=
  x ← h; exec k x fd (with_call l (k, x, fd)).

Definition is_removed (fd : Z) (l : Loop) : option bool := s ← sock (core l) !! fd; Some (removed s).

(** A guarded call: [if (cond && !event.socket->removed)]. *)
Definition guarded (cond : bool) (fd : Z) (f : Loop → option Loop) (l : Loop) : option Loop :=
  gone ← is_removed fd l;
  if cond && negb gone then f l else Some l.

(** [event_hup = 1]. *)
Definition mark_hup (cond : bool) (fd : Z) (l : Loop) : option Loop :=
  s ← sock (core l) !! fd;
  Some (if cond then with_core l (MkReactor (<[fd := MkSock (events s) (removed s) true (fd_type s)]> (sock (core l)))
                       (sockets_ (core l)) (impl (core l)))
        else l).

(** One event of [ReactorEpoll::wait]. *)
Definition epoll_bad : Z := Z.lor (Z.lor EPOLLRDHUP EPOLLERR) EPOLLHUP.

Definition epoll_event (fd ev : Z) (l : Loop) : option Loop :=
  s ← sock (core l) !! fd;
  let t := fd_type s in
  l ← mark_hup (has ev epoll_bad) fd l;
  l ← guarded (has ev EPOLLIN) fd (λ l, invoke KRead fd (get_handler KRead t (handlers l)) l) l;
  l ← guarded (has ev EPOLLOUT) fd (λ l, invoke KWrite fd (get_handler KWrite t (handlers l)) l) l;
  gone ← is_removed fd l;
  if has ev epoll_bad && negb gone && (has ev EPOLLIN || has ev EPOLLOUT) then Some l else
  l ← guarded (has ev epoll_bad) fd (λ l, invoke KError fd (get_error_handler t (handlers l)) l) l;
  s ← sock (core l) !! fd;
  Some (if negb (removed s) && has (events s) OSW_EVENT_ONCE then with_core l (_del fd s (core l)) else l).

Fixpoint epoll_events (batch : list (Z * Z)) (l : Loop) : option Loop :=
  match batch with
  | [] => Some l
  | (fd, ev) :: batch => l ← epoll_event fd ev l; epoll_events batch l
  end.

(** ** Deferred tasks, end callbacks and the loop *)

(** [Reactor::defer]. *)
Definition defer (t : T) (l : Loop) : Loop :=
  with_tasks l (Some (default [] (defer_tasks l) ++ [t])) (done_tasks l).

(** What a deferred task does. *)
Variable run_task : T → Loop → option Loop.

(** [CallbackManager::execute]. *)
Fixpoint execute (q : list T) (l : Loop) : option Loop :=
  match q with
  | [] => Some l
  | t :: q => l ← run_task t (with_tasks l (defer_tasks l) (done_tasks l ++ [t])); execute q l
  end.

(** The end callback [PRIORITY_DEFER_TASK]: the list is detached before its tasks run. *)
Definition run_deferred (l : Loop) : option Loop :=
  match defer_tasks l with
  | None => Some l
  | Some q => execute q (with_tasks l None (done_tasks l))
  end.

(** [Reactor::if_exit]: the conditions run in the order of their ids and may lower the
    number of events; [conds] are those registered between [DEFER_TASK] and [DEFAULT]. *)
Variable conds : list (Loop → Z → bool * Z).

Fixpoint check_conds (cs : list (Loop → Z → bool * Z)) (l : Loop) (n : Z) : bool :=
  match cs with
  | [] => n =? 0
  | c :: cs => let '(b, n) := c l n in b && check_conds cs l n
  end.
Definition if_exit (l : Loop) : bool :=
  bool_decide (defer_tasks l = None) && check_conds conds l (Z.of_nat (get_event_num (core l))).

(** [execute_end_callbacks]: timers, deferred tasks, the idle task, signals, the exit test;
    the first, third and fourth belong to other components. *)
Variables timer_callback idle_callback signal_callback : Loop → option Loop.

Definition try_exit (l : Loop) : Loop := if wait_exit l && if_exit l then with_running l false else l.
Definition execute_end_callbacks (l : Loop) : option Loop :=
  l ← timer_callback l; l ← run_deferred l; l ← idle_callback l; l ← signal_callback l; Some (try_exit l).

Definition get_timeout_msec (l : Loop) : Z :=
  match defer_tasks l with None => timeout_msec l | Some _ => 0 end.

(** What one wait of the kernel returns. *)
Inductive answer := Ready (batch : list (Z * Z)) | TimedOut | Interrupted | WaitFailed.

(** [onBegin], the future task. *)
Variable on_begin : Loop → option Loop.

(** The loop of [ReactorEpoll::wait]; it is still waiting when the answers are used up. *)
Fixpoint epoll_loop (answers : list answer) (l : Loop) : option (option Z * Loop) :=
  if negb (running l) then Some (Some OSW_OK, l) else
  l ← on_begin l;
  let l := with_wait l (get_timeout_msec l) in
  match answers with
  | [] => Some (None, l)
  | a :: answers =>
    match a with
    | WaitFailed => Some (Some OSW_ERR, l)
    | a =>
      l ← (match a with Ready batch => epoll_events batch l | _ => Some l end);
      l ← execute_end_callbacks l;
      if once l then Some (Some OSW_OK, l) else epoll_loop answers l
    end
  end.

(** [ReactorEpoll::wait]: [timeo] is the time limit in milliseconds. *)
Definition epoll_wait (timeo : option Z) (answers : list answer) (l : Loop) : option (option Z * Loop) :=
  let l := if timeout_msec l =? 0 then with_timeout l (default (-1) timeo) else l in
  epoll_loop answers (with_running l true).
End Dispatch.
Arguments Handlers : clear implicits.
Arguments Loop : clear implicits.

(** ** The dispatch loops of [poll] and [select] *)

Section Others.
Context {H T : Type}.

Section PollDispatch.
Variable exec : kind → H → Z → Loop Poll H T → option (Loop Poll H T).

(** [events_[i].revents]; the arrays may have moved since the last look. *)
Definition revents (i : nat) (l : Loop Poll H T) : option Z :=
  e ← entries (impl (core l)) !! i; Some (p_revents e).

Definition poll_bad : Z := Z.lor POLLHUP POLLERR.

(** The body of the loop of [ReactorPoll::wait] at the index [i]. *)
Definition poll_entry (i : nat) (l : Loop Poll H T) : option (Loop Poll H T) :=
  e ← entries (impl (core l)) !! i;
  let fd := p_sock e in
  s ← sock (core l) !! fd;
  let t := fd_type s in
  l ← mark_hup (has (p_revents e) poll_bad) fd l;
  ev ← revents i l;
  l ← guarded (has ev POLLIN) fd (λ l, invoke exec KRead fd (get_handler KRead t (handlers l)) l) l;
  ev ← revents i l;
  l ← guarded (has ev POLLOUT) fd (λ l, invoke exec KWrite fd (get_handler KWrite t (handlers l)) l) l;
  ev ← revents i l;
  gone ← is_removed fd l;
  if has ev poll_bad && negb gone && (has ev POLLIN || has ev POLLOUT) then Some l else
  l ← guarded (has ev poll_bad) fd (λ l, invoke exec KError fd (get_error_handler t (handlers l)) l) l;
  s ← sock (core l) !! fd;
  if negb (removed s) && has (events s) OSW_EVENT_ONCE
  then '(_, r) ← poll_del 0 fd (core l); Some (with_core l r) else Some l.

(** The loop, whose bound [get_event_num] is read again at each step; [n] is the number of
    entries of the arrays behind [i]. *)
Fixpoint poll_entries (n i : nat) (l : Loop Poll H T) : option (Loop Poll H T) :=
  if Nat.ltb i (get_event_num (core l)) then
    match n with
    | O => None
    | S n => l ← poll_entry i l; poll_entries n (S i) l
    end
  else Some l.
Definition poll_dispatch (l : Loop Poll H T) : option (Loop Poll H T) :=
  poll_entries (length (entries (impl (core l)))) 0 l.
End PollDispatch.

Section SelectDispatch.
Variable exec : kind → H → Z → Loop Select H T → option (Loop Select H T).

(** [OSW_FD_ISSET]. *)
Definition fd_isset (fd : Z) (s : gset Z) : bool := (fd <? FD_SETSIZE) && bool_decide (fd ∈ s).

(** The body of the loop of [ReactorSelect::wait] at the descriptor [fd]. *)
Definition select_fd (fd : Z) (l : Loop Select H T) : option (Loop Select H T) :=
  match fds (impl (core l)) !! fd with
  | None => Some l
  | Some id =>
    s ← sock (core l) !! id;
    let t := fd_type s in
    l ← guarded (fd_isset fd (rfds (impl (core l)))) id
          (λ l, invoke exec KRead id (get_handler KRead t (handlers l)) l) l;
    l ← guarded (fd_isset fd (wfds (impl (core l)))) id
          (λ l, invoke exec KWrite id (get_handler KWrite t (handlers l)) l) l;
    l ← guarded (fd_isset fd (efds (impl (core l)))) id
          (λ l, invoke exec KError id (get_handler KError t (handlers l)) l) l;
    s ← sock (core l) !! id;
    if negb (removed s) && has (events s) OSW_EVENT_ONCE
    then '(_, r) ← select_del 0 id (core l); Some (with_core l r) else Some l
  end.
Fixpoint select_fds (n : nat) (fd : Z) (l : Loop Select H T) : option (Loop Select H T) :=
  if fd <=? maxfd (impl (core l)) then
    match n with
    | O => None
    | S n => l ← select_fd fd l; select_fds n (fd + 1) l
    end
  else Some l.
Definition select_dispatch (l : Loop Select H T) : option (Loop Select H T) :=
  select_fds (Z.to_nat FD_SETSIZE + 1) 0 l.

(** The time limit of [select] in seconds and microseconds. *)
Definition select_timeout (l : Loop Select H T) : Z * Z :=
  if timeout_msec l <? 0 then (2 ^ 32 - 1, 0)
  else match defer_tasks l with
       | Some _ => (0, 0)
       | None => let sec := timeout_msec l / 1000 in (sec, timeout_msec l - sec * 1000)
       end.
End SelectDispatch.
End Others.

(** ** The handler tables *)

Definition event_bit (k : kind) : Z :=
  match k with KRead => OSW_EVENT_READ | KWrite => OSW_EVENT_WRITE | KError => OSW_EVENT_ERROR end.

Lemma fd_type_table t k :
  0 <= t < OSW_MAX_FDTYPE →
  get_fd_type (Z.lor t (event_bit k)) = t ∧
  isset_read_event (Z.lor t (event_bit k)) = (if k is KRead then true else false) ∧
  isset_write_event (Z.lor t (event_bit k)) = (if k is KWrite then true else false) ∧
  isset_error_event (Z.lor t (event_bit k)) = (if k is KError then true else false).
Proof.
  intros Ht. assert (t ∈ seqZ 0 32) as Hin by (apply elem_of_seqZ; unfold OSW_MAX_FDTYPE in Ht; lia).
  assert (∀ k, Forall (λ t, get_fd_type (Z.lor t (event_bit k)) = t ∧
    isset_read_event (Z.lor t (event_bit k)) = (if k is KRead then true else false) ∧
    isset_write_event (Z.lor t (event_bit k)) = (if k is KWrite then true else false) ∧
    isset_error_event (Z.lor t (event_bit k)) = (if k is KError then true else false)) (seqZ 0 32)) as Hall.
  { intros []; vm_compute; repeat constructor. }
  by apply (proj1 (Forall_forall _ _) (Hall k)).
Qed.

(** Setting a handler changes the table of its event at its type, and nothing else. *)
Lemma set_get_handler {H} t k (x : H) h :
  0 <= t < OSW_MAX_FDTYPE →
  ∃ h', set_handler (Z.lor t (event_bit k)) x h = (true, h') ∧ get_handler k t h' = Some x ∧
    (∀ k' t', (k', t') ≠ (k, t) → get_handler k' t' h' = get_handler k' t' h) ∧
    (k = KRead → set_handler t x h = (true, h')).
Proof.
  intros Ht. destruct h as [rd wr er dw de]. unfold set_handler.
  destruct (fd_type_table t k Ht) as (-> & -> & -> & ->).
  rewrite (proj2 (Z.leb_gt OSW_MAX_FDTYPE t)) by lia.
  assert (get_fd_type t = t ∧ isset_read_event t = true) as [Hplain ->].
  { split; [|unfold isset_read_event; by rewrite (proj2 (Z.ltb_lt t OSW_EVENT_DEAULT))
      by (change OSW_EVENT_DEAULT with 256; unfold OSW_MAX_FDTYPE in Ht; lia)].
    assert (t ∈ seqZ 0 32) as Hin by (apply elem_of_seqZ; unfold OSW_MAX_FDTYPE in Ht; lia).
    assert (Forall (λ t, get_fd_type t = t) (seqZ 0 32)) as Hall by (vm_compute; repeat constructor).
    by apply (proj1 (Forall_forall _ _) Hall). }
  rewrite Hplain, (proj2 (Z.leb_gt OSW_MAX_FDTYPE t)) by lia.
  destruct k; (eexists; split; [done|]); cbn; rewrite lookup_insert_eq; (split; [done|]); (split; [|done]);
    intros [] t' Hne; cbn; try done; (rewrite lookup_insert_ne; [done|congruence]).
Qed.

(** ** Dispatch by [epoll] *)

Section EpollDispatch.
Context {H T : Type}.
Let L : Type := (Loop Epoll H T).
Variable exec : kind → H → Z → L → option L.

Definition dead (fd : Z) (l : L) : Prop := ∃ s, sock (core l) !! fd = Some s ∧ removed s = true.
Definition calls_of (fd : Z) (l : L) : list (kind * H * Z) := filter (λ c, c.2 = fd) (calls l).

Section Removed.
(** Handlers do not dispatch events themselves and do not revive a removed socket. *)
Hypothesis exec_calls : ∀ k h fd l l', exec k h fd l = Some l' → calls l' = calls l.
Hypothesis exec_dead : ∀ k h fd g l l', exec k h fd l = Some l' → dead g l → dead g l'.

Definition quiet_for (g : Z) (l l' : L) : Prop := dead g l → dead g l' ∧ calls_of g l' = calls_of g l.

Lemma quiet_refl g l : quiet_for g l l.
Proof. by intros ?. Qed.
Lemma quiet_trans g l1 l2 l3 : quiet_for g l1 l2 → quiet_for g l2 l3 → quiet_for g l1 l3.
Proof. intros H1 H2 [Hd E1]%H1. apply H2 in Hd as [Hd E2]. split; [done|congruence]. Qed.

Lemma guarded_quiet g cond fd k h l l' :
  guarded cond fd (λ l, invoke exec k fd (h l) l) l = Some l' → quiet_for g l l'.
Proof.
  unfold guarded, is_removed, invoke. destruct (sock (core l) !! fd) as [s|] eqn:Hs; [|done]. cbn [mbind option_bind].
  destruct (cond && negb (removed s)) eqn:Hc; [|intros [= <-]; apply quiet_refl].
  destruct (h l) as [x|]; [|done]. cbn [mbind option_bind]. intros He Hd.
  apply andb_true_iff in Hc as [_ Hr%negb_true_iff].
  assert (g ≠ fd) as Hg by (intros ->; destruct Hd as (s' & Hs' & Hr'); congruence).
  split; [by eapply exec_dead|]. unfold calls_of. rewrite (exec_calls _ _ _ _ _ He). cbn [calls with_call].
  rewrite filter_app, filter_cons_False by (cbn; congruence). by rewrite filter_nil, app_nil_r.
Qed.

Lemma mark_hup_quiet g cond fd l l' : mark_hup cond fd l = Some l' → quiet_for g l l'.
Proof.
  unfold mark_hup. destruct (sock (core l) !! fd) as [s|] eqn:Hs; [|done]. cbn [mbind option_bind].
  intros [= <-] (s0 & Hs0 & Hr). destruct cond; [|by split; [exists s0|]]. split; [|done].
  unfold dead. cbn. destruct (decide (g = fd)) as [->|Hne].
  - rewrite lookup_insert_eq. eexists. split; [done|]. cbn. congruence.
  - rewrite lookup_insert_ne by done. by exists s0.
Qed.

Lemma del_quiet g fd s l :
  sock (core l) !! fd = Some s → quiet_for g l (with_core l (_del fd s (core l))).
Proof.
  intros Hs (s0 & Hs0 & Hr). split; [|done]. unfold dead. cbn. destruct (decide (g = fd)) as [->|Hne].
  - rewrite lookup_insert_eq. by eexists.
  - rewrite lookup_insert_ne by done. by exists s0.
Qed.

Lemma epoll_event_quiet g fd ev l l' : epoll_event exec fd ev l = Some l' → quiet_for g l l'.
Proof.
  unfold epoll_event. destruct (sock (core l) !! fd) as [s|] eqn:Hs; [|done]. cbn [mbind option_bind]. intros E.
  apply bind_Some in E as (l1 & E1%(mark_hup_quiet g) & E).
  apply bind_Some in E as (l2 & E2%(guarded_quiet g) & E).
  apply bind_Some in E as (l3 & E3%(guarded_quiet g) & E).
  pose proof (quiet_trans _ _ _ _ E1 (quiet_trans _ _ _ _ E2 E3)) as E13.
  apply bind_Some in E as (gone & _ & E). destruct (_ && _ && _); [by simplify_eq|].
  apply bind_Some in E as (l4 & E4%(guarded_quiet g) & E).
  pose proof (quiet_trans _ _ _ _ E13 E4) as E14.
  apply bind_Some in E as (s' & Hs' & [= <-]). destruct (_ && _); [|done].
  eapply quiet_trans; [done|]. by apply del_quiet.
Qed.

Lemma epoll_events_quiet g batch : ∀ l l', epoll_events exec batch l = Some l' → quiet_for g l l'.
Proof.
  induction batch as [|[fd ev] batch IH]; intros l l'; cbn [epoll_events].
  - intros [= <-]. apply quiet_refl.
  - intros (l1 & E1%(epoll_event_quiet g) & E2%IH)%bind_Some. by eapply quiet_trans.
Qed.
End Removed.

Section Steady.
(** Handlers that leave the sockets as they are. *)
Definition view (l : L) : gmap Z (Z * bool * Z) := (λ s, (events s, removed s, fd_type s)) <$> sock (core l).
Definition steady (l l' : L) : Prop := view l' = view l ∧ handlers l' = handlers l.
Hypothesis exec_steady : ∀ k h fd l, ∃ l', exec k h fd l = Some l' ∧ calls l' = calls l ∧ steady l l'.

(** The calls that one reported event asks for. *)
Definition due (l : L) (x : Z * Z) : list (kind * H * Z) :=
  let '(fd, ev) := x in
  match view l !! fd with
  | Some (_, false, t) =>
    let one k h := (λ y, (k, y, fd)) <$> option_list h in
    (if has ev EPOLLIN then one KRead (get_handler KRead t (handlers l)) else []) ++
    (if has ev EPOLLOUT then one KWrite (get_handler KWrite t (handlers l)) else []) ++
    (if has ev epoll_bad && negb (has ev EPOLLIN || has ev EPOLLOUT)
     then one KError (get_error_handler t (handlers l)) else [])
  | _ => []
  end.

(** A socket that can be dispatched: its handlers are set, and it stays registered. *)
Definition ready_fd (l : L) (fd : Z) : Prop :=
  ∃ ev rm t, view l !! fd = Some (ev, rm, t) ∧ has ev OSW_EVENT_ONCE = false ∧
    is_Some (get_handler KRead t (handlers l)) ∧ is_Some (get_handler KWrite t (handlers l)).

Lemma steady_trans l1 l2 l3 : steady l1 l2 → steady l2 l3 → steady l1 l3.
Proof. intros [??] [??]. split; congruence. Qed.

Lemma view_sock l fd ev rm t :
  view l !! fd = Some (ev, rm, t) → ∃ s, sock (core l) !! fd = Some s ∧ events s = ev ∧ removed s = rm ∧ fd_type s = t.
Proof. unfold view. rewrite lookup_fmap. intros ([] & -> & [=])%fmap_Some; subst. by eexists. Qed.

Lemma guarded_steady cond fd k t h l ev rm :
  view l !! fd = Some (ev, rm, t) → is_Some (h (handlers l)) →
  ∃ l', guarded cond fd (λ l, invoke exec k fd (h (handlers l)) l) l = Some l' ∧ steady l l' ∧
    calls l' = calls l ++ (if cond && negb rm then (λ y, (k, y, fd)) <$> option_list (h (handlers l)) else []).
Proof.
  intros Hv [x Hx]. destruct (view_sock _ _ _ _ _ Hv) as (s & Hs & _ & Hr & _).
  unfold guarded, is_removed. rewrite Hs. cbn [mbind option_bind]. rewrite Hr.
  destruct (cond && negb rm); [|exists l; rewrite app_nil_r; by split_and!].
  unfold invoke. rewrite Hx. cbn [mbind option_bind].
  destruct (exec_steady k x fd (with_call l (k, x, fd))) as (l' & -> & Hc & Hst). by exists l'.
Qed.

Lemma mark_hup_steady cond fd ev rm t l :
  view l !! fd = Some (ev, rm, t) → ∃ l', mark_hup cond fd l = Some l' ∧ steady l l' ∧ calls l' = calls l.
Proof.
  intros Hv. destruct (view_sock _ _ _ _ _ Hv) as (s & Hs & ? & ? & ?).
  unfold mark_hup. rewrite Hs. cbn [mbind option_bind]. eexists. split; [done|]. destruct cond; [|done].
  split; [|done]. split; [|done]. unfold view in *. cbn. rewrite fmap_insert. cbn. apply insert_id.
  rewrite Hv. congruence.
Qed.

Lemma error_handler_some t (h : Handlers H) : is_Some (get_handler KRead t h) → is_Some (get_error_handler t h).
Proof. intros [x Hx]. unfold get_error_handler. rewrite Hx. destruct (get_handler KError t h); eauto. Qed.

Lemma epoll_event_exact fd ev l :
  ready_fd l fd → ∃ l', epoll_event exec fd ev l = Some l' ∧ steady l l' ∧ calls l' = calls l ++ due l (fd, ev).
Proof.
  intros (evs & rm & t & Hv & Honce & Hrd & Hwr). unfold epoll_event, due. rewrite Hv.
  destruct (view_sock _ _ _ _ _ Hv) as (s & Hs & _ & _ & Ht). rewrite Hs. cbn [mbind option_bind]. rewrite Ht.
  destruct (mark_hup_steady (has ev epoll_bad) fd evs rm t l Hv) as (l1 & -> & [Hv1 Hh1] & Hc1). cbn [mbind option_bind].
  rewrite <- Hh1 in Hrd, Hwr. rewrite <- Hv1 in Hv.
  destruct (guarded_steady (has ev EPOLLIN) fd KRead t (get_handler KRead t) l1 evs rm Hv Hrd) as (l2 & -> & [Hv2 Hh2] & Hc2).
  cbn [mbind option_bind]. rewrite <- Hh2 in Hrd, Hwr. rewrite <- Hv2 in Hv.
  destruct (guarded_steady (has ev EPOLLOUT) fd KWrite t (get_handler KWrite t) l2 evs rm Hv Hwr) as (l3 & -> & [Hv3 Hh3] & Hc3).
  cbn [mbind option_bind]. rewrite <- Hh3 in Hrd, Hwr. rewrite <- Hv3 in Hv.
  pose proof (error_handler_some _ _ Hrd) as Her.
  destruct (view_sock _ _ _ _ _ Hv) as (s3 & Hs3 & _ & Hr3 & _). unfold is_removed. rewrite Hs3. cbn [mbind option_bind]. rewrite Hr3.
  destruct (guarded_steady (has ev epoll_bad) fd KError t (get_error_handler t) l3 evs rm Hv Her) as (l4 & Hg & [Hv4 Hh4] & Hc4).
  assert (steady l l3) as H03 by (split; congruence).
  rewrite Hc3, Hc2, Hc1, Hh2, Hh1 in Hc4. rewrite Hc2, Hc1, Hh1 in Hc3. rewrite Hh3, Hh2, Hh1 in Hc4.
  rewrite <- !(assoc_L (++)) in *.
  destruct (has ev epoll_bad && negb rm && (has ev EPOLLIN || has ev EPOLLOUT)) eqn:Hcase.
  - exists l3. split; [done|]. split; [done|]. rewrite Hc3.
    apply andb_true_iff in Hcase as [[-> Hnr]%andb_true_iff ->]. apply negb_true_iff in Hnr as ->.
    cbn [andb negb]. rewrite !andb_true_r, app_nil_r. by rewrite Hh2, Hh1.
  - rewrite Hg. cbn [mbind option_bind]. rewrite <- Hv4 in Hv.
    destruct (view_sock _ _ _ _ _ Hv) as (s4 & Hs4 & He4 & Hr4 & _). rewrite Hs4. cbn [mbind option_bind].
    rewrite He4, Honce, andb_false_r. exists l4. split; [done|]. split; [by eapply steady_trans|]. rewrite Hc4.
    destruct rm; cbn [negb]; [by rewrite !andb_false_r|]. rewrite !andb_true_r in *.
    destruct (has ev epoll_bad); cbn [andb] in *; [|done]. by rewrite Hcase.
Qed.

Lemma ready_steady l l' fd : steady l l' → ready_fd l fd → ready_fd l' fd.
Proof. unfold ready_fd. by intros [-> ->]. Qed.
Lemma due_steady l l' : steady l l' → due l' = due l.
Proof. unfold due. by intros [-> ->]. Qed.

Lemma epoll_events_exact batch : ∀ l,
  Forall (λ x, ready_fd l x.1) batch →
  ∃ l', epoll_events exec batch l = Some l' ∧ steady l l' ∧ calls l' = calls l ++ (batch ≫= due l).
Proof.
  induction batch as [|[fd ev] batch IH]; intros l Hr; cbn [epoll_events].
  - exists l. split; [done|]. split; [done|]. by rewrite app_nil_r.
  - apply Forall_cons in Hr as [Hfd Hr]. destruct (epoll_event_exact fd ev l Hfd) as (l1 & -> & Hst & Hc).
    cbn [mbind option_bind]. destruct (IH l1) as (l' & -> & Hst' & Hc').
    { eapply Forall_impl; [exact Hr|]. intros x. by apply ready_steady. }
    exists l'. split; [done|]. split; [by eapply steady_trans|].
    by rewrite Hc', Hc, (due_steady l l1 Hst), <- (assoc_L (++)).
Qed.
End Steady.
End EpollDispatch.

(** A socket that was removed is not served: once a handler has removed it, the remaining
    events of the batch call no handler for it, whatever the handlers do to other sockets. *)
Theorem epoll_removed_not_called {H T} (exec : kind → H → Z → Loop Epoll H T → option (Loop Epoll H T)) batch l l' fd :
  (∀ k h g x x', exec k h g x = Some x' → calls x' = calls x) →
  (∀ k h g g' x x', exec k h g x = Some x' → dead g' x → dead g' x') →
  epoll_events exec batch l = Some l' → dead fd l → calls_of fd l' = calls_of fd l ∧ dead fd l'.
Proof. intros Hc Hd E Hdead. by destruct (epoll_events_quiet exec Hc Hd fd batch l l' E Hdead). Qed.

(** Dispatch is exact: with handlers that leave the sockets registered, a batch of events
    calls, in order, the read handler for input, the write handler for output, and the error
    handler for an error that comes alone, of each socket that is not removed. *)
Theorem epoll_dispatch_exact {H T} (exec : kind → H → Z → Loop Epoll H T → option (Loop Epoll H T)) batch l :
  (∀ k h fd x, ∃ x', exec k h fd x = Some x' ∧ calls x' = calls x ∧ steady x x') →
  Forall (λ x, ready_fd l x.1) batch →
  ∃ l', epoll_events exec batch l = Some l' ∧ calls l' = calls l ++ (batch ≫= due l).
Proof. intros He Hr. destruct (epoll_events_exact exec He batch l Hr) as (l' & -> & _ & ?). by exists l'. Qed.

(** ** Deferred tasks *)

Section Deferred.
Context {Imp H T : Type}.
Variable run_task : T → Loop Imp H T → option (Loop Imp H T).
(** The tasks that a task defers. *)
Variable spawn : T → list T.
Definition more (q : option (list T)) (ts : list T) : option (list T) :=
  match ts with [] => q | _ => Some (default [] q ++ ts) end.
Hypothesis run_task_spec : ∀ t l, ∃ l', run_task t l = Some l' ∧ done_tasks l' = done_tasks l ∧
  timeout_msec l' = timeout_msec l ∧ defer_tasks l' = more (defer_tasks l) (spawn t).

Lemma more_app q ts us : more (more q ts) us = more q (ts ++ us).
Proof. destruct ts, us; cbn; rewrite ?app_nil_r; [done..|]. by rewrite <- (assoc_L (++)). Qed.

Lemma execute_exact q : ∀ l, ∃ l', execute run_task q l = Some l' ∧ done_tasks l' = done_tasks l ++ q ∧
  timeout_msec l' = timeout_msec l ∧ defer_tasks l' = more (defer_tasks l) (q ≫= spawn).
Proof.
  induction q as [|t q IH]; intros l; cbn [execute].
  - exists l. by rewrite app_nil_r.
  - destruct (run_task_spec t (with_tasks l (defer_tasks l) (done_tasks l ++ [t]))) as (l1 & -> & Hd & Ht & Hq).
    cbn [mbind option_bind]. destruct (IH l1) as (l' & -> & Hd' & Ht' & Hq'). exists l'. split; [done|].
    rewrite Hd', Hd, Ht', Ht, Hq', Hq. cbn. rewrite <- (assoc_L (++)). split_and!; [done|done|]. apply more_app.
Qed.

(** Deferred tasks run once, in order; the tasks they defer wait for the next round, before
    which the reactor does not block. *)
Theorem deferred_in_order l :
  ∃ l', run_deferred run_task l = Some l' ∧
    done_tasks l' = done_tasks l ++ default [] (defer_tasks l) ∧
    default [] (defer_tasks l') = (default [] (defer_tasks l) ≫= spawn) ∧
    get_timeout_msec l' = (if bool_decide (default [] (defer_tasks l) ≫= spawn = []) then timeout_msec l else 0).
Proof.
  unfold run_deferred, get_timeout_msec. destruct (defer_tasks l) as [q|] eqn:E.
  - destruct (execute_exact q (with_tasks l None (done_tasks l))) as (l' & -> & Hd & Ht & Hq).
    exists l'. split; [done|]. rewrite Hd, Ht, Hq. cbn.
    by destruct (q ≫= spawn).
  - exists l. by rewrite E, app_nil_r.
Qed.
End Deferred.

(** ** Leaving the loop *)

(** A reactor that waits for its exit leaves the loop at the first answer after its last
    socket and its last deferred task are gone. *)
Lemma loop_exits {H T} (exec : kind → H → Z → Loop Epoll H T → option (Loop Epoll H T)) run_task answers l :
  running l = true → wait_exit l = true → get_event_num (core l) = 0%nat → defer_tasks l = None →
  ∃ l', epoll_loop exec run_task [] Some Some Some Some (TimedOut :: answers) l = Some (Some OSW_OK, l') ∧ running l' = false.
Proof.
  intros Hr Hw Hn Hd. cbn [epoll_loop]. rewrite Hr. cbn [negb mbind option_bind].
  unfold execute_end_callbacks, run_deferred, try_exit, if_exit. cbn. rewrite Hd. cbn. rewrite Hw, Hd, Hn. cbn.
  change (Z.of_nat 0 =? 0) with true. cbn [once with_running with_wait].
  destruct (once l); [by eexists|]. destruct answers; by eexists.
Qed.

(** ** Concrete reactors *)

(** Three sockets of type 0 under [poll]; the entries' [revents] are given. *)
Definition poll_demo (es : list Pollfd) (n : list Z) (err : option Z) : Loop Poll Z Z :=
  MkLoop (MkReactor (list_to_map ((λ fd, (fd, MkSock OSW_EVENT_READ false false 0)) <$> n)
                     ∪ {[9 := new_sock 0]}) (list_to_set n) (MkPoll es))
    (MkHandlers {[0 := 1]} {[0 := 2]} ∅ None err) [] true false false None [] (-1) [].

(** [ReactorPoll::wait] looks at [events_[i]] again after each handler.  When the read
    handler of socket 4 removes socket 3, the entry of socket 5 takes the place of the entry
    of 4: the output that 5 can take is announced to 4, which is not writable, and 5 is not
    served in this round. *)
Example poll_misattributes :
  let es := [MkPollfd 3 3 POLLIN 0; MkPollfd 4 4 POLLIN POLLIN; MkPollfd 5 5 POLLIN POLLOUT; MkPollfd 0 0 0 0] in
  let exec k h fd l := if (fd =? 4) && (h =? 1) then '(_, r) ← poll_del 0 3 (core l); Some (with_core l r) else Some l in
  (l ← poll_dispatch exec (poll_demo es [3; 4; 5] None); Some (calls l)) = Some [(KRead, 1, 4); (KWrite, 2, 4)].
Proof. by vm_compute. Qed.

(** [ReactorPoll::add] leaves [revents] of the new entry as it was: a socket that a handler
    adds is served in the same round for an event it never had. *)
Example poll_stale_revents :
  let es := [MkPollfd 3 3 POLLIN POLLIN; MkPollfd 0 0 0 POLLOUT; MkPollfd 0 0 0 0] in
  let exec k h fd l := if (fd =? 3) then '(_, r) ← poll_add 0 9 OSW_EVENT_READ (core l); Some (with_core l r) else Some l in
  (l ← poll_dispatch exec (poll_demo es [3] None); Some (calls l)) = Some [(KRead, 1, 3); (KWrite, 2, 9)].
Proof. by vm_compute. Qed.

(** After an event of a socket added with [OSW_EVENT_ONCE], [epoll] forgets the socket
    without telling the kernel, which still has it: the socket cannot be added again. *)
Example epoll_once_not_readded :
  let l := MkLoop (T := Z) (MkReactor {[3 := MkSock (Z.lor OSW_EVENT_READ OSW_EVENT_ONCE) false false 0]} {[3]}
             (MkEpoll {[3 := get_events (Z.lor OSW_EVENT_READ OSW_EVENT_ONCE)]}))
             (MkHandlers {[0 := 1]} ∅ ∅ None None) [] true false false None [] (-1) [] in
  (l ← epoll_event (λ _ _ _ l, Some l) 3 EPOLLIN l; '(c, _) ← epoll_add 0 3 OSW_EVENT_READ (core l);
   Some (calls l, c)) = Some ([(KRead, 1, 3)], OSW_ERR).
Proof. by vm_compute. Qed.

(** [ReactorSelect::wait] asks for the error handler alone, which is often not set, where
    the others fall back to the read handler. *)
Example select_error_null :
  let core := MkReactor {[3 := MkSock OSW_EVENT_ERROR false false 0]} {[3]} (MkSelect {[3 := 3]} 3 ∅ ∅ {[3]}) in
  let l := MkLoop (T := Z) core (MkHandlers {[0 := 1]} ∅ ∅ None None) [] true false false None [] (-1) [] in
  select_dispatch (λ _ _ _ l, Some l) l = None ∧ get_error_handler 0 (handlers l) = Some 1.
Proof. by vm_compute. Qed.

(** The time limit of [select] takes the milliseconds below a second for microseconds, and
    without a limit it blocks although tasks are deferred. *)
Lemma select_timeout_short {H T} (l : Loop Select H T) :
  0 <= timeout_msec l → defer_tasks l = None →
  let '(sec, usec) := select_timeout l in
  sec * 1000000 + usec = timeout_msec l * 1000 - 999 * (timeout_msec l mod 1000).
Proof.
  intros Ht Hd. unfold select_timeout. rewrite (proj2 (Z.ltb_ge _ 0)), Hd by done.
  rewrite (Z.mod_eq (timeout_msec l) 1000) by done. lia.
Qed.

Lemma select_blocks_tasks {H T} (l : Loop Select H T) q :
  timeout_msec l < 0 → defer_tasks l = Some q → select_timeout l = (2 ^ 32 - 1, 0).
Proof. intros Ht _. unfold select_timeout. by rewrite (proj2 (Z.ltb_lt _ 0)). Qed.

(** ** Witnesses *)

Definition epoll_demo : Loop Epoll Z Z :=
  MkLoop (MkReactor {[3 := MkSock OSW_EVENT_READ false false 0; 4 := MkSock OSW_EVENT_READ false false 0]} {[3; 4]}
    (MkEpoll {[3 := EPOLLIN; 4 := EPOLLIN]}))
    (MkHandlers {[0 := 1]} {[0 := 2]} ∅ None None) [] true false false None [] (-1) [].

Lemma epoll_dispatch_exact_witness :
  ∃ l', epoll_events (λ _ _ _ l, Some l) [(3, Z.lor EPOLLIN EPOLLOUT); (4, EPOLLHUP)] epoll_demo = Some l' ∧
    calls l' = [(KRead, 1, 3); (KWrite, 2, 3); (KError, 1, 4)].
Proof.
  apply (epoll_dispatch_exact (λ _ _ _ l, Some l) [(3, Z.lor EPOLLIN EPOLLOUT); (4, EPOLLHUP)] epoll_demo).
  - intros k h fd x. exists x. by split_and!.
  - repeat constructor; (eexists _, _, _; split; [by vm_compute|]; split_and!; [done|by eexists|by eexists]).
Defined.

(** The read handler of socket 3 removes socket 4. *)
Definition closes_other (k : kind) (h fd : Z) (l : Loop Epoll Z Z) : option (Loop Epoll Z Z) :=
  if fd =? 3 then '(_, r) ← epoll_del 0 4 (core l); Some (with_core l r) else Some l.

Lemma closes_other_dead k h fd g l l' : closes_other k h fd l = Some l' → calls l' = calls l ∧ (dead g l → dead g l').
Proof.
  unfold closes_other, dead. destruct (fd =? 3); [|by intros [= <-]].
  unfold epoll_del. destruct (sock (core l) !! 4) as [s|] eqn:Hs; [|done]. cbn [mbind option_bind].
  destruct (removed s) eqn:Hr; [by intros [= <-]|]. destruct (epoll_ctl _ _ _ _) as [e i].
  destruct (_ && _ && _); intros [= <-]; [done|]. split; [done|]. intros (s0 & Hs0 & Hr0). cbn.
  destruct (decide (g = 4)) as [->|Hne]; [rewrite lookup_insert_eq; by eexists|].
  rewrite lookup_insert_ne by done. by exists s0.
Qed.

(** The same reactor once socket 4 is removed. *)
Definition epoll_demo4 : Loop Epoll Z Z :=
  with_core epoll_demo (_del 4 (new_sock 0) (with_impl (core epoll_demo) (MkEpoll {[3 := EPOLLIN]}))).

Lemma epoll_removed_not_called_witness :
  ∃ l', epoll_events closes_other [(4, EPOLLIN); (3, EPOLLIN)] epoll_demo4 = Some l' ∧
    calls_of 4 l' = calls_of 4 epoll_demo4 ∧ dead 4 l'.
Proof.
  eexists. split; [vm_compute; reflexivity|].
  apply (epoll_removed_not_called closes_other [(4, EPOLLIN); (3, EPOLLIN)] epoll_demo4).
  - intros k h g x x' E. by apply (closes_other_dead k h g g).
  - intros k h g g' x x' E. by apply (closes_other_dead k h g g').
  - vm_compute. reflexivity.
  - eexists. split; reflexivity.
Defined.
