(* ===== verification/Connection.v ===== *)
(** * The connection in the reactor thread: [Server::send_to_connection] of
      src/server/master.cc, [ReactorThread_onWrite], [ReactorThread_onClose],
      [Server::close_connection] of src/server/reactor_thread.cc, the closing half of
      [ProcessFactory::end] (src/server/process.cc) and [BaseFactory::end] (src/server/base.cc)

    A worker's answers reach the connection as events; data goes to the kernel at once or
    into the output buffer, and a close waits behind the buffered data.  The socket and its
    kernel are those of AsyncWrite.v; files ([sendfile], [handle_sendfile]) are parameters.
    The reactor is [epoll] without failures, as proved in Reactor.v for registered sockets.
    The build without TLS is modelled, and the idle timers are left out. *)

From S2P Require Import Prelude Buffer AsyncWrite.

(** What the workers are told. *)
Inductive note := NoteFull | NoteEmpty | NoteClose.

(** [struct Connection] with its socket; [read_event], the socket's [write_event] and
    [removed] are the socket's entry in the reactor.  [notes] are the notifications sent. *)
Record Conn := MkConn {
  csock : Socket; read_event : bool; removed : bool; direct_send : bool;
  active : bool; overflow : bool; high_watermark : bool; close_reset : bool; close_force : bool;
  peer_closed : bool; close_queued : bool; close_notify : bool; send_queued_bytes : Z;
  notes : list note }.

Definition with_sock (c : Conn) (s : Socket) : Conn :=
  MkConn s (read_event c) (removed c) (direct_send c) (active c) (overflow c) (high_watermark c) (close_reset c)
    (close_force c) (peer_closed c) (close_queued c) (close_notify c) (send_queued_bytes c) (notes c).
Definition with_events (c : Conn) (rd wr rm : bool) : Conn :=
  let s := csock c in
  MkConn (set_flags s wr (close_wait s) (send_wait s) (closed s)) rd rm (direct_send c) (active c) (overflow c)
    (high_watermark c) (close_reset c) (close_force c) (peer_closed c) (close_queued c) (close_notify c)
    (send_queued_bytes c) (notes c).
Definition with_water (c : Conn) (ov hw : bool) (ns : list note) : Conn :=
  MkConn (csock c) (read_event c) (removed c) (direct_send c) (active c) ov hw (close_reset c)
    (close_force c) (peer_closed c) (close_queued c) (close_notify c) (send_queued_bytes c) (notes c ++ ns).
Definition with_closing (c : Conn) (peer queued notify : bool) (ns : list note) : Conn :=
  MkConn (csock c) (read_event c) (removed c) (direct_send c) (active c) (overflow c) (high_watermark c)
    (close_reset c) (close_force c) peer queued notify (send_queued_bytes c) (notes c ++ ns).
Definition with_queued (c : Conn) (n : Z) : Conn :=
  MkConn (csock c) (read_event c) (removed c) (direct_send c) (active c) (overflow c) (high_watermark c)
    (close_reset c) (close_force c) (peer_closed c) (close_queued c) (close_notify c) n (notes c).

(** The settings of the server and the port. *)
Record Config := MkConfig {
  base_mode : bool; disable_notify : bool; onBufferFull : bool; onBufferEmpty : bool;
  buffer_high_watermark : Z; buffer_low_watermark : Z }.

Definition OSW_SEND_BUFFER_SIZE : Z := 65536.

(** ** The socket in the reactor *)

Definition reactor_set (rd wr : bool) (c : Conn) : Z * Conn :=
  if removed c then (OSW_ERR, c) else (OSW_OK, with_events c rd wr false).
Definition reactor_add (rd wr : bool) (c : Conn) : Z * Conn :=
  if removed c then (OSW_OK, with_events c rd wr false) else (OSW_ERR, c).
Definition reactor_del (c : Conn) : Z * Conn :=
  if removed c then (OSW_ERR, c) else (OSW_OK, with_events c false false true).
Definition add_write (c : Conn) : Conn :=
  snd (if read_event c then reactor_set true true c else reactor_add false true c).

(** [Server::close_connection]: the reactor forgets the socket, the record is cleared and the
    socket freed with what it still buffers. *)
Definition close_connection (c : Conn) : Z * Conn :=
  let s := csock c in
  (OSW_OK, MkConn (set_flags (set_buffer s None) false (close_wait s) (send_wait s) true) false true
    (direct_send c) false false false false false false false false 0 (notes c)).

Section Server.
Variable fresh : nat → bytes.
Variable serv : Config.
(** [Socket::sendfile] and [Socket::handle_sendfile]. *)
Variable sendfile : Socket → option (Z * Socket).
Variable handle_sendfile : Socket → option (Z * Socket).

(** [ReactorThread_onClose]. *)
Definition on_close (c : Conn) : Z * Conn :=
  if negb (active c) then (OSW_ERR, c)
  else if disable_notify serv then (OSW_OK, snd (close_connection c))
  else
    let '(r, c) := reactor_del c in
    if r =? 0 then
      if close_queued c then (OSW_OK, snd (close_connection c))
      else (OSW_OK, with_closing c true (close_queued c) (close_notify c) [NoteClose])
    else (OSW_ERR, c).

(** ** [Server::send_to_connection] *)

Inductive event := EvData (data : bytes) | EvFile | EvClose | EvPause | EvResume.

Definition ensure_buffer (s : Socket) : Socket :=
  match out_buffer s with Some _ => s | None => set_buffer s (Some (make_buffer OSW_SEND_BUFFER_SIZE)) end.

(** The direct send: what is left to be buffered, nothing when all was sent. *)
Definition try_direct (c : Conn) (data : bytes) : option bytes * Conn :=
  if negb (direct_send c) then (Some data, with_sock c (ensure_buffer (csock c))) else
  let '(r, s) := send (csock c) data in
  match r with
  | inl n => if n =? zlen data then (None, with_sock c s)
             else (Some (drop (Z.to_nat n) data), with_sock c (ensure_buffer s))
  | inr _ => (Some data, with_sock c (ensure_buffer s))
  end.

(** Waiting for the writable event. *)
Definition want_write (c : Conn) : Conn := if write_event (csock c) then c else add_write c.

(** The part for data behind the empty-buffer case. *)
Definition queue_data (c : Conn) (data : bytes) : option (Z * Conn) :=
  if peer_closed c then Some (0, c) (* return false *) else
  b ← out_buffer (csock c);
  let c := if length_ b >=? buffer_size (csock c)
           then with_water c true (high_watermark c || (onBufferEmpty serv && negb (onBufferFull serv))) []
           else c in
  b ← append fresh b data;
  let c := with_queued (with_sock c (set_buffer (csock c) (Some b))) (length_ b) in
  let c := if onBufferFull serv && negb (high_watermark c) && (length_ b >=? buffer_high_watermark serv)
           then with_water c (overflow c) true [NoteFull] else c in
  Some (OSW_OK, want_write c).

Definition queue_close (c : Conn) : option (Z * Conn) :=
  b ← out_buffer (csock c);
  let c := with_sock c (set_buffer (csock c) (Some (alloc fresh b TYPE_CLOSE 0))) in
  Some (OSW_OK, want_write (with_closing c (peer_closed c) true (close_notify c) [])).

Definition send_to_connection (e : event) (c : Conn) : option (Z * Conn) :=
  if negb (active c) then Some (OSW_ERR, c)
  else if base_mode serv && overflow c then Some (OSW_ERR, c)
  else
    match e with
    | EvClose =>
      if close_reset c || close_force c || peer_closed c || no_output (csock c)
      then Some (close_connection c) else queue_close c
    | EvPause =>
      if removed c || negb (read_event c) then Some (OSW_OK, c)
      else if write_event (csock c) then Some (reactor_set false true c) else Some (reactor_del c)
    | EvResume =>
      if negb (removed c) || read_event c then Some (OSW_OK, c)
      else if write_event (csock c) then Some (reactor_set true true c) else Some (reactor_add true false c)
    | EvFile =>
      let c := if no_output (csock c) then with_sock c (ensure_buffer (csock c)) else c in
      '(r, s) ← sendfile (csock c);
      if r <? 0 then Some (0, with_sock c s) (* return false *)
      else Some (OSW_OK, want_write (with_sock c s))
    | EvData data =>
      let '(rest, c) := if no_output (csock c) then try_direct c data else (Some data, c) in
      match rest with None => Some (OSW_OK, c) | Some rest => queue_data c rest end
    end.

(** ** [ReactorThread_onWrite] *)

(** How the loop ends: nothing is left, the kernel takes no more, the peer is gone, a close
    was reached. *)
Inductive drain := Drained | Blocked | Broken | Reached.

Fixpoint drain_loop (fuel : nat) (c : Conn) : option (drain * Conn) :=
  if no_output (csock c) then Some (Drained, c) else
  match fuel with
  | O => None
  | S fuel =>
    b ← out_buffer (csock c);
    k ← front b;
    match ctype k with
    | TYPE_CLOSE => Some (Reached, c)
    | t =>
      '(ret, s) ← match t with TYPE_SENDFILE => handle_sendfile (csock c) | _ => handle_send (csock c) end;
      b ← out_buffer s;
      let c := with_sock c s in
      let c := match t with TYPE_DATA => if ret =? OSW_OK then with_queued c (length_ b) else c | _ => c end in
      if ret <? 0 then
        if close_wait s then Some (Broken, c)
        else if send_wait s then Some (Blocked, c)
        else drain_loop fuel c
      else drain_loop fuel c
    end
  end.

(** The part behind the loop; it reads the length of a null buffer only with a flag set. *)
Definition after_drain (c : Conn) : option Conn :=
  match out_buffer (csock c) with
  | None => if overflow c || (onBufferEmpty serv && high_watermark c) then None
            else Some (if peer_closed c || removed c then c else snd (reactor_set true false c))
  | Some b =>
    let c := if overflow c && (length_ b <? buffer_size (csock c)) then with_water c false (high_watermark c) [] else c in
    let c := if onBufferEmpty serv && high_watermark c && (length_ b <=? buffer_low_watermark serv)
             then with_water c (overflow c) false [NoteEmpty] else c in
    Some (if negb (peer_closed c) && negb (removed c) && empty b then snd (reactor_set true false c) else c)
  end.

Definition on_write (c : Conn) : option (Z * Conn) :=
  if negb (active c) then Some (OSW_ERR, c)
  else if close_notify c then Some (OSW_OK, with_closing c (peer_closed c) (close_queued c) false [NoteClose])
  else if disable_notify serv && close_force c then Some (close_connection c)
  else
    '(d, c) ← drain_loop (work (csock c)) c;
    match d with
    | Reached => Some (close_connection c)
    | Broken => Some (on_close c)
    | _ => c ← after_drain c; Some (OSW_OK, c)
    end.
End Server.

(** ** Closing in the worker *)

(** The flags of a connection that the worker sees; [on_closes] counts the calls of the
    application's [onClose]. *)
Record Closing := MkClosing {
  w_active : bool; w_close_force : bool; closing : bool; w_closed : bool; w_close_reset : bool;
  close_actively : bool; w_peer_closed : bool; w_no_output : bool; on_closes : nat }.

Definition CLOSE_RESET : Z := 2.
Definition CLOSE_ACTIVELY : Z := 4.

Definition end_flags (flags : Z) (c : Closing) : Closing :=
  MkClosing (w_active c) (w_close_force c) (closing c) (w_closed c)
    (w_close_reset c || negb (Z.land flags CLOSE_RESET =? 0))
    (close_actively c || negb (Z.land flags CLOSE_ACTIVELY =? 0)) (w_peer_closed c) (w_no_output c) (on_closes c).

Definition do_close (c : Closing) : Closing :=
  MkClosing (w_active c) (w_close_force c) false true (w_close_reset c) (close_actively c) (w_peer_closed c)
    (w_no_output c) (S (on_closes c)).

(** The part of [ProcessFactory::end] behind the label [_close]: whether a close event is
    sent to the reactor. *)
Definition process_end (c : Closing) : bool * Closing :=
  if negb (w_active c) then (false, c)
  else if w_close_force c then (true, do_close c)
  else if closing c then (false, c)
  else if w_closed c then (false, c)
  else (true, do_close c).

(** [BaseFactory::end]: what is done with the socket. *)
Inductive base_close := Nothing | CloseNow | QueueClose.

Definition base_end (flags : Z) (c : Closing) : base_close * Closing :=
  if negb (w_active c) then (Nothing, c) else
  let c := end_flags flags c in
  if negb (w_close_force c) && (closing c || w_closed c) then (Nothing, c)
  else
    let c := do_close c in
    (if w_no_output c || w_peer_closed c || w_close_force c then CloseNow else QueueClose, c).

(** [Server::get_timeout_callback]: whether a connection is idle for too long; the times are
    milliseconds, [max_idle_time] is set in seconds. *)
Definition is_idle (max_idle_time ms last_received last_sent : Z) : bool :=
  negb ((ms - last_received <? max_idle_time) && (ms - last_sent <? max_idle_time)).

(** ** Chunks behind the data *)

(** The socket [s] with the chunks [t] behind its own. *)
Definition joined (s : Socket) (t : list BufferChunk) : Socket :=
  match t, out_buffer s with
  | _ :: _, Some b => set_buffer s (Some (set_queue b (queue b ++ t)))
  | _, _ => s
  end.

Lemma joined_fields s t :
  wire (joined s t) = wire s ∧ kernel (joined s t) = kernel s ∧ write_event (joined s t) = write_event s ∧
  close_wait (joined s t) = close_wait s ∧ send_wait (joined s t) = send_wait s ∧ closed (joined s t) = closed s ∧
  buffer_size (joined s t) = buffer_size s.
Proof. unfold joined. destruct t, (out_buffer s); done. Qed.

Lemma send_joined s t data : send (joined s t) data = let '(r, s') := send s data in (r, joined s' t).
Proof.
  unfold joined. destruct t as [|x t]; [by destruct (send s data)|]. destruct (out_buffer s) as [b|] eqn:E.
  - unfold send. cbn. destruct (kernel s) as [|[] ks]; cbn; by rewrite E.
  - unfold send. destruct (kernel s) as [|[] ks]; cbn; by rewrite E.
Qed.

(** Sending from the front does not touch what lies behind. *)
Lemma handle_send_joined s t b r s' :
  out_buffer s = Some b → queue b ≠ [] → handle_send s = Some (r, s') →
  handle_send (joined s t) = Some (r, joined s' t).
Proof.
  intros Eb Hq Hh. destruct t as [|x t]; [done|]. destruct (queue b) as [|c q] eqn:Q; [done|].
  unfold handle_send in *. rewrite Eb in Hh. cbn [mbind option_bind] in Hh. unfold front in *. rewrite Q in Hh. cbn [head mbind option_bind] in Hh.
  assert (out_buffer (joined s (x :: t)) = Some (set_queue b (queue b ++ x :: t))) as ->
    by (unfold joined; by rewrite Eb).
  cbn [mbind option_bind set_queue queue]. rewrite Q. cbn [head mbind option_bind app]. cbn [Datatypes.app head mbind option_bind].
  unfold pop in *. rewrite Q in *. cbn [queue set_queue Datatypes.app] in *.
  destruct (u32 (clength c - coffset c) =? 0).
  { cbn [mbind option_bind] in *. injection Hh as <- <-. f_equal. f_equal. unfold joined. by rewrite Eb. }
  destruct (load (ptr c) (coffset c) _) as [data|]; [|done]. cbn [mbind option_bind] in *.
  rewrite send_joined. destruct (send s data) as [rv s1] eqn:Es.
  assert (out_buffer s1 = Some b) as Eb1.
  { unfold send in Es. destruct (kernel s) as [|[] ks]; simplify_eq; done. }
  destruct rv as [n|e].
  - destruct (n =? _).
    + cbn [mbind option_bind] in *. injection Hh as <- <-. f_equal. f_equal. unfold joined. by rewrite Eb1.
    + destruct (n <? _); injection Hh as <- <-; f_equal; f_equal; unfold joined; rewrite Eb1; cbn; rewrite Q; done.
  - destruct (e =? OSW_CLOSE); [|destruct (e =? OSW_WAIT)]; injection Hh as <- <-; f_equal; f_equal;
      unfold joined; rewrite Eb1; cbn; by rewrite Eb1.
Qed.

(** What [handle_send] says about the flags. *)
Lemma handle_send_flags s r s' :
  handle_send s = Some (r, s') →
  (r = OSW_OK ∨ r = OSW_ERR) ∧ (r = OSW_OK → close_wait s' = close_wait s) ∧
  (r = OSW_ERR → no_output s' = false) ∧ is_Some (out_buffer s').
Proof.
  unfold handle_send. destruct (out_buffer s) as [b|] eqn:Eb; [|done]. cbn [mbind option_bind].
  unfold front, pop. destruct (queue b) as [|c q] eqn:Q; [done|]. cbn [head mbind option_bind].
  destruct (_ =? 0); [intros [= <- <-]; cbn; split_and!; eauto; done|].
  destruct (load _ _ _) as [data|]; [|done]. cbn [mbind option_bind]. destruct (send s data) as [rv s1] eqn:Es.
  assert (out_buffer s1 = Some b ∧ close_wait s1 = close_wait s) as [Eb1 Ec1].
  { unfold send in Es. destruct (kernel s) as [|[] ks]; simplify_eq; done. }
  assert (empty b = false) as Hne by (unfold empty; apply bool_decide_eq_false_2; by rewrite Q).
  destruct rv as [n|e].
  - destruct (n =? _); [intros [= <- <-]; cbn; rewrite ?Ec1; split_and!; eauto; done|].
    destruct (n <? _); intros [= <- <-]; cbn; rewrite ?Ec1; split_and!; eauto; try done.
  - destruct (e =? OSW_CLOSE); [|destruct (e =? OSW_WAIT)]; intros [= <- <-]; cbn; unfold no_output; cbn;
      rewrite ?Eb1, ?Ec1; split_and!; eauto; try done.
Qed.

(** ** The output of a connection *)

(** An open connection: [W] is what was accepted; the data chunks of [s] are followed by
    the close chunks [t]. *)
Record opened (c : Conn) (W : bytes) (s : Socket) (t : list BufferChunk) : Prop := {
  op_sock : csock c = joined s t;
  op_inv : sinv s W;
  op_tail : Forall (λ k, ctype k = TYPE_CLOSE) t;
  op_buffer : t ≠ [] → is_Some (out_buffer s);
  op_queued : close_queued c = bool_decide (t ≠ []);
  op_flags : active c = true ∧ peer_closed c = false ∧ close_reset c = false ∧ close_force c = false ∧
    close_notify c = false;
  op_wait : close_wait s = false;
  op_events : removed c = negb (read_event c || write_event s);
  op_write : t ≠ [] → write_event s = true;
  op_null : out_buffer s = None → overflow c = false ∧ high_watermark c = false }.

Lemma no_output_joined s t : (t ≠ [] → is_Some (out_buffer s)) →
  no_output (joined s t) = no_output s && bool_decide (t = []).
Proof.
  intros Hb. unfold joined. destruct t as [|x t]; [by rewrite andb_true_r|].
  destruct Hb as [b Eb]; [done|]. rewrite Eb, andb_false_r. unfold no_output. cbn.
  apply bool_decide_eq_false_2. cbn. by destruct (queue b).
Qed.

Lemma work_joined s t : (t ≠ [] → is_Some (out_buffer s)) → work (joined s t) = (work s + length t)%nat.
Proof.
  intros Hb. unfold joined, work. destruct t as [|x t]; [cbn; lia|].
  destruct Hb as [b Eb]; [done|]. rewrite Eb. cbn. rewrite length_app. cbn. lia.
Qed.

(** The loop ends in one of its four ways, and the stream stays what it was. *)
Lemma drain_loop_spec handle_sendfile fuel W t : ∀ c s,
  csock c = joined s t → sinv s W → Forall (λ k, ctype k = TYPE_CLOSE) t →
  (t ≠ [] → is_Some (out_buffer s)) → close_wait s = false → (work (joined s t) <= fuel)%nat →
  ∃ d s' n, drain_loop handle_sendfile fuel c = Some (d, with_queued (with_sock c (joined s' t)) n) ∧
    sinv s' W ∧ write_event s' = write_event s ∧ (is_Some (out_buffer s) → is_Some (out_buffer s')) ∧
    match d with
    | Drained => close_wait s' = false ∧ no_output (joined s' t) = true
    | Blocked => close_wait s' = false ∧ no_output (joined s' t) = false
    | Broken => close_wait s' = true ∧ no_output (joined s' t) = false
    | Reached => close_wait s' = false ∧ pend s' = [] ∧ t ≠ []
    end.
Proof.
  assert (∀ c s, csock c = s → with_queued (with_sock c s) (send_queued_bytes c) = c) as Hid
    by (by intros [] ? <-).
  induction fuel as [|fuel IH]; intros c s Hs Hi Ht Hb Hw Hf; cbn [drain_loop]; rewrite Hs.
  all: destruct (no_output (joined s t)) eqn:Hno.
  1,3: exists Drained, s, (send_queued_bytes c); rewrite Hid by done; by split_and!.
  { exfalso. rewrite no_output_joined, work_joined in * by done. unfold work, no_output in *.
    destruct t; [|cbn in Hf; lia]. rewrite andb_true_r in Hno. destruct (out_buffer s) as [b|]; [|done].
    apply bool_decide_eq_false in Hno. destruct (queue b); [done|cbn in Hf; lia]. }
  rewrite no_output_joined in Hno by done. destruct (no_output s) eqn:Hno0.
  - (* only close chunks are left *)
    cbn [andb] in Hno. apply bool_decide_eq_false in Hno. destruct (Hb Hno) as [b Eb].
    destruct t as [|x t]; [done|]. apply Forall_cons in Ht as [Hx _].
    assert (out_buffer (joined s (x :: t)) = Some (set_queue b (x :: t))) as E.
    { unfold joined. rewrite Eb. unfold no_output in Hno0. rewrite Eb in Hno0. apply bool_decide_eq_true in Hno0.
      by rewrite Hno0. }
    rewrite E. cbn [mbind option_bind front set_queue queue head]. rewrite Hx.
    exists Reached, s, (send_queued_bytes c). rewrite Hid by done. split_and!; try done. by apply no_output_pend.
  - (* a data chunk *)
    pose proof Hno0 as Hq. unfold no_output in Hq. destruct (out_buffer s) as [b|] eqn:Eb; [|done].
    apply bool_decide_eq_false in Hq.
    destruct (handle_send_spec 0 ltac:(lia) handle_sendfile s W b Hi Eb Hq) as (r & s1 & Hh & Hi1 & Hev & Hr).
    pose proof (handle_send_flags s r s1 Hh) as (_ & Hok & Herr & [b1 Eb1]).
    pose proof (handle_send_joined s t b r s1 Eb Hq Hh) as Hj.
    assert (∃ bj k, out_buffer (joined s t) = Some bj ∧ front bj = Some k ∧ ctype k = TYPE_DATA) as (bj & k & -> & Hk & Hkt).
    { destruct Hi as [Hbi _ _ _]. rewrite Eb in Hbi. destruct Hbi as [_ Hfull _].
      destruct (queue b) as [|k q] eqn:Q; [done|]. apply Forall_cons in Hfull as [[[? _] _] _].
      unfold joined. destruct t; [exists b, k; by unfold front; rewrite Eb, Q|].
      rewrite Eb. eexists _, k. split; [done|]. unfold front. cbn. by rewrite Q. }
    assert (t ≠ [] → is_Some (out_buffer s1)) as Hb1 by eauto.
    cbn [mbind option_bind]. rewrite Hk. cbn [mbind option_bind]. rewrite Hkt, Hj. cbn [mbind option_bind].
    assert (∃ b2, out_buffer (joined s1 t) = Some b2) as [b2 ->].
    { unfold joined. destruct t; rewrite Eb1; eauto. }
    cbn [mbind option_bind]. destruct Hr as [[-> Hlt]|[-> Hfl]].
    + change (OSW_OK <? 0) with false. rewrite Z.eqb_refl. cbv iota.
      destruct (IH (with_queued (with_sock c (joined s1 t)) (length_ b2)) s1) as (d & s' & n & -> & H1 & H2 & H3 & H4); try done.
      * rewrite Hok by done. done.
      * rewrite !work_joined in * by eauto. lia.
      * exists d, s', n. split_and!; try done; [congruence|eauto].
    + change (OSW_ERR <? 0) with true. change (OSW_ERR =? OSW_OK) with false. cbv iota.
      destruct (joined_fields s1 t) as (_ & _ & _ & -> & -> & _ & _).
      assert (no_output (joined s1 t) = false) as Hno1 by (rewrite no_output_joined, (Herr eq_refl) by done; done).
      destruct (close_wait s1) eqn:Hc1.
      * exists Broken, s1, (send_queued_bytes c). split_and!; eauto; done.
      * cbn [orb] in Hfl. rewrite Hfl. exists Blocked, s1, (send_queued_bytes c). split_and!; eauto; done.
Qed.

Lemma joined_flags s t a b d e : set_flags (joined s t) a b d e = joined (set_flags s a b d e) t.
Proof. unfold joined. destruct t; [done|]. cbn. by destruct (out_buffer s). Qed.

Lemma sinv_events s W wr :
  sinv s W → (no_output s = false → wr = true) →
  sinv (set_flags s wr (close_wait s) (send_wait s) (closed s)) W.
Proof. intros [Hb Hz Hs He] Hw. by split. Qed.

(** Changing the entry in the reactor. *)
Lemma opened_events c W s t rd wr rm :
  opened c W s t → rm = negb (rd || wr) → (no_output s = false → wr = true) → (t ≠ [] → wr = true) →
  opened (with_events c rd wr rm) W (set_flags s wr (close_wait s) (send_wait s) (closed s)) t.
Proof.
  intros [Hs Hi Ht Hb Hq Hf Hw He Hwr Hn] Hrm Hno Htw. split; try done.
  - cbn. rewrite Hs. destruct (joined_fields s t) as (_&_&_&->&->&->&_). apply joined_flags.
  - by apply sinv_events.
Qed.

(** The socket may be given a write event whenever it has none. *)
Lemma want_write_opened c W s t :
  csock c = joined s t → sinv (set_flags s true (close_wait s) (send_wait s) (closed s)) W →
  Forall (λ k, ctype k = TYPE_CLOSE) t → (t ≠ [] → is_Some (out_buffer s)) →
  close_queued c = bool_decide (t ≠ []) →
  active c = true ∧ peer_closed c = false ∧ close_reset c = false ∧ close_force c = false ∧ close_notify c = false →
  close_wait s = false → removed c = negb (read_event c || write_event s) → is_Some (out_buffer s) →
  opened (want_write c) W (set_flags s true (close_wait s) (send_wait s) (closed s)) t.
Proof.
  intros Hs Hi Ht Hb Hq Hf Hw He [b Eb]. unfold want_write, add_write, reactor_set, reactor_add. rewrite Hs.
  destruct (joined_fields s t) as (_&_&->&_&_&_&_). destruct (write_event s) eqn:Hws.
  - assert (set_flags s true (close_wait s) (send_wait s) (closed s) = s) as E by (destruct s; cbn in *; by subst).
    rewrite E in *. split; try done; [by rewrite Hws|congruence].
  - rewrite orb_false_r in He. rewrite He. destruct (read_event c); cbn [negb snd];
      (split; try done; [cbn; rewrite Hs; destruct (joined_fields s t) as (_&_&_&->&->&->&_); apply joined_flags
                        |cbn; congruence]).
Qed.

Section Steps.
Variable fresh : nat → bytes.
Hypothesis fresh_length : ∀ n, length (fresh n) = n.
Variable serv : Config.
Variables sendfile handle_sendfile : Socket → option (Z * Socket).

(** Data that has to be buffered. *)
Lemma queue_data_opened c W s data :
  csock c = s → sinv s W → is_Some (out_buffer s) → data ≠ [] → zlen data < 2 ^ 32 → close_queued c = false →
  active c = true ∧ peer_closed c = false ∧ close_reset c = false ∧ close_force c = false ∧ close_notify c = false →
  close_wait s = false → removed c = negb (read_event c || write_event s) →
  ∃ c' s', queue_data fresh serv c data = Some (OSW_OK, c') ∧ opened c' (W ++ data) s' [].
Proof.
  intros Hs Hi [b Eb] Hd Hl Hq Hf Hw He. unfold queue_data. pose proof Hf as (_ & -> & _). rewrite Hs, Eb. cbn [mbind option_bind].
  destruct Hi as [Hb Hz Hst Hev]. rewrite Eb in Hb.
  destruct (buf_append_spec fresh fresh_length b data Hb Hd Hl) as (b' & -> & Hb' & Hp & _ & _). cbn [mbind option_bind].
  set (c1 := if length_ b >=? buffer_size s then _ else c).
  assert (csock c1 = s ∧ close_queued c1 = false ∧ (active c1 = true ∧ peer_closed c1 = false ∧ close_reset c1 = false ∧
    close_force c1 = false ∧ close_notify c1 = false) ∧ removed c1 = negb (read_event c1 || write_event s))
    as (Hs1 & Hq1 & Hf1 & He1) by (subst c1; destruct (length_ b >=? buffer_size s); done).
  clearbody c1. rewrite Hs1. set (s2 := set_buffer s (Some b')). set (c2 := with_queued _ _).
  set (c3 := if (onBufferFull serv && _ && _) then with_water _ _ _ _ else c2).
  assert (csock c3 = joined s2 [] ∧ close_queued c3 = false ∧ (active c3 = true ∧ peer_closed c3 = false ∧ close_reset c3 = false ∧
    close_force c3 = false ∧ close_notify c3 = false) ∧ removed c3 = negb (read_event c3 || write_event s2))
    as (Hs3 & Hq3 & Hf3 & He3) by (subst c3 c2; destruct (_ && _ && _); done).
  clearbody c3. do 2 eexists. split; [done|]. apply (want_write_opened c3 (W ++ data) s2 []); try done.
  split; cbn; try done. unfold pend in *. cbn. rewrite Eb in Hst. rewrite Hp, Hst. by rewrite (assoc_L (++)).
Qed.

Lemma ensure_sinv s W : sinv s W → sinv (ensure_buffer s) W ∧ is_Some (out_buffer (ensure_buffer s)) ∧
  write_event (ensure_buffer s) = write_event s ∧ close_wait (ensure_buffer s) = close_wait s.
Proof.
  intros [Hb Hz Hs He]. unfold ensure_buffer. destruct (out_buffer s) as [b|] eqn:Eb.
  - split; [split; by rewrite ?Eb|]. rewrite Eb. by split_and!; [eexists|..].
  - split; [split|by split_and!; [eexists|..]]; cbn; try done.
    rewrite Hs. unfold pend. by rewrite Eb.
Qed.

(** Accepting data. *)
Lemma data_opened c W s data :
  opened c W s [] → data ≠ [] → zlen data < 2 ^ 32 →
  ∃ r c' s', send_to_connection fresh serv sendfile (EvData data) c = Some (r, c') ∧
    (r = OSW_OK ∧ opened c' (W ++ data) s' [] ∨ r = OSW_ERR ∧ c' = c).
Proof.
  intros Ho Hd Hl. pose proof Ho as [Hs Hi _ _ Hq Hf Hw He _ Hn]. cbn [joined] in Hs.
  unfold send_to_connection. pose proof Hf as (-> & _). cbn [negb].
  destruct (base_mode serv && overflow c); [exists OSW_ERR, c, s; split; [done|by right]|].
  rewrite Hs. destruct (no_output s) eqn:Hno.
  - assert (∀ s1 W1 rest, sinv s1 W1 → write_event s1 = write_event s → close_wait s1 = close_wait s → rest ≠ [] → zlen rest <= zlen data →
      ∃ c' s', queue_data fresh serv (with_sock c (ensure_buffer s1)) rest = Some (OSW_OK, c') ∧
        opened c' (W1 ++ rest) s' []) as Hbuf.
    { intros s1 W1 rest Hi1 Hw1 Hc1 Hr Hlr. destruct (ensure_sinv s1 W1 Hi1) as (Hi2 & Hb2 & Hw2 & Hc2).
      apply (queue_data_opened _ W1 (ensure_buffer s1)); try done; cbn; (congruence || lia). }
    unfold try_direct. destruct (direct_send c); cbn [negb].
    2: { rewrite Hs. destruct (Hbuf s W data Hi eq_refl eq_refl Hd ltac:(lia)) as (c' & s' & -> & ?).
         exists OSW_OK, c', s'. split; [done|]. left. by split. }
    rewrite Hs. destruct (send_cases s data Hd) as [(e & k & -> & _)|(n & k & -> & Hn' & _)].
    + destruct (Hbuf (set_kernel s k (wire s)) W data) as (c' & s' & -> & ?); try done.
      { destruct Hi. by split. }
      exists OSW_OK, c', s'. split; [done|]. left. by split.
    + pose proof (send_sinv s W k (Z.to_nat n) data Hi Hno) as Hi1.
      destruct (Z.eqb_spec n (zlen data)) as [->|Hne].
      * rewrite take_ge in * by (unfold zlen; lia). eexists _, _, _. split; [done|]. left. split; [done|].
        split; try done; try (by cbn). 
      * destruct (Hbuf _ _ (drop (Z.to_nat n) data) Hi1) as (c' & s' & -> & Ho'); try done.
        { intros E. apply (f_equal length) in E. rewrite length_drop in E. unfold zlen in *. cbn in E. lia. }
        { unfold zlen. rewrite length_drop. lia. }
        rewrite <- (assoc_L (++)), take_drop in Ho'. exists OSW_OK, c', s'. split; [done|]. left. by split.
  - assert (is_Some (out_buffer s)) as Hsome by (unfold no_output in Hno; destruct (out_buffer s); [by eexists|done]).
    destruct (queue_data_opened c W s data) as (c' & s' & -> & ?); try done.
    exists OSW_OK, c', s'. split; [done|]. left. by split.
Qed.
End Steps.

(** ** Runs of a connection *)

Inductive conn_op := CSend (data : bytes) | CClose | CPause | CResume | CWritable.

(** A connection of the process mode or the base mode that was just accepted. *)
Definition make_conn (bsize csize : Z) (direct : bool) (kernel : list answer) : Conn :=
  MkConn (make_socket bsize csize true kernel) true false direct true false false false false false false false 0 [].

Section Runs.
Variable fresh : nat → bytes.
Variable serv : Config.
Variables sendfile handle_sendfile : Socket → option (Z * Socket).

(** The reactor calls [on_write] for a socket that waits for it. *)
Definition conn_step (o : conn_op) (c : Conn) : option (Z * Conn) :=
  match o with
  | CSend data => send_to_connection fresh serv sendfile (EvData data) c
  | CClose => send_to_connection fresh serv sendfile EvClose c
  | CPause => send_to_connection fresh serv sendfile EvPause c
  | CResume => send_to_connection fresh serv sendfile EvResume c
  | CWritable => if write_event (csock c) then on_write serv handle_sendfile c else Some (OSW_OK, c)
  end.

(** The data an operation accepts: the call succeeds on a connection whose peer is there. *)
Definition accepted (o : conn_op) (c : Conn) (r : Z) : bytes :=
  match o with
  | CSend data => if (r =? OSW_OK) && active c && negb (peer_closed c) then data else []
  | _ => []
  end.

Fixpoint conn_run (ops : list conn_op) (c : Conn) : option (bytes * Conn) :=
  match ops with
  | [] => Some ([], c)
  | o :: ops => '(r, c1) ← conn_step o c; '(w, c2) ← conn_run ops c1; Some (accepted o c r ++ w, c2)
  end.

(** The three states of a connection: open, left by its peer, closed; [q] says whether a close
    was asked for. *)
Inductive conn_inv (q : bool) (c : Conn) (W : bytes) : Prop :=
  | inv_open s t : (q = false → t = []) → opened c W s t → conn_inv q c W
  | inv_broken :
      active c = true → peer_closed c = true → close_wait (csock c) = true → no_output (csock c) = false →
      write_event (csock c) = false → wire (csock c) `prefix_of` W → conn_inv q c W
  | inv_closed :
      active c = false → write_event (csock c) = false → wire (csock c) `prefix_of` W →
      (close_wait (csock c) = false → wire (csock c) = W) → conn_inv q c W.

Lemma sinv_prefix s W : sinv s W → wire s `prefix_of` W.
Proof. intros [_ _ -> _]. by eexists. Qed.

Lemma closed_inv q c W :
  wire (csock c) `prefix_of` W → (close_wait (csock c) = false → wire (csock c) = W) →
  conn_inv q (snd (close_connection c)) W.
Proof. intros Hp Hw. by apply inv_closed. Qed.

Lemma joined_wire s t : wire (joined s t) = wire s ∧ close_wait (joined s t) = close_wait s.
Proof. by destruct (joined_fields s t) as (?&_&_&?&_). Qed.

(** A close is carried out at once when nothing is buffered; otherwise it waits. *)
Lemma close_step c W s t :
  opened c W s t →
  ∃ r c', send_to_connection fresh serv sendfile EvClose c = Some (r, c') ∧ conn_inv true c' W.
Proof.
  intros Ho. pose proof Ho as [Hs Hi Ht Hb Hq Hf Hw He Hwr Hn]. destruct (joined_wire s t) as [Ewire Ecw].
  unfold send_to_connection. pose proof Hf as (-> & -> & -> & -> & _). cbn [negb orb].
  destruct (base_mode serv && overflow c); [exists OSW_ERR, c; split; [done|by apply (inv_open true c W s t)]|].
  rewrite Hs. destruct (no_output (joined s t)) eqn:Hno.
  - exists OSW_OK, (snd (close_connection c)). split; [done|]. apply closed_inv; rewrite Hs, Ewire; [by apply sinv_prefix|].
    intros _. rewrite no_output_joined in Hno by done. apply andb_true_iff in Hno as [Hno%no_output_pend _].
    destruct Hi as [_ _ -> _]. by rewrite Hno, app_nil_r.
  - assert (∃ b, out_buffer s = Some b) as [b Eb].
    { rewrite no_output_joined in Hno by done. destruct t; [|by apply Hb].
      rewrite andb_true_r in Hno. unfold no_output in Hno. destruct (out_buffer s); [by eexists|done]. }
    set (x := MkChunk TYPE_CLOSE 0 0 0 []).
    assert (joined s (t ++ [x]) = set_buffer s (Some (set_queue b (queue b ++ t ++ [x])))) as Ej
      by (unfold joined; destruct t; by rewrite Eb).
    assert (∃ bj, out_buffer (joined s t) = Some bj ∧
      set_buffer (joined s t) (Some (alloc fresh bj TYPE_CLOSE 0)) = joined s (t ++ [x])) as (bj & Hbj & Haj).
    { rewrite Ej. unfold joined. destruct t as [|y t].
      - exists b. split; [done|]. by unfold alloc.
      - rewrite Eb. eexists. split; [done|]. unfold alloc. cbn. by rewrite <- (assoc_L (++)). }
    unfold queue_close. rewrite Hs, Hbj. cbn [mbind option_bind]. rewrite Haj. eexists _, _. split; [done|].
    eapply (inv_open true _ W _ (t ++ [x])); [done|]. eapply (want_write_opened _ W s (t ++ [x])); try done.
    + apply sinv_events; done.
    + apply Forall_app. split; [done|]. by apply Forall_singleton.
    + cbn. symmetry. apply bool_decide_eq_true_2. by destruct t.
Qed.

Lemma pause_step q c W s t :
  (q = false → t = []) → opened c W s t →
  ∃ r c', send_to_connection fresh serv sendfile EvPause c = Some (r, c') ∧ conn_inv q c' W.
Proof.
  intros Hqt Ho. pose proof Ho as [Hs Hi Ht Hb Hq Hf Hw He Hwr Hn].
  unfold send_to_connection. pose proof Hf as (-> & _). cbn [negb].
  destruct (base_mode serv && overflow c); [exists OSW_ERR, c; split; [done|by eapply inv_open]|].
  destruct (removed c || negb (read_event c)) eqn:Hcase; [eexists _, _; split; [done|by eapply inv_open]|].
  apply orb_false_iff in Hcase as [Hrm _]. rewrite Hs. destruct (joined_fields s t) as (_&_&->&_).
  unfold reactor_set, reactor_del. rewrite Hrm. destruct (write_event s) eqn:Hws.
  - eexists _, _. split; [done|]. eapply inv_open; [exact Hqt|]. by apply opened_events.
  - eexists _, _. split; [done|]. eapply inv_open; [exact Hqt|]. apply opened_events; try done.
    intros Hno. by rewrite (si_event _ _ Hi) in Hws.
Qed.

Lemma resume_step q c W s t :
  (q = false → t = []) → opened c W s t →
  ∃ r c', send_to_connection fresh serv sendfile EvResume c = Some (r, c') ∧ conn_inv q c' W.
Proof.
  intros Hqt Ho. pose proof Ho as [Hs Hi Ht Hb Hq Hf Hw He Hwr Hn].
  unfold send_to_connection. pose proof Hf as (-> & _). cbn [negb].
  destruct (base_mode serv && overflow c); [exists OSW_ERR, c; split; [done|by eapply inv_open]|].
  destruct (negb (removed c) || read_event c) eqn:Hcase; [eexists _, _; split; [done|by eapply inv_open]|].
  apply orb_false_iff in Hcase as [Hrm%negb_false_iff Hrd]. rewrite Hrd in He. rewrite Hrm in He. cbn [orb] in He.
  symmetry in He. apply negb_true_iff in He. rewrite Hs. destruct (joined_fields s t) as (_&_&->&_). rewrite He.
  unfold reactor_add. rewrite Hrm. eexists _, _. split; [done|]. eapply inv_open; [exact Hqt|]. apply opened_events; try done.
  - intros Hno. by rewrite (si_event _ _ Hi) in He.
  - intros Htt. by rewrite Hwr in He.
Qed.

(** With nothing left to send the socket waits for input only. *)
Lemma drained_opened q c W s t :
  (q = false → t = []) → opened c W s t → no_output (joined s t) = true →
  conn_inv q (if negb (peer_closed c) && negb (removed c) then snd (reactor_set true false c) else c) W.
Proof.
  intros Hqt Ho Hno. destruct (negb (peer_closed c) && negb (removed c)) eqn:E; [|by eapply inv_open].
  apply andb_true_iff in E as [_ Hrm%negb_true_iff]. unfold reactor_set. rewrite Hrm. cbn [snd].
  pose proof Ho as [_ _ _ Hb _ _ _ _ _ _]. rewrite no_output_joined in Hno by done.
  apply andb_true_iff in Hno as [Hno ->%bool_decide_eq_true]. eapply inv_open; [exact Hqt|].
  apply opened_events; try done. congruence.
Qed.

Lemma after_drain_inv q c W s t :
  (q = false → t = []) → opened c W s t → ∃ c', after_drain serv c = Some c' ∧ conn_inv q c' W.
Proof.
  intros Hqt Ho. pose proof Ho as [Hs Hi Ht Hb Hq Hf Hw He Hwr Hn]. unfold after_drain. rewrite Hs.
  destruct (out_buffer (joined s t)) as [b|] eqn:Eb.
  - assert (is_Some (out_buffer s)) as [b0 Eb0] by (unfold joined in Eb; destruct t, (out_buffer s); eauto).
    assert (∀ c0 ov hw ns, opened c0 W s t → opened (with_water c0 ov hw ns) W s t) as Hwat.
    { intros c0 ov hw ns []. split; try done. congruence. }
    set (c2 := if overflow c && _ then _ else c). assert (opened c2 W s t) as Ho2 by (subst c2; destruct (_ && _); auto).
    clearbody c2. set (c3 := if onBufferEmpty serv && high_watermark c2 && _ then _ else c2).
    assert (opened c3 W s t) as Ho3 by (subst c3; destruct (_ && _ && _); auto). clearbody c3.
    eexists. split; [done|]. destruct (empty b) eqn:Hemp; [|rewrite andb_false_r; by eapply inv_open].
    rewrite andb_true_r. eapply drained_opened; [done|done|]. unfold no_output. by rewrite Eb.
  - destruct Hn as [-> ->]; [unfold joined in Eb; destruct t, (out_buffer s); done|]. rewrite andb_false_r. cbn [orb].
    eexists. split; [done|]. pose proof (drained_opened q c W s t Hqt Ho) as Hd. unfold no_output in Hd. rewrite Eb in Hd.
    specialize (Hd eq_refl). by destruct (peer_closed c), (removed c).
Qed.

Lemma opened_drained c W s t s' n :
  opened c W s t → sinv s' W → write_event s' = write_event s →
  (is_Some (out_buffer s) → is_Some (out_buffer s')) → close_wait s' = false →
  opened (with_queued (with_sock c (joined s' t)) n) W s' t.
Proof.
  intros [Hs Hi Ht Hb Hq Hf Hw He Hwr Hn] Hi' Hw' Hb' Hc'. rewrite <- Hw' in He, Hwr. split; cbn; try done; eauto.
  intros E. apply Hn. destruct (out_buffer s); [|done]. rewrite E in Hb'. by destruct Hb'.
Qed.

(** Everything in order leaves the socket, or the peer is gone, or the close is reached,
    behind the last byte. *)
Lemma write_step q c W s t :
  (q = false → t = []) → opened c W s t → write_event (csock c) = true →
  ∃ r c', on_write serv handle_sendfile c = Some (r, c') ∧ conn_inv q c' W.
Proof.
  intros Hqt Ho Hwe. pose proof Ho as [Hs Hi Ht Hb Hq Hf Hw He Hwr Hn].
  unfold on_write. pose proof Hf as (-> & Hpc & _ & -> & ->). rewrite andb_false_r. cbn [negb]. rewrite Hs.
  destruct (drain_loop_spec handle_sendfile (work (joined s t)) W t c s Hs Hi Ht Hb Hw ltac:(lia))
    as (d & s' & n & -> & Hi' & Hw' & Hb' & Hd). cbn [mbind option_bind].
  destruct (joined_wire s' t) as [Ewire Ecw]. destruct d.
  1,2: destruct Hd as [Hc' _]; pose proof (opened_drained c W s t s' n Ho Hi' Hw' Hb' Hc') as Ho';
    destruct (after_drain_inv q _ W s' t Hqt Ho') as (c' & -> & ?); cbn [mbind option_bind]; by eexists _, _.
  - destruct Hd as [Hc' Hno]. unfold on_close. cbn [active with_queued with_sock]. pose proof Hf as (Hact & _). rewrite Hact. cbn [negb].
    destruct (disable_notify serv).
    { eexists _, _. split; [done|]. apply closed_inv; cbn; rewrite ?Ewire, ?Ecw; [by apply sinv_prefix|congruence]. }
    unfold reactor_del. cbn [removed with_queued with_sock].
    rewrite He. rewrite Hs in Hwe. destruct (joined_fields s t) as (_&_&Ew&_). rewrite Ew in Hwe. rewrite Hwe, orb_true_r.
    cbn [negb Z.eqb OSW_OK]. cbn [close_queued with_events with_queued with_sock]. destruct (close_queued c).
    { eexists _, _. split; [done|]. apply closed_inv; cbn; rewrite ?Ewire, ?Ecw; [by apply sinv_prefix|congruence]. }
    eexists _, _. split; [done|]. apply inv_broken; cbn; try done; [congruence|by rewrite Ewire; apply sinv_prefix].
  - destruct Hd as (Hc' & Hp & _). eexists _, _. split; [done|].
    apply closed_inv; cbn; rewrite ?Ewire; [by apply sinv_prefix|]. intros _.
    destruct Hi' as [_ _ -> _]. by rewrite Hp, app_nil_r.
Qed.

(** Nothing but closing happens to a connection whose peer is gone. *)
Lemma broken_step q o c W :
  active c = true → peer_closed c = true → close_wait (csock c) = true → no_output (csock c) = false →
  write_event (csock c) = false → wire (csock c) `prefix_of` W →
  ∃ r c', conn_step o c = Some (r, c') ∧ conn_inv q c' W ∧ accepted o c r = [].
Proof.
  intros Ha Hp Hc Hno Hw Hx. assert (conn_inv q c W) as Hsame by (by apply inv_broken).
  assert (∀ rd rm, conn_inv q (with_events c rd false rm) W) as Hev by (intros; by apply inv_broken).
  destruct o; cbn [conn_step accepted]; unfold send_to_connection, queue_data, reactor_del, reactor_set, reactor_add;
    rewrite ?Ha, ?Hp, ?Hw, ?Hno, ?andb_false_r, ?orb_true_r; cbn [negb orb];
    try (destruct (base_mode serv && overflow c); [by eexists _, _|]); try (by eexists _, _);
    repeat case_match; simplify_eq; try (by eexists _, _).
  eexists _, _. split; [done|]. split; [|done]. apply closed_inv; [done|congruence].
Qed.

Lemma closed_step q o c W :
  conn_inv q c W → active c = false → write_event (csock c) = false →
  ∃ r, conn_step o c = Some (r, c) ∧ accepted o c r = [].
Proof.
  intros _ Ha Hw. destruct o; cbn [conn_step accepted]; unfold send_to_connection; rewrite ?Ha, ?Hw, ?andb_false_r; by eexists.
Qed.

(** Data is not empty, its length fits its field of 32 bits, and it follows no close. *)
Fixpoint tidy (ops : list conn_op) : Prop :=
  match ops with
  | [] => True
  | CSend data :: ops => 0 < zlen data < 2 ^ 32 ∧ tidy ops
  | CClose :: ops => Forall (λ o, ∀ d, o ≠ CSend d) ops
  | _ :: ops => tidy ops
  end.

Lemma no_sends_tidy ops : Forall (λ o, ∀ d, o ≠ CSend d) ops → tidy ops.
Proof.
  induction ops as [|o ops IH]; [done|]. intros [Ho H]%Forall_cons. destruct o; cbn; auto. by destruct (Ho data).
Qed.

(** What the rest of a run may do: send data only while no close was asked for. *)
Definition may_run (q : bool) (ops : list conn_op) : Prop :=
  tidy ops ∧ (q = true → Forall (λ o, ∀ d, o ≠ CSend d) ops).

Lemma conn_step_inv q o ops c W :
  (∀ n, length (fresh n) = n) → conn_inv q c W → may_run q (o :: ops) →
  ∃ r c' q', conn_step o c = Some (r, c') ∧ conn_inv q' c' (W ++ accepted o c r) ∧ may_run q' ops.
Proof.
  intros Hfr Hi [Ht Hq].
  assert (may_run q ops) as Hrest.
  { split; [destruct o; cbn in Ht; try tauto; by apply no_sends_tidy|].
    intros Hqt. by apply Hq in Hqt as [_ ?]%Forall_cons. }
  destruct Hi as [s t Hqt Ho|Ha Hp Hc Hno Hw Hx|Ha Hw Hx Hcw].
  2: { destruct (broken_step q o c W Ha Hp Hc Hno Hw Hx) as (r & c' & -> & Hc' & Hacc).
       exists r, c', q. by rewrite Hacc, app_nil_r. }
  2: { pose proof (inv_closed q c W Ha Hw Hx Hcw) as Hi. destruct (closed_step q o c W Hi Ha Hw) as (r & -> & Hacc).
       exists r, c, q. by rewrite Hacc, app_nil_r. }
  destruct o as [data| | | |]; cbn [conn_step accepted].
  - destruct Ht as [Hd _]. assert (q = false) as ->.
    { destruct q; [|done]. specialize (Hq eq_refl). apply Forall_cons in Hq as [Hbad _]. by destruct (Hbad data). }
    rewrite (Hqt eq_refl) in Ho. destruct (data_opened fresh Hfr serv sendfile handle_sendfile c W s data Ho ltac:(intros ->; by destruct Hd) (proj2 Hd))
      as (r & c' & s' & -> & Hr). exists r, c', false. split; [done|]. split; [|done].
    pose proof (op_flags _ _ _ _ Ho) as (-> & -> & _). destruct Hr as [[-> Ho']|[-> ->]].
    + by apply (inv_open false c' _ s' []).
    + rewrite app_nil_r. by apply (inv_open false c W s []).
  - destruct (close_step c W s t Ho) as (r & c' & -> & Hc'). exists r, c', true. rewrite app_nil_r.
    split; [done|]. split; [done|]. split; [apply Hrest|done].
  - destruct (pause_step q c W s t Hqt Ho) as (r & c' & -> & Hc'). exists r, c', q. by rewrite app_nil_r.
  - destruct (resume_step q c W s t Hqt Ho) as (r & c' & -> & Hc'). exists r, c', q. by rewrite app_nil_r.
  - destruct (write_event (csock c)) eqn:Hw.
    + destruct (write_step q c W s t Hqt Ho Hw) as (r & c' & -> & Hc'). exists r, c', q. by rewrite app_nil_r.
    + eexists _, c, q. rewrite app_nil_r. split; [done|]. split; [by eapply inv_open|done].
Qed.

Lemma conn_run_inv ops : ∀ q c W,
  (∀ n, length (fresh n) = n) → conn_inv q c W → may_run q ops →
  ∃ w c' q', conn_run ops c = Some (w, c') ∧ conn_inv q' c' (W ++ w).
Proof.
  induction ops as [|o ops IH]; intros q c W Hfr Hi Hm; cbn [conn_run].
  - exists [], c, q. by rewrite app_nil_r.
  - destruct (conn_step_inv q o ops c W Hfr Hi Hm) as (r & c1 & q1 & -> & Hi1 & Hm1). cbn [mbind option_bind].
    destruct (IH q1 c1 _ Hfr Hi1 Hm1) as (w & c' & q' & -> & Hi'). cbn [mbind option_bind].
    eexists _, c', q'. split; [done|]. by rewrite (assoc_L (++)).
Qed.
End Runs.



(** The run of the witness: the close is carried out behind the last byte, and the workers
    were told that the buffer was full. *)
Example connection_run :
  (let '(w, c) := default ([], make_conn 0 0 true [])
     (conn_run (repeat 0) (MkConfig false false true true 4 1) (λ _, None) (λ _, None)
        [CSend [1; 2; 3]; CSend [4; 5]; CPause; CClose; CWritable; CResume; CWritable]
        (make_conn 8 0 true [Sent 1; Again; Sent 9; Sent 9])) in
   (w, wire (csock c), active c, notes c))
  = ([1; 2; 3; 4; 5], [1; 2; 3; 4; 5], false, [NoteFull]).
Proof. by vm_compute. Qed.

(** Data that is sent while a close is queued is accepted and then dropped with the buffer. *)
Example data_behind_close :
  (let '(w, c) := default ([], make_conn 0 0 true [])
     (conn_run (repeat 0) (MkConfig false false false false 0 0) (λ _, None) (λ _, None)
        [CSend [1; 2]; CClose; CSend [3]; CWritable] (make_conn 8 0 true [Again; Sent 9; Sent 9])) in
   (w, wire (csock c), active c)) = ([1; 2; 3], [1; 2], false).
Proof. by vm_compute. Qed.

(** ** Watermarks *)

(** The notifications of a full and of an empty buffer alternate: the level after them. *)
Definition level_step (h : option bool) (n : note) : option bool :=
  match h, n with
  | Some false, NoteFull => Some true
  | Some true, NoteEmpty => Some false
  | h, NoteClose => h
  | _, _ => None
  end.
Definition level (ns : list note) : option bool := fold_left level_step ns (Some false).

Lemma level_app ns ms : level (ns ++ ms) = fold_left level_step ms (level ns).
Proof. unfold level. by rewrite fold_left_app. Qed.

Definition level_ok (c : Conn) : Prop := ∃ h, level (notes c) = Some h ∧ (active c = true → high_watermark c = h).

(** Operations that leave the watermark alone. *)
Definition same_level (c c' : Conn) : Prop :=
  notes c' = notes c ∧ active c' = active c ∧ high_watermark c' = high_watermark c.

Lemma same_level_ok c c' : same_level c c' → level_ok c → level_ok c'.
Proof. intros (E1 & E2 & E3) (h & Hh & Ha). exists h. by rewrite E1, E2, E3. Qed.

Lemma level_closed c : level_ok c → level_ok (snd (close_connection c)).
Proof. intros (h & Hh & _). by exists h. Qed.

Lemma level_note c ms p q n :
  level_ok c → ms = [NoteClose] ∨ ms = [] → level_ok (with_closing c p q n ms).
Proof. intros (h & Hh & Ha) Hms. exists h. cbn [notes with_closing active high_watermark]. rewrite level_app, Hh. destruct Hms as [-> | ->]; by destruct h. Qed.

Lemma reactor_level c rd wr :
  same_level c (snd (reactor_set rd wr c)) ∧ same_level c (snd (reactor_add rd wr c)) ∧
  same_level c (snd (reactor_del c)) ∧ same_level c (want_write c).
Proof.
  unfold want_write, add_write, reactor_set, reactor_add, reactor_del, same_level.
  destruct (write_event (csock c)), (removed c), (read_event c); by split_and!.
Qed.

Section Watermark.
Variable fresh : nat → bytes.
Variable serv : Config.
Hypothesis has_full : onBufferFull serv = true.
Variables sendfile handle_sendfile : Socket → option (Z * Socket).

Lemma queue_data_level c data r c' :
  active c = true → level_ok c → queue_data fresh serv c data = Some (r, c') → level_ok c'.
Proof.
  intros Ha Hl. unfold queue_data. destruct (peer_closed c); [by intros [= <- <-]|].
  destruct (out_buffer (csock c)) as [b|]; [|done]. cbn [mbind option_bind].
  destruct (append fresh b data) as [b'|]; [|done]. cbn [mbind option_bind]. rewrite has_full, andb_false_r, orb_false_r.
  intros [= _ <-]. eapply same_level_ok; [apply (reactor_level _ true true)|].
  destruct Hl as (h & Hh & Hw). specialize (Hw Ha).
  destruct (length_ b >=? buffer_size (csock c)); cbn [andb];
    (destruct (negb _ && _) eqn:E; [|exists h; cbn; rewrite ?app_nil_r; by split]);
    apply andb_true_iff in E as [Hn%negb_true_iff _]; cbn in Hn; rewrite Hn in Hw; subst h;
    exists true; cbn [notes with_water with_queued with_sock active high_watermark]; rewrite ?app_nil_r, level_app, Hh; by split.
Qed.

Lemma drain_level fuel : ∀ c d c', drain_loop handle_sendfile fuel c = Some (d, c') → same_level c c'.
Proof.
  induction fuel as [|fuel IH]; intros c d c'; cbn [drain_loop].
  { destruct (no_output (csock c)); [intros [= _ <-]; done|done]. }
  destruct (no_output (csock c)); [intros [= _ <-]; done|]. intros (b & _ & (k & _ & E)%bind_Some)%bind_Some.
  destruct (ctype k); [..|by injection E as _ <-];
    apply bind_Some in E as ([ret s] & _ & E); apply bind_Some in E as (b' & _ & E).
  - destruct (ret =? OSW_OK); (destruct (ret <? 0); [destruct (close_wait s); [|destruct (send_wait s)]|]);
      try (by injection E as _ <-); by apply IH in E.
  - destruct (ret <? 0); [destruct (close_wait s); [|destruct (send_wait s)]|];
      try (by injection E as _ <-); by apply IH in E.
Qed.

Lemma after_drain_level c c' : active c = true → level_ok c → after_drain serv c = Some c' → level_ok c'.
Proof.
  intros Ha Hl. unfold after_drain. destruct (out_buffer (csock c)) as [b|].
  - set (c1 := if overflow c && _ then _ else c).
    assert (same_level c c1) as H1.
    { unfold c1, same_level. destruct (_ && _); [|done]. cbn. by rewrite app_nil_r. }
    pose proof (same_level_ok _ _ H1 Hl) as Hl1. destruct H1 as (_ & Ha1 & _). rewrite Ha in Ha1. clearbody c1.
    set (c2 := if onBufferEmpty serv && high_watermark c1 && _ then _ else c1). assert (level_ok c2) as Hl2.
    { unfold c2. destruct (_ && _ && _) eqn:E; [|done]. apply andb_true_iff in E as [[_ Hw]%andb_true_iff _].
      destruct Hl1 as (h & Hh & Hwh). rewrite (Hwh Ha1) in Hw. subst h. exists false. cbn [notes with_water active high_watermark]. rewrite level_app, Hh. by split. }
    clearbody c2. intros [= <-]. destruct (_ && _ && _); [|done]. eapply same_level_ok; [apply (reactor_level c2 true false)|done].
  - destruct (_ || _); [done|]. intros [= <-]. destruct (_ || _); [done|].
    eapply same_level_ok; [apply (reactor_level c true false)|done].
Qed.

Lemma conn_step_level o c r c' :
  conn_step fresh serv sendfile handle_sendfile o c = Some (r, c') → level_ok c → level_ok c'.
Proof.
  intros E Hl. destruct o; cbn [conn_step] in E; unfold send_to_connection, on_write in E;
    try (destruct (write_event (csock c)); [|by injection E as _ <-]);
    (destruct (active c) eqn:Ha; cbn [negb] in E; [|by injection E as _ <-]);
    try (destruct (base_mode serv && overflow c); [by injection E as _ <-|]).
  - destruct (no_output (csock c)); [|by eapply queue_data_level]. unfold try_direct in E.
    destruct (direct_send c); cbn [negb] in E; [destruct (send (csock c) data) as [[n|e] s1]|].
    1: destruct (n =? zlen data); [by injection E as _ <-|].
    all: eapply queue_data_level in E; [done|done|by eapply same_level_ok].
  - destruct (_ || no_output (csock c)); [injection E as _ <-; by apply level_closed|]. unfold queue_close in E.
    apply bind_Some in E as (b & _ & [= _ <-]). eapply same_level_ok; [apply (reactor_level _ true true)|].
    apply level_note; [by eapply same_level_ok|by right].
  - destruct (removed c || _); [by injection E as _ <-|].
    destruct (write_event (csock c)); injection E as E; (eapply same_level_ok; [|exact Hl]).
    + apply (f_equal snd) in E. cbn in E. subst c'. apply (reactor_level c false true).
    + apply (f_equal snd) in E. cbn in E. subst c'. apply (reactor_level c true true).
  - destruct (_ || read_event c); [by injection E as _ <-|].
    destruct (write_event (csock c)); injection E as E; (eapply same_level_ok; [|exact Hl]).
    + apply (f_equal snd) in E. cbn in E. subst c'. apply (reactor_level c true true).
    + apply (f_equal snd) in E. cbn in E. subst c'. apply (reactor_level c true false).
  - destruct (close_notify c); [injection E as _ <-; apply level_note; [done|by left]|].
    destruct (disable_notify serv && close_force c); [injection E as _ <-; by apply level_closed|].
    apply bind_Some in E as ([d c1] & Hd%drain_level & E). pose proof (same_level_ok _ _ Hd Hl) as Hl1.
    destruct Hd as (_ & Ha1 & _). rewrite Ha in Ha1. destruct d.
    1,2: apply bind_Some in E as (c2 & Hc2 & [= _ <-]); by eapply after_drain_level.
    + injection E as E. unfold on_close in E. rewrite Ha1 in E. cbn [negb] in E.
      destruct (disable_notify serv); [injection E as _ <-; by apply level_closed|].
      pose proof (reactor_level c1 true true) as (_ & _ & Hdl & _). destruct (reactor_del c1) as [r1 c2]. cbn in Hdl.
      pose proof (same_level_ok _ _ Hdl Hl1) as Hl2.
      destruct (r1 =? 0); [|by injection E as _ <-].
      destruct (close_queued c2); injection E as _ <-; [by apply level_closed|]. apply level_note; [done|by left].
    + injection E as _ <-. by apply level_closed.
Qed.
End Watermark.

(** The workers hear of a full and of an empty buffer in turn. *)
Lemma watermarks_alternate fresh serv sendfile handle_sendfile ops c w c' :
  onBufferFull serv = true → level_ok c →
  conn_run fresh serv sendfile handle_sendfile ops c = Some (w, c') → is_Some (level (notes c')).
Proof.
  intros Hf. revert c w. induction ops as [|o ops IH]; intros c w Hl; cbn [conn_run].
  - intros [= _ <-]. destruct Hl as (h & Hh & _). by eexists.
  - intros ([r c1] & E1%(conn_step_level fresh serv Hf) & ([w1 c2] & E2 & [= _ <-])%bind_Some)%bind_Some; [|done].
    by eapply IH.
Qed.

(** ** Where the connection does not do what it is told *)

Section Deviations.
Variable fresh : nat → bytes.
Variable serv : Config.
Variables sendfile handle_sendfile : Socket → option (Z * Socket).

(** [RESUME_RECV] does nothing for a paused connection that still waits to write: it tests
    [!removed || (events & READ)], which holds for every registered socket. *)
Lemma resume_ignored c :
  active c = true → base_mode serv = false → removed c = false →
  send_to_connection fresh serv sendfile EvResume c = Some (OSW_OK, c).
Proof. intros Ha Hb Hr. unfold send_to_connection. by rewrite Ha, Hb, Hr. Qed.

(** Data for a connection that its client has closed is dropped with the result [false],
    which is [OSW_OK]. *)
Lemma dropped_data_succeeds c data :
  active c = true → base_mode serv = false → peer_closed c = true → no_output (csock c) = false →
  send_to_connection fresh serv sendfile (EvData data) c = Some (OSW_OK, c).
Proof. intros Ha Hb Hp Hn. unfold send_to_connection, queue_data. by rewrite Ha, Hb, Hn, Hp. Qed.

(** A paused connection cannot be force-closed: [ReactorThread_onClose] gives up because the
    reactor has already forgotten the socket. *)
Lemma close_of_paused_fails c :
  active c = true → disable_notify serv = false → removed c = true → on_close serv c = (OSW_ERR, c).
Proof. intros Ha Hd Hr. unfold on_close, reactor_del. by rewrite Ha, Hd, Hr. Qed.
End Deviations.

(** Output that passes through the buffer undoes a pause: when it is drained, [onWrite] sets
    the read event. *)
Example drain_undoes_pause :
  let serv := MkConfig false false false false 0 0 in
  let run ops := '(_, c) ← conn_run (repeat 0) serv (λ _, None) (λ _, None) ops (make_conn 8 0 true [Again; Sent 9]);
                 Some (read_event c) in
  run [CSend [1]; CPause] = Some false ∧ run [CSend [1]; CPause; CWritable] = Some true.
Proof. by vm_compute. Qed.

(** A full buffer is reported, but the data is queued all the same. *)
Example overflow_still_queues :
  let serv := MkConfig false false false false 0 0 in
  (match conn_run (repeat 0) serv (λ _, None) (λ _, None) [CSend [1; 2]; CSend [3; 4]; CSend [5; 6]] (make_conn 2 0 true []) with
   | Some (_, c) => Some (overflow c, pend (csock c)) | None => None end)
  = Some (true, [1; 2; 3; 4; 5; 6]).
Proof. by vm_compute. Qed.

(** [BaseFactory::end] with [CLOSE_RESET] lets the close wait behind the buffered output,
    where the comment asks for an immediate close. *)
Lemma base_reset_waits c :
  w_active c = true → w_close_force c = false → closing c = false → w_closed c = false →
  w_no_output c = false → w_peer_closed c = false → fst (base_end CLOSE_RESET c) = QueueClose.
Proof. intros Ha Hf Hc Hd Hn Hp. unfold base_end, end_flags, do_close. cbn. by rewrite Ha, Hf, Hc, Hd, Hn, Hp. Qed.

(** A forced close runs the application's [onClose] once per call, also when it already ran. *)
Lemma force_close_repeats c :
  w_active c = true → w_close_force c = true → on_closes (snd (process_end (snd (process_end c)))) = S (S (on_closes c)).
Proof. intros Ha Hf. unfold process_end, do_close. rewrite Ha, Hf. cbn. by rewrite ?Ha, ?Hf. Qed.

(** Without force, [onClose] runs at most once. *)
Lemma end_closes_once c :
  w_close_force c = false → w_closed c = true → process_end c = (false, c).
Proof. intros Hf Hc. unfold process_end. rewrite Hf, Hc. by destruct (w_active c), (closing c). Qed.

(** The idle test compares milliseconds with seconds: with [max_idle_time] = 60 a connection
    that received data 60 milliseconds ago counts as idle. *)
Lemma idle_after_milliseconds n ms sent : is_idle n ms (ms - n) sent = true.
Proof. unfold is_idle. replace (ms - (ms - n)) with n by lia. by rewrite Z.ltb_irrefl. Qed.
