(* ===== verification/StaticHandler.v ===== *)
(** * server/static_handler.cc and [select_static_handler]: static files

    A request for a URL is answered by the reactor thread itself when it names a file below
    the document root.  The file system is a parameter ([FS]): what [lstat], [readlink],
    [realpath] and [readdir] answer for a path.  [task.filename] is the array of [PATH_MAX]
    bytes that holds a C string; every write into it is bounds-checked. *)

From S2P Require Import Prelude SwString Http Redis MimeType.

Definition PATH_MAX : Z := 4096.
Definition OSW_HTTP_NOT_FOUND : Z := 404.

(** ** The file system and the server's settings *)

Inductive file_type := S_IFREG | S_IFDIR | S_IFLNK | S_IFOTHER.
Record stat := MkStat { st_mode : file_type; st_size : Z; st_mtime : Z }.
Record FS := MkFS {
  lstat : bytes → option stat; readlink : bytes → option bytes;
  realpath : bytes → option bytes; readdir : bytes → option (list bytes)
}.
Record Config := MkConfig {
  document_root : bytes; locations : list bytes; http_index_files : list bytes; http_autoindex : bool
}.

Record StaticHandler := MkHandler {
  dir_path : bytes; filename : bytes; task_length : Z; l_filename : Z;
  file_stat : option stat; last : bool; status_code : Z
}.
Definition with_name (h : StaticHandler) (f : bytes) : StaticHandler :=
  MkHandler (dir_path h) f (task_length h) (l_filename h) (file_stat h) (last h) (status_code h).
Definition with_stat (h : StaticHandler) (st : stat) : StaticHandler :=
  MkHandler (dir_path h) (filename h) (task_length h) (l_filename h) (Some st) (last h) (status_code h).
Definition with_file (h : StaticHandler) (n : Z) : StaticHandler :=
  MkHandler (dir_path h) (filename h) n (l_filename h) (file_stat h) (last h) (status_code h).
Definition with_length (h : StaticHandler) (n : Z) : StaticHandler :=
  MkHandler (dir_path h) (filename h) (task_length h) n (file_stat h) (last h) (status_code h).
Definition with_status (h : StaticHandler) (c : Z) : StaticHandler :=
  MkHandler (dir_path h) (filename h) (task_length h) (l_filename h) (file_stat h) (last h) c.

(** What [%s] prints of a string. *)
Definition upto_nul (s : bytes) : bytes := default [] (cstr (s ++ [0])).

Section Static.
Variable serv : Config.
Variable fs : FS.
(** The content types, and what the two arrays on the stack hold before they are written. *)
Variable mime : gmap bytes bytes.
Variables junk real_junk : bytes.

(** ** [StaticHandler::hit] *)

(** The URL without its parameters: [memchr] for a question mark, else for a hash. *)
Definition path_of (url : bytes) : bytes :=
  match list_find (λ c, c = 63) url with
  | Some (n, _) => take n url
  | None => match list_find (λ c, c = 35) url with Some (n, _) => take n url | None => url end
  end.

(** The loop over the locations. *)
Fixpoint in_locations (url : bytes) (ls : list bytes) (found : bool) : option bool :=
  match ls with
  | [] => Some found
  | l :: ls => b ← openswoole_strcasect url 0 (zlen url) l; in_locations url ls (found || b)
  end.

(** A file that does not exist: 404 inside a location, else a dynamic request. *)
Definition missing (h : StaticHandler) : bool * StaticHandler :=
  if last h then (true, with_status h OSW_HTTP_NOT_FOUND) else (false, h).

Definition is_dir (h : StaticHandler) : bool :=
  match file_stat h with Some st => match st_mode st with S_IFDIR => true | _ => false end | None => false end.

(** The part behind the symbolic links. *)
Definition classify (st : stat) (name : bytes) (h : StaticHandler) : bool * StaticHandler :=
  if negb (bool_decide (http_index_files serv = [])) && is_dir h then (true, h)
  else if http_autoindex serv && is_dir h then (true, h)
  else if negb (exists_ mime name) then (false, h)
  else match st_mode st with S_IFREG => (true, with_file h (st_size st)) | _ => (false, h) end.

(** From the label [check_stat] on; every symbolic link is a jump back to it. *)
Fixpoint check_stat (fuel : nat) (h : StaticHandler) : option (bool * StaticHandler) :=
  match fuel with
  | O => None
  | S fuel =>
    name ← cstr (filename h);
    match lstat fs name with
    | None => Some (missing h)
    | Some st =>
      let h := with_stat h st in
      match st_mode st with
      | S_IFLNK =>
        match readlink fs name with
        | None | Some [] => Some (false, h)
        | Some target =>
          buf ← cstr (take (Z.to_nat (PATH_MAX - 1)) target ++ [0]);
          f ← store (filename h) 0 (buf ++ [0]);
          check_stat fuel (with_name h f)
        end
      | _ => Some (classify st name h)
      end
    end
  end.

Definition hit (fuel : nat) (url : bytes) : option (bool * StaticHandler) :=
  let path := path_of url in
  let root := document_root serv in
  f ← store junk 0 root;
  last ← in_locations url (locations serv) false;
  let h := MkHandler [] f 0 0 None last 200 in
  if negb (bool_decide (locations serv = [])) && negb last then Some (false, h) else
  if PATH_MAX <=? zlen root + zlen path then Some (false, h) else
  f ← store f (zlen root) (path ++ [0]);
  text ← load f 0 (zlen root + zlen path);
  let decoded := url_decode text in
  f ← store f 0 (decoded ++ [0]);
  let h := MkHandler path f 0 (zlen decoded) None last 200 in
  dots ← openswoole_strnpos path (lit "..");
  if dots =? -1 then check_stat fuel h else
  name ← cstr f;
  match realpath fs name with
  | None => Some (missing h)
  | Some real =>
    b ← store real_junk 0 (real ++ [0]);
    c ← at_ b (zlen root);
    if negb (c =? 47) then Some (false, h)
    else if bool_decide (real = root) then Some (false, h)
    else check_stat fuel h
  end.

(** ** The index *)

(** [osw_snprintf(buf + off, size, text)] below 2 GiB: the length written. *)
Definition osw_snprintf (buf : bytes) (off size : Z) (text : bytes) : option (Z * bytes) :=
  if size =? 0 then Some (zlen text, buf) else
  let t := take (Z.to_nat (size - 1)) text in
  b ← store buf off (t ++ [0]); Some (zlen t, b).

Definition newline : bytes := [10].
Definition tab : bytes := [9].
Definition page_head (dir : bytes) : bytes :=
  let dir := upto_nul dir in
  lit "<html>" ++ newline ++ lit "<head>" ++ newline ++ tab ++ lit "<meta charset='UTF-8'>" ++ newline ++
  lit "<title>Index of " ++ dir ++ lit "</title>" ++ lit "</head>" ++ newline ++ lit "<body>" ++ newline ++
  lit "<h1>Index of " ++ dir ++ lit "</h1><hr/>" ++ tab ++ lit "<ul>" ++ newline.
Definition page_item (dir file : bytes) : bytes :=
  let dir := upto_nul dir in
  tab ++ tab ++ lit "<li><a href=" ++ dir ++ file ++ lit ">" ++ file ++ lit "</a></li>" ++ newline.
Definition page_tail : bytes :=
  tab ++ lit "</ul>" ++ newline ++ lit "<hr><i>Powered by OpenSwoole</i></body>" ++ newline ++ lit "</html>" ++ newline.

(** The files that are not listed: the directory itself, and the parent of the root. *)
Definition hidden (dir file : bytes) : bool :=
  bool_decide (file = lit ".") || (bool_decide (dir = lit "/") && bool_decide (file = lit "..")).

(** The loop over the files; [ret] is the length of the last piece only. *)
Fixpoint index_loop (dir : bytes) (files : list bytes) (p ret size : Z) (buf : bytes) : option (Z * Z * bytes) :=
  match files with
  | [] => Some (p, ret, buf)
  | file :: files =>
    if hidden dir file then index_loop dir files p ret size buf else
    '(ret, buf) ← osw_snprintf buf p (u64 (size - ret)) (page_item dir file);
    index_loop dir files (p + ret) ret size buf
  end.

(** The directory with a slash at its end; [back()] of an empty string is undefined. *)
Definition slashed (dir : bytes) : option bytes :=
  c ← list.last dir; Some (if c =? 47 then dir else dir ++ [47]).

Definition get_index_page (dir_path : bytes) (files : list bytes) (buf : bytes) (size : Z) : option (Z * bytes) :=
  dir ← slashed dir_path;
  '(ret, buf) ← osw_snprintf buf 0 (u64 (size - 0)) (page_head dir);
  '(p, ret, buf) ← index_loop dir files ret ret size buf;
  '(ret, buf) ← osw_snprintf buf p (u64 (size - ret)) page_tail;
  Some (p + ret, buf).

(** [get_dir_files]: a [std::set], so sorted and without duplicates; [readdir] answers in that
    order.  The result of the call is ignored by its caller. *)
Definition get_dir_files (h : StaticHandler) : option (list bytes) :=
  if negb (is_dir h) then Some [] else name ← cstr (filename h); Some (default [] (readdir fs name)).

(** [intersection]: the first index file that the directory has. *)
Fixpoint intersection (index files : list bytes) : bytes :=
  match index with
  | [] => []
  | f :: index => if bool_decide (f ∈ files) then f else intersection index files
  end.

(** [StaticHandler::set_filename]. *)
Definition set_filename (file : bytes) (h : StaticHandler) : option (bool * StaticHandler) :=
  f ← store (filename h) (l_filename h) file;
  let n := l_filename h + zlen file in
  f ← store f n [0];
  let h := with_length (with_name h f) n in
  name ← cstr f;
  match lstat fs name with
  | None => Some (false, h)
  | Some st =>
    let h := with_stat h st in
    match st_mode st with S_IFREG => Some (true, with_file h (st_size st)) | _ => Some (false, h) end
  end.

(** ** Dates: the calendar functions of the C library are parameters *)

Context {tm : Type}.
Variable strptime : bytes → bytes → option tm.
Variable mktime : tm → Z.
Variable strftime : Z → bytes.
Variables timezone_ now : Z.

Definition date_formats : list bytes :=
  [lit "%a, %d %b %Y %T GMT"; lit "%a, %d %b %Y %T UTC"; lit "%A, %d-%b-%y %T GMT"; lit "%a %b %e %T %Y"].

(** The first format that fits. *)
Fixpoint parse_date (formats : list bytes) (date : bytes) : option tm :=
  match formats with
  | [] => None
  | f :: formats => match strptime date f with Some t => Some t | None => parse_date formats date end
  end.

Definition is_modified (date : bytes) (h : StaticHandler) : option bool :=
  if bool_decide (date = []) || (63 <? zlen date) then Some false else
  match parse_date date_formats (upto_nul date) with
  | None => Some false
  | Some t => st ← file_stat h; Some (st_mtime st <=? mktime t - timezone_)
  end.

(** ** [Server::select_static_handler] *)

(** What [send_to_connection] is given. *)
Inductive response := RData (data : bytes) | RFile (name : bytes) (offset length : Z) | RClose.

Definition OSW_HTTP_SERVER_SOFTWARE : bytes := lit "OpenSwoole 26.2.0".
Definition OSW_HTTP_PAGE_404 : bytes :=
  lit "<html><body><h2>HTTP 404 Not Found</h2><hr><i>Powered by OpenSwoole</i></body></html>".

(** The text in [header_buffer], an array of 1024 bytes. *)
Definition header_buffer (text : bytes) : bytes := take 1023 text.

Definition not_found_header : bytes :=
  lit "HTTP/1.1 " ++ get_status_message OSW_HTTP_NOT_FOUND ++ crlf ++
  lit "Server: " ++ OSW_HTTP_SERVER_SOFTWARE ++ crlf ++
  lit "Content-Length: " ++ print_number (zlen OSW_HTTP_PAGE_404) ++ crlf ++ crlf ++ OSW_HTTP_PAGE_404.
Definition keep_alive_line (keep_alive : bool) : bytes :=
  if keep_alive then lit "Connection: keep-alive" ++ crlf else [].
Definition dates (st : stat) : bytes :=
  lit "Date: " ++ strftime now ++ crlf ++ lit "Last-Modified: " ++ strftime (st_mtime st) ++ crlf.
Definition not_modified_header (keep_alive : bool) (st : stat) : bytes :=
  lit "HTTP/1.1 304 Not Modified" ++ crlf ++ keep_alive_line keep_alive ++ dates st ++
  lit "Server: " ++ OSW_HTTP_SERVER_SOFTWARE ++ crlf ++ crlf.
Definition file_header (keep_alive : bool) (length : Z) (type : bytes) (st : stat) : bytes :=
  lit "HTTP/1.1 200 OK" ++ crlf ++ keep_alive_line keep_alive ++
  lit "Content-Length: " ++ print_number length ++ crlf ++ lit "Content-Type: " ++ type ++ crlf ++
  dates st ++ lit "Server: " ++ OSW_HTTP_SERVER_SOFTWARE ++ crlf ++ crlf.

(** The search for an index file: [None] leaves the request to a worker. *)
Definition find_index (h : StaticHandler) : option (option (bytes * list bytes * StaticHandler)) :=
  if negb (bool_decide (http_index_files serv = [])) && is_dir h then
    files ← get_dir_files h;
    let index := intersection (http_index_files serv) files in
    if bool_decide (index = []) then Some (if http_autoindex serv then Some ([], files, h) else None)
    else '(ok, h) ← set_filename index h; Some (if ok : bool then Some (index, files, h) else None)
  else Some (Some ([], [], h)).

(** The file: header, contents, close.  [st] is the status of what the URL names, also when
    an index file was chosen. *)
Definition send_file (keep_alive : bool) (st : stat) (h : StaticHandler) : option (list response) :=
  name ← cstr (filename h);
  Some (RData (header_buffer (file_header keep_alive (task_length h) (get mime name) st)) ::
        (if negb (task_length h =? 0) then [RFile name 0 (task_length h)] else []) ++
        (if keep_alive then [] else [RClose])).

(** The list of the files of a directory, in the thread's buffer [tg]. *)
Definition send_index (keep_alive : bool) (st : stat) (files : list bytes) (tg : bytes) (h : StaticHandler) :
  option (list response) :=
  files ← (if bool_decide (files = []) then get_dir_files h else Some files);
  '(body_length, page) ← get_index_page (dir_path h) files tg (zlen tg);
  body ← load page 0 body_length;
  Some [RData (header_buffer (file_header keep_alive body_length (lit "text/html") st)); RData body].

Definition select_static_handler (fuel : nat) (url if_modified_since : bytes) (keep_alive : bool) (tg : bytes) :
  option (bool * list response) :=
  '(hit, h) ← hit fuel url;
  if negb hit then Some (false, []) else
  if status_code h =? OSW_HTTP_NOT_FOUND then Some (true, [RData (header_buffer not_found_header)]) else
  st ← file_stat h;
  unchanged ← (if bool_decide (if_modified_since = []) then Some false else is_modified if_modified_since h);
  if unchanged : bool then Some (true, [RData (header_buffer (not_modified_header keep_alive st))]) else
  found ← find_index h;
  match found with
  | None => Some (false, [])
  | Some (index, files, h) =>
    if bool_decide (index = []) && http_autoindex serv && is_dir h
    then rs ← send_index keep_alive st files tg h; Some (true, rs)
    else rs ← send_file keep_alive st h; Some (true, rs)
  end.
End Static.

(** [Server::add_static_handler_location] and [add_static_handler_index_files]. *)
Definition add_location (l : bytes) (ls : gset bytes) : gset bytes := {[l]} ∪ ls.
Definition add_index_file (f : bytes) (fs : list bytes) : list bytes :=
  if bool_decide (f ∈ fs) then fs else fs ++ [f].

(** ** C strings and plain paths *)

Lemma url_decode_plain s : 37 ∉ s → 43 ∉ s → url_decode s = s.
Proof.
  induction s as [|c s IH]; intros Hp Hq; [done|]. apply not_elem_of_cons in Hp as [Hc Hp].
  apply not_elem_of_cons in Hq as [Hd Hq]. cbn [url_decode].
  rewrite (proj2 (Z.eqb_neq c 43)), (proj2 (Z.eqb_neq c 37)) by congruence.
  cbn [andb]. rewrite IH by done. by destruct s as [|a [|b s]].
Qed.

Lemma path_of_prefix url : path_of url `prefix_of` url.
Proof.
  unfold path_of. destruct (list_find _ url) as [[n ?]|]; [apply prefix_take|].
  destruct (list_find _ url) as [[n ?]|]; [apply prefix_take|done].
Qed.

Lemma in_locations_total url ls b : ∃ r, in_locations url ls b = Some r.
Proof.
  revert b. induction ls as [|l ls IH]; intros b; cbn; [by exists b|].
  destruct (strcasect_total url 0 (zlen url) l) as [c ->]; [lia|lia|]. cbn. apply IH.
Qed.

(** ** The index page *)

Lemma osw_snprintf_fits buf pre old suf size text :
  buf = pre ++ old ++ suf → length old = S (length text) → zlen text < size →
  osw_snprintf buf (zlen pre) size text = Some (zlen text, pre ++ text ++ 0 :: suf).
Proof.
  intros -> Hl Hs. zl_nonneg. unfold osw_snprintf. rewrite (proj2 (Z.eqb_neq size 0)) by lia.
  rewrite take_ge by (unfold zlen in *; lia). rewrite (store_mid _ _ _ _ (text ++ [0]) eq_refl).
  2: { rewrite length_app. cbn. lia. }
  cbn. do 3 f_equal. app_eq.
Qed.

(** The page that is meant. *)
Definition page_items (dir : bytes) (files : list bytes) : bytes :=
  concat (page_item dir <$> filter (λ f, hidden dir f = false) files).
Definition index_page (dir : bytes) (files : list bytes) : bytes :=
  page_head dir ++ page_items dir files ++ page_tail.

(** One piece of the page: [ret], the length of the piece before, is never more than [p]. *)
Lemma piece_fits pre suf ret text :
  zlen pre + zlen text < zlen (pre ++ suf) → 0 <= ret <= zlen pre → zlen (pre ++ suf) < 2 ^ 31 →
  ∃ suf', osw_snprintf (pre ++ suf) (zlen pre) (u64 (zlen (pre ++ suf) - ret)) text =
      Some (zlen text, (pre ++ text) ++ suf') ∧ zlen ((pre ++ text) ++ suf') = zlen (pre ++ suf).
Proof.
  intros Hl Hr Hb. rewrite zlen_app in *. zl_nonneg. rewrite u64_small by lia.
  set (n := S (length text)). exists (0 :: drop n suf).
  rewrite <- (take_drop n suf) at 1.
  rewrite (osw_snprintf_fits _ pre (take n suf) (drop n suf)); [|done| |lia].
  2: { rewrite length_take. unfold zlen in *. lia. }
  split; [do 2 f_equal; app_eq|]. unfold zlen in *. rewrite !length_app. cbn. rewrite length_drop. lia.
Qed.

Lemma index_loop_exact dir files : ∀ pre suf ret,
  zlen pre + zlen (page_items dir files) < zlen (pre ++ suf) → 0 <= ret <= zlen pre →
  zlen (pre ++ suf) < 2 ^ 31 →
  ∃ ret' suf', index_loop dir files (zlen pre) ret (zlen (pre ++ suf)) (pre ++ suf) =
      Some (zlen (pre ++ page_items dir files), ret', (pre ++ page_items dir files) ++ suf') ∧
    zlen ((pre ++ page_items dir files) ++ suf') = zlen (pre ++ suf) ∧
    0 <= ret' <= zlen (pre ++ page_items dir files).
Proof.
  unfold page_items. induction files as [|file files IH]; intros pre suf ret Hl Hr Hb; cbn [index_loop].
  { exists ret, suf. by rewrite app_nil_r. }
  rewrite filter_cons in *. destruct (hidden dir file) eqn:Eh.
  { rewrite decide_False in * by done. by apply IH. }
  rewrite decide_True in * by done. cbn [fmap list_fmap concat] in *. rewrite zlen_app in Hl. zl_nonneg.
  destruct (piece_fits pre suf ret (page_item dir file)) as (suf1 & -> & Hs); [lia..|].
  cbn [mbind option_bind]. rewrite <- Hs, <- zlen_app.
  destruct (IH (pre ++ page_item dir file) suf1 (zlen (page_item dir file))) as (ret' & suf' & -> & Hs' & Hr').
  { rewrite Hs, zlen_app. lia. } { rewrite zlen_app. lia. } { lia. }
  exists ret', suf'. by rewrite (assoc_L (++) pre).
Qed.

(** The page is exact when it fits: [get_index_page] writes the head, the visible files in
    order and the tail, ended by a NUL, and returns the length.  Although each call is only
    told about the length of the piece before, nothing is cut. *)
Lemma index_page_exact dir files buf d :
  slashed dir = Some d → zlen (index_page d files) < zlen buf < 2 ^ 31 →
  ∃ buf', get_index_page dir files buf (zlen buf) = Some (zlen (index_page d files), buf') ∧
    load buf' 0 (zlen (index_page d files)) = Some (index_page d files) ∧ zlen buf' = zlen buf.
Proof.
  intros Hd Hl. unfold get_index_page. rewrite Hd. cbn [mbind option_bind].
  assert (index_page d files = (page_head d ++ page_items d files) ++ page_tail) as E
    by (unfold index_page; app_eq).
  rewrite E, !zlen_app in Hl. zl_nonneg.
  destruct (piece_fits [] buf 0 (page_head d)) as (s1 & E1 & Hs1); [cbn [app]; change (zlen (@nil Z)) with 0; lia..|].
  cbn [app] in E1, Hs1. change (zlen (@nil Z)) with 0 in E1. rewrite E1. cbn [mbind option_bind].
  rewrite <- Hs1.
  destruct (index_loop_exact d files (page_head d) s1 (zlen (page_head d))) as (r & s2 & -> & Hs2 & Hr);
    [lia..|]. cbn [mbind option_bind]. rewrite <- Hs2.
  destruct (piece_fits (page_head d ++ page_items d files) s2 r page_tail) as (s3 & -> & Hs3);
    [rewrite ?zlen_app in *; lia..|].
  cbn [mbind option_bind]. exists (((page_head d ++ page_items d files) ++ page_tail) ++ s3).
  rewrite E, (zlen_app _ page_tail). split; [done|]. split; [|lia].
  rewrite <- (zlen_app _ page_tail). by apply (load_mid []).
Qed.

(** ** Which files are sent *)

(** A path that decoding leaves alone. *)
Definition plain (s : bytes) : Prop := 0 ∉ s ∧ 37 ∉ s ∧ 43 ∉ s.
Definition no_dots (s : bytes) : Prop := ∀ i, ¬ occ (lit "..") s i.

Lemma plain_app s t : plain s → plain t → plain (s ++ t).
Proof. intros (?&?&?) (?&?&?). split_and!; rewrite elem_of_app; by intros [|]. Qed.

Section Safe.
Variable serv : Config.
Variable fs : FS.
Variable mime : gmap bytes bytes.
Variables junk real_junk : bytes.
Hypothesis Hjunk : zlen junk = PATH_MAX.
Hypothesis no_links : ∀ p st, lstat fs p = Some st → st_mode st ≠ S_IFLNK.
Abbreviation root := (document_root serv).
Hypothesis Hroot : zlen root <= PATH_MAX.
Hypothesis plain_root : plain root.

(** The handler once the name is in its array. *)
Record named (path : bytes) (h : StaticHandler) : Prop := {
  n_file : ∃ rest, filename h = (root ++ path) ++ 0 :: rest;
  n_size : zlen (filename h) = PATH_MAX;
  n_len : l_filename h = zlen (root ++ path);
  n_dir : dir_path h = path;
  n_task : task_length h = 0;
  n_status : status_code h = 200
}.

Lemma hit_plain fuel url :
  plain (path_of url) → no_dots (path_of url) →
  (∃ h, hit serv fs mime junk real_junk fuel url = Some (false, h)) ∨
  ∃ h, hit serv fs mime junk real_junk fuel url = check_stat serv fs mime fuel h ∧ named (path_of url) h.
Proof.
  intros Hp Hd. unfold hit. set (path := path_of url) in *.
  pose proof (store_behind [] junk root) as E1. cbn [Datatypes.app] in E1.
  change (zlen (@nil Z)) with 0 in E1. rewrite E1 by lia. clear E1. cbn [mbind option_bind].
  destruct (in_locations_total url (locations serv) false) as [b ->]. cbn [mbind option_bind].
  destruct (_ && _); [left; by eexists|].
  destruct (Z.leb_spec PATH_MAX (zlen root + zlen path)) as [|Hl]; [left; by eexists|]. right.
  assert (zlen (drop (length root) junk) = PATH_MAX - zlen root) as Hd1
    by (unfold zlen in *; rewrite length_drop; lia).
  rewrite store_behind by (rewrite zlen_app; change (zlen [0]) with 1; lia). cbn [mbind option_bind].
  set (rest := drop (length (path ++ [0])) (drop (length root) junk)).
  assert (zlen rest = PATH_MAX - zlen root - zlen path - 1) as Hr.
  { unfold rest, zlen in *. rewrite length_drop, length_app. cbn [length]. lia. }
  replace (root ++ (path ++ [0]) ++ rest) with ([] ++ (root ++ path) ++ [0] ++ rest) by app_eq.
  rewrite (load_mid [] (root ++ path)) by (rewrite ?zlen_app; done). cbn [mbind option_bind].
  destruct (plain_app _ _ plain_root Hp) as (Hz & H1 & H2). rewrite url_decode_plain by done.
  replace ([] ++ (root ++ path) ++ [0] ++ rest) with ([] ++ ((root ++ path) ++ [0]) ++ rest) by app_eq.
  rewrite (store_mid [] _ rest 0) by done. cbn [mbind option_bind].
  destruct (strnstr_spec path (lit "..")) as (r & Er & Hs); [done|].
  unfold openswoole_strnpos. rewrite Er. cbn [mbind option_bind].
  destruct r as [p|]; [destruct Hs as (i & _ & Ho & _); by destruct (Hd i)|].
  cbn [default]. eexists. split; [reflexivity|]. split; try done; cbn [filename].
  - exists rest. app_eq.
  - rewrite !zlen_app. change (zlen (@nil Z)) with 0. change (zlen [0]) with 1. lia.
Qed.

Lemma check_stat_plain fuel path h : plain path → named path h →
  check_stat serv fs mime (S fuel) h = Some (match lstat fs (root ++ path) with
    | None => missing h | Some st => classify serv mime st (root ++ path) (with_stat h st) end).
Proof.
  intros Hp [[rest Hf] _ _ _ _ _]. cbn [check_stat]. rewrite Hf.
  destruct (plain_app _ _ plain_root Hp) as (Hz & _ & _). rewrite cstr_nul by done. cbn [mbind option_bind].
  destruct (lstat fs (root ++ path)) as [st|] eqn:E; [|done].
  pose proof (no_links _ _ E) as Hl. by destruct (st_mode st).
Qed.

(** A file that may be sent for [path]. *)
Definition allowed (path name : bytes) (off len : Z) : Prop :=
  off = 0 ∧ (∃ st, lstat fs name = Some st ∧ st_mode st = S_IFREG ∧ len = st_size st) ∧
  (name = root ++ path ∨ ∃ i, i ∈ http_index_files serv ∧ name = (root ++ path) ++ i).
Definition sends_allowed (path : bytes) (rs : list response) : Prop :=
  ∀ name off len, RFile name off len ∈ rs → allowed path name off len.

(** A handler that is ready to send the file [name]. *)
Definition ready (path : bytes) (h : StaticHandler) : Prop :=
  ∃ name rest st, filename h = name ++ 0 :: rest ∧ 0 ∉ name ∧ lstat fs name = Some st ∧
    file_stat h = Some st ∧ st_mode st = S_IFREG ∧ task_length h = st_size st ∧
    (name = root ++ path ∨ ∃ i, i ∈ http_index_files serv ∧ name = (root ++ path) ++ i).

Lemma send_file_allowed strftime now path ka st h : ready path h →
  ∃ rs, send_file mime strftime now ka st h = Some rs ∧ sends_allowed path rs.
Proof.
  intros (name & rest & st' & Hf & Hz & Hs & _ & Hm & Ht & Hn). unfold send_file.
  rewrite Hf, cstr_nul by done. cbn [mbind option_bind]. eexists. split; [done|].
  intros nm off len Hin. rewrite Ht in Hin.
  apply elem_of_cons in Hin as [|Hin]; [done|]. apply elem_of_app in Hin as [Hin|Hin].
  - destruct (negb _); [|by apply elem_of_nil in Hin]. apply list_elem_of_singleton in Hin as [= -> -> ->].
    split; [done|]. split; [by exists st'|done].
  - destruct ka; [by apply elem_of_nil in Hin|]. by apply list_elem_of_singleton in Hin.
Qed.

Lemma set_filename_ready path h i : plain path → 0 ∉ i → i ∈ http_index_files serv →
  zlen root + zlen path + zlen i < PATH_MAX → named path h →
  ∃ ok h', set_filename fs i h = Some (ok, h') ∧ (ok = true → ready path h').
Proof using plain_root.
  clear Hjunk. intros Hp Hi Hin Hl [[rest Hf] Hsz Hn _ _ _]. unfold set_filename. rewrite Hf, Hn.
  rewrite Hf, !zlen_app in Hsz. change (zlen (0 :: rest)) with (zlen ([0] ++ rest)) in Hsz. rewrite zlen_app in Hsz.
  change (zlen [0]) with 1 in Hsz. zl_nonneg.
  assert (zlen i <= zlen (0 :: rest)) as Hb1 by (rewrite zlen_cons; lia).
  rewrite store_behind by done. cbn [mbind option_bind].
  rewrite (assoc_L (++)), <- zlen_app.
  assert (1 <= zlen (drop (length i) (0 :: rest))) as Hb2.
  { unfold zlen in *. rewrite length_drop. cbn [length]. lia. }
  rewrite store_behind by done. cbn [mbind option_bind].
  destruct (plain_app _ _ plain_root Hp) as (Hz & _ & _).
  assert (0 ∉ (root ++ path) ++ i) as Hz' by (rewrite elem_of_app; tauto).
  change ([0] ++ ?x) with (0 :: x). rewrite cstr_nul by done. cbn [mbind option_bind].
  destruct (lstat fs _) as [st|] eqn:E; [|by do 2 eexists].
  destruct (st_mode st) eqn:Em; [|by do 2 eexists..]. do 2 eexists. split; [done|]. intros _.
  do 3 eexists. split_and!; [done|done|done|done|done|done|]. right. by exists i.
Qed.

Lemma intersection_in index files : intersection index files ≠ [] → intersection index files ∈ index.
Proof.
  induction index as [|f index IH]; cbn; [done|]. case_bool_decide; [by left|]. intros. right. by apply IH.
Qed.

(** What a hit leaves: a missing file, a directory to be listed or searched, or a file. *)
Lemma hit_cases fuel path h : plain path → named path h →
  ∃ ok h', check_stat serv fs mime (S fuel) h = Some (ok, h') ∧
    (ok = true → status_code h' = OSW_HTTP_NOT_FOUND ∨
      ∃ st, lstat fs (root ++ path) = Some st ∧ file_stat h' = Some st ∧
      ((st_mode st = S_IFDIR ∧ (http_index_files serv ≠ [] ∨ http_autoindex serv = true) ∧ named path h') ∨
       (is_dir h' = false ∧ ready path h'))).
Proof.
  intros Hp Hn. rewrite (check_stat_plain _ path) by done. do 2 eexists. split; [apply f_equal, surjective_pairing|].
  pose proof (plain_app _ _ plain_root Hp) as (Hz & _ & _). pose proof Hn as [[rest Hf] Hsz Hl Hdp Ht Hst].
  destruct (lstat fs (root ++ path)) as [st|] eqn:E.
  2: { unfold missing. destruct (last h); [by left|done]. }
  unfold classify, is_dir. cbn [file_stat with_stat].
  destruct (st_mode st) eqn:Em; rewrite ?andb_false_r, ?andb_true_r; cbn [fst snd].
  - destruct (exists_ mime (root ++ path)); [|done]. intros _. right. exists st. split; [done|]. split; [done|].
    right. cbn. rewrite Em. split; [done|]. exists (root ++ path), rest, st. split_and!; try done. by left.
  - destruct (bool_decide _) eqn:Eb; cbn [negb].
    + destruct (http_autoindex serv) eqn:Ea; [|by destruct (exists_ _ _)].
      intros _. right. exists st. split; [done|]. split; [done|]. left. split_and!; [done|by right|].
      split; try done. by exists rest.
    + apply bool_decide_eq_false in Eb. intros _. right. exists st. split; [done|]. split; [done|]. left.
      split_and!; [done|by left|]. split; try done. by exists rest.
  - by apply no_links in E.
  - by destruct (exists_ _ _).
Qed.

Lemma send_index_allowed strftime now path tg ka st files h d : plain path → named path h →
  is_dir h = true → slashed path = Some d →
  zlen (index_page d (default [] (readdir fs (root ++ path)))) < zlen tg < 2 ^ 31 →
  files = [] ∨ files = default [] (readdir fs (root ++ path)) →
  ∃ rs, send_index fs strftime now ka st files tg h = Some rs ∧ sends_allowed path rs.
Proof.
  intros Hp [[rest Hf] _ _ Hd _ _] Hdir Hs Hl Hfs. unfold send_index, get_dir_files. rewrite Hdir, Hf. cbn [negb].
  destruct (plain_app _ _ plain_root Hp) as (Hz & _ & _). rewrite cstr_nul by done. cbn [mbind option_bind].
  set (all := default [] (readdir fs (root ++ path))) in *.
  assert ((if bool_decide (files = []) then Some all else Some files) = Some all) as ->.
  { case_bool_decide; [done|]. by destruct Hfs as [->| ->]. }
  cbn [mbind option_bind]. rewrite Hd.
  destruct (index_page_exact path all tg d Hs Hl) as (buf' & -> & Hld & _). cbn [mbind option_bind].
  rewrite Hld. cbn [mbind option_bind]. eexists. split; [done|]. intros name off len Hin.
  by apply elem_of_cons in Hin as [|Hin%list_elem_of_singleton].
Qed.
End Safe.


(** ** Where files escape *)

Definition entry {A} (l : list (bytes * A)) (p : bytes) : option A := (list_to_map l : gmap bytes A) !! p.
Definition demo_fs (files : list (bytes * stat)) (links real : list (bytes * bytes)) (dirs : list (bytes * list bytes)) : FS :=
  MkFS (entry files) (entry links) (entry real) (entry dirs).
Definition demo_select (serv : Config) (fs : FS) (url since : bytes) (tg : bytes) : option (bool * list response) :=
  select_static_handler serv fs map_ (replicate 4096 1) (replicate 4096 1) (λ _ _, Some tt) (λ _, 100) (λ _, lit "now")
    0 0 3 url since false tg.
(** The files of a result. *)
Definition files_sent (r : option (bool * list response)) : option (list bytes) :=
  (λ x : bool * list response, omap (λ x, match x with RFile n _ _ => Some n | _ => None end) x.2) <$> r.

Lemma entry_in {A} (l : list (bytes * A)) p x : entry l p = Some x → (p, x) ∈ l.
Proof. apply elem_of_list_to_map_2. Qed.


(** The search for a double dot looks at the URL before it is decoded: an encoded one leaves
    the document root. *)
Example encoded_dots_escape :
  let fs := demo_fs [(lit "/w/../secret.txt", MkStat S_IFREG 5 1)] [] [] [] in
  files_sent (demo_select (MkConfig (lit "/w") [] [] false) fs (lit "/%2e%2e/secret.txt") [] []) =
    Some [lit "/w/../secret.txt"].
Proof. vm_compute. reflexivity. Qed.

(** The real path is only asked for a slash at the length of the document root, not for the
    root itself: another directory of the same length is open. *)
Example same_length_escapes :
  let fs := demo_fs [(lit "/srv/www/../key/a.txt", MkStat S_IFREG 5 1)] []
    [(lit "/srv/www/../key/a.txt", lit "/srv/key/a.txt")] [] in
  files_sent (demo_select (MkConfig (lit "/srv/www") [] [] false) fs (lit "/../key/a.txt") [] []) =
    Some [lit "/srv/www/../key/a.txt"].
Proof. vm_compute. reflexivity. Qed.

(** A symbolic link to itself keeps [hit] in its loop for ever. *)
Lemma symlink_loops serv fs mime name rest st : 0 ∉ name → name ≠ [] → zlen name < PATH_MAX →
  lstat fs name = Some st → st_mode st = S_IFLNK → readlink fs name = Some name →
  ∀ fuel h, filename h = name ++ 0 :: rest → check_stat serv fs mime fuel h = None.
Proof.
  intros Hz Hne Hl Hs Hm Hr. induction fuel as [|fuel IH]; intros h Hf; [done|]. cbn [check_stat].
  rewrite Hf, cstr_nul by done. cbn [mbind option_bind]. rewrite Hs, Hm, Hr. destruct name as [|c name]; [done|].
  rewrite take_ge by (unfold zlen, PATH_MAX in *; lia). rewrite cstr_nul by done. cbn [mbind option_bind filename with_stat].
  rewrite Hf. replace ((c :: name) ++ 0 :: rest) with ([] ++ ((c :: name) ++ [0]) ++ rest) by app_eq.
  rewrite (store_mid [] _ rest 0) by done. cbn [mbind option_bind]. apply IH. cbn [filename with_name]. app_eq.
Qed.

(** A directory named without a slash at the end: the name of the index file is appended to
    it directly, and the file is not found. *)
Example index_without_slash :
  let fs := demo_fs [(lit "/w/d", MkStat S_IFDIR 0 1); (lit "/w/d/index.html", MkStat S_IFREG 5 1)] [] []
    [(lit "/w/d", [lit "index.html"])] in
  demo_select (MkConfig (lit "/w") [] [lit "index.html"] false) fs (lit "/d") [] [] = Some (false, []).
Proof. vm_compute. reflexivity. Qed.

(** The name of the index file is copied behind a long path without a check: it leaves the
    array. *)
Example index_name_overruns :
  let d := lit "/" ++ replicate 4087 97 in
  let fs := demo_fs [(lit "/w" ++ d, MkStat S_IFDIR 0 1)] [] [] [(lit "/w" ++ d, [lit "index.html"])] in
  demo_select (MkConfig (lit "/w") [] [lit "index.html"] false) fs d [] [] = None.
Proof. vm_compute. reflexivity. Qed.

(** Each piece of the index page may take the size of the buffer less the piece before it,
    whatever is already in the buffer: a long directory writes behind it. *)
Example index_page_overruns :
  get_index_page (lit "/d/") (replicate 3 (lit "file.txt")) (replicate 220 0) 220 = None.
Proof. vm_compute. reflexivity. Qed.

(** Without keep-alive only the answer with a file closes the connection: a missing file
    leaves it open. *)
Example missing_keeps_open :
  demo_select (MkConfig (lit "/w") [lit "/"] [] false) (demo_fs [] [] [] []) (lit "/a") [] [] =
    Some (true, [RData not_found_header]).
Proof. vm_compute. reflexivity. Qed.

(** The answer "not modified" for a directory compares the date of the directory, not of the
    index file, which is newer here. *)
Example index_stale :
  let fs := demo_fs [(lit "/w/", MkStat S_IFDIR 0 50); (lit "/w/index.html", MkStat S_IFREG 5 200)] [] []
    [(lit "/w/", [lit "index.html"])] in
  demo_select (MkConfig (lit "/w") [] [lit "index.html"] false) fs (lit "/") (lit "date") [] =
    Some (true, [RData (not_modified_header (λ _, lit "now") 0 false (MkStat S_IFDIR 0 50))]).
Proof. vm_compute. reflexivity. Qed.
