(* ===== verification/Proxy.v ===== *)
(** * Proxies: include/openswoole_proxy.h, the handshakes of coroutine/socket.cc and network/client.cc

    Before a connection through a proxy can be used, the client asks the proxy for the
    target: by the SOCKS version 5 protocol, with a user name and password if there is one,
    or by an HTTP [CONNECT] request.  The coroutine socket runs the whole exchange with its
    own [send] and [recv]; the client of network/client.cc is a state machine that is given
    what was received. *)

From S2P Require Import Prelude Base64 SwString Protocol Http Redis NetSocket CoSocket.

(** ** SOCKS 5 *)

Inductive swSocks5State := STATE_WAIT | STATE_HANDSHAKE | STATE_AUTH | STATE_CONNECT | STATE_READY.
#[global] Instance swSocks5State_eq_dec : EqDecision swSocks5State.
Proof. solve_decision. Defined.

Definition OSW_SOCKS5_VERSION_CODE : Z := 5.
Definition OSW_SOCKS5_METHOD_AUTH : Z := 2.

Record Socks5Proxy := MkSocks5 {
  state : swSocks5State; method : Z; dns_tunnel : bool; username : bytes; password : bytes;
  target_host : bytes; target_port : Z; buf : bytes
}.
Definition with_state (c : Socks5Proxy) (s : swSocks5State) : Socks5Proxy :=
  MkSocks5 s (method c) (dns_tunnel c) (username c) (password c) (target_host c) (target_port c) (buf c).
Definition with_buf (c : Socks5Proxy) (b : bytes) : Socks5Proxy :=
  MkSocks5 (state c) (method c) (dns_tunnel c) (username c) (password c) (target_host c) (target_port c) b.

(** [Socks5Proxy::pack]. *)
Definition pack (b : bytes) (m : Z) : option bytes := store b 0 [OSW_SOCKS5_VERSION_CODE; 1; u8 m].

(** [Socks5Proxy::strerror]. *)
Definition socks5_strerror (code : Z) : bytes :=
  lit (match code with
  | 1 => "General failure" | 2 => "Connection not allowed by ruleset" | 3 => "Network unreachable"
  | 4 => "Host unreachable" | 5 => "Connection refused by destination host" | 6 => "TTL expired"
  | 7 => "command not supported / protocol error" | 8 => "address type not supported"
  | _ => "Unknown error" end)%string.

(** [send(ctx->buf, n) == n] and [recv(ctx->buf, sizeof(ctx->buf)) > 0]. *)
Definition send_front (c : Socks5Proxy) (n : Z) : io bool :=
  let! d := lift (load (buf c) 0 n) in
  let! r := co_send d in
  ret (r =? n).
Definition recv_front (c : Socks5Proxy) : io (option Socks5Proxy) :=
  let! rd := co_recv (zlen (buf c)) in
  if fst rd <=? 0 then ret None else
  let! b := lift (store (buf c) 0 (snd rd)) in
  ret (Some (with_buf c b)).

(** The user name and the password, written at [p]. *)
Definition put_credentials (c : Socks5Proxy) : option (bytes * Z) :=
  b ← store (buf c) 0 [1; u8 (zlen (username c))];
  let p := 2 in
  b ← store b p (username c);
  let p := p + zlen (username c) in
  b ← store b p [u8 (zlen (password c))];
  let p := p + 1 in
  b ← store b p (password c);
  Some (b, p + zlen (password c)).

(** The request for the target: by name, or what the code sends as an address. *)
Definition put_target (c : Socks5Proxy) : option (bytes * Z) :=
  b ← store (buf c) 0 [OSW_SOCKS5_VERSION_CODE; 1; 0];
  let p := 3 in
  if dns_tunnel c then
    b ← store b p [3; u8 (zlen (target_host c))];
    let p := p + 2 in
    b ← store b p (target_host c);
    let p := p + zlen (target_host c) in
    b ← store b p (be_bytes 2 (u16 (target_port c)));
    Some (b, p + 2)
  else
    b ← store b p [1];
    let p := p + 1 in
    b ← store b p (be_bytes 2 (u16 (zlen (target_host c))) ++ [0; 0]);
    let p := p + 4 in
    b ← store b p (be_bytes 2 (u16 (target_port c)));
    Some (b, p + 2).

(** The part of [Socket::socks5_handshake] behind the choice of the method. *)
Definition socks5_connect (c : Socks5Proxy) : io (bool * Socks5Proxy) :=
  let c := with_state c STATE_CONNECT in
  let! bn := lift (put_target c) in
  let c := with_buf c (fst bn) in
  let! ok := send_front c (snd bn) in
  if negb ok then ret (false, c) else
  let! r := recv_front c in
  match r with
  | None => ret (false, c)
  | Some c =>
    let! version := lift (at_ (buf c) 0) in
    if negb (version =? OSW_SOCKS5_VERSION_CODE) then ret (false, c) else
    let! result := lift (at_ (buf c) 1) in
    if result =? 0 then ret (true, with_state c STATE_READY) else ret (false, c)
  end.

Definition socks5_auth (c : Socks5Proxy) : io (bool * Socks5Proxy) :=
  let! bn := lift (put_credentials c) in
  let c := with_buf (with_state c STATE_AUTH) (fst bn) in
  let! ok := send_front c (snd bn) in
  if negb ok then ret (false, c) else
  let! r := recv_front c in
  match r with
  | None => ret (false, c)
  | Some c =>
    let! version := lift (at_ (buf c) 0) in
    let! status := lift (at_ (buf c) 1) in
    if negb (version =? 1) then ret (false, c)
    else if negb (status =? 0) then ret (false, c)
    else socks5_connect c
  end.

Definition socks5_handshake (c : Socks5Proxy) : io (bool * Socks5Proxy) :=
  let! b := lift (pack (buf c) (if bool_decide (username c = []) then 0 else 2)) in
  let c := with_buf (with_state c STATE_HANDSHAKE) b in
  let! ok := send_front c 3 in
  if negb ok then ret (false, c) else
  let! r := recv_front c in
  match r with
  | None => ret (false, c)
  | Some c =>
    let! version := lift (at_ (buf c) 0) in
    let! m := lift (at_ (buf c) 1) in
    if negb (version =? OSW_SOCKS5_VERSION_CODE) then ret (false, c)
    else if negb (m =? method c) then ret (false, c)
    else if m =? OSW_SOCKS5_METHOD_AUTH then socks5_auth c else socks5_connect c
  end.

(** *** The client's state machine

    [send] is the client's function pointer; [W] is whatever it works on. *)
Section Client.
Context {W : Type}.
Variable send : bytes → W → Z * W.

(** [send(this, ctx->buf, n, 0)]. *)
Definition client_send (c : Socks5Proxy) (n : Z) (w : W) : option (Z * Socks5Proxy * W) :=
  d ← load (buf c) 0 n; let '(r, w) := send d w in Some (r, c, w).

(** The request for the target; its length is computed from the name in both cases. *)
Definition client_connect (c : Socks5Proxy) (w : W) : option (Z * Socks5Proxy * W) :=
  let c := with_state c STATE_CONNECT in
  '(b, _) ← put_target c;
  client_send (with_buf c b) (zlen (target_host c) + 7) w.

(** [Client::socks5_handshake]. *)
Definition client_handshake (recv_data : bytes) (c : Socks5Proxy) (w : W) : option (Z * Socks5Proxy * W) :=
  match state c with
  | STATE_HANDSHAKE =>
    version ← at_ recv_data 0;
    m ← at_ recv_data 1;
    if negb (version =? OSW_SOCKS5_VERSION_CODE) then Some (OSW_ERR, c, w)
    else if negb (m =? method c) then Some (OSW_ERR, c, w)
    else if m =? OSW_SOCKS5_METHOD_AUTH then
      '(b, _) ← put_credentials c;
      client_send (with_buf (with_state c STATE_AUTH) b) (zlen (username c) + zlen (password c) + 3) w
    else client_connect c w
  | STATE_AUTH =>
    version ← at_ recv_data 0;
    status ← at_ recv_data 1;
    if negb (version =? 1) then Some (OSW_ERR, c, w)
    else if negb (status =? 0) then Some (OSW_ERR, c, w)
    else client_connect c w
  | STATE_CONNECT =>
    version ← at_ recv_data 0;
    if negb (version =? OSW_SOCKS5_VERSION_CODE) then Some (OSW_ERR, c, w) else
    result ← at_ recv_data 1;
    Some (result, if result =? 0 then with_state c STATE_READY else c, w)
  | _ => Some (OSW_OK, c, w)
  end.

(** The loop of [Client_tcp_connect_sync]: [receipts] are the results of [recv] into its array
    [b] of 1024 bytes, none longer; the loop waits for more when they are used up. *)
Inductive outcome := Connected | Refused | StillWaiting.
Fixpoint handshake_loop (receipts : list bytes) (b : bytes) (c : Socks5Proxy) (w : W) :
  option (outcome * Socks5Proxy * W) :=
  match receipts with
  | [] => Some (StillWaiting, c, w)
  | [] :: _ => Some (Refused, c, w)
  | d :: receipts =>
    b ← store b 0 d;
    '(r, c, w) ← client_handshake b c w;
    if r <? 0 then Some (Refused, c, w)
    else if bool_decide (state c = STATE_READY) then Some (Connected, c, w)
    else handshake_loop receipts b c w
  end.

Definition socks5_connect_sync (b : bytes) (receipts : list bytes) (c : Socks5Proxy) (w : W) :
  option (outcome * Socks5Proxy * W) :=
  b ← pack b (if bool_decide (username c = []) then 0 else 2);
  d ← load b 0 3;
  let '(r, w) := send d w in
  if r <? 0 then Some (Refused, c, w)
  else handshake_loop receipts b (with_state c STATE_HANDSHAKE) w.
End Client.

(** ** HTTP proxies *)

(** [HttpProxy::get_auth_str]: at most 255 bytes of [username:password], in base 64. *)
Definition get_auth_str (user pass : bytes) : option bytes :=
  base64_encode (take 255 (user ++ lit ":" ++ pass)).

Record HttpProxy := MkHttpProxy {
  h_username : bytes; h_password : bytes; h_target_host : bytes; h_target_port : Z
}.

(** The request for the target; [host] differs from the target when a TLS host name is set. *)
Definition proxy_request (x : HttpProxy) (host : bytes) : option bytes :=
  let port := print_number (h_target_port x) in
  let text :=
    lit "CONNECT " ++ h_target_host x ++ lit ":" ++ port ++ lit " HTTP/1.1" ++ crlf ++
    lit "Host: " ++ host ++ lit ":" ++ port ++ crlf ++
    lit "User-Agent: OpenSwoole/26.2.0" ++ crlf ++ lit "Proxy-Connection: Keep-Alive" ++ crlf in
  if bool_decide (h_password x = []) then Some (text ++ crlf)
  else auth ← get_auth_str (h_username x) (h_password x);
       Some (text ++ lit "Proxy-Authorization: Basic " ++ auth ++ crlf ++ crlf).

(** The scanners of the reply: the loop of [Socket::http_proxy_handshake], which accepts what
    follows the status code, and with [strict] that of [Client_https_proxy_handshake]. *)
Fixpoint scan_reply (strict : bool) (fuel : nat) (m : bytes) (p : Z) (st : nat) : option bool :=
  match fuel with
  | O => None
  | S fuel =>
    let pe := zlen m in
    if negb (p <? pe) then Some false else
    match st with
    | O =>
      b1 ← openswoole_strcasect m p (u64 (pe - p)) (lit "HTTP/1.1");
      b ← (if b1 : bool then Some true else openswoole_strcasect m p (u64 (pe - p)) (lit "HTTP/1.0"));
      if b : bool then scan_reply strict fuel m (p + 8 + 1) 1 else Some false
    | 1%nat =>
      c ← at_ m p;
      if isspace c then scan_reply strict fuel m (p + 1) 1 else
      b ← openswoole_strcasect m p (u64 (pe - p)) (lit "200");
      if b : bool then scan_reply strict fuel m (p + 3 + 1) 2 else Some false
    | _ =>
      if negb strict then Some true else
      c ← at_ m p;
      if isspace c then scan_reply strict fuel m (p + 1) 2 else
      openswoole_strcasect m p (u64 (pe - p)) (lit "Connection established")
    end
  end.
Definition reply_accepted (strict : bool) (m : bytes) : option bool := scan_reply strict (S (length m)) m 0 0.

Definition OSW_ERROR_HTTP_PROXY_BAD_RESPONSE : Z := 7104.

Section HttpHandshake.
Variable fresh : nat → bytes.

(** The socket's protocol for the time of the handshake. *)
Definition reply_protocol (p : Protocol) : Protocol :=
  MkProtocol (split_by_eof p) (crlf ++ crlf) (package_length_type p) (package_length_size p)
    (package_length_offset p) (package_body_offset p) (package_max_length p).

(** The read buffer is cleared at the end, whatever the result. *)
Definition clear_read_buffer {A} (a : A) : io A :=
  let! b := get_read_buffer fresh in
  let! _ := put_read_buffer (clear b) in ret a.

(** [Socket::http_proxy_handshake]; the request is printed into the write buffer. *)
Definition http_proxy_handshake (x : HttpProxy) (host : bytes) (p : Protocol) (glen : bytes → option (Z * Z))
    (fuel : nat) : io bool :=
  let! text := lift (proxy_request x host) in
  let text := take (Z.to_nat (OSW_BUFFER_SIZE_BIG - 1)) text in
  let! r := co_send text in
  if negb (r =? zlen text) then ret false else
  let! _ := get_read_buffer fresh in
  let! n := recv_packet fresh (reply_protocol p) glen fuel false true in
  if n <=? 0 then clear_read_buffer false else
  let! b := get_read_buffer fresh in
  let! reply := lift (load (s_str b) 0 n) in
  let! ok := lift (reply_accepted false reply) in
  let! _ := modify (λ s, if ok : bool then s else set_err OSW_ERROR_HTTP_PROXY_BAD_RESPONSE s) in
  clear_read_buffer ok.
End HttpHandshake.

(** ** One message and one reply *)

#[local] Ltac io :=
  unfold put_read_buffer, bind, ret, lift, modify, gets, call, finish;
  cbv beta iota; cbn [fst snd].

(** A socket that takes part in the exchange: nothing else happens to it. *)
Record at_ease (s : CoSocket) : Prop := {
  ae_calm : calm_socket s;
  ae_write : write_co s = None;
  ae_takes : Forall (λ a, ∃ k, a = Took k ∧ 600 <= Z.pos k) (tx s)
}.

Lemma send_whole d s : at_ease s → tx s ≠ [] → 0 < zlen d <= 600 →
  ∃ s', co_send d s = Done (zlen d) s' ∧ at_ease s' ∧ wire s' = wire s ++ d ∧ rx s' = rx s ∧
    tx s' = tl (tx s) ∧ read_buffer s' = read_buffer s.
Proof.
  intros [Hc Hw Ht] Hne Hd. unfold co_send. io. unfold is_available. rewrite Hw.
  pose proof Hc as [Hrx Hwk Hen (Hh & Htm & Hcl & Hrc)]. rewrite Hcl. cbn [andb orb].
  rewrite bool_decide_eq_false_2 by (by intros [??]). cbn [send_loop]. io. unfold sock_send.
  destruct (tx s) as [|a t] eqn:Et; [done|]. apply Forall_cons in Ht as [(k & -> & Hk) Ht]. cbn [send_answers].
  rewrite Z.min_r by lia. rewrite (proj2 (Z.ltb_ge (zlen d) 0)) by lia.
  unfold check_return_value. rewrite (proj2 (Z.leb_le 0 (zlen d))) by lia.
  eexists. split; [done|]. cbn. rewrite take_ge by (unfold zlen; lia). split_and!; done.
Qed.

Lemma recv_loop_chunk k d l n : d ≠ [] → zlen d <= n → ∀ fuel s, at_ease s →
  rx s = replicate k WouldBlock ++ Got d :: l → (k < fuel)%nat →
  ∃ s', recv_loop fuel n s = Done (zlen d, d) s' ∧ at_ease s' ∧ rx s' = l ∧ wire s' = wire s ∧ tx s' = tx s.
Proof.
  intros Hd Hn. pose proof (zlen_pos d Hd). induction k as [|k IH]; intros fuel s Hs Hrx Hf;
    (destruct fuel as [|fuel]; [lia|]); pose proof Hs as [Hc Hw Ht]; pose proof Hc as [Hr Hwk Hen (Hh & Htm & Hcl & Hrc)];
    cbn [recv_loop]; io; unfold sock_recv, recv; rewrite Hrx, (proj2 (Z.leb_gt n 0)) by lia; cbn [replicate Datatypes.app];
    rewrite Hrx in Hr, Hen; cbn [replicate Datatypes.app] in Hr, Hen; apply Forall_cons in Hr as [_ Hr]; rewrite weight_cons in Hen.
  - rewrite (proj2 (Z.leb_le (zlen d) n)) by lia. cbn [fst snd]. rewrite (proj2 (Z.ltb_ge (zlen d) 0)) by lia.
    unfold check_return_value. rewrite (proj2 (Z.leb_le 0 (zlen d))) by lia.
    eexists. split; [done|]. cbn. split_and!; try done. split; [split|..]; try done. cbn [rx set_err with_errors with_rx wakes]. lia.
  - cbn [recv_errno]. cbn [event_hup with_rx with_errors]. rewrite Hh. cbn [Z.eqb EAGAIN andb].
    rewrite andb_false_r. cbn [fst Z.ltb Z.compare]. unfold would_wait. cbn [errno with_errors]. change (catch_error EAGAIN) with (Some OSW_WAIT).
    cbn [timer_ok with_errors with_rx]. rewrite Htm. change (OSW_WAIT =? OSW_WAIT) with true. cbn [andb].
    unfold wait_event. cbn [wakes with_errors with_rx]. destruct (wakes s) as [|w ws] eqn:Ew; [cbn in Hen; lia|].
    apply Forall_cons in Hwk as [-> Hwk]. cbn [wait_loop]. unfold resumed.
    cbn [event_hup closed errCode set_err with_errors with_wakes with_rx orb negb Z.eqb andb fst]. rewrite Hh, Hcl.
    cbn [negb andb orb fst].
    destruct (IH fuel (set_err 0 (with_wakes (with_wakes (set_err 0 (with_errors
      (with_rx s (replicate k WouldBlock ++ Got d :: l)) EAGAIN (errCode s))) ws false) ws false)))
      as (s' & E & ? & ? & ? & ?); [|done|lia|].
    { split; [split|..]; try done. cbn [rx wakes set_err with_errors with_wakes with_rx]. cbn [length] in Hen. lia. }
    exists s'. split; [exact E|]. done.
Qed.

Lemma recv_chunk k d l n s : at_ease s → rx s = replicate k WouldBlock ++ Got d :: l → d ≠ [] → zlen d <= n →
  ∃ s', co_recv n s = Done (zlen d, d) s' ∧ at_ease s' ∧ rx s' = l ∧ wire s' = wire s ∧ tx s' = tx s.
Proof.
  intros Hs Hrx Hd Hn. unfold co_recv. io. rewrite (available_calm s (ae_calm _ Hs)).
  apply (recv_loop_chunk k); try done. pose proof (cs_enough _ (ae_calm _ Hs)) as He. rewrite Hrx in He.
  unfold weight in He. rewrite length_app, length_replicate in He. lia.
Qed.

(** ** The messages *)

Lemma put_next pre tail off d : off = zlen pre → zlen d <= zlen tail →
  ∃ tail', store (pre ++ tail) off d = Some ((pre ++ d) ++ tail') ∧ zlen tail' = zlen tail - zlen d.
Proof.
  intros -> Hl. exists (drop (length d) tail). rewrite store_behind by done. split; [f_equal; app_eq|].
  unfold zlen in *. rewrite length_drop. lia.
Qed.
Lemma put_first b d : zlen d <= zlen b →
  ∃ tail, store b 0 d = Some (d ++ tail) ∧ zlen tail = zlen b - zlen d.
Proof. apply (put_next [] b 0 d eq_refl). Qed.

Definition greeting (c : Socks5Proxy) : bytes := [5; 1; if bool_decide (username c = []) then 0 else 2].
Definition credentials (c : Socks5Proxy) : bytes :=
  1 :: zlen (username c) :: username c ++ zlen (password c) :: password c.
Definition target (c : Socks5Proxy) : bytes :=
  5 :: 1 :: 0 :: 3 :: zlen (target_host c) :: target_host c ++ be_bytes 2 (target_port c).

(** A proxy that is asked by name, with fields the protocol can carry. *)
Record proxy_ok (c : Socks5Proxy) : Prop := {
  po_buf : zlen (buf c) = 600;
  po_user : zlen (username c) <= 255;
  po_pass : zlen (password c) <= 255;
  po_host : zlen (target_host c) <= 255;
  po_port : 0 <= target_port c < 65536;
  po_tunnel : dns_tunnel c = true;
  po_method : method c = if bool_decide (username c = []) then 0 else 2
}.

Lemma proxy_ok_buf c b st : proxy_ok c → zlen b = 600 → proxy_ok (with_buf (with_state c st) b).
Proof. intros [] ?. by split. Qed.

Lemma put_credentials_spec c : proxy_ok c →
  ∃ tail, put_credentials c = Some (credentials c ++ tail, zlen (credentials c)) ∧ zlen (credentials c ++ tail) = 600.
Proof.
  intros [Hb Hu Hp _ _ _ _]. zl_nonneg. unfold put_credentials. rewrite !u8_small by lia.
  destruct (put_first (buf c) [1; zlen (username c)]) as (t1 & -> & Hs1); [rewrite Hb; done|]. cbn [mbind option_bind].
  change (zlen [1; zlen (username c)]) with 2 in Hs1.
  destruct (put_next [1; zlen (username c)] t1 2 (username c)) as (t2 & -> & Hs2); [done|lia|]. cbn [mbind option_bind].
  destruct (put_next ([1; zlen (username c)] ++ username c) t2 (2 + zlen (username c)) [zlen (password c)])
    as (t3 & -> & Hs3); [by rewrite zlen_app|change (zlen [_]) with 1; lia|]. cbn [mbind option_bind].
  change (zlen [zlen (password c)]) with 1 in Hs3.
  destruct (put_next (([1; zlen (username c)] ++ username c) ++ [zlen (password c)]) t3
    (2 + zlen (username c) + 1) (password c)) as (t4 & -> & Hs4); [rewrite !zlen_app; change (zlen [_]) with 1; done|lia|].
  cbn [mbind option_bind]. exists t4.
  assert (credentials c = (([1; zlen (username c)] ++ username c) ++ [zlen (password c)]) ++ password c) as ->
    by (unfold credentials; app_eq).
  rewrite !zlen_app. change (zlen [1; zlen (username c)]) with 2. change (zlen [_]) with 1. split; [done|lia].
Qed.

Lemma put_target_spec c : proxy_ok c →
  ∃ tail, put_target c = Some (target c ++ tail, zlen (target c)) ∧ zlen (target c ++ tail) = 600.
Proof.
  intros [Hb _ _ Hh Hp Ht _]. zl_nonneg. unfold put_target, OSW_SOCKS5_VERSION_CODE. rewrite Ht, u8_small, u16_small by lia.
  assert (zlen (be_bytes 2 (target_port c)) = 2) as Hz by (unfold zlen; by rewrite be_bytes_length).
  destruct (put_first (buf c) [5; 1; 0]) as (t1 & -> & Hs1); [rewrite Hb; done|]. cbn [mbind option_bind].
  change (zlen [5; 1; 0]) with 3 in Hs1.
  destruct (put_next [5; 1; 0] t1 3 [3; zlen (target_host c)]) as (t2 & -> & Hs2); [done|change (zlen [_; _]) with 2; lia|].
  cbn [mbind option_bind]. change (zlen [3; zlen (target_host c)]) with 2 in Hs2.
  destruct (put_next ([5; 1; 0] ++ [3; zlen (target_host c)]) t2 (3 + 2) (target_host c)) as (t3 & -> & Hs3); [done|lia|].
  cbn [mbind option_bind].
  destruct (put_next (([5; 1; 0] ++ [3; zlen (target_host c)]) ++ target_host c) t3 (3 + 2 + zlen (target_host c))
    (be_bytes 2 (target_port c))) as (t4 & -> & Hs4); [by rewrite (zlen_app _ (target_host c))|lia|].
  cbn [mbind option_bind]. exists t4.
  assert (target c = (([5; 1; 0] ++ [3; zlen (target_host c)]) ++ target_host c) ++ be_bytes 2 (target_port c)) as ->
    by (unfold target; app_eq).
  rewrite !zlen_app, Hz. change (zlen [5; 1; 0]) with 3. change (zlen [3; zlen (target_host c)]) with 2. split; [done|lia].
Qed.

(** *** What the other side understands: the requests of RFC 1928 and RFC 1929 *)

(** A string behind its length byte. *)
Definition counted (d : bytes) : option (bytes * bytes) :=
  match d with
  | n :: d => if n <=? zlen d then Some (take (Z.to_nat n) d, drop (Z.to_nat n) d) else None
  | [] => None
  end.
Definition read_credentials (d : bytes) : option (bytes * bytes * bytes) :=
  match d with
  | 1 :: d => '(u, d) ← counted d; '(p, d) ← counted d; Some (u, p, d)
  | _ => None
  end.
Definition read_target (d : bytes) : option (bytes * Z) :=
  match d with
  | 5 :: 1 :: 0 :: 3 :: d => '(h, d) ← counted d; if zlen d =? 2 then Some (h, be_val d) else None
  | _ => None
  end.
(** The whole conversation of a client: its credentials, if it has any, and its target. *)
Definition understood (d : bytes) : option (option (bytes * bytes) * (bytes * Z)) :=
  match d with
  | 5 :: 1 :: 0 :: d => t ← read_target d; Some (None, t)
  | 5 :: 1 :: 2 :: d => '(u, p, d) ← read_credentials d; t ← read_target d; Some (Some (u, p), t)
  | _ => None
  end.

Lemma counted_spec s rest : counted (zlen s :: s ++ rest) = Some (s, rest).
Proof.
  cbn. rewrite zlen_app. zl_nonneg. rewrite (proj2 (Z.leb_le _ _)) by lia.
  unfold zlen. by rewrite Nat2Z.id, take_app_length, drop_app_length.
Qed.

Lemma read_target_spec c : proxy_ok c → read_target (target c) = Some (target_host c, target_port c).
Proof.
  intros [_ _ _ _ Hp _ _]. unfold target. cbn [read_target]. rewrite counted_spec. cbn [mbind option_bind].
  assert (zlen (be_bytes 2 (target_port c)) = 2) as -> by (unfold zlen; by rewrite be_bytes_length).
  cbn [Z.eqb Pos.eqb]. rewrite be_val_bytes. do 2 f_equal. apply Z.mod_small. lia.
Qed.

Definition conversation (c : Socks5Proxy) : bytes :=
  greeting c ++ (if bool_decide (username c = []) then [] else credentials c) ++ target c.

Lemma conversation_understood c : proxy_ok c → understood (conversation c) =
  Some (if bool_decide (username c = []) then None else Some (username c, password c), (target_host c, target_port c)).
Proof.
  intros Hc. unfold conversation, greeting. destruct (bool_decide (username c = [])); cbn [Datatypes.app understood].
  - by rewrite read_target_spec.
  - unfold credentials. cbn [Datatypes.app read_credentials].
    replace (zlen (username c) :: (username c ++ zlen (password c) :: password c) ++ target c)
      with (zlen (username c) :: username c ++ zlen (password c) :: password c ++ target c) by app_eq.
    rewrite counted_spec. cbn [mbind option_bind]. rewrite counted_spec. cbn [mbind option_bind].
    by rewrite read_target_spec.
Qed.

(** ** The exchange on a coroutine socket *)

Lemma send_front_spec c d tail s : buf c = d ++ tail → 0 < zlen d <= 600 → at_ease s → tx s ≠ [] →
  ∃ s', send_front c (zlen d) s = Done true s' ∧ at_ease s' ∧ wire s' = wire s ++ d ∧ rx s' = rx s ∧ tx s' = tl (tx s).
Proof.
  intros Hb Hd Hs Ht. unfold send_front. io. rewrite Hb. rewrite (load_mid [] d tail) by done.
  destruct (send_whole d s Hs Ht Hd) as (s' & -> & ? & ? & ? & ? & _). exists s'. by rewrite Z.eqb_refl.
Qed.

Lemma recv_front_spec c k r l s : zlen (buf c) = 600 → at_ease s → rx s = replicate k WouldBlock ++ Got r :: l →
  r ≠ [] → zlen r <= 600 →
  ∃ tail s', recv_front c s = Done (Some (with_buf c (r ++ tail))) s' ∧ zlen (r ++ tail) = 600 ∧
    at_ease s' ∧ rx s' = l ∧ wire s' = wire s ∧ tx s' = tx s.
Proof.
  intros Hb Hs Hrx Hr Hl. pose proof (zlen_pos r Hr). unfold recv_front. io. rewrite Hb.
  destruct (recv_chunk k r l 600 s Hs Hrx Hr Hl) as (s' & -> & ?). cbn [fst snd].
  rewrite (proj2 (Z.leb_gt (zlen r) 0)) by lia. destruct (put_first (buf c) r) as (tail & -> & Ht); [lia|].
  exists tail, s'. split; [done|]. rewrite zlen_app. split; [lia|done].
Qed.

(** The request for the target and its answer. *)
Lemma socks5_connect_spec c k v res x l s : proxy_ok c → at_ease s → tx s ≠ [] →
  rx s = replicate k WouldBlock ++ Got (v :: res :: x) :: l → zlen x <= 598 →
  ∃ c' s', socks5_connect c s = Done ((v =? 5) && (res =? 0), c') s' ∧ wire s' = wire s ++ target c ∧ rx s' = l ∧
    (v = 5 → res = 0 → state c' = STATE_READY).
Proof.
  intros Hc Hs Ht Hrx Hx. unfold socks5_connect. io.
  pose proof (proxy_ok_buf c (buf c) STATE_CONNECT Hc (po_buf _ Hc)) as Hc1.
  replace (with_buf (with_state c STATE_CONNECT) (buf c)) with (with_state c STATE_CONNECT) in Hc1 by done.
  destruct (put_target_spec _ Hc1) as (tail & -> & Hl). cbn [fst snd].
  change (target (with_state c STATE_CONNECT)) with (target c) in *. set (c1 := with_buf _ _).
  assert (0 < zlen (target c) <= 600) as Htl.
  { rewrite zlen_app in Hl. zl_nonneg. split; [|lia]. apply zlen_pos. done. }
  destruct (send_front_spec c1 (target c) tail s) as (s1 & -> & Hs1 & Hw1 & Hr1 & Ht1); try done.
  cbn [negb]. rewrite <- Hr1 in Hrx.
  destruct (recv_front_spec c1 k (v :: res :: x) l s1) as (t2 & s2 & -> & Hl2 & Hs2 & Hr2 & Hw2 & _); try done.
  { rewrite !zlen_cons. lia. }
  cbn [buf with_buf]. change (at_ ((v :: res :: x) ++ t2) 0) with (Some v).
  change (at_ ((v :: res :: x) ++ t2) 1) with (Some res).
  rewrite Hw1 in Hw2. change OSW_SOCKS5_VERSION_CODE with 5. destruct (Z.eqb_spec v 5) as [->|Hv]; cbn [negb andb].
  - destruct (Z.eqb_spec res 0) as [->|Hr]; do 2 eexists; (split; [done|]); split_and!; done.
  - rewrite (proj2 (Z.eqb_neq v 5) Hv). do 2 eexists. split; [done|]. by split_and!.
Qed.

(** The credentials, their answer and the rest. *)
Lemma socks5_auth_spec c k2 x2 k3 x3 l s : proxy_ok c → at_ease s → (2 <= length (tx s))%nat →
  rx s = replicate k2 WouldBlock ++ Got (1 :: 0 :: x2) :: replicate k3 WouldBlock ++ Got (5 :: 0 :: x3) :: l →
  zlen x2 <= 598 → zlen x3 <= 598 →
  ∃ c' s', socks5_auth c s = Done (true, c') s' ∧ wire s' = wire s ++ credentials c ++ target c ∧ rx s' = l ∧
    state c' = STATE_READY.
Proof.
  intros Hc Hs Ht Hrx Hx2 Hx3. unfold socks5_auth. io.
  destruct (put_credentials_spec c Hc) as (t3 & -> & Hl3). cbn [fst snd].
  pose proof (proxy_ok_buf c _ STATE_AUTH Hc Hl3) as Hc3. set (c3 := with_buf _ _) in *.
  assert (0 < zlen (credentials c) <= 600) as Hcl.
  { rewrite zlen_app in Hl3. zl_nonneg. split; [|lia]. by apply zlen_pos. }
  assert (tx s ≠ []) as Ht0 by (destruct (tx s); [cbn in Ht; lia|done]).
  destruct (send_front_spec c3 (credentials c) t3 s) as (s3 & -> & Hs3 & Hw3 & Hr3 & Ht3); try done.
  cbn [negb]. rewrite Hrx in Hr3.
  destruct (recv_front_spec c3 k2 _ _ s3 (po_buf _ Hc3) Hs3 Hr3) as (t4 & s4 & -> & Hl4 & Hs4 & Hr4 & Hw4 & Ht4);
    [done|rewrite !zlen_cons; lia|].
  cbn [buf with_buf]. change (at_ ((1 :: 0 :: x2) ++ t4) 0) with (Some 1).
  change (at_ ((1 :: 0 :: x2) ++ t4) 1) with (Some 0). cbn [Z.eqb Pos.eqb negb].
  pose proof (proxy_ok_buf c3 _ (state c3) Hc3 Hl4) as Hc4.
  change (with_buf (with_state c3 (state c3)) ((1 :: 0 :: x2) ++ t4)) with (with_buf c3 ((1 :: 0 :: x2) ++ t4)) in Hc4.
  assert (tx s4 ≠ []) as Ht4' by (rewrite Ht4, Ht3; destruct (tx s) as [|? [|? ?]]; cbn in *; [lia|lia|done]).
  destruct (socks5_connect_spec _ k3 5 0 x3 l s4 Hc4 Hs4 Ht4' Hr4 Hx3) as (c' & s' & -> & Hw & Hr & Hst).
  exists c', s'. split; [done|]. split; [|split; [done|by apply Hst]].
  rewrite Hw, Hw4, Hw3. by rewrite (assoc_L (++)).
Qed.

(** C5: the SOCKS 5 handshake of a coroutine socket that asks by name ([dns_tunnel]), with a user
    name, a password and a host of at most 255 bytes each, over a kernel that takes every message
    at once.  With a proxy that accepts the method, the credentials and the target, each reply in
    one piece after any delay, [socks5_handshake] succeeds, and the
    other side, reading by RFC 1928 and RFC 1929, understands the user name and password, if
    there is one, and the host and port of the target, from exactly the bytes sent. *)
Theorem socks5_understood c s k1 x1 k2 x2 k3 x3 l :
  proxy_ok c → at_ease s → (3 <= length (tx s))%nat → zlen x1 <= 598 → zlen x2 <= 598 → zlen x3 <= 598 →
  rx s = replicate k1 WouldBlock ++ Got (5 :: method c :: x1) ::
    (if bool_decide (username c = []) then [] else replicate k2 WouldBlock ++ [Got (1 :: 0 :: x2)]) ++
    replicate k3 WouldBlock ++ Got (5 :: 0 :: x3) :: l →
  ∃ c' s' sent, socks5_handshake c s = Done (true, c') s' ∧ state c' = STATE_READY ∧ rx s' = l ∧
    wire s' = wire s ++ sent ∧
    understood sent = Some (if bool_decide (username c = []) then None else Some (username c, password c),
      (target_host c, target_port c)).
Proof.
  intros Hc Hs Ht Hx1 Hx2 Hx3 Hrx. unfold socks5_handshake. io. pose proof Hc as [Hb _ _ _ _ _ Hm].
  destruct (put_first (buf c) (greeting c)) as (t0 & E0 & Hl0); [by rewrite Hb|].
  assert (pack (buf c) (if bool_decide (username c = []) then 0 else 2) = Some (greeting c ++ t0)) as ->.
  { rewrite <- E0. unfold pack, greeting. f_equal. by destruct (bool_decide _). }
  assert (zlen (greeting c ++ t0) = 600) as Hl by (rewrite zlen_app; lia).
  pose proof (proxy_ok_buf c _ STATE_HANDSHAKE Hc Hl) as Hc1. set (c1 := with_buf _ _) in *.
  assert (tx s ≠ []) as Ht0 by (destruct (tx s); [cbn in Ht; lia|done]).
  destruct (send_front_spec c1 (greeting c) t0 s) as (s1 & E1 & Hs1 & Hw1 & Hr1 & Ht1); try done.
  change (zlen (greeting c)) with 3 in E1. rewrite E1. cbn [negb]. rewrite <- Hr1 in Hrx.
  destruct (recv_front_spec c1 k1 _ _ s1 (po_buf _ Hc1) Hs1 Hrx) as (t2 & s2 & -> & Hl2 & Hs2 & Hr2 & Hw2 & Ht2);
    [done|rewrite !zlen_cons; lia|].
  cbn [buf with_buf]. change (at_ ((5 :: method c :: x1) ++ t2) 0) with (Some 5).
  change (at_ ((5 :: method c :: x1) ++ t2) 1) with (Some (method c)). change OSW_SOCKS5_VERSION_CODE with 5.
  cbn [Z.eqb Pos.eqb negb]. change (method (with_buf c1 _)) with (method c). rewrite Z.eqb_refl. cbn [negb].
  pose proof (proxy_ok_buf c1 _ STATE_HANDSHAKE Hc1 Hl2) as Hc2.
  replace (with_buf (with_state c1 STATE_HANDSHAKE) ((5 :: method c :: x1) ++ t2))
    with (with_buf c1 ((5 :: method c :: x1) ++ t2)) in Hc2 by done. set (c2 := with_buf c1 _) in *.
  assert (length (tx s2) = (length (tx s) - 1)%nat) as Hn2 by (rewrite Ht2, Ht1; destruct (tx s); cbn; lia).
  assert (tx s2 ≠ []) as Ht2' by (intros E; rewrite E in Hn2; cbn in Hn2; lia).
  rewrite Hm in *. change OSW_SOCKS5_METHOD_AUTH with 2. pose proof (conversation_understood c Hc) as Hund.
  unfold conversation in Hund. destruct (bool_decide (username c = [])) eqn:Eu.
  - cbn [Z.eqb Datatypes.app] in *.
    destruct (socks5_connect_spec c2 k3 5 0 x3 l s2 Hc2 Hs2 Ht2' Hr2 Hx3) as (c' & s' & -> & Hw & Hr & Hst).
    cbn [Z.eqb Pos.eqb andb]. exists c', s', (greeting c ++ target c). split; [done|]. split; [by apply Hst|].
    split; [done|]. split; [|done]. rewrite Hw, Hw2, Hw1. by rewrite (assoc_L (++)).
  - rewrite <- (assoc_L (++)) in Hr2. cbn [Z.eqb Pos.eqb Datatypes.app] in *.
    destruct (socks5_auth_spec c2 k2 x2 k3 x3 l s2 Hc2 Hs2 ltac:(lia) Hr2 Hx2 Hx3) as (c' & s' & -> & Hw & Hr & Hst).
    exists c', s', (greeting c ++ credentials c ++ target c). split; [done|]. split; [done|].
    split; [done|]. split; [|done]. rewrite Hw, Hw2, Hw1. by rewrite !(assoc_L (++)).
Qed.

(** ** The reply of an HTTP proxy *)

Lemma strncaseeq_at s : ∀ pre suf, zlen s <= zlen suf →
  strncaseeq (pre ++ suf) (zlen pre) s = Some (bool_decide (tolower <$> take (length s) suf = tolower <$> s)).
Proof.
  induction s as [|c s IH]; intros pre suf Hl; cbn [strncaseeq]; [by rewrite bool_decide_eq_true_2|].
  destruct suf as [|d suf]; [rewrite zlen_cons, zlen_nil in Hl; pose proof (zlen_nonneg s); lia|].
  rewrite at_prefix. cbn [mbind option_bind]. rewrite !zlen_cons in Hl.
  destruct (Z.eqb_spec (tolower d) (tolower c)) as [E|E]; cbn [length take fmap list_fmap].
  - replace (pre ++ d :: suf) with ((pre ++ [d]) ++ suf) by app_eq.
    replace (zlen pre + 1) with (zlen (pre ++ [d])) by (by rewrite zlen_app).
    rewrite IH by lia. f_equal. apply bool_decide_ext. rewrite E. split; [by intros ->|by intros [= ->]].
  - rewrite bool_decide_eq_false_2; [done|]. by intros [= ?].
Qed.

Lemma strcasect_at pre suf s : zlen suf < 2 ^ 64 → openswoole_strcasect (pre ++ suf) (zlen pre)
    (u64 (zlen (pre ++ suf) - zlen pre)) s =
  Some (bool_decide (tolower <$> take (length s) suf = tolower <$> s)).
Proof.
  intros Hl. pose proof (zlen_nonneg suf). unfold openswoole_strcasect.
  replace (zlen (pre ++ suf) - zlen pre) with (zlen suf) by (rewrite zlen_app; lia). rewrite u64_small by lia.
  destruct (Z.leb_spec (zlen s) (zlen suf)) as [?|Hgt]; [by apply strncaseeq_at|].
  rewrite bool_decide_eq_false_2; [done|]. intros E. apply (f_equal length) in E.
  rewrite !length_fmap, length_take in E. unfold zlen in Hgt. lia.
Qed.

Lemma tolower_digit c d : 48 <= d <= 57 → tolower c = d ↔ c = d.
Proof.
  intros Hd. unfold tolower, isupper. destruct ((65 <=? c) && (c <=? 90)) eqn:E; [|done].
  apply andb_prop in E as [?%Z.leb_le ?%Z.leb_le]. lia.
Qed.

(** The status behind the version: white space, [200] and at least two more bytes. *)
Definition says_ok (suf : bytes) : Prop :=
  ∃ ws d e rest, suf = ws ++ lit "200" ++ d :: e :: rest ∧ Forall (λ c, isspace c = true) ws.

Lemma says_ok_space c suf : isspace c = true → says_ok (c :: suf) ↔ says_ok suf.
Proof.
  intros Hc. split.
  - intros (ws & d & e & rest & E & Hw). destruct ws as [|w ws]; [by injection E as -> _|].
    injection E as -> ->. apply Forall_cons in Hw as [_ Hw]. by exists ws, d, e, rest.
  - intros (ws & d & e & rest & -> & Hw). exists (c :: ws), d, e, rest. split; [done|by constructor].
Qed.

Lemma scan_status fuel : ∀ pre suf, (length suf < fuel)%nat → zlen suf < 2 ^ 64 →
  ∃ b, scan_reply false fuel (pre ++ suf) (zlen pre) 1 = Some b ∧ (b = true ↔ says_ok suf).
Proof.
  induction fuel as [|fuel IH]; intros pre suf Hf Hl; [lia|]. cbn [scan_reply].
  assert ((zlen pre <? zlen (pre ++ suf)) = (0 <? zlen suf)) as ->.
  { rewrite zlen_app. destruct (Z.ltb_spec 0 (zlen suf)); [apply Z.ltb_lt|apply Z.ltb_ge]; lia. }
  destruct suf as [|c suf].
  { exists false. split; [done|]. split; [done|].
    intros ([|? ?] & ? & ? & ? & [=] & _). }
  rewrite (zlen_cons c suf) in Hl |- *. pose proof (zlen_nonneg suf). rewrite (proj2 (Z.ltb_lt 0 _)) by lia. cbn [negb].
  rewrite at_prefix. cbn [mbind option_bind]. cbn [length] in Hf.
  destruct (isspace c) eqn:Ec.
  { replace (pre ++ c :: suf) with ((pre ++ [c]) ++ suf) by app_eq.
    replace (zlen pre + 1) with (zlen (pre ++ [c])) by (by rewrite zlen_app).
    destruct (IH (pre ++ [c]) suf) as (b & -> & Hb); [lia|lia|]. exists b. by rewrite says_ok_space. }
  rewrite strcasect_at by (rewrite zlen_cons; lia). cbn [mbind option_bind]. case_bool_decide as Eq.
  - destruct suf as [|c1 [|c2 suf]]; [done..|]. change (tolower <$> lit "200") with [50; 48; 48] in Eq.
    change (length (lit "200")) with 3%nat in Eq. cbn [take fmap list_fmap] in Eq. injection Eq as E0 E1 E2.
    apply tolower_digit in E0 as ->; [|lia]. apply tolower_digit in E1 as ->; [|lia]. apply tolower_digit in E2 as ->; [|lia].
    destruct fuel as [|fuel]; [cbn in Hf; lia|]. cbn [scan_reply]. rewrite zlen_app, !zlen_cons.
    destruct suf as [|d [|e suf]].
    + rewrite (proj2 (Z.ltb_ge _ _)) by (rewrite zlen_nil; lia). exists false. split; [done|]. split; [done|].
      intros ([|w ws] & d & e & rest & E & Hw); [done|]. injection E as <- _. by apply Forall_cons in Hw as [? _].
    + rewrite (proj2 (Z.ltb_ge _ _)) by (rewrite zlen_cons, zlen_nil; lia). exists false. split; [done|]. split; [done|].
      intros ([|w ws] & d' & e & rest & E & Hw); [done|]. injection E as <- _. by apply Forall_cons in Hw as [? _].
    + pose proof (zlen_nonneg suf). rewrite (proj2 (Z.ltb_lt _ _)) by (rewrite !zlen_cons; lia). cbn [negb].
      exists true. split; [done|]. split; [|done]. intros _. by exists [], d, e, suf.
  - exists false. split; [done|]. split; [done|]. intros ([|w ws] & d & e & rest & E & Hw).
    + injection E as -> ->. by destruct Eq.
    + injection E as -> _. apply Forall_cons in Hw as [Hw _]. congruence.
Qed.

(** The reply is accepted exactly when it begins with the version, one byte, and a status of
    200 that is followed by more. *)
Lemma reply_accepted_spec m : zlen m < 2 ^ 64 →
  ∃ b, reply_accepted false m = Some b ∧
    (b = true ↔ ∃ v c suf, m = v ++ c :: suf ∧
      (tolower <$> v = tolower <$> lit "HTTP/1.1" ∨ tolower <$> v = tolower <$> lit "HTTP/1.0") ∧ says_ok suf).
Proof.
  intros Hl. unfold reply_accepted. cbn [scan_reply].
  assert (∀ v : bytes, tolower <$> v = tolower <$> lit "HTTP/1.1" ∨ tolower <$> v = tolower <$> lit "HTTP/1.0" →
    length v = 8%nat) as Hlen.
  { intros v [E|E]; apply (f_equal length) in E; rewrite !length_fmap in E; exact E. }
  destruct (Z.ltb_spec 0 (zlen m)) as [Hm|Hm]; cbn [negb].
  2: { exists false. split; [done|]. split; [done|]. intros (v & c & suf & -> & _).
       rewrite zlen_app, zlen_cons in Hm. zl_nonneg. lia. }
  pose proof (strcasect_at [] m (lit "HTTP/1.1") Hl) as E1. pose proof (strcasect_at [] m (lit "HTTP/1.0") Hl) as E2.
  cbn [Datatypes.app] in E1, E2. change (zlen (@nil Z)) with 0 in E1, E2. rewrite E1, E2. clear E1 E2. cbn [mbind option_bind].
  change (length (lit "HTTP/1.1")) with 8%nat. change (length (lit "HTTP/1.0")) with 8%nat.
  set (v := take 8 m). set (P := tolower <$> v = tolower <$> lit "HTTP/1.1"). set (Q := tolower <$> v = tolower <$> lit "HTTP/1.0").
  assert ((if bool_decide P then Some true else Some (bool_decide Q)) = Some (bool_decide (P ∨ Q))) as ->.
  { repeat case_bool_decide; naive_solver. }
  cbn [mbind option_bind]. case_bool_decide as Hv.
  2: { exists false. split; [done|]. split; [done|]. intros (v' & c & suf & E & Hv' & _). destruct Hv.
       assert (v = v') as Ev by (unfold v; rewrite E, take_app_length'; [done|symmetry; by apply Hlen]).
       unfold P, Q. by rewrite Ev. }
  assert (m = v ++ drop 8 m) as Em by (symmetry; apply take_drop).
  pose proof (Hlen v Hv) as H8. destruct (drop 8 m) as [|c suf] eqn:Ed.
  { destruct (length m) as [|n] eqn:En; [unfold zlen in Hm; lia|]. cbn [scan_reply].
    rewrite (proj2 (Z.ltb_ge _ _)) by (rewrite Em, app_nil_r; unfold zlen; lia). exists false. split; [done|].
    split; [done|]. intros (v' & c & suf & E & Hv' & _). exfalso. rewrite E, drop_app_length' in Ed; [done|symmetry; by apply Hlen]. }
  replace (0 + 8 + 1) with (zlen (v ++ [c])) by (rewrite zlen_app; unfold zlen; rewrite H8; done).
  assert (m = (v ++ [c]) ++ suf) as Em' by (rewrite Em; app_eq).
  assert (length m = (9 + length suf)%nat) as Hlm by (rewrite Em', !length_app, H8; cbn; lia).
  destruct (scan_status (length m) (v ++ [c]) suf) as (b & Eb & Hb); [lia|unfold zlen in *; lia|].
  rewrite <- Em' in Eb. rewrite Eb.
  exists b. split; [done|]. rewrite Hb. split.
  - intros Hs. by exists v, c, suf.
  - intros (v' & c' & suf' & E & Hv' & Hs). assert (v' ++ c' :: suf' = v ++ c :: suf) as E' by congruence.
    apply app_inj_1 in E' as [_ [= _ ->]]; [done|]. rewrite H8. by apply Hlen.
Qed.

(** The handshake reads one reply, up to its empty line, and the verdict is that of the
    scanner on it. *)
Lemma http_proxy_verdict fresh x host p glen s text reply ps r :
  (∀ n, length (fresh n) = n) → at_ease s → tx s ≠ [] → buffer_ok s →
  proxy_request x host = Some text → zlen text <= 600 → package_max_length p < 2 ^ 31 →
  cuts (crlf ++ crlf) (stream s) (reply :: ps) r → zlen reply <= package_max_length p →
  ∃ b s', http_proxy_handshake fresh x host p glen (2 * length (stream s) + 2) s = Done b s' ∧
    reply_accepted false reply = Some b.
Proof.
  intros Hfr Hs Ht Hb Htx Htl Hmax Hc Hr. unfold http_proxy_handshake. io. rewrite Htx.
  assert (0 < zlen text) as Hpos.
  { unfold proxy_request in Htx. destruct (bool_decide _); [by injection Htx as <-|].
    destruct (get_auth_str _ _); [|done]. by injection Htx as <-. }
  rewrite take_ge by (unfold zlen, OSW_BUFFER_SIZE_BIG in *; lia).
  destruct (send_whole text s Hs Ht) as (s1 & -> & Hs1 & Hw1 & Hr1 & Ht1 & Hb1); [lia|]. rewrite Z.eqb_refl. cbn [negb].
  assert (buffer_ok s1) as Hbo1 by (unfold buffer_ok; by rewrite Hb1).
  destruct (get_read_buffer_calm fresh Hfr s1 (ae_calm _ Hs1) Hbo1)
    as (b0 & s2 & -> & Hrb & Hc2 & Hr2 & Hwf & Ho & Hz & Hu).
  assert (stream s2 = stream s) as Hst.
  { unfold stream. rewrite Hr2, Hr1. f_equal. unfold unread in *. by rewrite Hrb, Hu, Hb1. }
  assert (zlen reply > 0) as Hrp.
  { inversion Hc as [|s0 i ps0 r0 Ho0 Hm0 Hc0]; subst. pose proof (occ_bound (crlf ++ crlf) _ _ ltac:(done) Ho0) as Hbd.
    unfold zlen. rewrite length_take. change (length (crlf ++ crlf)) with 4%nat in *. lia. }
  destruct (recv_packet_eof fresh Hfr (reply_protocol p) ltac:(done) Hmax glen (2 * length (stream s) + 2) s2 ps reply r)
    as (s3 & -> & Hpk & Hc3 & _); try done.
  { unfold buffer_ok. by rewrite Hrb. } { rewrite Hst. lia. } { by rewrite Hst. }
  rewrite (proj2 (Z.leb_gt (zlen reply) 0)) by lia.
  destruct (has_packet_load fresh s3 reply Hpk) as (b3 & -> & -> & _).
  destruct (reply_accepted_spec reply) as (b & -> & _); [cbn in Hr; lia|].
  unfold clear_read_buffer. io.
  assert (∃ b4 s4, get_read_buffer fresh (if b then s3 else set_err OSW_ERROR_HTTP_PROXY_BAD_RESPONSE s3) = Done b4 s4)
    as (b4 & s4 & ->) by (unfold get_read_buffer; destruct (read_buffer (if b then _ else _)); by do 2 eexists).
  by do 2 eexists.
Qed.

(** ** The client's state machine sends the same bytes *)

(** A connection that takes every message: the bytes on the wire. *)
Definition takes (d w : bytes) : Z * bytes := (zlen d, w ++ d).

Lemma client_connect_spec c w : proxy_ok c →
  ∃ c', client_connect takes c w = Some (zlen (target c), c', w ++ target c) ∧ state c' = STATE_CONNECT ∧
    username c' = username c ∧ method c' = method c.
Proof.
  intros Hc. unfold client_connect.
  pose proof (proxy_ok_buf c (buf c) STATE_CONNECT Hc (po_buf _ Hc)) as Hc1.
  change (with_buf (with_state c STATE_CONNECT) (buf c)) with (with_state c STATE_CONNECT) in Hc1.
  destruct (put_target_spec _ Hc1) as (tail & -> & Hl). cbn [mbind option_bind].
  change (target (with_state c STATE_CONNECT)) with (target c) in *. change (target_host (with_state _ _)) with (target_host c).
  unfold client_send. cbn [buf with_buf].
  rewrite (load_mid [] (target c) tail); [by eexists|done|].
  unfold target. rewrite !zlen_cons, zlen_app. unfold zlen at 3. rewrite be_bytes_length. lia.
Qed.

(** One receipt that leads to the next message. *)
Lemma handshake_step v n x receipts b c w c' m : zlen b = 1024 → zlen x <= 598 →
  (∀ t, client_handshake takes ((v :: n :: x) ++ t) c w = Some (zlen m, c', w ++ m)) → state c' ≠ STATE_READY →
  ∃ b', zlen b' = 1024 ∧ handshake_loop takes ((v :: n :: x) :: receipts) b c w = handshake_loop takes receipts b' c' (w ++ m).
Proof.
  intros Hb Hx Hh Hst. cbn [handshake_loop].
  destruct (put_first b (v :: n :: x)) as (t & -> & Ht); [rewrite !zlen_cons; lia|]. cbn [mbind option_bind].
  exists ((v :: n :: x) ++ t). split; [rewrite zlen_app; lia|]. rewrite Hh. cbn [mbind option_bind].
  rewrite (proj2 (Z.ltb_ge (zlen m) 0)) by apply zlen_nonneg. by rewrite bool_decide_eq_false_2.
Qed.

Lemma handshake_last x b c w : zlen b = 1024 → zlen x <= 598 → state c = STATE_CONNECT →
  handshake_loop takes [5 :: 0 :: x] b c w = Some (Connected, with_state c STATE_READY, w).
Proof.
  intros Hb Hx Hst. cbn [handshake_loop].
  destruct (put_first b (5 :: 0 :: x)) as (t & -> & Ht); [rewrite !zlen_cons; lia|]. cbn [mbind option_bind].
  unfold client_handshake. rewrite Hst. change (at_ ((5 :: 0 :: x) ++ t) 0) with (Some 5).
  by change (at_ ((5 :: 0 :: x) ++ t) 1) with (Some 0).
Qed.

Lemma client_auth_spec c w x : proxy_ok c → state c = STATE_HANDSHAKE → method c = 2 →
  ∃ c', state c' = STATE_AUTH ∧ proxy_ok c' ∧ target c' = target c ∧
    ∀ t, client_handshake takes ((5 :: 2 :: x) ++ t) c w = Some (zlen (credentials c), c', w ++ credentials c).
Proof.
  intros Hc Hst Hm. destruct (put_credentials_spec c Hc) as (tl & Ep & Hl).
  eexists. split; [|split; [by apply (proxy_ok_buf c (credentials c ++ tl) STATE_AUTH)|split; [done|]]]; [done|].
  intros t. unfold client_handshake. rewrite Hst, Hm.
  change (at_ ((5 :: 2 :: x) ++ t) 0) with (Some 5). change (at_ ((5 :: 2 :: x) ++ t) 1) with (Some 2).
  cbn [mbind option_bind Z.eqb Pos.eqb negb OSW_SOCKS5_VERSION_CODE OSW_SOCKS5_METHOD_AUTH].
  rewrite Ep. cbn [mbind option_bind]. unfold client_send. cbn [buf with_buf].
  by rewrite (load_mid [] (credentials c) tl) by (try done; unfold credentials; rewrite !zlen_cons, zlen_app, zlen_cons; lia).
Qed.

(** The client succeeds in the same exchange, with the same conversation. *)
Lemma client_conversation b c w x1 x2 x3 : proxy_ok c → zlen b = 1024 →
  zlen x1 <= 598 → zlen x2 <= 598 → zlen x3 <= 598 →
  ∃ c', socks5_connect_sync takes b ((5 :: method c :: x1) ::
      (if bool_decide (username c = []) then [] else [1 :: 0 :: x2]) ++ [5 :: 0 :: x3]) c w =
    Some (Connected, c', w ++ conversation c).
Proof.
  intros Hc Hb Hx1 Hx2 Hx3. unfold socks5_connect_sync, conversation. pose proof (po_method _ Hc) as Hm.
  destruct (put_first b (greeting c)) as (t0 & E0 & Hl0); [by rewrite Hb|].
  assert (pack b (if bool_decide (username c = []) then 0 else 2) = Some (greeting c ++ t0)) as ->.
  { rewrite <- E0. unfold pack, greeting. f_equal. by destruct (bool_decide _). }
  cbn [mbind option_bind]. rewrite (load_mid [] (greeting c) t0) by done. cbn [mbind option_bind takes].
  change (zlen (greeting c) <? 0) with false. cbv iota. set (c1 := with_state c STATE_HANDSHAKE).
  assert (proxy_ok c1) as Hc1 by (by destruct Hc).
  assert (zlen (greeting c ++ t0) = 1024) as Hb1 by (rewrite zlen_app; change (zlen (greeting c)) with 3 in *; lia).
  rewrite Hm. destruct (bool_decide (username c = [])); cbn [Datatypes.app].
  - destruct (client_connect_spec c1 (w ++ greeting c) Hc1) as (c2 & E2 & Hst2 & _).
    destruct (handshake_step 5 0 x1 [5 :: 0 :: x3] _ c1 (w ++ greeting c) c2 (target c) Hb1 Hx1) as (b2 & Hb2 & ->).
    { intros t. unfold client_handshake. cbn [state c1 with_state]. change (at_ ((5 :: 0 :: x1) ++ t) 0) with (Some 5).
      change (at_ ((5 :: 0 :: x1) ++ t) 1) with (Some 0). change (method c1) with (method c). rewrite Hm. exact E2. }
    { by rewrite Hst2. }
    rewrite handshake_last by done. eexists. by rewrite <- (assoc_L (++)).
  - destruct (client_auth_spec c1 (w ++ greeting c) x1 Hc1 eq_refl Hm) as (c2 & Hst2 & Hc2 & Ht2 & E2).
    destruct (handshake_step 5 2 x1 [1 :: 0 :: x2; 5 :: 0 :: x3] _ c1 (w ++ greeting c) c2 (credentials c) Hb1 Hx1 E2)
      as (b2 & Hb2 & ->); [by rewrite Hst2|].
    destruct (client_connect_spec c2 ((w ++ greeting c) ++ credentials c) Hc2) as (c3 & E3 & Hst3 & _). rewrite Ht2 in E3.
    destruct (handshake_step 1 0 x2 [5 :: 0 :: x3] b2 c2 ((w ++ greeting c) ++ credentials c) c3 (target c) Hb2 Hx2)
      as (b3 & Hb3 & ->).
    { intros t. unfold client_handshake. rewrite Hst2. change (at_ ((1 :: 0 :: x2) ++ t) 0) with (Some 1).
      change (at_ ((1 :: 0 :: x2) ++ t) 1) with (Some 0). exact E3. }
    { by rewrite Hst3. }
    rewrite handshake_last by done. eexists. by rewrite <- !(assoc_L (++)).
Qed.

(** ** Where the handshakes fail *)

Definition demo_proxy (tunnel : bool) (user pass host : bytes) : Socks5Proxy :=
  MkSocks5 STATE_WAIT (if bool_decide (user = []) then 0 else 2) tunnel user pass host 80 (replicate 600 0).

Lemma socks5_understood_witness :
  let c := demo_proxy true (lit "me") (lit "pw") (lit "a.org") in
  let s := demo [WouldBlock; Got [5; 2]; WouldBlock; Got [1; 0]; WouldBlock; Got [5; 0; 0; 1; 0; 0; 0; 0; 0; 0]; Got [9]]
    (replicate 3 (Took 600)) (replicate 30 (Event false)) in
  ∃ c' s' sent, socks5_handshake c s = Done (true, c') s' ∧ state c' = STATE_READY ∧ rx s' = [Got [9]] ∧
    wire s' = wire s ++ sent ∧ understood sent = Some (Some (lit "me", lit "pw"), (lit "a.org", 80)).
Proof.
  intros c s.
  apply (socks5_understood c s 1 [] 1 [] 1 [0; 1; 0; 0; 0; 0; 0; 0] [Got [9]]);
    [split; vm_compute; done| |vm_compute; lia|vm_compute; done..].
  split; [split|..]; [..|done|].
  - repeat (apply Forall_cons; split; [first [by left | right; by eexists]|]). by apply Forall_nil.
  - by apply Forall_replicate.
  - vm_compute. lia.
  - done.
  - apply Forall_replicate. by exists 600%positive.
Defined.

(** A refused target does not end the client's loop: the positive result code is not taken for
    an error, and it waits for another reply. *)
Lemma refused_keeps_waiting v x b c w : 0 < v → state c = STATE_CONNECT → zlen b = 1024 → zlen x <= 598 →
  handshake_loop takes [5 :: v :: x] b c w = Some (StillWaiting, c, w).
Proof.
  intros Hv Hst Hb Hx. cbn [handshake_loop].
  destruct (put_first b (5 :: v :: x)) as (t & -> & Ht); [rewrite !zlen_cons; lia|]. cbn [mbind option_bind].
  unfold client_handshake. rewrite Hst. change (at_ ((5 :: v :: x) ++ t) 0) with (Some 5).
  change (at_ ((5 :: v :: x) ++ t) 1) with (Some v). cbn [mbind option_bind Z.eqb Pos.eqb negb OSW_SOCKS5_VERSION_CODE].
  rewrite (proj2 (Z.eqb_neq v 0)), (proj2 (Z.ltb_ge v 0)) by lia. by rewrite Hst.
Qed.

(** Without the name tunnel the length of the host's name is sent as its address, and the
    client takes the length of the message from the name as well. *)
Example address_is_a_length :
  let c := demo_proxy false [] [] (lit "10.1.2.3") in
  (x ← put_target c; load x.1 0 x.2) = Some [5; 1; 0; 1; 0; 8; 0; 0; 0; 80] ∧
  (λ x, length x.2) <$> client_connect takes c [] = Some 15%nat.
Proof. vm_compute. done. Qed.

(** Long credentials: the length byte wraps at 256, and beyond the array the copy runs over
    its end. *)
Example credentials_wrap :
  let c := demo_proxy true (replicate 256 97) (lit "pw") [] in
  (x ← put_credentials c; load x.1 0 2) = Some [1; 0] ∧
  put_credentials (demo_proxy true (replicate 300 97) (replicate 300 98) []) = None.
Proof. vm_compute. done. Qed.

(** A reply that arrives in two pieces is refused: the missing byte is taken from the
    request that is still in the array. *)
Example split_reply_refused :
  returned (socks5_handshake (demo_proxy true [] [] (lit "a.org"))
    (demo [Got [5]; Got [0]] (replicate 3 (Took 600)) (replicate 30 (Event false)))) ≫= (λ x, Some x.1) = Some false.
Proof. vm_compute. done. Qed.

(** What the target sends directly behind the reply of an HTTP proxy is thrown away. *)
Definition left_over (r : res bool) : option (bool * bytes) :=
  match r with Done b s => Some (b, stream s) | _ => None end.
Example behind_reply_lost :
  left_over (http_proxy_handshake (repeat 0) (MkHttpProxy [] [] (lit "a.org") 25) (lit "a.org")
    (MkProtocol false [] 0 0 0 0 8192) (λ _, None) 400
    (demo [Got (lit "HTTP/1.1 200 OK" ++ crlf ++ crlf ++ lit "220 hello")] [Took 600] (replicate 9 (Event false)))) =
  Some (true, []).
Proof. vm_compute. done. Qed.

(** A user name and password of more than 254 bytes are cut. *)
Example auth_cut pass : get_auth_str (replicate 255 97) pass = base64_encode (replicate 255 97).
Proof. done. Qed.
