(* ===== verification/ProcessPool.v ===== *)
(** * The process pool: os/process_pool.cc and include/openswoole_process_pool.h

    A pool keeps a fixed number of worker processes alive.  The manager waits for a child to
    exit and forks a new one in its place, replaces a worker that announces in the message
    box that it is about to leave, and on a signal reloads the pool: it terminates the
    workers one after the other and waits for each to be replaced.

    The kernel is a set of existing processes, the results of the coming calls of [fork] in
    the manager and the signals sent so far.  One turn of the loop of [ProcessPool::wait] is a
    function of the signals delivered while it waits and of the result of [wait]. *)

From S2P Require Import Prelude Channel.

(** ** The kernel *)

Definition ESRCH : Z := 3.
Definition ECHILD : Z := 10.
Definition SIGKILL : Z := 9.
Definition SIGUSR1 : Z := 10.
Definition SIGUSR2 : Z := 12.
Definition SIGTERM : Z := 15.
Definition SIGIO : Z := 29.

Record Kernel := MkKernel { procs : gset Z; forks : list Z; sent : list (Z * Z) }.

(** [fork] as the parent sees it; the run ends where its results are not given. *)
Definition fork (k : Kernel) : option (Z * Kernel) :=
  match forks k with
  | [] => None
  | p :: l => Some (p, MkKernel (if p <? 0 then procs k else {[p]} ∪ procs k) l (sent k))
  end.

(** [openswoole_kill]: [None] or the error; process 0 is the group of the caller. *)
Definition openswoole_kill (p sig : Z) (k : Kernel) : option Z * Kernel :=
  if bool_decide (p = 0 ∨ p ∈ procs k)
  then (None, MkKernel (procs k) (forks k) (sent k ++ [(p, sig)]))
  else (Some ESRCH, k).

(** [ExitStatus] of [wait_process]: a child with its status, or a negative result. *)
Inductive ExitStatus := Exited (p status : Z) | Interrupted.

Definition is_normal_exit (status : Z) : bool := Z.land status 127 =? 0.
Definition get_code (status : Z) : Z := Z.land (Z.shiftr status 8) 255.
Definition get_signal (status : Z) : Z := Z.land status 127.

(** The child that [wait] returns is gone afterwards. *)
Definition wait_process (e : ExitStatus) (k : Kernel) : Kernel :=
  match e with
  | Exited p _ => MkKernel (procs k ∖ {[p]}) (forks k) (sent k)
  | Interrupted => k
  end.

(** ** The pool *)

Definition OSW_WORKER_BUSY : Z := 1.
Definition OSW_WORKER_IDLE : Z := 2.

Record Worker := MkWorker { pid : Z; id : Z; type_ : Z; status : Z; tasking_num : Z }.
Definition with_pid (w : Worker) (p : Z) : Worker := MkWorker p (id w) (type_ w) (status w) (tasking_num w).

Inductive swIPCMode := OSW_IPC_NONE | OSW_IPC_UNIXSOCK | OSW_IPC_MSGQUEUE | OSW_IPC_SOCKET.
#[global] Instance swIPCMode_eq_dec : EqDecision swIPCMode.
Proof. solve_decision. Defined.

(** The members for reloading, with the local variable [reload_worker_pid] of [wait];
    [killers] counts the timers that wait to run [kill_timeout_worker]. *)
Record Reload := MkReload {
  reloading : bool; reload_init : bool; reload_worker_i : Z; reload_worker_pid : Z;
  reload_workers : list Worker; killers : nat
}.

(** What does not change once the pool runs. *)
Record Settings := MkSettings {
  ipc_mode : swIPCMode; listening : bool; ptype : Z; start_id : Z; schedule_by_sysvmsg : bool;
  max_wait_time : Z; max_request : Z; max_request_grace : Z; master_pid : Z
}.

(** [worker_num] is the length of [workers]; a pointer to a worker is its index. *)
Record ProcessPool := MkPool {
  running : bool; started : bool; read_message : bool; reload : Reload;
  workers : list Worker; map_ : gmap Z nat; message_box : Channel;
  round_id : Z; scheduler_warning : bool; settings : Settings
}.

Definition worker_num (p : ProcessPool) : Z := zlen (workers p).

Definition with_reload (p : ProcessPool) (r : Reload) : ProcessPool :=
  MkPool (running p) (started p) (read_message p) r (workers p) (map_ p) (message_box p)
    (round_id p) (scheduler_warning p) (settings p).
Definition with_workers (p : ProcessPool) (ws : list Worker) (m : gmap Z nat) : ProcessPool :=
  MkPool (running p) (started p) (read_message p) (reload p) ws m (message_box p)
    (round_id p) (scheduler_warning p) (settings p).
Definition with_messages (p : ProcessPool) (b : bool) (c : Channel) : ProcessPool :=
  MkPool (running p) (started p) b (reload p) (workers p) (map_ p) c
    (round_id p) (scheduler_warning p) (settings p).
Definition with_running (p : ProcessPool) (r s : bool) : ProcessPool :=
  MkPool r s (read_message p) (reload p) (workers p) (map_ p) (message_box p)
    (round_id p) (scheduler_warning p) (settings p).

(** [ProcessPool::get_worker] and [get_worker_by_pid]. *)
Definition get_worker (worker_id : Z) (p : ProcessPool) : option Worker :=
  let i := worker_id - start_id (settings p) in
  if i <? 0 then None else workers p !! Z.to_nat i.
Definition get_worker_by_pid (x : Z) (p : ProcessPool) : option nat := map_ p !! x.

(** [set_type] and [set_start_id]. *)
Definition set_type (t : Z) (p : ProcessPool) : ProcessPool :=
  let s := settings p in
  MkPool (running p) (started p) (read_message p) (reload p)
    ((λ w, MkWorker (pid w) (id w) t (status w) (tasking_num w)) <$> workers p) (map_ p) (message_box p)
    (round_id p) (scheduler_warning p)
    (MkSettings (ipc_mode s) (listening s) t (start_id s) (schedule_by_sysvmsg s) (max_wait_time s)
      (max_request s) (max_request_grace s) (master_pid s)).
Definition set_start_id (start : Z) (p : ProcessPool) : ProcessPool :=
  let s := settings p in
  MkPool (running p) (started p) (read_message p) (reload p)
    (imap (λ i w, MkWorker (pid w) (u16 start + Z.of_nat i) (type_ w) (status w) (tasking_num w)) (workers p))
    (map_ p) (message_box p) (round_id p) (scheduler_warning p)
    (MkSettings (ipc_mode s) (listening s) (ptype s) (u16 start) (schedule_by_sysvmsg s) (max_wait_time s)
      (max_request s) (max_request_grace s) (master_pid s)).

(** [ProcessPool::create]: [block] is the memory of the message box, [None] when an allocation
    fails, and [ready] whether the queue or the sockets could be made. *)
Definition OSW_CHAN_FLAGS : Z := Z.lor OSW_CHAN_LOCK OSW_CHAN_SHM.
Definition sizeof_WorkerStopMessage : Z := 8.
Definition create (n : nat) (mode : swIPCMode) (block : option bytes) (ready : bool) (s : Settings) :
  option (Z * option ProcessPool) :=
  box ← Channel.make 65536 sizeof_WorkerStopMessage OSW_CHAN_FLAGS block;
  match box with
  | None => Some (OSW_ERR, None)
  | Some box =>
    if negb ready && bool_decide (mode = OSW_IPC_MSGQUEUE \/ mode = OSW_IPC_UNIXSOCK) then Some (OSW_ERR, None) else
    Some (OSW_OK, Some (MkPool false false false (MkReload false false 0 0 [] 0)
      (replicate n (MkWorker 0 0 0 0 0)) ∅ box 0 false
      (MkSettings mode false (ptype s) (start_id s) (schedule_by_sysvmsg s) (max_wait_time s)
        (max_request s) (max_request_grace s) (master_pid s))))
  end.

(** [ProcessPool::spawn] in the manager; [emplace] keeps an entry that is there. *)
Definition emplace (m : gmap Z nat) (x : Z) (i : nat) : gmap Z nat :=
  match m !! x with Some _ => m | None => <[x := i]> m end.
Definition spawn (i : nat) (p : ProcessPool) (k : Kernel) : option (Z * ProcessPool * Kernel) :=
  '(x, k) ← fork k;
  if x <? 0 then Some (x, p, k) else
  w ← workers p !! i;
  let m := if pid w =? 0 then map_ p else delete (pid w) (map_ p) in
  Some (x, with_workers p (<[i := with_pid w x]> (workers p)) (emplace m x i), k).

(** [ProcessPool::start]. *)
Fixpoint spawn_from (n i : nat) (p : ProcessPool) (k : Kernel) : option (Z * ProcessPool * Kernel) :=
  match n with
  | O => Some (OSW_OK, p, k)
  | S n =>
    '(x, p, k) ← spawn i p k;
    if x <? 0 then Some (OSW_ERR, p, k) else spawn_from n (S i) p k
  end.
Definition start (p : ProcessPool) (k : Kernel) : option (Z * ProcessPool * Kernel) :=
  let s := settings p in
  if bool_decide (ipc_mode s = OSW_IPC_SOCKET) && negb (listening s) then Some (OSW_ERR, p, k) else
  let ws := imap (λ i w, MkWorker (pid w) (start_id s + Z.of_nat i) (ptype s) (status w) (tasking_num w)) (workers p) in
  let p := with_running (with_workers p ws (map_ p)) true true in
  spawn_from (length ws) 0 p k.

(** [ProcessPool::schedule]: the first idle worker from the next one on. *)
Definition with_round (p : ProcessPool) (r : Z) (warn : bool) : ProcessPool :=
  MkPool (running p) (started p) (read_message p) (reload p) (workers p) (map_ p) (message_box p)
    r warn (settings p).
Fixpoint schedule_loop (n : nat) (ws : list Worker) (round target : Z) : option (bool * Z * Z) :=
  match n with
  | O => Some (false, round, target)
  | S n =>
    if zlen ws =? 0 then None (* division by zero *) else
    let target := round mod zlen ws in
    let round := u32 (round + 1) in
    w ← ws !! Z.to_nat target;
    if status w =? OSW_WORKER_IDLE then Some (true, round, target) else schedule_loop n ws round target
  end.
Definition schedule (p : ProcessPool) : option (Z * ProcessPool) :=
  if schedule_by_sysvmsg (settings p) then Some (0, p) else
  '(found, round, target) ← schedule_loop (length (workers p) + 1) (workers p) (round_id p) 0;
  Some (target, with_round p round (if found : bool then scheduler_warning p else true)).

(** [ProcessPool::get_max_request] and [set_max_request]; [random] is the system's number
    between 1 and the grace. *)
Definition get_max_request (random : Z) (s : Settings) : Z :=
  if max_request s <? 1 then -1
  else i32 (max_request s + (if 0 <? max_request_grace s then random else 0)).

(** [ProcessPool::shutdown]: all are told to stop, then waited for one by one. *)
Definition terminate (ws : list Worker) (k : Kernel) : Kernel :=
  foldl (λ k w, (openswoole_kill (pid w) SIGTERM k).2) k ws.
Definition waitpid (k : Kernel) (w : Worker) : Kernel := MkKernel (procs k ∖ {[pid w]}) (forks k) (sent k).
Definition shutdown (p : ProcessPool) (k : Kernel) : ProcessPool * Kernel :=
  (with_running p false false, foldl waitpid (terminate (workers p) k) (workers p)).

(** [ProcessPool::kill_timeout_worker]: what is left of the old workers is killed. *)
Definition force_kill (k : Kernel) (w : Worker) : Kernel :=
  match openswoole_kill (pid w) 0 k with
  | (Some _, k) => k
  | (None, k) => (openswoole_kill (pid w) SIGKILL k).2
  end.
Definition kill_timeout_worker (p : ProcessPool) (k : Kernel) : ProcessPool * Kernel :=
  let r := reload p in
  let old := drop (Z.to_nat (reload_worker_i r)) (take (length (workers p)) (reload_workers r)) in
  (with_reload p (MkReload false false 0 (reload_worker_pid r) (reload_workers r) (pred (killers r))),
   foldl force_kill k old).

(** ** The message box *)

Record WorkerStopMessage := MkMessage { m_pid : Z; m_worker_id : Z }.
Definition message_bytes (m : WorkerStopMessage) (padding : bytes) : bytes :=
  le_bytes 4 (u32 (m_pid m)) ++ le_bytes 2 (u16 (m_worker_id m)) ++ padding.
Definition read_message_bytes (b : bytes) : option WorkerStopMessage :=
  x ← load b 0 4; y ← load b 4 2; Some (MkMessage (i32 (le_val x)) (le_val y)).

(** [ProcessPool::detach] in the worker [self]; the message box is shared, and [running] is
    that of the worker. *)
Definition detach (self worker_id : Z) (padding : bytes) (p : ProcessPool) (k : Kernel) :
  option (bool * ProcessPool * Kernel) :=
  if negb (running p) then Some (false, p, k) else
  '(r, c) ← Channel.push (message_box p) (message_bytes (MkMessage self worker_id) padding);
  let p := with_messages p (read_message p) c in
  if r <? 0 then Some (false, p, k) else
  match openswoole_kill (master_pid (settings p)) SIGIO k with
  | (Some _, k) => Some (false, p, k)
  | (None, k) => Some (true, with_running p false (started p), k)
  end.

(** ** The loop of [ProcessPool::wait] *)

(** [pool_signal_handler] of ext-src/openswoole_process_pool.cc. *)
Definition pool_signal_handler (p : ProcessPool) (sig : Z) : ProcessPool :=
  let r := reload p in
  if sig =? SIGTERM then with_running p false (started p)
  else if (sig =? SIGUSR1) || (sig =? SIGUSR2) then
    with_reload p (MkReload true false (reload_worker_i r) (reload_worker_pid r) (reload_workers r) (killers r))
  else if sig =? SIGIO then with_messages p true (message_box p)
  else p.

Inductive verdict := Again | Stopped | Failed.

(** The messages of the workers that leave. *)
Fixpoint drain (fuel : nat) (p : ProcessPool) (k : Kernel) : option (verdict * ProcessPool * Kernel) :=
  match fuel with
  | O => None
  | S fuel =>
    '(n, b, c) ← Channel.pop (message_box p) sizeof_WorkerStopMessage;
    let p := with_messages p (read_message p) c in
    if n <=? 0 then Some (Again, with_messages p false c, k) else
    m ← read_message_bytes b;
    if negb (running p) then drain fuel p k else
    match get_worker_by_pid (m_pid m) p with
    | None => drain fuel p k
    | Some i =>
      '(x, p, k) ← spawn i p k;
      if x <? 0 then Some (Failed, p, k)
      else drain fuel (with_workers p (workers p) (delete (m_pid m) (map_ p))) k
    end
  end.

(** The label [_kill_worker]: the next old worker is told to stop. *)
Fixpoint kill_worker (fuel : nat) (p : ProcessPool) (k : Kernel) : option (ProcessPool * Kernel) :=
  match fuel with
  | O => None
  | S fuel =>
    let r := reload p in
    if negb (reloading r) then Some (p, k) else
    if worker_num p <=? reload_worker_i r then
      Some (with_reload p (MkReload false false 0 0 (reload_workers r) (killers r)), k) else
    w ← reload_workers r !! Z.to_nat (reload_worker_i r);
    let step i := with_reload p (MkReload (reloading r) (reload_init r) i (pid w) (reload_workers r) (killers r)) in
    match openswoole_kill (pid w) SIGTERM k with
    | (Some e, k) =>
      if e =? ECHILD then kill_worker fuel (step (u32 (reload_worker_i r + 1))) k
      else Some (step (reload_worker_i r), k)
    | (None, k) => Some (step (reload_worker_i r), k)
    end
  end.

(** The first interruption of a reload copies the workers and starts the timer. *)
Definition reload_begin (p : ProcessPool) : ProcessPool :=
  let r := reload p in
  if reload_init r then p else
  with_reload p (MkReload (reloading r) true (reload_worker_i r) (reload_worker_pid r) (workers p)
    (if max_wait_time (settings p) =? 0 then killers r else S (killers r))).

(** A child has exited. *)
Inductive replacement := Replaced | Unknown | NoProcess.
Definition replace (x : Z) (p : ProcessPool) (k : Kernel) : option (replacement * ProcessPool * Kernel) :=
  match get_worker_by_pid x p with
  | None => Some (Unknown, p, k)
  | Some i =>
    '(y, p, k) ← spawn i p k;
    if y <? 0 then Some (NoProcess, p, k) else
    let p := with_workers p (workers p) (delete x (map_ p)) in
    let r := reload p in
    let i := if x =? reload_worker_pid r then u32 (reload_worker_i r + 1) else reload_worker_i r in
    Some (Replaced, with_reload p (MkReload (reloading r) (reload_init r) i (reload_worker_pid r)
      (reload_workers r) (killers r)), k)
  end.

(** The beginning of [wait]: an array of zeroed workers. *)
Definition wait_begin (p : ProcessPool) : ProcessPool :=
  let r := reload p in
  with_reload p (MkReload (reloading r) (reload_init r) (reload_worker_i r) 0
    (replicate (length (workers p)) (MkWorker 0 0 0 0 0)) (killers r)).

(** One turn: [sigs] are delivered while it waits, [due] when the timer has run out. *)
Definition wait_turn (sigs : list Z) (due : bool) (e : ExitStatus) (p : ProcessPool) (k : Kernel) :
  option (verdict * ProcessPool * Kernel) :=
  if negb (running p) then Some (Stopped, p, k) else
  let p := foldl pool_signal_handler p sigs in
  let k := wait_process e k in
  let '(p, k) := if due && (0 <? Z.of_nat (killers (reload p))) then kill_timeout_worker p k else (p, k) in
  '(v, p, k) ← (if read_message p then drain (S (Z.to_nat (Channel.count (message_box p)))) p k
                else Some (Again, p, k));
  match v with Failed | Stopped => Some (v, p, k) | Again =>
    let kill p k := '(p, k) ← kill_worker (S (length (workers p))) p k; Some (Again, p, k) in
    match e with
    | Interrupted =>
      if negb (running p) then Some (Stopped, p, k)
      else if negb (reloading (reload p)) then Some (Again, p, k)
      else kill (reload_begin p) k
    | Exited x _ =>
      if negb (running p) then kill p k else
      '(v, p, k) ← replace x p k;
      match v with
      | Replaced => kill p k
      | Unknown => Some (Again, p, k)
      | NoProcess => Some (Failed, p, k)
      end
    end
  end.

(** ** Supervision: every place is held by one process that the manager knows

    [gone] is the process that [wait] has just returned, 0 when there is none. *)

Definition box_ok (c : Channel) : Prop :=
  ∃ q, Channel.inv c q ∧ Forall (λ m, zlen m = 8) q ∧ maxlen c = 8 ∧
    Z.land (flags c) OSW_CHAN_LOCK ≠ 0 ∧ lock c = true.

Definition reload_ok (n : nat) (r : Reload) : Prop := length (reload_workers r) = n ∧ 0 <= reload_worker_i r.

Section Supervision.
Variable n : nat.

Record supervised (gone : Z) (p : ProcessPool) (k : Kernel) : Prop := {
  sv_map : ∀ x i, map_ p !! x = Some i ↔ ∃ w, workers p !! i = Some w ∧ pid w = x;
  sv_alive : ∀ i w, workers p !! i = Some w → 0 < pid w ∧ (pid w = gone ∨ pid w ∈ procs k);
  sv_box : box_ok (message_box p);
  sv_num : length (workers p) = n;
  sv_reload : reload_ok n (reload p);
  sv_gone : gone ∉ forks k;
}.

(** No process number is used twice during the run. *)
Record fresh_forks (k : Kernel) : Prop := {
  ff_once : NoDup (filter (λ x, 0 < x) (forks k));
  ff_new : ∀ x, x ∈ forks k → x ≠ 0 ∧ x ∉ procs k;
}.

Lemma fresh_fork k x l : fresh_forks k → forks k = x :: l →
  x ≠ 0 ∧ x ∉ procs k ∧ fork k = Some (x, MkKernel (if x <? 0 then procs k else {[x]} ∪ procs k) l (sent k)) ∧
  fresh_forks (MkKernel (if x <? 0 then procs k else {[x]} ∪ procs k) l (sent k)).
Proof.
  intros [Ho Hn] E. unfold fork. rewrite E in *. destruct (Hn x) as [Hx Hp]; [by left|].
  split; [done|]. split; [done|]. split; [done|]. rewrite filter_cons in Ho. split; cbn [forks procs].
  - case_decide; [by apply NoDup_cons in Ho as [_ ?]|done].
  - intros y Hy. destruct (Hn y) as [? Hy']; [by right|]. split; [done|].
    destruct (Z.ltb_spec x 0); [done|]. case_decide as Hd; [|lia]. apply NoDup_cons in Ho as [Ho _].
    intros [->%elem_of_singleton|?]%elem_of_union; [|done]. apply Ho, list_elem_of_filter. split; [lia|done].
Qed.

Lemma supervised_box gone p k b c : supervised gone p k → box_ok c → supervised gone (with_messages p b c) k.
Proof. intros [] ?. by split. Qed.

Lemma supervised_reload gone p k r : supervised gone p k → reload_ok n r →
  supervised gone (with_reload p r) k.
Proof. intros [] ?. by split. Qed.

Lemma supervised_procs gone p k k' : supervised gone p k → procs k' = procs k → forks k' = forks k →
  supervised gone p k'.
Proof. intros [] E1 E2. split; rewrite ?E1, ?E2; done. Qed.

Lemma kill_procs x sig k : procs (openswoole_kill x sig k).2 = procs k ∧ forks (openswoole_kill x sig k).2 = forks k.
Proof. unfold openswoole_kill. by case_bool_decide. Qed.

Lemma fresh_procs k k' : fresh_forks k → procs k' = procs k → forks k' = forks k → fresh_forks k'.
Proof. intros [] E1 E2. split; by rewrite ?E1, ?E2. Qed.

(** The map is the inverse of the array, so the numbers of two places differ. *)
Lemma supervised_inj gone p k i j w w' : supervised gone p k → workers p !! i = Some w → workers p !! j = Some w' →
  pid w = pid w' → i = j.
Proof.
  intros Hs Hi Hj E. assert (map_ p !! pid w = Some i) as E1 by (apply Hs; by exists w).
  assert (map_ p !! pid w = Some j) as E2 by (apply Hs; by exists w'). congruence.
Qed.

(** A successful [fork] puts the new process in the place of the old one. *)
Lemma spawn_ok gone i w x l p k : supervised gone p k → fresh_forks k → workers p !! i = Some w →
  forks k = x :: l → 0 < x →
  ∃ p' k', spawn i p k = Some (x, p', k') ∧ supervised (if pid w =? gone then 0 else gone) p' k' ∧ fresh_forks k' ∧
    forks k' = l ∧ procs k' = {[x]} ∪ procs k ∧ sent k' = sent k ∧
    p' = with_workers p (<[i := with_pid w x]> (workers p)) (<[x := i]> (delete (pid w) (map_ p))).
Proof.
  intros Hs Hf Hw Hl Hx. destruct (fresh_fork k x l Hf Hl) as (_ & Hxp & Hk & Hf').
  rewrite (proj2 (Z.ltb_ge x 0)) in Hk, Hf' by lia. pose proof (sv_alive _ _ _ Hs i w Hw) as [Hw0 Hwp].
  assert (x ≠ gone) as Hxg by (intros ->; apply (sv_gone _ _ _ Hs); rewrite Hl; by left).
  assert (∀ j w', workers p !! j = Some w' → pid w' ≠ x) as Hnew.
  { intros j w' Hj E. destruct (sv_alive _ _ _ Hs j w' Hj) as [_ [?|Hp]]; [congruence|]. by rewrite E in Hp. }
  assert (emplace (delete (pid w) (map_ p)) x i = <[x := i]> (delete (pid w) (map_ p))) as He.
  { unfold emplace. rewrite lookup_delete_ne by (intros E; by apply (Hnew i w)).
    destruct (map_ p !! x) as [j|] eqn:E; [|done]. apply (sv_map _ _ _ Hs) in E as (w' & Hj & E). by destruct (Hnew j w'). }
  unfold spawn. rewrite Hk. cbn [mbind option_bind]. rewrite (proj2 (Z.ltb_ge x 0)) by lia. rewrite Hw. cbn [mbind option_bind].
  rewrite (proj2 (Z.eqb_neq (pid w) 0)) by lia. rewrite He.
  do 2 eexists. split; [done|]. split; [|done].
  assert (i < length (workers p))%nat as Hi by (by eapply lookup_lt_Some).
  split; cbn [map_ workers with_workers message_box reload procs forks].
  - intros y j. rewrite lookup_insert_Some, lookup_delete_Some, (sv_map _ _ _ Hs). split.
    + intros [[<- <-]|(Hy & Hy' & w' & Hj & <-)].
      * exists (with_pid w x). by rewrite list_lookup_insert_eq.
      * exists w'. split; [|done]. rewrite list_lookup_insert_ne; [done|]. intros <-. congruence.
    + intros (w' & Hj & <-). destruct (decide (i = j)) as [<-|Hij].
      * rewrite list_lookup_insert_eq in Hj by done. injection Hj as <-. by left.
      * rewrite list_lookup_insert_ne in Hj by done. right. split; [intros E; by destruct (Hnew j w' Hj)|].
        split; [|by exists w']. intros E. by destruct (supervised_inj _ _ _ _ _ _ _ Hs Hw Hj E).
  - intros j w' Hj. destruct (decide (i = j)) as [<-|Hij].
    + rewrite list_lookup_insert_eq in Hj by done. injection Hj as <-. cbn [pid with_pid]. split; [done|right; set_solver].
    + rewrite list_lookup_insert_ne in Hj by done. destruct (sv_alive _ _ _ Hs j w' Hj) as [? Ha]. split; [done|].
      destruct (Z.eqb_spec (pid w) gone) as [Eg|Eg]; [|set_solver]. right. destruct Ha as [E|]; [|set_solver].
      destruct Hij. apply (supervised_inj _ _ _ _ _ _ _ Hs Hw Hj). congruence.
  - exact (sv_box _ _ _ Hs).
  - rewrite length_insert. exact (sv_num _ _ _ Hs).
  - exact (sv_reload _ _ _ Hs).
  - pose proof (sv_gone _ _ _ Hs) as Hg. rewrite Hl in Hg.
    destruct (pid w =? gone); [|set_solver]. intros H0. destruct (ff_new _ Hf' 0 H0) as [? _]. done.
Qed.

Lemma supervised_weaken gone p k : supervised 0 p k → gone ∉ forks k → supervised gone p k.
Proof.
  intros [] Hg. split; try done. intros i w Hw. destruct (sv_alive0 i w Hw) as [? [?|?]]; [lia|]. split; [done|by right].
Qed.

(** A process in no place may be gone. *)
Lemma supervised_unknown x p k : supervised x p k → map_ p !! x = None → fresh_forks k → supervised 0 p k.
Proof.
  intros Hs Hx Hf. pose proof Hs as []. split; try done.
  - intros i w Hw. destruct (sv_alive0 i w Hw) as [? [E|?]]; [|by split; [|right]].
    assert (map_ p !! x = Some i) by (apply Hs; by exists w). congruence.
  - intros H0. by destruct (ff_new _ Hf 0 H0).
Qed.

(** What the manager's bookkeeping of processes leaves alone. *)
Definition same_rest (p p' : ProcessPool) : Prop :=
  running p' = running p ∧ reload p' = reload p ∧ settings p' = settings p ∧ length (workers p') = length (workers p).

Lemma pool_rest_trans p p' p'' : same_rest p p' → same_rest p' p'' → same_rest p p''.
Proof. unfold same_rest. intuition congruence. Qed.

(** The entry of the old process is erased once more without effect. *)
Lemma delete_again gone i w x l p k p' : supervised gone p k → forks k = x :: l → fresh_forks k → 0 < x →
  workers p !! i = Some w → p' = with_workers p (<[i := with_pid w x]> (workers p)) (<[x := i]> (delete (pid w) (map_ p))) →
  with_workers p' (workers p') (delete (pid w) (map_ p')) = p'.
Proof.
  intros Hs Hl Hf Hx Hw ->. unfold with_workers. cbn. f_equal. rewrite delete_insert_ne, delete_delete_eq; [done|].
  intros E. destruct (sv_alive _ _ _ Hs i w Hw) as [_ [Eg|Hp]].
  - apply (sv_gone _ _ _ Hs). rewrite Hl, <- Eg, E. by left.
  - destruct (ff_new _ Hf x) as [_ Hn]; [rewrite Hl; by left|]. by rewrite <- E in Hn.
Qed.

(** The messages of leaving workers: each is replaced, others are ignored. *)
Lemma drain_ok gone fuel : ∀ p k q, supervised gone p k → fresh_forks k →
  Channel.inv (message_box p) q → Forall (λ m, zlen m = 8) q → (length q < fuel)%nat → (length q <= length (forks k))%nat →
  ∃ v p' k', drain fuel p k = Some (v, p', k') ∧ v ≠ Stopped ∧
    (v = Again → supervised gone p' k' ∧ fresh_forks k' ∧ same_rest p p' ∧
      (length (forks k) <= length (forks k') + length q)%nat).
Proof.
  induction fuel as [|fuel IH]; intros p k q Hs Hf Hi Hq Hlt Hle; [lia|]. cbn [drain].
  destruct (sv_box _ _ _ Hs) as (_ & _ & _ & Hm & Hfl & Hlk). unfold Channel.pop.
  rewrite (proj2 (Z.eqb_neq _ _) Hfl), Hlk. cbn [negb]. unfold sizeof_WorkerStopMessage.
  pose proof (Channel.out_spec (message_box p) q 8 Hi ltac:(lia)) as Ho. destruct q as [|m q].
  - rewrite Ho. cbn [mbind option_bind]. eexists Again, _, _. split; [done|]. split; [done|]. intros _.
    split; [|split; [done|split; [done|lia]]]. pose proof (sv_box _ _ _ Hs). by apply supervised_box; [apply supervised_box|].
  - destruct Ho as (c & -> & Hc & Hmc & _ & Hflc & Hlkc). cbn [mbind option_bind].
    apply Forall_cons in Hq as [Hm8 Hq]. rewrite Hm8. change (8 <=? 0) with false. cbv iota.
    set (p1 := with_messages p (read_message p) c). cbn [length] in Hlt, Hle.
    assert (supervised gone p1 k) as Hs1.
    { apply supervised_box; [done|]. exists q. split; [done|]. split; [done|]. by rewrite Hmc, Hflc, Hlkc. }
    assert (∃ x, read_message_bytes m = Some x) as [x ->].
    { unfold read_message_bytes. rewrite !load_Some by (rewrite ?Hm8; lia). by eexists. }
    cbn [mbind option_bind].
    assert (∀ p2 k2, supervised gone p2 k2 → fresh_forks k2 → message_box p2 = c → same_rest p p2 →
      (length (forks k) <= length (forks k2) + 1)%nat →
      ∃ v p' k', drain fuel p2 k2 = Some (v, p', k') ∧ v ≠ Stopped ∧
        (v = Again → supervised gone p' k' ∧ fresh_forks k' ∧ same_rest p p' ∧
          (length (forks k) <= length (forks k') + length (m :: q))%nat)) as Hrest.
    { intros p2 k2 Hs2 Hf2 Hb2 Hr2 Hl2. rewrite <- Hb2 in Hc.
      destruct (IH p2 k2 q Hs2 Hf2 Hc Hq ltac:(lia) ltac:(cbn in *; lia)) as (v & p' & k' & -> & Hv & Hg).
      exists v, p', k'. split; [done|]. split; [done|]. intros Ev. destruct (Hg Ev) as (? & ? & ? & ?).
      split; [done|]. split; [done|]. split; [by eapply pool_rest_trans|]. cbn [length]. lia. }
    destruct (running p1); cbn [negb]; [|apply Hrest; try done; lia].
    unfold get_worker_by_pid. destruct (map_ p1 !! m_pid x) as [i|] eqn:Ei; [|apply Hrest; try done; lia].
    apply (sv_map _ _ _ Hs1) in Ei as (w & Hw & Hpw).
    destruct (forks k) as [|y l] eqn:Ek; [cbn in Hle; lia|].
    destruct (fresh_fork k y l Hf Ek) as (Hy0 & _ & Ef & _). destruct (Z.ltb_spec y 0) as [Hy|Hy].
    { exists Failed. unfold spawn. rewrite Ef. cbn [mbind option_bind]. rewrite (proj2 (Z.ltb_lt y 0) Hy). cbn [mbind option_bind].
      rewrite (proj2 (Z.ltb_lt y 0) Hy). do 2 eexists. by split. }
    destruct (spawn_ok gone i w y l p1 k Hs1 Hf Hw Ek ltac:(lia)) as (p2 & k2 & -> & Hs2 & Hf2 & Hl2 & _ & _ & Ep2).
    cbn [mbind option_bind]. rewrite (proj2 (Z.ltb_ge y 0)) by lia. rewrite <- Hpw.
    rewrite (delete_again gone i w y l p1 k p2 Hs1 Ek Hf ltac:(lia) Hw Ep2). apply Hrest; try done.
    + destruct (pid w =? gone); [|done]. apply supervised_weaken; [done|]. rewrite Hl2.
      pose proof (sv_gone _ _ _ Hs1) as Hg. rewrite Ek in Hg. set_solver.
    + by rewrite Ep2.
    + rewrite Ep2. unfold same_rest. cbn. by rewrite length_insert.
    + rewrite Hl2. cbn [length]. lia.
Qed.

Lemma kill_worker_ok gone fuel p k : supervised gone p k → fresh_forks k →
  ∃ p' k', kill_worker (S fuel) p k = Some (p', k') ∧ supervised gone p' k' ∧ fresh_forks k' ∧
    forks k' = forks k ∧ workers p' = workers p ∧ running p' = running p.
Proof.
  intros Hs Hf. cbn [kill_worker]. destruct (sv_reload _ _ _ Hs) as [Hl Hi].
  destruct (reloading (reload p)) eqn:Er; cbn [negb]; [|by exists p, k].
  destruct (Z.leb_spec (worker_num p) (reload_worker_i (reload p))) as [Hn|Hn].
  { do 2 eexists. split; [done|]. split; [|done]. by apply supervised_reload. }
  destruct (lookup_lt_is_Some_2 (reload_workers (reload p)) (Z.to_nat (reload_worker_i (reload p)))) as [w ->].
  { unfold worker_num, zlen in Hn. pose proof (sv_num _ _ _ Hs). lia. }
  cbn [mbind option_bind]. destruct (kill_procs (pid w) SIGTERM k) as [Ep Efk].
  unfold openswoole_kill in *. case_bool_decide; cbn [snd] in *; cbv [ESRCH ECHILD]; cbn [Z.eqb Pos.eqb].
  - do 2 eexists. split; [done|]. split; [|by split; [eapply fresh_procs|]].
    eapply supervised_procs; [by apply supervised_reload|done..].
  - do 2 eexists. split; [done|]. split; [|done]. by apply supervised_reload.
Qed.

Lemma force_kill_procs ws : ∀ k, procs (foldl force_kill k ws) = procs k ∧ forks (foldl force_kill k ws) = forks k.
Proof.
  induction ws as [|w ws IH]; intros k; cbn [foldl]; [done|]. destruct (IH (force_kill k w)) as [-> ->].
  unfold force_kill. pose proof (kill_procs (pid w) 0 k) as [E1 E2].
  destruct (openswoole_kill (pid w) 0 k) as [[e|] k1]; cbn [snd] in *; [done|].
  pose proof (kill_procs (pid w) SIGKILL k1) as [-> ->]. done.
Qed.

Lemma signals_ok gone sigs : ∀ p k, supervised gone p k →
  supervised gone (foldl pool_signal_handler p sigs) k ∧
  message_box (foldl pool_signal_handler p sigs) = message_box p.
Proof.
  induction sigs as [|sig sigs IH]; intros p k Hs; cbn [foldl]; [done|].
  assert (supervised gone (pool_signal_handler p sig) k ∧ message_box (pool_signal_handler p sig) = message_box p)
    as [Hs1 <-]; [|by apply IH].
  unfold pool_signal_handler. repeat case_match; (split; [|done]); try by destruct Hs.
Qed.

Lemma timeout_ok gone due p k : supervised gone p k → fresh_forks k →
  ∃ p' k', (if due && (0 <? Z.of_nat (killers (reload p))) then kill_timeout_worker p k else (p, k)) = (p', k') ∧
    supervised gone p' k' ∧ fresh_forks k' ∧ forks k' = forks k ∧ message_box p' = message_box p.
Proof.
  intros Hs Hf. destruct (_ && _); [|by exists p, k]. unfold kill_timeout_worker. do 2 eexists. split; [done|].
  pose proof (force_kill_procs (drop (Z.to_nat (reload_worker_i (reload p)))
    (take (length (workers p)) (reload_workers (reload p)))) k) as [Ep Ef].
  split; [|split; [by eapply fresh_procs|done]]. destruct (sv_reload _ _ _ Hs) as [Hl _].
  eapply supervised_procs; [|done..]. by apply supervised_reload.
Qed.

(** A child that has exited is replaced in its place, if it had one. *)
Lemma replace_ok x p k : supervised x p k → fresh_forks k → forks k ≠ [] →
  ∃ v p' k', replace x p k = Some (v, p', k') ∧
    (v ≠ NoProcess → supervised 0 p' k' ∧ fresh_forks k' ∧ message_box p' = message_box p ∧
      (length (forks k) <= length (forks k') + 1)%nat).
Proof.
  intros Hs Hf Hk. unfold replace, get_worker_by_pid. destruct (map_ p !! x) as [i|] eqn:Ei.
  2: { exists Unknown, p, k. split; [done|]. intros _. split; [by eapply supervised_unknown|]. split; [done|]. split; [done|lia]. }
  apply (sv_map _ _ _ Hs) in Ei as (w & Hw & Hpw). destruct (forks k) as [|y l] eqn:Ek; [done|].
  destruct (fresh_fork k y l Hf Ek) as (Hy0 & _ & Ef & _). destruct (Z.ltb_spec y 0) as [Hy|Hy].
  { exists NoProcess. unfold spawn. rewrite Ef. cbn [mbind option_bind]. rewrite (proj2 (Z.ltb_lt y 0) Hy).
    cbn [mbind option_bind]. rewrite (proj2 (Z.ltb_lt y 0) Hy). do 2 eexists. by split. }
  destruct (spawn_ok x i w y l p k Hs Hf Hw Ek ltac:(lia)) as (p2 & k2 & -> & Hs2 & Hf2 & Hl2 & _ & _ & Ep2).
  cbn [mbind option_bind]. rewrite (proj2 (Z.ltb_ge y 0)) by lia.
  assert (with_workers p2 (workers p2) (delete x (map_ p2)) = p2) as ->.
  { rewrite <- Hpw at 1. apply (delete_again x i w y l p k); (done || lia). }
  rewrite Hpw, Z.eqb_refl in Hs2. do 3 eexists. split; [done|]. intros _. split; [|split; [done|split]].
  - apply supervised_reload; [done|]. destruct (sv_reload _ _ _ Hs2) as [? ?]. split; [done|]. cbn.
    destruct (_ =? _); [|done]. by apply (wrap_range 32).
  - by rewrite Ep2.
  - rewrite Hl2. cbn [length]. lia.
Qed.

(** The processes that [wait] can return exist. *)
Definition possible (e : ExitStatus) (k : Kernel) : Prop :=
  match e with Exited x _ => x ∈ procs k | Interrupted => True end.
Definition gone_by (e : ExitStatus) : Z := match e with Exited x _ => x | Interrupted => 0 end.

Lemma wait_process_ok e p k : supervised 0 p k → fresh_forks k → possible e k →
  supervised (gone_by e) p (wait_process e k) ∧ fresh_forks (wait_process e k) ∧
  forks (wait_process e k) = forks k.
Proof.
  intros Hs Hf He. destruct e as [x st|]; [|done]. cbn in He. cbn [wait_process gone_by forks].
  split; [|split; [|done]].
  - pose proof Hs as []. split; try done.
    + intros i w Hw. destruct (sv_alive0 i w Hw) as [? [?|Hp]]; [lia|]. split; [done|].
      destruct (decide (pid w = x)); [by left|right; set_solver].
    + intros Hx. by destruct (ff_new _ Hf x Hx).
  - pose proof Hf as []. split; [done|]. cbn. intros y Hy. destruct (ff_new0 y Hy). split; [done|set_solver].
Qed.

(** One turn of the loop keeps the supervision, unless [fork] fails. *)
Lemma wait_turn_ok sigs due e p k : supervised 0 p k → fresh_forks k → possible e k →
  Channel.count (message_box p) < zlen (forks k) →
  ∃ v p' k', wait_turn sigs due e p k = Some (v, p', k') ∧
    (v ≠ Failed → running p' = true → v = Again ∧ supervised 0 p' k' ∧ fresh_forks k').
Proof.
  intros Hs Hf He Hc. unfold wait_turn. destruct (running p) eqn:Er; cbn [negb]; [|do 3 eexists; split; [done|]; by rewrite Er].
  destruct (wait_process_ok e p k Hs Hf He) as (Hs1 & Hf1 & Ef1). rewrite <- Ef1 in Hc.
  destruct (signals_ok (gone_by e) sigs p (wait_process e k) Hs1) as [Hs2 Eb2]. rewrite <- Eb2 in Hc.
  destruct (timeout_ok (gone_by e) due _ _ Hs2 Hf1) as (p3 & k3 & -> & Hs3 & Hf3 & Ef3 & Eb3).
  rewrite <- Ef3, <- Eb3 in Hc. clear p k Hs Hf He Er Hs1 Hf1 Ef1 Hs2 Eb2 Ef3 Eb3.
  assert (∃ v p4 k4, (if read_message p3 then drain (S (Z.to_nat (Channel.count (message_box p3)))) p3 k3
      else Some (Again, p3, k3)) = Some (v, p4, k4) ∧ v ≠ Stopped ∧
    (v = Again → supervised (gone_by e) p4 k4 ∧ fresh_forks k4 ∧ forks k4 ≠ [])) as (v & p4 & k4 & -> & Hv & Hg).
  { destruct (sv_box _ _ _ Hs3) as (q & Hi & Hq & _). destruct (Channel.inv_bytes _ _ Hi) as (_ & Hn & _).
    assert (Channel.count (message_box p3) = zlen q) as En by (unfold Channel.count; apply Hi). rewrite En in *.
    destruct (read_message p3).
    - unfold zlen in Hc |- *. rewrite Nat2Z.id.
      destruct (drain_ok (gone_by e) (S (length q)) p3 k3 q Hs3 Hf3 Hi Hq ltac:(lia) ltac:(lia))
        as (v & p4 & k4 & -> & Hv & Hg). exists v, p4, k4. split; [done|]. split; [done|]. intros Ev.
      destruct (Hg Ev) as (? & ? & _ & Hl). split; [done|]. split; [done|]. intros E. rewrite E in Hl. cbn in Hl. lia.
    - exists Again, p3, k3. split; [done|]. split; [done|]. intros _. split; [done|]. split; [done|].
      intros E. rewrite E in Hc. change (zlen (@nil Z)) with 0 in Hc. pose proof (zlen_nonneg q). lia. }
  cbn [mbind option_bind]. destruct v; [|done|by do 3 eexists]. destruct (Hg eq_refl) as (Hs4 & Hf4 & Hk4).
  assert (∀ gone p5 k5, supervised gone p5 k5 → fresh_forks k5 → (running p5 = true → gone = 0) → ∃ v p' k',
    ('(p, k) ← kill_worker (S (length (workers p5))) p5 k5; Some (Again, p, k)) = Some (v, p', k') ∧
    (v ≠ Failed → running p' = true → v = Again ∧ supervised 0 p' k' ∧ fresh_forks k')) as Hkill.
  { intros gone p5 k5 Hs5 Hf5 H0. destruct (kill_worker_ok gone (length (workers p5)) p5 k5 Hs5 Hf5)
      as (p' & k' & -> & Hs' & ? & _ & _ & Er'). cbn [mbind option_bind]. do 3 eexists. split; [done|].
    intros _ Hr. rewrite Er' in Hr. by rewrite (H0 Hr) in Hs'. }
  destruct e as [x st|]; cbn [gone_by] in *.
  - destruct (running p4) eqn:Er4; cbn [negb]; [|apply (Hkill x); [done|done|by rewrite Er4]].
    destruct (replace_ok x p4 k4 Hs4 Hf4 Hk4) as (v & p5 & k5 & -> & Hr). cbn [mbind option_bind].
    destruct v; [destruct (Hr ltac:(done)) as (? & ? & _); by apply (Hkill 0)| |by do 3 eexists].
    destruct (Hr ltac:(done)) as (? & ? & _). by do 3 eexists.
  - destruct (running p4) eqn:Er4; cbn [negb]; [|do 3 eexists; split; [done|]; by rewrite Er4].
    destruct (negb (reloading (reload p4))); [by do 3 eexists|].
    apply (Hkill 0); try done. unfold reload_begin. destruct (reload_init (reload p4)); [done|].
    apply supervised_reload; [done|]. split; [apply (sv_num _ _ _ Hs4)|]. apply (sv_reload _ _ _ Hs4).
Qed.

(** *** The start *)

(** The first [j] places are filled. *)
Record filled (j : nat) (p : ProcessPool) (k : Kernel) : Prop := {
  fl_map : ∀ x i, map_ p !! x = Some i ↔ (i < j)%nat ∧ ∃ w, workers p !! i = Some w ∧ pid w = x;
  fl_alive : ∀ i w, workers p !! i = Some w → (i < j)%nat → 0 < pid w ∧ pid w ∈ procs k;
  fl_rest : ∀ i w, workers p !! i = Some w → (j <= i)%nat → pid w = 0;
}.

Lemma spawn_from_ok m : ∀ j p k, filled j p k → fresh_forks k → length (workers p) = (j + m)%nat →
  (m <= length (forks k))%nat → Forall (λ x, 0 < x) (take m (forks k)) →
  ∃ p' k', spawn_from m j p k = Some (OSW_OK, p', k') ∧ filled (j + m) p' k' ∧ fresh_forks k' ∧
    length (workers p') = (j + m)%nat ∧ message_box p' = message_box p ∧ reload p' = reload p ∧
    running p' = running p ∧ read_message p' = read_message p ∧ forks k' = drop m (forks k).
Proof.
  induction m as [|m IH]; intros j p k Hj Hf Hl Hn Hpos; cbn [spawn_from].
  { rewrite Nat.add_0_r in *. by exists p, k. }
  destruct (forks k) as [|x l] eqn:Ek; [cbn in Hn; lia|]. cbn [take] in Hpos. apply Forall_cons in Hpos as [Hx Hpos].
  destruct (fresh_fork k x l Hf Ek) as (_ & Hxp & Ef & Hf'). rewrite (proj2 (Z.ltb_ge x 0)) in Ef, Hf' by lia.
  destruct (lookup_lt_is_Some_2 (workers p) j ltac:(lia)) as [w Hw].
  unfold spawn. rewrite Ef. cbn [mbind option_bind]. rewrite (proj2 (Z.ltb_ge x 0)) by lia. rewrite Hw. cbn [mbind option_bind].
  rewrite (fl_rest _ _ _ Hj j w Hw) by lia. rewrite Z.eqb_refl.
  assert (map_ p !! x = None) as Hmx.
  { apply eq_None_not_Some. intros [i (Hi & w' & Hw' & <-)%(fl_map _ _ _ Hj)]. by destruct (fl_alive _ _ _ Hj i w' Hw' Hi). }
  unfold emplace. rewrite Hmx. rewrite (proj2 (Z.ltb_ge x 0)) by lia.
  set (p1 := with_workers _ _ _). set (k1 := MkKernel _ _ _).
  assert (filled (S j) p1 k1) as Hj1.
  { assert (j < length (workers p))%nat as Hlt by lia. split; cbn [p1 k1 map_ workers with_workers procs].
    - intros y i. rewrite lookup_insert_Some, (fl_map _ _ _ Hj). split.
      + intros [[<- <-]|(Hy & Hi & w' & Hw' & <-)].
        * split; [lia|]. exists (with_pid w x). by rewrite list_lookup_insert_eq.
        * split; [lia|]. exists w'. rewrite list_lookup_insert_ne by lia. done.
      + intros (Hi & w' & Hw' & <-). destruct (decide (i = j)) as [->|Hij].
        * rewrite list_lookup_insert_eq in Hw' by done. injection Hw' as <-. by left.
        * rewrite list_lookup_insert_ne in Hw' by done. assert (i < j)%nat as Hlt' by lia.
          right. split; [|split; [done|by exists w']]. intros ->. by destruct (fl_alive _ _ _ Hj i w' Hw' Hlt').
    - intros i w' Hw' Hi. destruct (decide (i = j)) as [->|Hij].
      + rewrite list_lookup_insert_eq in Hw' by done. injection Hw' as <-. cbn. split; [done|set_solver].
      + rewrite list_lookup_insert_ne in Hw' by done. destruct (fl_alive _ _ _ Hj i w' Hw'); [lia|]. split; [done|set_solver].
    - intros i w' Hw' Hi. rewrite list_lookup_insert_ne in Hw' by lia. apply (fl_rest _ _ _ Hj i w' Hw'). lia. }
  destruct (IH (S j) p1 k1 Hj1 Hf') as (p' & k' & -> & Hfill & ? & Hlen & ? & ? & ? & ? & ?).
  { cbn. rewrite length_insert. lia. }
  { cbn in *. lia. }
  { done. }
  exists p', k'. replace (j + S m)%nat with (S j + m)%nat by lia. by split_and!.
Qed.

(** The numbers of processes that the kernel gives at the start. *)
Definition forks_succeed (k : Kernel) : Prop :=
  (n <= length (forks k))%nat ∧ Forall (λ x, 0 < x) (take n (forks k)).

Lemma start_ok mode block s k :
  zlen block = Channel.block_size 65536 8 → mode ≠ OSW_IPC_SOCKET → fresh_forks k → forks_succeed k →
  ∃ p p' k', create n mode (Some block) true s = Some (OSW_OK, Some p) ∧ start p k = Some (OSW_OK, p', k') ∧
    running p' = true ∧ length (workers p') = n ∧ supervised 0 (wait_begin p') k' ∧ fresh_forks k'.
Proof.
  intros Hb Hm Hf [Hn Hpos]. unfold create.
  destruct (Channel.ring_make_inv 65536 8 OSW_CHAN_FLAGS block) as (c & Ec & Hi & _ & Hmx); [lia..|done|].
  unfold sizeof_WorkerStopMessage. rewrite Ec. cbn [mbind option_bind negb andb].
  match goal with |- context [Some (OSW_OK, Some ?q)] => set (p := q) end. exists p. unfold start. change (ipc_mode (settings p)) with mode.
  rewrite bool_decide_eq_false_2 by done. cbn [andb].
  set (ws := imap _ _). assert (length ws = n) as Hl by (unfold ws; cbn; by rewrite length_imap, length_replicate).
  rewrite Hl. destruct (spawn_from_ok n 0 (with_running (with_workers p ws (map_ p)) true true) k) as
    (p' & k' & -> & Hfill & Hf' & Hlen & Ebox & Er & Erun & _ & Efk); try done.
  { split; cbn [map_ with_running with_workers p workers].
    - intros x i. rewrite lookup_empty. split; [done|]. intros (? & _). lia.
    - intros i w _ ?. lia.
    - intros i w Hw _. unfold ws in Hw. apply list_lookup_imap_Some in Hw as (w' & Hw' & ->). cbn in Hw'.
      by apply lookup_replicate in Hw' as [-> _]. }
  exists p', k'. split; [done|]. split; [done|]. split; [done|]. cbn in Hlen. split; [done|]. split; [|done].
  split; cbn [wait_begin with_reload map_ workers message_box reload reload_workers reload_worker_i].
  - intros x i. rewrite (fl_map _ _ _ Hfill). split; [by intros [_ ?]|]. intros (w & Hw & E). split; [|by exists w].
    apply lookup_lt_Some in Hw. lia.
  - intros i w Hw. destruct (fl_alive _ _ _ Hfill i w Hw); [apply lookup_lt_Some in Hw; lia|]. split; [done|by right].
  - exists []. rewrite Ebox. cbn [message_box with_running with_workers p]. split; [done|]. split; [done|].
    split; [done|]. unfold Channel.make in Ec. cbn in Ec. by injection Ec as <-.
  - done.
  - split; cbn; [by rewrite length_replicate|]. by rewrite Er.
  - intros H0. by destruct (ff_new _ Hf' 0 H0).
Qed.

(** *** Every run *)

(** What happens to a pool: a worker announces that it leaves, or the manager makes a turn; the
    run is given a result of [fork] for every process that the turn may replace. *)
Inductive pool_step : ProcessPool * Kernel → ProcessPool * Kernel → Prop :=
  | step_detach self worker_id padding b p k q k' : zlen padding = 2 →
      detach self worker_id padding p k = Some (b, q, k') →
      pool_step (p, k) (with_messages p (read_message p) (message_box q), k')
  | step_turn sigs due e p k p' k' : possible e k → Channel.count (message_box p) < zlen (forks k) →
      wait_turn sigs due e p k = Some (Again, p', k') → pool_step (p, k) (p', k').

Lemma detach_ok self worker_id padding b gone p k q k' : supervised gone p k → fresh_forks k → zlen padding = 2 →
  detach self worker_id padding p k = Some (b, q, k') →
  supervised gone (with_messages p (read_message p) (message_box q)) k' ∧ fresh_forks k'.
Proof.
  intros Hs Hf Hp Hd. pose proof (sv_box _ _ _ Hs) as Hbox. pose proof Hbox as (l & Hi & Hl & Hm & Hfl & Hlk). unfold detach in Hd.
  destruct (running p); cbn [negb] in Hd; [|injection Hd as <- <- <-; by split; [apply supervised_box, (sv_box _ _ _ Hs)|]].
  unfold Channel.push in Hd. rewrite (proj2 (Z.eqb_neq _ _) Hfl), Hlk in Hd. cbn [negb] in Hd.
  set (m := message_bytes _ _) in Hd. assert (zlen m = 8) as Hm8.
  { unfold m, message_bytes. rewrite !zlen_app, Hp. unfold zlen. by rewrite !le_bytes_length. }
  assert (∃ r c, Channel.in_ (message_box p) m = Some (r, c) ∧ box_ok c) as (r & c & Ei & Hc).
  { destruct (Channel.in_spec _ _ m Hi ltac:(lia)) as [(c & -> & Hc & E1 & _ & E2 & E3)|[-> _]].
    - exists OSW_OK, c. split; [done|]. exists (l ++ [m]). rewrite E1, E2, E3. split; [done|]. split; [|done].
      apply Forall_app. by split; [|apply Forall_singleton].
    - by exists OSW_ERR, (message_box p). }
  rewrite Ei in Hd. cbn [mbind option_bind] in Hd.
  assert (message_box q = c ∧ procs k' = procs k ∧ forks k' = forks k) as (-> & Ep & Ef).
  { destruct (r <? 0); [by injection Hd as <- <- <-|]. pose proof (kill_procs (master_pid (settings p)) SIGIO k) as [? ?].
    cbn [settings with_messages] in Hd. destruct (openswoole_kill _ _ _) as [[e|] k1]; by injection Hd as <- <- <-. }
  split; [|by eapply fresh_procs]. eapply supervised_procs; [by apply supervised_box|done..].
Qed.

Lemma pool_step_ok s s' : pool_step s s' →
  (running s.1 = true → supervised 0 s.1 s.2 ∧ fresh_forks s.2) →
  running s'.1 = true → supervised 0 s'.1 s'.2 ∧ fresh_forks s'.2.
Proof.
  intros [self wid pad b p k q k' Hp Hd|sigs due e p k p' k' He Hc Ht] Hs Hr; cbn [fst snd] in *.
  - destruct (Hs Hr) as [Hs1 Hf]. by eapply detach_ok.
  - destruct (running p) eqn:Er.
    + destruct (Hs eq_refl) as [Hs1 Hf]. destruct (wait_turn_ok sigs due e p k Hs1 Hf He Hc) as (v & p1 & k1 & E & Hv).
      rewrite Ht in E. injection E as <- <- <-. destruct (Hv ltac:(done) Hr) as (_ & ? & ?). done.
    + unfold wait_turn in Ht. rewrite Er in Ht. done.
Qed.

Lemma pool_steps_ok s s' : rtc pool_step s s' →
  (running s.1 = true → supervised 0 s.1 s.2 ∧ fresh_forks s.2) →
  running s'.1 = true → supervised 0 s'.1 s'.2 ∧ fresh_forks s'.2.
Proof. induction 1 as [|s1 s2 s3 H1 _ IH]; [done|]. intros H0. apply IH. by apply (pool_step_ok s1). Qed.
End Supervision.

(** C6: a pool stays complete.  After [create] and [start], however the workers leave, announce
    their leaving or are reloaded, as long as [fork] succeeds and no process number is used
    twice: at every turn each of the [n] places is held by one existing process, the map finds
    its place by its number and has no other entry, and the next turn returns. *)
Theorem pool_stays_complete n mode block s k :
  zlen block = Channel.block_size 65536 8 → mode ≠ OSW_IPC_SOCKET → fresh_forks k → forks_succeed n k →
  ∃ p0 p1 k1, create n mode (Some block) true s = Some (OSW_OK, Some p0) ∧ start p0 k = Some (OSW_OK, p1, k1) ∧
    length (workers p1) = n ∧
    ∀ p2 k2, rtc pool_step (wait_begin p1, k1) (p2, k2) → running p2 = true →
      length (workers p2) = n ∧
      (∀ i w, workers p2 !! i = Some w → pid w ∈ procs k2 ∧ map_ p2 !! pid w = Some i) ∧
      (∀ x i, map_ p2 !! x = Some i → ∃ w, workers p2 !! i = Some w ∧ pid w = x) ∧
      (∀ sigs due e, possible e k2 → Channel.count (message_box p2) < zlen (forks k2) →
        is_Some (wait_turn sigs due e p2 k2)).
Proof.
  intros Hb Hm Hf Hn. destruct (start_ok n mode block s k Hb Hm Hf Hn) as (p0 & p1 & k1 & E0 & E1 & Hr1 & Hl1 & Hs1 & Hf1).
  exists p0, p1, k1. split; [done|]. split; [done|]. split; [done|]. intros p2 k2 Hsteps Hr2.
  assert (supervised n 0 p2 k2 ∧ fresh_forks k2) as [Hs2 Hf2].
  { by apply (pool_steps_ok n _ _ Hsteps). }
  split; [apply (sv_num _ _ _ _ Hs2)|]. split; [|split].
  - intros i w Hw. destruct (sv_alive _ _ _ _ Hs2 i w Hw) as [? [?|?]]; [lia|]. split; [done|]. apply Hs2. by exists w.
  - intros x i. apply Hs2.
  - intros sigs due e He Hc. destruct (wait_turn_ok n sigs due e p2 k2 Hs2 Hf2 He Hc) as (v & p3 & k3 & -> & _). done.
Qed.

(** ** The reload *)

(** The members for reloading while the old worker [j] is being stopped, and at the end. *)
Definition reload_at (olds : list Worker) (c j : nat) : Reload :=
  match olds !! j with
  | Some w => MkReload true true (Z.of_nat j) (pid w) olds c
  | None => MkReload false false 0 0 olds c
  end.

Lemma kill_worker_at fuel olds c j x p k : reload p = MkReload true true (Z.of_nat j) x olds c →
  length olds = length (workers p) →
  ∃ k', kill_worker (S fuel) p k = Some (with_reload p (reload_at olds c j), k') ∧ procs k' = procs k ∧ forks k' = forks k.
Proof.
  intros Er Hl. cbn [kill_worker]. rewrite Er. cbn [reloading negb reload_worker_i reload_workers reload_init killers].
  unfold worker_num, reload_at. rewrite Nat2Z.id. destruct (olds !! j) as [w|] eqn:Ew.
  - apply lookup_lt_Some in Ew as Hj. rewrite (proj2 (Z.leb_gt _ _)) by (unfold zlen; lia). cbn [mbind option_bind].
    destruct (kill_procs (pid w) SIGTERM k) as [Ep Ef]. unfold openswoole_kill in *.
    case_bool_decide; cbv [ESRCH ECHILD]; cbn [Z.eqb Pos.eqb]; by eexists.
  - apply lookup_ge_None in Ew as Hj. rewrite (proj2 (Z.leb_le _ _)) by (unfold zlen; lia). by eexists.
Qed.

(** The state in the middle of a reload that began with the workers [olds] and the coming
    process numbers [fk]. *)
Record reload_state (olds : list Worker) (fk : list Z) (c j : nat) (p : ProcessPool) (k : Kernel) : Prop := {
  rs_sv : supervised (length olds) 0 p k;
  rs_fresh : fresh_forks k;
  rs_flags : running p = true ∧ read_message p = false;
  rs_forks : forks k = drop j fk;
  rs_pids : pid <$> workers p = take j fk ++ drop j (pid <$> olds);
  rs_reload : reload p = reload_at olds c j;
}.

Definition quiet_turn (e : ExitStatus) (p : ProcessPool) (k : Kernel) : option (ProcessPool * Kernel) :=
  '(v, p, k) ← wait_turn [] false e p k; match v with Again => Some (p, k) | _ => None end.

Lemma reload_interrupted olds fk c j p k : reload_state olds fk c j p k → (j < length olds)%nat →
  ∃ p' k', quiet_turn Interrupted p k = Some (p', k') ∧ reload_state olds fk c j p' k'.
Proof.
  intros [Hs Hf [Hr Hm] Hk Hp He] Hj. unfold quiet_turn, wait_turn. rewrite Hr. cbn [negb foldl wait_process andb].
  rewrite Hm. cbn [mbind option_bind]. rewrite Hr, He. cbn [negb]. unfold reload_begin. rewrite He.
  assert (∃ w, olds !! j = Some w) as [w Hw] by (by apply lookup_lt_is_Some_2).
  unfold reload_at. rewrite Hw. cbn [reloading negb reload_init].
  assert (reload p = MkReload true true (Z.of_nat j) (pid w) olds c) as He' by (rewrite He; unfold reload_at; by rewrite Hw).
  destruct (kill_worker_at (length (workers p)) olds c j (pid w) p k He') as (k' & -> & Ep & Ef);
    [symmetry; apply (sv_num _ _ _ _ Hs)|]. cbn [mbind option_bind].
  do 2 eexists. split; [done|]. split; try done.
  - eapply supervised_procs; [apply supervised_reload; [done|]|done..].
    unfold reload_at. rewrite Hw. by split; [|cbn; lia].
  - by eapply fresh_procs.
  - by rewrite Ef.
Qed.

Lemma take_drop_insert {A} (l1 l2 : list A) j x : length l1 = length l2 → (j < length l1)%nat → l1 !! j = Some x →
  <[j := x]> (take j l1 ++ drop j l2) = take (S j) l1 ++ drop (S j) l2.
Proof.
  intros Hl Hj Hx. destruct (lookup_lt_is_Some_2 l2 j ltac:(lia)) as [y Hy].
  rewrite (drop_S _ _ _ Hy), (take_S_r _ _ _ Hx), <- (assoc_L (++)).
  rewrite insert_app_r_alt by (rewrite length_take; lia). rewrite length_take, Nat.min_l, Nat.sub_diag by lia. done.
Qed.

(** The old worker exits: the next one is told to stop, or the reload is over. *)
Lemma reload_exited olds fk c j w st p k : reload_state olds fk c j p k → olds !! j = Some w →
  Z.of_nat (length olds) < 2 ^ 32 → length fk = length olds → Forall (λ x, 0 < x) fk →
  ∃ p' k', quiet_turn (Exited (pid w) st) p k = Some (p', k') ∧ reload_state olds fk c (S j) p' k'.
Proof.
  intros [Hs Hf [Hr Hm] Hk Hp He] Hw Hn Hl Hpos. apply lookup_lt_Some in Hw as Hj.
  unfold quiet_turn, wait_turn. rewrite Hr. cbn [negb foldl andb]. rewrite Hm. cbn [mbind option_bind]. rewrite Hr. cbn [negb].
  assert (∃ v, workers p !! j = Some v ∧ pid v = pid w) as (v & Hv & Ev).
  { assert ((pid <$> workers p) !! j = Some (pid w)) as E.
    { rewrite Hp, lookup_app_r, length_take, Nat.min_l, Nat.sub_diag, lookup_drop, Nat.add_0_r by (rewrite ?length_take; lia).
      by rewrite list_lookup_fmap, Hw. }
    rewrite list_lookup_fmap in E. destruct (workers p !! j) as [v|]; [|done]. exists v. split; [done|]. by injection E. }
  assert (possible (Exited (pid w) st) k) as Hposs.
  { destruct (sv_alive _ _ _ _ Hs j v Hv) as [? [?|?]]; [lia|]. cbn. by rewrite <- Ev. }
  destruct (wait_process_ok _ (Exited (pid w) st) p k Hs Hf Hposs) as (Hs1 & Hf1 & Ek1).
  set (k1 := wait_process (Exited (pid w) st) k) in *. cbn [gone_by] in Hs1.
  unfold replace, get_worker_by_pid. rewrite (proj2 (sv_map _ _ _ _ Hs1 (pid w) j)) by (by exists v).
  destruct (lookup_lt_is_Some_2 fk j ltac:(lia)) as [y Hy]. rewrite (drop_S _ _ _ Hy) in Hk. rewrite Hk in Ek1.
  assert (0 < y) as Hy0 by (by eapply Forall_lookup in Hpos).
  destruct (spawn_ok _ (pid w) j v y _ p k1 Hs1 Hf1 Hv Ek1 Hy0) as (p2 & k2 & -> & Hs2 & Hf2 & Hl2 & _ & _ & Ep2).
  cbn [mbind option_bind]. rewrite (proj2 (Z.ltb_ge y 0)) by lia.
  assert (with_workers p2 (workers p2) (delete (pid w) (map_ p2)) = p2) as ->.
  { rewrite <- Ev at 1. by eapply (delete_again (length olds) (pid w) j v y). }
  rewrite Ev, Z.eqb_refl in Hs2. assert (reload p2 = reload p) as Er2 by (by rewrite Ep2).
  rewrite Er2, He. unfold reload_at. rewrite Hw. cbn [reload_worker_pid reload_worker_i reloading reload_init reload_workers killers].
  rewrite Z.eqb_refl, u32_small by lia. set (p3 := with_reload p2 _).
  assert (length (workers p2) = length olds) as Hlen by apply (sv_num _ _ _ _ Hs2).
  destruct (kill_worker_at (length (workers p3)) olds c (S j) (pid w) p3 k2) as (k3 & E3 & Ep3 & Ef3); [|done|].
  { cbn [p3 reload with_reload]. f_equal. lia. }
  cbn [mbind option_bind]. rewrite E3. cbn [mbind option_bind].
  do 2 eexists. split; [done|]. split; try done.
  - eapply supervised_procs; [apply supervised_reload; [apply supervised_reload; [done|]|]|done..]; [by split; cbn; [|lia]|].
    unfold reload_at. by destruct (olds !! S j); split; cbn; [|lia| |lia].
  - by eapply fresh_procs.
  - cbn [running read_message with_reload p3]. by rewrite Ep2.
  - by rewrite Ef3, Hl2.
  - cbn [workers with_reload p3]. rewrite Ep2. cbn [workers with_workers]. rewrite list_fmap_insert, Hp. cbn [pid with_pid].
    apply take_drop_insert; [by rewrite length_fmap|lia|done].
Qed.

(** The old workers exit in the order in which they are told to, after any number of
    interruptions each. *)
Fixpoint reload_events (olds : list Worker) (gaps : list (nat * Z)) : list ExitStatus :=
  match olds, gaps with
  | w :: olds, (g, st) :: gaps => replicate g Interrupted ++ Exited (pid w) st :: reload_events olds gaps
  | _, _ => []
  end.

Fixpoint quiet_turns (es : list ExitStatus) (p : ProcessPool) (k : Kernel) : option (ProcessPool * Kernel) :=
  match es with
  | [] => Some (p, k)
  | e :: es => '(p, k) ← quiet_turn e p k; quiet_turns es p k
  end.

Lemma reload_gap olds fk c j g es : (j < length olds)%nat → ∀ p k, reload_state olds fk c j p k →
  ∃ p' k', quiet_turns (replicate g Interrupted ++ es) p k = quiet_turns es p' k' ∧ reload_state olds fk c j p' k'.
Proof.
  intros Hj. induction g as [|g IH]; intros p k Hs; [by exists p, k|].
  destruct (reload_interrupted olds fk c j p k Hs Hj) as (p1 & k1 & E1 & Hs1).
  cbn [replicate Datatypes.app quiet_turns]. rewrite E1. by apply IH.
Qed.

Lemma reload_rest olds fk c gaps : Z.of_nat (length olds) < 2 ^ 32 → length fk = length olds → Forall (λ x, 0 < x) fk →
  ∀ j p k, reload_state olds fk c j p k → (j <= length olds)%nat → length gaps = (length olds - j)%nat →
  ∃ p' k', quiet_turns (reload_events (drop j olds) gaps) p k = Some (p', k') ∧ reload_state olds fk c (length olds) p' k'.
Proof.
  intros Hn Hl Hpos. induction gaps as [|[g st] gaps IH]; intros j p k Hs Hj Hg.
  - assert (j = length olds) as -> by (cbn in Hg; lia). rewrite drop_ge by lia. by exists p, k.
  - cbn [length] in Hg. destruct (lookup_lt_is_Some_2 olds j ltac:(lia)) as [w Hw]. rewrite (drop_S _ _ _ Hw).
    cbn [reload_events].
    destruct (reload_gap olds fk c j g (Exited (pid w) st :: reload_events (drop (S j) olds) gaps) ltac:(lia) p k Hs)
      as (p1 & k1 & E1 & Hs1). rewrite E1. cbn [quiet_turns].
    destruct (reload_exited olds fk c j w st p1 k1 Hs1 Hw Hn Hl Hpos) as (p2 & k2 & -> & Hs2). cbn [mbind option_bind].
    apply (IH (S j)); [done|lia|lia].
Qed.

(** A reload ends with every worker replaced: on the signal the workers are told to stop one
    after the other; when each of them exits in its turn, the pool is not reloading any more,
    is ready for the next reload and holds the new processes in the old places. *)
Theorem reload_replaces_all n sig gaps p k :
  supervised n 0 p k → fresh_forks k → (0 < n)%nat → Z.of_nat n < 2 ^ 32 → length (forks k) = n →
  Forall (λ x, 0 < x) (forks k) → running p = true → read_message p = false →
  reloading (reload p) = false → reload_worker_i (reload p) = 0 →
  sig = SIGUSR1 ∨ sig = SIGUSR2 → length gaps = n →
  ∃ p1 k1 p2 k2, wait_turn [sig] false Interrupted p k = Some (Again, p1, k1) ∧
    quiet_turns (reload_events (workers p) gaps) p1 k1 = Some (p2, k2) ∧
    pid <$> workers p2 = forks k ∧ supervised n 0 p2 k2 ∧
    reloading (reload p2) = false ∧ reload_init (reload p2) = false ∧ reload_worker_i (reload p2) = 0.
Proof.
  intros Hs Hf Hn0 Hn Hk Hpos Hr Hm He Hi Hsig Hg. set (olds := workers p).
  assert (length olds = n) as Hl by apply (sv_num _ _ _ _ Hs).
  assert (pool_signal_handler p sig = with_reload p (MkReload true false 0 (reload_worker_pid (reload p))
    (reload_workers (reload p)) (killers (reload p)))) as E0.
  { unfold pool_signal_handler. rewrite Hi. by destruct Hsig as [-> | ->]. }
  unfold wait_turn. rewrite Hr. cbn [negb foldl wait_process andb]. rewrite E0.
  cbn [read_message with_reload]. rewrite Hm. cbn [mbind option_bind running with_reload]. rewrite Hr.
  cbn [negb reload with_reload reloading]. unfold reload_begin. cbn [reload_init reload with_reload reloading settings workers].
  set (c := if max_wait_time _ =? 0 then _ else _). match goal with |- context [kill_worker _ ?q k] => set (p0 := q) end.
  destruct (kill_worker_at (length (workers p)) olds c 0 (reload_worker_pid (reload p)) p0 k) as (k1 & E1 & Ep1 & Ef1); [done|done|].
  rewrite E1. cbn [mbind option_bind]. do 2 eexists. set (p1 := with_reload p0 _).
  assert (reload_state olds (forks k) c 0 p1 k1) as Hst.
  { split; try done.
    - rewrite Hl. change p1 with (with_reload p (reload_at olds c 0)).
      eapply supervised_procs; [apply supervised_reload; [done|]|done..].
      unfold reload_at. by destruct (olds !! 0%nat).
    - by eapply fresh_procs. }
  destruct (reload_rest olds (forks k) c gaps ltac:(lia) ltac:(lia) Hpos 0 p1 k1 Hst ltac:(lia) ltac:(lia))
    as (p2 & k2 & E2 & Hst2).
  exists p2, k2. split; [done|]. split; [done|]. destruct Hst2 as [Hs2 _ _ _ Hp2 Hr2]. rewrite Hl in *.
  rewrite take_ge, drop_ge, app_nil_r in Hp2 by (rewrite ?length_fmap; lia). split; [done|]. split; [done|].
  rewrite Hr2. unfold reload_at. by rewrite lookup_ge_None_2 by lia.
Qed.

(** ** Witnesses *)

Definition demo_settings (wait : Z) : Settings := MkSettings OSW_IPC_UNIXSOCK false 0 0 false wait 0 0 1.
Definition demo_box : Channel := Channel.MkChannel 0 0 65536 0 0 0 0 OSW_CHAN_FLAGS 8 (replicate (Z.to_nat 65548) 0) true.
Definition demo_worker (x i : Z) : Worker := MkWorker x i 0 0 0.
(** A pool of two, processes 11 and 12, that forks 21, 22 and so on. *)
Definition demo_pool (wait : Z) : ProcessPool :=
  wait_begin (MkPool true true false (MkReload false false 0 0 [] 0) [demo_worker 11 0; demo_worker 12 1]
    {[11 := 0%nat; 12 := 1%nat]} demo_box 0 false (demo_settings wait)).
Definition demo_kernel (fk : list Z) : Kernel := MkKernel {[1; 11; 12]} fk [].

Lemma demo_fresh fk : NoDup fk → Forall (λ x, 20 < x) fk → fresh_forks (demo_kernel fk).
Proof.
  intros Hn Hx. split; [by apply NoDup_filter|]. cbn. intros x Hin. rewrite Forall_forall in Hx. specialize (Hx x Hin).
  split; [lia|]. rewrite !elem_of_union, !elem_of_singleton. lia.
Qed.

Lemma pool_stays_complete_witness :
  ∃ p0 p1 k1, create 2 OSW_IPC_UNIXSOCK (Some (replicate (Z.to_nat 65548) 0)) true (demo_settings 0) = Some (OSW_OK, Some p0) ∧
    start p0 (MkKernel {[1]} [11; 12; 21] []) = Some (OSW_OK, p1, k1) ∧ length (workers p1) = 2%nat ∧
    ∀ p2 k2, rtc pool_step (wait_begin p1, k1) (p2, k2) → running p2 = true →
      length (workers p2) = 2%nat ∧
      (∀ i w, workers p2 !! i = Some w → pid w ∈ procs k2 ∧ map_ p2 !! pid w = Some i) ∧
      (∀ x i, map_ p2 !! x = Some i → ∃ w, workers p2 !! i = Some w ∧ pid w = x) ∧
      (∀ sigs due e, possible e k2 → Channel.count (message_box p2) < zlen (forks k2) →
        is_Some (wait_turn sigs due e p2 k2)).
Proof.
  apply pool_stays_complete.
  - unfold zlen. by rewrite length_replicate, Z2Nat.id.
  - done.
  - split; cbn [forks procs].
    + apply (bool_decide_unpack _). vm_compute. done.
    + intros x Hx. rewrite !elem_of_cons in Hx. rewrite elem_of_singleton.
      destruct Hx as [->|[->|[->|[]%elem_of_nil]]]; lia.
  - split; [cbn; lia|]. repeat constructor.
Defined.

(** ** Where the supervision fails *)

(** A worker of the old generation that has left on its own before its turn: [kill] reports
    ESRCH, the code expects ECHILD, and the reload never gets past it. *)
Lemma reload_stuck n w olds c j e p k p' k' :
  supervised n 0 p k → fresh_forks k → possible e k → Channel.count (message_box p) < zlen (forks k) →
  reload p = MkReload true true (Z.of_nat j) (pid w) olds c → olds !! j = Some w →
  pid w ∉ procs k → pid w ∉ forks k → 0 < pid w → running p = true → read_message p = false →
  wait_turn [] false e p k = Some (Again, p', k') →
  reload p' = reload p ∧ pid w ∉ procs k' ∧ pid w ∉ forks k'.
Proof.
  intros Hs Hf He Hc Er Hw Hp Hk H0 Hr Hm. set (R := MkReload _ _ _ _ _ _) in Er. rewrite Er. unfold wait_turn. rewrite Hr. cbn [negb foldl andb]. rewrite Hm.
  cbn [mbind option_bind]. rewrite Hr. cbn [negb].
  destruct (wait_process_ok n e p k Hs Hf He) as (Hs1 & Hf1 & Ek1). set (k1 := wait_process e k) in *.
  assert (pid w ∉ procs k1) as Hp1 by (unfold k1; destruct e; cbn; set_solver). rewrite <- Ek1 in Hk, Hc.
  assert (reload_at olds c j = R) as Ea by (unfold reload_at; by rewrite Hw).
  assert (∀ fuel q k2, reload q = R → length olds = length (workers q) → pid w ∉ procs k2 → pid w ∉ forks k2 →
    ('(p, k) ← kill_worker (S fuel) q k2; Some (Again, p, k)) = Some (Again, p', k') →
    reload p' = R ∧ pid w ∉ procs k' ∧ pid w ∉ forks k') as Hkill.
  { intros fuel q k2 Eq Hl Hp2 Hk2 E. destruct (kill_worker_at fuel olds c j (pid w) q k2 Eq Hl) as (k3 & E3 & E4 & E5).
    rewrite E3, Ea in E. injection E as <- <-. by rewrite E4, E5. }
  assert (length olds = length (workers p)) as Hl.
  { destruct (sv_reload _ _ _ _ Hs) as [E _]. rewrite Er in E. cbn in E. by rewrite E, (sv_num _ _ _ _ Hs). }
  destruct e as [x st|].
  - unfold replace, get_worker_by_pid. destruct (map_ p !! x) as [i|] eqn:Ei; [|cbn [mbind option_bind]; by intros [= <- <-]].
    apply (sv_map _ _ _ _ Hs1) in Ei as (v & Hv & Ev).
    destruct (forks k1) as [|y l] eqn:Ek; [cbn [zlen length] in Hc; destruct (sv_box _ _ _ _ Hs) as (q & Hq & _);
      destruct (Channel.inv_bytes _ _ Hq) as (_ & ? & _); unfold Channel.count, zlen in Hc; cbn in Hc; lia|].
    destruct (fresh_fork k1 y l Hf1 Ek) as (Hy0 & _ & Ef & _). destruct (Z.ltb_spec y 0) as [Hy|Hy].
    { unfold spawn. rewrite Ef. cbn [mbind option_bind]. rewrite (proj2 (Z.ltb_lt y 0) Hy). cbn [mbind option_bind].
      by rewrite (proj2 (Z.ltb_lt y 0) Hy). }
    destruct (spawn_ok n x i v y l p k1 Hs1 Hf1 Hv Ek ltac:(lia)) as (p2 & k2 & -> & Hs2 & _ & Hl2 & Hp2 & _ & Ep2).
    cbn [mbind option_bind]. rewrite (proj2 (Z.ltb_ge y 0)) by lia.
    cbn in He. rewrite Ep2. cbn [reload with_workers reload_worker_pid]. rewrite Er. change (reload_worker_pid R) with (pid w).
    rewrite (proj2 (Z.eqb_neq x (pid w))) by (intros ->; done). apply Hkill.
    + done.
    + cbn. by rewrite length_insert.
    + rewrite Hp2. apply not_elem_of_union. split; [|done]. intros E%elem_of_singleton. apply Hk. rewrite E. by left.
    + rewrite Hl2. intros ?. apply Hk. by right.
  - rewrite Er. cbn [reloading negb]. unfold reload_begin. rewrite Er. cbn [reload_init]. by apply Hkill.
Qed.

(** Two turns of a run, for the examples. *)
Definition after (r : option (verdict * ProcessPool * Kernel)) (f : ProcessPool → Kernel → option (verdict * ProcessPool * Kernel)) :
  option (verdict * ProcessPool * Kernel) := '(v, p, k) ← r; match v with Again => f p k | _ => None end.
Definition seen (r : option (verdict * ProcessPool * Kernel)) : option (bool * Z * list Z * list (Z * Z)) :=
  '(_, p, k) ← r; Some (reloading (reload p), reload_worker_i (reload p), pid <$> workers p, sent k).

(** The request to reload arrives, but [wait] returns a child that has exited: the old workers
    have not been copied yet, and the signal goes to process 0, the whole group with the
    manager in it. *)
Example reload_kills_group :
  seen (wait_turn [SIGUSR1] false (Exited 12 0) (demo_pool 0) (demo_kernel [21])) =
  Some (true, 0, [11; 21], [(0, SIGTERM)]).
Proof. vm_compute. done. Qed.

(** After a reload has run into its time limit the worker that was killed is still taken for
    the one being reloaded: its exit counts, and the next reload begins with the second
    worker. *)
Example reload_skips_first :
  let r := wait_turn [SIGUSR1] false Interrupted (demo_pool 5) (demo_kernel [21; 22; 23]) in
  let r := after r (wait_turn [] true Interrupted) in
  let r := after r (wait_turn [] false (Exited 11 9)) in
  let r := after r (wait_turn [] false (Exited 12 9)) in
  let r := after r (wait_turn [SIGUSR1] false Interrupted) in
  let r := after r (wait_turn [] false (Exited 22 0)) in
  (λ x, x.1) <$> seen r = Some (false, 0, [21; 23]).
Proof. vm_compute. done. Qed.

(** The time limit is not taken back when a reload is over: it ends the next reload. *)
Example old_limit_ends_reload :
  let r := wait_turn [SIGUSR1] false Interrupted (demo_pool 5) (demo_kernel [21; 22; 23]) in
  let r := after r (wait_turn [] false (Exited 11 0)) in
  let r := after r (wait_turn [] false (Exited 12 0)) in
  let r := after r (wait_turn [SIGUSR1] false Interrupted) in
  let r := after r (wait_turn [] true Interrupted) in
  (λ x, (x.1, last x.2)) <$> seen r = Some (false, 0, [21; 22], Some (22, SIGKILL)).
Proof. vm_compute. done. Qed.

(** A process number that is used again at once: the entry of the new worker is erased. *)
Example reused_number_lost :
  let r := wait_turn [] false (Exited 11 0) (demo_pool 0) (demo_kernel [11; 21]) in
  ('(_, p, _) ← r; Some (pid <$> workers p, map_ p !! 11)) = Some ([11; 12], None).
Proof. vm_compute. done. Qed.

(** ** The choice of a worker *)

Lemma schedule_loop_spec ws : ws ≠ [] → ∀ n round target, 0 <= round → round + Z.of_nat n <= 2 ^ 32 →
  ∃ b r t, schedule_loop n ws round target = Some (b, r, t) ∧
    if b : bool then ∃ w, ws !! Z.to_nat t = Some w ∧ status w = OSW_WORKER_IDLE
    else ∀ i w, round <= i < round + Z.of_nat n → ws !! Z.to_nat (i mod zlen ws) = Some w → status w ≠ OSW_WORKER_IDLE.
Proof.
  intros Hws. pose proof (zlen_pos ws Hws) as Hl. induction n as [|n IH]; intros round target H0 Hn; cbn [schedule_loop].
  { do 3 eexists. split; [done|]. intros i w Hi. lia. }
  rewrite (proj2 (Z.eqb_neq (zlen ws) 0)) by lia. pose proof (Z.mod_pos_bound round (zlen ws) Hl) as Hm.
  destruct (lookup_lt_is_Some_2 ws (Z.to_nat (round mod zlen ws))) as [w Hw]; [unfold zlen in *; lia|].
  rewrite Hw. cbn [mbind option_bind]. destruct (Z.eqb_spec (status w) OSW_WORKER_IDLE) as [E|E].
  { do 3 eexists. split; [done|]. by exists w. }
  assert (∀ v, ws !! Z.to_nat (round mod zlen ws) = Some v → status v ≠ OSW_WORKER_IDLE) as Hhere by congruence.
  destruct n as [|n].
  { cbn [schedule_loop]. do 3 eexists. split; [done|]. intros i v Hi. replace i with round by lia. apply Hhere. }
  rewrite u32_small by lia. destruct (IH (round + 1) (round mod zlen ws)) as (b & r & t & -> & Hb); [lia..|].
  do 3 eexists. split; [done|]. destruct b; [done|]. intros i v Hi. destruct (decide (i = round)) as [->|]; [apply Hhere|].
  apply Hb. lia.
Qed.

(** [schedule] finds an idle worker if there is one, while the counter does not wrap. *)
Theorem schedule_finds_idle p i w : schedule_by_sysvmsg (settings p) = false →
  0 <= round_id p → round_id p + zlen (workers p) + 1 <= 2 ^ 32 →
  workers p !! i = Some w → status w = OSW_WORKER_IDLE →
  ∃ t p' v, schedule p = Some (t, p') ∧ workers p' = workers p ∧ workers p !! Z.to_nat t = Some v ∧
    status v = OSW_WORKER_IDLE ∧ scheduler_warning p' = scheduler_warning p.
Proof.
  intros Hv H0 Hn Hi Hidle. unfold schedule. rewrite Hv. assert (workers p ≠ []) as Hws by (by intros E; rewrite E in Hi).
  destruct (schedule_loop_spec (workers p) Hws (length (workers p) + 1) (round_id p) 0 H0) as (b & r & t & -> & Hb).
  { unfold zlen in Hn. lia. }
  cbn [mbind option_bind]. destruct b; [destruct Hb as (v & ? & ?); by exists t, (with_round p r (scheduler_warning p)), v|].
  exfalso. pose proof (zlen_pos _ Hws) as Hl. apply lookup_lt_Some in Hi as Hlt. set (n := zlen (workers p)) in *.
  apply (Hb (round_id p + (Z.of_nat i - round_id p) mod n) w); [|rewrite <- Hi; f_equal|done].
  - pose proof (Z.mod_pos_bound (Z.of_nat i - round_id p) n Hl). unfold n, zlen in *. lia.
  - rewrite Zplus_mod_idemp_r. replace (round_id p + (Z.of_nat i - round_id p)) with (Z.of_nat i) by lia.
    rewrite Z.mod_small; [lia|]. unfold n, zlen. lia.
Qed.

(** When the counter wraps, the round jumps and can miss the only idle worker. *)
Example schedule_misses_idle :
  let w i := MkWorker (100 + i) i 0 (if i =? 6 then OSW_WORKER_IDLE else OSW_WORKER_BUSY) 0 in
  let p := with_round (with_workers (demo_pool 0) (w <$> [0; 1; 2; 3; 4; 5; 6]) ∅) (2 ^ 32 - 3) false in
  (λ x, (x.1, scheduler_warning x.2)) <$> schedule p = Some (4, true).
Proof. vm_compute. done. Qed.
