(* ===== verification/Manager.v ===== *)
(** * The manager process: server/manager.cc

    The manager forks the event workers, the task workers and the user processes of a server,
    waits for them and replaces those that exit or announce that they leave.  On a signal it
    reloads all workers or the task workers: they are told to stop one after the other, or
    the event workers all at once, and replaced when they exit.

    The kernel and the pool of the task workers are those of [ProcessPool]. *)

From S2P Require Import Prelude Channel ProcessPool.

Record Manager := MkManager {
  reloading : bool; reload_all_worker : bool; reload_task_worker : bool; reload_init : bool;
  read_message : bool; force_kill : bool;
  reload_worker_i : Z; reload_worker_num : Z; reload_worker_pid : Z;
  reload_workers : list Worker; kill_workers : list Z
}.

(** [Manager manager{}] before [start]. *)
Definition manager_zero : Manager := MkManager false false false false false false 0 0 0 [] [].

Inductive callback := BeforeReload | AfterReload | WorkerError (worker_id status : Z).

(** The parts of the server that the manager works on.  [event_workers] is
    [gs->event_workers.workers], [killers] holds the lists of the timers that wait to run
    [kill_timeout_process], and [calls] the callbacks made. *)
Record Server := MkServer {
  running : bool; event_workers : list Worker; tasks : ProcessPool;
  users : list Worker; user_worker_map : gmap Z nat; message_box : Channel;
  max_wait_time : Z; reload_async : bool; reload_count : Z;
  killers : list (list (Z * Z)); calls : list callback
}.

Definition worker_num (s : Server) : Z := zlen (event_workers s).
Definition task_worker_num (s : Server) : Z := zlen (workers (tasks s)).

Definition with_running (s : Server) (b : bool) : Server :=
  MkServer b (event_workers s) (tasks s) (users s) (user_worker_map s) (message_box s) (max_wait_time s)
    (reload_async s) (reload_count s) (killers s) (calls s).
Definition with_events (s : Server) (ws : list Worker) : Server :=
  MkServer (running s) ws (tasks s) (users s) (user_worker_map s) (message_box s) (max_wait_time s)
    (reload_async s) (reload_count s) (killers s) (calls s).
Definition with_tasks (s : Server) (p : ProcessPool) : Server :=
  MkServer (running s) (event_workers s) p (users s) (user_worker_map s) (message_box s) (max_wait_time s)
    (reload_async s) (reload_count s) (killers s) (calls s).
Definition with_users (s : Server) (ws : list Worker) (m : gmap Z nat) : Server :=
  MkServer (running s) (event_workers s) (tasks s) ws m (message_box s) (max_wait_time s)
    (reload_async s) (reload_count s) (killers s) (calls s).
Definition with_box (s : Server) (c : Channel) : Server :=
  MkServer (running s) (event_workers s) (tasks s) (users s) (user_worker_map s) c (max_wait_time s)
    (reload_async s) (reload_count s) (killers s) (calls s).
Definition with_killers (s : Server) (l : list (list (Z * Z))) : Server :=
  MkServer (running s) (event_workers s) (tasks s) (users s) (user_worker_map s) (message_box s) (max_wait_time s)
    (reload_async s) (reload_count s) l (calls s).
Definition call (s : Server) (c : callback) : Server :=
  MkServer (running s) (event_workers s) (tasks s) (users s) (user_worker_map s) (message_box s) (max_wait_time s)
    (reload_async s) (reload_count s) (killers s) (calls s ++ [c]).
Definition count_reload (s : Server) : Server :=
  MkServer (running s) (event_workers s) (tasks s) (users s) (user_worker_map s) (message_box s) (max_wait_time s)
    (reload_async s) (u32 (reload_count s + 1)) (killers s) (calls s).

Definition with_flags (m : Manager) (reloading all task init : bool) : Manager :=
  MkManager reloading all task init (read_message m) (force_kill m) (reload_worker_i m) (reload_worker_num m)
    (reload_worker_pid m) (reload_workers m) (kill_workers m).
Definition with_progress (m : Manager) (i n p : Z) (ws : list Worker) : Manager :=
  MkManager (reloading m) (reload_all_worker m) (reload_task_worker m) (reload_init m) (read_message m) (force_kill m)
    i n p ws (kill_workers m).
Definition with_message (m : Manager) (b : bool) : Manager :=
  MkManager (reloading m) (reload_all_worker m) (reload_task_worker m) (reload_init m) b (force_kill m)
    (reload_worker_i m) (reload_worker_num m) (reload_worker_pid m) (reload_workers m) (kill_workers m).

(** ** Processes *)

(** [Server::spawn_event_worker] in the manager. *)
Definition spawn_event_worker (k : Kernel) : option (Z * Kernel) :=
  '(x, k) ← fork k; Some (if x <? 0 then OSW_ERR else x, k).

(** [Server::spawn_task_worker]. *)
Definition spawn_task_worker (i : nat) (s : Server) (k : Kernel) : option (Z * Server * Kernel) :=
  '(x, p, k) ← ProcessPool.spawn i (tasks s) k; Some (x, with_tasks s p, k).

(** [Server::spawn_user_worker] in the manager; the copy in shared memory gets the same
    number. *)
Definition spawn_user_worker (i : nat) (s : Server) (k : Kernel) : option (Z * Server * Kernel) :=
  '(x, k) ← fork k;
  if x <? 0 then Some (OSW_ERR, s, k) else
  w ← users s !! i;
  let m := if pid w =? 0 then user_worker_map s else delete (pid w) (user_worker_map s) in
  Some (x, with_users s (<[i := with_pid w x]> (users s)) (emplace m x i), k).

(** [Server::check_worker_exit_status]. *)
Definition check_worker_exit_status (worker_id status : Z) (s : Server) : Server :=
  if status =? 0 then s else call s (WorkerError worker_id status).

(** The workers that [start_manager_process] starts in the manager. *)
Fixpoint start_events (n i : nat) (s : Server) (k : Kernel) : option (Z * Server * Kernel) :=
  match n with
  | O => Some (OSW_OK, s, k)
  | S n =>
    '(x, k) ← spawn_event_worker k;
    if x <? 0 then Some (OSW_ERR, s, k) else
    w ← event_workers s !! i;
    start_events n (S i) (with_events s (<[i := with_pid w x]> (event_workers s))) k
  end.
Fixpoint start_users (n i : nat) (s : Server) (k : Kernel) : option (Z * Server * Kernel) :=
  match n with
  | O => Some (OSW_OK, s, k)
  | S n =>
    '(x, s, k) ← spawn_user_worker i s k;
    if x <? 0 then Some (OSW_ERR, s, k) else start_users n (S i) s k
  end.
Definition start_workers (s : Server) (k : Kernel) : option (Z * Server * Kernel) :=
  '(r, s, k) ← (if 0 <? task_worker_num s then
      '(r, p, k) ← ProcessPool.start (tasks s) k; Some (r, with_tasks s p, k)
    else Some (OSW_OK, s, k));
  if r =? OSW_ERR then Some (OSW_ERR, s, k) else
  '(r, s, k) ← start_events (length (event_workers s)) 0 s k;
  if r =? OSW_ERR then Some (OSW_ERR, s, k) else
  start_users (length (users s)) 0 s k.

(** ** Signals and timers *)

Definition SIGALRM : Z := 14.

(** [Manager::signal_handler]; the log file is reopened besides. *)
Definition signal_handler (x : Manager * Server * Kernel) (sig : Z) : Manager * Server * Kernel :=
  let '(m, s, k) := x in
  if sig =? SIGTERM then (m, with_running s false, k)
  else if sig =? SIGUSR1 then
    (if reloading m then m else with_flags m true true (reload_task_worker m) (reload_init m), s, k)
  else if sig =? SIGUSR2 then
    (if reloading m then m else with_flags m true (reload_all_worker m) true (reload_init m), s, k)
  else if sig =? SIGIO then (with_message m true, s, k)
  else if (sig =? SIGALRM) && force_kill m then
    (m, s, foldl (λ k x, (openswoole_kill x SIGKILL k).2) k (kill_workers m))
  else x.

(** [Manager::add_timeout_killer] and [Manager::kill_timeout_process]. *)
Definition add_timeout_killer (ws : list Worker) (s : Server) : Server :=
  if max_wait_time s =? 0 then s else with_killers s (killers s ++ [(λ w, (id w, pid w)) <$> ws]).
Definition kill_timeout_process (k : Kernel) (l : list (Z * Z)) : Kernel :=
  foldl (λ k x, match openswoole_kill x.2 0 k with
                | (Some _, k) => k
                | (None, k) => (openswoole_kill x.2 SIGKILL k).2
                end) k l.

(** ** The loop of [Manager::start] *)

(** The messages of the workers that leave; user processes send none. *)
Fixpoint drain (fuel : nat) (m : Manager) (s : Server) (k : Kernel) : option (Manager * Server * Kernel) :=
  match fuel with
  | O => None
  | S fuel =>
    '(n, b, c) ← Channel.pop (message_box s) sizeof_WorkerStopMessage;
    let s := with_box s c in
    if n <=? 0 then Some (with_message m false, s, k) else
    msg ← read_message_bytes b;
    if negb (running s) then drain fuel m s k else
    if worker_num s <=? m_worker_id msg then
      '(_, s, k) ← spawn_task_worker (Z.to_nat (m_worker_id msg - worker_num s)) s k;
      drain fuel m s k
    else
      '(x, k) ← spawn_event_worker k;
      if 0 <? x then
        w ← event_workers s !! Z.to_nat (m_worker_id msg);
        drain fuel m (with_events s (<[Z.to_nat (m_worker_id msg) := with_pid w x]> (event_workers s))) k
      else drain fuel m s k
  end.

(** [while (1)] around [spawn_event_worker]: until it succeeds. *)
Fixpoint fork_event (fuel : nat) (k : Kernel) : option (Z * Kernel) :=
  match fuel with
  | O => None
  | S fuel => '(x, k) ← spawn_event_worker k; if x <? 0 then fork_event fuel k else Some (x, k)
  end.

(** The event workers: the one that has exited is replaced. *)
Fixpoint replace_events (n i : nat) (x status : Z) (s : Server) (k : Kernel) : option (Server * Kernel) :=
  match n with
  | O => Some (s, k)
  | S n =>
    w ← event_workers s !! i;
    if negb (x =? pid w) then replace_events n (S i) x status s k else
    let s := check_worker_exit_status (Z.of_nat i) status s in
    '(y, k) ← fork_event (S (length (forks k))) k;
    replace_events n (S i) x status (with_events s (<[i := with_pid w y]> (event_workers s))) k
  end.

(** [Server::wait_other_worker], which looks at the task workers again. *)
Definition wait_other_worker (x status : Z) (s : Server) (k : Kernel) : option (Z * Server * Kernel) :=
  match map_ (tasks s) !! x with
  | Some i =>
    w ← workers (tasks s) !! i;
    spawn_task_worker i (check_worker_exit_status (id w) status s) k
  | None =>
    match user_worker_map s !! x with
    | Some i =>
      w ← users s !! i;
      spawn_user_worker i (check_worker_exit_status (id w) status s) k
    | None => Some (OSW_ERR, s, k)
    end
  end.

Definition replace_task (x status : Z) (s : Server) (k : Kernel) : option (Server * Kernel) :=
  match map_ (tasks s) !! x with
  | None => Some (s, k)
  | Some i =>
    w ← workers (tasks s) !! i;
    '(_, s, k) ← spawn_task_worker i (check_worker_exit_status (id w) status s) k;
    Some (s, k)
  end.

Definition replace_user (x status : Z) (s : Server) (k : Kernel) : option (Server * Kernel) :=
  if bool_decide (user_worker_map s = ∅) then Some (s, k)
  else '(_, s, k) ← wait_other_worker x status s k; Some (s, k).

(** A child has exited. *)
Definition on_exit (x status : Z) (m : Manager) (s : Server) (k : Kernel) : option (Manager * Server * Kernel) :=
  '(s, k) ← replace_events (length (event_workers s)) 0 x status s k;
  '(s, k) ← replace_task x status s k;
  '(s, k) ← replace_user x status s k;
  Some (if (x =? reload_worker_pid m) && reloading m
        then with_progress m (u32 (reload_worker_i m + 1)) (reload_worker_num m) (reload_worker_pid m) (reload_workers m)
        else m, s, k).

(** The beginning of a reload of all workers. *)
Definition terminate_all (k : Kernel) (ws : list Worker) : Kernel :=
  foldl (λ k w, (openswoole_kill (pid w) SIGTERM k).2) k ws.
Definition reload_all (m : Manager) (s : Server) (k : Kernel) : Manager * Server * Kernel :=
  let s := call s BeforeReload in
  if reload_init m then (m, s, k) else
  let s := add_timeout_killer (event_workers s) s in
  let s := if 0 <? task_worker_num s then add_timeout_killer (workers (tasks s)) s else s in
  let olds := event_workers s ++ workers (tasks s) in
  let m := with_flags m (reloading m) false (reload_task_worker m) true in
  if reload_async s then
    (with_progress m (worker_num s) (zlen olds) (reload_worker_pid m) olds, s, terminate_all k (event_workers s))
  else (with_progress m 0 (zlen olds) (reload_worker_pid m) olds, s, k).

(** The beginning of a reload of the task workers. *)
Definition reload_tasks (m : Manager) (s : Server) : Manager * Server :=
  let s := call s BeforeReload in
  if reload_init m then (m, s) else
  let s := add_timeout_killer (workers (tasks s)) s in
  let m := with_flags m (reloading m) (reload_all_worker m) false true in
  (with_progress m 0 (task_worker_num s) (reload_worker_pid m) (workers (tasks s)), s).

(** The label [_kill_worker]. *)
Fixpoint kill_worker (fuel : nat) (m : Manager) (s : Server) (k : Kernel) : option (Manager * Server * Kernel) :=
  match fuel with
  | O => None
  | S fuel =>
    if negb (reloading m) then Some (m, s, k) else
    let s := count_reload s in
    if reload_worker_num m <=? reload_worker_i m then
      Some (with_progress (with_flags m false (reload_all_worker m) (reload_task_worker m) false)
              0 (reload_worker_num m) 0 (reload_workers m), call s AfterReload, k) else
    w ← reload_workers m !! Z.to_nat (reload_worker_i m);
    let step i := with_progress m i (reload_worker_num m) (pid w) (reload_workers m) in
    match openswoole_kill (pid w) SIGTERM k with
    | (Some e, k) =>
      if (e =? ECHILD) || (e =? ESRCH) then kill_worker fuel (step (u32 (reload_worker_i m + 1))) s k
      else Some (step (reload_worker_i m), s, k)
    | (None, k) => Some (step (reload_worker_i m), s, k)
    end
  end.

(** One turn: [sigs] are delivered while it waits, and the first [due] timers have run out. *)
Definition manager_turn (sigs : list Z) (due : nat) (e : ExitStatus) (m : Manager) (s : Server) (k : Kernel) :
  option (bool * Manager * Server * Kernel) :=
  if negb (running s) then Some (false, m, s, k) else
  let '(m, s, k) := foldl signal_handler (m, s, wait_process e k) sigs in
  '(m, s, k) ← (if read_message m then drain (S (Z.to_nat (Channel.count (message_box s)))) m s k
                else Some (m, s, k));
  let k := foldl kill_timeout_process k (take due (killers s)) in
  let s := with_killers s (drop due (killers s)) in
  let kill m s k :=
    '(m, s, k) ← kill_worker (S (length (reload_workers m))) m s k; Some (true, m, s, k) in
  match e with
  | Exited x status =>
    if running s then '(m, s, k) ← on_exit x status m s k; kill m s k else kill m s k
  | Interrupted =>
    if negb (reloading m) then Some (true, m, s, k)
    else if reload_all_worker m then let '(m, s, k) := reload_all m s k in kill m s k
    else if reload_task_worker m then
      if task_worker_num s =? 0
      then Some (true, with_flags m false (reload_all_worker m) (reload_task_worker m) (reload_init m), s, k)
      else let '(m, s) := reload_tasks m s in kill m s k
    else Some (true, m, s, k)
  end.

(** Behind the loop everything is stopped: [kill_event_workers], [kill_task_workers] and
    [kill_user_workers]; [openswoole_waitpid] returns when the process has exited. *)
Definition kill_and_wait (ws : list Worker) (k : Kernel) : Kernel := foldl waitpid (terminate_all k ws) ws.
Definition manager_end (m : Manager) (s : Server) (k : Kernel) : Manager * Server * Kernel :=
  let m := if max_wait_time s =? 0 then m else
    MkManager (reloading m) (reload_all_worker m) (reload_task_worker m) (reload_init m) (read_message m) true
      (reload_worker_i m) (reload_worker_num m) (reload_worker_pid m) (reload_workers m)
      (kill_workers m ++ (pid <$> event_workers s) ++ (pid <$> workers (tasks s)) ++ (pid <$> users s)) in
  let k := kill_and_wait (event_workers s) k in
  let '(p, k) := if task_worker_num s =? 0 then (tasks s, k) else ProcessPool.shutdown (tasks s) k in
  let s := with_tasks s p in
  (m, s, if bool_decide (user_worker_map s = ∅) then k else kill_and_wait (users s) k).

(** The end of [Server::stop_async_worker] in the worker [self]: the message to the manager; the
    message box is shared. *)
Definition stop_message (self worker_id manager_pid : Z) (padding : bytes) (s : Server) (k : Kernel) :
  option (Server * Kernel) :=
  '(r, c) ← Channel.push (message_box s) (message_bytes (MkMessage self worker_id) padding);
  Some (with_box s c, if r <? 0 then k else (openswoole_kill manager_pid SIGIO k).2).

(** ** Places and the processes that hold them *)

Inductive place := Event (i : nat) | Task (i : nat) | User (i : nat).
#[global] Instance place_eq_dec : EqDecision place.
Proof. solve_decision. Defined.

Definition slot (s : Server) (pl : place) : option Worker :=
  match pl with
  | Event i => event_workers s !! i
  | Task i => workers (tasks s) !! i
  | User i => users s !! i
  end.

(** A place whose worker has not been started holds no process. *)
Definition held (s : Server) (pl : place) : option Z :=
  w ← slot s pl; if pid w =? 0 then None else Some (pid w).

Definition box_ids (n : Z) (c : Channel) : Prop :=
  ∃ q, Channel.inv c q ∧ maxlen c = 8 ∧ Z.land (flags c) OSW_CHAN_LOCK ≠ 0 ∧ lock c = true ∧
    Forall (λ b, zlen b = 8 ∧ ∃ x i, read_message_bytes b = Some (MkMessage x i) ∧ 0 <= i < n) q.

(** One place of one of the three arrays has changed. *)
Ltac slot_insert :=
  intros [?|?|?]; cbn [slot with_events with_tasks with_users event_workers tasks users workers with_workers];
  case_decide; simplify_eq; try done;
  [rewrite list_lookup_insert_eq; [done|by eapply lookup_lt_Some]|rewrite list_lookup_insert_ne; [done|congruence]].

Section Managed.
Variables ne nt nu : nat.

(** Every process in a place exists, [gone] excepted, and is in one place only; the maps of
    the task workers and the user processes find them. *)
Record managed (gone : Z) (s : Server) (k : Kernel) : Prop := {
  mg_num : length (event_workers s) = ne ∧ length (workers (tasks s)) = nt ∧ length (users s) = nu;
  mg_alive : ∀ pl x, held s pl = Some x → 0 < x ∧ (x = gone ∨ x ∈ procs k);
  mg_inj : ∀ pl pl' x, held s pl = Some x → held s pl' = Some x → pl = pl';
  mg_tasks : ∀ x i, map_ (tasks s) !! x = Some i ↔ held s (Task i) = Some x;
  mg_users : ∀ x i, user_worker_map s !! x = Some i ↔ held s (User i) = Some x;
  mg_box : box_ids (Z.of_nat ne + Z.of_nat nt) (message_box s);
  mg_gone : gone ∉ forks k;
  mg_fresh : fresh_forks k;
  mg_forks : Forall (λ x, 0 < x) (forks k);
}.

Lemma managed_fork gone s k x l : managed gone s k → forks k = x :: l →
  0 < x ∧ x ≠ gone ∧ x ∉ procs k ∧ fork k = Some (x, MkKernel ({[x]} ∪ procs k) l (sent k)) ∧
  (∀ pl, held s pl ≠ Some x) ∧ fresh_forks (MkKernel ({[x]} ∪ procs k) l (sent k)) ∧ Forall (λ x, 0 < x) l.
Proof.
  intros Hs Hl. destruct (fresh_fork k x l (mg_fresh _ _ _ Hs) Hl) as (_ & Hx & Hk & Hf).
  pose proof (mg_forks _ _ _ Hs) as Hp. rewrite Hl in Hp. apply Forall_cons in Hp as [H0 Hp].
  rewrite (proj2 (Z.ltb_ge x 0)) in Hk, Hf by lia.
  assert (x ≠ gone) as Hg by (intros ->; apply (mg_gone _ _ _ Hs); rewrite Hl; by left).
  split_and!; try done. intros pl E. by destruct (mg_alive _ _ _ Hs pl x E) as [_ [?|?]].
Qed.

(** The new process takes a place. *)
Lemma refill gone s s' k k' pl x l : managed gone s k → forks k = x :: l →
  procs k' = {[x]} ∪ procs k → forks k' = l →
  (∀ pl', held s' pl' = if decide (pl' = pl) then Some x else held s pl') →
  (length (event_workers s') = ne ∧ length (workers (tasks s')) = nt ∧ length (users s') = nu) →
  (∀ y i, map_ (tasks s') !! y = Some i ↔ held s' (Task i) = Some y) →
  (∀ y i, user_worker_map s' !! y = Some i ↔ held s' (User i) = Some y) →
  message_box s' = message_box s →
  managed gone s' k' ∧ (held s pl = Some gone → managed 0 s' k').
Proof.
  intros Hs Hl Hp Hk Hh Hn Ht Hu Hb. destruct (managed_fork gone s k x l Hs Hl) as (H0 & Hg & Hx & _ & Hnew & Hf & Hpos).
  assert (∀ g, (∀ pl' y, pl' ≠ pl → held s pl' = Some y → y = g ∨ y ∈ procs k) → g ∉ l → managed g s' k') as Hall.
  { intros g Hgone Hgl. split; try done.
    - intros pl' y. rewrite Hh, Hp. case_decide as Hd.
      + intros [= <-]. split; [done|]. right. set_solver.
      + intros E. split; [by eapply mg_alive|]. destruct (Hgone pl' y Hd E); [by left|right; set_solver].
    - intros p1 p2 y. rewrite !Hh. case_decide as H1; case_decide as H2; intros E1 E2; [congruence| | |by eapply mg_inj].
      + injection E1 as <-. by destruct (Hnew p2).
      + injection E2 as <-. by destruct (Hnew p1).
    - rewrite Hb. apply Hs.
    - by rewrite Hk.
    - by eapply fresh_procs.
    - by rewrite Hk. }
  split.
  - apply Hall; [intros pl' y _ E; by eapply mg_alive|]. pose proof (mg_gone _ _ _ Hs) as H. rewrite Hl in H. set_solver.
  - intros Eg. apply Hall.
    + intros pl' y Hd E. destruct (mg_alive _ _ _ Hs pl' y E) as [_ [->|?]]; [|by right].
      by destruct Hd; apply (mg_inj _ _ _ Hs pl' pl gone).
    + intros H. rewrite Forall_forall in Hpos. specialize (Hpos 0 H). lia.
Qed.

(** The map of a pool when one of its places changes hands. *)
Lemma map_refill (M : gmap Z nat) (h h' : nat → option Z) i x o :
  (∀ y j, M !! y = Some j ↔ h j = Some y) → (∀ j, h j ≠ Some x) → (∀ y, h i = Some y → y = o) →
  (∀ j, h j = Some o → j = i) →
  (∀ j, h' j = if decide (j = i) then Some x else h j) → ∀ y j, <[x := i]> (delete o M) !! y = Some j ↔ h' j = Some y.
Proof.
  intros HM Hx Ho Hi Hh y j. rewrite lookup_insert_Some, lookup_delete_Some, HM, Hh. case_decide as Hd; subst.
  - split; [|intros [= ->]; by left]. intros [[-> _]|(_ & Hy & E)]; [done|]. by destruct Hy; rewrite (Ho y E).
  - split; [intros [[_ ?]|(_ & _ & E)]; [by subst|done]|]. intros E. right. split; [intros <-; by destruct (Hx j)|].
    split; [intros <-; by destruct Hd; apply Hi|done].
Qed.

Lemma held_pid s pl w : slot s pl = Some w → 0 < pid w → held s pl = Some (pid w).
Proof. intros E Hp. unfold held. rewrite E. cbn. by rewrite (proj2 (Z.eqb_neq (pid w) 0)) by lia. Qed.

Lemma held_old s pl w y : slot s pl = Some w → held s pl = Some y → y = pid w.
Proof. unfold held. intros ->. cbn. destruct (pid w =? 0); [done|]. by intros [= <-]. Qed.

Lemma held_insert s s' pl w x : slot s pl = Some w → x ≠ 0 →
  (∀ pl', slot s' pl' = if decide (pl' = pl) then Some (with_pid w x) else slot s pl') →
  ∀ pl', held s' pl' = if decide (pl' = pl) then Some x else held s pl'.
Proof.
  intros Hw Hx Hs pl'. unfold held. rewrite Hs. case_decide; [|done]. cbn. by rewrite (proj2 (Z.eqb_neq x 0)).
Qed.

(** [emplace] behind the test for a process number. *)
Lemma emplace_new (M : gmap Z nat) (o x : Z) (i : nat) : M !! x = None → M !! 0 = None →
  emplace (if o =? 0 then M else delete o M) x i = <[x := i]> (delete o M).
Proof.
  intros Hx H0. unfold emplace. destruct (Z.eqb_spec o 0) as [->|Ho].
  - rewrite Hx. by rewrite (delete_id M 0).
  - assert (delete o M !! x = None) as -> by (apply lookup_delete_None; by right). done.
Qed.

Lemma event_ok gone s k i w x l : managed gone s k → forks k = x :: l → event_workers s !! i = Some w →
  let s' := with_events s (<[i := with_pid w x]> (event_workers s)) in
  let k' := MkKernel ({[x]} ∪ procs k) l (sent k) in
  spawn_event_worker k = Some (x, k') ∧ managed gone s' k' ∧ (held s (Event i) = Some gone → managed 0 s' k') ∧
  (∀ pl, held s' pl = if decide (pl = Event i) then Some x else held s pl).
Proof.
  intros Hs Hl Hw s' k'. destruct (managed_fork gone s k x l Hs Hl) as (H0 & _ & _ & Hk & _).
  assert (∀ pl, held s' pl = if decide (pl = Event i) then Some x else held s pl) as Hh.
  { apply (held_insert s s' (Event i) w x Hw ltac:(lia)). unfold s'. slot_insert. }
  destruct (refill gone s s' k k' (Event i) x l Hs Hl) as [? ?]; try done.
  - destruct (mg_num _ _ _ Hs) as (? & ? & ?). cbn. by rewrite length_insert.
  - intros y j. rewrite Hh, decide_False by done. apply (mg_tasks _ _ _ Hs).
  - intros y j. rewrite Hh, decide_False by done. apply (mg_users _ _ _ Hs).
  - unfold spawn_event_worker. rewrite Hk. cbn. rewrite (proj2 (Z.ltb_ge x 0)) by lia. done.
Qed.

Lemma task_ok gone s k i w x l : managed gone s k → forks k = x :: l → workers (tasks s) !! i = Some w →
  ∃ s', let k' := MkKernel ({[x]} ∪ procs k) l (sent k) in
  spawn_task_worker i s k = Some (x, s', k') ∧ managed gone s' k' ∧ (held s (Task i) = Some gone → managed 0 s' k') ∧
  (∀ pl, held s' pl = if decide (pl = Task i) then Some x else held s pl) ∧ ∃ p, s' = with_tasks s p.
Proof.
  intros Hs Hl Hw. destruct (managed_fork gone s k x l Hs Hl) as (H0 & _ & _ & Hk & Hnew & _).
  unfold spawn_task_worker, ProcessPool.spawn. rewrite Hk. cbn [mbind option_bind]. rewrite (proj2 (Z.ltb_ge x 0)) by lia.
  rewrite Hw. cbn [mbind option_bind].
  rewrite emplace_new; [|apply eq_None_not_Some; intros [j E%(mg_tasks _ _ _ Hs)]; by destruct (Hnew (Task j))|
    apply eq_None_not_Some; intros [j E%(mg_tasks _ _ _ Hs)]; by destruct (mg_alive _ _ _ Hs _ _ E)].
  eexists. cbv zeta. split; [done|]. set (s' := with_tasks _ _). set (k' := MkKernel _ _ _).
  assert (∀ pl, held s' pl = if decide (pl = Task i) then Some x else held s pl) as Hh.
  { apply (held_insert s s' (Task i) w x Hw ltac:(lia)). unfold s'. slot_insert. }
  destruct (refill gone s s' k k' (Task i) x l Hs Hl) as [? ?]; try done.
  - destruct (mg_num _ _ _ Hs) as (? & ? & ?). cbn. by rewrite length_insert.
  - cbn [tasks s' with_tasks map_ with_workers]. apply (map_refill _ (λ j, held s (Task j))).
    + apply (mg_tasks _ _ _ Hs).
    + intros j. apply Hnew.
    + intros y E. by apply (held_old s (Task i) w).
    + intros j E. assert (held s (Task i) = Some (pid w)) as E' by (apply held_pid; [done|by eapply mg_alive]).
      pose proof (mg_inj _ _ _ Hs _ _ _ E E') as E2. by injection E2.
    + intros j. rewrite Hh. case_decide as E1; case_decide as E2; try done; congruence.
  - intros y j. rewrite Hh, decide_False by done. apply (mg_users _ _ _ Hs).
  - split; [done|]. split; [done|]. split; [done|]. by eexists.
Qed.

Lemma user_ok gone s k i w x l : managed gone s k → forks k = x :: l → users s !! i = Some w →
  ∃ s', let k' := MkKernel ({[x]} ∪ procs k) l (sent k) in
  spawn_user_worker i s k = Some (x, s', k') ∧ managed gone s' k' ∧ (held s (User i) = Some gone → managed 0 s' k') ∧
  (∀ pl, held s' pl = if decide (pl = User i) then Some x else held s pl) ∧ ∃ ws m, s' = with_users s ws m.
Proof.
  intros Hs Hl Hw. destruct (managed_fork gone s k x l Hs Hl) as (H0 & _ & _ & Hk & Hnew & _).
  unfold spawn_user_worker. rewrite Hk. cbn [mbind option_bind]. rewrite (proj2 (Z.ltb_ge x 0)) by lia.
  rewrite Hw. cbn [mbind option_bind].
  rewrite emplace_new; [|apply eq_None_not_Some; intros [j E%(mg_users _ _ _ Hs)]; by destruct (Hnew (User j))|
    apply eq_None_not_Some; intros [j E%(mg_users _ _ _ Hs)]; by destruct (mg_alive _ _ _ Hs _ _ E)].
  eexists. cbv zeta. split; [done|]. set (s' := with_users _ _ _). set (k' := MkKernel _ _ _).
  assert (∀ pl, held s' pl = if decide (pl = User i) then Some x else held s pl) as Hh.
  { apply (held_insert s s' (User i) w x Hw ltac:(lia)). unfold s'. slot_insert. }
  destruct (refill gone s s' k k' (User i) x l Hs Hl) as [? ?]; try done.
  - destruct (mg_num _ _ _ Hs) as (? & ? & ?). cbn. by rewrite length_insert.
  - intros y j. rewrite Hh, decide_False by done. apply (mg_tasks _ _ _ Hs).
  - cbn [s' with_users user_worker_map]. apply (map_refill _ (λ j, held s (User j))).
    + apply (mg_users _ _ _ Hs).
    + intros j. apply Hnew.
    + intros y E. by apply (held_old s (User i) w).
    + intros j E. assert (held s (User i) = Some (pid w)) as E' by (apply held_pid; [done|by eapply mg_alive]).
      pose proof (mg_inj _ _ _ Hs _ _ _ E E') as E2. by injection E2.
    + intros j. rewrite Hh. case_decide as E1; case_decide as E2; try done; congruence.
  - split; [done|]. split; [done|]. split; [done|]. by do 2 eexists.
Qed.

Definition in_range (pl : place) : Prop :=
  match pl with Event i => (i < ne)%nat | Task i => (i < nt)%nat | User i => (i < nu)%nat end.
Definition complete (s : Server) : Prop := ∀ pl, in_range pl → is_Some (held s pl).

Lemma complete_refill s s' pl x : complete s →
  (∀ pl', held s' pl' = if decide (pl' = pl) then Some x else held s pl') → complete s'.
Proof. intros Hc Hh pl' Hr. rewrite Hh. case_decide; [done|by apply Hc]. Qed.

(** What the places depend on. *)
Definition same_places (s s' : Server) : Prop :=
  event_workers s' = event_workers s ∧ tasks s' = tasks s ∧ users s' = users s ∧ user_worker_map s' = user_worker_map s.

Lemma same_held s s' pl : same_places s s' → held s' pl = held s pl.
Proof. intros (E1 & E2 & E3 & _). unfold held, slot. by rewrite E1, E2, E3. Qed.

Lemma same_complete s s' : same_places s s' → complete s → complete s'.
Proof. intros E Hc pl. rewrite (same_held s s') by done. apply Hc. Qed.

Lemma managed_same gone s s' k k' : managed gone s k → same_places s s' → box_ids (Z.of_nat ne + Z.of_nat nt) (message_box s') →
  procs k' = procs k → forks k' = forks k → managed gone s' k'.
Proof.
  intros [Hn Ha Hi Ht Hu _ Hg Hf Hp] E Hb E1 E2. pose proof (λ pl, same_held s s' pl E) as Hh.
  pose proof E as (Ee & Et & Eu & Em).
  split; rewrite ?E1, ?E2, ?Ee, ?Et, ?Eu, ?Em; try done.
  - intros pl x. rewrite Hh. apply Ha.
  - intros pl pl' x. rewrite !Hh. apply Hi.
  - intros x i. rewrite Hh. apply Ht.
  - intros x i. rewrite Hh. apply Hu.
  - by eapply fresh_procs.
Qed.

Lemma managed_weaken gone s k : managed 0 s k → gone ∉ forks k → managed gone s k.
Proof. intros [] Hg. split; try done. intros pl x Hx. destruct (mg_alive0 pl x Hx) as [? [?|?]]; [lia|]. auto. Qed.

Lemma managed_unheld gone s k : managed gone s k → (∀ pl, held s pl ≠ Some gone) → managed 0 s k.
Proof.
  intros Hs Hu. pose proof Hs as []. split; try done.
  - intros pl x Hx. destruct (mg_alive0 pl x Hx) as [? [->|?]]; [by destruct (Hu pl)|auto].
  - intros H. rewrite Forall_forall in mg_forks0. specialize (mg_forks0 0 H). lia.
Qed.

Lemma managed_not_held x s k pl : managed 0 s k → x ∉ procs k → held s pl ≠ Some x.
Proof. intros Hs Hx E. destruct (mg_alive _ _ _ Hs pl x E) as [? [?|?]]; [lia|done]. Qed.

Lemma slot_in_range gone s k pl : managed gone s k → in_range pl → is_Some (slot s pl).
Proof. intros Hs Hr. destruct (mg_num _ _ _ Hs) as (? & ? & ?). destruct pl; cbn in *; apply lookup_lt_is_Some_2; lia. Qed.

(** *** A child has exited *)

Lemma fork_event_ok gone s k x l n : managed gone s k → forks k = x :: l →
  fork_event (S n) k = Some (x, MkKernel ({[x]} ∪ procs k) l (sent k)).
Proof.
  intros Hs Hl. destruct (managed_fork gone s k x l Hs Hl) as (H0 & _ & _ & Hk & _). cbn [fork_event].
  unfold spawn_event_worker. rewrite Hk. cbn [mbind option_bind]. rewrite (proj2 (Z.ltb_ge x 0)) by lia. cbn [mbind option_bind].
  by rewrite (proj2 (Z.ltb_ge x 0)) by lia.
Qed.

Lemma check_same i st s : same_places s (check_worker_exit_status i st s) ∧
  message_box (check_worker_exit_status i st s) = message_box s ∧ running (check_worker_exit_status i st s) = running s.
Proof. unfold check_worker_exit_status. by destruct (_ =? _). Qed.

Lemma check_managed gone i st s k : managed gone s k → managed gone (check_worker_exit_status i st s) k.
Proof.
  intros Hs. destruct (check_same i st s) as (? & E & _). eapply managed_same; try done. rewrite E. apply Hs.
Qed.

Lemma held_event s i w x : event_workers s !! i = Some w → 0 < x → held s (Event i) = Some x ↔ pid w = x.
Proof.
  intros Hw Hx. unfold held. cbn. rewrite Hw. cbn. destruct (Z.eqb_spec (pid w) 0) as [->|]; [split; [done|lia]|].
  split; [by intros [= ->]|by intros ->].
Qed.

Lemma replace_events_none x st s k gone n : managed gone s k → 0 < x → (∀ j, held s (Event j) ≠ Some x) →
  ∀ i, (i + n <= ne)%nat → replace_events n i x st s k = Some (s, k).
Proof.
  intros Hs Hx Hn. induction n as [|n IH]; intros i Hi; cbn [replace_events]; [done|].
  destruct (slot_in_range gone s k (Event i) Hs) as [w Hw]; [cbn; lia|]. cbn in Hw. rewrite Hw. cbn [mbind option_bind].
  destruct (Z.eqb_spec x (pid w)) as [E|E]; cbn [negb]; [|apply IH; lia].
  destruct (Hn i). by apply (held_event s i w x Hw Hx).
Qed.

(** The conclusion of each of the three searches for the process [x]: it has been replaced, or
    it is in none of the places looked at. *)
Definition answered (x : Z) (looked : place → Prop) (s : Server) (k : Kernel) (s' : Server) (k' : Kernel) : Prop :=
  (managed 0 s' k' ∨ managed x s' k' ∧ (∀ pl, looked pl → held s' pl ≠ Some x) ∧ s' = s ∧ k' = k) ∧
  (complete s → complete s') ∧ running s' = running s ∧ procs k ⊆ procs k' ∧ x ∉ procs k'.

Lemma replace_events_ok x st n : ∀ i s k, managed x s k → 0 < x → x ∉ procs k → forks k ≠ [] → (i + n = ne)%nat →
  (∀ j, (j < i)%nat → held s (Event j) ≠ Some x) →
  ∃ s' k', replace_events n i x st s k = Some (s', k') ∧
    answered x (λ pl, ∃ j, pl = Event j) s k s' k'.
Proof.
  induction n as [|n IH]; intros i s k Hs Hx Hp Hk Hi Hlow; cbn [replace_events].
  { exists s, k. split; [done|]. split; [right|done]. split; [done|]. split; [|done]. intros pl [j ->].
    destruct (decide (j < i)%nat) as [|Hge]; [by apply Hlow|]. unfold held. cbn.
    destruct (mg_num _ _ _ Hs) as (? & _). by rewrite lookup_ge_None_2 by lia. }
  destruct (slot_in_range x s k (Event i) Hs) as [w Hw]; [cbn; lia|]. cbn in Hw. rewrite Hw. cbn [mbind option_bind].
  destruct (Z.eqb_spec x (pid w)) as [E|E]; cbn [negb].
  2: { apply IH; try done; [lia|]. intros j Hj. destruct (decide (j = i)) as [->|]; [|apply Hlow; lia].
       rewrite (held_event s i w x Hw Hx). congruence. }
  destruct (check_same (Z.of_nat i) st s) as (Esame & Ebox & Erun). set (s1 := check_worker_exit_status _ st s) in *.
  assert (managed x s1 k) as Hs1 by (by apply check_managed). destruct (forks k) as [|y l] eqn:El; [done|].
  rewrite (fork_event_ok x s1 k y l (length (forks k)) Hs1 El) || rewrite (fork_event_ok x s1 k y l _ Hs1 El).
  cbn [mbind option_bind]. assert (event_workers s1 !! i = Some w) as Hw1 by (by rewrite (proj1 Esame)).
  destruct (event_ok x s1 k i w y l Hs1 El Hw1) as (_ & Hs2 & H0 & Hh). set (s2 := with_events s1 _) in *. set (k2 := MkKernel _ _ _) in *.
  assert (managed 0 s2 k2) as Hs0. { apply H0. rewrite (same_held s s1) by done. by apply (held_event s i w x Hw Hx). }
  destruct (managed_fork x s1 k y l Hs1 El) as (_ & Hyx & _).
  assert (x ∉ procs k2) as Hp2 by (cbn; set_solver).
  rewrite (replace_events_none x st s2 k2 0 n Hs0 Hx); [|intros j; by apply (managed_not_held x s2 k2)|lia].
  exists s2, k2. split; [done|]. split; [by left|]. split; [|split; [done|split; [|done]]].
  - intros Hc. apply (complete_refill s1 s2 (Event i) y); [by apply (same_complete s)|done].
  - cbn. set_solver.
Qed.

Lemma replace_task_ok x st s k : managed 0 s k ∨ managed x s k ∧ forks k ≠ [] → 0 < x → x ∉ procs k →
  ∃ s' k', replace_task x st s k = Some (s', k') ∧ answered x (λ pl, ∃ j, pl = Task j) s k s' k'.
Proof.
  intros Hs Hx Hp. unfold replace_task. destruct (map_ (tasks s) !! x) as [i|] eqn:Ei.
  2: { exists s, k. split; [done|]. split; [|done]. destruct Hs as [Hs|[Hs _]]; [by left|right]. split; [done|].
       split; [|done]. intros pl [j ->] E%(mg_tasks _ _ _ Hs). congruence. }
  destruct Hs as [Hs|[Hs Hk]].
  { apply (mg_tasks _ _ _ Hs) in Ei. by destruct (managed_not_held x s k (Task i) Hs Hp). }
  apply (mg_tasks _ _ _ Hs) in Ei as Hheld. assert (∃ w, workers (tasks s) !! i = Some w) as [w Hw].
  { unfold held in Hheld. cbn in Hheld. destruct (workers (tasks s) !! i) as [w|]; [by exists w|done]. }
  rewrite Hw. cbn [mbind option_bind]. destruct (check_same (id w) st s) as (Esame & Ebox & Erun).
  set (s1 := check_worker_exit_status _ st s) in *. assert (managed x s1 k) as Hs1 by (by apply check_managed).
  destruct (forks k) as [|y l] eqn:El; [done|].
  destruct (task_ok x s1 k i w y l Hs1 El) as (s2 & -> & _ & H0 & Hh & p & Ep); [by rewrite (proj1 (proj2 Esame))|].
  cbn [mbind option_bind]. do 2 eexists. split; [done|]. destruct (managed_fork x s1 k y l Hs1 El) as (_ & Hyx & _).
  split; [left; apply H0; by rewrite (same_held s s1)|]. split; [|split; [by rewrite Ep|split; cbn; set_solver]].
  intros Hc. apply (complete_refill s1 s2 (Task i) y); [by apply (same_complete s)|done].
Qed.

Lemma replace_user_ok x st s k : managed 0 s k ∨ managed x s k ∧ forks k ≠ [] ∧ (∀ j, held s (Task j) ≠ Some x) →
  0 < x → x ∉ procs k →
  ∃ s' k', replace_user x st s k = Some (s', k') ∧ answered x (λ pl, ∃ j, pl = User j) s k s' k'.
Proof.
  intros Hs Hx Hp. unfold replace_user, wait_other_worker.
  assert (∃ g, managed g s k) as [g Hg] by (destruct Hs as [?|[? _]]; by eexists).
  assert (user_worker_map s !! x = None → answered x (λ pl, ∃ j, pl = User j) s k s k) as Hnone.
  { intros En. split; [|done]. destruct Hs as [Hs|[Hs _]]; [by left|right]. split; [done|].
    split; [|done]. intros pl [j ->] E%(mg_users _ _ _ Hs). congruence. }
  case_bool_decide as Hempty; [exists s, k; split; [done|]; apply Hnone; rewrite Hempty; apply lookup_empty|].
  assert (map_ (tasks s) !! x = None) as ->.
  { apply eq_None_not_Some. intros [i E%(mg_tasks _ _ _ Hg)].
    destruct Hs as [Hs|(_ & _ & Hn)]; [by destruct (managed_not_held x s k (Task i) Hs Hp)|by destruct (Hn i)]. }
  destruct (user_worker_map s !! x) as [i|] eqn:Ei; [|by exists s, k; split; [|apply Hnone]]. clear Hnone Hempty.
  destruct Hs as [Hs|(Hs & Hk & _)].
  { apply (mg_users _ _ _ Hs) in Ei. by destruct (managed_not_held x s k (User i) Hs Hp). }
  apply (mg_users _ _ _ Hs) in Ei as Hheld. assert (∃ w, users s !! i = Some w) as [w Hw].
  { unfold held in Hheld. cbn in Hheld. destruct (users s !! i) as [w|]; [by exists w|done]. }
  rewrite Hw. cbn [mbind option_bind]. destruct (check_same (id w) st s) as (Esame & Ebox & Erun).
  set (s1 := check_worker_exit_status _ st s) in *. assert (managed x s1 k) as Hs1 by (by apply check_managed).
  destruct (forks k) as [|y l] eqn:El; [done|].
  destruct (user_ok x s1 k i w y l Hs1 El) as (s2 & -> & _ & H0 & Hh & ws & m & Ep); [by rewrite (proj1 (proj2 (proj2 Esame)))|].
  cbn [mbind option_bind]. do 2 eexists. split; [done|]. destruct (managed_fork x s1 k y l Hs1 El) as (_ & Hyx & _).
  split; [left; apply H0; by rewrite (same_held s s1)|]. split; [|split; [by rewrite Ep|split; cbn; set_solver]].
  intros Hc. apply (complete_refill s1 s2 (User i) y); [by apply (same_complete s)|done].
Qed.

(** Whatever kind of worker has exited, its place is taken again. *)
Lemma on_exit_ok x st m s k : managed x s k → 0 < x → x ∉ procs k → forks k ≠ [] →
  ∃ m' s' k', on_exit x st m s k = Some (m', s', k') ∧ managed 0 s' k' ∧ (complete s → complete s') ∧
    running s' = running s ∧ procs k ⊆ procs k' ∧
    m' = (if (x =? reload_worker_pid m) && reloading m
          then with_progress m (u32 (reload_worker_i m + 1)) (reload_worker_num m) (reload_worker_pid m) (reload_workers m)
          else m).
Proof.
  intros Hs Hx Hp Hk. unfold on_exit. destruct (mg_num _ _ _ Hs) as (Hne & _). rewrite Hne.
  destruct (replace_events_ok x st ne 0 s k Hs Hx Hp Hk) as (s1 & k1 & -> & Ha1 & Hc1 & Hr1 & Hi1 & Hp1); [lia|intros j ?; lia|].
  cbn [mbind option_bind].
  destruct (replace_task_ok x st s1 k1) as (s2 & k2 & -> & Ha2 & Hc2 & Hr2 & Hi2 & Hp2); [|done|done|].
  { destruct Ha1 as [?|(? & _ & -> & ->)]; [by left|by right]. }
  cbn [mbind option_bind].
  destruct (replace_user_ok x st s2 k2) as (s3 & k3 & -> & Ha3 & Hc3 & Hr3 & Hi3 & Hp3); [|done|done|].
  { destruct Ha2 as [?|(? & Hn & -> & ->)]; [by left|]. destruct Ha1 as [?|(? & _ & -> & ->)]; [by left|right].
    split; [done|]. split; [done|]. intros j. apply Hn. by eexists. }
  cbn [mbind option_bind]. do 3 eexists. split; [done|]. split; [|split; [by auto|split; [congruence|split; [set_solver|done]]]].
  destruct Ha3 as [?|(Hs3 & Hn3 & -> & ->)]; [done|]. destruct Ha2 as [?|(_ & Hn2 & -> & ->)]; [done|].
  destruct Ha1 as [?|(_ & Hn1 & -> & ->)]; [done|]. apply (managed_unheld x); [done|].
  intros [j|j|j]; [apply Hn1|apply Hn2|apply Hn3]; by eexists.
Qed.

(** *** Messages, signals, timers *)

Lemma drain_managed gone m fuel : ∀ s k q, managed gone s k → Channel.inv (message_box s) q →
  (length q < fuel)%nat → (length q <= length (forks k))%nat →
  Forall (λ b, zlen b = 8 ∧ ∃ x i, read_message_bytes b = Some (MkMessage x i) ∧ 0 <= i < Z.of_nat ne + Z.of_nat nt) q →
  ∃ s' k', drain fuel m s k = Some (with_message m false, s', k') ∧ managed gone s' k' ∧ (complete s → complete s') ∧
    running s' = running s ∧ killers s' = killers s ∧ procs k ⊆ procs k' ∧ (gone ∉ procs k → gone ∉ procs k') ∧
    (length (forks k) <= length (forks k') + length q)%nat.
Proof.
  induction fuel as [|fuel IH]; intros s k q Hs Hi Hlt Hle Hq; [lia|]. cbn [drain].
  destruct (mg_box _ _ _ Hs) as (_ & _ & Hm & Hfl & Hlk & _). unfold Channel.pop.
  rewrite (proj2 (Z.eqb_neq _ _) Hfl), Hlk. cbn [negb]. unfold sizeof_WorkerStopMessage.
  pose proof (Channel.out_spec (message_box s) q 8 Hi ltac:(lia)) as Ho. destruct q as [|b q].
  { rewrite Ho. cbn [mbind option_bind]. do 2 eexists. split; [done|]. split; [|split; [done|]].
    - apply (managed_same gone s _ k k); try done. apply Hs.
    - split_and!; (done || lia). }
  destruct Ho as (c & -> & Hc & Hmc & _ & Hflc & Hlkc). cbn [mbind option_bind].
  apply Forall_cons in Hq as [(Hb8 & x & i & Eb & Hi0) Hq]. rewrite Hb8. change (8 <=? 0) with false. cbv iota. rewrite Eb.
  cbn [mbind option_bind m_worker_id]. set (s1 := with_box s c). cbn [length] in Hlt, Hle.
  assert (managed gone s1 k) as Hs1.
  { apply (managed_same gone s s1 k k); try done. exists q. cbn [message_box s1 with_box]. by rewrite Hmc, Hflc, Hlkc. }
  assert (∀ s2 k2, managed gone s2 k2 → message_box s2 = c → (complete s → complete s2) → running s2 = running s →
    killers s2 = killers s → procs k ⊆ procs k2 → (gone ∉ procs k → gone ∉ procs k2) →
    (length (forks k) <= length (forks k2) + 1)%nat →
    ∃ s' k', drain fuel m s2 k2 = Some (with_message m false, s', k') ∧ managed gone s' k' ∧ (complete s → complete s') ∧
      running s' = running s ∧ killers s' = killers s ∧ procs k ⊆ procs k' ∧ (gone ∉ procs k → gone ∉ procs k') ∧
      (length (forks k) <= length (forks k') + length (b :: q))%nat) as Hrest.
  { intros s2 k2 Hs2 Eb2 Hc2 Hr2 Hk2 Hp2 Hg2 Hl2. rewrite <- Eb2 in Hc.
    destruct (IH s2 k2 q Hs2 Hc ltac:(lia) ltac:(lia) Hq) as (s' & k' & -> & ? & ? & ? & ? & ? & ? & ?).
    do 2 eexists. split; [done|]. split_and!; try done; [by auto|congruence|congruence|set_solver|by auto|cbn [length]; lia]. }
  destruct (running s1); cbn [negb]; [|apply Hrest; try done; lia].
  destruct (mg_num _ _ _ Hs1) as (Hne & Hnt & _). destruct (forks k) as [|y l] eqn:El; [cbn in Hle; lia|].
  destruct (managed_fork gone s1 k y l Hs1 El) as (Hy0 & Hyg & _). unfold worker_num, zlen. rewrite Hne.
  destruct (Z.leb_spec (Z.of_nat ne) i) as [Hge|Hlt'].
  - destruct (slot_in_range gone s1 k (Task (Z.to_nat (i - Z.of_nat ne))) Hs1) as [w Hw]; [cbn; lia|]. cbn in Hw.
    destruct (task_ok gone s1 k _ w y l Hs1 El Hw) as (s2 & -> & Hs2 & _ & Hh & p & Ep). cbn [mbind option_bind].
    apply Hrest; try (done || by rewrite Ep). { intros Hcm. by eapply (complete_refill s1). } { cbn; set_solver. } { cbn; set_solver. } { cbn; lia. }
  - destruct (slot_in_range gone s1 k (Event (Z.to_nat i)) Hs1) as [w Hw]; [cbn; lia|]. cbn in Hw.
    destruct (event_ok gone s1 k _ w y l Hs1 El Hw) as (-> & Hs2 & _ & Hh). cbn [mbind option_bind].
    rewrite (proj2 (Z.ltb_lt 0 y)) by lia. cbn [event_workers with_box s1]. rewrite Hw. cbn [mbind option_bind].
    apply Hrest; try done. { intros Hcm. by eapply (complete_refill s1). } { cbn; set_solver. } { cbn; set_solver. } { cbn; lia. }
Qed.

(** What the loop knows of a reload. *)
Record reload_wf (m : Manager) : Prop := {
  rw_i : 0 <= reload_worker_i m;
  rw_num : reload_worker_num m = zlen (reload_workers m);
  rw_small : zlen (reload_workers m) < 2 ^ 32;
  rw_pids : Forall (λ w, 0 < pid w) (reload_workers m);
}.

(** Between two turns a reload waits for a process that exists. *)
Definition reload_alive (m : Manager) (k : Kernel) : Prop :=
  reload_wf m ∧ (reloading m = true → reload_worker_pid m ∈ procs k).

Lemma kills_procs l : ∀ k, procs (foldl (λ k x, (openswoole_kill x SIGKILL k).2) k l) = procs k ∧
  forks (foldl (λ k x, (openswoole_kill x SIGKILL k).2) k l) = forks k.
Proof. induction l as [|x l IH]; intros k; cbn [foldl]; [done|]. destruct (IH (openswoole_kill x SIGKILL k).2) as [-> ->]. apply kill_procs. Qed.

Lemma terminate_procs ws : ∀ k, procs (terminate_all k ws) = procs k ∧ forks (terminate_all k ws) = forks k.
Proof.
  unfold terminate_all. induction ws as [|w ws IH]; intros k; cbn [foldl]; [done|].
  destruct (IH (openswoole_kill (pid w) SIGTERM k).2) as [-> ->]. apply kill_procs.
Qed.

Lemma timeout_procs ls : ∀ k, procs (foldl kill_timeout_process k ls) = procs k ∧
  forks (foldl kill_timeout_process k ls) = forks k.
Proof.
  induction ls as [|l ls IH]; intros k; cbn [foldl]; [done|]. destruct (IH (kill_timeout_process k l)) as [-> ->].
  unfold kill_timeout_process. revert k. induction l as [|x l IHl]; intros k; cbn [foldl]; [done|].
  match goal with |- context [foldl ?f ?k1 l] => destruct (IHl k1) as [-> ->] end.
  pose proof (kill_procs x.2 0 k) as [E1 E2]. destruct (openswoole_kill x.2 0 k) as [[e|] k1]; cbn [snd] in *; [done|].
  pose proof (kill_procs x.2 SIGKILL k1) as [-> ->]. done.
Qed.

(** Signals only set flags; a reload that they begin is marked. *)
Lemma signals_managed gone sigs : ∀ m s k, managed gone s k → ∃ m' s' k',
  foldl signal_handler (m, s, k) sigs = (m', s', k') ∧ managed gone s' k' ∧ same_places s s' ∧ message_box s' = message_box s ∧
  procs k' = procs k ∧ forks k' = forks k ∧ (running s' = true → running s = true) ∧
  (reload_wf m → reload_wf m') ∧ reload_worker_pid m' = reload_worker_pid m ∧
  (reloading m' = true → reloading m = true ∨ reload_all_worker m' = true ∨ reload_task_worker m' = true) ∧
  (reload_all_worker m = true → reload_all_worker m' = true) ∧ (reload_task_worker m = true → reload_task_worker m' = true).
Proof.
  induction sigs as [|sig sigs IH]; intros m s k Hs; cbn [foldl]; [exists m, s, k; split_and!; auto; done|].
  assert (∃ m1 s1 k1, signal_handler (m, s, k) sig = (m1, s1, k1) ∧ managed gone s1 k1 ∧ same_places s s1 ∧
    message_box s1 = message_box s ∧ procs k1 = procs k ∧ forks k1 = forks k ∧ (running s1 = true → running s = true) ∧
    (reload_wf m → reload_wf m1) ∧ reload_worker_pid m1 = reload_worker_pid m ∧
    (reloading m1 = true → reloading m = true ∨ reload_all_worker m1 = true ∨ reload_task_worker m1 = true) ∧
    (reload_all_worker m = true → reload_all_worker m1 = true) ∧ (reload_task_worker m = true → reload_task_worker m1 = true))
    as (m1 & s1 & k1 & -> & Hs1 & Hp1 & Hb1 & Hpr1 & Hf1 & Hr1 & Hw1 & Hpid1 & Hre1 & Ha1 & Ht1).
  { unfold signal_handler. destruct (sig =? SIGTERM); [|destruct (sig =? SIGUSR1); [|destruct (sig =? SIGUSR2); [|
      destruct (sig =? SIGIO); [|destruct ((sig =? SIGALRM) && force_kill m)]]]]; do 3 eexists; (split; [done|]).
    - split_and!; auto; try done. eapply managed_same; try done. apply Hs.
    - split_and!; auto; try done; destruct (reloading m) eqn:Er; cbn; auto. intros []; by split.
    - split_and!; auto; try done; destruct (reloading m) eqn:Er; cbn; auto. intros []; by split.
    - split_and!; auto; try done. intros []; by split.
    - pose proof (kills_procs (kill_workers m) k) as [E1 E2]. split_and!; auto; try done. eapply managed_same; try done. apply Hs.
    - split_and!; auto; done. }
  destruct (IH m1 s1 k1 Hs1) as (m2 & s2 & k2 & -> & Hs2 & Hp2 & Hb2 & Hpr2 & Hf2 & Hr2 & Hw2 & Hpid2 & Hre2 & Ha2 & Ht2).
  exists m2, s2, k2. split; [done|]. split; [done|]. split.
  { destruct Hp1 as (? & ? & ? & ?), Hp2 as (? & ? & ? & ?). split_and!; congruence. }
  split_and!; try congruence; auto. intros Hre. destruct (Hre2 Hre) as [H|H]; [|by right].
  destruct (Hre1 H) as [H'|[H'|H']]; auto.
Qed.

Lemma wf_progress m i p : reload_wf m → 0 <= i →
  reload_wf (with_progress m i (zlen (reload_workers m)) p (reload_workers m)).
Proof. intros [] ?. by split. Qed.

(** The label [_kill_worker]: old workers that are gone are passed over, so the reload is over or
    waits for one that exists. *)
Lemma kill_worker_managed gone fuel : ∀ m s k, managed gone s k → reload_wf m →
  (length (reload_workers m) - Z.to_nat (reload_worker_i m) < fuel)%nat →
  ∃ m' s' k', kill_worker fuel m s k = Some (m', s', k') ∧ managed gone s' k' ∧ same_places s s' ∧
    running s' = running s ∧ procs k' = procs k ∧ forks k' = forks k ∧ reload_alive m' k'.
Proof.
  induction fuel as [|fuel IH]; intros m s k Hs Hw Hl; [lia|]. cbn [kill_worker]. pose proof Hw as [Hi Hn Hsm Hpos].
  destruct (reloading m) eqn:Er; cbn [negb].
  2: { exists m, s, k. split_and!; try done. split; [done|]. by rewrite Er. }
  assert (managed gone (count_reload s) k) as Hs1 by (eapply managed_same; try done; apply Hs).
  rewrite Hn. destruct (Z.leb_spec (zlen (reload_workers m)) (reload_worker_i m)) as [Hge|Hlt].
  { do 3 eexists. split; [done|]. split; [eapply managed_same; try done; apply Hs|]. split_and!; try done. }
  destruct (lookup_lt_is_Some_2 (reload_workers m) (Z.to_nat (reload_worker_i m))) as [w Ew]; [unfold zlen in Hlt; lia|].
  rewrite Ew. cbn [mbind option_bind]. assert (0 < pid w) as Hpw by (by eapply Forall_lookup in Hpos).
  unfold openswoole_kill. case_bool_decide as Hd.
  - do 3 eexists. split; [done|]. split; [eapply managed_same; try done; apply Hs|]. split_and!; try done.
    split; [by apply wf_progress|]. intros _. cbn. destruct Hd; [lia|done].
  - cbv [ESRCH ECHILD]. cbn [Z.eqb Pos.eqb orb]. rewrite u32_small by (unfold zlen in *; lia).
    destruct (IH (with_progress m (reload_worker_i m + 1) (zlen (reload_workers m)) (pid w) (reload_workers m)) (count_reload s) k Hs1)
      as (m' & s' & k' & -> & ? & ? & ? & ? & ? & ?).
    + apply wf_progress; [done|lia].
    + cbn. unfold zlen in Hlt. lia.
    + do 3 eexists. split; [done|]. by split_and!.
Qed.

Lemma reload_all_ok gone m s k : managed gone s k → complete s → Z.of_nat ne + Z.of_nat nt < 2 ^ 32 → reload_wf m →
  ∃ m' s' k', reload_all m s k = (m', s', k') ∧ managed gone s' k' ∧ same_places s s' ∧ running s' = running s ∧
    procs k' = procs k ∧ forks k' = forks k ∧ reload_wf m' ∧ message_box s' = message_box s.
Proof.
  intros Hs Hc Hn Hw. unfold reload_all. destruct (reload_init m).
  { do 3 eexists. split; [done|]. split; [eapply managed_same; try done; apply Hs|]. by split_and!. }
  set (s1 := add_timeout_killer _ (call s BeforeReload)).
  set (s2 := if 0 <? task_worker_num s1 then add_timeout_killer (workers (tasks s1)) s1 else s1).
  assert (∀ ws s0, same_places s0 (add_timeout_killer ws s0) ∧ message_box (add_timeout_killer ws s0) = message_box s0 ∧
    running (add_timeout_killer ws s0) = running s0) as Hadd by (intros; unfold add_timeout_killer; by destruct (_ =? _)).
  assert (same_places s s2 ∧ message_box s2 = message_box s ∧ running s2 = running s) as (E2 & Eb & Er).
  { destruct (Hadd (event_workers (call s BeforeReload)) (call s BeforeReload)) as ((E1 & E3 & E4 & E5) & Eb1 & Er1). fold s1 in E1, E3, E4, E5, Eb1, Er1.
    unfold s2. destruct (0 <? task_worker_num s1); [|by split_and!].
    destruct (Hadd (workers (tasks s1)) s1) as ((F1 & F3 & F4 & F5) & Fb1 & Fr1). unfold same_places. rewrite F1, F3, F4, F5, Fb1, Fr1. by split_and!. }
  assert (managed gone s2 k) as Hs2 by (eapply managed_same; try done; rewrite Eb; apply Hs).
  destruct (mg_num _ _ _ Hs2) as (Hne & Hnt & _).
  assert (∀ pl w, slot s2 pl = Some w → 0 < pid w) as Hpos.
  { intros pl w Hw2. assert (in_range pl) as Hr by (destruct (mg_num _ _ _ Hs2) as (? & ? & ?); destruct pl; cbn in *; apply lookup_lt_Some in Hw2; lia).
    destruct (Hc pl Hr) as [y Hy]. rewrite <- (same_held s s2) in Hy by done.
    rewrite <- (held_old s2 pl w y Hw2 Hy). by eapply mg_alive. }
  assert (reload_wf (with_progress (with_flags m (reloading m) false (reload_task_worker m) true) 0
    (zlen (event_workers s2 ++ workers (tasks s2))) (reload_worker_pid m) (event_workers s2 ++ workers (tasks s2)))) as Hwf.
  { split; cbn; [lia|done| |].
    - unfold zlen. rewrite length_app. lia.
    - apply Forall_app. split; apply Forall_lookup; intros i w Ei; [apply (Hpos (Event i))|apply (Hpos (Task i))]; done. }
  destruct (reload_async s2).
  - pose proof (terminate_procs (event_workers s2) k) as [E3 E4]. do 3 eexists. split; [done|].
    split; [eapply managed_same; try done; apply Hs2|]. split_and!; try done.
    destruct Hwf. split; try done. apply zlen_nonneg.
  - do 3 eexists. split; [done|]. by split_and!.
Qed.

Lemma reload_tasks_ok gone m s k : managed gone s k → complete s → Z.of_nat ne + Z.of_nat nt < 2 ^ 32 → reload_wf m →
  ∃ m' s', reload_tasks m s = (m', s') ∧ managed gone s' k ∧ same_places s s' ∧ running s' = running s ∧ reload_wf m'.
Proof.
  intros Hs Hc Hn Hw. unfold reload_tasks. destruct (reload_init m).
  { do 2 eexists. split; [done|]. split; [eapply managed_same; try done; apply Hs|]. by split_and!. }
  set (s1 := add_timeout_killer _ (call s BeforeReload)).
  assert (same_places s s1 ∧ message_box s1 = message_box s ∧ running s1 = running s) as (E1 & Eb & Er).
  { unfold s1, add_timeout_killer. by destruct (_ =? _). }
  assert (managed gone s1 k) as Hs1 by (eapply managed_same; try done; rewrite Eb; apply Hs).
  do 2 eexists. split; [done|]. split_and!; try done. destruct (mg_num _ _ _ Hs1) as (_ & Hnt & _). split; cbn; [lia|done| |].
  - unfold zlen. lia.
  - apply Forall_lookup. intros i w Ei. destruct (Hc (Task i)) as [y Hy]; [cbn; apply lookup_lt_Some in Ei; lia|].
    rewrite <- (same_held s s1) in Hy by done. rewrite <- (held_old s1 (Task i) w y Ei Hy). by eapply mg_alive.
Qed.

(** *** One turn *)

Definition exits (e : ExitStatus) (k : Kernel) : Prop :=
  match e with Exited x _ => 0 < x ∧ x ∈ procs k | Interrupted => True end.

Lemma wait_managed e s k : managed 0 s k → exits e k → managed (gone_by e) s (wait_process e k) ∧
  (gone_by e ∉ procs (wait_process e k) ∨ e = Interrupted) ∧ forks (wait_process e k) = forks k.
Proof.
  intros Hs He. destruct e as [x st|]; [|by split; [|split; [right|]]]. destruct He as [Hx Hp]. cbn [wait_process gone_by forks procs].
  split; [|split; [left; set_solver|done]]. pose proof Hs as []. split; try done.
  - intros pl y Hy. destruct (mg_alive0 pl y Hy) as [? [?|?]]; [lia|]. split; [done|].
    destruct (decide (y = x)); [by left|right; set_solver].
  - intros H. by destruct (ff_new _ mg_fresh0 x H).
  - destruct mg_fresh0 as [? Hn]. split; [done|]. cbn. intros y Hy. destruct (Hn y Hy). split; [done|set_solver].
Qed.

Lemma manager_turn_ok sigs due e m s k : managed 0 s k → complete s → reload_alive m k → running s = true →
  exits e k → Z.of_nat ne + Z.of_nat nt < 2 ^ 32 → Channel.count (message_box s) < zlen (forks k) →
  ∃ b m' s' k', manager_turn sigs due e m s k = Some (b, m', s', k') ∧
    (running s' = true → managed 0 s' k' ∧ complete s' ∧ reload_alive m' k').
Proof.
  intros Hs Hc [Hw Ha] Hr He Hn Hcount. unfold manager_turn. rewrite Hr. cbn [negb].
  destruct (wait_managed e s k Hs He) as (Hs0 & Hgone & Ef0). set (k0 := wait_process e k) in *.
  destruct (signals_managed (gone_by e) sigs m s k0 Hs0) as
    (m1 & s1 & k1 & -> & Hs1 & Hpl1 & Hb1 & Hp1 & Hf1 & Hr1 & Hw1 & Hpid1 & Hre1 & _).
  specialize (Hw1 Hw). apply (same_complete s s1 Hpl1) in Hc. rewrite <- Hb1, <- Ef0, <- Hf1 in Hcount.
  assert (∃ m2 s2 k2, (if read_message m1 then drain (S (Z.to_nat (Channel.count (message_box s1)))) m1 s1 k1
      else Some (m1, s1, k1)) = Some (m2, s2, k2) ∧ managed (gone_by e) s2 k2 ∧ complete s2 ∧ running s2 = running s1 ∧
      procs k1 ⊆ procs k2 ∧ (gone_by e ∉ procs k1 → gone_by e ∉ procs k2) ∧ forks k2 ≠ [] ∧
      (m2 = m1 ∨ m2 = with_message m1 false)) as (m2 & s2 & k2 & -> & Hs2 & Hc2 & Hr2 & Hi2 & Hg2 & Hk2 & Em2).
  { destruct (mg_box _ _ _ Hs1) as (q & Hq & _ & _ & _ & Hids).
    assert (Channel.count (message_box s1) = zlen q) as Eq by (unfold Channel.count; apply Hq). rewrite Eq in *. unfold zlen in Hcount |- *.
    rewrite Nat2Z.id. destruct (read_message m1).
    - destruct (drain_managed (gone_by e) m1 (S (length q)) s1 k1 q Hs1 Hq ltac:(lia) ltac:(lia) Hids)
        as (s2 & k2 & -> & ? & ? & ? & ? & ? & ? & Hl). do 3 eexists. split; [done|]. split_and!; auto.
      intros E. rewrite E in Hl. cbn in Hl. lia.
    - do 3 eexists. split; [done|]. split_and!; auto. intros E. rewrite E in Hcount. cbn in Hcount. lia. }
  cbn [mbind option_bind]. pose proof (timeout_procs (take due (killers s2)) k2) as [Hp3 Hf3].
  set (k3 := foldl kill_timeout_process k2 _) in *. set (s3 := with_killers s2 _).
  assert (managed (gone_by e) s3 k3) as Hs3 by (eapply managed_same; try done; apply Hs2).
  assert (complete s3) as Hc3 by (by apply (same_complete s2)).
  assert (reload_wf m2) as Hw2 by (destruct Em2 as [-> | ->]; [done|by destruct Hw1]).
  assert (∀ g m4 s4 k4, managed g s4 k4 → complete s4 → reload_wf m4 → (running s4 = true → g = 0) → ∃ b m' s' k',
    ('(m, s, k) ← kill_worker (S (length (reload_workers m4))) m4 s4 k4; Some (true, m, s, k)) = Some (b, m', s', k') ∧
    (running s' = true → managed 0 s' k' ∧ complete s' ∧ reload_alive m' k')) as Hkill.
  { intros g m4 s4 k4 Hs4 Hc4 Hw4 H0. destruct (kill_worker_managed g (S (length (reload_workers m4))) m4 s4 k4 Hs4 Hw4 ltac:(lia))
      as (m' & s' & k' & -> & Hs' & Hpl & Hr' & _ & _ & Halive). cbn [mbind option_bind]. do 4 eexists. split; [done|].
    intros Hrun. rewrite Hr' in Hrun. rewrite (H0 Hrun) in Hs'. split; [done|]. split; [by apply (same_complete s4)|done]. }
  destruct e as [x st|]; cbn [gone_by] in *.
  - destruct (running s3) eqn:Er3; [|apply (Hkill x); try done; by rewrite Er3].
    assert (x ∉ procs k3) as Hx3 by (destruct Hgone as [Hg|]; [|done]; rewrite Hp3; apply Hg2; by rewrite Hp1).
    destruct (on_exit_ok x st m2 s3 k3 Hs3 ltac:(apply He) Hx3) as (m4 & s4 & k4 & -> & Hs4 & Hc4 & _ & _ & Em4); [by rewrite Hf3|].
    cbn [mbind option_bind]. apply (Hkill 0); auto. rewrite Em4. destruct (_ && _); [|done]. destruct Hw2. split; try done.
    cbn. by apply (wrap_range 32).
  - destruct (reloading m2) eqn:Ere; cbn [negb].
    2: { do 4 eexists. split; [done|]. intros _. split; [done|]. split; [done|]. split; [done|]. by rewrite Ere. }
    assert (reload_all_worker m2 = reload_all_worker m1 ∧ reload_task_worker m2 = reload_task_worker m1 ∧
      reloading m2 = reloading m1 ∧ reload_worker_pid m2 = reload_worker_pid m1) as (Ea & Et & Er & Ep) by (by destruct Em2 as [-> | ->]).
    destruct (reload_all_worker m2) eqn:Eall.
    { destruct (reload_all_ok 0 m2 s3 k3 Hs3 Hc3 Hn Hw2) as (m4 & s4 & k4 & -> & Hs4 & Hpl4 & _ & _ & _ & Hw4 & _).
      apply (Hkill 0); try done. by apply (same_complete s3). }
    destruct (reload_task_worker m2) eqn:Etask.
    { destruct (task_worker_num s3 =? 0).
      - do 4 eexists. split; [done|]. intros _. split; [done|]. split; [done|]. split; [by destruct Hw2|done].
      - destruct (reload_tasks_ok 0 m2 s3 k3 Hs3 Hc3 Hn Hw2) as (m4 & s4 & -> & Hs4 & Hpl4 & _ & Hw4).
        apply (Hkill 0); try done. by apply (same_complete s3). }
    do 4 eexists. split; [done|]. intros _. split; [done|]. split; [done|]. split; [done|]. intros _.
    rewrite Ep, Hpid1, Hp3. destruct (Hre1 ltac:(congruence)) as [H|[H|H]]; [|congruence..].
    specialize (Ha H). cbn in Hp1. rewrite <- Hp1 in Ha. set_solver.
Qed.

(** *** The start *)

Lemma start_events_ok n : ∀ i s k, managed 0 s k → (i + n = ne)%nat → (n <= length (forks k))%nat →
  ∃ s' k', start_events n i s k = Some (OSW_OK, s', k') ∧ managed 0 s' k' ∧ running s' = running s ∧
    forks k' = drop n (forks k) ∧
    ∀ pl, is_Some (held s pl) ∨ (∃ j, pl = Event j ∧ (i <= j < ne)%nat) → is_Some (held s' pl).
Proof.
  induction n as [|n IH]; intros i s k Hs Hi Hn; cbn [start_events].
  { exists s, k. split_and!; try done. intros pl [?|(j & -> & ?)]; [done|lia]. }
  destruct (forks k) as [|x l] eqn:El; [cbn in Hn; lia|].
  destruct (slot_in_range 0 s k (Event i) Hs) as [w Hw]; [cbn; lia|]. cbn in Hw.
  destruct (event_ok 0 s k i w x l Hs El Hw) as (-> & Hs1 & _ & Hh). cbn [mbind option_bind].
  destruct (managed_fork 0 s k x l Hs El) as (H0 & _). rewrite (proj2 (Z.ltb_ge x 0)) by lia. rewrite Hw. cbn [mbind option_bind].
  destruct (IH (S i) _ _ Hs1) as (s' & k' & -> & ? & ? & ? & Hall); [lia|cbn in *; lia|].
  do 2 eexists. split; [done|]. split_and!; try done. intros pl Hpl. apply Hall. rewrite Hh.
  destruct Hpl as [?|(j & -> & ?)]; [left; by case_decide|]. destruct (decide (j = i)) as [->|]; [left; by rewrite decide_True|].
  right. exists j. split; [done|lia].
Qed.

Lemma start_users_ok n : ∀ i s k, managed 0 s k → (i + n = nu)%nat → (n <= length (forks k))%nat →
  ∃ s' k', start_users n i s k = Some (OSW_OK, s', k') ∧ managed 0 s' k' ∧ running s' = running s ∧
    ∀ pl, is_Some (held s pl) ∨ (∃ j, pl = User j ∧ (i <= j < nu)%nat) → is_Some (held s' pl).
Proof.
  induction n as [|n IH]; intros i s k Hs Hi Hn; cbn [start_users].
  { exists s, k. split_and!; try done. intros pl [?|(j & -> & ?)]; [done|lia]. }
  destruct (forks k) as [|x l] eqn:El; [cbn in Hn; lia|].
  destruct (slot_in_range 0 s k (User i) Hs) as [w Hw]; [cbn; lia|]. cbn in Hw.
  destruct (user_ok 0 s k i w x l Hs El Hw) as (s1 & -> & Hs1 & _ & Hh & ws & mm & Es1). cbn [mbind option_bind].
  destruct (managed_fork 0 s k x l Hs El) as (H0 & _). rewrite (proj2 (Z.ltb_ge x 0)) by lia.
  destruct (IH (S i) _ _ Hs1) as (s' & k' & -> & ? & Hr & Hall); [lia|cbn in *; lia|].
  do 2 eexists. split; [done|]. split_and!; try done; [by rewrite Hr, Es1|]. intros pl Hpl. apply Hall. rewrite Hh.
  destruct Hpl as [?|(j & -> & ?)]; [left; by case_decide|]. destruct (decide (j = i)) as [->|]; [left; by rewrite decide_True|].
  right. exists j. split; [done|lia].
Qed.

Lemma start_tasks_ok n : ∀ i s k, managed 0 s k → (i + n = nt)%nat → (n <= length (forks k))%nat →
  ∃ p' k', spawn_from n i (tasks s) k = Some (OSW_OK, p', k') ∧ managed 0 (with_tasks s p') k' ∧
    forks k' = drop n (forks k) ∧
    ∀ pl, is_Some (held s pl) ∨ (∃ j, pl = Task j ∧ (i <= j < nt)%nat) → is_Some (held (with_tasks s p') pl).
Proof.
  induction n as [|n IH]; intros i s k Hs Hi Hn; cbn [spawn_from].
  { exists (tasks s), k. assert (with_tasks s (tasks s) = s) as -> by (by destruct s). split_and!; try done.
    intros pl [?|(j & -> & ?)]; [done|lia]. }
  destruct (forks k) as [|x l] eqn:El; [cbn in Hn; lia|].
  destruct (slot_in_range 0 s k (Task i) Hs) as [w Hw]; [cbn; lia|]. cbn in Hw.
  destruct (task_ok 0 s k i w x l Hs El Hw) as (s1 & Esp & Hs1 & _ & Hh & p1 & ->). unfold spawn_task_worker in Esp.
  destruct (spawn i (tasks s) k) as [[[y p2] k2]|]; [|done]. cbn [mbind option_bind] in Esp |- *.
  injection Esp as -> -> ->.
  destruct (managed_fork 0 s k x l Hs El) as (H0 & _). rewrite (proj2 (Z.ltb_ge x 0)) by lia.
  destruct (IH (S i) _ _ Hs1) as (p' & k' & E' & ? & ? & Hall); [lia|cbn in *; lia|]. cbn [tasks with_tasks] in E'. rewrite E'.
  do 2 eexists. split; [done|]. split_and!; try done. intros pl Hpl. apply Hall. rewrite Hh.
  destruct Hpl as [?|(j & -> & ?)]; [left; by case_decide|]. destruct (decide (j = i)) as [->|]; [left; by rewrite decide_True|].
  right. exists j. split; [done|lia].
Qed.

(** A server whose workers have been created and not started. *)
Record unstarted (s : Server) : Prop := {
  us_num : length (event_workers s) = ne ∧ length (workers (tasks s)) = nt ∧ length (users s) = nu;
  us_none : ∀ pl w, slot s pl = Some w → pid w = 0;
  us_maps : map_ (tasks s) = ∅ ∧ user_worker_map s = ∅;
  us_ipc : ipc_mode (settings (tasks s)) ≠ OSW_IPC_SOCKET;
  us_box : box_ids (Z.of_nat ne + Z.of_nat nt) (message_box s);
}.

Lemma unstarted_managed s k : unstarted s → fresh_forks k → Forall (λ x, 0 < x) (forks k) → managed 0 s k.
Proof.
  intros [Hn H0 [Ht Hu] _ Hb] Hf Hp. assert (∀ pl, held s pl = None) as Hh.
  { intros pl. unfold held. destruct (slot s pl) as [w|] eqn:E; [|done]. cbn. by rewrite (H0 pl w E). }
  split; try done.
  - intros pl x. by rewrite Hh.
  - intros pl pl' x. by rewrite Hh.
  - intros x i. by rewrite Ht, Hh, lookup_empty.
  - intros x i. by rewrite Hu, Hh, lookup_empty.
  - intros H. by destruct (ff_new _ Hf 0 H).
Qed.

Lemma start_workers_ok s k : unstarted s → fresh_forks k → Forall (λ x, 0 < x) (forks k) →
  (nt + ne + nu <= length (forks k))%nat →
  ∃ s' k', start_workers s k = Some (OSW_OK, s', k') ∧ managed 0 s' k' ∧ complete s' ∧ running s' = running s.
Proof.
  intros Hu Hf Hp Hl. pose proof (unstarted_managed s k Hu Hf Hp) as Hs. unfold start_workers.
  assert (∃ s1 k1, (if 0 <? task_worker_num s then
      '(r, p, k) ← ProcessPool.start (tasks s) k; Some (r, with_tasks s p, k) else Some (OSW_OK, s, k)) = Some (OSW_OK, s1, k1) ∧
    managed 0 s1 k1 ∧ running s1 = running s ∧ forks k1 = drop nt (forks k) ∧ ∀ j, (j < nt)%nat → is_Some (held s1 (Task j)))
    as (s1 & k1 & -> & Hs1 & Hr1 & Hf1 & Hh1).
  { destruct (us_num _ Hu) as (_ & Hnt & _). unfold task_worker_num, zlen. rewrite Hnt.
    destruct (Z.ltb_spec 0 (Z.of_nat nt)) as [H0|H0].
    2: { assert (nt = 0%nat) as E0 by lia. exists s, k. rewrite E0. split_and!; try done. intros j ?. lia. }
    unfold ProcessPool.start. rewrite (bool_decide_eq_false_2 _ (us_ipc _ Hu)). cbn [andb].
    rewrite length_imap, Hnt. match goal with |- context [spawn_from nt 0 ?q k] => set (p0 := q) end.
    assert (managed 0 (with_tasks s p0) k) as Hs0.
    { apply unstarted_managed; [|done|done]. pose proof Hu as [Hn Hz [Ht Hum] Hi Hb]. split; try done.
      - cbn. by rewrite length_imap.
      - intros [i|i|i] w Hw; [by apply (Hz (Event i))| |by apply (Hz (User i))]. cbn in Hw.
        apply list_lookup_imap_Some in Hw as (w' & Hw' & ->). exact (Hz (Task i) w' Hw'). }
    destruct (start_tasks_ok nt 0 (with_tasks s p0) k Hs0 ltac:(lia) ltac:(lia)) as (p' & k' & E & Hs' & Hf' & Hall).
    cbn [tasks with_tasks] in E. rewrite E. cbn [mbind option_bind]. do 2 eexists. split; [done|].
    split; [done|]. split; [done|]. split; [done|]. intros j Hj. apply (Hall (Task j)). right. exists j. split; [done|lia]. }
  cbn [mbind option_bind]. change (OSW_OK =? OSW_ERR) with false. cbv iota. destruct (mg_num _ _ _ Hs1) as (Hne & _). rewrite Hne.
  destruct (start_events_ok ne 0 s1 k1 Hs1 ltac:(lia)) as (s2 & k2 & -> & Hs2 & Hr2 & Hf2 & Hh2); [rewrite Hf1, length_drop; lia|].
  cbn [mbind option_bind]. change (OSW_OK =? OSW_ERR) with false. cbv iota. destruct (mg_num _ _ _ Hs2) as (_ & _ & Hnu). rewrite Hnu.
  destruct (start_users_ok nu 0 s2 k2 Hs2 ltac:(lia)) as (s3 & k3 & -> & Hs3 & Hr3 & Hh3); [rewrite Hf2, Hf1, !length_drop; lia|].
  do 2 eexists. split; [done|]. split; [done|]. split; [|congruence].
  intros [j|j|j] Hj; cbn in Hj; apply Hh3.
  - left. apply Hh2. right. exists j. split; [done|lia].
  - left. apply Hh2. left. by apply Hh1.
  - right. exists j. split; [done|lia].
Qed.

(** *** Every run *)

(** What happens to the server: a worker announces that it leaves, or the manager makes a turn. *)
Inductive manager_step : Manager * Server * Kernel → Manager * Server * Kernel → Prop :=
  | step_stop self i manager_pid padding m s k s' k' : zlen padding = 2 → 0 <= i < Z.of_nat ne + Z.of_nat nt →
      stop_message self i manager_pid padding s k = Some (s', k') → manager_step (m, s, k) (m, s', k')
  | step_turn sigs due e m s k m' s' k' : exits e k → Channel.count (message_box s) < zlen (forks k) →
      manager_turn sigs due e m s k = Some (true, m', s', k') → manager_step (m, s, k) (m', s', k').

Lemma message_read self i padding : 0 <= i < 2 ^ 16 → zlen padding = 2 → ∃ x,
  read_message_bytes (message_bytes (MkMessage self i) padding) = Some (MkMessage x i).
Proof.
  intros Hi Hp. unfold read_message_bytes, message_bytes. cbn [m_pid m_worker_id].
  assert (load (le_bytes 4 (u32 self) ++ le_bytes 2 (u16 i) ++ padding) 0 4 = Some (le_bytes 4 (u32 self))) as ->.
  { apply (load_mid []); [done|]. unfold zlen. by rewrite le_bytes_length. }
  cbn [mbind option_bind].
  rewrite load_mid by (unfold zlen; by rewrite ?le_bytes_length). cbn [mbind option_bind]. eexists. do 2 f_equal.
  rewrite u16_small, le_val_bytes by lia. apply Z.mod_small. lia.
Qed.

Lemma stop_message_ok self i mp padding gone s k s' k' : managed gone s k → zlen padding = 2 →
  0 <= i < Z.of_nat ne + Z.of_nat nt → Z.of_nat ne + Z.of_nat nt <= 2 ^ 16 →
  stop_message self i mp padding s k = Some (s', k') →
  managed gone s' k' ∧ same_places s s' ∧ running s' = running s ∧ procs k' = procs k.
Proof.
  intros Hs Hp Hi Hn E. unfold stop_message in E. destruct (mg_box _ _ _ Hs) as (q & Hq & Hm & Hfl & Hlk & Hids).
  unfold Channel.push in E. rewrite (proj2 (Z.eqb_neq _ _) Hfl), Hlk in E. cbn [negb] in E.
  set (b := message_bytes _ _) in E. assert (zlen b = 8) as Hb8.
  { unfold b, message_bytes. rewrite !zlen_app, Hp. unfold zlen. by rewrite !le_bytes_length. }
  assert (∃ r c, Channel.in_ (message_box s) b = Some (r, c) ∧ box_ids (Z.of_nat ne + Z.of_nat nt) c) as (r & c & Ei & Hc).
  { destruct (Channel.in_spec _ _ b Hq ltac:(lia)) as [(c & -> & Hc & E1 & _ & E2 & E3)|[-> _]].
    - exists OSW_OK, c. split; [done|]. exists (q ++ [b]). rewrite E1, E2, E3. split_and!; try done.
      apply Forall_app. split; [done|]. apply Forall_singleton. split; [done|].
      destruct (message_read self i padding ltac:(lia) Hp) as [x Ex]. by exists x, i.
    - exists OSW_ERR, (message_box s). split; [done|]. by exists q. }
  rewrite Ei in E. cbn [mbind option_bind] in E. injection E as <- <-.
  destruct (kill_procs mp SIGIO k) as [E1 E2].
  assert (procs (if r <? 0 then k else (openswoole_kill mp SIGIO k).2) = procs k ∧
    forks (if r <? 0 then k else (openswoole_kill mp SIGIO k).2) = forks k) as [E3 E4] by (by destruct (r <? 0)).
  split; [|done]. by eapply managed_same.
Qed.

Definition good (x : Manager * Server * Kernel) : Prop :=
  let '(m, s, k) := x in running s = true → managed 0 s k ∧ complete s ∧ reload_alive m k.

Lemma manager_step_ok x y : Z.of_nat ne + Z.of_nat nt <= 2 ^ 16 → manager_step x y → good x → good y.
Proof.
  intros Hn [self i mp pad m s k s' k' Hp Hi E|sigs due e m s k m' s' k' He Hc E] Hx Hr; cbn [good] in Hx.
  - unfold stop_message in E. destruct (Channel.push _ _) as [[r c]|] eqn:Epush; [|done].
    assert (running s = true) as Hrs by (cbn [mbind option_bind] in E; by injection E as <- _).
    destruct (Hx Hrs) as (Hs & Hcm & Hw & Ha).
    destruct (stop_message_ok self i mp pad 0 s k s' k' Hs Hp Hi Hn) as (Hs' & Hpl & _ & Hpr).
    { unfold stop_message. by rewrite Epush. }
    split; [done|]. split; [by apply (same_complete s)|]. split; [done|]. by rewrite Hpr.
  - destruct (running s) eqn:Ers.
    + destruct (Hx eq_refl) as (Hs & Hcm & Ha). destruct (manager_turn_ok sigs due e m s k Hs Hcm Ha Ers He ltac:(lia) Hc)
        as (b & m1 & s1 & k1 & E1 & H). rewrite E in E1. injection E1 as <- <- <- <-. by apply H.
    + unfold manager_turn in E. by rewrite Ers in E.
Qed.
End Managed.

(** C36: the manager keeps the server's workers.  From the start of a server with any numbers of
    event workers, task workers and user processes, whatever exits, announces its leaving or is
    reloaded, as long as [fork] succeeds and no process number is used twice: between two turns
    every place is held by an existing process that is in no other place, a reload in progress
    waits for a process that exists, and the next turn returns. *)
Theorem manager_keeps_workers ne nt nu s0 k0 :
  unstarted ne nt nu s0 → fresh_forks k0 → Forall (λ x, 0 < x) (forks k0) → (nt + ne + nu <= length (forks k0))%nat →
  Z.of_nat ne + Z.of_nat nt <= 2 ^ 16 →
  ∃ s1 k1, start_workers s0 k0 = Some (OSW_OK, s1, k1) ∧
    ∀ m2 s2 k2, rtc (manager_step ne nt) (manager_zero, s1, k1) (m2, s2, k2) → running s2 = true →
      (∀ pl, in_range ne nt nu pl → ∃ x, held s2 pl = Some x ∧ x ∈ procs k2 ∧ ∀ pl', held s2 pl' = Some x → pl' = pl) ∧
      (reloading m2 = true → reload_worker_pid m2 ∈ procs k2) ∧
      (∀ sigs due e, exits e k2 → Channel.count (message_box s2) < zlen (forks k2) →
        is_Some (manager_turn sigs due e m2 s2 k2)).
Proof.
  intros Hu Hf Hp Hl Hn. destruct (start_workers_ok ne nt nu s0 k0 Hu Hf Hp Hl) as (s1 & k1 & E1 & Hs1 & Hc1 & _).
  exists s1, k1. split; [done|]. intros m2 s2 k2 Hsteps Hr2.
  assert (good ne nt nu (m2, s2, k2)) as Hg.
  { remember (manager_zero, s1, k1) as x eqn:Ex. assert (good ne nt nu x) as Hx.
    { rewrite Ex. intros _. split; [done|]. split; [done|]. split; [|done]. by split. }
    clear Ex. remember (m2, s2, k2) as y eqn:Ey. clear Ey. induction Hsteps as [|x y z H _ IH]; [done|].
    apply IH. by apply (manager_step_ok ne nt nu x). }
  destruct (Hg Hr2) as (Hs2 & Hc2 & Hw2 & Ha2). split; [|split; [done|]].
  - intros pl Hpl. destruct (Hc2 pl Hpl) as [x Hx]. exists x. split; [done|].
    destruct (mg_alive _ _ _ _ _ _ Hs2 pl x Hx) as [? [?|?]]; [lia|]. split; [done|].
    intros pl' Hx'. by apply (mg_inj _ _ _ _ _ _ Hs2 pl' pl x).
  - intros sigs due e He Hc. destruct (manager_turn_ok ne nt nu sigs due e m2 s2 k2 Hs2 Hc2 (conj Hw2 Ha2) Hr2 He ltac:(lia) Hc)
      as (b & m3 & s3 & k3 & -> & _). done.
Qed.

(** ** Witnesses *)

Definition demo_server (ne nt nu : nat) : Server :=
  let w := MkWorker 0 0 0 0 0 in
  MkServer true (replicate ne w)
    (MkPool false false false (ProcessPool.MkReload false false 0 0 [] 0) (replicate nt w) ∅ demo_box 0 false (demo_settings 0))
    (replicate nu w) ∅ demo_box 0 false 0 [] [].

Lemma demo_box_ids n : box_ids n demo_box.
Proof.
  destruct (Channel.ring_make_inv 65536 8 OSW_CHAN_FLAGS (replicate (Z.to_nat 65548) 0)) as (c & E & Hi & _); [lia..| |].
  { unfold zlen. by rewrite length_replicate, Z2Nat.id. }
  change (Some (Some demo_box) = Some (Some c)) in E. injection E as <-. by exists [].
Qed.

Lemma demo_unstarted ne nt nu : unstarted ne nt nu (demo_server ne nt nu).
Proof.
  split; cbn [event_workers tasks users workers user_worker_map map_ settings ipc_mode message_box demo_server].
  - by rewrite !length_replicate.
  - intros [i|i|i] w Hw; cbn in Hw; by apply lookup_replicate in Hw as [-> _].
  - done.
  - done.
  - apply demo_box_ids.
Qed.

Lemma manager_keeps_workers_witness :
  let k0 := MkKernel {[1]} [11; 12; 13; 14; 15; 16] [] in
  ∃ s1 k1, start_workers (demo_server 2 1 1) k0 = Some (OSW_OK, s1, k1) ∧
    ∀ m2 s2 k2, rtc (manager_step 2 1) (manager_zero, s1, k1) (m2, s2, k2) → running s2 = true →
      (∀ pl, in_range 2 1 1 pl → ∃ x, held s2 pl = Some x ∧ x ∈ procs k2 ∧ ∀ pl', held s2 pl' = Some x → pl' = pl) ∧
      (reloading m2 = true → reload_worker_pid m2 ∈ procs k2) ∧
      (∀ sigs due e, exits e k2 → Channel.count (message_box s2) < zlen (forks k2) →
        is_Some (manager_turn sigs due e m2 s2 k2)).
Proof.
  apply manager_keeps_workers.
  - apply demo_unstarted.
  - split; cbn [forks procs].
    + apply (bool_decide_unpack _). vm_compute. done.
    + intros x Hx. rewrite !elem_of_cons in Hx. rewrite elem_of_singleton. rewrite elem_of_nil in Hx. lia.
  - repeat constructor.
  - cbn. lia.
  - cbn. lia.
Defined.

(** ** Where the manager fails *)

Definition after (r : option (bool * Manager * Server * Kernel))
  (f : Manager → Server → Kernel → option (bool * Manager * Server * Kernel)) :
  option (bool * Manager * Server * Kernel) := '(_, m, s, k) ← r; f m s k.
Definition started (ne nt : nat) (fk : list Z) : option (bool * Manager * Server * Kernel) :=
  '(_, s, k) ← start_workers (demo_server ne nt 0) (MkKernel {[1]} fk []); Some (true, manager_zero, s, k).
Definition seen (r : option (bool * Manager * Server * Kernel)) : option (bool * list Z * list callback) :=
  '(_, m, s, _) ← r; Some (reloading m, (pid <$> event_workers s) ++ (pid <$> workers (tasks s)), calls s).

(** The request to reload arrives, but [wait] returns a child that has exited: the reload is
    over before it has begun, and no other worker is replaced. *)
Example reload_lost :
  seen (after (started 2 0 [11; 12; 21]) (manager_turn [SIGUSR1] 0 (Exited 12 0))) =
  Some (false, [11; 21], [AfterReload]).
Proof. vm_compute. done. Qed.

(** When [fork] fails, an event worker is tried again; the place of a task worker stays
    empty, though the pool still has its number. *)
Example event_worker_retried :
  seen (after (started 1 1 [11; 12; -1; -1; 21]) (manager_turn [] 0 (Exited 12 0))) = Some (false, [21; 11], []).
Proof. vm_compute. done. Qed.
Example task_worker_lost :
  let r := after (started 1 1 [11; 12; -1; 21]) (manager_turn [] 0 (Exited 11 0)) in
  seen r = Some (false, [12; 11], []) ∧ ('(_, _, s, k) ← r; Some (bool_decide (11 ∈ procs k), map_ (tasks s) !! 11)) = Some (false, Some 0%nat).
Proof. vm_compute. done. Qed.

(** A request to reload task workers that do not exist is remembered: the next interruption of
    a reload of all workers ends it. *)
Example remembered_request_ends_reload :
  let r := after (started 2 0 [11; 12; 21; 22]) (manager_turn [SIGUSR2] 0 Interrupted) in
  let r := after r (manager_turn [SIGUSR1] 0 Interrupted) in
  let r := after r (manager_turn [SIGALRM] 0 Interrupted) in
  let r := after r (manager_turn [] 0 (Exited 11 0)) in
  seen r = Some (false, [21; 12], [BeforeReload]).
Proof. vm_compute. done. Qed.

(** A reload in which one of the old workers leaves before its turn: it is passed over, and
    the reload ends. *)
Example reload_passes_over :
  let r := after (started 2 1 [11; 12; 13; 21; 22; 23]) (manager_turn [SIGUSR1] 0 Interrupted) in
  let r := after r (manager_turn [] 0 (Exited 13 9)) in
  let r := after r (manager_turn [] 0 (Exited 12 0)) in
  let r := after r (manager_turn [] 0 (Exited 11 0)) in
  seen r = Some (false, [22; 21; 23], [BeforeReload; WorkerError 1 9; AfterReload]).
Proof. vm_compute. done. Qed.
