(* ===== verification/File.v ===== *)
(** * Files: os/file.cc and include/openswoole_file.h

    The file system is a map from names to contents; the kernel decides how much each read
    or write moves and when it is interrupted, by a list of answers. *)

From S2P Require Import Prelude SwString NetSocket.

Abbreviation FS := (gmap bytes bytes).

(** The kernel's answer to one call: it moves at most so many bytes, none, or fails. *)
Inductive io_answer := Did (n : positive) | Nothing | Failed (err : Z).
#[global] Instance io_answer_eq_dec : EqDecision io_answer.
Proof. solve_decision. Defined.

(** [pwrite] of [d] at [off]; a gap is filled with zeros. *)
Definition pwrite (content : bytes) (off : Z) (d : bytes) : bytes :=
  take (Z.to_nat off) (content ++ replicate (Z.to_nat off - length content) 0) ++ d ++
  drop (Z.to_nat off + length d) content.

(** [File::write_all]: the bytes written, the contents and the answers left. *)
Fixpoint write_all (append : bool) (kernel : list io_answer) (content data : bytes) (written : Z) :
  option (Z * bytes * list io_answer) :=
  if negb (written <? zlen data) then Some (written, content, kernel) else
  match kernel with
  | [] => None
  | Did n :: kernel =>
    let d := take (Pos.to_nat n) (drop (Z.to_nat written) data) in
    write_all append kernel (if append then content ++ d else pwrite content written d) data (written + zlen d)
  | Nothing :: kernel => Some (written, content, kernel)
  | Failed e :: kernel =>
    if e =? EINTR then write_all append kernel content data written else Some (written, content, kernel)
  end.

(** [File::read_all]: the bytes read into a buffer of [len]. *)
Fixpoint read_all (kernel : list io_answer) (content : bytes) (len : Z) (got : bytes) :
  option (bytes * list io_answer) :=
  if negb (zlen got <? len) then Some (got, kernel) else
  match kernel with
  | [] => None
  | Did n :: kernel =>
    let d := take (Pos.to_nat n) (take (Z.to_nat (len - zlen got)) (drop (length got) content)) in
    if bool_decide (d = []) then Some (got, kernel) else read_all kernel content len (got ++ d)
  | Nothing :: kernel => Some (got, kernel)
  | Failed e :: kernel => if e =? EINTR then read_all kernel content len got else Some (got, kernel)
  end.

Definition OSW_MAX_FILE_CONTENT : Z := 64 * 1024 * 1024.

(** [file_get_size]: of a name, [None] for -1. *)
Definition file_get_size (fs : FS) (name : bytes) : option Z := zlen <$> fs !! name.

(** [file_get_contents]: [None] inside for a null pointer. *)
Definition file_get_contents (fs : FS) (kernel : list io_answer) (fresh : nat → bytes) (name : bytes) :
  option (option String) :=
  match fs !! name with
  | None => Some None
  | Some content =>
    let filesize := zlen content in
    if filesize =? 0 then Some None
    else if OSW_MAX_FILE_CONTENT <? filesize then Some None
    else
      let s := alloc fresh (filesize + 1) in
      '(got, _) ← read_all kernel content filesize [];
      m ← store (s_str s) 0 got;
      m ← store m (zlen got) [0];
      Some (Some (MkString (zlen got) (s_size s) (s_offset s) m))
  end.

(** [file_put_contents]: the number of bytes written is its result, as a truth value; [opened]
    says whether the file can be opened for writing. *)
Definition file_put_contents (fs : FS) (kernel : list io_answer) (opened : bool) (name content : bytes) :
  option (bool * FS) :=
  if zlen content <=? 0 then Some (false, fs)
  else if OSW_MAX_FILE_CONTENT <? zlen content then Some (false, fs)
  else if negb opened then Some (false, fs)
  else '(n, c, _) ← write_all false kernel [] content 0; Some (negb (n =? 0), <[name := c]> fs).

(** ** Whole transfers *)

(** A kernel that interrupts calls but always gets on. *)
Definition gets_on (kernel : list io_answer) : Prop :=
  Forall (λ a, a = Failed EINTR ∨ ∃ n, a = Did n) kernel.
Definition moves (kernel : list io_answer) : nat := length (filter (λ a, a ≠ Failed EINTR) kernel).

Lemma moves_cons a k : moves (a :: k) = (if decide (a = Failed EINTR) then moves k else S (moves k)).
Proof. unfold moves. rewrite filter_cons. by repeat case_decide. Qed.

Lemma pwrite_end content d off : Z.of_nat (length content) = off → pwrite content off d = content ++ d.
Proof.
  intros <-. unfold pwrite. rewrite Nat2Z.id, Nat.sub_diag. cbn [replicate]. rewrite app_nil_r, take_ge, drop_ge by lia.
  by rewrite app_nil_r.
Qed.

(** [write_all] writes everything, in order, however the kernel divides it. *)
Lemma write_all_exact append data kernel : gets_on kernel → ∀ content written, 0 <= written <= zlen data →
  (length (drop (Z.to_nat written) data) <= moves kernel)%nat → (append = false → zlen content = written) →
  ∃ rest, write_all append kernel content data written = Some (zlen data, content ++ drop (Z.to_nat written) data, rest) ∧
    gets_on rest ∧ (moves kernel <= moves rest + length (drop (Z.to_nat written) data))%nat.
Proof.
  intros Hk. induction Hk as [|a kernel Ha Hk IH]; intros content written Hw Hm Hc; cbn [write_all].
  - cbn in Hm. rewrite length_drop in Hm. assert (written = zlen data) as -> by (unfold zlen in *; lia).
    rewrite Z.ltb_irrefl. cbn [negb]. rewrite drop_ge by (unfold zlen; lia). rewrite app_nil_r. eexists. split; [done|]. split; [by constructor|cbn; lia].
  - destruct (Z.ltb_spec written (zlen data)) as [Hlt|Hge]; cbn [negb].
    2: { assert (written = zlen data) as -> by lia. rewrite drop_ge by (unfold zlen; lia). rewrite app_nil_r. eexists. split; [done|]. split; [by constructor|lia]. }
    destruct Ha as [->|[n ->]]; [by apply IH|]. rewrite moves_cons, decide_False in Hm by done.
    set (r := drop (Z.to_nat written) data) in *. assert (0 < length r)%nat as Hr by (unfold r; rewrite length_drop; unfold zlen in *; lia).
    set (d := take (Pos.to_nat n) r). assert (0 < length d <= length r)%nat as Hd by (unfold d; rewrite length_take; lia).
    assert (drop (Z.to_nat (written + zlen d)) data = drop (length d) r) as Er.
    { unfold r. rewrite drop_drop. f_equal. unfold zlen. lia. }
    assert (d ++ drop (length d) r = r) as Esplit.
    { unfold d. rewrite length_take. destruct (decide (Pos.to_nat n <= length r)%nat) as [|Hgt].
      - rewrite Nat.min_l by lia. apply take_drop.
      - rewrite Nat.min_r by lia. rewrite take_ge, drop_ge by lia. by rewrite app_nil_r. }
    assert (length r = Z.to_nat (zlen data - written)) as Hlr by (unfold r; rewrite length_drop; unfold zlen in *; lia).
    destruct (IH (if append then content ++ d else pwrite content written d) (written + zlen d)) as (rest & -> & Hrest & Hmv).
    + unfold zlen in *. lia.
    + rewrite Er, length_drop. lia.
    + intros ->. rewrite pwrite_end, zlen_app by (by rewrite <- (Hc eq_refl)). by rewrite (Hc eq_refl).
    + exists rest. rewrite Er, length_drop in Hmv. rewrite moves_cons, decide_False by done.
      split; [|split; [done|lia]]. rewrite Er. do 3 f_equal. destruct append; [|rewrite pwrite_end by (by rewrite <- (Hc eq_refl))];
        by rewrite <- (assoc_L (++)), Esplit.
Qed.

(** [read_all] of a length that the file has reads exactly its beginning. *)
Lemma read_all_exact content len kernel : gets_on kernel → ∀ got, got `prefix_of` content → zlen got <= len <= zlen content →
  (Z.to_nat (len - zlen got) <= moves kernel)%nat →
  ∃ rest, read_all kernel content len got = Some (take (Z.to_nat len) content, rest).
Proof.
  intros Hk. induction Hk as [|a kernel Ha Hk IH]; intros got Hp Hl Hm; cbn [read_all].
  - cbn in Hm. assert (len = zlen got) as -> by lia. rewrite Z.ltb_irrefl. cbn [negb]. destruct Hp as [r ->].
    rewrite take_app_length' by (unfold zlen; lia). by eexists.
  - destruct (Z.ltb_spec (zlen got) len) as [Hlt|Hge]; cbn [negb].
    2: { assert (len = zlen got) as -> by lia. destruct Hp as [r ->]. rewrite take_app_length' by (unfold zlen; lia). by eexists. }
    destruct Ha as [->|[n ->]]; [by apply IH|]. rewrite moves_cons, decide_False in Hm by done.
    destruct Hp as [r ->]. rewrite drop_app_length. rewrite zlen_app in Hl.
    set (d := take (Pos.to_nat n) (take (Z.to_nat (len - zlen got)) r)).
    assert (0 < zlen d <= len - zlen got) as Hd by (unfold d, zlen in *; rewrite !length_take; lia).
    rewrite bool_decide_eq_false_2 by (intros E; apply (f_equal zlen) in E; change (zlen (@nil Z)) with 0 in E; lia).
    apply IH.
    + unfold d. rewrite take_take. exists (drop (Pos.to_nat n `min` Z.to_nat (len - zlen got)) r).
      by rewrite <- (assoc_L (++)), take_drop.
    + rewrite !zlen_app. lia.
    + rewrite zlen_app. lia.
Qed.

(** What [file_put_contents] has written [file_get_contents] reads. *)
Theorem contents_roundtrip fs k1 k2 fresh name data : (∀ n, length (fresh n) = n) →
  0 < zlen data <= OSW_MAX_FILE_CONTENT → gets_on k1 → gets_on k2 →
  (length data <= moves k1)%nat → (length data <= moves k2)%nat →
  ∃ fs' s, file_put_contents fs k1 true name data = Some (true, fs') ∧
    file_get_contents fs' k2 fresh name = Some (Some s) ∧ s_length s = zlen data ∧ load (s_str s) 0 (zlen data) = Some data.
Proof.
  intros Hfr Hd Hk1 Hk2 Hm1 Hm2. unfold file_put_contents. rewrite (proj2 (Z.leb_gt _ _)), (proj2 (Z.ltb_ge _ _)) by lia.
  destruct (write_all_exact false data k1 Hk1 [] 0) as (r1 & -> & _); [lia|done|done|]. cbn [mbind option_bind negb].
  rewrite (proj2 (Z.eqb_neq _ _)) by lia. change (drop (Z.to_nat 0) data) with data. cbn [Datatypes.app].
  do 2 eexists. split; [done|]. unfold file_get_contents. rewrite lookup_insert_eq.
  rewrite (proj2 (Z.eqb_neq _ _)), (proj2 (Z.ltb_ge _ _)) by lia.
  destruct (read_all_exact data (zlen data) k2 Hk2 []) as [r2 ->]; [apply prefix_nil|rewrite zlen_nil; lia|rewrite zlen_nil; unfold zlen; lia|].
  rewrite take_ge by (unfold zlen; lia). cbn [mbind option_bind].
  destruct (alloc_wf fresh Hfr (zlen data + 1)) as (Hwf & _ & Hsz); [unfold OSW_MAX_FILE_CONTENT in Hd; lia|].
  set (s := alloc fresh (zlen data + 1)) in *. assert (zlen data + 1 <= zlen (s_str s)) as Hroom by (destruct Hwf as (? & ? & ?); lia).
  pose proof (store_behind [] (s_str s) data ltac:(lia)) as E1. cbn [Datatypes.app] in E1. change (zlen (@nil Z)) with 0 in E1. rewrite E1.
  cbn [mbind option_bind]. rewrite store_behind by (change (zlen [0]) with 1; unfold zlen in *; rewrite length_drop; lia). cbn [mbind option_bind].
  split; [done|]. split; [done|]. cbn [s_str]. by apply (load_mid []).
Qed.

(** A write that stops in the middle counts as success. *)
Example partial_put_succeeds :
  file_put_contents ∅ [Did 2; Failed EIO] true (lit "f") (lit "abcd") = Some (true, {[lit "f" := lit "ab"]}).
Proof. vm_compute. done. Qed.
