(* ===== verification/TaskWorker.v ===== *)
(** * Task workers: server/task_worker.cc, the worker loops of os/process_pool.cc, network/stream.cc

    A worker gives a task to a task worker as a message with a header; data that does not fit
    goes through a temporary file.  The task worker takes messages from a pipe, a message
    queue or a stream socket, runs the task and sends the result back: as a message, or, for
    a worker that waits, through memory that both share. *)

From S2P Require Import Prelude SwString Pipe NetSocket File.

(** ** Task data *)

Definition OSW_TASK_TMPFILE : Z := 1.
Definition OSW_TASK_NONBLOCK : Z := 4.
Definition OSW_TASK_CALLBACK : Z := 8.
Definition OSW_TASK_WAITALL : Z := 16.
Definition OSW_TASK_COROUTINE : Z := 32.
Definition OSW_TASK_PEEK : Z := 64.
Definition OSW_TASK_NOREPLY : Z := 128.

(** [OSW_TASK_TYPE] is the member [server_fd]. *)
Definition set_task_type (h : DataHead) (t : Z) : DataHead :=
  MkDataHead (fd h) (msg_id h) (len h) (reactor_id h) (type h) (flags h) (u16 t) (ext_flags h) (time h).
Definition task_has (h : DataHead) (flag : Z) : bool := negb (Z.land (server_fd h) flag =? 0).

(** [data] is an array of [OSW_IPC_BUFFER_SIZE] bytes. *)
Record EventData := MkEvent { info : DataHead; data : bytes }.

Definition OSW_TASK_TMP_PATH_SIZE : Z := 256.
Definition sizeof_PacketTask : Z := 8 + OSW_TASK_TMP_PATH_SIZE.

(** [openswoole_strlcpy]. *)
Definition openswoole_strlcpy (dest src : bytes) (size : Z) : option (Z * bytes) :=
  if size =? 0 then Some (zlen src, dest) else
  let n := Z.min (zlen src) (size - 1) in
  d ← store dest 0 (take (Z.to_nat n) src ++ [0]);
  Some (zlen src, d).

(** [struct PacketTask]: the length and the name of the file. *)
Definition packet_task (length_ : Z) (tmpfile : bytes) : option bytes :=
  '(_, name) ← openswoole_strlcpy (replicate (Z.to_nat OSW_TASK_TMP_PATH_SIZE) 0) tmpfile OSW_TASK_TMP_PATH_SIZE;
  Some (le_bytes 8 (u64 length_) ++ name).

(** The files and the kernel's answers for them; [tmp] are the names that [make_tmpfile] gives,
    [None] when it fails. *)
Record Files := MkFiles { fs : FS; tmp : list (option bytes); io : list io_answer }.

Definition make_tmpfile (f : Files) : option (option bytes * Files) :=
  match tmp f with
  | [] => None
  | None :: l => Some (None, MkFiles (fs f) l (io f))
  | Some name :: l => Some (Some name, MkFiles (<[name := []]> (fs f)) l (io f))
  end.

(** [EventData::pack]. *)
Definition pack (_data : bytes) (e : EventData) (f : Files) : option (bool * EventData * Files) :=
  if zlen _data <? OSW_IPC_MAX_SIZE - sizeof_DataHead then
    d ← store (data e) 0 _data;
    Some (true, MkEvent (set_len (info e) (u32 (zlen _data))) d, f)
  else
    '(name, f) ← make_tmpfile f;
    match name with
    | None => Some (false, e, f)
    | Some name =>
      '(n, c, k) ← write_all false (io f) [] _data 0;
      let f := MkFiles (<[name := c]> (fs f)) (tmp f) k in
      if negb (n =? zlen _data) then Some (false, e, f) else
      let h := set_len (info e) sizeof_PacketTask in
      let h := set_task_type h (Z.lor (server_fd h) OSW_TASK_TMPFILE) in
      pkg ← packet_task (zlen _data) name;
      d ← store (data e) 0 pkg;
      Some (true, MkEvent h d, f)
    end.

(** [EventData::unpack]. *)
Definition unpack (fresh : nat → bytes) (e : EventData) (b : String) (f : Files) : option (bool * String * Files) :=
  pkg ← load (data e) 0 sizeof_PacketTask;
  let length_ := le_val (take 8 pkg) in
  name ← cstr (drop 8 pkg);
  match fs f !! name with
  | None => Some (false, b, f)
  | Some content =>
    b ← (if s_size b <? length_ then SwString.extend fresh b length_ else Some b);
    '(got, k) ← read_all (io f) content length_ [];
    m ← store (s_str b) 0 got;
    let f := MkFiles (fs f) (tmp f) k in
    if negb (zlen got =? length_) then Some (false, MkString (s_length b) (s_size b) (s_offset b) m, f) else
    let f := if task_has (info e) OSW_TASK_PEEK then f else MkFiles (delete name (fs f)) (tmp f) (io f) in
    Some (true, MkString length_ (s_size b) (s_offset b) m, f)
  end.

(** What a receiver of the message reads: from the file when the flag says so. *)
Definition task_data (fresh : nat → bytes) (e : EventData) (b : String) (f : Files) : option (option bytes * Files) :=
  if task_has (info e) OSW_TASK_TMPFILE then
    '(ok, b, f) ← unpack fresh e b f;
    if ok : bool then d ← load (s_str b) 0 (s_length b); Some (Some d, f) else Some (None, f)
  else d ← load (data e) 0 (len (info e)); Some (Some d, f).

(** ** The message queue: os/msg_queue.cc *)

Abbreviation queue := (list (Z * datagram)).

(** [msgrcv]: the first message, or with a type the first of that type. *)
Fixpoint msgrcv (mtype : Z) (q : queue) : option (Z * datagram * queue) :=
  match q with
  | [] => None
  | (t, d) :: q =>
    if (mtype =? 0) || (mtype =? t) then Some (t, d, q)
    else '(t', d', q) ← msgrcv mtype q; Some (t', d', (t, d) :: q)
  end.

(** ** The loop of a worker: [ProcessPool_worker_loop] *)

Inductive ipc := FromPipe | FromQueue | FromSocket.
#[global] Instance ipc_eq_dec : EqDecision ipc.
Proof. solve_decision. Defined.

(** What the wait for a task brings: a message of [n] bytes with its header, an error, and on a
    socket a connection that cannot be accepted or that fails. *)
Inductive arrival :=
  | Message (n : Z) (h : DataHead) (d : bytes)
  | NoMessage (err : Z)
  | NoConnection (err : Z)
  | BadConnection.

(** [tasks] are those given to [onTask], with the results; [last_connection] and the
    connections that were freed are numbered from 0; [selects] counts the runs of the timer. *)
Record Loop := MkLoop {
  task_n : Z; worker_task_always : bool; mtype : Z; tasks : list (datagram * Z);
  connections : nat; last_connection : option nat; freed : list nat; ended : list nat;
  signal_alarm : bool; selects : Z
}.

Section Loop.
Variable mode : ipc.
Variable onTask : DataHead → bytes → Z.
Variable has_timer : bool.

Definition loop_begin (max_request worker_id : Z) (schedule_by_sysvmsg : bool) : Loop :=
  MkLoop (if max_request <=? 0 then 1 else max_request) (max_request <=? 0)
    (if schedule_by_sysvmsg then 0 else worker_id + 1) [] 0 None [] [] false 0.

Definition with_connection (l : Loop) (n : nat) (c : option nat) (f : list nat) : Loop :=
  MkLoop (task_n l) (worker_task_always l) (mtype l) (tasks l) n c f (ended l) (signal_alarm l) (selects l).

(** The label [_alarm_handler]. *)
Definition alarm_handler (l : Loop) : Loop :=
  MkLoop (task_n l) (worker_task_always l) (mtype l) (tasks l) (connections l) (last_connection l) (freed l) (ended l)
    false (selects l + 1).

(** [onTask] and the end of the answer on a socket. *)
Definition do_task (h : DataHead) (d : bytes) (l : Loop) : Z * Loop :=
  let ret := onTask h d in
  let l := MkLoop (task_n l) (worker_task_always l) (mtype l) (tasks l ++ [((h, d), ret)]) (connections l)
    (last_connection l) (freed l) (ended l) (signal_alarm l) (selects l) in
  (ret, match mode, last_connection l with
        | FromSocket, Some c =>
          MkLoop (task_n l) (worker_task_always l) (mtype l) (tasks l) (connections l) None (freed l ++ [c]) (ended l ++ [c])
            (signal_alarm l) (selects l)
        | _, _ => l
        end).

Definition count_task (ret : Z) (l : Loop) : Loop :=
  MkLoop (if (0 <=? ret) && negb (worker_task_always l) then task_n l - 1 else task_n l) (worker_task_always l) (mtype l)
    (tasks l) (connections l) (last_connection l) (freed l) (ended l) (signal_alarm l) (selects l).

(** One turn; [false] when the loop is left. *)
Definition loop_turn (a : arrival) (l : Loop) : bool * Loop :=
  match a with
  | NoConnection e => (bool_decide (e ∈ [EAGAIN; EINTR]), l)
  | BadConnection => (true, with_connection l (S (connections l)) (last_connection l) (freed l ++ [connections l]))
  | NoMessage e =>
    if bool_decide (mode = FromQueue) && negb (e =? EINTR) then (false, l)
    else (true, if (e =? EINTR) && signal_alarm l && has_timer then alarm_handler l else l)
  | Message n h d =>
    let l := if bool_decide (mode = FromSocket)
             then with_connection l (S (connections l)) (Some (connections l)) (freed l) else l in
    if negb (n =? len h + sizeof_DataHead) then (true, l) else
    let '(ret, l) := do_task h d l in
    (true, if signal_alarm l then alarm_handler l else count_task ret l)
  end.

Definition raise_alarm (b : bool) (l : Loop) : Loop :=
  MkLoop (task_n l) (worker_task_always l) (mtype l) (tasks l) (connections l) (last_connection l) (freed l) (ended l)
    (b || signal_alarm l) (selects l).

(** The loop over what arrives, while the pool runs and no shutdown is asked for; an arrival
    comes with whether an alarm has come before it.  The
    list that is left over shows that the loop was left. *)
Fixpoint worker_loop (as_ : list (bool * arrival)) (l : Loop) : list (bool * arrival) * Loop :=
  if negb (0 <? task_n l) then (as_, l) else
  match as_ with
  | [] => ([], l)
  | (b, a) :: as' =>
    let '(go, l) := loop_turn a (raise_alarm b l) in
    if go then worker_loop as' l else (as', l)
  end.

(** The loop on a message queue, which takes messages by type: [msgrcv] also writes the type
    that it has found. *)
Fixpoint queue_loop (fuel : nat) (q : queue) (l : Loop) : queue * Loop :=
  match fuel with
  | O => (q, l)
  | S fuel =>
    if negb (0 <? task_n l) then (q, l) else
    match msgrcv (mtype l) q with
    | None => (q, l)
    | Some (t, (h, d), q) =>
      let l := MkLoop (task_n l) (worker_task_always l) t (tasks l) (connections l) (last_connection l) (freed l) (ended l)
        (signal_alarm l) (selects l) in
      let '(_, l) := loop_turn (Message (sizeof_DataHead + zlen d) h d) l in
      queue_loop fuel q l
    end
  end.
End Loop.

(** ** Streams: network/stream.cc *)

(** [Stream::send] on the buffer of the stream, and what [Stream_onConnect] sends. *)
Definition stream_send (fresh : nat → bytes) (pagesize : Z) (b : option String) (d : bytes) : option String :=
  let b := match b with
    | Some b => b
    | None => let s := alloc fresh (openswoole_size_align (zlen d + 4) pagesize) in
              MkString 4 (s_size s) (s_offset s) (s_str s)
    end in
  append fresh b d.
Definition stream_connected (b : String) : option bytes :=
  m ← store (s_str b) 0 (be_bytes 4 (u32 (s_length b - 4)));
  load m 0 (s_length b).

(** [Stream::recv_blocking] on the bytes that arrive before the peer closes: the result and
    what was written to a buffer of [size] bytes. *)
Definition stream_recv (incoming : bytes) (size : Z) : Z * bytes :=
  let head := take 4 incoming in
  if bool_decide (head = []) then (OSW_ERR, []) else
  let length_ := i32 (be_val (take 4 (head ++ replicate 4 0))) in
  if (length_ <=? 0) || (i32 size <? length_) then (OSW_ERR, []) else
  let body := take (Z.to_nat length_) (drop 4 incoming) in
  (zlen body, body).

(** ** The answer: [Server::reply_task_result] *)

Definition OSW_SERVER_EVENT_FINISH : Z := 7.
Definition OSW_SERVER_EVENT_PIPE_MESSAGE : Z := 8.

(** What the answer works on: the messages in the pipes of the workers, the memory that they
    share for results, the notifications, and the connection of the current stream task. *)
Record Answers := MkAnswers {
  files : Files; inbox : gmap Z (list EventData); result : gmap Z EventData;
  notified : gmap Z Z; stream : option bytes
}.

Section Reply.
Variable task_worker_num : Z.
Variable known : Z → bool. (* get_worker finds it *)
Variable self : Z. (* OpenSwooleWG.worker->id *)
Variable now : Z.
Variable head_bytes : DataHead → bytes. (* the memory of the header *)
Variable junk : bytes. (* the array of a new EventData *)
Variable send_ok : bool. (* the message or the stream takes the bytes *)
Variable notify_ok : bool. (* the notification pipe takes them in the end *)

Definition zero_head : DataHead := MkDataHead 0 0 0 0 0 0 0 0 0.
Definition finish_head (h : DataHead) (reactor : Z) (t flags_ : Z) : DataHead :=
  MkDataHead (fd h) 0 0 reactor OSW_SERVER_EVENT_FINISH 0 (u16 flags_) 0 t.

(** The flags of the answer to a task that nobody waits for. *)
Definition answer_flags (h : DataHead) (flags_ : Z) : Z :=
  if task_has h OSW_TASK_CALLBACK then Z.lor flags_ OSW_TASK_CALLBACK
  else if task_has h OSW_TASK_COROUTINE then Z.lor flags_ OSW_TASK_COROUTINE
  else flags_.

Definition reply_nonblock (d : bytes) (flags_ : Z) (cur : DataHead) (source : Z) (a : Answers) :
  option (Z * Answers) :=
  let e := MkEvent (finish_head cur self now (answer_flags cur flags_)) junk in
  '(ok, e, f) ← pack d e (files a);
  let a := MkAnswers f (inbox a) (result a) (notified a) (stream a) in
  if negb ok then Some (OSW_ERR, a) else
  match stream a with
  | Some wire =>
    if send_ok then
      Some (zlen d, MkAnswers (files a) (inbox a) (result a) (notified a) (Some (wire ++ be_bytes 4 (u32 (zlen d)) ++ d)))
    else Some (OSW_ERR, a)
  | None =>
    if send_ok then
      Some (sizeof_DataHead + len (info e),
        MkAnswers (files a) (<[source := default [] (inbox a !! source) ++ [e]]> (inbox a)) (result a) (notified a) (stream a))
    else Some (OSW_ERR, a)
  end.

(** The result of a task of [taskWaitAll] is appended to the file whose name is in the shared
    memory behind the number of results. *)
Definition reply_waitall (d : bytes) (flags_ : Z) (cur : DataHead) (source : Z) (a : Answers) : option Answers :=
  r ← result a !! source;
  name ← cstr (drop 4 (data r));
  match fs (files a) !! name with
  | None => Some a
  | Some content =>
    let e := MkEvent (finish_head cur 0 0 flags_) junk in
    '(ok, e, f) ← pack d e (files a);
    let e := if ok : bool then e else MkEvent (set_len (info e) 0) (data e) in
    body ← load (data e) 0 (len (info e));
    '(_, c, k) ← write_all true (io f) (default [] (fs f !! name)) (head_bytes (info e) ++ body) 0;
    n ← load (data r) 0 4;
    m ← store (data r) 0 (le_bytes 4 (u32 (le_val n + 1)));
    Some (MkAnswers (MkFiles (<[name := c]> (fs f)) (tmp f) k) (inbox a) (<[source := MkEvent (info r) m]> (result a))
      (notified a) (stream a))
  end.

Definition reply_wait (d : bytes) (flags_ : Z) (cur : DataHead) (source : Z) (a : Answers) : option (bool * Answers) :=
  r ← result a !! source;
  let h := info r in
  let h := MkDataHead (fd cur) (msg_id h) (len h) (reactor_id h) OSW_SERVER_EVENT_FINISH (flags h) (u16 flags_) (ext_flags h) (time h) in
  '(ok, r, f) ← pack d (MkEvent h (data r)) (files a);
  Some (ok, MkAnswers f (inbox a) (<[source := r]> (result a)) (notified a) (stream a)).

Definition notify (source : Z) (a : Answers) : Z * Answers :=
  if notify_ok
  then (8, MkAnswers (files a) (inbox a) (result a) (<[source := default 0 (notified a !! source) + 1]> (notified a)) (stream a))
  else (OSW_ERR, a).

Definition reply_task_result (d : bytes) (flags_ : Z) (cur : DataHead) (a : Answers) : option (Z * Answers) :=
  if task_worker_num <? 1 then Some (OSW_ERR, a)
  else if type cur =? OSW_SERVER_EVENT_PIPE_MESSAGE then Some (OSW_ERR, a)
  else if task_has cur OSW_TASK_NOREPLY then Some (OSW_ERR, a) else
  let source := u16 (reactor_id cur) in
  if negb (known source) then Some (OSW_ERR, a)
  else if task_has cur OSW_TASK_NONBLOCK then reply_nonblock d flags_ cur source a
  else if task_has cur OSW_TASK_WAITALL then
    a ← reply_waitall d flags_ cur source a; Some (notify source a)
  else
    '(ok, a) ← reply_wait d flags_ cur source a;
    if negb ok then Some (OSW_ERR, a) else Some (notify source a).
End Reply.

(** ** Round trip of the data *)

(** A file system that still has a name to give, and a kernel that gets on. *)
Record files_ready (name : bytes) (n : nat) (f : Files) : Prop := {
  fr_name : ∃ l, tmp f = Some name :: l;
  fr_new : fs f !! name = None;
  fr_text : 0 ∉ name ∧ zlen name < OSW_TASK_TMP_PATH_SIZE;
  fr_io : gets_on (io f) ∧ (n <= moves (io f))%nat;
}.

Lemma packet_task_spec n name : 0 <= n < 2 ^ 64 → 0 ∉ name → zlen name < OSW_TASK_TMP_PATH_SIZE →
  ∃ rest, packet_task n name = Some (le_bytes 8 n ++ name ++ 0 :: rest) ∧ zlen (name ++ 0 :: rest) = 256.
Proof.
  intros Hn H0 Hl. unfold packet_task, openswoole_strlcpy. change (OSW_TASK_TMP_PATH_SIZE =? 0) with false. cbv iota.
  unfold OSW_TASK_TMP_PATH_SIZE in *. pose proof (zlen_nonneg name).
  rewrite Z.min_l by lia. rewrite take_ge by (unfold zlen; lia). set (z := replicate (Z.to_nat 256) 0).
  assert (zlen z = 256) as Hz by done.
  pose proof (store_behind [] z (name ++ [0])) as E. cbn [Datatypes.app] in E. change (zlen (@nil Z)) with 0 in E.
  rewrite E by (rewrite zlen_app, Hz; change (zlen [0]) with 1; lia). cbn [mbind option_bind].
  rewrite u64_small by lia. exists (drop (length (name ++ [0])) z). rewrite <- (assoc_L (++)). split; [done|].
  rewrite zlen_app, zlen_cons. unfold zlen in *. rewrite length_drop, length_app. cbn [length]. lia.
Qed.

Lemma tmpfile_flag h : task_has (set_task_type h (Z.lor (server_fd h) OSW_TASK_TMPFILE)) OSW_TASK_TMPFILE = true.
Proof.
  unfold task_has, set_task_type, OSW_TASK_TMPFILE. cbn [server_fd]. apply negb_true_iff, Z.eqb_neq. intros E.
  assert (Z.testbit (Z.land (u16 (Z.lor (server_fd h) 1)) 1) 0 = true) as Hb; [|by rewrite E in Hb].
  rewrite Z.land_spec. unfold u16, wrap. rewrite Z.mod_pow2_bits_low by lia. by rewrite Z.lor_spec, orb_true_r.
Qed.
Lemma peek_flag h t : task_has (set_task_type (set_len h t) (Z.lor (server_fd (set_len h t)) OSW_TASK_TMPFILE)) OSW_TASK_PEEK =
  task_has h OSW_TASK_PEEK.
Proof.
  unfold task_has, set_task_type, set_len, OSW_TASK_TMPFILE, OSW_TASK_PEEK. cbn [server_fd]. f_equal. f_equal.
  apply Z.bits_inj'. intros i Hi. rewrite !Z.land_spec. change 64 with (2 ^ 6). rewrite Z.pow2_bits_eqb by lia.
  destruct (Z.eqb_spec 6 i) as [<-|]; [|by rewrite !andb_false_r]. unfold u16, wrap.
  rewrite Z.mod_pow2_bits_low, Z.lor_spec by lia. by rewrite orb_false_r.
Qed.

Section Data.
Variable fresh : nat → bytes.
Hypothesis fresh_length : ∀ n, length (fresh n) = n.

Lemma pack_small d e f : zlen (data e) = OSW_IPC_BUFFER_SIZE → zlen d < OSW_IPC_MAX_SIZE - sizeof_DataHead →
  pack d e f = Some (true, MkEvent (set_len (info e) (zlen d)) (d ++ drop (length d) (data e)), f).
Proof.
  intros He Hd. unfold pack. rewrite (proj2 (Z.ltb_lt _ _) Hd). pose proof (zlen_nonneg d).
  pose proof (store_behind [] (data e) d) as E. cbn [Datatypes.app] in E. change (zlen (@nil Z)) with 0 in E.
  rewrite E by (rewrite He; unfold OSW_IPC_BUFFER_SIZE; lia). cbn [mbind option_bind].
  rewrite u32_small by (unfold OSW_IPC_MAX_SIZE, sizeof_DataHead in *; lia). done.
Qed.

Lemma pack_large d e f name : zlen (data e) = OSW_IPC_BUFFER_SIZE → OSW_IPC_MAX_SIZE - sizeof_DataHead <= zlen d < 2 ^ 62 →
  files_ready name (length d) f →
  ∃ k rest, pack d e f = Some (true,
      MkEvent (set_task_type (set_len (info e) sizeof_PacketTask) (Z.lor (server_fd (set_len (info e) sizeof_PacketTask)) OSW_TASK_TMPFILE))
        (le_bytes 8 (zlen d) ++ (name ++ 0 :: rest) ++ drop 264 (data e)),
      MkFiles (<[name := d]> (<[name := []]> (fs f))) (tl (tmp f)) k) ∧
    zlen (name ++ 0 :: rest) = 256 ∧ gets_on k ∧ (moves (io f) <= moves k + length d)%nat.
Proof.
  intros He Hd [[l El] Hnew [H0 Hname] [Hg Hm]]. unfold pack. rewrite (proj2 (Z.ltb_ge _ _)) by lia.
  unfold make_tmpfile. rewrite El. cbn [mbind option_bind io fs].
  pose proof (zlen_nonneg d). destruct (write_all_exact false d (io f) Hg [] 0) as (k & -> & Hk & Hmk); [lia|done|done|].
  change (drop (Z.to_nat 0) d) with d in *. cbn [mbind option_bind Datatypes.app]. rewrite Z.eqb_refl. cbn [negb].
  destruct (packet_task_spec (zlen d) name) as (rest & -> & Hr); [lia|done|done|]. cbn [mbind option_bind].
  set (pkg := le_bytes 8 (zlen d) ++ name ++ 0 :: rest). assert (length pkg = 264%nat) as Hp.
  { unfold pkg. unfold zlen in Hr. rewrite length_app, le_bytes_length. lia. }
  pose proof (store_behind [] (data e) pkg) as E. cbn [Datatypes.app] in E. change (zlen (@nil Z)) with 0 in E.
  rewrite E by (rewrite He; unfold zlen; rewrite Hp; vm_compute; done). cbn [mbind option_bind]. rewrite Hp.
  exists k, rest. split; [|done]. unfold pkg. by rewrite <- !(assoc_L (++)).
Qed.

(** Task data.  Whatever its size, data that [EventData::pack] puts into a message is what the
    receiver of the message reads: in the message itself, or from the temporary file, which is
    removed unless the task only peeks; no other file changes. *)
Theorem task_data_roundtrip d e f b name :
  zlen (data e) = OSW_IPC_BUFFER_SIZE → zlen d < 2 ^ 60 → SwString.wf b →
  task_has (info e) OSW_TASK_TMPFILE = false → files_ready name (2 * length d) f →
  ∃ e' f' f'', pack d e f = Some (true, e', f') ∧ fd (info e') = fd (info e) ∧ type (info e') = type (info e) ∧
    0 <= len (info e') <= OSW_IPC_BUFFER_SIZE ∧
    task_data fresh e' b f' = Some (Some d, f'') ∧
    (task_has (info e) OSW_TASK_PEEK = false → fs f'' = fs f).
Proof.
  intros He Hd Hb Hflag Hf. pose proof (zlen_nonneg d) as H0.
  destruct (Z.ltb_spec (zlen d) (OSW_IPC_MAX_SIZE - sizeof_DataHead)) as [Hs|Hl].
  - rewrite (pack_small d e f He Hs). do 3 eexists. split; [done|]. cbn [info set_len fd type len]. split_and!; try done.
    { unfold OSW_IPC_BUFFER_SIZE. lia. }
    unfold task_data. change (task_has (info _) OSW_TASK_TMPFILE) with (task_has (info e) OSW_TASK_TMPFILE). rewrite Hflag.
    cbn [data info len set_len]. by rewrite (load_mid [] d (drop (length d) (data e))).
  - destruct (pack_large d e f name He) as (k & rest & -> & Hr & Hk & Hmk); [lia| |].
    { destruct Hf as [? ? ? [? ?]]. split; try done. split; [done|lia]. }
    match goal with |- context [Some (true, ?e1, ?f1)] => set (e' := e1); set (f' := f1) end.
    assert (∃ f'', task_data fresh e' b f' = Some (Some d, f'') ∧ (task_has (info e) OSW_TASK_PEEK = false → fs f'' = fs f))
      as (f'' & ? & ?); [|by exists e', f', f''].
    unfold task_data, e', f'. cbn [info]. rewrite tmpfile_flag. unfold unpack. cbn [data].
    set (pkg := le_bytes 8 (zlen d) ++ name ++ 0 :: rest).
    assert (load (le_bytes 8 (zlen d) ++ (name ++ 0 :: rest) ++ drop 264 (data e)) 0 sizeof_PacketTask = Some pkg) as ->.
    { rewrite (assoc_L (++)). apply (load_mid []); [done|]. unfold pkg. rewrite zlen_app, Hr. unfold zlen. by rewrite le_bytes_length. }
    cbn [mbind option_bind]. unfold pkg. rewrite take_app_length' by (by rewrite le_bytes_length).
    rewrite drop_app_length' by (by rewrite le_bytes_length). rewrite le_val_bytes, Z.mod_small by lia.
    destruct Hf as [_ Hnew [Hnul _] [Hg Hm]]. rewrite cstr_nul by done. cbn [mbind option_bind fs io]. rewrite lookup_insert_eq.
    assert (∃ b', (if s_size b <? zlen d then SwString.extend fresh b (zlen d) else Some b) = Some b' ∧
      zlen d <= zlen (s_str b')) as (b' & -> & Hroom).
    { destruct (Z.ltb_spec (s_size b) (zlen d)) as [Hsm|Hbig].
      - unfold SwString.extend. rewrite (proj2 (Z.ltb_lt _ _) Hsm). eexists. split; [done|].
        pose proof Hb as (? & ? & ? & ?). destruct (reserve_spec fresh fresh_length b (zlen d)) as (Hw & _ & _ & _ & Hsz); [done|lia|unfold OSW_IPC_MAX_SIZE, sizeof_DataHead in Hl; lia|].
        destruct Hw as (_ & Hz & _). lia.
      - exists b. split; [done|]. destruct Hb as (_ & Hz & _). lia. }
    cbn [mbind option_bind].
    destruct (read_all_exact d (zlen d) k Hk []) as [k2 ->]; [apply prefix_nil|change (zlen (@nil Z)) with 0; lia|change (zlen (@nil Z)) with 0; unfold zlen; lia|].
    rewrite take_ge by (unfold zlen; lia). cbn [mbind option_bind].
    pose proof (store_behind [] (s_str b') d Hroom) as E. cbn [Datatypes.app] in E. change (zlen (@nil Z)) with 0 in E. rewrite E.
    cbn [mbind option_bind]. rewrite Z.eqb_refl. cbn [negb s_str s_length info]. rewrite peek_flag.
    cbn [mbind option_bind s_str s_length].
    assert (load (d ++ drop (length d) (s_str b')) 0 (zlen d) = Some d) as -> by (by apply (load_mid [])).
    cbn [mbind option_bind]. eexists. split; [done|]. intros ->. cbn [fs].
    by rewrite insert_insert_eq, delete_insert_id.
Qed.
End Data.

(** ** Answers *)

Lemma flag_small h x t f k : 0 <= k < 16 → f = 2 ^ k → Z.testbit x k = false → task_has (finish_head h t 0 x) f = false.
Proof.
  intros Hk -> Hx. unfold task_has, finish_head. cbn [server_fd]. apply negb_false_iff, Z.eqb_eq, Z.bits_inj'. intros i Hi.
  rewrite Z.land_spec, Z.pow2_bits_eqb, Z.bits_0 by lia. destruct (Z.eqb_spec k i) as [<-|]; [|by rewrite andb_false_r].
  unfold u16, wrap. rewrite Z.mod_pow2_bits_low by lia. by rewrite Hx.
Qed.

Lemma answer_flags_bit cur x k : k ≠ 3 → k ≠ 5 → Z.testbit (answer_flags cur x) k = Z.testbit x k.
Proof.
  intros H3 H5. unfold answer_flags, OSW_TASK_CALLBACK, OSW_TASK_COROUTINE.
  destruct (task_has cur 8); [|destruct (task_has cur 32); [|done]].
  - rewrite Z.lor_spec. change 8 with (2 ^ 3). rewrite Z.pow2_bits_false by lia. by rewrite orb_false_r.
  - rewrite Z.lor_spec. change 32 with (2 ^ 5). rewrite Z.pow2_bits_false by lia. by rewrite orb_false_r.
Qed.

(** C35: the answer to a task.  When the result of a task that nobody waits for, given by a known
    worker that wants an answer, can be sent and the tasks do not come through a stream (where the
    answer goes back through it, see [stream_answer_leaves_file]),
    the worker that gave the task receives one message more: it is the end of that task, and
    reading it yields the result, whatever its size; afterwards the files are as before. *)
Theorem task_answer_delivered fresh task_worker_num known self now head_bytes junk notify_ok d flags_ cur a b name :
  (∀ n, length (fresh n) = n) → 1 <= task_worker_num → type cur ≠ OSW_SERVER_EVENT_PIPE_MESSAGE →
  task_has cur OSW_TASK_NOREPLY = false → known (u16 (reactor_id cur)) = true → task_has cur OSW_TASK_NONBLOCK = true →
  stream a = None → zlen junk = OSW_IPC_BUFFER_SIZE → zlen d < 2 ^ 60 → SwString.wf b →
  Z.testbit flags_ 0 = false → Z.testbit flags_ 6 = false → files_ready name (2 * length d) (files a) →
  ∃ r a' e f, reply_task_result task_worker_num known self now head_bytes junk true notify_ok d flags_ cur a = Some (r, a') ∧
    0 < r ∧ inbox a' = <[u16 (reactor_id cur) := default [] (inbox a !! u16 (reactor_id cur)) ++ [e]]> (inbox a) ∧
    type (info e) = OSW_SERVER_EVENT_FINISH ∧ fd (info e) = fd cur ∧
    task_data fresh e b (files a') = Some (Some d, f) ∧ fs f = fs (files a).
Proof.
  intros Hfr Hn Ht Hr Hk Hnb Hst Hj Hd Hb H0 H6 Hf. unfold reply_task_result.
  rewrite (proj2 (Z.ltb_ge _ _)), (proj2 (Z.eqb_neq _ _) Ht), Hr, Hk, Hnb by lia. cbn [negb]. unfold reply_nonblock.
  set (e0 := MkEvent (finish_head cur self now (answer_flags cur flags_)) junk).
  assert (∀ f k, 0 <= k < 16 → f = 2 ^ k → k ≠ 3 → k ≠ 5 → Z.testbit flags_ k = false → task_has (info e0) f = false) as Hflag.
  { intros f k Hk1 Hk2 Hk3 Hk5 Hb0. change (task_has (info e0) f) with (task_has (finish_head cur self 0 (answer_flags cur flags_)) f).
    apply (flag_small _ _ _ _ k); try done. by rewrite answer_flags_bit. }
  destruct (task_data_roundtrip fresh Hfr d e0 (files a) b name) as (e & f & f2 & -> & Efd & Ety & Hlen & Etd & Hfs); try done.
  { by apply (Hflag _ 0). }
  cbn [mbind option_bind negb stream]. rewrite Hst. do 4 eexists. split; [done|].
  split_and!; try done.
  - unfold sizeof_DataHead. lia.
  - apply Hfs. by apply (Hflag _ 6).
Qed.

(** A worker that waits finds the result in the shared memory and is notified once. *)
Lemma waiting_answer_delivered fresh task_worker_num known self now head_bytes junk send_ok d flags_ cur a b name r :
  (∀ n, length (fresh n) = n) → 1 <= task_worker_num → type cur ≠ OSW_SERVER_EVENT_PIPE_MESSAGE →
  task_has cur OSW_TASK_NOREPLY = false → known (u16 (reactor_id cur)) = true → task_has cur OSW_TASK_NONBLOCK = false →
  task_has cur OSW_TASK_WAITALL = false → result a !! u16 (reactor_id cur) = Some r → zlen (data r) = OSW_IPC_BUFFER_SIZE →
  zlen d < 2 ^ 60 → SwString.wf b → Z.testbit flags_ 0 = false → Z.testbit flags_ 6 = false →
  files_ready name (2 * length d) (files a) →
  ∃ a' e f, reply_task_result task_worker_num known self now head_bytes junk send_ok true d flags_ cur a = Some (8, a') ∧
    result a' = <[u16 (reactor_id cur) := e]> (result a) ∧ fd (info e) = fd cur ∧ type (info e) = OSW_SERVER_EVENT_FINISH ∧
    notified a' = <[u16 (reactor_id cur) := default 0 (notified a !! u16 (reactor_id cur)) + 1]> (notified a) ∧
    task_data fresh e b (files a') = Some (Some d, f) ∧ fs f = fs (files a).
Proof.
  intros Hfr Hn Ht Hr Hk Hnb Hwa Hres Hj Hd Hb H0 H6 Hf. unfold reply_task_result.
  rewrite (proj2 (Z.ltb_ge _ _)), (proj2 (Z.eqb_neq _ _) Ht), Hr, Hk, Hnb, Hwa by lia. cbn [negb]. unfold reply_wait. rewrite Hres.
  cbn [mbind option_bind]. set (e0 := MkEvent _ (data r)).
  assert (∀ f k, 0 <= k < 16 → f = 2 ^ k → Z.testbit flags_ k = false → task_has (info e0) f = false) as Hflag.
  { intros f k Hk1 Hk2 Hb0. change (task_has (info e0) f) with (task_has (finish_head cur self 0 flags_) f).
    by apply (flag_small _ _ _ _ k). }
  destruct (task_data_roundtrip fresh Hfr d e0 (files a) b name) as (e & f & f2 & -> & Efd & Ety & Hlen & Etd & Hfs); try done.
  { by apply (Hflag _ 0). }
  cbn [mbind option_bind negb notify]. do 3 eexists. split; [done|]. split_and!; try done. apply Hfs. by apply (Hflag _ 6).
Qed.

(** ** The message queue *)

Definition mine (t : Z) (q : queue) : queue := filter (λ x, x.1 = t) q.
Definition others (t : Z) (q : queue) : queue := filter (λ x, x.1 ≠ t) q.

Lemma msgrcv_spec t q : t ≠ 0 →
  match mine t q with
  | [] => msgrcv t q = None
  | (_, d) :: l => ∃ q', msgrcv t q = Some (t, d, q') ∧ mine t q' = l ∧ others t q' = others t q ∧ length q = S (length q')
  end.
Proof.
  intros Ht. unfold mine, others. induction q as [|[u d] q IH]; [done|]. rewrite !filter_cons. cbn [fst msgrcv].
  rewrite (proj2 (Z.eqb_neq t 0) Ht). cbn [orb]. destruct (decide (u = t)) as [->|Hu].
  - rewrite Z.eqb_refl, decide_False by naive_solver. by eexists.
  - rewrite (proj2 (Z.eqb_neq t u)), decide_True by done. destruct (filter (λ x, x.1 = t) q) as [|[v d'] l].
    + by rewrite IH.
    + destruct IH as (q' & -> & E1 & E2 & E3). cbn [mbind option_bind]. eexists. split; [done|].
      rewrite !filter_cons. cbn [fst]. rewrite decide_False, decide_True by done. rewrite E1, E2. cbn [length]. by rewrite E3.
Qed.

(** A worker of the message queue runs the tasks of its own type, all of them and in order, and
    leaves the others in the queue. *)
Theorem queue_tasks_in_order onTask has_timer t fuel : t ≠ 0 → ∀ q l,
  mtype l = t → worker_task_always l = true → task_n l = 1 → signal_alarm l = false → (length q < fuel)%nat →
  Forall (λ x, len x.2.1 = zlen x.2.2) q →
  ∃ l', queue_loop FromQueue onTask has_timer fuel q l = (others t q, l') ∧
    tasks l' = tasks l ++ ((λ x, (x.2, onTask x.2.1 x.2.2)) <$> mine t q).
Proof.
  intros Ht. induction fuel as [|fuel IH]; intros q l Hm Ha Hn Hs Hl Hq; [lia|]. cbn [queue_loop]. rewrite Hn, Hm. cbn [negb Z.ltb Z.compare].
  pose proof (msgrcv_spec t q Ht) as Hr. destruct (mine t q) as [|[u [h d]] ms] eqn:Em.
  - rewrite Hr. assert (others t q = q) as ->; [|exists l; by rewrite app_nil_r].
    clear -Em. unfold mine, others in *. induction q as [|x q IHq]; [done|]. rewrite !filter_cons in *. case_decide; [done|].
    rewrite decide_True by done. by rewrite IHq.
  - destruct Hr as (q' & -> & E1 & E2 & E3). cbn [loop_turn].
    rewrite bool_decide_eq_false_2 by done. assert ((u, (h, d)) ∈ q) as Hin.
    { apply (list_elem_of_filter (λ x, x.1 = t)). unfold mine in Em. rewrite Em. by left. }
    rewrite Forall_forall in Hq. pose proof (Hq _ Hin) as Hlen. cbn [fst snd] in Hlen. rewrite Hlen, Z.add_comm, Z.eqb_refl. cbn [negb do_task].
    set (l1 := MkLoop _ _ _ _ _ _ _ _ _ _). change (signal_alarm l1) with (signal_alarm l). rewrite Hs.
    assert (Forall (λ x, len x.2.1 = zlen x.2.2) q') as Hq'.
    { apply Forall_forall. intros x Hx. apply Hq. destruct (decide (x.1 = t)) as [Hxt|Hxt].
      - assert (x ∈ mine t q) as Hx2 by (rewrite Em; right; rewrite <- E1; by apply list_elem_of_filter).
        by apply list_elem_of_filter in Hx2 as [_ ?].
      - assert (x ∈ others t q) as Hx2 by (rewrite <- E2; by apply list_elem_of_filter). by apply list_elem_of_filter in Hx2 as [_ ?]. }
    assert (task_n (count_task (onTask h d) l1) = 1) as Hn1 by (cbn; by rewrite Ha, andb_false_r).
    destruct (IH q' (count_task (onTask h d) l1) eq_refl Ha Hn1 Hs ltac:(lia) Hq') as (l' & -> & El').
    exists l'. rewrite E2. split; [done|]. rewrite El', E1. cbn [tasks count_task l1 fmap list_fmap]. by rewrite <- (assoc_L (++)).
Qed.

(** ** Witness *)

Definition demo_head (t : Z) : DataHead := MkDataHead 5 0 0 3 6 0 t 0 0.
Definition demo_answers : Answers :=
  MkAnswers (MkFiles {[lit "other" := lit "x"]} [Some (lit "/tmp/t1")] (replicate 40 (Did 4))) ∅ ∅ ∅ None.

Lemma task_answer_delivered_witness :
  ∃ r a' e f, reply_task_result 1 (λ _, true) 9 0 (λ _, []) (replicate (Z.to_nat OSW_IPC_BUFFER_SIZE) 0) true true (lit "done") 0
      (demo_head OSW_TASK_NONBLOCK) demo_answers = Some (r, a') ∧
    0 < r ∧ inbox a' = <[3 := [e]]> ∅ ∧
    type (info e) = OSW_SERVER_EVENT_FINISH ∧ fd (info e) = 5 ∧
    task_data (repeat 0) e (MkString 0 0 0 []) (files a') = Some (Some (lit "done"), f) ∧ fs f = fs (files demo_answers).
Proof.
  apply (task_answer_delivered (repeat 0) 1 (λ _, true) 9 0 (λ _, []) (replicate (Z.to_nat OSW_IPC_BUFFER_SIZE) 0) true
    (lit "done") 0 (demo_head OSW_TASK_NONBLOCK) demo_answers (MkString 0 0 0 []) (lit "/tmp/t1")); try done.
  - apply repeat_length.
  - split.
    + by eexists.
    + vm_compute. done.
    + split; [|vm_compute; done]. apply (bool_decide_unpack _). vm_compute. done.
    + split; [|vm_compute; lia]. apply Forall_replicate. right. by eexists.
Defined.

(** ** Where tasks go wrong *)

(** With the preemptive queue the type of the first message stays: the worker never takes a
    message of another type again. *)
Example first_type_sticks :
  let m t x := (t, (set_len zero_head 1, [x])) in
  (λ x, (fst <$> x.1, (λ y, y.1.2) <$> tasks x.2)) (queue_loop FromQueue (λ _ _, 0) false 9
    [m 1 97; m 2 98; m 1 99] (loop_begin 0 4 true)) = ([2], [[97]; [99]]).
Proof. vm_compute. done. Qed.

(** A task during which an alarm comes is not counted. *)
Example alarm_not_counted :
  let m := Message 41 (set_len zero_head 1) [97] in
  length (tasks (worker_loop FromPipe (λ _ _, 0) true [(true, m); (false, m); (false, m)] (loop_begin 1 0 false)).2) = 2%nat.
Proof. vm_compute. done. Qed.

(** A message with a wrong length on a socket: its connection is never freed. *)
Example bad_message_leaks :
  let l := (worker_loop FromSocket (λ _ _, 0) true [(false, Message 45 zero_head []); (false, Message 40 zero_head [])]
    (loop_begin 0 0 false)).2 in
  (connections l, last_connection l, freed l) = (2%nat, None, [1%nat]).
Proof. vm_compute. done. Qed.

(** On a stream the data itself is sent, but large data is also written to a temporary file
    that nobody reads or removes. *)
Lemma stream_answer_leaves_file self now junk d flags_ cur source a wire name :
  zlen junk = OSW_IPC_BUFFER_SIZE → OSW_IPC_MAX_SIZE - sizeof_DataHead <= zlen d < 2 ^ 62 → files_ready name (length d) (files a) →
  stream a = Some wire →
  ∃ a', reply_nonblock self now junk true d flags_ cur source a = Some (zlen d, a') ∧
    stream a' = Some (wire ++ be_bytes 4 (u32 (zlen d)) ++ d) ∧ fs (files a') !! name = Some d.
Proof.
  intros Hj Hd Hf Hs. unfold reply_nonblock.
  destruct (pack_large d (MkEvent (finish_head cur self now (answer_flags cur flags_)) junk) (files a) name Hj Hd Hf)
    as (k & rest & -> & _). cbn [mbind option_bind negb stream]. rewrite Hs. eexists. split; [done|]. split; [done|].
  cbn. by rewrite lookup_insert_eq.
Qed.

(** Data that cannot be written whole stays behind in its file. *)
Example failed_pack_leaves_file :
  let d := replicate 8200 97 in
  (λ x, (x.1.1, size (fs x.2))) <$> pack d (MkEvent zero_head (replicate 8152 0)) (MkFiles ∅ [Some (lit "t")] [Did 100; Failed EIO]) =
  Some (false, 1%nat).
Proof. vm_compute. done. Qed.

(** ** Streams *)

(** What one end of a stream sends the other receives, in one piece. *)
Lemma stream_roundtrip fresh pagesize d size : (∀ n, length (fresh n) = n) → 0 < pagesize < 2 ^ 30 →
  0 < zlen d <= size → size < 2 ^ 31 →
  ∃ b m, stream_send fresh pagesize None d = Some b ∧ stream_connected b = Some m ∧ stream_recv m size = (zlen d, d).
Proof.
  intros Hfr Hp Hd Hs. unfold stream_send. set (n := openswoole_size_align (zlen d + 4) pagesize).
  assert (zlen d + 4 <= n < 2 ^ 33) as Hn.
  { unfold n, openswoole_size_align. pose proof (Z.mod_pos_bound (zlen d + 4) pagesize ltac:(lia)). lia. }
  destruct (alloc_wf fresh Hfr n ltac:(lia)) as ((_ & Hz & Hb & _) & _ & Hsz). set (s := alloc fresh n) in *.
  set (s4 := MkString 4 (s_size s) (s_offset s) (s_str s)).
  assert (SwString.wf s4) as Hwf. { split_and!; cbn [s_length s_size s_str s_offset s4]; try done; lia. }
  destruct (append_spec fresh Hfr s4 d Hwf) as (b & -> & Hwb & Hc & _ & Hl); [cbn [s_length s4]; lia|].
  cbn [s_length s4] in Hl. pose proof (contents_zlen s4 Hwf) as Hc4. cbn [s_length s4] in Hc4.
  unfold contents in Hc at 1. rewrite Hl in Hc. destruct Hwb as (Hlb & Hzb & _). rewrite Hl in Hlb.
  set (rest := drop (Z.to_nat (4 + zlen d)) (s_str b)). assert (s_str b = contents s4 ++ d ++ rest) as Eb.
  { rewrite (assoc_L (++)), <- Hc. symmetry. apply take_drop. }
  set (h := be_bytes 4 (u32 (s_length b - 4))).
  assert (store (s_str b) 0 h = Some (h ++ d ++ rest)) as E.
  { rewrite Eb. apply (store_mid [] (contents s4) (d ++ rest) 0 h); [done|]. unfold h. rewrite be_bytes_length. unfold zlen in Hc4. lia. }
  assert (zlen h = 4) as Hh by (unfold h, zlen; by rewrite be_bytes_length).
  exists b, (h ++ d). split; [done|]. split.
  - unfold stream_connected. fold h. rewrite E. cbn [mbind option_bind]. rewrite Hl, (assoc_L (++)).
    apply (load_mid []); [done|]. rewrite zlen_app. lia.
  - unfold stream_recv. rewrite take_app_length' by (unfold zlen in Hh; lia). rewrite drop_app_length' by (unfold zlen in Hh; lia).
    rewrite bool_decide_eq_false_2 by (intros E0; by rewrite E0 in Hh).
    rewrite take_app_length' by (unfold zlen in Hh; lia).
    assert (be_val h = zlen d) as ->.
    { unfold h. rewrite be_val_bytes, u32_small by lia. rewrite Z.mod_small by lia. lia. }
    rewrite !i32_small by lia. rewrite (proj2 (Z.leb_gt _ _)), (proj2 (Z.ltb_ge _ _)) by lia. cbn [orb].
    by rewrite take_ge by (unfold zlen; lia).
Qed.
