(* ===== verification/AsyncThreads.v ===== *)
(** * The thread pool for blocking calls: os/async_thread.cc and async of coroutine/system.cc

    A coroutine that needs a blocking call gives it to a pool of threads and waits.  A thread
    takes the call from a queue, runs it and sends a pointer to it through a pipe to the main
    thread, which resumes the coroutine.  Threads beyond the core wait for a limited time and
    then ask the main thread, through the same pipe, to join them.

    The model interleaves the main thread with any number of threads.  A step of a thread is a
    critical section of [event_mutex], a call of the handler, a write to the pipe or an atomic
    operation; what the system decides (a handler's results, the answers of the pipe, which
    waiting thread a notification reaches, whether a wait ends by time) is part of the step.
    Events live in a heap with explicit deletion, so that a pointer used after [delete] is a
    fault.  Times are integers (microseconds where the code has seconds as doubles). *)

From S2P Require Import Prelude NetSocket.

Definition OSW_ERROR_AIO_BAD_REQUEST : Z := 4001.
Definition OSW_ERROR_AIO_CANCELED : Z := 4002.
Definition OSW_AIO_THREAD_NUM_MULTIPLE : Z := 8.
Definition OSW_AIO_THREAD_MAX_IDLE_TIME : Z := 1000000.
Definition OSW_AIO_TASK_MAX_WAIT_TIME : Z := 1000.
Definition OSW_AIO_EVENT_NUM : nat := 128.

(** ** Data *)

Inductive Callback := async_task_completed | release_callback (tid : nat).

(** [handler] says whether the event has one. *)
Record AsyncEvent := MkEvent {
  task_id : Z; canceled : bool; retval : Z; error : Z; timestamp : Z; handler : bool; callback : Callback }.
Definition set_canceled (ev : AsyncEvent) : AsyncEvent :=
  MkEvent (task_id ev) true (retval ev) (error ev) (timestamp ev) (handler ev) (callback ev).
Definition set_result (ev : AsyncEvent) (r : Z * Z) : AsyncEvent :=
  MkEvent (task_id ev) (canceled ev) r.1 r.2 (timestamp ev) (handler ev) (callback ev).

(** Where a thread is in the body of [create_thread]; [Notified] is a thread that a
    notification has reached and that does not yet hold the mutex again. *)
Inductive Pc :=
  | Loop | Pop | Handle (e : nat) | Send (e : nat) | Recheck | Waiting | Notified | Closing | Exited.

(** [registered]: the thread is in the map [threads]. *)
Record Thread := MkThread { is_core_worker : bool; exit_flag : bool; registered : bool; pc : Pc }.
Definition at_pc (th : Thread) (p : Pc) : Thread := MkThread (is_core_worker th) (exit_flag th) (registered th) p.
Definition set_exit (th : Thread) : Thread := MkThread (is_core_worker th) true (registered th) (pc th).
Definition unregister (th : Thread) : Thread := MkThread (is_core_worker th) (exit_flag th) false (pc th).

Record Config := MkConfig { core_worker_num : Z; worker_num : Z; max_wait_time : Z; max_idle_time : Z }.

Definition ThreadPool (cpu_num _core_worker_num _worker_num _max_wait_time _max_idle_time : Z) : Config :=
  let core := if _core_worker_num =? 0 then cpu_num else Z.max 1 _core_worker_num in
  MkConfig core
    (if _worker_num =? 0 then cpu_num * OSW_AIO_THREAD_NUM_MULTIPLE else Z.max core _worker_num)
    (if _max_wait_time =? 0 then OSW_AIO_TASK_MAX_WAIT_TIME else _max_wait_time)
    (if _max_idle_time =? 0 then OSW_AIO_THREAD_MAX_IDLE_TIME else _max_idle_time).

Record Pool := MkPool {
  running : bool; n_waiting : Z; n_closing : Z; current_task_id : Z; threads : list Thread; queue : list nat }.
Definition set_threads (p : Pool) (l : list Thread) : Pool :=
  MkPool (running p) (n_waiting p) (n_closing p) (current_task_id p) l (queue p).
Definition set_queue (p : Pool) (q : list nat) : Pool :=
  MkPool (running p) (n_waiting p) (n_closing p) (current_task_id p) (threads p) q.
Definition set_waiting (p : Pool) (n : Z) : Pool :=
  MkPool (running p) n (n_closing p) (current_task_id p) (threads p) (queue p).
Definition set_closing (p : Pool) (n : Z) : Pool :=
  MkPool (running p) (n_waiting p) n (current_task_id p) (threads p) (queue p).

(** The main thread: the request between [schedule] and the queue, a [callback] that has not
    read yet, the events it has read, and the one whose callback runs. *)
Record Main := MkMain {
  task_num : Z; pushing : option bool; reading : bool; batch : list nat; current : option nat }.

(** What a call of [async] has come to: it returned whether it was completed, with the result. *)
Inductive Call := Pending | Returned (completed : bool) (result : Z * Z).

(** [calls] is indexed by the event of the call; [handled] records the handlers that ran, with
    their results. *)
Record State := MkState {
  pool : Pool; main : Main; heap : gmap nat AsyncEvent; next : nat; pipe : list nat;
  calls : gmap nat Call; handled : list (nat * (Z * Z)) }.
Definition with_pool (s : State) (p : Pool) : State :=
  MkState p (main s) (heap s) (next s) (pipe s) (calls s) (handled s).
Definition with_main (s : State) (m : Main) : State :=
  MkState (pool s) m (heap s) (next s) (pipe s) (calls s) (handled s).
Definition with_heap (s : State) (h : gmap nat AsyncEvent) : State :=
  MkState (pool s) (main s) h (next s) (pipe s) (calls s) (handled s).
Definition with_pipe (s : State) (l : list nat) : State :=
  MkState (pool s) (main s) (heap s) (next s) l (calls s) (handled s).
Definition with_calls (s : State) (c : gmap nat Call) : State :=
  MkState (pool s) (main s) (heap s) (next s) (pipe s) c (handled s).
Definition with_handled (s : State) (e : nat) (r : Z * Z) : State :=
  MkState (pool s) (main s) (heap s) (next s) (pipe s) (calls s) (handled s ++ [(e, r)]).

(** [new] and [delete]; addresses are not used twice, so that a dangling pointer stays one. *)
Definition new_event (ev : AsyncEvent) (s : State) : nat * State :=
  (next s, MkState (pool s) (main s) (<[next s := ev]> (heap s)) (S (next s)) (pipe s) (calls s) (handled s)).
Definition delete_event (e : nat) (s : State) : option State :=
  _ ← heap s !! e; Some (with_heap s (delete e (heap s))).

(** ** A thread of the pool: the body of create_thread *)

Inductive WriteAnswer := Written | Failed (errno : Z).

(** What the system decides in a step of a thread. *)
Record Choice := MkChoice { c_result : Z * Z; c_write : WriteAnswer; c_timeout : bool }.

Section Pool.
Context (cfg : Config).

(** The thread waits with a limit. *)
Definition timed (th : Thread) : bool := negb (is_core_worker th || (max_idle_time cfg <=? 0)).

Definition goto (t : nat) (th : Thread) (p : Pc) (s : State) : State :=
  with_pool s (set_threads (pool s) (<[t := at_pc th p]> (threads (pool s)))).

Definition run_handler (c : Choice) (e : nat) (s : State) : option State :=
  ev ← heap s !! e;
  if negb (handler ev) then Some (with_heap s (<[e := set_result ev (-1, OSW_ERROR_AIO_BAD_REQUEST)]> (heap s)))
  else if canceled ev then Some (with_heap s (<[e := set_result ev (-1, OSW_ERROR_AIO_CANCELED)]> (heap s)))
  else Some (with_handled (with_heap s (<[e := set_result ev (c_result c)]> (heap s))) e (c_result c)).

(** One turn of the loop at [_send_event]. *)
Definition send_event (c : Choice) (t : nat) (th : Thread) (e : nat) (s : State) : option State :=
  _ ← heap s !! e;
  let sent := goto t th (if exit_flag th then Closing else Loop) in
  match c_write c with
  | Written => Some (sent (with_pipe s (pipe s ++ [e])))
  | Failed errno =>
    if (errno =? EAGAIN) || (errno =? EINTR) then Some s
    else s ← delete_event e s; Some (sent s)
  end.

(** The thread holds the mutex again after [wait] or [wait_for]. *)
Definition woken (c : Choice) (t : nat) (th : Thread) (s : State) : State :=
  let p := pool s in
  if c_timeout c && timed th then
    if running p && negb (n_closing p =? 0) then goto t th Waiting s
    else
      let '(e, s) := new_event (MkEvent 0 false 0 0 0 false (release_callback t)) s in
      let s := with_pool s (set_closing (set_waiting p (u64 (n_waiting p - 1))) (u64 (n_closing p + 1))) in
      goto t (set_exit th) (Send e) s
  else goto t th Loop (with_pool s (set_waiting p (u64 (n_waiting p - 1)))).

Definition thread_turn (c : Choice) (t : nat) (s : State) : option State :=
  th ← threads (pool s) !! t;
  let p := pool s in
  match pc th with
  | Loop => Some (goto t th (if running p then Pop else Exited) s)
  | Pop =>
    match queue p with
    | [] => Some (goto t th Recheck s)
    | e :: q => Some (goto t th (Handle e) (with_pool s (set_queue p q)))
    end
  | Handle e => s ← run_handler c e s; Some (goto t th (Send e) s)
  | Send e => send_event c t th e s
  | Recheck =>
    if (0 <? zlen (queue p)) then Some (goto t th Loop s)
    else if negb (running p) then Some (goto t th Exited s)
    else Some (goto t th Waiting (with_pool s (set_waiting p (u64 (n_waiting p + 1)))))
  | Waiting | Notified => Some (woken c t th s)
  | Closing => Some (goto t th Exited (with_pool s (set_closing p (u64 (n_closing p - 1)))))
  | Exited => Some s
  end.

(** ** The main thread *)

Definition create_thread (ok core : bool) (s : State) : State :=
  if ok then with_pool s (set_threads (pool s) (threads (pool s) ++ [MkThread core false true Loop])) else s.

(** [threads.size()] *)
Definition worker_count (s : State) : Z := zlen (filter (λ th, registered th = true) (threads (pool s))).

Definition get_max_wait_time (now : Z) (s : State) : option Z :=
  match queue (pool s) with
  | [] => Some 0
  | e :: _ => ev ← heap s !! e; Some (now - timestamp ev)
  end.

Definition schedule (now : Z) (ok : bool) (s : State) : option State :=
  if (n_waiting (pool s) =? 0) && (worker_count s <? worker_num cfg) && (0 <? max_wait_time cfg) then
    w ← get_max_wait_time now s;
    if max_wait_time cfg <? w then
      let n := if worker_num cfg <? worker_count s + 1 then worker_num cfg - worker_count s else 1 in
      Some (Nat.iter (Z.to_nat n) (create_thread ok false) s)
    else Some s
  else Some s.

(** [notify_one] reaches the waiting thread [t], if there is one. *)
Definition notify_one (pick : option nat) (s : State) : option State :=
  match pick with
  | None => Some s
  | Some t => th ← threads (pool s) !! t; Some (goto t th Notified s)
  end.

(** The second half of [ThreadPool::dispatch], and [async::dispatch] with the coroutine that
    goes to wait. *)
Definition push (h : bool) (now : Z) (pick : option nat) (s : State) : option State :=
  let p := pool s in
  let '(e, s) := new_event (MkEvent (current_task_id p) false 0 0 now h async_task_completed) s in
  let p := MkPool (running p) (n_waiting p) (n_closing p) (u64 (current_task_id p + 1)) (threads p) (queue p ++ [e]) in
  s ← notify_one pick (with_pool s p);
  let m := main s in
  let m := MkMain (u32 (task_num m + 1)) None (reading m) (batch m) (current m) in
  Some (with_calls (with_main s m) (<[e := Pending]> (calls s))).

Definition release_thread (t : nat) (s : State) : option State :=
  match threads (pool s) !! t with
  | None => Some s
  | Some th =>
    if negb (registered th) then Some s
    else Some (with_pool s (set_threads (pool s) (<[t := unregister th]> (threads (pool s)))))
  end.

(** The event at the front of what was read: its callback, unless it was cancelled. *)
Definition run_callback (e : nat) (s : State) : option State :=
  ev ← heap s !! e;
  if canceled ev then Some s
  else
    match callback ev with
    | async_task_completed => Some (with_calls s (<[e := Returned true (retval ev, error ev)]> (calls s)))
    | release_callback t =>
      s ← release_thread t s;
      let m := main s in
      Some (with_main s (MkMain (u32 (task_num m + 1)) (pushing m) (reading m) (batch m) (current m)))
    end.

(** The steps of the main thread; [ok]: a thread can be created. *)
Inductive Action :=
  | Dispatch (h : bool) (now : Z) (ok : bool)
  | Push (now : Z) (pick : option nat)
  | Readable (now : Z) (ok : bool)
  | Read (n : nat)
  | Run
  | Finish
  | Cancel (e : nat) (err : Z)
  | Shutdown
  | Join.

Definition notify_all (l : list Thread) : list Thread :=
  (λ th, match pc th with Waiting => at_pc th Notified | _ => th end) <$> l.

Definition main_turn (a : Action) (s : State) : option State :=
  let m := main s in
  match a with
  | Dispatch h now ok =>
    s ← schedule now ok s;
    Some (with_main s (MkMain (task_num m) (Some h) (reading m) (batch m) (current m)))
  | Push now pick => h ← pushing m; push h now pick s
  | Readable now ok =>
    s ← schedule now ok s;
    Some (with_main s (MkMain (task_num m) (pushing m) true (batch m) (current m)))
  | Read n =>
    Some (with_pipe (with_main s (MkMain (task_num m) (pushing m) false (batch m ++ take n (pipe s)) (current m))) (drop n (pipe s)))
  | Run =>
    match batch m with
    | [] => None
    | e :: l => run_callback e (with_main s (MkMain (task_num m) (pushing m) (reading m) l (Some e)))
    end
  | Finish =>
    e ← current m;
    delete_event e (with_main s (MkMain (u32 (task_num m - 1)) (pushing m) (reading m) (batch m) None))
  | Cancel e err =>
    ev ← heap s !! e;
    Some (with_calls (with_heap s (<[e := set_canceled ev]> (heap s))) (<[e := Returned false (-1, err)]> (calls s)))
  | Shutdown =>
    let p := pool s in
    Some (with_pool s (MkPool false (n_waiting p) (n_closing p) (current_task_id p) (notify_all (threads p)) (queue p)))
  | Join => Some (with_pool s (set_threads (pool s) (unregister <$> threads (pool s))))
  end.

(** [AsyncThreads::AsyncThreads] with [ThreadPool::start]; [oks]: which threads can be created. *)
Definition start (oks : list bool) : State :=
  let s := MkState (MkPool true 0 0 0 [] []) (MkMain 0 None false [] None) ∅ 0 [] ∅ [] in
  foldl (λ s ok, create_thread ok true s) s oks.
End Pool.

(** ** The interleaving *)

Inductive Label := LThread (t : nat) (c : Choice) | LMain (a : Action).

Definition waits (th : Thread) : bool := match pc th with Waiting => true | _ => false end.
Definition exited (th : Thread) : bool := match pc th with Exited => true | _ => false end.
Definition no_one {A} (o : option A) : bool := match o with None => true | Some _ => false end.

(** A join in the callback of event [e] waits for the end of the thread. *)
Definition join_ready (s : State) (e : nat) : bool :=
  match heap s !! e with
  | Some ev =>
    match canceled ev, callback ev with
    | false, release_callback t =>
      match threads (pool s) !! t with
      | Some th => negb (registered th) || exited th
      | None => true
      end
    | _, _ => true
    end
  | None => true
  end.

(** The main thread is outside of the functions of the pool, or in a callback. *)
Definition free (s : State) : bool := running (pool s) && no_one (pushing (main s)) && negb (reading (main s)).

Definition at_rest (s : State) : bool :=
  free s && bool_decide (batch (main s) = []) && no_one (current (main s)).

Definition ready (cfg : Config) (l : Label) (s : State) : bool :=
  match l with
  | LThread t c =>
    match threads (pool s) !! t with
    | None => false
    | Some th =>
      match pc th with
      | Exited => false
      | Waiting | Notified => negb (c_timeout c) || timed cfg th
      | _ => true
      end
    end
  | LMain a =>
    match a with
    | Dispatch _ _ _ => free s
    | Push _ (Some t) =>
      negb (no_one (pushing (main s))) && match threads (pool s) !! t with Some th => waits th | None => false end
    | Push _ None => negb (no_one (pushing (main s))) && forallb (λ th, negb (waits th)) (threads (pool s))
    | Readable _ _ => at_rest s
    | Read n => reading (main s) && bool_decide (n ≤ OSW_AIO_EVENT_NUM ∧ n ≤ length (pipe s))%nat
    | Run =>
      free s && no_one (current (main s)) && match batch (main s) with e :: _ => join_ready s e | [] => false end
    | Finish => free s && negb (no_one (current (main s)))
    | Cancel e _ => free s && match calls s !! e with Some Pending => true | _ => false end
    | Shutdown => at_rest s
    | Join => negb (running (pool s)) && forallb (λ th, negb (registered th) || exited th) (threads (pool s))
    end
  end.

Definition perform (cfg : Config) (l : Label) (s : State) : option State :=
  match l with LThread t c => thread_turn cfg c t s | LMain a => main_turn cfg a s end.

(** The states that some interleaving reaches; [ok] restricts the steps considered. *)
Inductive reached (cfg : Config) (ok : State → Label → Prop) (s0 : State) : State → Prop :=
  | reached_start : reached cfg ok s0 s0
  | reached_step s l s' :
      reached cfg ok s0 s → ready cfg l s = true → ok s l → perform cfg l s = Some s' → reached cfg ok s0 s'.

Fixpoint run (cfg : Config) (ls : list Label) (s : State) : option State :=
  match ls with
  | [] => Some s
  | l :: ls => if ready cfg l s then s ← perform cfg l s; run cfg ls s else None
  end.

Lemma reached_run cfg (ok : State → Label → Prop) s0 ls s s' :
  Forall (λ l, ∀ s, ok s l) ls → reached cfg ok s0 s → run cfg ls s = Some s' → reached cfg ok s0 s'.
Proof.
  intros Hok. revert s. induction Hok as [|l ls Hl _ IH]; intros s Hr; cbn [run]; intros Hs; simplify_eq; [done|].
  destruct (ready cfg l s) eqn:Er; [|done]. destruct (perform cfg l s) as [s1|] eqn:Ep; [|done].
  apply (IH s1); [|done]. by eapply reached_step.
Qed.

(** ** Counting *)

Lemma sum_insert {A} (f : A → nat) (l : list A) t x y :
  l !! t = Some x → (sum_list_with f (<[t := y]> l) + f x = sum_list_with f l + f y)%nat.
Proof. revert t. induction l as [|z l IH]; intros [|t] H; simplify_eq/=; [lia|]. apply IH in H. lia. Qed.

Lemma sum_ge {A} (f : A → nat) (l : list A) t x : l !! t = Some x → (f x ≤ sum_list_with f l)%nat.
Proof. revert t. induction l as [|z l IH]; intros [|t] H; simplify_eq/=; [lia|]. apply IH in H. lia. Qed.

Lemma sum_zero {A} (f : A → nat) (l : list A) : (∀ x, x ∈ l → f x = O) → sum_list_with f l = O.
Proof. intros H. induction l as [|z l IH]; [done|]. cbn. rewrite H, IH; [done| |by left]. intros. apply H. by right. Qed.

Lemma sum_pos {A} (f : A → nat) (l : list A) : (0 < sum_list_with f l)%nat → ∃ t x, l !! t = Some x ∧ (0 < f x)%nat.
Proof.
  induction l as [|z l IH]; cbn; [lia|]. intros H. destruct (f z) as [|k] eqn:E; [|exists O, z; split; [done|lia]].
  destruct IH as (t & x & ? & ?); [lia|]. by exists (S t), x.
Qed.

Lemma sum_fmap {A} (f : A → nat) (g : A → A) (l : list A) :
  (∀ x, f (g x) = f x) → sum_list_with f (g <$> l) = sum_list_with f l.
Proof. intros H. induction l as [|z l IH]; [done|]. cbn. by rewrite H, IH. Qed.

Definition cnt (e : nat) (l : list nat) : nat := length (filter (λ x, x = e) l).
Definition one (e e' : nat) : nat := if decide (e' = e) then 1%nat else O.

Lemma cnt_app e l k : cnt e (l ++ k) = (cnt e l + cnt e k)%nat.
Proof. unfold cnt. by rewrite filter_app, length_app. Qed.
Lemma cnt_cons e x l : cnt e (x :: l) = (one e x + cnt e l)%nat.
Proof. unfold cnt, one. rewrite filter_cons. by destruct (decide (x = e)). Qed.
Lemma cnt_nil e : cnt e [] = O.
Proof. done. Qed.
Lemma cnt_take e n l : (cnt e (take n l) + cnt e (drop n l) = cnt e l)%nat.
Proof. by rewrite <- cnt_app, take_drop. Qed.
Lemma one_eq e : one e e = 1%nat.
Proof. unfold one. by rewrite decide_True. Qed.
Lemma cnt_pos e l : (0 < cnt e l)%nat ↔ e ∈ l.
Proof.
  unfold cnt. induction l as [|x l IH]; [cbn; split; [lia|by intros []%not_elem_of_nil]|].
  rewrite filter_cons, elem_of_cons, <- IH. destruct (decide (x = e)); cbn [length]; intuition (subst; lia || done).
Qed.

(** An event that a thread has in its hands; one that it has not handled yet. *)
Definition holds (e : nat) (th : Thread) : nat := match pc th with Handle e' | Send e' => one e e' | _ => O end.
Definition handles (e : nat) (th : Thread) : nat := match pc th with Handle e' => one e e' | _ => O end.
Definition asleep (th : Thread) : nat := match pc th with Waiting | Notified => 1%nat | _ => O end.
Definition leaving (th : Thread) : nat := if exit_flag th && negb (exited th) then 1%nat else O.

Definition there (o : option AsyncEvent) : nat := match o with Some _ => 1%nat | None => O end.
Definition live (s : State) (e : nat) : nat := there (heap s !! e).
(** The fields of a state that a step has set. *)
Ltac st := cbn [pool main heap next pipe calls handled with_pool with_main with_heap with_pipe with_calls
  with_handled goto set_threads set_queue set_waiting set_closing running n_waiting n_closing
  current_task_id threads queue task_num pushing reading batch current new_event fst snd] in *.

Definition olist (o : option nat) : list nat := match o with Some e => [e] | None => [] end.

(** How many places the event [e] is in. *)
Definition places (s : State) (e : nat) : nat :=
  (cnt e (queue (pool s)) + sum_list_with (holds e) (threads (pool s)) + cnt e (pipe s)
   + cnt e (batch (main s)) + cnt e (olist (current (main s))))%nat.

(** Every event that exists is in exactly one place, and no other is anywhere. *)
Definition placed (s : State) : Prop := (∀ e, places s e = live s e) ∧ (∀ e, (next s ≤ e)%nat → heap s !! e = None).

Lemma live_insert (h : gmap nat AsyncEvent) e e' ev :
  there (<[e := ev]> h !! e') = (if decide (e' = e) then 1 else there (h !! e'))%nat.
Proof. destruct (decide (e' = e)) as [->|]; [by rewrite lookup_insert_eq|by rewrite lookup_insert_ne]. Qed.

Lemma live_delete (h : gmap nat AsyncEvent) e e' :
  there (delete e h !! e') = (if decide (e' = e) then 0 else there (h !! e'))%nat.
Proof. destruct (decide (e' = e)) as [->|]; [by rewrite lookup_delete_eq|by rewrite lookup_delete_ne]. Qed.

(** Account for the events of a state after a step. *)
Ltac count := rewrite ?cnt_app, ?cnt_cons, ?cnt_nil, ?live_insert, ?live_delete, ?one_eq; unfold one in *;
  repeat first [case_decide | progress subst | lia].

Lemma places_goto s t th p e :
  threads (pool s) !! t = Some th →
  (places (goto t th p s) e + holds e th = places s e + holds e (at_pc th p))%nat.
Proof. intros H. unfold places. st. pose proof (sum_insert (holds e) _ t th (at_pc th p) H). lia. Qed.

Lemma placed_set_waiting s p :
  queue p = queue (pool s) → threads p = threads (pool s) → placed s → placed (with_pool s p).
Proof. intros Hq Ht [H1 H2]. split; [|done]. intros e. specialize (H1 e). unfold places in *. st. by rewrite Hq, Ht. Qed.

Lemma placed_goto s t th p :
  threads (pool s) !! t = Some th → (∀ e, holds e (at_pc th p) = holds e th) → placed s → placed (goto t th p s).
Proof.
  intros Ht Hh [H1 H2]. split; [|done]. intros e. pose proof (places_goto s t th p e Ht) as Hp.
  change (live (goto t th p s) e) with (live s e). rewrite <- H1, Hh in *. lia.
Qed.

Lemma placed_live s e : placed s → (0 < places s e)%nat → is_Some (heap s !! e).
Proof. intros [H1 _] H. rewrite H1 in H. unfold live in H. destruct (heap s !! e); cbn in H; [eauto|lia]. Qed.

Lemma held_live s t th e : placed s → threads (pool s) !! t = Some th → (0 < holds e th)%nat → is_Some (heap s !! e).
Proof. intros Hs Ht Hh. apply placed_live; [done|]. unfold places. pose proof (sum_ge (holds e) _ _ _ Ht). lia. Qed.

Lemma placed_insert s e ev ev' : heap s !! e = Some ev → placed s → placed (with_heap s (<[e := ev']> (heap s))).
Proof.
  intros He [H1 H2]. split.
  - intros e'. specialize (H1 e'). change (places _ e') with (places s e'). unfold live in *. cbn. rewrite live_insert.
    case_decide; subst; [by rewrite He in H1|done].
  - intros e' Hn. specialize (H2 _ Hn). cbn. rewrite lookup_insert_ne; [done|congruence].
Qed.

Lemma placed_run_handler s c e s' : placed s → run_handler c e s = Some s' → placed s' ∧ pool s' = pool s.
Proof.
  intros Hs. unfold run_handler. destruct (heap s !! e) as [ev|] eqn:He; [|done]. cbn [mbind option_bind].
  intros H. repeat case_match; simplify_eq; (split; [|done]); by eapply (placed_insert s).
Qed.

Lemma placed_send s c t th e s' :
  threads (pool s) !! t = Some th → pc th = Send e → placed s → send_event c t th e s = Some s' → placed s'.
Proof.
  intros Ht Hpc Hs. pose proof Hs as [H1 H2]. unfold send_event, delete_event.
  destruct (heap s !! e) as [ev|] eqn:He; [|done]. cbn [mbind option_bind].
  assert (∀ e', holds e' th = one e' e ∧ holds e' (at_pc th (if exit_flag th then Closing else Loop)) = O) as Hh.
  { intros. unfold holds. rewrite Hpc. by destruct (exit_flag th). }
  destruct (c_write c) as [|errno]; [|destruct ((errno =? EAGAIN) || (errno =? EINTR))]; intros; simplify_eq; try done; split; try done; intros e'.
  all: pose proof (sum_insert (holds e') _ t th (at_pc th (if exit_flag th then Closing else Loop)) Ht) as Hsum.
  all: destruct (Hh e') as [Ha Hb]; specialize (H1 e').
  all: unfold places, live in *; st; rewrite ?Ha, ?Hb in Hsum.
  - count.
  - rewrite live_delete. unfold one in *. case_decide; subst; case_decide; try done; rewrite ?He in H1; cbn [there] in H1; lia.
  - intros Hn. apply lookup_delete_None. right. by apply H2.
Qed.

Lemma placed_new s ev m' q t th : 
  placed s → threads (pool s) !! t = Some th → holds (next s) th = O → (∀ e, holds e th = O) →
  placed (goto t (set_exit th) (Send (next s)) (with_pool (new_event ev s).2 (set_closing (set_waiting (pool s) m') q))).
Proof.
  intros [H1 H2] Ht Hh0 Hh. split.
  - intros e. specialize (H1 e). unfold places, live in *. st. rewrite live_insert.
    pose proof (sum_insert (holds e) _ t th (at_pc (set_exit th) (Send (next s))) Ht) as Hsum. rewrite Hh in Hsum.
    cbn in Hsum. unfold one in *. repeat case_decide; subst; try done; try lia. rewrite H2 in H1 by lia. cbn [there] in H1. lia.
  - intros e He. cbn in *. rewrite lookup_insert_ne by lia. apply H2. lia.
Qed.

Lemma placed_woken cfg s c t th :
  placed s → threads (pool s) !! t = Some th → pc th = Waiting ∨ pc th = Notified → placed (woken cfg c t th s).
Proof.
  intros Hs Ht Hpc. assert (∀ e, holds e th = O) as Hh by (intros; unfold holds; by destruct Hpc as [-> | ->]).
  unfold woken. cbn [new_event]. destruct (_ && timed cfg th); [destruct (running _ && _)|].
  - by apply placed_goto.
  - by apply (placed_new s (MkEvent 0 false 0 0 0 false (release_callback t))).
  - by apply placed_goto; [..|apply placed_set_waiting].
Qed.

Lemma placed_thread cfg s c t s' : placed s → thread_turn cfg c t s = Some s' → placed s'.
Proof.
  intros Hs. unfold thread_turn. destruct (threads (pool s) !! t) as [th|] eqn:Ht; [|done]. cbn [mbind option_bind].
  destruct (pc th) as [| |e|e| | | | |] eqn:Hpc.
  - intros [= <-]. apply placed_goto; try done. intros. unfold holds. cbn. rewrite Hpc. by destruct (running _).
  - destruct (queue (pool s)) as [|e q] eqn:Hq; intros [= <-].
    + apply placed_goto; try done. intros. unfold holds. by rewrite Hpc.
    + destruct Hs as [H1 H2]. split; [|done]. intros e'. specialize (H1 e').
      pose proof (sum_insert (holds e') _ t th (at_pc th (Handle e)) Ht) as Hsum.
      unfold places, live in *. st. rewrite Hq in H1. rewrite cnt_cons in H1.
      assert (holds e' th = O) as Hh by (unfold holds; by rewrite Hpc). change (holds e' (at_pc th (Handle e))) with (one e' e) in Hsum. lia.
  - destruct (run_handler c e s) as [s1|] eqn:Er; [|done]. cbn [mbind option_bind]. intros [= <-].
    destruct (placed_run_handler _ _ _ _ Hs Er) as [Hs1 Hp]. apply placed_goto; [by rewrite Hp| |done].
    intros. unfold holds. by rewrite Hpc.
  - by apply placed_send.
  - repeat case_match; intros [= <-]; (apply placed_goto; [done| |]); try done; try (intros; unfold holds; by rewrite Hpc).
  - intros [= <-]. by apply placed_woken; [..|left].
  - intros [= <-]. by apply placed_woken; [..|right].
  - intros [= <-]. apply placed_goto; [done| |by apply placed_set_waiting]. intros. unfold holds. by rewrite Hpc.
  - by intros [= <-].
Qed.

(** ** What the main thread does *)

Definition grown (k : nat) (s : State) : State :=
  with_pool s (set_threads (pool s) (threads (pool s) ++ replicate k (MkThread false false true Loop))).

Lemma worker_count_bound s : 0 <= worker_count s.
Proof. unfold worker_count. zl_nonneg. lia. Qed.

Lemma schedule_grows cfg now ok s :
  placed s →
  ∃ k, schedule cfg now ok s = Some (grown k s) ∧ (k = O ∨ k = 1%nat ∧ worker_count s < worker_num cfg).
Proof.
  intros Hs. assert (grown 0 s = s) as H0. { unfold grown. cbn. rewrite app_nil_r. by destruct s as [[]]. }
  unfold schedule. destruct (_ && _ && _) eqn:Eb; [|exists O; rewrite H0; auto].
  rewrite !andb_true_iff in Eb. destruct Eb as [[_ Hw%Z.ltb_lt] _].
  assert (∃ w, get_max_wait_time now s = Some w) as [w ->].
  { unfold get_max_wait_time. destruct (queue (pool s)) as [|e q] eqn:Hq; [eauto|].
    destruct (placed_live s e Hs) as [ev ->]; [|cbn; eauto]. unfold places. rewrite Hq, cnt_cons, one_eq. lia. }
  cbn [mbind option_bind]. destruct (_ <? w); [|exists O; rewrite H0; auto].
  rewrite (proj2 (Z.ltb_ge _ _)) by lia. cbn. destruct ok; cbn; [exists 1%nat|exists O; rewrite H0; auto].
  split; [done|auto].
Qed.

Lemma sum_grown f s k :
  f (MkThread false false true Loop) = O → sum_list_with f (threads (pool (grown k s))) = sum_list_with f (threads (pool s)).
Proof. intros Hf. cbn. rewrite sum_list_with_app, (sum_zero f (replicate _ _)); [lia|]. intros x ->%elem_of_replicate_inv. done. Qed.

Lemma placed_grown k s : placed s → placed (grown k s).
Proof. intros [H1 H2]. split; [|done]. intros e. etrans; [|exact (H1 e)]. unfold places. by rewrite sum_grown. Qed.

Lemma placed_main_fields s m :
  batch m = batch (main s) → current m = current (main s) → placed s → placed (with_main s m).
Proof. intros Hb Hc [H1 H2]. split; [|done]. intros e. etrans; [|exact (H1 e)]. unfold places. st. by rewrite Hb, Hc. Qed.

(** What [notify_one] does to the list of threads. *)
Definition notified (pick : option nat) (l : list Thread) : list Thread :=
  match pick with
  | None => l
  | Some t => match l !! t with Some th => <[t := at_pc th Notified]> l | None => l end
  end.

Definition pickable (pick : option nat) (l : list Thread) : Prop :=
  match pick with
  | None => Forall (λ th, pc th ≠ Waiting) l
  | Some t => ∃ th, l !! t = Some th ∧ pc th = Waiting
  end.

Lemma notify_one_spec pick s :
  pickable pick (threads (pool s)) →
  notify_one pick s = Some (with_pool s (set_threads (pool s) (notified pick (threads (pool s))))).
Proof.
  destruct pick as [t|]; cbn.
  - intros (th & -> & _). done.
  - intros _. by destruct s as [[]].
Qed.

Lemma sum_notified f pick l :
  pickable pick l → (∀ th, pc th = Waiting → f (at_pc th Notified) = f th) →
  sum_list_with f (notified pick l) = sum_list_with f l.
Proof.
  intros Hp Hf. destruct pick as [t|]; [|done]. destruct Hp as (th & Ht & Hw). cbn. rewrite Ht.
  pose proof (sum_insert f l t th (at_pc th Notified) Ht). rewrite Hf in *; [lia|done].
Qed.

Definition pushed (h : bool) (now : Z) (pick : option nat) (s : State) : State :=
  let p := pool s in
  let m := main s in
  MkState (MkPool (running p) (n_waiting p) (n_closing p) (u64 (current_task_id p + 1)) (notified pick (threads p)) (queue p ++ [next s]))
    (MkMain (u32 (task_num m + 1)) None (reading m) (batch m) (current m))
    (<[next s := MkEvent (current_task_id p) false 0 0 now h async_task_completed]> (heap s))
    (S (next s)) (pipe s) (<[next s := Pending]> (calls s)) (handled s).

Lemma pool_push_spec h now pick s : pickable pick (threads (pool s)) → push h now pick s = Some (pushed h now pick s).
Proof. intros Hp. unfold push. cbn [new_event]. by rewrite notify_one_spec. Qed.

Lemma placed_pushed h now pick s : pickable pick (threads (pool s)) → placed s → placed (pushed h now pick s).
Proof.
  intros Hp [H1 H2]. split.
  - intros e. specialize (H1 e). unfold places, live, pushed in *. st. rewrite sum_notified; [|done|].
    + rewrite live_insert, cnt_app, cnt_cons, cnt_nil. unfold one. repeat case_decide; subst; try done; try lia.
      rewrite H2 in H1 by lia. cbn [there] in H1. lia.
    + intros th Hw. unfold holds. by rewrite Hw.
  - intros e He. cbn in *. rewrite lookup_insert_ne by lia. apply H2. lia.
Qed.

Lemma ready_pick cfg now pick s :
  ready cfg (LMain (Push now pick)) s = true → is_Some (pushing (main s)) ∧ pickable pick (threads (pool s)).
Proof.
  cbn. destruct pick as [t|]; rewrite andb_true_iff; intros [Hp Hw]; (split; [destruct (pushing _); [eauto|done]|]); cbn.
  - destruct (threads (pool s) !! t) as [th|]; [|done]. exists th. split; [done|]. unfold waits in Hw. by destruct (pc th).
  - apply Is_true_true, forallb_True in Hw. eapply Forall_impl; [exact Hw|]. intros th Hth. unfold waits in Hth. by destruct (pc th).
Qed.

Lemma placed_main cfg s a s' : placed s → ready cfg (LMain a) s = true → main_turn cfg a s = Some s' → placed s'.
Proof.
  intros Hs Hr. pose proof Hs as [H1 H2]. destruct a as [h now ok|now pick|now ok|n| | |e err| |]; cbn [main_turn].
  1,3: destruct (schedule_grows cfg now ok s Hs) as (k & -> & _); cbn [mbind option_bind]; intros [= <-];
    by apply (placed_main_fields (grown k s)); [..|apply placed_grown].
  - destruct (ready_pick _ _ _ _ Hr) as [[h Hh] Hp]. rewrite Hh. cbn [mbind option_bind]. rewrite pool_push_spec by done.
    intros [= <-]. by apply placed_pushed.
  - intros [= <-]. split; [|done]. intros e. etrans; [|exact (H1 e)]. unfold places. st.
    rewrite cnt_app, <- (cnt_take e n (pipe s)). lia.
  - destruct (batch (main s)) as [|e l] eqn:Eb; [done|]. unfold run_callback. st.
    assert (placed (with_main s (MkMain (task_num (main s)) (pushing (main s)) (reading (main s)) l (Some e)))) as Hs1.
    { split; [|done]. intros e'. etrans; [|exact (H1 e')]. unfold places. st. rewrite Eb, cnt_cons. cbn [ready] in Hr.
      rewrite !andb_true_iff in Hr. destruct Hr as [[_ Hc] _]. destruct (current (main s)); [done|].
      cbn [olist]. rewrite cnt_cons, cnt_nil. lia. }
    destruct (heap s !! e) as [ev|]; [|done]. cbn [mbind option_bind]. destruct (canceled ev); [by intros [= <-]|].
    destruct (callback ev) as [|t]; [by intros [= <-]|]. unfold release_thread. st.
    destruct (threads (pool s) !! t) as [th|] eqn:Et; [destruct (registered th)|]; cbn; intros [= <-];
      apply placed_main_fields; try done.
    destruct Hs1 as [H1' _]. split; [|done]. intros e'. etrans; [|exact (H1' e')]. unfold places. st.
    pose proof (sum_insert (holds e') _ t th (unregister th) Et). unfold holds at 2 4 in H. cbn in H.
    fold (holds e' th) in H. lia.
  - destruct (current (main s)) as [e|] eqn:Ec; [|done]. cbn [mbind option_bind]. unfold delete_event. st.
    destruct (heap s !! e) as [ev|] eqn:He; [|done]. cbn [mbind option_bind]. intros [= <-]. split.
    + intros e'. specialize (H1 e'). unfold places, live in *. st. rewrite Ec in H1. cbn [olist] in *.
      rewrite cnt_cons in H1. rewrite live_delete, cnt_nil. unfold one in *. repeat case_decide; subst; try done; try lia.
      rewrite He in H1. cbn [there] in H1. lia.
    + intros e' Hn. st. apply lookup_delete_None. right. by apply H2.
  - destruct (heap s !! e) as [ev|] eqn:He; [|done]. cbn [mbind option_bind]. intros [= <-]. by apply (placed_insert s e ev).
  - intros [= <-]. split; [|done]. intros e. etrans; [|exact (H1 e)]. unfold places, notify_all. st. rewrite sum_fmap; [done|].
    intros th. unfold holds. by destruct (pc th) eqn:E; cbn; rewrite ?E.
  - intros [= <-]. split; [|done]. intros e. etrans; [|exact (H1 e)]. unfold places. st. by rewrite sum_fmap.
Qed.

(** ** The threads and their counters *)

(** What [exit_flag] says at each point of a thread's body. *)
Definition thread_ok (r : bool) (th : Thread) : Prop :=
  (is_core_worker th = true → exit_flag th = false) ∧
  match pc th with
  | Send _ => True
  | Closing => exit_flag th = true
  | Exited => r = true → exit_flag th = true
  | Waiting => exit_flag th = false ∧ r = true
  | _ => exit_flag th = false
  end.

Record Consistent (s : State) : Prop := {
  c_ok : Forall (thread_ok (running (pool s))) (threads (pool s));
  c_waiting : n_waiting (pool s) = u64 (Z.of_nat (sum_list_with asleep (threads (pool s))));
  c_closing : n_closing (pool s) = u64 (Z.of_nat (sum_list_with leaving (threads (pool s)))) }.

Lemma u64_add a b : u64 (u64 a + b) = u64 (a + b).
Proof. unfold u64, wrap. by rewrite Zplus_mod_idemp_l. Qed.
Lemma u64_sub a b : u64 (u64 a - b) = u64 (a - b).
Proof. unfold u64, wrap. by rewrite Zminus_mod_idemp_l. Qed.
Lemma u32_add a b : u32 (u32 a + b) = u32 (a + b).
Proof. unfold u32, wrap. by rewrite Zplus_mod_idemp_l. Qed.
Lemma u32_sub a b : u32 (u32 a - b) = u32 (a - b).
Proof. unfold u32, wrap. by rewrite Zminus_mod_idemp_l. Qed.

(** A step of thread [t] that leaves it as [th'] and the counters at [w] and [k]. *)
Lemma consistent_update s s' t th th' :
  Consistent s → threads (pool s) !! t = Some th → running (pool s') = running (pool s) →
  threads (pool s') = <[t := th']> (threads (pool s)) → thread_ok (running (pool s)) th' →
  n_waiting (pool s') = u64 (n_waiting (pool s) + Z.of_nat (asleep th') - Z.of_nat (asleep th)) →
  n_closing (pool s') = u64 (n_closing (pool s) + Z.of_nat (leaving th') - Z.of_nat (leaving th)) →
  Consistent s'.
Proof.
  intros [H1 H2 H3] Ht Hr Hth Hok Hw Hc. split.
  - rewrite Hr, Hth. by apply Forall_insert.
  - rewrite Hw, H2, Hth. replace (u64 _ + _ - _) with (u64 (Z.of_nat (sum_list_with asleep (threads (pool s)))) + (Z.of_nat (asleep th') - Z.of_nat (asleep th))) by lia.
    rewrite u64_add. f_equal. pose proof (sum_insert asleep _ t th th' Ht). lia.
  - rewrite Hc, H3, Hth. replace (u64 _ + _ - _) with (u64 (Z.of_nat (sum_list_with leaving (threads (pool s)))) + (Z.of_nat (leaving th') - Z.of_nat (leaving th))) by lia.
    rewrite u64_add. f_equal. pose proof (sum_insert leaving _ t th th' Ht). lia.
Qed.

Lemma consistent_wraps s : Consistent s → u64 (n_waiting (pool s)) = n_waiting (pool s) ∧ u64 (n_closing (pool s)) = n_closing (pool s).
Proof. intros [_ -> ->]. unfold u64, wrap. by rewrite !Zmod_mod. Qed.

Lemma consistent_pool s s' :
  running (pool s') = running (pool s) → n_waiting (pool s') = n_waiting (pool s) →
  n_closing (pool s') = n_closing (pool s) → threads (pool s') = threads (pool s) → Consistent s → Consistent s'.
Proof. intros Hr Hw Hc Ht [H1 H2 H3]. by split; rewrite ?Hr, ?Hw, ?Hc, ?Ht. Qed.

(** The counters after a step, where [exit_flag] is known. *)
Ltac settle :=
  try done; cbn; repeat match goal with H : exit_flag _ = _ |- _ => rewrite H end; cbn;
  rewrite ?Z.add_0_r, ?Z.sub_0_r, ?Z.add_simpl_r; try done; try congruence.

Lemma run_handler_pool s c e s' : run_handler c e s = Some s' → pool s' = pool s.
Proof. unfold run_handler. destruct (heap s !! e); [|done]. cbn [mbind option_bind]. intros. repeat case_match; by simplify_eq. Qed.

Lemma consistent_woken cfg s c t th :
  Consistent s → threads (pool s) !! t = Some th → pc th = Waiting ∨ pc th = Notified → exit_flag th = false →
  Consistent (woken cfg c t th s).
Proof.
  intros Hs Ht Hpc He. pose proof (consistent_wraps s Hs) as [Hw Hk].
  pose proof (Forall_lookup_1 _ _ _ _ (c_ok s Hs) Ht) as [Hcore Hok].
  assert (asleep th = 1%nat ∧ leaving th = O) as [Ha Hl].
  { unfold asleep, leaving, exited. rewrite He. by destruct Hpc as [-> | ->]. }
  unfold woken. cbn [new_event]. destruct (c_timeout c && timed cfg th) eqn:Etm; [destruct (running _ && _) eqn:Er|].
  - eapply consistent_update; try done; rewrite ?Ha, ?Hl; unfold thread_ok, leaving, exited; settle.
    apply andb_true_iff in Er as [-> _]. done.
  - eapply consistent_update; try done; rewrite ?Ha, ?Hl; unfold thread_ok, leaving, exited; settle.
    split; [|done]. intros Hc. unfold timed in Etm. rewrite Hc, andb_comm in Etm. done.
  - eapply consistent_update; try done; rewrite ?Ha, ?Hl; unfold thread_ok, leaving, exited; settle.
Qed.

Lemma consistent_thread cfg s c t s' : Consistent s → thread_turn cfg c t s = Some s' → Consistent s'.
Proof.
  intros Hs. pose proof (consistent_wraps s Hs) as [Hw Hk]. unfold thread_turn.
  destruct (threads (pool s) !! t) as [th|] eqn:Ht; [|done]. cbn [mbind option_bind].
  pose proof (Forall_lookup_1 _ _ _ _ (c_ok s Hs) Ht) as [Hcore Hok].
  assert (∀ s1 p, running (pool s1) = running (pool s) → threads (pool s1) = threads (pool s) →
    n_waiting (pool s1) = u64 (n_waiting (pool s) + Z.of_nat (asleep (at_pc th p)) - Z.of_nat (asleep th)) →
    n_closing (pool s1) = u64 (n_closing (pool s) + Z.of_nat (leaving (at_pc th p)) - Z.of_nat (leaving th)) →
    thread_ok (running (pool s)) (at_pc th p) → Consistent (goto t th p s1)) as Hgo.
  { intros s1 p Hr Hth ???. eapply consistent_update; try done; st; congruence. }
  unfold asleep, leaving, thread_ok, exited in Hgo.
  destruct (pc th) as [| |e|e| | | | |] eqn:Hpc.
  - intros [= <-]. destruct (running (pool s)) eqn:Er; apply Hgo; settle.
  - destruct (queue (pool s)); intros [= <-]; apply Hgo; settle.
  - destruct (run_handler c e s) as [s1|] eqn:Er; [|done]. cbn [mbind option_bind]. intros [= <-].
    apply run_handler_pool in Er. apply Hgo; rewrite ?Er; settle.
  - unfold send_event, delete_event. destruct (heap s !! e); [|done]. cbn [mbind option_bind].
    destruct (c_write c) as [|errno]; [|destruct (_ || _)]; intros [= <-]; try done;
      destruct (exit_flag th) eqn:Ef; apply Hgo; settle.
  - destruct (0 <? _); [|destruct (running (pool s)) eqn:Er]; intros [= <-]; apply Hgo; settle.
  - destruct Hok as [He _]. intros [= <-]. apply consistent_woken; auto.
  - intros [= <-]. apply consistent_woken; auto.
  - intros [= <-]. rewrite Hok in Hcore. apply Hgo; settle.
  - by intros [= <-].
Qed.

Lemma consistent_map s s' g :
  Consistent s → running (pool s') = running (pool s) → n_waiting (pool s') = n_waiting (pool s) →
  n_closing (pool s') = n_closing (pool s) → threads (pool s') = g <$> threads (pool s) →
  (∀ th, pc (g th) = pc th ∧ exit_flag (g th) = exit_flag th ∧ is_core_worker (g th) = is_core_worker th) → Consistent s'.
Proof.
  intros [H1 H2 H3] Hr Hw Hc Ht Hg. split; rewrite ?Hr, ?Hw, ?Hc, ?Ht.
  - apply Forall_fmap. eapply Forall_impl; [exact H1|]. intros th. unfold thread_ok. cbn.
    destruct (Hg th) as (-> & -> & ->). done.
  - rewrite sum_fmap; [done|]. intros th. unfold asleep. by destruct (Hg th) as (-> & _).
  - rewrite sum_fmap; [done|]. intros th. unfold leaving, exited. by destruct (Hg th) as (-> & -> & _).
Qed.

Lemma consistent_insert s s' t th th' :
  Consistent s → running (pool s') = running (pool s) → n_waiting (pool s') = n_waiting (pool s) →
  n_closing (pool s') = n_closing (pool s) → threads (pool s) !! t = Some th →
  threads (pool s') = <[t := th']> (threads (pool s)) → thread_ok (running (pool s)) th' →
  asleep th' = asleep th → leaving th' = leaving th → Consistent s'.
Proof.
  intros Hs Hr Hw Hc Ht Hi Hok Ha Hl. pose proof (consistent_wraps s Hs) as [Hw' Hk'].
  eapply consistent_update; try done; rewrite ?Ha, ?Hl, ?Hw, ?Hc, Z.add_simpl_r; done.
Qed.

Lemma consistent_grown k s : Consistent s → Consistent (grown k s).
Proof.
  intros [H1 H2 H3]. split; rewrite ?sum_grown; try done. cbn. apply Forall_app. split; [done|].
  apply Forall_replicate. done.
Qed.

Lemma consistent_main cfg s a s' :
  placed s → Consistent s → ready cfg (LMain a) s = true → main_turn cfg a s = Some s' → Consistent s'.
Proof.
  intros Hp Hs Hr. destruct a as [h now ok|now pick|now ok|n| | |e err| |]; cbn [main_turn].
  1,3: destruct (schedule_grows cfg now ok s Hp) as (k & -> & _); cbn [mbind option_bind]; intros [= <-];
    apply (consistent_pool (grown k s)); try done; by apply consistent_grown.
  - destruct (ready_pick _ _ _ _ Hr) as [[h ->] Hk]. cbn [mbind option_bind]. rewrite pool_push_spec by done.
    intros [= <-]. destruct pick as [t|]; [|by apply (consistent_pool s)].
    destruct Hk as (th & Ht & Hw). pose proof (Forall_lookup_1 _ _ _ _ (c_ok s Hs) Ht) as [Hcore Hok].
    rewrite Hw in Hok. destruct Hok as [He _].
    eapply (consistent_insert s _ t th (at_pc th Notified)); try done.
    + cbn. by rewrite Ht.
    + unfold asleep. by rewrite Hw.
    + unfold leaving, exited. by rewrite Hw.
  - intros [= <-]. by apply (consistent_pool s).
  - destruct (batch (main s)) as [|e l]; [done|]. unfold run_callback. st. destruct (heap s !! e) as [ev|]; [|done].
    cbn [mbind option_bind]. destruct (canceled ev); [intros [= <-]; by apply (consistent_pool s)|].
    destruct (callback ev) as [|t]; [intros [= <-]; by apply (consistent_pool s)|]. unfold release_thread. st.
    destruct (threads (pool s) !! t) as [th|] eqn:Et; [destruct (registered th)|]; cbn; intros [= <-]; try by apply (consistent_pool s).
    pose proof (Forall_lookup_1 _ _ _ _ (c_ok s Hs) Et). by eapply (consistent_insert s _ t th (unregister th)).
  - destruct (current (main s)); [|done]. cbn [mbind option_bind]. unfold delete_event. st. destruct (heap s !! n); [|done]. intros [= <-]. by apply (consistent_pool s).
  - destruct (heap s !! e); [|done]. intros [= <-]. by apply (consistent_pool s).
  - intros [= <-]. destruct Hs as [H1 H2 H3]. split; st; unfold notify_all.
    + apply Forall_fmap. eapply Forall_impl; [exact H1|]. intros th [Hc Hok]. unfold thread_ok. cbn.
      destruct (pc th) eqn:E; cbn; rewrite ?E; try done. destruct Hok. done.
    + rewrite sum_fmap; [done|]. intros th. unfold asleep. by destruct (pc th) eqn:E; cbn; rewrite ?E.
    + rewrite sum_fmap; [done|]. intros th. unfold leaving, exited. by destruct (pc th) eqn:E; cbn; rewrite ?E.
  - intros [= <-]. by apply (consistent_map s _ unregister).
Qed.

(** ** The calls and their events *)

#[global] Instance Callback_eq_dec : EqDecision Callback.
Proof. solve_decision. Defined.

(** The events of calls among those that exist. *)
Definition tasks (h : gmap nat AsyncEvent) : nat :=
  size (filter (λ kv : nat * AsyncEvent, callback kv.2 = async_task_completed) h).

Definition tasks1 (ev : AsyncEvent) : nat := if decide (callback ev = async_task_completed) then 1%nat else O.

Lemma tasks_new h e ev : h !! e = None → tasks (<[e := ev]> h) = (tasks h + tasks1 ev)%nat.
Proof.
  intros He. unfold tasks, tasks1. case_decide as Hc.
  - rewrite map_filter_insert_True, map_size_insert_None by (done || by apply map_lookup_filter_None; left). lia.
  - rewrite map_filter_insert_False, delete_id by done. lia.
Qed.

Lemma tasks_delete h e ev : h !! e = Some ev → tasks h = (tasks (delete e h) + tasks1 ev)%nat.
Proof. intros He. rewrite <- (insert_delete_id h e ev He) at 1. apply tasks_new. by rewrite lookup_delete_eq. Qed.

Lemma tasks_update h e ev ev' :
  h !! e = Some ev → callback ev' = callback ev → tasks (<[e := ev']> h) = tasks h.
Proof.
  intros He Hc. rewrite (tasks_delete h e ev He), <- insert_delete_eq, tasks_new by (by rewrite lookup_delete_eq).
  unfold tasks1. by rewrite Hc.
Qed.

(** [callback] has counted up for a released thread and has not yet counted down. *)
Definition extra (s : State) : nat :=
  match current (main s) with
  | Some e => match heap s !! e with Some ev => (1 - tasks1 ev)%nat | None => O end
  | None => O
  end.

(** The places where an event is that no thread has handled yet. *)
Definition todo (s : State) (e : nat) : nat :=
  (cnt e (queue (pool s)) + sum_list_with (handles e) (threads (pool s)))%nat.

Definition answered (s : State) (e : nat) (r : Z * Z) : Prop := (e, r) ∈ handled s ∨ r = (-1, OSW_ERROR_AIO_BAD_REQUEST).

Record Booked (s : State) : Prop := {
  b_fresh : ∀ e, (next s ≤ e)%nat → calls s !! e = None ∧ e ∉ (handled s).*1;
  b_kind : ∀ e ev, heap s !! e = Some ev → callback ev = async_task_completed ↔ is_Some (calls s !! e);
  b_cancel : ∀ e ev, heap s !! e = Some ev → canceled ev = true → ∃ r, calls s !! e = Some (Returned false r);
  b_pending : ∀ e, calls s !! e = Some Pending → is_Some (heap s !! e) ∧ current (main s) ≠ Some e;
  b_wait : ∀ e ev, heap s !! e = Some ev → callback ev = async_task_completed → canceled ev = false →
    current (main s) ≠ Some e → calls s !! e = Some Pending;
  b_once : NoDup (handled s).*1;
  b_todo : ∀ e, e ∈ (handled s).*1 → todo s e = O;
  b_done : ∀ e ev, heap s !! e = Some ev → callback ev = async_task_completed → todo s e = O → canceled ev = false →
    answered s e (retval ev, error ev);
  b_result : ∀ e r, calls s !! e = Some (Returned true r) → answered s e r;
  b_release : ∀ e ev t, heap s !! e = Some ev → callback ev = release_callback t →
    ∃ th, threads (pool s) !! t = Some th ∧ exit_flag th = true ∧
      (running (pool s) = true → current (main s) ≠ Some e → registered th = true);
  b_unique : ∀ e1 e2 ev1 ev2 t, heap s !! e1 = Some ev1 → heap s !! e2 = Some ev2 →
    callback ev1 = release_callback t → callback ev2 = release_callback t → e1 = e2;
  b_tasks : task_num (main s) = u32 (Z.of_nat (tasks (heap s) + extra s)) }.

(** Threads keep their flags. *)
Definition keeps (l l' : list Thread) : Prop :=
  ∀ t th, l !! t = Some th → exit_flag th = true →
    ∃ th', l' !! t = Some th' ∧ exit_flag th' = true ∧ (registered th = true → registered th' = true).

Lemma keeps_flags_refl l : keeps l l.
Proof. intros t th. eauto. Qed.

Lemma keeps_insert l t th th' :
  l !! t = Some th → (exit_flag th = true → exit_flag th' = true) → registered th' = registered th → keeps l (<[t := th']> l).
Proof.
  intros Ht He Hr t' th1 Ht1 He1. destruct (decide (t' = t)) as [->|].
  - simplify_eq. exists th'. rewrite list_lookup_insert_eq by (by eapply lookup_lt_Some). rewrite Hr. auto.
  - exists th1. by rewrite list_lookup_insert_ne.
Qed.

(** Steps that touch no event. *)
Lemma booked_same s s' :
  Booked s → heap s' = heap s → next s' = next s → calls s' = calls s → handled s' = handled s →
  task_num (main s') = task_num (main s) → current (main s') = current (main s) →
  running (pool s') = running (pool s) ∨ running (pool s') = false →
  (∀ e, todo s' e = todo s e) → keeps (threads (pool s)) (threads (pool s')) → Booked s'.
Proof.
  intros [] Hh Hn Hc Hd Ht Hu Hr Htd Hk. split; unfold answered, extra in *; rewrite ?Hh, ?Hn, ?Hc, ?Hd, ?Ht, ?Hu in *; try done.
  - intros e He. rewrite Htd. auto.
  - intros e ev. rewrite Htd. auto.
  - intros e ev t He Hcb. destruct (b_release0 e ev t He Hcb) as (th & H1 & H2 & H3).
    destruct (Hk t th H1 H2) as (th' & ? & ? & Hreg). exists th'. split_and!; try done.
    intros Hrun Hcur. destruct Hr as [Hr|Hf]; [rewrite Hr in Hrun; auto|congruence].
Qed.

(** ** Steps of a thread *)

Lemma handles_le e l : (sum_list_with (handles e) l ≤ sum_list_with (holds e) l)%nat.
Proof. induction l as [|th l IH]; [done|]. cbn. assert (handles e th ≤ holds e th)%nat; [|lia]. unfold handles, holds. destruct (pc th); lia. Qed.

(** An event that is in a place behind the handlers is not to be handled any more. *)
Lemma todo_elsewhere s e :
  placed s → (cnt e (pipe s) + cnt e (batch (main s)) + cnt e (olist (current (main s))) > 0)%nat → todo s e = O.
Proof.
  intros [H1 _] Hp. specialize (H1 e). unfold places, live, todo in *. pose proof (handles_le e (threads (pool s))).
  destruct (heap s !! e); cbn in H1; lia.
Qed.

Lemma todo_goto s t th p e :
  threads (pool s) !! t = Some th → (todo (goto t th p s) e + handles e th = todo s e + handles e (at_pc th p))%nat.
Proof. intros H. unfold todo. st. pose proof (sum_insert (handles e) _ t th (at_pc th p) H). lia. Qed.

Lemma booked_goto s s1 t th p :
  Booked s → threads (pool s) !! t = Some th → threads (pool s1) = threads (pool s) → queue (pool s1) = queue (pool s) →
  (∀ e, handles e (at_pc th p) = handles e th) → running (pool s1) = running (pool s) →
  heap s1 = heap s → next s1 = next s → calls s1 = calls s → handled s1 = handled s → main s1 = main s →
  Booked (goto t th p s1).
Proof.
  intros Hs Ht Hth Hq Hh Hr ????? . apply (booked_same s); st; try congruence; auto.
  - intros e. rewrite <- Hth in Ht. pose proof (todo_goto s1 t th p e Ht). rewrite Hh in *. unfold todo in *. rewrite Hth, Hq in *. lia.
  - rewrite Hth. by apply keeps_insert with th.
Qed.

(** An event gets its result. *)
Lemma booked_handled s c t th e s1 :
  placed s → Booked s → threads (pool s) !! t = Some th → pc th = Handle e → run_handler c e s = Some s1 →
  Booked (goto t th (Send e) s1).
Proof.
  intros Hp Hs Ht Hpc. unfold run_handler. destruct (heap s !! e) as [ev|] eqn:He; [|done]. cbn [mbind option_bind].
  assert (todo s e = 1%nat) as H1.
  { destruct Hp as [Hp _]. specialize (Hp e). unfold places, live, todo in *. rewrite He in Hp. cbn [there] in Hp.
    pose proof (handles_le e (threads (pool s))). pose proof (sum_ge (handles e) _ _ _ Ht) as Hg.
    unfold handles at 1 in Hg. rewrite Hpc, one_eq in Hg. lia. }
  assert (∀ e', todo (goto t th (Send e) s) e' = if decide (e' = e) then O else todo s e') as Htd.
  { intros e'. pose proof (todo_goto s t th (Send e) e' Ht) as Hg. change (handles e' (at_pc th (Send e))) with O in Hg.
    unfold handles in Hg. rewrite Hpc in Hg. unfold one in Hg. repeat case_decide; subst; try done; lia. }
  assert (e ∉ (handled s).*1) as Hnh. { intros Hin%(b_todo s Hs). lia. }
  set (r := if negb (handler ev) then (-1, OSW_ERROR_AIO_BAD_REQUEST) else if canceled ev then (-1, OSW_ERROR_AIO_CANCELED) else c_result c).
  set (d := if negb (handler ev) then [] else if canceled ev then [] else [(e, c_result c)]).
  assert (∀ e', e' ∈ d.*1 → e' = e) as Hd1.
  { intros e'. unfold d. destruct (handler ev), (canceled ev); cbn; rewrite ?elem_of_nil, ?list_elem_of_singleton; tauto. }
  assert (NoDup d.*1) as Hd2.
  { unfold d. destruct (handler ev), (canceled ev); cbn; auto using NoDup_nil_2, NoDup_singleton. }
  set (s2 := MkState (pool s) (main s) (<[e := set_result ev r]> (heap s)) (next s) (pipe s) (calls s) (handled s ++ d)).
  intros H. assert (s1 = s2) as ->.
  { unfold s2, r, d. destruct (handler ev), (canceled ev); cbn in *; injection H as <-; by rewrite ?app_nil_r. }
  clear H. pose proof Hs as [].
  assert (∃ s3, s3 = goto t th (Send e) s2) as [s3 E3] by eauto. rewrite <- E3.
  assert (heap s3 = <[e := set_result ev r]> (heap s) ∧ next s3 = next s ∧ calls s3 = calls s ∧ handled s3 = handled s ++ d ∧
    main s3 = main s ∧ running (pool s3) = running (pool s) ∧ threads (pool s3) = <[t := at_pc th (Send e)]> (threads (pool s)) ∧
    ∀ e', todo s3 e' = if decide (e' = e) then O else todo s e') as (Eh & En & Ec & Ed & Em & Er & Eth & Etd).
  { rewrite E3. split_and!; done. }
  clear E3 Htd. split; unfold answered; rewrite ?Eh, ?En, ?Ec, ?Ed, ?Em, ?Er, ?Eth.
  - intros e' Hn. destruct (b_fresh0 e' Hn) as [? Hf]. split; [done|]. rewrite fmap_app, elem_of_app.
    intros [?|Hin]; [done|]. apply (proj2 Hp) in Hn. rewrite (Hd1 _ Hin) in *. congruence.
  - intros e' ev' [[<- <-]|[??]]%lookup_insert_Some; [by apply (b_kind0 e ev)|by apply b_kind0].
  - intros e' ev' [[<- <-]|[??]]%lookup_insert_Some; [by apply (b_cancel0 e ev)|by apply b_cancel0].
  - intros e' Hc. destruct (b_pending0 e' Hc). split; [|done]. apply lookup_insert_is_Some'. auto.
  - intros e' ev' [[<- <-]|[??]]%lookup_insert_Some; [by apply (b_wait0 e ev)|by apply b_wait0].
  - rewrite fmap_app. apply NoDup_app. split_and!; [done| |done]. intros e' Hin ->%Hd1. done.
  - intros e'. rewrite Etd, fmap_app, elem_of_app.
    case_decide; [done|]. intros [?|Hin]; [auto|]. by apply Hd1 in Hin.
  - intros e' ev'. rewrite Etd.
    intros [[<- <-]|[??]]%lookup_insert_Some Hcb.
    + intros _ Hcan. cbn in Hcan. cbn. fold r. unfold r, d. rewrite Hcan. destruct (handler ev); cbn; [left|by right].
      rewrite elem_of_app, list_elem_of_singleton. right. by destruct (c_result c).
    + rewrite decide_False by done. intros. destruct (b_done0 e' ev'); auto. left. rewrite elem_of_app. auto.
  - intros e' r' Hc. destruct (b_result0 e' r' Hc); auto. left. rewrite elem_of_app. auto.
  - intros e' ev' t' Hl Hcb.
    assert (∃ ev1, heap s !! e' = Some ev1 ∧ callback ev1 = release_callback t') as (ev1 & Hl1 & Hcb1).
    { apply lookup_insert_Some in Hl as [[<- <-]|[??]]; eauto. }
    destruct (b_release0 e' ev1 t' Hl1 Hcb1) as (th1 & Hth1 & Hex & Hreg).
    destruct (keeps_insert (threads (pool s)) t th (at_pc th (Send e)) Ht id eq_refl t' th1 Hth1 Hex) as (th' & ? & ? & ?). eauto 10.
  - intros e1 e2 ev1 ev2 t' H2 H3 Hc1 Hc2.
    assert (∀ e' ev', <[e := set_result ev r]> (heap s) !! e' = Some ev' → ∃ ev0, heap s !! e' = Some ev0 ∧ callback ev0 = callback ev') as Hback.
    { intros e' ev' [[<- <-]|[??]]%lookup_insert_Some; eauto. }
    destruct (Hback _ _ H2) as (x1 & ? & E1), (Hback _ _ H3) as (x2 & ? & E2). apply (b_unique0 e1 e2 x1 x2 t'); congruence.
  - rewrite b_tasks0. do 2 f_equal. rewrite (tasks_update _ _ ev) by done. f_equal. unfold extra. rewrite Em, Eh.
    destruct (current (main s)) as [e'|]; [|done]. destruct (decide (e' = e)) as [->|]; [|by rewrite lookup_insert_ne].
    by rewrite lookup_insert_eq, He.
Qed.

(** A thread that leaves makes an event for its own release. *)
Lemma booked_leaving s s3 t th :
  placed s → Booked s → threads (pool s) !! t = Some th → exit_flag th = false → registered th = true →
  (∀ e, handles e th = O) →
  heap s3 = <[next s := MkEvent 0 false 0 0 0 false (release_callback t)]> (heap s) → next s3 = S (next s) →
  calls s3 = calls s → handled s3 = handled s → main s3 = main s → running (pool s3) = running (pool s) →
  queue (pool s3) = queue (pool s) → threads (pool s3) = <[t := at_pc (set_exit th) (Send (next s))]> (threads (pool s)) →
  Booked s3.
Proof.
  intros Hp Hs Ht Hex Hreg Hh Eh En Ec Ed Em Er Eq Eth. pose proof Hs as []. pose proof (proj2 Hp (next s) (le_n _)) as Hnew.
  assert (∀ e', todo s3 e' = todo s e') as Etd.
  { intros e'. unfold todo. rewrite Eq, Eth. pose proof (sum_insert (handles e') _ t th (at_pc (set_exit th) (Send (next s))) Ht) as Hg.
    rewrite Hh in Hg. change (handles e' (at_pc (set_exit th) (Send (next s)))) with O in Hg. lia. }
  assert (∀ e ev t', heap s !! e = Some ev → callback ev = release_callback t' → t' ≠ t) as Hne.
  { intros e ev t' He Hc ->. destruct (b_release0 e ev t He Hc) as (th' & ? & ? & _). congruence. }
  split; unfold answered; rewrite ?Eh, ?En, ?Ec, ?Ed, ?Em, ?Er, ?Eth; try done.
  - intros e He. apply b_fresh0. lia.
  - intros e ev [[<- <-]|[??]]%lookup_insert_Some; [|by apply b_kind0]. cbn. rewrite (proj1 (b_fresh0 (next s) (le_n _))).
    split; [done|by intros []].
  - intros e ev [[<- <-]|[??]]%lookup_insert_Some; [done|by apply b_cancel0].
  - intros e Hc. destruct (b_pending0 e Hc). split; [|done]. apply lookup_insert_is_Some'. auto.
  - intros e ev [[<- <-]|[??]]%lookup_insert_Some; [done|by apply b_wait0].
  - intros e. rewrite Etd. apply b_todo0.
  - intros e ev. rewrite Etd. intros [[<- <-]|[??]]%lookup_insert_Some; [done|by apply b_done0].
  - intros e ev t' [[<- <-]|[??]]%lookup_insert_Some Hc.
    + cbn in Hc. simplify_eq. exists (at_pc (set_exit th) (Send (next s))).
      by rewrite list_lookup_insert_eq by (by eapply lookup_lt_Some).
    + destruct (b_release0 e ev t') as (th' & Hl & ? & ?); try done. exists th'.
      by rewrite list_lookup_insert_ne by (by eapply not_eq_sym, Hne).
  - intros e1 e2 ev1 ev2 t' [[<- <-]|[??]]%lookup_insert_Some [[<- <-]|[??]]%lookup_insert_Some Hc1 Hc2; try done.
    + cbn in Hc1. simplify_eq. exfalso. by eapply Hne.
    + cbn in Hc2. simplify_eq. exfalso. by eapply Hne.
    + by eapply b_unique0.
  - rewrite b_tasks0, tasks_new by done. do 2 f_equal. unfold tasks1. cbn [callback].
    rewrite decide_False by done. rewrite Nat.add_0_r. f_equal. unfold extra. rewrite Em, Eh.
    destruct (current (main s)) as [e|] eqn:Ecur; [|done]. rewrite lookup_insert_ne; [done|]. intros <-.
    destruct Hp as [Hp _]. specialize (Hp (next s)). unfold places, live in Hp. rewrite Ecur, Hnew in Hp. cbn [olist there] in Hp.
    rewrite cnt_cons, one_eq in Hp. lia.
Qed.

(** A thread that has not left is in the map. *)
Definition listed (s : State) : Prop :=
  Forall (λ th, exit_flag th = false → pc th ≠ Exited → registered th = true) (threads (pool s)).

Definition retry (errno : Z) : bool := (errno =? EAGAIN) || (errno =? EINTR).

(** The pipe works: a write succeeds or is tried again. *)
Definition reliable (s : State) (l : Label) : Prop :=
  match l with LThread _ c => match c_write c with Written => True | Failed errno => retry errno = true end | LMain _ => True end.

Lemma booked_woken cfg s c t th :
  placed s → Consistent s → Booked s → listed s → threads (pool s) !! t = Some th →
  pc th = Waiting ∨ pc th = Notified → Booked (woken cfg c t th s).
Proof.
  intros Hp Hc Hs Hl Ht Hpc. assert (∀ e, handles e th = O) as Hh by (intros; unfold handles; by destruct Hpc as [-> | ->]).
  assert (exit_flag th = false) as Hex.
  { pose proof (Forall_lookup_1 _ _ _ _ (c_ok s Hc) Ht) as [_ Hok]. destruct Hpc as [E|E]; rewrite E in Hok; [by destruct Hok|done]. }
  assert (registered th = true) as Hreg. { apply (Forall_lookup_1 _ _ _ _ Hl Ht Hex). by destruct Hpc as [-> | ->]. }
  unfold woken. cbn [new_event]. destruct (c_timeout c && timed cfg th); [destruct (running _ && _)|].
  - by apply (booked_goto s).
  - by apply (booked_leaving s _ t th).
  - by apply (booked_goto s).
Qed.

Lemma listed_insert s s' t th th' :
  listed s → threads (pool s) !! t = Some th → threads (pool s') = <[t := th']> (threads (pool s)) →
  (exit_flag th' = false → pc th' ≠ Exited → exit_flag th = false ∧ pc th ≠ Exited ∧ registered th' = registered th) → listed s'.
Proof.
  intros Hl Ht E Hok. unfold listed. rewrite E. apply Forall_insert; [done|]. intros Hex Hpc.
  destruct (Hok Hex Hpc) as (? & ? & ->). by apply (Forall_lookup_1 _ _ _ _ Hl Ht).
Qed.

Lemma listed_thread cfg s c t s' : listed s → thread_turn cfg c t s = Some s' → listed s'.
Proof.
  intros Hl. unfold thread_turn. destruct (threads (pool s) !! t) as [th|] eqn:Ht; [|done]. cbn [mbind option_bind].
  assert (∀ s1 p, pc th ≠ Exited → threads (pool s1) = threads (pool s) → listed (goto t th p s1)) as Hgo.
  { intros s1 p Hpc E. apply (listed_insert s _ t th (at_pc th p)); st; [done..|congruence|]. by intros. }
  destruct (pc th) as [| |e|e| | | | |] eqn:Hpc.
  - intros [= <-]. by apply Hgo.
  - destruct (queue (pool s)); intros [= <-]; by apply Hgo.
  - destruct (run_handler c e s) as [s1|] eqn:Er; [|done]. cbn [mbind option_bind]. intros [= <-].
    apply Hgo; [done|]. by rewrite (run_handler_pool _ _ _ _ Er).
  - unfold send_event, delete_event. destruct (heap s !! e); [|done]. cbn [mbind option_bind].
    destruct (c_write c) as [|errno]; [|destruct (_ || _)]; intros [= <-]; try done; by apply Hgo.
  - destruct (0 <? _); [|destruct (running (pool s))]; intros [= <-]; by apply Hgo.
  - unfold woken. cbn [new_event]. destruct (_ && _); [destruct (_ && _)|]; intros [= <-]; try by apply Hgo.
    by apply (listed_insert s _ t th (at_pc (set_exit th) (Send (next s)))).
  - unfold woken. cbn [new_event]. destruct (_ && _); [destruct (_ && _)|]; intros [= <-]; try by apply Hgo.
    by apply (listed_insert s _ t th (at_pc (set_exit th) (Send (next s)))).
  - intros [= <-]. by apply Hgo.
  - by intros [= <-].
Qed.

Lemma booked_thread cfg s c t s' :
  placed s → Consistent s → Booked s → listed s → reliable s (LThread t c) → thread_turn cfg c t s = Some s' → Booked s'.
Proof.
  intros Hp Hc Hs Hl Hrel. unfold thread_turn. destruct (threads (pool s) !! t) as [th|] eqn:Ht; [|done]. cbn [mbind option_bind].
  destruct (pc th) as [| |e|e| | | | |] eqn:Hpc.
  - intros [= <-]. apply (booked_goto s); try done. intros. unfold handles. rewrite Hpc. by destruct (running _).
  - destruct (queue (pool s)) as [|e q] eqn:Hq; intros [= <-].
    + apply (booked_goto s); try done. intros. unfold handles. by rewrite Hpc.
    + apply (booked_same s); st; try done; auto.
      * intros e'. pose proof (sum_insert (handles e') _ t th (at_pc th (Handle e)) Ht) as Hg. unfold todo. st.
        rewrite Hq, cnt_cons. change (handles e' (at_pc th (Handle e))) with (one e' e) in Hg.
        assert (handles e' th = O) by (unfold handles; by rewrite Hpc). lia.
      * by apply keeps_insert with th.
  - destruct (run_handler c e s) as [s1|] eqn:Er; [|done]. cbn [mbind option_bind]. intros [= <-]. by eapply booked_handled.
  - unfold send_event. cbn in Hrel. destruct (heap s !! e); [|done]. cbn [mbind option_bind].
    destruct (c_write c) as [|errno]; [|unfold retry in Hrel; rewrite Hrel]; intros [= <-]; [|done].
    apply (booked_goto s); try done. intros. unfold handles. rewrite Hpc. by destruct (exit_flag th).
  - destruct (0 <? _); [|destruct (running (pool s)) eqn:Er]; intros [= <-]; apply (booked_goto s); try done;
      intros; unfold handles; by rewrite Hpc.
  - intros [= <-]. apply booked_woken; auto.
  - intros [= <-]. apply booked_woken; auto.
  - intros [= <-]. apply (booked_goto s); try done. intros. unfold handles. by rewrite Hpc.
  - by intros [= <-].
Qed.

(** ** Steps of the main thread *)

Lemma keeps_grown k s : keeps (threads (pool s)) (threads (pool (grown k s))).
Proof. intros t th Ht He. exists th. split_and!; try done. cbn. by apply lookup_app_l_Some. Qed.

Lemma todo_grown k s e : todo (grown k s) e = todo s e.
Proof. unfold todo. by rewrite sum_grown. Qed.

Lemma keeps_notified pick l : pickable pick l → keeps l (notified pick l).
Proof. destruct pick as [t|]; [|intros _; apply keeps_flags_refl]. intros (th & Ht & _). cbn. rewrite Ht. by apply keeps_insert with th. Qed.

Lemma booked_pushed h now pick s :
  placed s → Booked s → pickable pick (threads (pool s)) → Booked (pushed h now pick s).
Proof.
  intros Hp Hs Hk. pose proof Hs as []. pose proof (proj2 Hp (next s) (le_n _)) as Hnew.
  destruct (b_fresh0 (next s) (le_n _)) as [Hnc Hnh].
  assert (∀ e, todo (pushed h now pick s) e = (todo s e + one e (next s))%nat) as Htd.
  { intros e. unfold todo, pushed. st. rewrite sum_notified, cnt_app, cnt_cons, cnt_nil; [lia|done|].
    intros th Hw. unfold handles. by rewrite Hw. }
  assert (current (main s) ≠ Some (next s)) as Hcur.
  { intros Ecur. destruct Hp as [Hp _]. specialize (Hp (next s)). unfold places, live in Hp. rewrite Ecur, Hnew in Hp.
    cbn [olist there] in Hp. rewrite cnt_cons, one_eq in Hp. lia. }
  split; unfold answered.
  - cbn. intros e He. rewrite lookup_insert_ne by lia. apply b_fresh0. lia.
  - cbn. intros e ev [[<- <-]|[??]]%lookup_insert_Some; [by rewrite lookup_insert_eq|].
    rewrite lookup_insert_ne by done. by apply b_kind0.
  - cbn. intros e ev [[<- <-]|[??]]%lookup_insert_Some; [done|]. rewrite lookup_insert_ne by done. by apply b_cancel0.
  - cbn. intros e [[<- _]|[??]]%lookup_insert_Some; [by rewrite lookup_insert_eq|].
    rewrite lookup_insert_ne by done. by apply b_pending0.
  - cbn. intros e ev [[<- <-]|[??]]%lookup_insert_Some; [by rewrite lookup_insert_eq|].
    rewrite lookup_insert_ne by done. by apply b_wait0.
  - done.
  - intros e He. rewrite Htd. unfold one. rewrite decide_False; [rewrite b_todo0; done|]. intros <-. done.
  - intros e ev. rewrite Htd. cbn. intros [[<- <-]|[??]]%lookup_insert_Some; [rewrite one_eq; lia|].
    intros. apply b_done0; try done. lia.
  - cbn. intros e r [[??]|[??]]%lookup_insert_Some; [done|]. by apply b_result0.
  - cbn. intros e ev t [[<- <-]|[??]]%lookup_insert_Some Hc; [done|].
    destruct (b_release0 e ev t) as (th & Hl & He & Hr); try done.
    destruct (keeps_notified pick _ Hk t th Hl He) as (th' & ? & ? & ?). eauto 10.
  - cbn. intros e1 e2 ev1 ev2 t [[<- <-]|[??]]%lookup_insert_Some [[<- <-]|[??]]%lookup_insert_Some Hc1 Hc2; try done.
    by eapply b_unique0.
  - cbn [pushed main task_num heap]. rewrite b_tasks0, tasks_new, u32_add by done. f_equal.
    assert (extra (pushed h now pick s) = extra s) as ->.
    { unfold extra. cbn. destruct (current (main s)) as [e|]; [|done]. rewrite lookup_insert_ne; [done|]. intros <-. done. }
    unfold tasks1. cbn [callback]. rewrite decide_True by done. lia.
Qed.

Lemma booked_cancel s e ev err :
  Booked s → calls s !! e = Some Pending → heap s !! e = Some ev →
  Booked (with_calls (with_heap s (<[e := set_canceled ev]> (heap s))) (<[e := Returned false (-1, err)]> (calls s))).
Proof.
  intros Hs Hpe He. pose proof Hs as [].
  assert (∀ e' ev', <[e := set_canceled ev]> (heap s) !! e' = Some ev' → ∃ ev0, heap s !! e' = Some ev0 ∧ callback ev0 = callback ev') as Hback.
  { intros e' ev' [[<- <-]|[??]]%lookup_insert_Some; eauto. }
  split; unfold answered; st.
  - intros e' Hn. destruct (b_fresh0 e' Hn) as [Hc ?]. split; [|done]. rewrite lookup_insert_ne; [done|]. congruence.
  - intros e' ev' Hl. destruct (Hback _ _ Hl) as (ev0 & Hl0 & <-). rewrite (b_kind0 e' ev0 Hl0), lookup_insert_is_Some'.
    split; [auto|]. intros [<-|?]; eauto.
  - intros e' ev' [[<- <-]|[??]]%lookup_insert_Some; [rewrite lookup_insert_eq; eauto|]. rewrite lookup_insert_ne by done. by apply b_cancel0.
  - intros e' [[<- ?]|[? Hc]]%lookup_insert_Some; [done|]. destruct (b_pending0 e' Hc). split; [|done]. apply lookup_insert_is_Some'. auto.
  - intros e' ev' [[<- <-]|[??]]%lookup_insert_Some; [done|]. rewrite lookup_insert_ne by done. by apply b_wait0.
  - done.
  - done.
  - intros e' ev' [[<- <-]|[??]]%lookup_insert_Some; [done|by apply b_done0].
  - intros e' r [[<- ?]|[? Hc]]%lookup_insert_Some; [done|by apply b_result0].
  - intros e' ev' t Hl Hcb. destruct (Hback _ _ Hl) as (ev0 & Hl0 & Hc0). apply (b_release0 e' ev0 t Hl0). congruence.
  - intros e1 e2 ev1 ev2 t' H2 H3 Hc1 Hc2.
    destruct (Hback _ _ H2) as (x1 & ? & E1), (Hback _ _ H3) as (x2 & ? & E2). apply (b_unique0 e1 e2 x1 x2 t'); congruence.
  - rewrite b_tasks0, (tasks_update _ _ ev) by done. do 3 f_equal. unfold extra. st.
    destruct (current (main s)) as [e'|]; [|done]. destruct (decide (e' = e)) as [->|]; [|by rewrite lookup_insert_ne].
    by rewrite lookup_insert_eq, He.
Qed.

Lemma booked_finish s e ev m' :
  placed s → Booked s → current (main s) = Some e → heap s !! e = Some ev →
  current m' = None → task_num m' = u32 (task_num (main s) - 1) →
  Booked (with_heap (with_main s m') (delete e (heap s))).
Proof.
  intros Hp Hs Hcur He Hc0 Ht0. pose proof Hs as [].
  split; unfold answered; st; try done.
  - intros e' ev' [??]%lookup_delete_Some. by apply b_kind0.
  - intros e' ev' [??]%lookup_delete_Some. by apply b_cancel0.
  - intros e' Hc. destruct (b_pending0 e' Hc). rewrite Hc0. split; [|done]. rewrite lookup_delete_ne; [done|congruence].
  - intros e' ev' [??]%lookup_delete_Some ?? _. apply (b_wait0 e' ev'); try done. congruence.
  - intros e' ev' [??]%lookup_delete_Some. by apply b_done0.
  - intros e' ev' t [??]%lookup_delete_Some Hcb. destruct (b_release0 e' ev' t) as (th & ? & ? & Hr); try done.
    exists th. split_and!; try done. intros Hrun _. apply Hr; [done|congruence].
  - intros e1 e2 ev1 ev2 t [??]%lookup_delete_Some [??]%lookup_delete_Some. by apply b_unique0.
  - rewrite Ht0, b_tasks0, u32_sub. f_equal. rewrite (tasks_delete _ _ _ He). unfold extra. st. rewrite Hcur, Hc0, He.
    unfold tasks1. case_decide; lia.
Qed.

(** The front event of the batch becomes the current one. *)
Lemma booked_current s e l ev :
  placed s → Booked s → batch (main s) = e :: l → current (main s) = None → heap s !! e = Some ev →
  callback ev = async_task_completed →
  let s0 := with_main s (MkMain (task_num (main s)) (pushing (main s)) (reading (main s)) l (Some e)) in
  (calls s !! e ≠ Some Pending → Booked s0) ∧
  (canceled ev = false → Booked (with_calls s0 (<[e := Returned true (retval ev, error ev)]> (calls s)))).
Proof.
  intros Hp Hs Hb Hc He Hcb s0. pose proof Hs as [].
  assert (todo s e = O) as Htd. { apply todo_elsewhere; [done|]. rewrite Hb, cnt_cons, one_eq. lia. }
  assert (extra s0 = extra s) as Hx. { unfold extra, s0. st. rewrite Hc, He. unfold tasks1. by rewrite decide_True. }
  assert (∀ e' ev' t, heap s !! e' = Some ev' → callback ev' = release_callback t → ∃ th, threads (pool s) !! t = Some th ∧
    exit_flag th = true ∧ (running (pool s) = true → Some e ≠ Some e' → registered th = true)) as Hrel.
  { intros e' ev' t Hl Hcb'. destruct (b_release0 e' ev' t Hl Hcb') as (th & ? & ? & Hr). exists th. split_and!; try done.
    intros. apply Hr; [done|congruence]. }
  split.
  - intros Hnp. split; unfold answered; unfold s0; st; try done.
    + intros e' Hpe. split; [by apply b_pending0|]. intros [= <-]. done.
    + intros e' ev' ????. apply (b_wait0 e' ev'); try done. congruence.
    + unfold s0 in Hx. by rewrite Hx.
  - intros Hcan. split; unfold answered; unfold s0; st; try done.
    + intros e' Hn. destruct (b_fresh0 e' Hn) as [Hc' ?]. split; [|done]. rewrite lookup_insert_ne; [done|]. intros <-.
      pose proof (proj1 (b_kind0 e ev He) Hcb) as [??]. congruence.
    + intros e' ev' Hl. rewrite (b_kind0 e' ev' Hl), lookup_insert_is_Some'. split; [auto|]. intros [<-|?]; [by apply (b_kind0 e ev He)|done].
    + intros e' ev' Hl Hca. rewrite lookup_insert_ne; [eauto|]. intros <-. congruence.
    + intros e' [[??]|[? Hpe]]%lookup_insert_Some; [done|]. split; [by apply b_pending0|]. intros [= <-]. done.
    + intros e' ev' ??? Hne. rewrite lookup_insert_ne by congruence. apply (b_wait0 e' ev'); try done. congruence.
    + intros e' r [[<- [= <-]]|[??]]%lookup_insert_Some; [by apply (b_done0 e ev)|by apply b_result0].
    + unfold s0 in Hx. unfold extra in *. st. by rewrite Hx.
Qed.

Lemma booked_released s s3 e l ev t th :
  placed s → Booked s → batch (main s) = e :: l → current (main s) = None → heap s !! e = Some ev →
  callback ev = release_callback t → threads (pool s) !! t = Some th →
  heap s3 = heap s → next s3 = next s → calls s3 = calls s → handled s3 = handled s →
  queue (pool s3) = queue (pool s) → running (pool s3) = running (pool s) →
  threads (pool s3) = <[t := unregister th]> (threads (pool s)) →
  current (main s3) = Some e → task_num (main s3) = u32 (task_num (main s) + 1) → Booked s3.
Proof.
  intros Hp Hs Hb Hc He Hcb Ht Eh En Ec Ed Eq Er Eth Ecur Etn. pose proof Hs as [].
  assert (∀ e', todo s3 e' = todo s e') as Etd.
  { intros e'. unfold todo. rewrite Eq, Eth. pose proof (sum_insert (handles e') _ t th (unregister th) Ht) as Hg.
    change (handles e' (unregister th)) with (handles e' th) in Hg. lia. }
  split; unfold answered; rewrite ?Eh, ?En, ?Ec, ?Ed, ?Er, ?Eth, ?Ecur; try done.
  - intros e' Hpe. split; [by apply b_pending0|]. intros [= <-].
    pose proof (proj2 (b_kind0 e ev He) ltac:(eauto)). congruence.
  - intros e' ev' ????. apply (b_wait0 e' ev'); try done. congruence.
  - intros e'. rewrite Etd. apply b_todo0.
  - intros e' ev'. rewrite Etd. apply b_done0.
  - intros e' ev' t' Hl Hcb'. destruct (b_release0 e' ev' t' Hl Hcb') as (th' & Hl' & Hx & Hr). destruct (decide (t' = t)) as [->|].
    + simplify_eq. exists (unregister th). rewrite list_lookup_insert_eq by (by eapply lookup_lt_Some). split_and!; try done.
      intros _ []. f_equal. by eapply b_unique0.
    + exists th'. rewrite list_lookup_insert_ne by done. split_and!; try done. intros. apply Hr; [done|congruence].
  - rewrite Etn, b_tasks0, u32_add. f_equal. unfold extra. rewrite Ecur, Eh, Hc, He. unfold tasks1.
    rewrite decide_False by congruence. lia.
Qed.

Lemma ready_run cfg s :
  ready cfg (LMain Run) s = true →
  running (pool s) = true ∧ current (main s) = None ∧ ∃ e l, batch (main s) = e :: l ∧ join_ready s e = true.
Proof.
  cbn. unfold free. rewrite !andb_true_iff. intros [[[[Hr _] _] Hc] Hb]. split; [done|].
  split; [by destruct (current (main s))|]. destruct (batch (main s)) as [|e l]; [done|]. eauto.
Qed.

Lemma booked_run cfg s s' :
  placed s → Booked s → ready cfg (LMain Run) s = true → main_turn cfg Run s = Some s' → Booked s'.
Proof.
  intros Hp Hs (Hrun & Hc & e & l & Hb & Hj)%ready_run. cbn [main_turn]. rewrite Hb. unfold run_callback. st.
  destruct (heap s !! e) as [ev|] eqn:He; [|done]. cbn [mbind option_bind].
  destruct (callback ev) as [|t] eqn:Hcb.
  - destruct (booked_current s e l ev) as [H1 H2]; try done.
    destruct (canceled ev) eqn:Hcan; intros [= <-]; [|by apply H2]. apply H1.
    destruct (b_cancel s Hs e ev He Hcan) as [r ->]. done.
  - assert (canceled ev = false) as ->.
    { destruct (canceled ev) eqn:Hcan; [|done]. destruct (b_cancel s Hs e ev He Hcan) as [r Hr].
      pose proof (proj2 (b_kind s Hs e ev He) ltac:(eauto)). congruence. }
    destruct (b_release s Hs e ev t He Hcb) as (th & Ht & Hx & Hreg). unfold release_thread. st.
    rewrite Ht, Hreg by (done || by rewrite Hc). cbn. intros [= <-].
    by eapply (booked_released s _ e l ev t th).
Qed.

Lemma booked_main cfg s a s' :
  placed s → Booked s → ready cfg (LMain a) s = true → main_turn cfg a s = Some s' → Booked s'.
Proof.
  intros Hp Hs Hr. destruct a as [h now ok|now pick|now ok|n| | |e err| |]; try by apply booked_run.
  all: cbn [main_turn].
  1,3: destruct (schedule_grows cfg now ok s Hp) as (k & -> & _); cbn [mbind option_bind]; intros [= <-];
    apply (booked_same s); auto; [intros e; apply (todo_grown k)|apply (keeps_grown k)].
  - destruct (ready_pick _ _ _ _ Hr) as [[h ->] Hk]. cbn [mbind option_bind]. rewrite pool_push_spec by done.
    intros [= <-]. by apply booked_pushed.
  - intros [= <-]. apply (booked_same s); auto. apply keeps_flags_refl.
  - destruct (current (main s)) as [e|] eqn:Hc; [|done]. cbn [mbind option_bind]. unfold delete_event. st.
    destruct (heap s !! e) as [ev|] eqn:He; [|done]. intros [= <-]. by eapply booked_finish.
  - cbn in Hr. rewrite andb_true_iff in Hr. destruct Hr as [_ Hr]. destruct (calls s !! e) as [[]|] eqn:Hpe; try done.
    destruct (heap s !! e) as [ev|] eqn:He; [|done]. intros [= <-]. by apply booked_cancel.
  - intros [= <-]. apply (booked_same s); auto.
    + intros e. unfold todo, notify_all. st. rewrite sum_fmap; [done|]. intros th. unfold handles. by destruct (pc th) eqn:E; cbn; rewrite ?E.
    + intros t th Ht He. exists (match pc th with Waiting => at_pc th Notified | _ => th end). st. unfold notify_all.
      rewrite list_lookup_fmap, Ht. cbn. by destruct (pc th).
  - intros [= <-]. cbn in Hr. rewrite andb_true_iff in Hr. destruct Hr as [Hr _]. pose proof Hs as [].
    assert (∀ e, todo (with_pool s (set_threads (pool s) (unregister <$> threads (pool s)))) e = todo s e) as Etd.
    { intros e. unfold todo. st. by rewrite sum_fmap. }
    split; try done.
    + intros e. rewrite Etd. apply b_todo0.
    + intros e ev. rewrite Etd. apply b_done0.
    + intros e ev t He Hcb. destruct (b_release0 e ev t He Hcb) as (th & Ht & Hx & _). exists (unregister th). st.
      rewrite list_lookup_fmap, Ht. split_and!; try done. by destruct (running (pool s)).
Qed.

Lemma listed_main cfg s a s' : placed s → Booked s → listed s → ready cfg (LMain a) s = true → main_turn cfg a s = Some s' → listed s'.
Proof.
  intros Hp Hs Hl Hr. destruct a as [h now ok|now pick|now ok|n| | |e err| |]; cbn [main_turn].
  1,3: destruct (schedule_grows cfg now ok s Hp) as (k & -> & _); cbn [mbind option_bind]; intros [= <-];
    apply Forall_app; split; [done|by apply Forall_replicate].
  - destruct (ready_pick _ _ _ _ Hr) as [[h ->] Hk]. cbn [mbind option_bind]. rewrite pool_push_spec by done.
    intros [= <-]. destruct pick as [t|]; [|done]. destruct Hk as (th & Ht & Hw).
    apply (listed_insert s _ t th (at_pc th Notified)); try done; [cbn; by rewrite Ht|]. intros. by rewrite Hw.
  - by intros [= <-].
  - destruct (batch (main s)) as [|e l]; [done|]. unfold run_callback. st. destruct (heap s !! e) as [ev|] eqn:He; [|done].
    cbn [mbind option_bind]. destruct (canceled ev) eqn:Hcan; [by intros [= <-]|].
    destruct (callback ev) as [|t] eqn:Hcb; [by intros [= <-]|].
    destruct (b_release s Hs e ev t He Hcb) as (th & Ht & Hx & _). unfold release_thread. st. rewrite Ht.
    destruct (registered th); cbn; intros [= <-]; [|done]. apply (listed_insert s _ t th (unregister th)); try done. cbn. congruence.
  - destruct (current (main s)); [|done]. cbn [mbind option_bind]. unfold delete_event. st. destruct (heap s !! n); [|done]. by intros [= <-].
  - destruct (heap s !! e); [|done]. by intros [= <-].
  - intros [= <-]. apply Forall_fmap. eapply Forall_impl; [exact Hl|]. intros th Hth. cbn in *. destruct (pc th) eqn:E; cbn in *; rewrite ?E; auto.
  - intros [= <-]. cbn in Hr. rewrite andb_true_iff in Hr. destruct Hr as [_ Hr%Is_true_true%forallb_True]. apply Forall_fmap.
    apply Forall_forall. intros th Hin. cbn. intros Hx Hpc. unfold listed in Hl. rewrite Forall_forall in Hr, Hl. specialize (Hr th Hin). specialize (Hl th Hin Hx Hpc).
    rewrite Hl in Hr. cbn in Hr. unfold exited in Hr. by destruct (pc th).
Qed.

(** ** Every interleaving *)

Record Good (s : State) : Prop := { g_placed : placed s; g_consistent : Consistent s; g_booked : Booked s; g_listed : listed s }.

Lemma create_all oks s :
  foldl (λ s ok, create_thread ok true s) s oks =
  with_pool s (set_threads (pool s) (threads (pool s) ++ replicate (length (filter (λ ok : bool, ok = true) oks)) (MkThread true false true Loop))).
Proof.
  revert s. induction oks as [|ok oks IH]; intros s; [cbn; rewrite app_nil_r; by destruct s as [[]]|].
  cbn [foldl]. rewrite IH. destruct ok; [|done]. cbn. by rewrite <- app_assoc.
Qed.

Lemma good_start oks : Good (start oks).
Proof.
  unfold start. rewrite create_all. set (k := length _). cbn. unfold with_pool, set_threads. cbn.
  assert (∀ f : Thread → nat, f (MkThread true false true Loop) = O → sum_list_with f (replicate k (MkThread true false true Loop)) = O) as H0.
  { intros f Hf. apply sum_zero. intros x ->%elem_of_replicate_inv. done. }
  split.
  - split; [|done]. intros e. unfold places, live. cbn. by rewrite H0.
  - split; cbn; [|by rewrite H0|by rewrite H0]. by apply Forall_replicate.
  - split; cbn; try done; try apply NoDup_nil_2; intros; rewrite ?lookup_empty in *; try done.
    + split; [done|apply not_elem_of_nil].
    + by apply not_elem_of_nil in H.
  - unfold listed. cbn. by apply Forall_replicate.
Qed.

Lemma thread_turn_total cfg s c t : Good s → ready cfg (LThread t c) s = true → is_Some (thread_turn cfg c t s).
Proof.
  intros [Hp _ _ _] Hr. cbn in Hr. unfold thread_turn. destruct (threads (pool s) !! t) as [th|] eqn:Ht; [|done].
  cbn [mbind option_bind]. destruct (pc th) as [| |e|e| | | | |] eqn:Hpc; eauto.
  - destruct (queue (pool s)); eauto.
  - destruct (held_live s t th e Hp Ht) as [ev He]; [unfold holds; rewrite Hpc, one_eq; lia|].
    unfold run_handler. rewrite He. cbn [mbind option_bind]. destruct (negb _); [|destruct (canceled ev)]; eauto.
  - destruct (held_live s t th e Hp Ht) as [ev He]; [unfold holds; rewrite Hpc, one_eq; lia|].
    unfold send_event, delete_event. rewrite He. cbn [mbind option_bind]. destruct (c_write c); [eauto|]. destruct (_ || _); eauto.
  - destruct (0 <? _); [|destruct (negb _)]; eauto.
Qed.

Lemma main_turn_total cfg s a : Good s → ready cfg (LMain a) s = true → is_Some (main_turn cfg a s).
Proof.
  intros [Hp _ Hb _] Hr. destruct a as [h now ok|now pick|now ok|n| | |e err| |]; cbn [main_turn]; eauto.
  1,3: destruct (schedule_grows cfg now ok s Hp) as (k & -> & _); eauto.
  - destruct (ready_pick _ _ _ _ Hr) as [[h ->] Hk]. cbn [mbind option_bind]. rewrite pool_push_spec by done. eauto.
  - apply ready_run in Hr as (_ & Hc & e & l & Eb & _). rewrite Eb. unfold run_callback. st.
    destruct (placed_live s e Hp) as [ev ->]. { unfold places. rewrite Eb, cnt_cons, one_eq. lia. }
    cbn [mbind option_bind]. destruct (canceled ev); [eauto|]. destruct (callback ev) as [|t]; [eauto|].
    unfold release_thread. st. destruct (threads (pool s) !! t) as [th|]; [destruct (registered th)|]; cbn; eauto.
  - cbn in Hr. rewrite andb_true_iff in Hr. destruct Hr as [_ Hr]. destruct (current (main s)) as [e|] eqn:Ec; [|done].
    cbn [mbind option_bind]. unfold delete_event. st.
    destruct (placed_live s e Hp) as [ev ->]; [|cbn; eauto]. unfold places. rewrite Ec. cbn [olist]. rewrite cnt_cons, one_eq. lia.
  - cbn in Hr. rewrite andb_true_iff in Hr. destruct Hr as [_ Hr]. destruct (calls s !! e) as [[]|] eqn:Ec; try done.
    destruct (b_pending s Hb e Ec) as [[ev ->] _]. cbn. eauto.
Qed.

Lemma good_step cfg s l s' : Good s → ready cfg l s = true → reliable s l → perform cfg l s = Some s' → Good s'.
Proof.
  intros [Hp Hc Hb Hl] Hr Hrel. destruct l as [t c|a]; cbn [perform]; intros E; split.
  - by eapply placed_thread.
  - by eapply consistent_thread.
  - by eapply booked_thread.
  - by eapply listed_thread.
  - by eapply placed_main.
  - by eapply consistent_main.
  - by eapply booked_main.
  - by eapply listed_main.
Qed.

Lemma good_reached cfg (ok : State → Label → Prop) oks s :
  (∀ s l, ok s l → reliable s l) → reached cfg ok (start oks) s → Good s.
Proof. intros Hok. induction 1 as [|s l s' _ IH Hr Hl Hp]; [apply good_start|]. eapply good_step; eauto. Qed.

(** ** Progress *)

Lemma thread_calls cfg s c t s' : thread_turn cfg c t s = Some s' → calls s' = calls s.
Proof.
  unfold thread_turn. destruct (threads (pool s) !! t) as [th|]; [|done]. cbn [mbind option_bind].
  destruct (pc th) as [| |e|e| | | | |]; try by intros [= <-].
  - by destruct (queue _); intros [= <-].
  - unfold run_handler. destruct (heap s !! e) as [ev|]; [|done]. cbn [mbind option_bind].
    by destruct (negb _); [|destruct (canceled ev)]; intros [= <-].
  - unfold send_event, delete_event. destruct (heap s !! e); [|done]. cbn [mbind option_bind].
    by destruct (c_write c); [|destruct (_ || _)]; intros [= <-].
  - by destruct (0 <? _); [|destruct (negb _)]; intros [= <-].
  - unfold woken. cbn [new_event]. by destruct (_ && _); [destruct (_ && _)|]; intros [= <-].
  - unfold woken. cbn [new_event]. by destruct (_ && _); [destruct (_ && _)|]; intros [= <-].
Qed.

Lemma returned_stays cfg s l s' e b r :
  Good s → ready cfg l s = true → perform cfg l s = Some s' →
  calls s !! e = Some (Returned b r) → calls s' !! e = Some (Returned b r).
Proof.
  intros [Hp Hc Hb Hl] Hr Hpe He. destruct l as [t c|a]; cbn [perform] in Hpe.
  - by rewrite (thread_calls _ _ _ _ _ Hpe).
  - destruct a as [h now ok|now pick|now ok|n| | |e' err| |]; cbn [main_turn] in Hpe.
    1,3: destruct (schedule_grows cfg now ok s Hp) as (k & E & _); rewrite E in Hpe; cbn in Hpe; by simplify_eq.
    + destruct (ready_pick _ _ _ _ Hr) as [[h Hh] Hk]. rewrite Hh in Hpe. cbn [mbind option_bind] in Hpe. rewrite pool_push_spec in Hpe by done.
      simplify_eq. cbn. rewrite lookup_insert_ne; [done|]. intros <-. by rewrite (proj1 (b_fresh s Hb (next s) (le_n _))) in He.
    + by simplify_eq.
    + apply ready_run in Hr as (_ & Hcu & e' & l & Eb & _). rewrite Eb in Hpe. unfold run_callback in Hpe. st.
      destruct (heap s !! e') as [ev|] eqn:Hh; [|done]. cbn [mbind option_bind] in Hpe. destruct (canceled ev) eqn:Hcan; [by simplify_eq|].
      destruct (callback ev) as [|t] eqn:Hcb.
      * simplify_eq. st. rewrite lookup_insert_ne; [done|]. intros <-. rewrite (b_wait s Hb e' ev) in He; try done. by rewrite Hcu.
      * unfold release_thread in Hpe. st. destruct (threads (pool s) !! t) as [th|]; [destruct (registered th)|]; cbn in Hpe; by simplify_eq.
    + destruct (current (main s)) as [e'|]; [|done]. cbn [mbind option_bind] in Hpe. unfold delete_event in Hpe. st.
      destruct (heap s !! e'); [|done]. cbn in Hpe. by simplify_eq.
    + cbn in Hr. rewrite andb_true_iff in Hr. destruct Hr as [_ Hr]. destruct (heap s !! e'); [|done]. cbn in Hpe. simplify_eq. st.
      rewrite lookup_insert_ne; [done|]. intros ->. by rewrite He in Hr.
    + by simplify_eq.
    + by simplify_eq.
Qed.

(** A thread that will look at the queue again. *)
Definition serving (th : Thread) : bool :=
  negb (exit_flag th) && match pc th with Loop | Pop | Handle _ | Send _ | Recheck | Notified => true | _ => false end.

(** A notified thread does not report that its time is over. *)
Definition prompt (s : State) (l : Label) : Prop :=
  reliable s l ∧
  match l with
  | LThread t c => ∀ th, threads (pool s) !! t = Some th → pc th = Notified → c_timeout c = false
  | LMain _ => True
  end.

Definition attended (s : State) : Prop :=
  running (pool s) = true → (∃ t th, threads (pool s) !! t = Some th ∧ is_core_worker th = true) ∧
    (queue (pool s) ≠ [] → ∃ t th, threads (pool s) !! t = Some th ∧ serving th = true).

(** What a step of a thread does, seen from the queue. *)
Lemma thread_serves cfg s c t th s' :
  Consistent s → threads (pool s) !! t = Some th → prompt s (LThread t c) → thread_turn cfg c t s = Some s' →
  running (pool s') = running (pool s) ∧
  (∃ th', threads (pool s') = <[t := th']> (threads (pool s)) ∧ is_core_worker th' = is_core_worker th ∧
    (running (pool s) = true → queue (pool s) ≠ [] → serving th = true → serving th' = true)) ∧
  (queue (pool s') ≠ [] → queue (pool s) ≠ []).
Proof.
  intros Hc Ht [_ Hpr]. specialize (Hpr th Ht). pose proof (Forall_lookup_1 _ _ _ _ (c_ok s Hc) Ht) as [_ Hok].
  unfold thread_turn. rewrite Ht. cbn [mbind option_bind].
  assert (threads (pool s) = <[t := th]> (threads (pool s))) as Hid by (by rewrite list_insert_id).
  destruct (pc th) as [| |e|e| | | | |] eqn:Hpc.
  - intros [= <-]. split_and!; try done. eexists. split_and!; try done. intros Hr. st. unfold serving. rewrite Hpc, Hr. done.
  - destruct (queue (pool s)) as [|e q] eqn:Hq; intros [= <-]; (split_and!; [done| |]); st; rewrite ?Hq; try done;
      eexists; split_and!; try done. intros _ _. unfold serving. by rewrite Hpc.
  - destruct (run_handler c e s) as [s1|] eqn:Er; [|done]. cbn [mbind option_bind]. intros [= <-].
    apply run_handler_pool in Er. unfold goto. st. rewrite Er. split_and!; try done. eexists. split_and!; try done.
    intros _ _. unfold serving. by rewrite Hpc.
  - unfold send_event, delete_event. destruct (heap s !! e); [|done]. cbn [mbind option_bind].
    destruct (c_write c) as [|errno]; [|destruct (_ || _)]; intros [= <-]; (split_and!; try done);
      try (exists th; by split_and!); eexists; split_and!; try done;
      intros _ _; unfold serving; cbn; destruct (exit_flag th); done.
  - destruct (0 <? zlen _) eqn:Eq; [|destruct (running (pool s)) eqn:Er]; intros [= <-]; (split_and!; try done); eexists; split_and!; try done.
    + intros _ _. unfold serving. by rewrite Hpc.
    + intros _ Hne. destruct (queue (pool s)); [done|]. rewrite zlen_cons in Eq. apply Z.ltb_ge in Eq. zl_nonneg. lia.
  - unfold woken. cbn [new_event]. destruct (_ && _); [destruct (_ && _)|]; intros [= <-]; (split_and!; try done); eexists; split_and!; try done;
      intros _ _; unfold serving at 1; rewrite Hpc, andb_comm; done.
  - unfold woken. rewrite Hpr by done. cbn. intros [= <-]. split_and!; try done. eexists. split_and!; try done.
    intros _ _. unfold serving. by rewrite Hpc.
  - intros [= <-]. split_and!; try done. eexists. split_and!; try done. intros _ _. unfold serving at 1. rewrite Hpc, andb_comm. done.
  - intros [= <-]. split_and!; try done. by exists th.
Qed.

Lemma attended_insert s s' t th th' :
  attended s → threads (pool s) !! t = Some th → running (pool s') = running (pool s) →
  threads (pool s') = <[t := th']> (threads (pool s)) → is_core_worker th' = is_core_worker th →
  (queue (pool s') ≠ [] → queue (pool s) ≠ []) →
  (running (pool s) = true → queue (pool s) ≠ [] → serving th = true → serving th' = true) → attended s'.
Proof.
  intros Ha Ht Hr Hi Hcore Hq Hsv Hrun. rewrite Hr in Hrun. destruct (Ha Hrun) as [(tc & thc & Hc1 & Hc2) H2]. rewrite Hi.
  assert (∀ f : Thread → bool, (f th = true → f th' = true) → (∃ t1 x, threads (pool s) !! t1 = Some x ∧ f x = true) →
    ∃ t1 x, <[t := th']> (threads (pool s)) !! t1 = Some x ∧ f x = true) as Hf.
  { intros f Hff (t1 & x & Hx & Hfx). exists t1. destruct (decide (t1 = t)) as [->|].
    - rewrite list_lookup_insert_eq by (by eapply lookup_lt_Some). simplify_eq. eauto.
    - rewrite list_lookup_insert_ne by done. eauto. }
  split; [apply Hf; [by rewrite Hcore|eauto]|]. intros Hne. apply Hf; auto.
Qed.

Lemma attended_thread cfg s c t s' :
  Consistent s → attended s → prompt s (LThread t c) → thread_turn cfg c t s = Some s' → attended s'.
Proof.
  intros Hc Ha Hpr Hs. destruct (threads (pool s) !! t) as [th|] eqn:Ht; [|by unfold thread_turn in Hs; rewrite Ht in Hs].
  destruct (thread_serves cfg s c t th s' Hc Ht Hpr Hs) as (Hr & (th' & Hi & Hcore & Hsv) & Hq).
  by eapply attended_insert.
Qed.

Lemma attended_map s s' g :
  attended s → (running (pool s') = true → running (pool s) = true) → queue (pool s') = queue (pool s) →
  threads (pool s') = g <$> threads (pool s) →
  (∀ th, is_core_worker (g th) = is_core_worker th ∧ (serving th = true → serving (g th) = true)) → attended s'.
Proof.
  intros Ha Hr Hq Hg Hok Hrun. destruct (Ha (Hr Hrun)) as [(t & th & Ht & Hc) H2]. rewrite Hq, Hg. split.
  - exists t, (g th). rewrite list_lookup_fmap, Ht. split; [done|]. by rewrite (proj1 (Hok th)).
  - intros Hne. destruct (H2 Hne) as (t1 & th1 & Ht1 & Hs1). exists t1, (g th1). rewrite list_lookup_fmap, Ht1. split; [done|]. by apply Hok.
Qed.

Lemma attended_same s s' :
  attended s → running (pool s') = running (pool s) → queue (pool s') = queue (pool s) → threads (pool s') = threads (pool s) → attended s'.
Proof. intros Ha Hr Hq Ht Hrun. rewrite Hr in Hrun. destruct (Ha Hrun). by rewrite Hq, Ht. Qed.

Lemma attended_grown k s : attended s → attended (grown k s).
Proof.
  intros Ha Hrun. destruct (Ha Hrun) as [(t & th & Ht & Hc) H2]. cbn. split.
  - exists t, th. split; [by apply lookup_app_l_Some|done].
  - intros Hne. destruct (H2 Hne) as (t1 & th1 & Ht1 & Hs1). exists t1, th1. split; [by apply lookup_app_l_Some|done].
Qed.

Lemma attended_pushed h now pick s :
  Consistent s → attended s → pickable pick (threads (pool s)) → attended (pushed h now pick s).
Proof.
  intros Hc Ha Hk Hrun. destruct (Ha Hrun) as [(t & th & Ht & Hcore) _]. cbn [pushed pool running] in Hrun. cbn [pushed pool threads].
  destruct pick as [t'|]; cbn [notified] in *.
  - destruct Hk as (th' & Ht' & Hw). rewrite Ht'.
    pose proof (Forall_lookup_1 _ _ _ _ (c_ok s Hc) Ht') as [_ Hok]. rewrite Hw in Hok. destruct Hok as [Hx _].
    assert (t' < length (threads (pool s)))%nat by (by eapply lookup_lt_Some). split.
    + destruct (decide (t = t')) as [->|].
      * exists t', (at_pc th' Notified). rewrite list_lookup_insert_eq by done. simplify_eq. done.
      * exists t, th. by rewrite list_lookup_insert_ne.
    + intros _. exists t', (at_pc th' Notified). rewrite list_lookup_insert_eq by done. split; [done|]. unfold serving. cbn. by rewrite Hx.
  - split; [eauto|]. intros _. exists t, th. split; [done|].
    pose proof (Forall_lookup_1 _ _ _ _ (c_ok s Hc) Ht) as [Hx Hok]. specialize (Hx Hcore).
    pose proof (Forall_lookup_1 _ _ _ _ Hk Ht) as Hnw. cbn in Hnw. unfold serving. rewrite Hx.
    destruct (pc th); try done; [congruence|]. rewrite Hok in Hx; done.
Qed.

Lemma attended_main cfg s a s' :
  placed s → Consistent s → attended s → ready cfg (LMain a) s = true → main_turn cfg a s = Some s' → attended s'.
Proof.
  intros Hp Hc Ha Hr. destruct a as [h now ok|now pick|now ok|n| | |e err| |]; cbn [main_turn].
  1,3: destruct (schedule_grows cfg now ok s Hp) as (k & -> & _); cbn [mbind option_bind]; intros [= <-];
    by apply (attended_same (grown k s)); [apply attended_grown|..].
  - destruct (ready_pick _ _ _ _ Hr) as [[h ->] Hk]. cbn [mbind option_bind]. rewrite pool_push_spec by done.
    intros [= <-]. by apply attended_pushed.
  - intros [= <-]. by apply (attended_same s).
  - destruct (batch (main s)) as [|e l]; [done|]. unfold run_callback. st. destruct (heap s !! e) as [ev|]; [|done].
    cbn [mbind option_bind]. destruct (canceled ev); [intros [= <-]; by apply (attended_same s)|].
    destruct (callback ev) as [|t]; [intros [= <-]; by apply (attended_same s)|]. unfold release_thread. st.
    destruct (threads (pool s) !! t) as [th|] eqn:Et; [destruct (registered th)|]; cbn; intros [= <-]; try by apply (attended_same s).
    by apply (attended_insert s _ t th (unregister th)).
  - destruct (current (main s)); [|done]. cbn [mbind option_bind]. unfold delete_event. st. destruct (heap s !! n); [|done].
    intros [= <-]. by apply (attended_same s).
  - destruct (heap s !! e); [|done]. intros [= <-]. by apply (attended_same s).
  - intros [= <-] Hrun. done.
  - intros [= <-]. by apply (attended_map s _ unregister).
Qed.

Lemma attended_reached cfg oks s : true ∈ oks → reached cfg prompt (start oks) s → attended s.
Proof.
  intros Hin Hre. assert (Good s) as Hg by (eapply good_reached; [|done]; by intros ?? []). revert Hg.
  induction Hre as [|s l s' Hs IH Hr Hok Hpe]; intros Hg'.
  - intros _. unfold start. rewrite create_all. cbn. split; [|done].
    destruct (filter (λ ok : bool, ok = true) oks) as [|b l] eqn:Ef.
    { pose proof (proj2 (list_elem_of_filter (λ ok : bool, ok = true) oks true) (conj eq_refl Hin)) as Hx.
      rewrite Ef in Hx. by apply not_elem_of_nil in Hx. }
    by exists O, (MkThread true false true Loop).
  - assert (Good s) as Hg by (eapply good_reached; [|done]; by intros ?? []). specialize (IH Hg). destruct Hg.
    destruct l as [t c|a]; cbn [perform] in Hpe; [by eapply attended_thread|by eapply attended_main].
Qed.

(** Steps of the threads that bring the work forward: no wait ends by itself and the pipe takes
    what is written. *)
Definition productive (cfg : Config) (s s' : State) : Prop :=
  ∃ t c th, threads (pool s) !! t = Some th ∧ pc th ≠ Waiting ∧ pc th ≠ Exited ∧ c_timeout c = false ∧ c_write c = Written ∧
    thread_turn cfg c t s = Some s'.

Definition weight (empty : bool) (th : Thread) : nat :=
  match pc th with
  | Handle _ => 8 | Notified => 7 | Send _ => 6 | Loop => 5 | Pop => 4
  | Recheck => if empty then 3 else 6 | Closing => 1 | Waiting | Exited => 0
  end%nat.

Definition is_empty (q : list nat) : bool := match q with [] => true | _ => false end.

Definition work (s : State) : nat :=
  (10 * length (queue (pool s)) + sum_list_with (weight (is_empty (queue (pool s)))) (threads (pool s)))%nat.

Lemma sum_le {A} (f g : A → nat) (l : list A) : (∀ x, f x ≤ g x)%nat → (sum_list_with f l ≤ sum_list_with g l)%nat.
Proof. intros H. induction l as [|x l IH]; [done|]. cbn. specialize (H x). lia. Qed.

Lemma work_goto s s1 t th p :
  threads (pool s) !! t = Some th → threads (pool s1) = threads (pool s) → queue (pool s1) = queue (pool s) →
  (weight (is_empty (queue (pool s))) (at_pc th p) < weight (is_empty (queue (pool s))) th)%nat → (work (goto t th p s1) < work s)%nat.
Proof.
  intros Ht Hth Hq Hw. unfold work. st. rewrite Hth, Hq.
  pose proof (sum_insert (weight (is_empty (queue (pool s)))) _ t th (at_pc th p) Ht). lia.
Qed.

Lemma productive_work cfg s s' : productive cfg s s' → (work s' < work s)%nat.
Proof.
  intros (t & c & th & Ht & Hw & Hx & Hto & Hwr & Hs). unfold thread_turn in Hs. rewrite Ht in Hs. cbn [mbind option_bind] in Hs.
  destruct (pc th) as [| |e|e| | | | |] eqn:Hpc; try done.
  - injection Hs as <-. apply (work_goto s); try done. unfold weight. rewrite Hpc. destruct (running (pool s)); cbn; lia.
  - destruct (queue (pool s)) as [|e q] eqn:Hq; injection Hs as <-.
    + apply (work_goto s); try done. unfold weight. rewrite Hpc, Hq. cbn. lia.
    + unfold work. st. rewrite Hq. cbn [is_empty length].
      pose proof (sum_insert (weight (is_empty q)) _ t th (at_pc th (Handle e)) Ht) as Hg.
      assert (sum_list_with (weight (is_empty q)) (threads (pool s)) ≤ sum_list_with (weight false) (threads (pool s)))%nat.
      { apply sum_le. intros x. unfold weight. destruct (is_empty q), (pc x); lia. }
      change (weight (is_empty q) (at_pc th (Handle e))) with 8%nat in Hg. lia.
  - destruct (run_handler c e s) as [s1|] eqn:Er; [|done]. cbn in Hs. injection Hs as <-. apply run_handler_pool in Er.
    apply (work_goto s); try done; rewrite ?Er; try done. unfold weight. rewrite Hpc. cbn. lia.
  - unfold send_event in Hs. destruct (heap s !! e); [|done]. cbn in Hs. rewrite Hwr in Hs. injection Hs as <-.
    apply (work_goto s); try done. unfold weight. rewrite Hpc. destruct (exit_flag th); cbn; lia.
  - destruct (queue (pool s)) as [|e q] eqn:Hq.
    + cbn in Hs. destruct (running (pool s)); injection Hs as <-; (apply (work_goto s); try done); unfold weight; rewrite Hpc, Hq; cbn; lia.
    + rewrite zlen_cons, (proj2 (Z.ltb_lt _ _)) in Hs by (zl_nonneg; lia). injection Hs as <-.
      apply (work_goto s); try done. unfold weight. rewrite Hpc, Hq. cbn. lia.
  - unfold woken in Hs. rewrite Hto in Hs. cbn in Hs. injection Hs as <-. apply (work_goto s); try done. unfold weight. rewrite Hpc. cbn. lia.
  - injection Hs as <-. apply (work_goto s); try done. unfold weight. rewrite Hpc. cbn. lia.
Qed.

Lemma productive_sn cfg s : sn (productive cfg) s.
Proof.
  remember (work s) as n eqn:E. revert s E. induction n as [n IH] using lt_wf_ind. intros s ->. constructor.
  intros s' Hs. apply (IH (work s')); [|done]. by apply (productive_work cfg).
Qed.

Lemma productive_reached cfg s0 s s' :
  reached cfg prompt s0 s → productive cfg s s' → reached cfg prompt s0 s'.
Proof.
  intros Hr (t & c & th & Ht & Hw & Hx & Hto & Hwr & Hs). apply (reached_step _ _ _ s (LThread t c)); try done.
  - cbn. rewrite Ht, Hto. by destruct (pc th).
  - split; cbn; [by rewrite Hwr|done].
Qed.

(** Where no thread can go on, all wait or have ended. *)
Lemma quiet_threads cfg s : Good s → nf (productive cfg) s → Forall (λ th, pc th = Waiting ∨ pc th = Exited) (threads (pool s)).
Proof.
  intros Hg Hnf. apply Forall_lookup_2. intros t th Ht.
  assert (pc th ≠ Waiting → pc th ≠ Exited → False) as H; [|destruct (pc th); auto; exfalso; by apply H].
  intros Hw Hx. apply Hnf. set (c := MkChoice (0, 0) Written false).
  destruct (thread_turn_total cfg s c t Hg) as [s' Hs]; [cbn; rewrite Ht; by destruct (pc th)|].
  exists s', t, c, th. done.
Qed.

Lemma quiet_holds s e : Forall (λ th, pc th = Waiting ∨ pc th = Exited) (threads (pool s)) → sum_list_with (holds e) (threads (pool s)) = O.
Proof. intros H. apply sum_zero. intros th Hin. rewrite Forall_forall in H. unfold holds. by destruct (H th Hin) as [-> | ->]. Qed.

(** C38: blocking calls return once, with their own result.  In every interleaving of the main
    thread and any number of threads, with cancellations at any time, threads that come and go
    and a pipe that works: no step uses a deleted event, every event that exists is in exactly
    one place, the event of a call that has not returned is still on its way, a handler runs at
    most once per call, a completed call returned what its own handler gave, a call that has
    returned does not return again, and [task_num] counts the events that are under way. *)
Theorem async_calls_exact cfg oks s :
  reached cfg reliable (start oks) s →
  (∀ l, ready cfg l s = true → is_Some (perform cfg l s)) ∧
  (∀ e, places s e = live s e) ∧
  (∀ e, calls s !! e = Some Pending → current (main s) ≠ Some e ∧ places s e = 1%nat) ∧
  NoDup (handled s).*1 ∧
  (∀ e r, calls s !! e = Some (Returned true r) → answered s e r) ∧
  (∀ l s' e b r, ready cfg l s = true → perform cfg l s = Some s' →
    calls s !! e = Some (Returned b r) → calls s' !! e = Some (Returned b r)) ∧
  task_num (main s) = u32 (Z.of_nat (tasks (heap s) + extra s)).
Proof.
  intros Hr. assert (Good s) as Hg by (by eapply good_reached; [|done]). pose proof Hg as [Hp Hc Hb Hl]. split_and!.
  - intros [t c|a] Hre; [by apply thread_turn_total|by apply main_turn_total].
  - apply Hp.
  - intros e He. destruct (b_pending s Hb e He) as [[ev Hev] Hne]. split; [done|].
    rewrite (proj1 Hp e). unfold live. by rewrite Hev.
  - apply Hb.
  - apply Hb.
  - intros. by eapply returned_stays.
  - apply Hb.
Qed.

(** C22: the pool does its work.  A pool with at least one thread from the start, whose pipe works
    (a write succeeds or is tried again, see [failed_pipe_dangles]) and where a notified thread does
    not report the end of its time instead: from every reachable state the threads come to rest
    after boundedly many steps, whatever their order, not counting waits that end by themselves and
    repeated writes.  At rest, a running pool has an empty queue and the event of
    every call that has not returned is in the pipe or with the main thread; in a pool that
    shuts down all threads have ended, so that the join of [shutdown] returns. *)
Theorem pool_drains cfg oks s :
  true ∈ oks → reached cfg prompt (start oks) s →
  sn (productive cfg) s ∧
  ∀ s', rtc (productive cfg) s s' → nf (productive cfg) s' →
    if running (pool s')
    then queue (pool s') = [] ∧ ∀ e, calls s' !! e = Some Pending → e ∈ pipe s' ∨ e ∈ batch (main s')
    else Forall (λ th, pc th = Exited) (threads (pool s')).
Proof.
  intros Hin Hr. split; [apply productive_sn|]. intros s' Hrtc Hnf.
  assert (reached cfg prompt (start oks) s') as Hr'.
  { clear Hnf. induction Hrtc as [|x y z Hxy _ IH]; [done|]. apply IH. by eapply productive_reached. }
  assert (Good s') as Hg by (eapply good_reached; [|done]; by intros ?? []).
  pose proof (attended_reached _ _ _ Hin Hr') as Ha. pose proof (quiet_threads cfg s' Hg Hnf) as Hq.
  destruct (running (pool s')) eqn:Hrun.
  - destruct (Ha Hrun) as [_ Hsv]. assert (queue (pool s') = []) as Hqe.
    { destruct (queue (pool s')) as [|e q]; [done|]. destruct Hsv as (t & th & Ht & Hs); [done|].
      pose proof (Forall_lookup_1 _ _ _ _ Hq Ht) as Hw. unfold serving in Hs. destruct (exit_flag th); [done|]. by destruct Hw as [E|E]; rewrite E in Hs. }
    split; [done|]. intros e He. destruct (b_pending s' (g_booked s' Hg) e He) as [[ev Hev] Hne].
    pose proof (proj1 (g_placed s' Hg) e) as Hpl. unfold places, live in Hpl. rewrite Hev, Hqe, quiet_holds in Hpl by done.
    rewrite <- !cnt_pos. assert (cnt e (olist (current (main s'))) = O) as H0; [|cbn in Hpl; lia].
    destruct (current (main s')) as [e'|]; [|done]. cbn [olist]. rewrite cnt_cons, cnt_nil. unfold one. rewrite decide_False; [done|congruence].
  - apply Forall_lookup_2. intros t th Ht. destruct (Forall_lookup_1 _ _ _ _ Hq Ht) as [Hw|]; [|done].
    pose proof (Forall_lookup_1 _ _ _ _ (c_ok s' (g_consistent s' Hg)) Ht) as [_ Hok]. rewrite Hw, Hrun in Hok. by destruct Hok.
Qed.

(** The pool does not grow beyond its limits. *)
Definition counted (th : Thread) : nat := if registered th then 1%nat else O.

Lemma worker_count_sum s : worker_count s = Z.of_nat (sum_list_with counted (threads (pool s))).
Proof.
  unfold worker_count, zlen. f_equal. induction (threads (pool s)) as [|th l IH]; [done|]. rewrite filter_cons. cbn [sum_list_with].
  rewrite <- IH. unfold counted. destruct (registered th); case_decide; done.
Qed.

Lemma count_thread cfg s c t s' :
  thread_turn cfg c t s = Some s' → sum_list_with counted (threads (pool s')) = sum_list_with counted (threads (pool s)).
Proof.
  intros Hs. unfold thread_turn in Hs. destruct (threads (pool s) !! t) as [th|] eqn:Ht; [|done]. cbn [mbind option_bind] in Hs.
  assert (∀ th', registered th' = registered th → sum_list_with counted (<[t := th']> (threads (pool s))) = sum_list_with counted (threads (pool s))) as Hi.
  { intros th' Hr. pose proof (sum_insert counted _ t th th' Ht). unfold counted at 2 4 in H. rewrite Hr in H. lia. }
  destruct (pc th) as [| |e|e| | | | |].
  - injection Hs as <-. by apply Hi.
  - destruct (queue (pool s)); injection Hs as <-; by apply Hi.
  - destruct (run_handler c e s) as [s1|] eqn:Er; [|done]. cbn in Hs. injection Hs as <-. unfold goto. st.
    rewrite (run_handler_pool _ _ _ _ Er). by apply Hi.
  - unfold send_event, delete_event in Hs. destruct (heap s !! e); [|done]. cbn in Hs.
    destruct (c_write c); [|destruct (_ || _)]; injection Hs as <-; try done; by apply Hi.
  - destruct (0 <? _); [|destruct (negb _)]; injection Hs as <-; by apply Hi.
  - unfold woken in Hs. cbn in Hs. destruct (_ && _); [destruct (_ && _)|]; injection Hs as <-; by apply Hi.
  - unfold woken in Hs. cbn in Hs. destruct (_ && _); [destruct (_ && _)|]; injection Hs as <-; by apply Hi.
  - injection Hs as <-. by apply Hi.
  - by injection Hs as <-.
Qed.

(** As long as the pipe works there are never more threads than the larger of the two
    configured numbers. *)
Theorem workers_bounded cfg oks s :
  zlen oks = core_worker_num cfg → reached cfg reliable (start oks) s →
  worker_count s <= Z.max (core_worker_num cfg) (worker_num cfg).
Proof.
  intros Hn. induction 1 as [|s l s' Hs IH Hr Hok Hpe].
  - rewrite worker_count_sum. unfold start. rewrite create_all. cbn. rewrite <- Hn. unfold zlen.
    assert (∀ k, sum_list_with counted (replicate k (MkThread true false true Loop)) = k) as -> by (intros k; induction k; cbn; congruence).
    pose proof (length_filter (λ ok : bool, ok = true) oks). lia.
  - assert (Good s) as Hg by (by eapply good_reached; [|done]). destruct Hg as [Hp _ Hb _]. rewrite worker_count_sum in *.
    destruct l as [t c|a]; cbn [perform] in Hpe; [by rewrite (count_thread _ _ _ _ _ Hpe)|].
    destruct a as [h now ok|now pick|now ok|n| | |e err| |]; cbn [main_turn] in Hpe.
    1,3: destruct (schedule_grows cfg now ok s Hp) as (k & E & Hk); rewrite E in Hpe; cbn in Hpe; injection Hpe as <-; cbn;
      rewrite sum_list_with_app; rewrite worker_count_sum in Hk; destruct Hk as [-> | [-> ?]]; cbn; lia.
    + destruct (ready_pick _ _ _ _ Hr) as [[h Hh] Hk]. rewrite Hh in Hpe. cbn [mbind option_bind] in Hpe. rewrite pool_push_spec in Hpe by done.
      injection Hpe as <-. cbn. by rewrite sum_notified.
    + by injection Hpe as <-.
    + destruct (batch (main s)) as [|e l]; [done|]. unfold run_callback in Hpe. st. destruct (heap s !! e) as [ev|]; [|done].
      cbn [mbind option_bind] in Hpe. destruct (canceled ev); [by injection Hpe as <-|]. destruct (callback ev) as [|t]; [by injection Hpe as <-|].
      unfold release_thread in Hpe. st. destruct (threads (pool s) !! t) as [th|] eqn:Ht; [destruct (registered th)|]; cbn in Hpe; injection Hpe as <-; try done.
      st. pose proof (sum_insert counted _ t th (unregister th) Ht). cbn in H. lia.
    + destruct (current (main s)); [|done]. cbn in Hpe. unfold delete_event in Hpe. st. destruct (heap s !! n); [|done]. by injection Hpe as <-.
    + destruct (heap s !! e); [|done]. by injection Hpe as <-.
    + injection Hpe as <-. st. unfold notify_all. rewrite sum_fmap; [done|]. intros th. unfold counted. by destruct (pc th).
    + injection Hpe as <-. st. assert (sum_list_with counted (unregister <$> threads (pool s)) = O) as ->; [|lia].
      apply sum_zero. intros th (x & -> & _)%list_elem_of_fmap. done.
Qed.

(** ** Examples *)

Definition quick (r : Z) : Choice := MkChoice (r, 0) Written false.
Definition late : Choice := MkChoice (0, 0) Written true.
Definition steps (t : nat) (n : nat) (r : Z) : list Label := replicate n (LThread t (quick r)).
Definition call (now : Z) (pick : option nat) : list Label := [LMain (Dispatch true now true); LMain (Push now pick)].

(** A core thread and at most one more. *)
Definition small : Config := ThreadPool 4 1 2 0 0.

Definition one_call : list Label := call 0 None ++ steps 0 4 7 ++ [LMain (Readable 0 true); LMain (Read 1); LMain Run].

Example one_call_returns : calls <$> run small one_call (start [true]) = Some {[ 0%nat := Returned true (7, 0) ]}.
Proof. vm_compute. done. Qed.

Lemma async_calls_exact_witness :
  ∃ s, run small one_call (start [true]) = Some s ∧ reached small reliable (start [true]) s ∧
    ∀ e r, calls s !! e = Some (Returned true r) → answered s e r.
Proof.
  destruct (run small one_call (start [true])) as [s|] eqn:E; [|by vm_compute in E].
  assert (reached small reliable (start [true]) s) as Hr.
  { apply (reached_run small reliable _ one_call (start [true])); [|constructor|done]. repeat constructor. }
  exists s. split; [done|]. split; [done|]. apply (async_calls_exact small [true] s Hr).
Defined.

Lemma pool_drains_witness :
  ∃ s, run small (call 0 None) (start [true]) = Some s ∧ reached small prompt (start [true]) s ∧ sn (productive small) s.
Proof.
  destruct (run small (call 0 None) (start [true])) as [s|] eqn:E; [|by vm_compute in E].
  assert (reached small prompt (start [true]) s) as Hr.
  { apply (reached_run small prompt _ (call 0 None) (start [true])); [|constructor|done]. repeat constructor. }
  exists s. split; [done|]. split; [done|]. apply (pool_drains small [true] s); [by left|done].
Defined.

(** The notification of a new call reaches the second thread, whose time is over: it leaves
    without looking at the queue, and the call waits although the first thread is idle. *)
Definition lost_call : list Label :=
  call 0 None ++ call 2000 None ++ steps 0 11 7 ++ steps 1 3 7 ++ call 5000 (Some 1%nat) ++ [LThread 1 late] ++ steps 1 2 7.

Example notification_lost :
  (λ s, (queue (pool s), pc <$> threads (pool s), calls s !! 2%nat)) <$> run small lost_call (start [true])
  = Some ([2%nat], [Waiting; Exited], Some Pending).
Proof. vm_compute. done. Qed.

(** When the pipe fails the event is deleted under a call that still waits for it, which touches
    it when its time is over. *)
Example failed_pipe_dangles :
  (s ← run small (call 0 None ++ steps 0 3 7 ++ [LThread 0 (MkChoice (0, 0) (Failed 32) false)]) (start [true]);
   Some (calls s !! 0%nat, ready small (LMain (Cancel 0 110)) s, perform small (LMain (Cancel 0 110)) s))
  = Some (Some Pending, true, None).
Proof. vm_compute. done. Qed.

(** A shutdown leaves the events that no thread has taken. *)
Example shutdown_keeps_queue :
  (λ s, (queue (pool s), pc <$> threads (pool s), calls s !! 0%nat)) <$>
    run small (call 0 None ++ [LMain Shutdown] ++ steps 0 1 7 ++ [LMain Join]) (start [true])
  = Some ([0%nat], [Exited], Some Pending).
Proof. vm_compute. done. Qed.
