(* ===== verification/FileLock.v ===== *)
(** * Locks on files between coroutines: coroutine/file_lock.cc

    A coroutine that locks a file would block in [flock] on a thread of its own for as long as
    another coroutine of the process holds the lock.  So the process keeps a manager per locked
    file with a queue: a coroutine whose request cannot succeed goes to sleep in the queue, and
    the release of the lock wakes the first of it.

    Every [openswoole_coroutine_flock] runs in another thread and suspends its coroutine, so a
    call has two or three parts and other calls run in between.  Managers live in a heap with
    explicit deletion.  Files are numbers (what [realpath] yields), locks of the kernel belong
    to descriptors. *)

From S2P Require Import Prelude NetSocket.

Definition LOCK_SH : Z := 1.
Definition LOCK_EX : Z := 2.
Definition LOCK_NB : Z := 4.
Definition LOCK_UN : Z := 8.
Definition EWOULDBLOCK : Z := 11.

(** ** Data *)

Record LockManager := MkManager { lm_ex : bool; lm_sh : bool; queue_ : list nat }.
Definition set_ex (m : LockManager) (b : bool) : LockManager := MkManager b (lm_sh m) (queue_ m).
Definition set_sh (m : LockManager) (b : bool) : LockManager := MkManager (lm_ex m) b (queue_ m).
Definition set_queue (m : LockManager) (q : list nat) : LockManager := MkManager (lm_ex m) (lm_sh m) q.

(** Where a coroutine is suspended inside a call, with its manager, file and descriptor:
    in the queue, in [flock] for a lock, or in [flock] for the release, with the coroutine that
    is to be resumed behind it. *)
Inductive Suspended :=
  | Queued (lm file fd : nat) (ex : bool)
  | Locking (lm file fd : nat) (ex : bool)
  | Unlocking (file fd : nat) (next : option nat).

(** [locks]: what the kernel has locked, by descriptor; [requests] and [grants]: the calls for a
    lock and the locks obtained, in order. *)
Record State := MkState {
  lock_pool : gmap nat nat; managers : gmap nat LockManager; next_lm : nat;
  cos : gmap nat Suspended; locks : gmap nat (nat * bool);
  requests : list (nat * nat); grants : list (nat * nat); returned : list (nat * Z) }.

Definition with_managers (s : State) (m : gmap nat LockManager) : State :=
  MkState (lock_pool s) m (next_lm s) (cos s) (locks s) (requests s) (grants s) (returned s).
Definition with_cos (s : State) (c : gmap nat Suspended) : State :=
  MkState (lock_pool s) (managers s) (next_lm s) c (locks s) (requests s) (grants s) (returned s).
Definition with_locks (s : State) (l : gmap nat (nat * bool)) : State :=
  MkState (lock_pool s) (managers s) (next_lm s) (cos s) l (requests s) (grants s) (returned s).
Definition with_request (s : State) (c f : nat) : State :=
  MkState (lock_pool s) (managers s) (next_lm s) (cos s) (locks s) (requests s ++ [(c, f)]) (grants s) (returned s).
Definition with_grant (s : State) (c f : nat) : State :=
  MkState (lock_pool s) (managers s) (next_lm s) (cos s) (locks s) (requests s) (grants s ++ [(c, f)]) (returned s).

(** The call of coroutine [c] returns [r]. *)
Definition return_ (c : nat) (r : Z) (s : State) : State :=
  MkState (lock_pool s) (managers s) (next_lm s) (delete c (cos s)) (locks s) (requests s) (grants s) (returned s ++ [(c, r)]).

(** ** The kernel *)

(** No other descriptor of the file has a lock that excludes this one. *)
Definition compatible (f fd : nat) (ex : bool) (s : State) : bool :=
  forallb (λ kv : nat * (nat * bool), bool_decide (kv.1 = fd) || negb (bool_decide (kv.2.1 = f)) || negb (ex || kv.2.2)) (map_to_list (locks s)).

(** ** The operations *)

Definition get_manager (f : nat) (s : State) : nat * State :=
  match lock_pool s !! f with
  | Some lm => (lm, s)
  | None =>
    let lm := next_lm s in
    (lm, MkState (<[f := lm]> (lock_pool s)) (<[lm := MkManager false false []]> (managers s)) (S lm)
           (cos s) (locks s) (requests s) (grants s) (returned s))
  end.

(** The rest of [lock_ex] and [lock_sh] behind the wait: the flag, then [flock]. *)
Definition take (c lm f fd : nat) (ex : bool) (s : State) : option State :=
  m ← managers s !! lm;
  let m := if ex then set_ex m true else set_sh m true in
  Some (with_cos (with_managers s (<[lm := m]> (managers s))) (<[c := Locking lm f fd ex]> (cos s))).

(** [lock_ex] and [lock_sh], which differ in the condition and the flag. *)
Definition lock (ex : bool) (c f fd : nat) (s : State) : option State :=
  let '(lm, s) := get_manager f (with_request s c f) in
  m ← managers s !! lm;
  if (if ex then lm_ex m || lm_sh m else lm_ex m) then
    Some (with_cos (with_managers s (<[lm := set_queue m (queue_ m ++ [c])]> (managers s))) (<[c := Queued lm f fd ex]> (cos s)))
  else take c lm f fd ex s.

Definition lock_release (c f fd : nat) (s : State) : option State :=
  match lock_pool s !! f with
  | None => Some (with_cos s (<[c := Unlocking f fd None]> (cos s)))
  | Some lm =>
    m ← managers s !! lm;
    match queue_ m with
    | [] =>
      Some (MkState (delete f (lock_pool s)) (delete lm (managers s)) (next_lm s)
              (<[c := Unlocking f fd None]> (cos s)) (locks s) (requests s) (grants s) (returned s))
    | co :: q =>
      Some (with_cos (with_managers s (<[lm := set_queue m q]> (managers s))) (<[c := Unlocking f fd (Some co)]> (cos s)))
    end
  end.

(** [lock_nb] with [operation] a lock or not; the kernel answers at once. *)
Definition lock_nb (c f fd : nat) (operation : Z) (s : State) : option State :=
  let '(lm, s) := get_manager f s in
  m ← managers s !! lm;
  if (operation =? LOCK_EX) && (lm_ex m || lm_sh m) then Some (return_ c (-1) s)
  else if (operation =? LOCK_SH) && lm_ex m then Some (return_ c (-1) s)
  else
    let set (m : LockManager) := if operation =? LOCK_EX then set_ex m true else set_sh m true in
    let ok := with_managers s (<[lm := set m]> (managers s)) in
    if operation =? LOCK_UN then Some (return_ c 0 (with_locks ok (delete fd (locks s))))
    else
      let ex := operation =? LOCK_EX in
      if compatible f fd ex s then Some (return_ c 0 (with_locks ok (<[fd := (f, ex)]> (locks s)))) else Some (return_ c (-1) s).

Definition openswoole_coroutine_flock_ex (real : option nat) (c fd : nat) (operation : Z) (s : State) : option State :=
  match real with
  | None => Some (return_ c (-1) s)
  | Some f =>
    if operation =? LOCK_EX then lock true c f fd s
    else if operation =? LOCK_SH then lock false c f fd s
    else if operation =? LOCK_UN then lock_release c f fd s
    else if negb (Z.land operation LOCK_NB =? 0) then lock_nb c f fd (Z.land operation (Z.lnot LOCK_NB)) s
    else Some (return_ c (-1) s)
  end.

(** [Coroutine::resume] of a coroutine that waits in the queue. *)
Definition resume (c : nat) (s : State) : option State :=
  match cos s !! c with
  | Some (Queued lm f fd ex) => take c lm f fd ex s
  | _ => None
  end.

(** The [flock] of coroutine [c] has ended, and the rest of its call runs. *)
Definition flock_done (c : nat) (ok : bool) (s : State) : option State :=
  match cos s !! c with
  | Some (Locking lm f fd ex) =>
    if ok then Some (return_ c 0 (with_grant (with_locks s (<[fd := (f, ex)]> (locks s))) c f))
    else
      m ← managers s !! lm;
      Some (return_ c (-1) (with_managers s (<[lm := if ex then set_ex m false else set_sh m false]> (managers s))))
  | Some (Unlocking f fd next) =>
    let s := if ok then with_locks s (delete fd (locks s)) else s in
    let r := if ok then 0 else -1 in
    match next with
    | None => Some (return_ c r s)
    | Some co => s ← resume co s; Some (return_ c r s)
    end
  | _ => None
  end.

(** ** Runs *)

Inductive Action := Flock (c fd : nat) (real : option nat) (operation : Z) | Done (c : nat) (ok : bool).

Definition perform (a : Action) (s : State) : option State :=
  match a with
  | Flock c fd real operation => openswoole_coroutine_flock_ex real c fd operation s
  | Done c ok => flock_done c ok s
  end.

(** A call by a coroutine that is not in one; the kernel grants what is compatible. *)
Definition ready (a : Action) (s : State) : bool :=
  match a with
  | Flock c _ _ _ => bool_decide (cos s !! c = None)
  | Done c ok =>
    match cos s !! c with
    | Some (Locking _ f fd ex) => negb ok || compatible f fd ex s
    | Some (Unlocking _ _ _) => true
    | _ => false
    end
  end.

Definition initial : State := MkState ∅ ∅ 0 ∅ ∅ [] [] [].

Fixpoint run (l : list Action) (s : State) : option State :=
  match l with
  | [] => Some s
  | a :: l => if ready a s then s ← perform a s; run l s else None
  end.

(** ** Examples: what goes wrong with shared locks *)

Definition ask (c : nat) (op : Z) : Action := Flock c (10 + c) (Some 0%nat) op.

(** Two hold the file shared and a third waits for it alone.  The first release takes the waiting
    one out of the queue, the second finds the queue empty and deletes the manager, which the
    third then writes to. *)
Definition two_shared : list Action :=
  [ask 1 LOCK_SH; Done 1 true; ask 2 LOCK_SH; Done 2 true; ask 3 LOCK_EX; ask 1 LOCK_UN; ask 2 LOCK_UN].

Example shared_release_dangles :
  (s ← run two_shared initial; Some (ready (Done 1 true) s, perform (Done 1 true) s)) = Some (true, None).
Proof. vm_compute. done. Qed.

(** A lock that fails does not wake those who wait behind it: nobody holds the file, no call is
    under way, and the coroutine sleeps until some other one locks and releases the file. *)
Example failed_lock_strands :
  (λ s, (cos s, map_to_list (locks s))) <$> run [ask 1 LOCK_EX; ask 2 LOCK_EX; Done 1 false] initial
  = Some ({[ 2%nat := Queued 0 0 12 true ]}, []).
Proof. vm_compute. done. Qed.

(** [LOCK_UN | LOCK_NB] marks the file as locked. *)
Example unlock_nb_locks :
  (λ s, (map_to_list (locks s), cos s)) <$> run [ask 1 (Z.lor LOCK_EX LOCK_NB); ask 1 (Z.lor LOCK_UN LOCK_NB); ask 2 LOCK_EX] initial
  = Some ([], {[ 2%nat := Queued 0 0 12 true ]}).
Proof. vm_compute. done. Qed.

(** A coroutine that waited behind an exclusive lock for a shared one leaves the mark of the
    exclusive lock, and other readers wait for it. *)
Example reader_keeps_exclusive :
  (λ s, (map_to_list (locks s), cos s)) <$>
    run [ask 1 LOCK_EX; Done 1 true; ask 2 LOCK_SH; ask 1 LOCK_UN; Done 1 true; Done 2 true; ask 3 LOCK_SH] initial
  = Some ([(12%nat, (0%nat, false))], {[ 3%nat := Queued 0 0 13 false ]}).
Proof. vm_compute. done. Qed.

(** ** Exclusive locks *)

Section Exclusive.

(** Every coroutine has its own descriptor of a file. *)
Context (fd_of : nat → nat → nat).
Context (fd_inj : ∀ c f c' f', fd_of c f = fd_of c' f' → c = c' ∧ f = f').

(** Calls as a careful program makes them: it locks a file exclusively, or releases a file it
    holds.  [flock] succeeds. *)
Definition proper (s : State) (a : Action) : Prop :=
  match a with
  | Flock c fd real op =>
    ∃ f, real = Some f ∧ fd = fd_of c f ∧
      (op = LOCK_EX ∧ locks s !! fd = None ∨ op = LOCK_UN ∧ locks s !! fd = Some (f, true))
  | Done _ ok => ok = true
  end.

Inductive reached : State → Prop :=
  | reached_initial : reached initial
  | reached_step s a s' : reached s → ready a s = true → proper s a → perform a s = Some s' → reached s'.

(** The use of a locked file: its manager, the coroutine whose turn it is and how far it has
    come, and the queue. *)
Inductive Stage := SLocking | SHolding | SUnlocking (next : nat).
Record Use := MkUse { u_lm : nat; u_owner : nat; u_stage : Stage; u_queue : list nat }.

(** The coroutines whose requests for the file are open, in order. *)
Definition line (u : option Use) : list nat :=
  match u with
  | None => []
  | Some u => match u_stage u with SLocking => [u_owner u] | SHolding => [] | SUnlocking n => [n] end ++ u_queue u
  end.

(** The coroutines of a log that belong to file [f]. *)
Definition of_file (f : nat) (l : list (nat * nat)) : list nat := (filter (λ x, x.2 = f) l).*1.

Definition queued (s : State) (f : nat) (u : Use) (c : nat) : Prop := cos s !! c = Some (Queued (u_lm u) f (fd_of c f) true).

Definition staged (s : State) (f : nat) (u : Use) : Prop :=
  let o := u_owner u in
  match u_stage u with
  | SLocking => cos s !! o = Some (Locking (u_lm u) f (fd_of o f) true)
  | SHolding => locks s !! fd_of o f = Some (f, true) ∧ cos s !! o ≠ Some (Unlocking f (fd_of o f) None)
  | SUnlocking n =>
    cos s !! o = Some (Unlocking f (fd_of o f) (Some n)) ∧ locks s !! fd_of o f = Some (f, true) ∧ queued s f u n
  end.

(** A suspended coroutine is part of the use of its file, or gives its lock back last. *)
Definition involved (s : State) (ph : gmap nat Use) (c : nat) (x : Suspended) : Prop :=
  match x with
  | Queued lm f fd ex => ∃ u, ph !! f = Some u ∧ (c ∈ u_queue u ∨ u_stage u = SUnlocking c)
  | Locking lm f fd ex => ∃ u, ph !! f = Some u ∧ u_owner u = c ∧ u_stage u = SLocking
  | Unlocking f fd None => fd = fd_of c f ∧ locks s !! fd = Some (f, true)
  | Unlocking f fd (Some n) => ∃ u, ph !! f = Some u ∧ u_owner u = c ∧ u_stage u = SUnlocking n
  end.

Record Rep (s : State) (ph : gmap nat Use) : Prop := {
  r_pool : ∀ f, lock_pool s !! f = u_lm <$> ph !! f;
  r_manager : ∀ f u, ph !! f = Some u → managers s !! u_lm u = Some (MkManager true false (u_queue u)) ∧ (u_lm u < next_lm s)%nat;
  r_inj : ∀ f f' u u', ph !! f = Some u → ph !! f' = Some u' → u_lm u = u_lm u' → f = f';
  r_staged : ∀ f u, ph !! f = Some u → staged s f u;
  r_queue : ∀ f u c, ph !! f = Some u → c ∈ u_queue u → queued s f u c;
  r_nodup : ∀ f, NoDup (line (ph !! f));
  r_cos : ∀ c x, cos s !! c = Some x → involved s ph c x;
  r_locks : ∀ fd f b, locks s !! fd = Some (f, b) → b = true ∧ ∃ c, fd = fd_of c f ∧
    ((∃ u, ph !! f = Some u ∧ u_owner u = c ∧ u_stage u ≠ SLocking) ∨ cos s !! c = Some (Unlocking f fd None));
  r_one : ∀ fd fd' f b b', locks s !! fd = Some (f, b) → locks s !! fd' = Some (f, b') → fd = fd';
  r_line : ∀ f, of_file f (requests s) = of_file f (grants s) ++ line (ph !! f) }.

Lemma of_file_app f l c f' : of_file f (l ++ [(c, f')]) = of_file f l ++ (if decide (f' = f) then [c] else []).
Proof. unfold of_file. rewrite filter_app, fmap_app. f_equal. rewrite filter_cons. cbn. by case_decide. Qed.

Lemma rep_initial : Rep initial ∅.
Proof. split; intros; rewrite ?lookup_empty in *; try done. apply NoDup_nil_2. Qed.

(** What changes for coroutine [c] alone leaves the use of a file as it is, if [c] has no part in it
    but to hold it. *)
Lemma staged_frame s s' f u c :
  (u_owner u = c → u_stage u = SHolding ∧ cos s' !! c ≠ Some (Unlocking f (fd_of c f) None)) →
  staged s f u → (∀ c', c' ≠ c → cos s' !! c' = cos s !! c') →
  (∀ n, u_stage u = SUnlocking n → n ≠ c) →
  (u_stage u ≠ SLocking → locks s' !! fd_of (u_owner u) f = locks s !! fd_of (u_owner u) f) → staged s' f u.
Proof.
  intros Ho Hs Hc Hn Hl. unfold staged, queued in *. destruct (decide (u_owner u = c)) as [E|Hne].
  - destruct (Ho E) as [Hst ?]. rewrite Hst in *. rewrite Hl by done. split; [by destruct Hs|]. by rewrite E.
  - destruct (u_stage u) as [| |n] eqn:E.
    + by rewrite Hc.
    + by rewrite Hl, Hc.
    + destruct Hs as (H1 & H2 & H3). rewrite Hl by done. rewrite !Hc; auto.
Qed.

(** A coroutine that was in no call is suspended; the locks stay. *)
Lemma staged_call s s' f u c x :
  cos s !! c = None → cos s' = <[c := x]> (cos s) → locks s' = locks s →
  x ≠ Unlocking f (fd_of c f) None → staged s f u → staged s' f u.
Proof.
  intros Hn Hc Hl Hx Hs. apply (staged_frame s s' f u c); try done.
  - intros Ho. rewrite Hc, lookup_insert_eq. unfold staged in Hs. rewrite Ho in Hs. destruct (u_stage u) as [| |n]; [congruence|split; congruence|].
    destruct Hs. congruence.
  - intros c' Hne. rewrite Hc. by rewrite lookup_insert_ne.
  - intros n E. unfold staged, queued in Hs. rewrite E in Hs. intros ->. destruct Hs as (_ & _ & ?). congruence.
  - intros _. by rewrite Hl.
Qed.

Lemma queued_call s s' f u c x c' :
  cos s !! c = None → cos s' = <[c := x]> (cos s) → queued s f u c' → queued s' f u c'.
Proof. intros Hn Hc Hq. unfold queued in *. rewrite Hc, lookup_insert_ne; [done|]. intros ->. congruence. Qed.

(** The uses in which a coroutine has a part stay, up to a longer queue. *)
Definition longer (ph ph' : gmap nat Use) : Prop :=
  ∀ f u, ph !! f = Some u → ∃ u', ph' !! f = Some u' ∧ u_owner u' = u_owner u ∧ u_stage u' = u_stage u ∧ u_queue u ⊆ u_queue u'.

Lemma involved_longer s s' ph ph' c x : longer ph ph' → locks s' = locks s → involved s ph c x → involved s' ph' c x.
Proof.
  intros Hk Hl. destruct x as [lm f fd ex|lm f fd ex|f fd [n|]]; cbn.
  - intros (u & Hu & Hq). destruct (Hk f u Hu) as (u' & ? & ? & E & Hs). exists u'. rewrite E. split; [done|]. destruct Hq; auto.
  - intros (u & Hu & Ho & Hst). destruct (Hk f u Hu) as (u' & ? & ? & ? & ?). exists u'. split_and!; congruence.
  - intros (u & Hu & Ho & Hst). destruct (Hk f u Hu) as (u' & ? & ? & ? & ?). exists u'. split_and!; congruence.
  - by rewrite Hl.
Qed.

Lemma longer_insert ph f u : ph !! f = None → longer ph (<[f := u]> ph).
Proof. intros Hf f' u' Hu. exists u'. rewrite lookup_insert_ne by congruence. done. Qed.

Lemma idle_not_waiting s ph f u c : Rep s ph → cos s !! c = None → ph !! f = Some u → c ∉ u_queue u.
Proof. intros Hr Hn Hu Hin. pose proof (r_queue _ _ Hr f u c Hu Hin) as H. unfold queued in H. congruence. Qed.

Lemma idle_not_in_line s ph f c : Rep s ph → cos s !! c = None → c ∉ line (ph !! f).
Proof.
  intros Hr Hn Hin. destruct (ph !! f) as [u|] eqn:Hu; [|by apply not_elem_of_nil in Hin]. cbn in Hin.
  apply elem_of_app in Hin as [Hin|Hin]; [|by eapply idle_not_waiting]. pose proof (r_staged _ _ Hr f u Hu) as Hs. unfold staged, queued in Hs.
  destruct (u_stage u) as [| |n]; rewrite ?list_elem_of_singleton in Hin; subst; [congruence|by apply not_elem_of_nil in Hin|].
  destruct Hs as (_ & _ & ?). congruence.
Qed.

(** The first request for a file. *)
Lemma rep_first s s' ph c f :
  Rep s ph → cos s !! c = None → ph !! f = None → locks s !! fd_of c f = None →
  lock_pool s' = <[f := next_lm s]> (lock_pool s) → managers s' = <[next_lm s := MkManager true false []]> (managers s) →
  next_lm s' = S (next_lm s) → cos s' = <[c := Locking (next_lm s) f (fd_of c f) true]> (cos s) → locks s' = locks s →
  requests s' = requests s ++ [(c, f)] → grants s' = grants s →
  Rep s' (<[f := MkUse (next_lm s) c SLocking []]> ph).
Proof.
  intros Hr Hn Hf Hlk Ep Em Enx Ec El Erq Eg. pose proof Hr as []. split.
  - intros f'. rewrite Ep. destruct (decide (f' = f)) as [->|]; [by rewrite !lookup_insert_eq|]. by rewrite !lookup_insert_ne.
  - intros f' u [[<- <-]|[??]]%lookup_insert_Some; rewrite Em, Enx; cbn.
    + rewrite lookup_insert_eq. split; [done|lia].
    + destruct (r_manager0 f' u) as [? Hlt]; [done|]. rewrite lookup_insert_ne by lia. split; [done|lia].
  - intros f1 f2 u1 u2 [[<- <-]|[? H1]]%lookup_insert_Some [[<- <-]|[? H2]]%lookup_insert_Some; cbn; try done; intros E.
    + destruct (r_manager0 f2 u2 H2). lia.
    + destruct (r_manager0 f1 u1 H1). lia.
    + by eapply r_inj0.
  - intros f' u [[<- <-]|[??]]%lookup_insert_Some; [unfold staged; cbn; by rewrite Ec, lookup_insert_eq|].
    eapply staged_call; try done. by apply r_staged0.
  - intros f' u c' [[<- <-]|[? Hu]]%lookup_insert_Some Hin; [by apply not_elem_of_nil in Hin|]. eapply queued_call; try done. by apply r_queue0.
  - intros f'. destruct (decide (f' = f)) as [->|]; [|by rewrite lookup_insert_ne]. rewrite lookup_insert_eq. apply NoDup_singleton.
  - intros c' x. rewrite Ec. intros [[<- <-]|[??]]%lookup_insert_Some; cbn; [by rewrite lookup_insert_eq; eauto|].
    eapply involved_longer; [by apply longer_insert|done|by apply r_cos0].
  - intros fd f' b Hl. rewrite El in Hl. destruct (r_locks0 fd f' b Hl) as (-> & c' & -> & Hc'). split; [done|]. exists c'. split; [done|].
    destruct Hc' as [(u & Hu & Ho)|Hc'].
    + left. exists u. rewrite lookup_insert_ne by congruence. done.
    + right. rewrite Ec, lookup_insert_ne; [done|]. intros ->. congruence.
  - intros fd fd' f' b b'. rewrite El. apply r_one0.
  - intros f'. rewrite Erq, Eg, of_file_app, r_line0. destruct (decide (f = f')) as [->|].
    + by rewrite lookup_insert_eq, Hf, app_nil_r.
    + by rewrite lookup_insert_ne, app_nil_r.
Qed.

(** A further request. *)
Lemma rep_more s s' ph c f u :
  Rep s ph → cos s !! c = None → ph !! f = Some u →
  lock_pool s' = lock_pool s → managers s' = <[u_lm u := MkManager true false (u_queue u ++ [c])]> (managers s) →
  next_lm s' = next_lm s → cos s' = <[c := Queued (u_lm u) f (fd_of c f) true]> (cos s) → locks s' = locks s →
  requests s' = requests s ++ [(c, f)] → grants s' = grants s →
  Rep s' (<[f := MkUse (u_lm u) (u_owner u) (u_stage u) (u_queue u ++ [c])]> ph).
Proof.
  intros Hr Hn Hf Ep Em Enx Ec El Erq Eg. pose proof Hr as []. set (u' := MkUse _ _ _ _).
  assert (longer ph (<[f := u']> ph)) as Hk.
  { intros f1 u1 Hu1. destruct (decide (f1 = f)) as [->|]; [|exists u1; by rewrite lookup_insert_ne].
    simplify_eq. exists u'. rewrite lookup_insert_eq. split_and!; try done. intros x Hx. apply elem_of_app. by left. }
  split.
  - intros f'. rewrite Ep, r_pool0. destruct (decide (f' = f)) as [->|]; [by rewrite lookup_insert_eq, Hf|]. by rewrite lookup_insert_ne.
  - intros f' u1 [[<- <-]|[? Hu1]]%lookup_insert_Some; rewrite Em, Enx; cbn.
    + rewrite lookup_insert_eq. split; [done|]. by apply (r_manager0 f u).
    + rewrite lookup_insert_ne; [by apply (r_manager0 f' u1)|]. intros E. symmetry in E. by apply (r_inj0 f' f u1 u) in E.
  - intros f1 f2 u1 u2 [[<- <-]|[??]]%lookup_insert_Some [[<- <-]|[??]]%lookup_insert_Some; cbn; try done; intros E.
    + by apply (r_inj0 f f2 u u2).
    + by apply (r_inj0 f1 f u1 u).
    + by eapply r_inj0.
  - intros f' u1 [[<- <-]|[??]]%lookup_insert_Some.
    + apply (staged_call s s' f u c (Queued (u_lm u) f (fd_of c f) true)); auto.
    + eapply staged_call; try done. by apply r_staged0.
  - intros f' u1 c' [[<- <-]|[? Hu]]%lookup_insert_Some Hin; cbn in *.
    + apply elem_of_app in Hin as [Hin| ->%list_elem_of_singleton].
      * apply (queued_call s s' f u c (Queued (u_lm u) f (fd_of c f) true)); auto.
      * unfold queued. by rewrite Ec, lookup_insert_eq.
    + eapply queued_call; try done. by apply r_queue0.
  - intros f'. destruct (decide (f' = f)) as [->|]; [|by rewrite lookup_insert_ne]. rewrite lookup_insert_eq.
    pose proof (r_nodup0 f) as Hnd. pose proof (idle_not_in_line s ph f c Hr Hn) as Hni. rewrite Hf in Hnd, Hni. cbn in *. rewrite app_assoc.
    apply NoDup_app. split_and!; [done| |apply NoDup_singleton]. intros x Hx ->%list_elem_of_singleton. done.
  - intros c' x. rewrite Ec. intros [[<- <-]|[??]]%lookup_insert_Some; cbn.
    + exists u'. rewrite lookup_insert_eq. split; [done|]. left. apply elem_of_app. right. by left.
    + eapply involved_longer; [done|done|by apply r_cos0].
  - intros fd f' b Hl. rewrite El in Hl. destruct (r_locks0 fd f' b Hl) as (-> & c' & -> & Hc'). split; [done|]. exists c'. split; [done|].
    destruct Hc' as [(u1 & Hu & Ho & Hst)|Hc'].
    + left. destruct (Hk f' u1 Hu) as (u2 & ? & ? & ? & _). exists u2. split_and!; congruence.
    + right. rewrite Ec, lookup_insert_ne; [done|]. intros ->. congruence.
  - intros fd fd' f' b b'. rewrite El. apply r_one0.
  - intros f'. rewrite Erq, Eg, of_file_app, r_line0. destruct (decide (f = f')) as [->|].
    + rewrite lookup_insert_eq, Hf. cbn. by rewrite <- !app_assoc.
    + by rewrite lookup_insert_ne, app_nil_r.
Qed.

(** The release by the last one that uses the file. *)
Lemma rep_last s s' ph c f u :
  Rep s ph → cos s !! c = None → ph !! f = Some u → u_owner u = c → u_stage u = SHolding → u_queue u = [] →
  lock_pool s' = delete f (lock_pool s) → managers s' = delete (u_lm u) (managers s) →
  next_lm s' = next_lm s → cos s' = <[c := Unlocking f (fd_of c f) None]> (cos s) → locks s' = locks s →
  requests s' = requests s → grants s' = grants s → Rep s' (delete f ph).
Proof.
  intros Hr Hn Hf Ho Hst Hq Ep Em Enx Ec El Erq Eg. pose proof Hr as [].
  pose proof (r_staged0 f u Hf) as Hsf. unfold staged in Hsf. rewrite Hst, Ho in Hsf. destruct Hsf as [Hsf _]. split.
  - intros f'. rewrite Ep. destruct (decide (f' = f)) as [->|]; [by rewrite !lookup_delete_eq|]. by rewrite !lookup_delete_ne.
  - intros f' u1 [? Hu1]%lookup_delete_Some. rewrite Em, Enx, lookup_delete_ne; [by apply (r_manager0 f' u1)|].
    intros E. by apply (r_inj0 f f' u u1) in E.
  - intros f1 f2 u1 u2 [??]%lookup_delete_Some [??]%lookup_delete_Some. by apply r_inj0.
  - intros f' u1 [??]%lookup_delete_Some. eapply staged_call; try done; [congruence|]. by apply r_staged0.
  - intros f' u1 c' [? Hu]%lookup_delete_Some Hin. eapply queued_call; try done. by apply r_queue0.
  - intros f'. destruct (decide (f' = f)) as [->|]; [|by rewrite lookup_delete_ne]. rewrite lookup_delete_eq. apply NoDup_nil_2.
  - intros c' x. rewrite Ec. intros [[<- <-]|[? Hc']]%lookup_insert_Some; cbn; [by rewrite El|].
    pose proof (r_cos0 c' x Hc') as Hi. destruct x as [lm f1 fd ex|lm f1 fd ex|f1 fd [n|]]; cbn in *; rewrite ?El; try done;
      destruct Hi as (u1 & Hu1 & Hx); exists u1; (rewrite lookup_delete_ne; [done|]); intros <-; simplify_eq.
    + rewrite Hq, Hst in Hx. destruct Hx as [[]%not_elem_of_nil|]; done.
    + destruct Hx. congruence.
    + destruct Hx. congruence.
  - intros fd f' b Hl. rewrite El in Hl. destruct (r_locks0 fd f' b Hl) as (-> & c' & -> & Hc'). split; [done|]. exists c'. split; [done|].
    destruct Hc' as [(u1 & Hu1 & Ho1 & Hs1)|Hc'].
    + destruct (decide (f' = f)) as [->|]; [right; simplify_eq; by rewrite Ec, lookup_insert_eq|].
      left. exists u1. by rewrite lookup_delete_ne.
    + right. rewrite Ec, lookup_insert_ne; [done|]. intros ->. congruence.
  - intros fd fd' f' b b'. rewrite El. apply r_one0.
  - intros f'. rewrite Erq, Eg, r_line0. destruct (decide (f = f')) as [<-|]; [|by rewrite lookup_delete_ne].
    rewrite lookup_delete_eq, Hf. cbn. by rewrite Hst, Hq.
Qed.


(** The release with others waiting. *)
Lemma rep_pass s s' ph c f u co q :
  Rep s ph → cos s !! c = None → ph !! f = Some u → u_owner u = c → u_stage u = SHolding → u_queue u = co :: q →
  lock_pool s' = lock_pool s → managers s' = <[u_lm u := MkManager true false q]> (managers s) →
  next_lm s' = next_lm s → cos s' = <[c := Unlocking f (fd_of c f) (Some co)]> (cos s) → locks s' = locks s →
  requests s' = requests s → grants s' = grants s → Rep s' (<[f := MkUse (u_lm u) c (SUnlocking co) q]> ph).
Proof.
  intros Hr Hn Hf Ho Hst Hq Ep Em Enx Ec El Erq Eg. pose proof Hr as []. set (u' := MkUse _ _ _ _).
  pose proof (r_staged0 f u Hf) as Hsf. unfold staged in Hsf. rewrite Hst, Ho in Hsf. destruct Hsf as [Hsf _]. split.
  - intros f'. rewrite Ep, r_pool0. destruct (decide (f' = f)) as [->|]; [by rewrite lookup_insert_eq, Hf|]. by rewrite lookup_insert_ne.
  - intros f' u1 [[<- <-]|[? Hu1]]%lookup_insert_Some; rewrite Em, Enx; cbn.
    + rewrite lookup_insert_eq. split; [done|]. by apply (r_manager0 f u).
    + rewrite lookup_insert_ne; [by apply (r_manager0 f' u1)|]. intros E. symmetry in E. by apply (r_inj0 f' f u1 u) in E.
  - intros f1 f2 u1 u2 [[<- <-]|[??]]%lookup_insert_Some [[<- <-]|[??]]%lookup_insert_Some; cbn; try done; intros E.
    + by apply (r_inj0 f f2 u u2).
    + by apply (r_inj0 f1 f u1 u).
    + by eapply r_inj0.
  - intros f' u1 [[<- <-]|[??]]%lookup_insert_Some.
    + unfold staged. cbn. rewrite Ec, lookup_insert_eq, El. split_and!; try done.
      eapply (queued_call s s' f u); try done. apply r_queue0; [done|]. rewrite Hq. by left.
    + eapply staged_call; try done. by apply r_staged0.
  - intros f' u1 c' [[<- <-]|[? Hu]]%lookup_insert_Some Hin; cbn in *.
    + eapply (queued_call s s' f u); try done. apply r_queue0; [done|]. rewrite Hq. by right.
    + eapply queued_call; try done. by apply r_queue0.
  - intros f'. destruct (decide (f' = f)) as [->|]; [|by rewrite lookup_insert_ne]. rewrite lookup_insert_eq.
    pose proof (r_nodup0 f) as Hnd. rewrite Hf in Hnd. cbn in *. by rewrite Hst, Hq in Hnd.
  - intros c' x. rewrite Ec. intros [[<- <-]|[? Hc']]%lookup_insert_Some; cbn; [rewrite lookup_insert_eq; eauto|].
    pose proof (r_cos0 c' x Hc') as Hi. destruct x as [lm f1 fd ex|lm f1 fd ex|f1 fd [n|]]; cbn in *; rewrite ?El; try done;
      destruct Hi as (u1 & Hu1 & Hx); destruct (decide (f1 = f)) as [->|]; try (exists u1; by rewrite lookup_insert_ne); simplify_eq.
    + exists u'. rewrite lookup_insert_eq. split; [done|]. rewrite Hst, Hq in Hx. cbn. destruct Hx as [Hx|]; [|done].
      apply elem_of_cons in Hx as [->|]; auto.
    + destruct Hx. congruence.
    + destruct Hx. congruence.
  - intros fd f' b Hl. rewrite El in Hl. destruct (r_locks0 fd f' b Hl) as (-> & c' & -> & Hc'). split; [done|]. exists c'. split; [done|].
    destruct Hc' as [(u1 & Hu1 & Ho1 & Hs1)|Hc'].
    + left. destruct (decide (f' = f)) as [->|]; [|exists u1; by rewrite lookup_insert_ne].
      exists u'. rewrite lookup_insert_eq. simplify_eq. done.
    + right. rewrite Ec, lookup_insert_ne; [done|]. intros ->. congruence.
  - intros fd fd' f' b b'. rewrite El. apply r_one0.
  - intros f'. rewrite Erq, Eg, r_line0. destruct (decide (f = f')) as [<-|]; [|by rewrite lookup_insert_ne].
    rewrite lookup_insert_eq, Hf. cbn. by rewrite Hst, Hq.
Qed.

Lemma compatible_spec f fd s : compatible f fd true s = true → ∀ fd' b, locks s !! fd' = Some (f, b) → fd' = fd.
Proof.
  unfold compatible. intros H fd' b Hl. apply Is_true_true, forallb_True in H. rewrite Forall_forall in H.
  specialize (H (fd', (f, b))). rewrite elem_of_map_to_list in H. specialize (H Hl). cbn in H.
  rewrite (bool_decide_true (f = f)) in H by done. cbn in H. destruct (bool_decide (fd' = fd)) eqn:E; [|done]. by apply bool_decide_eq_true in E.
Qed.

(** The lock is granted. *)
Lemma rep_grant s s' ph c f u :
  Rep s ph → cos s !! c = Some (Locking (u_lm u) f (fd_of c f) true) → ph !! f = Some u → u_owner u = c → u_stage u = SLocking →
  compatible f (fd_of c f) true s = true →
  lock_pool s' = lock_pool s → managers s' = managers s → next_lm s' = next_lm s → cos s' = delete c (cos s) →
  locks s' = <[fd_of c f := (f, true)]> (locks s) → requests s' = requests s → grants s' = grants s ++ [(c, f)] →
  Rep s' (<[f := MkUse (u_lm u) c SHolding (u_queue u)]> ph).
Proof.
  intros Hr Hn Hf Ho Hst Hcomp Ep Em Enx Ec El Erq Eg. pose proof Hr as []. set (u' := MkUse _ _ _ _).
  assert (∀ c', c' ≠ c → cos s' !! c' = cos s !! c') as Hoth by (intros; by rewrite Ec, lookup_delete_ne).
  assert (∀ f1 u1 c', ph !! f1 = Some u1 → queued s f1 u1 c' → queued s' f1 u1 c') as Hqd.
  { intros f1 u1 c' _ Hq. unfold queued in *. rewrite Hoth; [done|]. intros ->. congruence. }
  split.
  - intros f'. rewrite Ep, r_pool0. destruct (decide (f' = f)) as [->|]; [by rewrite lookup_insert_eq, Hf|]. by rewrite lookup_insert_ne.
  - intros f' u1 [[<- <-]|[? Hu1]]%lookup_insert_Some; rewrite Em, Enx; [by apply (r_manager0 f u)|by apply (r_manager0 f' u1)].
  - intros f1 f2 u1 u2 [[<- <-]|[??]]%lookup_insert_Some [[<- <-]|[??]]%lookup_insert_Some; cbn; try done; intros E.
    + by apply (r_inj0 f f2 u u2).
    + by apply (r_inj0 f1 f u1 u).
    + by eapply r_inj0.
  - intros f' u1 [[<- <-]|[? Hu1]]%lookup_insert_Some.
    + unfold staged. cbn. by rewrite El, Ec, lookup_insert_eq, lookup_delete_eq.
    + pose proof (r_staged0 f' u1 Hu1) as Hs1. apply (staged_frame s s' f' u1 c); try done.
      * intros Ho1. rewrite Ec, lookup_delete_eq. split; [|done]. unfold staged in Hs1. rewrite Ho1 in Hs1.
        destruct (u_stage u1); [congruence|done|]. destruct Hs1. congruence.
      * intros n En. unfold staged, queued in Hs1. rewrite En in Hs1. intros ->. destruct Hs1 as (_ & _ & ?). congruence.
      * intros _. rewrite El, lookup_insert_ne; [done|]. intros [??]%fd_inj. congruence.
  - intros f' u1 c' [[<- <-]|[? Hu]]%lookup_insert_Some Hin; cbn in *; [apply (Hqd f u)|apply (Hqd f' u1)]; auto.
  - intros f'. destruct (decide (f' = f)) as [->|]; [|by rewrite lookup_insert_ne]. rewrite lookup_insert_eq.
    pose proof (r_nodup0 f) as Hnd. rewrite Hf in Hnd. cbn in *. rewrite Hst in Hnd. by apply NoDup_cons in Hnd as [_ ?].
  - intros c' x. rewrite Ec. intros [? Hc']%lookup_delete_Some.
    pose proof (r_cos0 c' x Hc') as Hi. destruct x as [lm f1 fd ex|lm f1 fd ex|f1 fd [n|]]; cbn in *.
    4: { destruct Hi as [-> Hl]. split; [done|]. rewrite El, lookup_insert_ne; [done|]. intros [??]%fd_inj. congruence. }
    all: destruct Hi as (u1 & Hu1 & Hx); destruct (decide (f1 = f)) as [->|]; try (exists u1; by rewrite lookup_insert_ne); simplify_eq.
    + exists u'. rewrite lookup_insert_eq. split; [done|]. rewrite Hst in Hx. destruct Hx; auto. done.
    + destruct Hx. congruence.
    + destruct Hx. congruence.
  - intros fd f' b. rewrite El. intros [[<- [= <- <-]]|[? Hl]]%lookup_insert_Some.
    + split; [done|]. exists c. split; [done|]. left. exists u'. by rewrite lookup_insert_eq.
    + destruct (r_locks0 fd f' b Hl) as (-> & c' & -> & Hc'). split; [done|]. exists c'. split; [done|].
      destruct Hc' as [(u1 & Hu1 & Ho1 & Hs1)|Hc'].
      * left. exists u1. rewrite lookup_insert_ne; [done|]. intros <-. simplify_eq.
      * right. rewrite Hoth; [done|]. intros ->. congruence.
  - intros fd fd' f' b b'. rewrite El. intros [[<- E]|[? Hl]]%lookup_insert_Some [[<- E']|[? Hl']]%lookup_insert_Some; simplify_eq; try done.
    + symmetry. by eapply compatible_spec.
    + by eapply compatible_spec.
    + by eapply r_one0.
  - intros f'. rewrite Erq, Eg, of_file_app, r_line0. destruct (decide (f = f')) as [<-|].
    + rewrite lookup_insert_eq, Hf. cbn. rewrite Hst, Ho. by rewrite <- app_assoc.
    + by rewrite lookup_insert_ne, app_nil_r.
Qed.

(** The last user's lock is gone. *)
Lemma rep_freed s s' ph c f :
  Rep s ph → cos s !! c = Some (Unlocking f (fd_of c f) None) →
  lock_pool s' = lock_pool s → managers s' = managers s → next_lm s' = next_lm s → cos s' = delete c (cos s) →
  locks s' = delete (fd_of c f) (locks s) → requests s' = requests s → grants s' = grants s → Rep s' ph.
Proof.
  intros Hr Hn Ep Em Enx Ec El Erq Eg. pose proof Hr as [].
  assert (∀ c', c' ≠ c → cos s' !! c' = cos s !! c') as Hoth by (intros; by rewrite Ec, lookup_delete_ne).
  split; rewrite ?Ep, ?Em, ?Enx, ?Erq, ?Eg; try done.
  - intros f' u1 Hu1. pose proof (r_staged0 f' u1 Hu1) as Hs1. apply (staged_frame s s' f' u1 c); try done.
    + intros Ho1. rewrite Ec, lookup_delete_eq. split; [|done]. unfold staged in Hs1. rewrite Ho1 in Hs1.
      destruct (u_stage u1); [congruence|done|]. destruct Hs1. congruence.
    + intros n En. unfold staged, queued in Hs1. rewrite En in Hs1. intros ->. destruct Hs1 as (_ & _ & ?). congruence.
    + intros Hst. rewrite El, lookup_delete_ne; [done|]. intros [E1 E2]%fd_inj. unfold staged in Hs1. rewrite <- E1, <- E2 in Hs1.
      destruct (u_stage u1); [done| |]; destruct Hs1 as [? Hs1]; congruence.
  - intros f1 u1 c' Hu Hin. pose proof (r_queue0 f1 u1 c' Hu Hin) as Hq. unfold queued in *. rewrite Hoth; [done|]. intros ->. congruence.
  - intros c' x. rewrite Ec. intros [? Hc']%lookup_delete_Some. pose proof (r_cos0 c' x Hc') as Hi.
    destruct x as [lm f1 fd ex|lm f1 fd ex|f1 fd [n|]]; cbn in *; try done.
    destruct Hi as [-> Hl]. split; [done|]. rewrite El, lookup_delete_ne; [done|]. intros [??]%fd_inj. congruence.
  - intros fd f' b. rewrite El. intros [Hne Hl]%lookup_delete_Some. destruct (r_locks0 fd f' b Hl) as (-> & c' & -> & Hc'). split; [done|]. exists c'. split; [done|].
    destruct Hc' as [?|Hc']; [by left|right]. rewrite Hoth; [done|]. intros ->. congruence.
  - intros fd fd' f' b b'. rewrite El. intros [??]%lookup_delete_Some [??]%lookup_delete_Some. by eapply r_one0.
Qed.

(** The lock goes to the next in the queue. *)
Lemma rep_handover s s' ph c f u n :
  Rep s ph → cos s !! c = Some (Unlocking f (fd_of c f) (Some n)) → ph !! f = Some u → u_owner u = c → u_stage u = SUnlocking n →
  lock_pool s' = lock_pool s → managers s' = managers s → next_lm s' = next_lm s →
  cos s' = delete c (<[n := Locking (u_lm u) f (fd_of n f) true]> (cos s)) →
  locks s' = delete (fd_of c f) (locks s) → requests s' = requests s → grants s' = grants s →
  Rep s' (<[f := MkUse (u_lm u) n SLocking (u_queue u)]> ph).
Proof.
  intros Hr Hn Hf Ho Hst Ep Em Enx Ec El Erq Eg. pose proof Hr as []. set (u' := MkUse _ _ _ _).
  pose proof (r_staged0 f u Hf) as Hsf. unfold staged in Hsf. rewrite Hst, Ho in Hsf. destruct Hsf as (_ & Hlk & Hqn).
  pose proof Hqn as Hqn'. unfold queued in Hqn'. assert (n ≠ c) as Hnc by (intros ->; congruence).
  assert (∀ c', c' ≠ c → c' ≠ n → cos s' !! c' = cos s !! c') as Hoth.
  { intros. rewrite Ec, lookup_delete_ne, lookup_insert_ne; done. }
  assert (n ∉ u_queue u) as Hnq.
  { pose proof (r_nodup0 f) as Hnd. rewrite Hf in Hnd. cbn in Hnd. rewrite Hst in Hnd. by apply NoDup_cons in Hnd as [? _]. }
  split.
  - intros f'. rewrite Ep, r_pool0. destruct (decide (f' = f)) as [->|]; [by rewrite lookup_insert_eq, Hf|]. by rewrite lookup_insert_ne.
  - intros f' u1 [[<- <-]|[? Hu1]]%lookup_insert_Some; rewrite Em, Enx; [by apply (r_manager0 f u)|by apply (r_manager0 f' u1)].
  - intros f1 f2 u1 u2 [[<- <-]|[??]]%lookup_insert_Some [[<- <-]|[??]]%lookup_insert_Some; cbn; try done; intros E.
    + by apply (r_inj0 f f2 u u2).
    + by apply (r_inj0 f1 f u1 u).
    + by eapply r_inj0.
  - intros f' u1 [[<- <-]|[? Hu1]]%lookup_insert_Some.
    + unfold staged. cbn. by rewrite Ec, lookup_delete_ne, lookup_insert_eq.
    + pose proof (r_staged0 f' u1 Hu1) as Hs1. unfold staged, queued in *.
      assert (locks s' !! fd_of (u_owner u1) f' = locks s !! fd_of (u_owner u1) f') as ->.
      { rewrite El, lookup_delete_ne; [done|]. intros [??]%fd_inj. congruence. }
      assert (∀ c' x, cos s !! c' = Some x → x ≠ Unlocking f (fd_of c f) (Some n) → x ≠ Queued (u_lm u) f (fd_of n f) true → cos s' !! c' = Some x) as Hk.
      { intros c' x Hc' ??. rewrite Hoth; [done|congruence|congruence]. }
      destruct (u_stage u1) as [| |n1].
      * apply Hk; [done|congruence|congruence].
      * split; [by destruct Hs1|]. rewrite Ec. intros [? [[??]|[??]]%lookup_insert_Some]%lookup_delete_Some; [congruence|]. by destruct Hs1.
      * destruct Hs1 as (H1 & H2 & H3). split_and!; [apply Hk; congruence|done|apply Hk; congruence].
  - intros f' u1 c' [[<- <-]|[? Hu]]%lookup_insert_Some Hin; cbn in *.
    + pose proof (r_queue0 f u c' Hf Hin) as Hq. unfold queued in *. rewrite Hoth; [done|congruence|]. intros ->. done.
    + pose proof (r_queue0 f' u1 c' Hu Hin) as Hq. unfold queued in *. rewrite Hoth; [done|congruence|congruence].
  - intros f'. destruct (decide (f' = f)) as [->|]; [|by rewrite lookup_insert_ne]. rewrite lookup_insert_eq.
    pose proof (r_nodup0 f) as Hnd. rewrite Hf in Hnd. cbn in *. by rewrite Hst in Hnd.
  - intros c' x. rewrite Ec. intros [? [[<- <-]|[? Hc']]%lookup_insert_Some]%lookup_delete_Some; cbn.
    { exists u'. by rewrite lookup_insert_eq. }
    pose proof (r_cos0 c' x Hc') as Hi. destruct x as [lm f1 fd ex|lm f1 fd ex|f1 fd [n1|]]; cbn in *.
    4: { destruct Hi as [-> Hl]. split; [done|]. rewrite El, lookup_delete_ne; [done|]. intros [??]%fd_inj. congruence. }
    all: destruct Hi as (u1 & Hu1 & Hx); destruct (decide (f1 = f)) as [->|]; try (exists u1; by rewrite lookup_insert_ne); simplify_eq.
    + exists u'. rewrite lookup_insert_eq. split; [done|]. rewrite Hst in Hx. destruct Hx as [|[= ->]]; [by left|done].
    + destruct Hx. congruence.
    + destruct Hx. congruence.
  - intros fd f' b. rewrite El. intros [Hne Hl]%lookup_delete_Some. destruct (r_locks0 fd f' b Hl) as (-> & c' & -> & Hc'). split; [done|]. exists c'. split; [done|].
    destruct Hc' as [(u1 & Hu1 & Ho1 & Hs1)|Hc'].
    + left. exists u1. rewrite lookup_insert_ne; [done|]. intros <-. simplify_eq.
    + right. rewrite Hoth; [done|congruence|congruence].
  - intros fd fd' f' b b'. rewrite El. intros [??]%lookup_delete_Some [??]%lookup_delete_Some. by eapply r_one0.
  - intros f'. rewrite Erq, Eg, r_line0. destruct (decide (f = f')) as [<-|]; [|by rewrite lookup_insert_ne].
    rewrite lookup_insert_eq, Hf. cbn. by rewrite Hst.
Qed.

(** ** Every proper call *)

Lemma lock_step s ph c f :
  Rep s ph → cos s !! c = None → locks s !! fd_of c f = None →
  ∃ s' ph', lock true c f (fd_of c f) s = Some s' ∧ Rep s' ph'.
Proof.
  intros Hr Hn Hl. unfold lock, get_manager. pose proof (r_pool _ _ Hr f) as Hp.
  change (lock_pool (with_request s c f)) with (lock_pool s). rewrite Hp.
  destruct (ph !! f) as [u|] eqn:Hu; cbn [fmap option_fmap option_map].
  - change (managers (with_request s c f)) with (managers s). destruct (r_manager _ _ Hr f u Hu) as [-> Hlt].
    cbn. do 2 eexists. split; [done|]. by eapply (rep_more s _ ph c f u).
  - cbn. rewrite lookup_insert_eq. cbn. unfold take. cbn. rewrite lookup_insert_eq. cbn. do 2 eexists. split; [done|].
    eapply (rep_first s _ ph c f); try done. cbn. by rewrite insert_insert_eq.
Qed.

(** Who holds a file and is in no call has the turn. *)
Lemma holder_turn s ph c f :
  Rep s ph → cos s !! c = None → locks s !! fd_of c f = Some (f, true) →
  ∃ u, ph !! f = Some u ∧ u_owner u = c ∧ u_stage u = SHolding.
Proof.
  intros Hr Hn Hl. destruct (r_locks _ _ Hr _ _ _ Hl) as (_ & c' & [<- _]%fd_inj & [(u & Hu & Ho & Hst)|Hc]); [|congruence].
  exists u. split_and!; try done. pose proof (r_staged _ _ Hr f u Hu) as Hs. unfold staged in Hs. destruct (u_stage u); try done.
  rewrite Ho in Hs. destruct Hs. congruence.
Qed.

Lemma release_step s ph c f :
  Rep s ph → cos s !! c = None → locks s !! fd_of c f = Some (f, true) →
  ∃ s' ph', lock_release c f (fd_of c f) s = Some s' ∧ Rep s' ph'.
Proof.
  intros Hr Hn Hl. destruct (holder_turn s ph c f Hr Hn Hl) as (u & Hu & Ho & Hst). unfold lock_release.
  rewrite (r_pool _ _ Hr f), Hu. cbn [fmap option_fmap option_map]. destruct (r_manager _ _ Hr f u Hu) as [-> Hlt]. cbn.
  destruct (u_queue u) as [|co q] eqn:Hq; do 2 eexists; (split; [done|]).
  - by eapply (rep_last s _ ph c f u).
  - by eapply (rep_pass s _ ph c f u).
Qed.

Lemma done_step s ph c :
  Rep s ph → ready (Done c true) s = true → ∃ s' ph', flock_done c true s = Some s' ∧ Rep s' ph'.
Proof.
  intros Hr Hre. cbn in Hre. unfold flock_done. destruct (cos s !! c) as [x|] eqn:Hc; [|done].
  pose proof (r_cos _ _ Hr c x Hc) as Hi. destruct x as [lm f fd ex|lm f fd ex|f fd [n|]]; cbn in Hi; [done| | |].
  - destruct Hi as (u & Hu & Ho & Hst). pose proof (r_staged _ _ Hr f u Hu) as Hs. unfold staged in Hs. rewrite Hst, Ho in Hs.
    rewrite Hc in Hs. injection Hs as -> -> ->. do 2 eexists. split; [done|]. by eapply (rep_grant s _ ph c f u).
  - destruct Hi as (u & Hu & Ho & Hst). pose proof (r_staged _ _ Hr f u Hu) as Hs. unfold staged in Hs. rewrite Hst, Ho in Hs.
    destruct Hs as (Hc' & Hl & Hq). rewrite Hc in Hc'. injection Hc' as ->.
    unfold resume. cbn. unfold queued in Hq. rewrite Hq. unfold take. cbn. destruct (r_manager _ _ Hr f u Hu) as [Hm Hlt]. rewrite Hm. cbn.
    do 2 eexists. split; [done|]. eapply (rep_handover s _ ph c f u n); try done. cbn. by rewrite insert_id.
  - destruct Hi as [-> Hl]. do 2 eexists. split; [done|]. by eapply (rep_freed s _ ph c f).
Qed.

Lemma proper_step s ph a :
  Rep s ph → ready a s = true → proper s a → ∃ s' ph', perform a s = Some s' ∧ Rep s' ph'.
Proof.
  intros Hr Hre Hp. destruct a as [c fd real op|c ok]; cbn in Hp; [|subst; by apply (done_step s ph)].
  cbn in Hre. apply bool_decide_eq_true in Hre. destruct Hp as (f & -> & -> & [[-> Hl]|[-> Hl]]); cbn.
  - by apply (lock_step s ph).
  - by apply (release_step s ph).
Qed.

Lemma reached_rep s : reached s → ∃ ph, Rep s ph.
Proof.
  induction 1 as [|s a s' _ [ph IH] Hr Hp Hs]; [exists ∅; apply rep_initial|].
  destruct (proper_step s ph a IH Hr Hp) as (s1 & ph1 & E & ?). rewrite E in Hs. simplify_eq. eauto.
Qed.

Definition file_of (x : Suspended) : nat :=
  match x with Queued _ f _ _ => f | Locking _ f _ _ => f | Unlocking f _ _ => f end.

(** Whoever waits for a file waits for a holder, or some call for the file can go on. *)
Lemma waiting_progress s ph c x :
  Rep s ph → cos s !! c = Some x →
  (∃ h, locks s !! fd_of h (file_of x) = Some (file_of x, true) ∧ ∀ n, cos s !! h ≠ Some (Unlocking (file_of x) (fd_of h (file_of x)) n)) ∨
  (∃ h y, cos s !! h = Some y ∧ file_of y = file_of x ∧ ready (Done h true) s = true).
Proof.
  intros Hr Hc. pose proof (r_cos _ _ Hr c x Hc) as Hi.
  assert (∀ f u, ph !! f = Some u → (∃ h, locks s !! fd_of h f = Some (f, true) ∧ ∀ n, cos s !! h ≠ Some (Unlocking f (fd_of h f) n)) ∨
    (∃ h y, cos s !! h = Some y ∧ file_of y = f ∧ ready (Done h true) s = true)) as Hgo.
  { intros f u Hu. pose proof (r_staged _ _ Hr f u Hu) as Hs. unfold staged in Hs. destruct (u_stage u) as [| |n] eqn:Hst.
    - destruct (compatible f (fd_of (u_owner u) f) true s) eqn:Ecomp.
      + right. exists (u_owner u). eexists. split; [done|]. split; [done|]. cbn. by rewrite Hs.
      + right. assert (∃ fd b, locks s !! fd = Some (f, b)) as (fd & b & Hl).
        { unfold compatible in Ecomp. apply not_true_iff_false in Ecomp. destruct (decide (Exists (λ kv : nat * (nat * bool), kv.2.1 = f) (map_to_list (locks s)))) as [He|He].
          - apply Exists_exists in He as ([fd [f1 b]] & Hin%elem_of_map_to_list & E). cbn in E. subst. eauto.
          - exfalso. apply Ecomp, Is_true_true, forallb_True, Forall_forall. intros kv Hin. cbn.
            rewrite (bool_decide_false (kv.2.1 = f)); [by destruct (bool_decide _)|]. intros E. apply He, Exists_exists. eauto. }
        destruct (r_locks _ _ Hr _ _ _ Hl) as (-> & h & -> & [(u1 & Hu1 & _ & ?)|Hh]); [congruence|].
        exists h. eexists. split; [done|]. split; [done|]. cbn. by rewrite Hh.
    - left. exists (u_owner u). split; [by destruct Hs|]. intros [n|]; [|by destruct Hs]. intros Hn.
      pose proof (r_cos _ _ Hr _ _ Hn) as (u1 & ? & ? & ?). congruence.
    - right. destruct Hs as (Hs & _). exists (u_owner u). eexists. split; [done|]. split; [done|]. cbn. by rewrite Hs. }
  destruct x as [lm f fd ex|lm f fd ex|f fd [n|]]; cbn in *.
  1-3: destruct Hi as (u & Hu & _); by apply (Hgo f u).
  right. exists c. eexists. split; [done|]. split; [done|]. by rewrite Hc.
Qed.
End Exclusive.

(** C11: exclusive locks.  When the coroutines of a process lock files exclusively, each through
    its own descriptor, and release what they hold, and every [flock] of the kernel succeeds (see
    [failed_lock_strands]), then in every interleaving of their calls:
    no call touches a deleted manager or resumes a coroutine that does not wait, at most one
    descriptor of a file is locked, the locks of a file are granted in the order in which they
    were requested, and a coroutine that waits for a file waits for one that holds it, or some
    call for the file can go on. *)
Theorem exclusive_locks_fifo (fd_of : nat → nat → nat) s :
  (∀ c f c' f', fd_of c f = fd_of c' f' → c = c' ∧ f = f') → reached fd_of s →
  (∀ a, ready a s = true → proper fd_of s a → is_Some (perform a s)) ∧
  (∀ f fd fd' b b', locks s !! fd = Some (f, b) → locks s !! fd' = Some (f, b') → fd = fd') ∧
  (∀ f, of_file f (grants s) `prefix_of` of_file f (requests s)) ∧
  (∀ c x, cos s !! c = Some x →
    (∃ h, locks s !! fd_of h (file_of x) = Some (file_of x, true) ∧ ∀ n, cos s !! h ≠ Some (Unlocking (file_of x) (fd_of h (file_of x)) n)) ∨
    (∃ h y, cos s !! h = Some y ∧ file_of y = file_of x ∧ ready (Done h true) s = true)).
Proof.
  intros Hinj Hre. destruct (reached_rep fd_of Hinj s Hre) as [ph Hr]. split_and!.
  - intros a Ha Hp. destruct (proper_step fd_of Hinj s ph a Hr Ha Hp) as (s' & ? & ? & _). eauto.
  - intros f fd fd' b b'. apply (r_one _ _ _ Hr).
  - intros f. exists (line (ph !! f)). apply (r_line _ _ _ Hr f).
  - intros c x. by apply (waiting_progress fd_of s ph).
Qed.

Definition own_fd (c f : nat) : nat := encode_nat (c, f).

Lemma own_fd_inj c f c' f' : own_fd c f = own_fd c' f' → c = c' ∧ f = f'.
Proof. intros E%(inj encode_nat). by simplify_eq. Qed.

Lemma exclusive_locks_fifo_witness :
  ∃ s, (s ← perform (Flock 1 (own_fd 1 0) (Some 0%nat) LOCK_EX) initial; perform (Flock 2 (own_fd 2 0) (Some 0%nat) LOCK_EX) s) = Some s ∧
    reached own_fd s ∧ of_file 0 (grants s) `prefix_of` of_file 0 (requests s).
Proof.
  destruct (perform (Flock 1 (own_fd 1 0) (Some 0%nat) LOCK_EX) initial) as [s1|] eqn:E1; [|done].
  destruct (perform (Flock 2 (own_fd 2 0) (Some 0%nat) LOCK_EX) s1) as [s2|] eqn:E2; [|by vm_compute in E1; simplify_eq].
  assert (reached own_fd s2) as Hr.
  { apply (reached_step own_fd s1 (Flock 2 (own_fd 2 0) (Some 0%nat) LOCK_EX)); [|vm_compute in E1; by simplify_eq| |done].
    - apply (reached_step own_fd initial (Flock 1 (own_fd 1 0) (Some 0%nat) LOCK_EX)); [constructor|done| |done].
      exists 0%nat. split_and!; try done. by left.
    - exists 0%nat. split_and!; try done. left. vm_compute in E1. by simplify_eq. }
  exists s2. split; [done|]. split; [done|]. apply (exclusive_locks_fifo own_fd s2 own_fd_inj Hr).
Defined.
