(* ===== verification/CoWait.v ===== *)
(** * Waiting for child processes in coroutines: os/wait.cc

    [System::waitpid] suspends its coroutine until a child has exited.  The handler of SIGCHLD
    collects every child that has exited and gives it to the call that waits for this child, or
    to the first call that waits for any child, or keeps its status for a later call.

    A call that waits has its task on the stack of its coroutine; the list and the map hold
    pointers to it, so a pointer to the task of a call that has returned is a fault.  One turn of
    the handler's loop is a step, and the resumed coroutines run on between its turns. *)

From S2P Require Import Prelude.

(** ** Data *)

(** [waiting]: the suspended calls by coroutine, with the process they wait for.  The kernel
    has [children] that run and [zombies] that have exited and are not collected; [exited] records
    all that ever exited and [results] what the calls returned, in order. *)
Record State := MkState {
  wait_list : list nat; waitpid_map : gmap Z nat; child_processes : gmap Z Z; waiting : gmap nat Z;
  children : gset Z; zombies : gmap Z Z; exited : gmap Z Z; results : list (nat * (Z * Z)) }.

Definition set_lists (s : State) (l : list nat) (m : gmap Z nat) : State :=
  MkState l m (child_processes s) (waiting s) (children s) (zombies s) (exited s) (results s).
Definition set_kept (s : State) (m : gmap Z Z) : State :=
  MkState (wait_list s) (waitpid_map s) m (waiting s) (children s) (zombies s) (exited s) (results s).
Definition set_waiting (s : State) (w : gmap nat Z) : State :=
  MkState (wait_list s) (waitpid_map s) (child_processes s) w (children s) (zombies s) (exited s) (results s).
Definition set_zombies (s : State) (z : gmap Z Z) : State :=
  MkState (wait_list s) (waitpid_map s) (child_processes s) (waiting s) (children s) z (exited s) (results s).

(** A call returns a process, or -1, with a status. *)
Definition return_ (c : nat) (r : Z * Z) (s : State) : State :=
  MkState (wait_list s) (waitpid_map s) (child_processes s) (waiting s) (children s) (zombies s) (exited s) (results s ++ [(c, r)]).

(** ** The kernel's waitpid with WNOHANG: a zombie, [pick] for any child, or none *)

Definition waitpid_nohang (pid pick : Z) (s : State) : option (Z * Z) * State :=
  let p := if pid <? 0 then pick else pid in
  match zombies s !! p with
  | Some st => (Some (p, st), set_zombies s (delete p (zombies s)))
  | None => (None, s)
  end.

(** ** The operations *)

(** The statuses kept for later calls; [begin()] of the map is any of its entries. *)
Definition kept (pid pick : Z) (s : State) : option (Z * Z) :=
  let p := if pid <? 0 then pick else pid in
  st ← child_processes s !! p; Some (p, st).

(** [System::waitpid] up to its suspension; [nohang]: WNOHANG is among the options. *)
Definition waitpid (c : nat) (pid : Z) (nohang : bool) (pick : Z) (s : State) : State :=
  match kept pid pick s with
  | Some (p, st) => return_ c (p, st) (set_kept s (delete p (child_processes s)))
  | None =>
    match waitpid_nohang pid pick s with
    | (Some r, s) => return_ c r s
    | (None, s) =>
      if nohang then return_ c (0, 0) s
      else
        let s := set_waiting s (<[c := pid]> (waiting s)) in
        if pid <? 0 then set_lists s (wait_list s ++ [c]) (waitpid_map s)
        else set_lists s (wait_list s) (<[pid := c]> (waitpid_map s))
    end
  end.

(** The rest of [System::waitpid] behind the suspension, with what the task holds then. *)
Definition resumed (c : nat) (r : Z * Z) (s : State) : option State :=
  pid ← waiting s !! c;
  let s := set_waiting s (delete c (waiting s)) in
  let s :=
    if pid <? 0 then
      if 0 <? r.1 then set_lists s (tail (wait_list s)) (waitpid_map s)
      else set_lists s (filter (λ x, x ≠ c) (wait_list s)) (waitpid_map s)
    else set_lists s (wait_list s) (delete pid (waitpid_map s)) in
  Some (return_ c r s).

(** One turn of [signal_handler] for the collected process [p]. *)
Definition signal_handler_turn (p : Z) (s : State) : option State :=
  st ← zombies s !! p;
  let s := set_zombies s (delete p (zombies s)) in
  match waitpid_map s !! p with
  | Some c => resumed c (p, st) s
  | None =>
    match wait_list s with
    | c :: _ => resumed c (p, st) s
    | [] => Some (set_kept s (<[p := st]> (child_processes s)))
    end
  end.

(** [openswoole_coroutine_wait_count] *)
Definition wait_count (s : State) : nat := (length (wait_list s) + size (waitpid_map s))%nat.

(** ** Runs *)

Inductive Action :=
  | Fork (p : Z)
  | Exit (p st : Z)
  | Wait (c : nat) (pid : Z) (nohang : bool) (pick : Z)
  | Handler (p : Z)
  | Timeout (c : nat).

Definition perform (a : Action) (s : State) : option State :=
  match a with
  | Fork p => Some (MkState (wait_list s) (waitpid_map s) (child_processes s) (waiting s) ({[p]} ∪ children s) (zombies s) (exited s) (results s))
  | Exit p st =>
    Some (MkState (wait_list s) (waitpid_map s) (child_processes s) (waiting s) (children s ∖ {[p]}) (<[p := st]> (zombies s)) (<[p := st]> (exited s)) (results s))
  | Wait c pid nohang pick => Some (waitpid c pid nohang pick s)
  | Handler p => signal_handler_turn p s
  | Timeout c => resumed c (-1, 0) s
  end.

(** A process number is not used again in the run.  A call comes from a coroutine that is in
    none; [pick] is some entry where there is one.  [Timeout]: the timer or a cancellation. *)
Definition ready (a : Action) (s : State) : bool :=
  match a with
  | Fork p => (0 <? p) && bool_decide (p ∉ children s) && bool_decide (exited s !! p = None)
  | Exit p _ => bool_decide (p ∈ children s)
  | Wait c pid _ pick =>
    bool_decide (waiting s !! c = None) &&
    (if pid <? 0 then
       if bool_decide (child_processes s = ∅) then bool_decide (zombies s = ∅) || bool_decide (is_Some (zombies s !! pick))
       else bool_decide (is_Some (child_processes s !! pick))
     else 0 <? pid)
  | Handler p => bool_decide (is_Some (zombies s !! p))
  | Timeout c => bool_decide (is_Some (waiting s !! c))
  end.

Definition initial : State := MkState [] ∅ ∅ ∅ ∅ ∅ ∅ [].

Fixpoint run (l : list Action) (s : State) : option State :=
  match l with
  | [] => Some s
  | a :: l => if ready a s then s ← perform a s; run l s else None
  end.

(** ** Two calls for one process *)

(** The map has room for one call per process: when two coroutines wait for the same child, the
    first one is never resumed. *)
Example second_call_hides_first :
  (λ s, (results s, map_to_list (waiting s), wait_count s)) <$>
    run [Fork 7; Wait 1 7 false 0; Wait 2 7 false 0; Exit 7 0; Handler 7] initial
  = Some ([(2%nat, (7, 0))], [(1%nat, 7)], 0%nat).
Proof. vm_compute. done. Qed.

(** When one of two calls gives up, it takes the other's entry with it. *)
Example timeout_removes_other :
  (λ s, (results s, map_to_list (waiting s), map_to_list (child_processes s))) <$>
    run [Fork 7; Wait 1 7 false 0; Wait 2 7 false 0; Timeout 1; Exit 7 0; Handler 7] initial
  = Some ([(1%nat, (-1, 0))], [(2%nat, 7)], [(7, 0)]).
Proof. vm_compute. done. Qed.

(** A call for any child that comes between the exit and the handler takes the child that another
    call waits for. *)
Example any_takes_awaited :
  (λ s, (results s, map_to_list (waiting s))) <$>
    run [Fork 7; Wait 1 7 false 0; Exit 7 0; Wait 2 (-1) false 7] initial
  = Some ([(2%nat, (7, 0))], [(1%nat, 7)]).
Proof. vm_compute. done. Qed.

(** A call for a process that is no child waits although nothing will ever end it. *)
Example missing_child_waits : (λ s, map_to_list (waiting s)) <$> run [Wait 1 7 false 0] initial = Some [(1%nat, 7)].
Proof. vm_compute. done. Qed.

(** ** One call per process *)

(** At most one call waits for a given process. *)
Definition proper (s : State) (a : Action) : Prop :=
  match a with Wait c pid _ _ => 0 < pid → waitpid_map s !! pid = None | _ => True end.

Inductive reached : State → Prop :=
  | reached_initial : reached initial
  | reached_step s a s' : reached s → ready a s = true → proper s a → perform a s = Some s' → reached s'.

Definition there {A} (o : option A) : nat := match o with Some _ => 1%nat | None => O end.

(** How often the calls have returned process [p]. *)
Definition delivered (p : Z) (l : list (nat * (Z * Z))) : nat := length (filter (λ x, x.2.1 = p) l).

Lemma delivered_app p l c r : delivered p (l ++ [(c, r)]) = (delivered p l + if decide (r.1 = p) then 1 else 0)%nat.
Proof. unfold delivered. rewrite filter_app, length_app. f_equal. rewrite filter_cons. cbn. by case_decide. Qed.

Lemma there_insert {A} (m : gmap Z A) p q x : there (<[p := x]> m !! q) = if decide (p = q) then 1%nat else there (m !! q).
Proof. case_decide; [subst; by rewrite lookup_insert_eq|by rewrite lookup_insert_ne]. Qed.
Lemma there_delete {A} (m : gmap Z A) p q : there (delete p m !! q) = if decide (p = q) then O else there (m !! q).
Proof. case_decide; [subst; by rewrite lookup_delete_eq|by rewrite lookup_delete_ne]. Qed.

(** The statuses: every process that has exited is a zombie, kept, or returned by one call. *)
Record Counted (s : State) : Prop := {
  n_once : ∀ p, 0 < p → (there (zombies s !! p) + there (child_processes s !! p) + delivered p (results s) = there (exited s !! p))%nat;
  n_zombies : zombies s ⊆ exited s;
  n_kept : child_processes s ⊆ exited s;
  n_results : ∀ c p st, (c, (p, st)) ∈ results s → 0 < p → exited s !! p = Some st;
  n_exited : ∀ p, is_Some (exited s !! p) → 0 < p;
  n_children : ∀ p, p ∈ children s → 0 < p ∧ exited s !! p = None }.

(** The waiting calls are in the list or the map, and no status that they wait for is kept. *)
Record Registered (s : State) : Prop := {
  g_map : ∀ p c, waitpid_map s !! p = Some c ↔ waiting s !! c = Some p ∧ 0 < p;
  g_list : ∀ c, c ∈ wait_list s ↔ ∃ pid, waiting s !! c = Some pid ∧ pid < 0;
  g_nodup : NoDup (wait_list s);
  g_sign : ∀ c pid, waiting s !! c = Some pid → pid < 0 ∨ 0 < pid;
  g_kept_map : ∀ p c, waitpid_map s !! p = Some c → child_processes s !! p = None;
  g_kept_list : wait_list s ≠ [] → child_processes s = ∅ }.

Lemma counted_return s s' c p st :
  Counted s → children s' = children s → exited s' = exited s → results s' = results s ++ [(c, (p, st))] →
  exited s !! p = Some st →
  (zombies s' = delete p (zombies s) ∧ child_processes s' = child_processes s ∧ is_Some (zombies s !! p) ∨
   zombies s' = zombies s ∧ child_processes s' = delete p (child_processes s) ∧ is_Some (child_processes s !! p)) → Counted s'.
Proof.
  intros [] Ec Ee Er He Hm. split; rewrite ?Ec, ?Ee; try done.
  - intros q Hq. specialize (n_once0 q Hq). rewrite Er, delivered_app. cbn.
    destruct Hm as [(-> & -> & [x Hx])|(-> & -> & [x Hx])]; rewrite there_delete; case_decide; subst; try lia; rewrite Hx in n_once0; cbn in n_once0; lia.
  - destruct Hm as [(-> & _ & _)|(-> & _ & _)]; [|done]. etrans; [apply delete_subseteq|done].
  - destruct Hm as [(_ & -> & _)|(_ & -> & _)]; [done|]. etrans; [apply delete_subseteq|done].
  - intros c' p' st'. rewrite Er. intros [Hin|Hin%list_elem_of_singleton]%elem_of_app; [by eapply n_results0|]. by simplify_eq.
Qed.

Lemma counted_same s s' :
  Counted s → children s' = children s → exited s' = exited s → zombies s' = zombies s → child_processes s' = child_processes s →
  (results s' = results s ∨ ∃ c r, results s' = results s ++ [(c, r)] ∧ r.1 <= 0) → Counted s'.
Proof.
  intros [] Ec Ee Ez Ek Er. split; rewrite ?Ec, ?Ee, ?Ez, ?Ek; try done.
  - intros p Hp. rewrite <- (n_once0 p Hp). f_equal. destruct Er as [->|(c & r & -> & Hr)]; [done|]. rewrite delivered_app, decide_False; lia.
  - intros c p st. destruct Er as [->|(c' & r & -> & Hr)]; [apply n_results0|].
    intros [Hin|Hin%list_elem_of_singleton]%elem_of_app; [by eapply n_results0|]. simplify_eq. cbn in Hr. lia.
Qed.

Lemma registered_same s s' :
  Registered s → wait_list s' = wait_list s → waitpid_map s' = waitpid_map s → waiting s' = waiting s → child_processes s' ⊆ child_processes s →
  Registered s'.
Proof.
  intros [] El Em Ew Ek. split; rewrite ?El, ?Em, ?Ew; try done.
  - intros p c Hp. apply (lookup_weaken_None _ _ _ (g_kept_map0 p c Hp) Ek).
  - intros Hne. specialize (g_kept_list0 Hne). apply map_empty. intros i. rewrite g_kept_list0 in Ek. eapply lookup_weaken_None; [|exact Ek]. apply lookup_empty.
Qed.

(** A call that is resumed leaves the list or the map. *)
Lemma registered_resumed s c r pid s' :
  Registered s → waiting s !! c = Some pid → (0 < r.1 → pid < 0 → ∃ l, wait_list s = c :: l) → resumed c r s = Some s' →
  Registered s' ∧ results s' = results s ++ [(c, r)] ∧ child_processes s' = child_processes s ∧ zombies s' = zombies s ∧
  exited s' = exited s ∧ children s' = children s.
Proof.
  intros Hg Hw Hhd. pose proof Hg as []. unfold resumed. rewrite Hw. cbn [mbind option_bind].
  assert (∀ l' m', (∀ c', c' ∈ l' ↔ c' ∈ wait_list s ∧ c' ≠ c) → NoDup l' →
    (∀ p c', m' !! p = Some c' ↔ waitpid_map s !! p = Some c' ∧ c' ≠ c) →
    Registered (return_ c r (set_lists (set_waiting s (delete c (waiting s))) l' m'))) as Hok.
  { intros l' m' Hl Hnd Hm. split; cbn.
    - intros p c'. rewrite Hm, g_map0, lookup_delete_Some. intuition congruence.
    - intros c'. rewrite Hl, g_list0. split.
      + intros [(pid' & ? & ?) ?]. exists pid'. rewrite lookup_delete_Some. auto.
      + intros (pid' & [??]%lookup_delete_Some & ?). eauto.
    - done.
    - intros c' pid' [??]%lookup_delete_Some. by eapply g_sign0.
    - intros p c' [Hp _]%Hm. by eapply g_kept_map0.
    - intros Hne. apply g_kept_list0. destruct l' as [|x l']; [done|]. intros E. destruct (proj1 (Hl x)) as [Hin _]; [by left|].
      rewrite E in Hin. by apply not_elem_of_nil in Hin. }
  assert (∀ p, waitpid_map s !! p = Some c → p = pid) as Hmc by (intros p [? _]%g_map0; congruence).
  destruct (Z.ltb_spec pid 0) as [Hneg|Hpos].
  - assert (∀ p c', waitpid_map s !! p = Some c' ↔ waitpid_map s !! p = Some c' ∧ c' ≠ c) as Hm.
    { intros p c'. split; [|by intros []]. intros Hp. split; [done|]. intros ->. apply Hmc in Hp as E. subst. apply g_map0 in Hp as [_ ?]. lia. }
    destruct (Z.ltb_spec 0 (r.1)); intros [= <-]; (split; [|done]); apply Hok; try done.
    + destruct Hhd as [l El]; [done..|]. cbn. rewrite El in *. apply NoDup_cons in g_nodup0 as [Hni _]. intros c'. cbn. rewrite elem_of_cons.
      split; [|tauto]. intros Hin. split; [auto|]. intros ->. done.
    + destruct Hhd as [l El]; [done..|]. cbn. rewrite El in *. by apply NoDup_cons in g_nodup0 as [_ ?].
    + intros c'. cbn. rewrite list_elem_of_filter. tauto.
    + by apply NoDup_filter.
  - destruct (g_sign0 c pid Hw) as [|Hp]; [lia|]. intros [= <-]. split; [|done]. apply Hok; try done.
    + intros c'. cbn. split; [|by intros []]. intros Hin. split; [done|]. intros ->. apply g_list0 in Hin as (pid' & ? & ?). simplify_eq. lia.
    + intros p c'. cbn. rewrite lookup_delete_Some. split.
      * intros [Hne Hp']. split; [done|]. intros ->. apply Hmc in Hp'. congruence.
      * intros [Hp' Hne]. split; [|done]. intros ->. assert (waitpid_map s !! p = Some c) as E by (by apply g_map0). congruence.
Qed.

Record Fine (s : State) : Prop := { f_counted : Counted s; f_registered : Registered s }.

Lemma fine_initial : Fine initial.
Proof.
  split; split; cbn; try done.
  - intros c p st []%not_elem_of_nil.
  - intros p [x ?]. by rewrite lookup_empty in *.
  - intros p c. rewrite !lookup_empty. split; [done|by intros []].
  - intros c. split; [by intros []%not_elem_of_nil|]. intros (pid & E & _). by rewrite lookup_empty in E.
  - apply NoDup_nil_2.
Qed.

(** The call that gets a process the handler collects. *)
Definition receiver (p : Z) (s : State) : option nat :=
  match waitpid_map s !! p with Some c => Some c | None => head (wait_list s) end.

Lemma handler_turn s p st :
  Fine s → zombies s !! p = Some st →
  ∃ s', signal_handler_turn p s = Some s' ∧ Fine s' ∧
    match receiver p s with
    | Some c => is_Some (waiting s !! c) ∧ results s' = results s ++ [(c, (p, st))]
    | None => results s' = results s ∧ child_processes s' !! p = Some st
    end.
Proof.
  intros [Hn Hg] Hz. pose proof Hn as []. pose proof Hg as []. unfold signal_handler_turn, receiver. rewrite Hz. cbn [mbind option_bind].
  set (s1 := set_zombies s (delete p (zombies s))).
  assert (exited s !! p = Some st) as He by (by eapply lookup_weaken).
  assert (0 < p) as Hp by (apply n_exited0; eauto).
  assert (Registered s1) as Hg1 by (by apply (registered_same s)).
  assert (∀ c pid, waiting s !! c = Some pid → (pid < 0 → ∃ l, wait_list s = c :: l) →
    ∃ s', resumed c (p, st) s1 = Some s' ∧ Fine s' ∧ results s' = results s ++ [(c, (p, st))]) as Hres.
  { intros c pid Hw Hhd. destruct (resumed c (p, st) s1) as [s'|] eqn:E; [|unfold resumed in E; cbn in E; by rewrite Hw in E].
    destruct (registered_resumed s1 c (p, st) pid s') as (Hg' & Er & Ek & Ez & Ee & Ech); [done|done|by intros _|done|].
    exists s'. split; [done|]. split; [|done]. split; [|done]. eapply (counted_return s s' c p st); try done.
    left. rewrite Ez, Ek. eauto. }
  change (waitpid_map s1) with (waitpid_map s). change (wait_list s1) with (wait_list s).
  destruct (waitpid_map s !! p) as [c|] eqn:Em.
  - apply g_map0 in Em as [Hw Hpos]. destruct (Hres c p Hw) as (s' & ? & ? & ?); [lia|]. eauto 10.
  - destruct (wait_list s) as [|c l] eqn:El; cbn [head].
    + eexists. split; [done|]. split; [|split; [done|cbn; by rewrite lookup_insert_eq]]. split.
      * split; cbn; try done.
        -- intros q Hq. specialize (n_once0 q Hq). unfold delivered in *. rewrite there_insert, there_delete. case_decide; subst; [|lia].
           rewrite Hz in n_once0. cbn in n_once0. rewrite He in *. cbn in *. lia.
        -- etrans; [apply delete_subseteq|done].
        -- by apply insert_subseteq_l.
      * split; cbn; try done; rewrite ?El; try done.
        -- intros q c Hq. rewrite lookup_insert_ne; [by eapply g_kept_map0|]. intros ->. congruence.
    + destruct (proj1 (g_list0 c)) as (pid & Hw & Hneg); [by left|].
      destruct (Hres c pid Hw) as (s' & ? & ? & ?); [eauto|]. eauto 10.
Qed.

Lemma fine_wait s c pid nohang pick :
  Fine s → ready (Wait c pid nohang pick) s = true → proper s (Wait c pid nohang pick) → Fine (waitpid c pid nohang pick s).
Proof.
  intros [Hn Hg] Hr Hp. pose proof Hn as []. pose proof Hg as []. cbn in Hr, Hp. rewrite andb_true_iff in Hr. destruct Hr as [Hw%bool_decide_eq_true Hr].
  unfold waitpid. destruct (kept pid pick s) as [[p st]|] eqn:Ek.
  - assert (child_processes s !! p = Some st) as Hk.
    { unfold kept in Ek. cbv zeta in Ek. apply bind_Some in Ek as (x & Hx & [= <- <-]). done. }
    split; [|apply (registered_same s); try done; apply delete_subseteq].
    eapply (counted_return s _ c p st); try done; [by eapply lookup_weaken|]. right. eauto.
  - unfold waitpid_nohang. destruct (zombies s !! (if pid <? 0 then pick else pid)) as [st|] eqn:Ez.
    + split; [|by apply (registered_same s)]. eapply (counted_return s _ c _ st); try done; [by eapply lookup_weaken|]. left. eauto.
    + destruct nohang; [split; [|by apply (registered_same s)]; eapply (counted_same s); try done; right; eexists _, (0, 0); done|].
      destruct (Z.ltb_spec pid 0) as [Hneg|Hpos].
      * split; [by eapply (counted_same s); try done; left|].
        assert (child_processes s = ∅) as Hemp.
        { destruct (decide (child_processes s = ∅)) as [|Hne]; [done|]. rewrite (bool_decide_false (child_processes s = ∅)) in Hr by done.
          apply bool_decide_eq_true in Hr as [st Hst]. unfold kept in Ek. rewrite (proj2 (Z.ltb_lt _ _)), Hst in Ek by done. done. }
        split; cbn; try done.
        -- intros p c'. rewrite g_map0. split.
           ++ intros [? ?]. rewrite lookup_insert_ne by congruence. done.
           ++ intros [[[<- <-]|[??]]%lookup_insert_Some ?]; [lia|done].
        -- intros c'. rewrite elem_of_app, list_elem_of_singleton, g_list0. split.
           ++ intros [(q & ? & ?)| ->]; [exists q; rewrite lookup_insert_ne by congruence; done|]. exists pid. by rewrite lookup_insert_eq.
           ++ intros (q & [[<- <-]|[??]]%lookup_insert_Some & ?); eauto.
        -- apply NoDup_app. split_and!; [done| |apply NoDup_singleton]. intros x Hx ->%list_elem_of_singleton.
           apply g_list0 in Hx as (q & ? & _). congruence.
        -- intros c' q [[<- <-]|[??]]%lookup_insert_Some; [by left|]. by eapply g_sign0.
      * assert (0 < pid) as Hpp by (by apply Z.ltb_lt). specialize (Hp Hpp).
        split; [by eapply (counted_same s); try done; left|]. split; cbn; try done.
        -- intros p c'. split.
           ++ intros [[<- <-]|[? Hm]]%lookup_insert_Some; [by rewrite lookup_insert_eq|].
              apply g_map0 in Hm as [? ?]. rewrite lookup_insert_ne by congruence. done.
           ++ intros [[[<- <-]|[??]]%lookup_insert_Some ?]; [by rewrite lookup_insert_eq|].
              assert (waitpid_map s !! p = Some c') as Hm by (by apply g_map0). rewrite lookup_insert_ne; [done|congruence].
        -- intros c'. rewrite g_list0. split.
           ++ intros (q & ? & ?). exists q. rewrite lookup_insert_ne by congruence. done.
           ++ intros (q & [[<- <-]|[??]]%lookup_insert_Some & ?); [lia|eauto].
        -- intros c' q [[<- <-]|[??]]%lookup_insert_Some; [by right|]. by eapply g_sign0.
        -- intros p c' [[<- <-]|[??]]%lookup_insert_Some; [|by eapply g_kept_map0]. unfold kept in Ek.
           rewrite (proj2 (Z.ltb_ge _ _)) in Ek by lia. by destruct (child_processes s !! pid).
Qed.

Lemma fine_step s a : Fine s → ready a s = true → proper s a → ∃ s', perform a s = Some s' ∧ Fine s'.
Proof.
  intros Hf Hr Hp. pose proof Hf as [Hn Hg]. destruct a as [p|p st|c pid nohang pick|p|c]; cbn in Hr; cbn [perform].
  - eexists. split; [done|]. split; [|by apply (registered_same s)]. rewrite !andb_true_iff in Hr.
    destruct Hr as [[Hp0%Z.ltb_lt _] He%bool_decide_eq_true]. destruct Hn. split; cbn; try done.
    intros q [->%elem_of_singleton|Hq]%elem_of_union; [done|by apply n_children0].
  - apply bool_decide_eq_true in Hr. eexists. split; [done|]. split; [|by apply (registered_same s)]. destruct Hn.
    destruct (n_children0 p Hr) as [Hp0 He]. pose proof (n_once0 p Hp0) as Ho. rewrite He in Ho. cbn in Ho.
    split; cbn.
    + intros q Hq. specialize (n_once0 q Hq). unfold delivered in *. rewrite !there_insert. case_decide; subst; lia.
    + by apply insert_mono.
    + etrans; [done|]. by apply insert_subseteq.
    + intros c q st' Hin Hq. rewrite lookup_insert_ne; [by eapply n_results0|]. intros <-. specialize (n_results0 c p st' Hin Hq). congruence.
    + intros q. rewrite lookup_insert_is_Some'. intros [<-|]; [done|]. by apply n_exited0.
    + intros q [Hq Hne]%elem_of_difference. destruct (n_children0 q Hq). split; [done|]. rewrite lookup_insert_ne; [done|]. intros ->. apply Hne. by apply elem_of_singleton.
  - eexists. split; [done|]. by apply fine_wait.
  - apply bool_decide_eq_true in Hr as [st Hz]. destruct (handler_turn s p st Hf Hz) as (s' & ? & ? & _). eauto.
  - apply bool_decide_eq_true in Hr as [pid Hw].
    destruct (resumed c (-1, 0) s) as [s'|] eqn:E; [|unfold resumed in E; by rewrite Hw in E].
    destruct (registered_resumed s c (-1, 0) pid s') as (Hg' & Er & Ek & Ez & Ee & Ech); [done|done|cbn; lia|done|].
    exists s'. split; [done|]. split; [|done]. eapply (counted_same s); try done. right. eexists _, (-1, 0). split; [done|]. cbn. lia.
Qed.

Lemma reached_fine s : reached s → Fine s.
Proof.
  induction 1 as [|s a s' _ IH Hr Hp Hs]; [apply fine_initial|].
  destruct (fine_step s a IH Hr Hp) as (s1 & E & ?). rewrite E in Hs. by simplify_eq.
Qed.

(** Where at most one call waits for a given process, whatever the order of exits, calls,
    signals, time limits and cancellations: no step uses the task of a call that has returned;
    the status of every process that has exited is either still with the kernel, or kept, or
    was returned by exactly one call, and it is always the process's own; when the handler
    collects a process, the call that waits for it gets it, else the first call that waits for
    any; and no status is kept that a call waits for. *)
Theorem child_status_once s :
  reached s →
  (∀ a, ready a s = true → proper s a → is_Some (perform a s)) ∧
  (∀ p st, exited s !! p = Some st →
    (there (zombies s !! p) + there (child_processes s !! p) + delivered p (results s) = 1)%nat) ∧
  (∀ c p st, (c, (p, st)) ∈ results s → 0 < p → exited s !! p = Some st) ∧
  (∀ p st c, zombies s !! p = Some st → receiver p s = Some c →
    ∃ s', perform (Handler p) s = Some s' ∧ results s' = results s ++ [(c, (p, st))]) ∧
  (∀ c p, waiting s !! c = Some p → 0 < p → receiver p s = Some c ∧ child_processes s !! p = None) ∧
  (∀ c p, waiting s !! c = Some p → p < 0 → child_processes s = ∅).
Proof.
  intros Hre. pose proof (reached_fine s Hre) as Hf. pose proof Hf as [[] []]. split_and!.
  - intros a Ha Hp. destruct (fine_step s a Hf Ha Hp) as (s' & ? & _). eauto.
  - intros p st He. rewrite n_once0 by (apply n_exited0; eauto). by rewrite He.
  - done.
  - intros p st c Hz Hrc. destruct (handler_turn s p st Hf Hz) as (s' & ? & _ & Hx). rewrite Hrc in Hx. exists s'. by destruct Hx.
  - intros c p Hw Hp. assert (waitpid_map s !! p = Some c) as Hm by (by apply g_map0). unfold receiver. rewrite Hm. eauto.
  - intros c p Hw Hp. apply g_kept_list0. intros E. assert (c ∈ wait_list s) as Hin by (apply g_list0; eauto). rewrite E in Hin. by apply not_elem_of_nil in Hin.
Qed.
