(* ===== verification/CoSystem.v ===== *)
(** * Coroutines that wait for time, events and signals: coroutine/system.cc

    [System::usleep], [System::socket_poll], [System::wait_event] and [System::wait_signal]
    suspend a coroutine until a timer, an event of the loop or a signal resumes it.  What they
    wait with (a task, a waiter, a flag) is reached from timers, sockets and deferred callbacks;
    the task and the waiter live on the stack of the coroutine, so whatever still points to them
    when the call has returned is a fault.

    Each call is modelled from its suspension to its return together with all that can resume
    it: a step is a handler of the event loop, a timer, a deferred callback or a cancellation. *)

From S2P Require Import Prelude.

Definition OSW_EVENT_READ : Z := 512.
Definition OSW_EVENT_WRITE : Z := 1024.
Definition OSW_EVENT_ERROR : Z := 2048.
Definition POLLIN : Z := 1.
Definition POLLOUT : Z := 4.
Definition POLLERR : Z := 8.
Definition POLLHUP : Z := 16.
Definition ETIMEDOUT : Z := 110.
Definition OSW_ERROR_CO_CANCELED : Z := 10017.

Definition has (events e : Z) : bool := negb (Z.land events e =? 0).

Definition translate_events_to_poll (events : Z) : Z :=
  let p := if has events OSW_EVENT_READ then Z.lor 0 POLLIN else 0 in
  if has events OSW_EVENT_WRITE then Z.lor p POLLOUT else p.

Definition translate_events_from_poll (events : Z) : Z :=
  let e := if has events POLLIN then Z.lor 0 OSW_EVENT_READ else 0 in
  let e := if has events POLLOUT then Z.lor e OSW_EVENT_WRITE else e in
  if (has events POLLERR || has events POLLHUP) && negb (has events POLLIN || has events POLLOUT)
  then Z.lor e OSW_EVENT_ERROR else e.

(** ** System::socket_poll *)
Module Poll.

(** The temporary socket of a descriptor: none, one that is in the loop, or a pointer to one that
    was freed. *)
Inductive Sock := NoSocket | Added | Freed.
Record PollSocket := MkPollSocket { events : Z; revents : Z; socket : Sock }.
Definition set_revents (p : PollSocket) (r : Z) : PollSocket := MkPollSocket (events p) r (socket p).
Definition set_socket (p : PollSocket) (k : Sock) : PollSocket := MkPollSocket (events p) (revents p) k.

(** The task with its timer; [deferred] counts the callbacks [socket_poll_completed] that are
    to run, [returned] is what the call returned. *)
Record CoroPollTask := MkTask {
  fds : list (Z * PollSocket); timer : bool; success : bool; wait : bool; deferred : nat; returned : option bool }.

(** The registration of the descriptors; [adds]: which the event loop accepts. *)
Fixpoint add_all (adds : list bool) (l : list (Z * PollSocket)) : list (Z * PollSocket) :=
  match adds, l with
  | ok :: adds, (fd, p) :: l => (fd, set_socket p (if ok : bool then Added else Freed)) :: add_all adds l
  | _, _ => l
  end.

Definition is_added (p : PollSocket) : bool := match socket p with Added => true | _ => false end.
Definition tasked_num (l : list (Z * PollSocket)) : nat := length (filter (λ x, is_added x.2 = true) l).

(** The call up to its suspension, with [timeout] other than 0. *)
Definition socket_poll (adds : list bool) (timeout : Z) (l : list (Z * PollSocket)) : CoroPollTask :=
  let l := add_all adds l in
  if bool_decide (tasked_num l = 0%nat) then MkTask l false false true 0 (Some false)
  else MkTask l (0 <? timeout) false true 0 None.

(** The call with [timeout] 0: the kernel's answer, [ready] the events it reports. *)
Definition socket_poll_now (retval : Z) (ready : list Z) (l : list (Z * PollSocket)) : list (Z * PollSocket) * bool :=
  (if 0 <? retval then zip_with (λ x r, (x.1, set_revents x.2 (translate_events_from_poll r))) l ready else l, 0 <? retval).

Fixpoint socket_poll_clean (l : list (Z * PollSocket)) : option (list (Z * PollSocket)) :=
  match l with
  | [] => Some []
  | (fd, p) :: l =>
    match socket p with
    | Freed => None
    | _ => l ← socket_poll_clean l; Some ((fd, set_socket p NoSocket) :: l)
    end
  end.

(** [co->resume()]: the call returns [task.success]; a second time is a fault. *)
Definition poll_resume (t : CoroPollTask) : option CoroPollTask :=
  match returned t with
  | None => Some (MkTask (fds t) (timer t) (success t) (wait t) (deferred t) (Some (success t)))
  | Some _ => None
  end.

Definition socket_poll_timeout (t : CoroPollTask) : option CoroPollTask :=
  l ← socket_poll_clean (fds t);
  poll_resume (MkTask l false false false (deferred t) (returned t)).

Definition socket_poll_completed (t : CoroPollTask) : option CoroPollTask :=
  l ← socket_poll_clean (fds t);
  poll_resume (MkTask l (timer t) (success t) (wait t) (deferred t - 1) (returned t)).

(** What [event] adds to the events of a descriptor. *)
Definition reported (p : PollSocket) (event : Z) : Z :=
  if (event =? OSW_EVENT_ERROR) && negb (has (events p) OSW_EVENT_ERROR) then
    let r := if has (events p) OSW_EVENT_READ then Z.lor (revents p) OSW_EVENT_READ else revents p in
    if has (events p) OSW_EVENT_WRITE then Z.lor r OSW_EVENT_WRITE else r
  else Z.lor (revents p) event.

Definition socket_poll_trigger_event (fd event : Z) (t : CoroPollTask) : option CoroPollTask :=
  if bool_decide (returned t = None) then
    let l := (λ x : Z * PollSocket, if x.1 =? fd then (x.1, set_revents x.2 (reported x.2 event)) else x) <$> fds t in
    if wait t then Some (MkTask l false true false (S (deferred t)) (returned t))
    else Some (MkTask l (timer t) (success t) (wait t) (deferred t) (returned t))
  else None.

Inductive Action := Event (fd event : Z) | TimerFires | Deferred.

Definition perform (a : Action) (t : CoroPollTask) : option CoroPollTask :=
  match a with
  | Event fd event => socket_poll_trigger_event fd event t
  | TimerFires => socket_poll_timeout t
  | Deferred => socket_poll_completed t
  end.

(** The loop reports events of added sockets, fires timers that are set and runs what is deferred. *)
Definition ready (a : Action) (t : CoroPollTask) : bool :=
  match a with
  | Event fd _ => existsb (λ x, (x.1 =? fd) && is_added x.2) (fds t)
  | TimerFires => timer t
  | Deferred => (0 <? deferred t)%nat
  end.

Inductive reached (t0 : CoroPollTask) : CoroPollTask → Prop :=
  | reached_start : reached t0 t0
  | reached_step t a t' : reached t0 t → ready a t = true → perform a t = Some t' → reached t0 t'.

Definition sound (l : list (Z * PollSocket)) : Prop := Forall (λ x, socket x.2 ≠ Freed) l.
Definition cleaned (l : list (Z * PollSocket)) : Prop := Forall (λ x, socket x.2 = NoSocket) l.

(** Where the call is: waiting; completed and about to be resumed; returned. *)
Definition phase (t : CoroPollTask) : Prop :=
  match returned t with
  | None => sound (fds t) ∧ if wait t then success t = false ∧ deferred t = 0%nat else success t = true ∧ deferred t = 1%nat ∧ timer t = false
  | Some b => b = success t ∧ cleaned (fds t) ∧ timer t = false ∧ deferred t = 0%nat
  end.

Lemma clean_sound l : sound l → ∃ l', socket_poll_clean l = Some l' ∧ cleaned l' ∧ (λ x, (x.1, revents x.2)) <$> l' = (λ x, (x.1, revents x.2)) <$> l.
Proof.
  induction l as [|[fd p] l IH]; [eexists; split; [done|]; split; [constructor|done]|]. intros [Hp Hl]%Forall_cons. cbn in *.
  destruct (IH Hl) as (l' & -> & Hc & E). destruct (socket p); try done; eexists; (split; [done|]); (split; [by constructor|]); cbn; by rewrite E.
Qed.

Lemma add_all_sound l : sound (add_all (replicate (length l) true) l).
Proof. induction l as [|[fd p] l IH]; constructor; done. Qed.

(** The timer of a waiting call returns false; an event stops it. *)
Lemma poll_phase_step t a : phase t → ready a t = true → ∃ t', perform a t = Some t' ∧ phase t'.
Proof.
  unfold phase. intros Hp Hr. destruct (returned t) as [b|] eqn:Er.
  - destruct Hp as (Hb & Hc & Ht & Hd). exfalso. destruct a as [fd ev| |]; cbn in Hr.
    + apply existsb_exists in Hr as ([fd' p] & Hin%list_elem_of_In & Hx). unfold cleaned in Hc. rewrite Forall_forall in Hc. specialize (Hc _ Hin). cbn in *.
      unfold is_added in Hx. rewrite Hc in Hx. by destruct (fd' =? fd).
    + congruence.
    + by rewrite Hd in Hr.
  - destruct Hp as [Hs Hw]. destruct (clean_sound _ Hs) as (l' & Hcl & Hc & _). destruct a as [fd ev| |]; cbn in *.
    + unfold socket_poll_trigger_event. rewrite Er, bool_decide_true by done.
      set (l1 := _ <$> fds t). assert (sound l1) as Hs1.
      { unfold sound, l1. apply Forall_fmap. eapply Forall_impl; [exact Hs|]. intros x. cbn. by destruct (x.1 =? fd). }
      destruct (wait t); eexists; (split; [done|]); cbn; [|tauto]. destruct Hw as [_ ->]. auto.
    + unfold socket_poll_timeout. rewrite Hcl. cbn. unfold poll_resume. cbn. rewrite Er. eexists. split; [done|]. cbn.
      destruct (wait t); [|destruct Hw as (_ & _ & ?); congruence]. destruct Hw as [_ ->]. auto.
    + unfold socket_poll_completed. rewrite Hcl. cbn. unfold poll_resume. cbn. rewrite Er. eexists. split; [done|]. cbn.
      destruct (wait t); destruct Hw as (? & Hd); [by rewrite Hd in Hr|]. destruct Hd as [-> ?]. auto.
Qed.

(** A poll that could add all its descriptors, whatever events, timers and deferred callbacks
    come in whatever order: no step touches a freed socket or the task of a call that has
    returned, the call returns at most once, with success exactly when an event came before
    its time, and when it has returned nothing that could resume it is left. *)
Theorem socket_poll_returns_once l timeout t :
  l ≠ [] → reached (socket_poll (replicate (length l) true) timeout l) t →
  (∀ a, ready a t = true → is_Some (perform a t)) ∧
  match returned t with
  | None => True
  | Some b => b = success t ∧ ∀ a, ready a t = false
  end.
Proof.
  intros Hl Hre. assert (phase t) as Hp.
  { induction Hre as [|t a t' _ IH Hr Hs]; [|by destruct (poll_phase_step t a IH Hr) as (t1 & E & ?); rewrite E in Hs; simplify_eq].
    unfold socket_poll, phase. rewrite bool_decide_false; [cbn; split; [apply add_all_sound|done]|].
    destruct l as [|[fd p] l]; [done|]. unfold tasked_num. cbn. by rewrite decide_True. }
  split; [intros a Ha; destruct (poll_phase_step t a Hp Ha) as (t' & ? & _); eauto|].
  destruct (returned t) as [b|] eqn:Er; [|done]. pose proof Hp as Hp'. unfold phase in Hp'. rewrite Er in Hp'. split; [tauto|].
  destruct Hp' as (_ & Hc & Ht & Hd). intros [fd ev| |]; cbn; [|done|by rewrite Hd].
  apply not_true_iff_false. intros ([fd' p] & Hin%list_elem_of_In & Hx)%existsb_exists. unfold cleaned in Hc. rewrite Forall_forall in Hc.
  specialize (Hc _ Hin). cbn in *. unfold is_added in Hx. rewrite Hc in Hx. by destruct (fd' =? fd).
Qed.

(** A descriptor that the loop refuses leaves a pointer to its freed socket, which the end of
    the poll uses. *)
Example refused_descriptor_dangles :
  let t := socket_poll [true; false] (-1) [(3, MkPollSocket 512 0 NoSocket); (4, MkPollSocket 512 0 NoSocket)] in
  (t ← perform (Event 3 OSW_EVENT_READ) t; Some (ready Deferred t, perform Deferred t)) = Some (true, None).
Proof. vm_compute. done. Qed.
End Poll.

(** ** System::wait_event *)
Module WaitEvent.

(** The pointer to the timer: null, an armed timer, or a timer that was deleted. *)
Inductive TimerPtr := NoTimer | Armed | Deleted.

(** [openswoole_timer_del] reads its argument. *)
Definition timer_del (t : TimerPtr) : option TimerPtr := match t with Deleted => None | NoTimer => Some NoTimer | Armed => Some Deleted end.

(** The waiter on the stack of the call; [deferred] counts the deferred callbacks that resume
    it, [result] is what the call returned. *)
Record EventWaiter := MkWaiter {
  events : Z; revents : Z; error_ : Z; timer : TimerPtr; deferred : nat; result : option Z }.

Definition OSW_ERR : Z := -1.

(** The rest of the call when its coroutine is resumed. *)
Definition finish (events revents error_ : Z) : Z :=
  if negb (error_ =? 0) then OSW_ERR
  else if has revents OSW_EVENT_ERROR then
    let r := Z.lxor revents OSW_EVENT_ERROR in
    let r := if has events OSW_EVENT_READ then Z.lor r OSW_EVENT_READ else r in
    if has events OSW_EVENT_WRITE then Z.lor r OSW_EVENT_WRITE else r
  else revents.

Definition waiter_resume (w : EventWaiter) : option EventWaiter :=
  match result w with
  | None => t ← timer_del (timer w); Some (MkWaiter (events w) (revents w) (error_ w) t (deferred w) (Some (finish (events w) (revents w) (error_ w))))
  | Some _ => None
  end.

(** [wait_event] with a timeout other than 0 whose event the loop accepts. *)
Definition wait_event (ev timeout : Z) : option EventWaiter :=
  let ev := Z.land ev (Z.lor OSW_EVENT_READ OSW_EVENT_WRITE) in
  if ev =? 0 then None else Some (MkWaiter ev 0 0 (if 0 <? timeout then Armed else NoTimer) 0 None).

(** [wait_event] with a timeout of 0, given the kernel's answer. *)
Definition wait_event_now (retval revents : Z) : Z := if retval =? 1 then translate_events_from_poll revents else 0.

Inductive Action := Event (event : Z) | TimerFires | Cancel | Deferred.

Definition event_waiter_callback (event : Z) (w : EventWaiter) : option EventWaiter :=
  match result w with
  | None =>
    let d := if revents w =? 0 then S (deferred w) else deferred w in
    Some (MkWaiter (events w) (Z.lor (revents w) event) (error_ w) (timer w) d None)
  | Some _ => None
  end.

Definition waiter_perform (a : Action) (w : EventWaiter) : option EventWaiter :=
  match a with
  | Event event => event_waiter_callback event w
  | TimerFires => waiter_resume (MkWaiter (events w) (revents w) ETIMEDOUT NoTimer (deferred w) (result w))
  | Cancel => t ← timer_del (timer w); waiter_resume (MkWaiter (events w) (revents w) OSW_ERROR_CO_CANCELED t (deferred w) (result w))
  | Deferred => waiter_resume (MkWaiter (events w) (revents w) (error_ w) (timer w) (deferred w - 1) (result w))
  end.

(** The socket is in the loop and the coroutine can be cancelled until the call returns. *)
Definition ready (a : Action) (w : EventWaiter) : bool :=
  match a with
  | Event event => bool_decide (result w = None) && existsb (Z.eqb event) [OSW_EVENT_READ; OSW_EVENT_WRITE; OSW_EVENT_ERROR]
  | TimerFires => match timer w with Armed => true | _ => false end
  | Cancel => bool_decide (result w = None)
  | Deferred => (0 <? deferred w)%nat
  end.

Fixpoint run (l : list Action) (w : EventWaiter) : option EventWaiter :=
  match l with
  | [] => Some w
  | a :: l => if ready a w then w ← waiter_perform a w; run l w else None
  end.

(** An event defers the resumption, and the timers of the same round run before the deferred
    callbacks: a time limit that is reached in the round of the event ends the call, and the
    deferred callback then uses the waiter of a call that has returned. *)
Example event_then_timeout_dangles :
  (w ← wait_event OSW_EVENT_READ 1000; w ← run [Event OSW_EVENT_READ; TimerFires] w;
   Some (result w, ready Deferred w, waiter_perform Deferred w)) = Some (Some OSW_ERR, true, None).
Proof. vm_compute. done. Qed.

(** The cancellation deletes the timer and keeps the pointer to it, which the resumed call
    gives to [openswoole_timer_del] once more. *)
Example cancel_deletes_timer_twice :
  (w ← wait_event OSW_EVENT_READ 1000; Some (ready Cancel w, waiter_perform Cancel w)) = Some (true, None).
Proof. vm_compute. done. Qed.

(** Steps that the code handles: no timer and no cancellation between an event and its deferred
    callback, no cancellation of a call with a time limit. *)
Definition handled (w : EventWaiter) (a : Action) : Prop :=
  match a with TimerFires => revents w = 0 | Cancel => revents w = 0 ∧ timer w = NoTimer | _ => True end.

Inductive reached (w0 : EventWaiter) : EventWaiter → Prop :=
  | reached_start : reached w0 w0
  | reached_step w a w' :
      reached w0 w → ready a w = true → handled w a → waiter_perform a w = Some w' → reached w0 w'.

Lemma lor_zero a b : 0 <= a → 0 <= b → Z.lor a b = 0 → b = 0.
Proof. intros Ha Hb E. by apply Z.lor_eq_0_iff in E as [_ ?]. Qed.

Definition phase (w : EventWaiter) : Prop :=
  match result w with
  | None => error_ w = 0 ∧ 0 <= revents w ∧ deferred w = (if revents w =? 0 then 0%nat else 1%nat) ∧ timer w ≠ Deleted
  | Some r => r = finish (events w) (revents w) (error_ w) ∧ timer w ≠ Armed ∧ deferred w = 0%nat
  end.

Lemma waiter_resume_spec w :
  result w = None → timer w ≠ Deleted →
  ∃ t, t ≠ Armed ∧ waiter_resume w = Some (MkWaiter (events w) (revents w) (error_ w) t (deferred w) (Some (finish (events w) (revents w) (error_ w)))).
Proof. intros Er Ht. unfold waiter_resume. rewrite Er. destruct (timer w); [by exists NoTimer|by exists Deleted|done]. Qed.

Lemma waiter_phase_step w a : phase w → ready a w = true → handled w a → ∃ w', waiter_perform a w = Some w' ∧ phase w'.
Proof.
  unfold phase. intros Hp Hr Ha. destruct (result w) as [r|] eqn:Er.
  - exfalso. destruct Hp as (_ & Ht & Hd). destruct a; cbn in Hr; rewrite ?Er in Hr; try done; [by destruct (timer w)|by rewrite Hd in Hr].
  - destruct Hp as (He & Hn & Hd & Ht). destruct a as [ev| | |]; cbn in *.
    + unfold event_waiter_callback. rewrite Er. eexists. split; [done|]. cbn. apply andb_true_iff in Hr as [_ Hev].
      assert (0 < ev) as Hpos.
      { unfold OSW_EVENT_READ, OSW_EVENT_WRITE, OSW_EVENT_ERROR in Hev. destruct (Z.eqb_spec ev 512), (Z.eqb_spec ev 1024), (Z.eqb_spec ev 2048); (lia || done). }
      split_and!; [done|apply Z.lor_nonneg; lia| |done]. rewrite (proj2 (Z.eqb_neq (Z.lor _ _) 0)); [|intros E; apply lor_zero in E; lia].
      rewrite Hd. by destruct (revents w =? 0).
    + destruct (waiter_resume_spec (MkWaiter (events w) (revents w) ETIMEDOUT NoTimer (deferred w) (result w))) as (t & Hta & E); [done..|].
      cbn in E. rewrite E. eexists. split; [done|]. cbn. split_and!; try done. by rewrite Hd, Ha.
    + destruct Ha as [Ha Hnt]. rewrite Hnt. cbn.
      destruct (waiter_resume_spec (MkWaiter (events w) (revents w) OSW_ERROR_CO_CANCELED NoTimer (deferred w) (result w))) as (t & Hta & E); [done..|].
      cbn in E. rewrite E. eexists. split; [done|]. cbn. split_and!; try done. by rewrite Hd, Ha.
    + destruct (waiter_resume_spec (MkWaiter (events w) (revents w) (error_ w) (timer w) (deferred w - 1) (result w))) as (t & Hta & E); [done..|].
      cbn in E. rewrite E. eexists. split; [done|]. cbn. split_and!; try done. rewrite Hd. by destruct (revents w =? 0).
Qed.

(** As long as only steps come that the code handles: no step uses the waiter of a call that has returned, the call returns at most once,
    with the events that came or the error, and nothing that could resume it is left. *)
Theorem wait_event_returns_once ev timeout w0 w :
  wait_event ev timeout = Some w0 → reached w0 w →
  (∀ a, ready a w = true → handled w a → is_Some (waiter_perform a w)) ∧
  match result w with
  | None => True
  | Some r => r = finish (events w) (revents w) (error_ w) ∧ ∀ a, ready a w = false
  end.
Proof.
  intros H0 Hre. assert (phase w) as Hp.
  { induction Hre as [|w a w' _ IH Hr Ha Hs]; [|by destruct (waiter_phase_step w a IH Hr Ha) as (w1 & E & ?); rewrite E in Hs; simplify_eq].
    unfold wait_event in H0. cbv zeta in H0. destruct (_ =? 0); [done|]. injection H0 as <-. unfold phase. cbn. split_and!; try done. by destruct (0 <? timeout). }
  split; [intros a Ha Hc; destruct (waiter_phase_step w a Hp Ha Hc) as (w' & ? & _); eauto|].
  destruct (result w) as [r|] eqn:Er; [|done]. unfold phase in Hp. rewrite Er in Hp. split; [tauto|].
  destruct Hp as (_ & Ht & Hd). intros []; cbn; rewrite ?Er; try done; [by destruct (timer w)|by rewrite Hd].
Qed.
End WaitEvent.

(** ** System::usleep *)
Module Sleep.

(** [canceled]: the flag in the heap, shared with the callback; the callback is a timer or, for less
    than a millisecond, deferred. *)
Record SleepCall := MkSleep { canceled : option bool; timer : bool; deferred : bool; result : option Z }.

Definition OSW_TIMER_MIN_MICRO_SEC : Z := 1000.

(** The call up to its suspension, or -1 if there is no timer. *)
Definition usleep (microseconds : Z) (timer_ok : bool) : SleepCall :=
  if microseconds <? OSW_TIMER_MIN_MICRO_SEC then MkSleep (Some false) false true None
  else if timer_ok then MkSleep (Some false) true false None
  else MkSleep None false false (Some (-1)).

(** [co->resume()] and the rest of the call; [c]: the coroutine is cancelled. *)
Definition sleep_resume (c : bool) (s : SleepCall) : option SleepCall :=
  match result s with
  | None => Some (MkSleep (canceled s) (timer s) (deferred s) (Some (if c then -1 else 0)))
  | Some _ => None
  end.

Definition sleep_callback (s : SleepCall) : option SleepCall :=
  c ← canceled s;
  let s := MkSleep None (timer s) (deferred s) (result s) in
  if c : bool then Some s else sleep_resume false s.

Inductive Action := TimerFires | Deferred | Cancel.

Definition sleep_perform (a : Action) (s : SleepCall) : option SleepCall :=
  match a with
  | TimerFires => sleep_callback (MkSleep (canceled s) false (deferred s) (result s))
  | Deferred => sleep_callback (MkSleep (canceled s) (timer s) false (result s))
  | Cancel => _ ← canceled s; sleep_resume true (MkSleep (Some true) false (deferred s) (result s))
  end.

Definition ready (a : Action) (s : SleepCall) : bool :=
  match a with
  | TimerFires => timer s
  | Deferred => deferred s
  | Cancel => bool_decide (result s = None)
  end.

Inductive reached (s0 : SleepCall) : SleepCall → Prop :=
  | reached_start : reached s0 s0
  | reached_step s a s' : reached s0 s → ready a s = true → sleep_perform a s = Some s' → reached s0 s'.

(** What can still come: a sleeping call has its flag and one callback. *)
Definition phase (s : SleepCall) : Prop :=
  match result s with
  | None => canceled s = Some false ∧ timer s = negb (deferred s)
  | Some _ => timer s = false ∧ (deferred s = true → canceled s = Some true)
  end.

(** A sleep returns once, by its callback or its cancellation, and the flag is there whenever a
    callback reads it. *)
Theorem sleep_returns_once microseconds timer_ok s :
  reached (usleep microseconds timer_ok) s → (∀ a, ready a s = true → is_Some (sleep_perform a s)) ∧ (result s = None → canceled s = Some false).
Proof.
  assert (∀ s a, phase s → ready a s = true → ∃ s', sleep_perform a s = Some s' ∧ phase s') as Hstep.
  { intros [cn tm df rs] a. unfold phase. cbn. destruct rs as [r|].
    - intros [-> Hc] Hr. destruct a; cbn in Hr; try done. subst. rewrite Hc by done. cbn. by eexists.
    - intros [-> ->] Hr. destruct a, df; cbn in Hr; try done; cbn; by eexists. }
  intros Hre. assert (phase s) as Hp.
  { induction Hre as [|s a s' _ IH Hr Hs]; [|destruct (Hstep s a IH Hr) as (s1 & E & ?); rewrite E in Hs; by simplify_eq].
    unfold usleep. by destruct (_ <? _), timer_ok. }
  split; [intros a Ha; destruct (Hstep s a Hp Ha) as (s' & ? & _); eauto|]. intros Er. unfold phase in Hp. rewrite Er in Hp. tauto.
Qed.

(** A sleep with a timer that is cancelled never frees its flag. *)
Example cancelled_sleep_leaks :
  (s ← sleep_perform Cancel (usleep 5000 true); Some (canceled s, ready TimerFires s, ready Deferred s)) = Some (Some true, false, false).
Proof. vm_compute. done. Qed.
End Sleep.

(** ** System::wait_signal *)
Module Signal.

(** [handlers]: the signals with a handler of [openswoole_signal_set]; [waiting]: the suspended
    coroutines with their signals; [results]: whether the calls succeeded. *)
Record SignalState := MkState {
  listeners : gmap Z nat; handlers : gset Z; co_signal_listener_num : Z; waiting : gmap nat Z; results : list (nat * bool) }.

Definition OSW_SIGNO_MAX : Z := 128.
Definition SIGCHLD : Z := 17.

(** [busy]: the process has other listeners of signals. *)
Definition wait_signal (busy : bool) (c : nat) (signo : Z) (s : SignalState) : SignalState :=
  if busy || ((signo <? 0) || (OSW_SIGNO_MAX <=? signo) || (signo =? SIGCHLD))
  then MkState (listeners s) (handlers s) (co_signal_listener_num s) (waiting s) (results s ++ [(c, false)])
  else MkState (<[signo := c]> (listeners s)) ({[signo]} ∪ handlers s) (co_signal_listener_num s + 1) (<[c := signo]> (waiting s)) (results s).

(** The rest of the call. *)
Definition signal_resumed (canceled : bool) (c : nat) (s : SignalState) : option SignalState :=
  signo ← waiting s !! c;
  let l := listeners s in
  let r := match l !! signo with Some _ => false | None => negb canceled end in
  Some (MkState (delete signo l) (handlers s ∖ {[signo]}) (co_signal_listener_num s - 1) (delete c (waiting s)) (results s ++ [(c, r)])).

(** The handler of a signal that has one. *)
Definition on_signal (signo : Z) (s : SignalState) : option SignalState :=
  if bool_decide (signo ∈ handlers s) then
    match listeners s !! signo with
    | Some c => signal_resumed false c (MkState (delete signo (listeners s)) (handlers s) (co_signal_listener_num s) (waiting s) (results s))
    | None => Some s
    end
  else Some s.

Definition initial : SignalState := MkState ∅ ∅ 0 ∅ [].

(** One coroutine per signal: the signal returns the call that waits for it. *)
Theorem signal_returns_call c signo s :
  waiting s !! c = Some signo → listeners s !! signo = Some c → signo ∈ handlers s →
  ∃ s', on_signal signo s = Some s' ∧ results s' = results s ++ [(c, true)] ∧ waiting s' !! c = None ∧ listeners s' !! signo = None.
Proof.
  intros Hw Hl Hh. unfold on_signal, signal_resumed. rewrite bool_decide_true, Hl by done. cbn. rewrite Hw. cbn.
  rewrite lookup_delete_eq. eexists. split; [done|]. cbn. by rewrite !lookup_delete_eq.
Qed.

(** A second coroutine that waits for the same signal hides the first, and its return removes the
    handler. *)
Example second_listener_hides_first :
  let s := wait_signal false 2 10 (wait_signal false 1 10 initial) in
  (s ← on_signal 10 s; s ← on_signal 10 s; Some (results s, map_to_list (waiting s), co_signal_listener_num s))
  = Some ([(2%nat, true)], [(1%nat, 10)], 1).
Proof. vm_compute. done. Qed.
End Signal.
