(* ===== verification/Client.v ===== *)
(** * The event-driven TCP client: network/client.cc

    A client connects without blocking and reports what happens through callbacks: [onConnect],
    [onError], [onReceive], [onClose], and [onBufferFull] and [onBufferEmpty] for its output.  The
    handlers of the event loop, a timer and the resolution of the host name drive it; every
    callback may close the client.

    The model is the client without TLS and without a proxy (their handshakes are in [Proxy]).
    What the system answers, and whether a callback closes the client, is part of a step; the
    callbacks are logged in order.  All six callbacks are set.  The results of the handlers, the
    last error and the descriptor of the socket are left out.  The framing of received packages is in [Protocol]: a read hands
    over the packages that it yields and its result. *)

From S2P Require Import Prelude NetSocket.

Definition OSW_EVENT_READ : Z := 512.
Definition OSW_EVENT_WRITE : Z := 1024.
Definition SHUT_RD : Z := 0.
Definition SHUT_WR : Z := 1.
Definition SHUT_RDWR : Z := 2.

Inductive Callback := onConnect | onError | onReceive (data : bytes) | onClose | onBufferFull | onBufferEmpty.

(** [events]: what the socket is registered for in the event loop, [None] when it is not;
    [out_buffer]: the number of bytes that wait for output, [None] before the first. *)
Record Client := MkClient {
  active : bool; closed : bool; events : option Z; timer : bool; wait_dns : bool; remove_delay : bool; sleep_ : bool;
  high_watermark : bool; out_buffer : option Z; buffer_high_watermark : Z; buffer_low_watermark : Z; log : list Callback }.

Definition set_active (c : Client) (b : bool) : Client :=
  MkClient b (closed c) (events c) (timer c) (wait_dns c) (remove_delay c) (sleep_ c) (high_watermark c) (out_buffer c) (buffer_high_watermark c) (buffer_low_watermark c) (log c).
Definition set_events (c : Client) (e : option Z) : Client :=
  MkClient (active c) (closed c) e (timer c) (wait_dns c) (remove_delay c) (sleep_ c) (high_watermark c) (out_buffer c) (buffer_high_watermark c) (buffer_low_watermark c) (log c).
Definition set_timer (c : Client) (b : bool) : Client :=
  MkClient (active c) (closed c) (events c) b (wait_dns c) (remove_delay c) (sleep_ c) (high_watermark c) (out_buffer c) (buffer_high_watermark c) (buffer_low_watermark c) (log c).
Definition set_dns (c : Client) (b : bool) : Client :=
  MkClient (active c) (closed c) (events c) (timer c) b (remove_delay c) (sleep_ c) (high_watermark c) (out_buffer c) (buffer_high_watermark c) (buffer_low_watermark c) (log c).
Definition set_sleep (c : Client) (d b : bool) : Client :=
  MkClient (active c) (closed c) (events c) (timer c) (wait_dns c) d b (high_watermark c) (out_buffer c) (buffer_high_watermark c) (buffer_low_watermark c) (log c).
Definition set_output (c : Client) (h : bool) (n : option Z) : Client :=
  MkClient (active c) (closed c) (events c) (timer c) (wait_dns c) (remove_delay c) (sleep_ c) h n (buffer_high_watermark c) (buffer_low_watermark c) (log c).
Definition note (c : Client) (e : Callback) : Client :=
  MkClient (active c) (closed c) (events c) (timer c) (wait_dns c) (remove_delay c) (sleep_ c) (high_watermark c) (out_buffer c) (buffer_high_watermark c) (buffer_low_watermark c) (log c ++ [e]).
Definition mark_closed (c : Client) : Client :=
  MkClient (active c) true (events c) (timer c) (wait_dns c) (remove_delay c) (sleep_ c) (high_watermark c) (out_buffer c) (buffer_high_watermark c) (buffer_low_watermark c) (log c).

(** [Client::close]: out of the event loop, the timer, and [onClose] of a connected client. *)
Definition close (c : Client) : Client :=
  if closed c then c
  else
    let c := set_timer (set_events (mark_closed c) None) false in
    if active c then note (set_active c false) onClose else c.

(** A callback that closes the client if [x]. *)
Definition call (e : Callback) (x : bool) (c : Client) : Client := let c := note c e in if x then close c else c.

Definition execute_onConnect (x : bool) (c : Client) : Client := call onConnect x (set_timer c false).

(** Whether the socket is registered for the event. *)
Definition listens (c : Client) (e : Z) : bool := match events c with Some ev => negb (Z.land ev e =? 0) | None => false end.

(** [Client::sleep] and [Client::wakeup]; [ok]: the event loop accepts the change. *)
Definition sleep (ok : bool) (c : Client) : Z * Client :=
  if negb ok then (-1, c)
  else
    let write := listens c OSW_EVENT_WRITE in
    (0, set_sleep (set_events c (if write then Some OSW_EVENT_WRITE else None)) (remove_delay c) true).

Definition wakeup (ok : bool) (c : Client) : Z * Client :=
  if negb ok then (-1, c)
  else
    let write := listens c OSW_EVENT_WRITE in
    (0, set_sleep (set_events c (Some (if write then Z.lor OSW_EVENT_READ OSW_EVENT_WRITE else OSW_EVENT_READ))) (remove_delay c) false).

(** The answer of [connect] after the retries on EINTR; [NotAdded]: the connection is under way, but
    the event loop does not take the socket. *)
Inductive ConnectAnswer := Connecting | NotAdded | Refused.

(** [Client_tcp_connect_async] behind the resolution of the name; the socket of a closed client is
    not valid any more.  [limit]: there is a time limit. *)
Definition start_connect (a : ConnectAnswer) (limit x : bool) (c : Client) : Client :=
  match a, closed c with
  | Connecting, false => set_timer (set_events c (Some OSW_EVENT_WRITE)) limit
  | NotAdded, false => c
  | _, _ => call onError x (close (set_events (set_active c false) None))
  end.

(** The name of the host: an address, a name whose resolution was handed to the thread pool, or
    neither, which ends the connect without a callback. *)
Inductive NameAnswer := IsAddress | Lookup | NoName.

(** [Client_tcp_connect_async] *)
Definition connect_async (name : NameAnswer) (a : ConnectAnswer) (limit x : bool) (c : Client) : Client :=
  match name with
  | IsAddress => start_connect a limit x c
  | Lookup => set_dns c true
  | NoName => c
  end.

(** [Client_onResolveCompleted]; [ok]: the name was resolved. *)
Definition onResolveCompleted (ok : bool) (a : ConnectAnswer) (limit x : bool) (c : Client) : Client :=
  let c := set_dns c false in
  if ok then start_connect a limit x c
  else call onError x (close (set_events c None)).

(** [Reactor::remove_write_event] and [Reactor::add_write_event] *)
Definition remove_write_event (c : Client) : Client :=
  match events c with
  | Some e => if Z.land e OSW_EVENT_READ =? 0 then set_events c None else set_events c (Some (Z.ldiff e OSW_EVENT_WRITE))
  | None => c
  end.

Definition add_write_event (c : Client) : Client :=
  match events c with
  | Some e => if Z.land e OSW_EVENT_READ =? 0 then set_events c (Some OSW_EVENT_WRITE) else set_events c (Some (Z.lor e OSW_EVENT_WRITE))
  | None => set_events c (Some OSW_EVENT_WRITE)
  end.

Definition buffered (c : Client) : Z := default 0 (out_buffer c).

(** [Reactor::_writable_callback]: the socket takes [Some n] bytes of the output, or, with [None],
    a send fails because the connection is broken, which goes to the default error handler of the
    event loop.  Only the loops of a server set one: elsewhere the call of the null pointer ends
    the process, the result [None]. *)
Definition writable_callback (n : option Z) (c : Client) : option Client :=
  if buffered c =? 0 then Some (remove_write_event c)
  else
    match n with
    | None => None
    | Some n =>
      let rest := Z.max 0 (buffered c - n) in
      let c := set_output c (high_watermark c) (Some rest) in
      Some (if rest =? 0 then remove_write_event c else c)
    end.

(** [Client_onWrite]; [err]: the error of the socket, [None] when it cannot be asked. *)
Definition onWrite (err n : option Z) (x : bool) (c : Client) : option Client :=
  if active c then
    match writable_callback n c with
    | None => None
    | Some c => Some (if high_watermark c && (buffered c <=? buffer_low_watermark c) then call onBufferEmpty x (set_output c false (out_buffer c)) else c)
    end
  else
    match err with
    | None => Some c
    | Some err =>
      Some (if err =? 0 then execute_onConnect x (set_active (set_events c (Some OSW_EVENT_READ)) true)
            else call onError x (close (set_active c false)))
    end.

(** [Client_onError] *)
Definition onError_event (err n : option Z) (x : bool) (c : Client) : option Client :=
  if active c then Some (close c) else onWrite err n x c.

(** [Client_onTimeout] *)
Definition onTimeout (x : bool) (c : Client) : Client := call onError x (close c).

(** What a read yields: bytes, the end of the stream, an error to be ignored or one that closes. *)
Inductive ReadAnswer := Bytes (data : bytes) | Eof | Ignored | Broken.

(** [Client_onStreamRead] without a protocol. *)
Definition onStreamRead (a : ReadAnswer) (x : bool) (c : Client) : Client :=
  match a with
  | Bytes data => call (onReceive data) x c
  | Eof | Broken => close c
  | Ignored => c
  end.

(** The packages of one read, each with whether its callback closes the client; a socket out of
    the event loop gets no more. *)
Fixpoint packages (l : list (bytes * bool)) (c : Client) : Client :=
  match l with
  | [] => c
  | (data, x) :: l => let c := call (onReceive data) x c in if closed c then c else packages l c
  end.

(** [Client_onStreamRead] with a protocol, whose read returns [n]. *)
Definition onStreamRead_protocol (l : list (bytes * bool)) (n : Z) (ok : bool) (c : Client) : Client :=
  let c := packages l c in
  if n <? 0 then close c
  else if negb (closed c) && remove_delay c then let c := (sleep ok c).2 in set_sleep c false (sleep_ c)
  else c.

(** What [openswoole_event_write] does with the data: sent, the rest queued, refused because the
    buffer is full, or failed. *)
Inductive WriteAnswer := Queued (rest : Z) | Overflow | Fails.

(** [Client_tcp_send_async] *)
Definition send_async (a : WriteAnswer) (length_ : Z) (x : bool) (c : Client) : Z * Client :=
  let full (n : Z) (c : Client) : Z * Client :=
    if bool_decide (is_Some (out_buffer c)) && negb (high_watermark c) && (buffer_high_watermark c <=? buffered c)
    then (n, call onBufferFull x (set_output c true (out_buffer c))) else (n, c) in
  match a with
  | Queued rest =>
    full length_ (if 0 <? rest then let c := if listens c OSW_EVENT_WRITE then c else add_write_event c in set_output c (high_watermark c) (Some (buffered c + rest)) else c)
  | Overflow => full (-1) (set_output c true (out_buffer c))
  | Fails => (-1, c)
  end.

(** ** The life of a client *)

Inductive Action :=
  | Connect (name : NameAnswer) (a : ConnectAnswer) (limit x : bool)
  | Resolved (ok : bool) (a : ConnectAnswer) (limit x : bool)
  | Writable (err n : option Z) (x : bool)
  | Error (err n : option Z) (x : bool)
  | Timeout (x : bool)
  | Readable (a : ReadAnswer) (x : bool)
  | Packages (l : list (bytes * bool)) (n : Z) (ok : bool)
  | Send (a : WriteAnswer) (length_ : Z) (x : bool)
  | Sleep (ok : bool)
  | Wakeup (ok : bool)
  | Close.

Definition perform (a : Action) (c : Client) : option Client :=
  match a with
  | Connect name a limit x => Some (connect_async name a limit x c)
  | Resolved ok a limit x => Some (onResolveCompleted ok a limit x c)
  | Writable err n x => onWrite err n x c
  | Error err n x => onError_event err n x c
  | Timeout x => Some (onTimeout x c)
  | Readable a x => Some (onStreamRead a x c)
  | Packages l n ok => Some (onStreamRead_protocol l n ok c)
  | Send a length_ x => Some (send_async a length_ x c).2
  | Sleep ok => Some (sleep ok c).2
  | Wakeup ok => Some (wakeup ok c).2
  | Close => Some (close c)
  end.

(** One connect per client, from [fresh]; the loop calls the handlers of registered sockets, timers
    that are set and pending resolutions; the program sends, sleeps and wakes a connected client. *)
Definition ready (a : Action) (c : Client) : bool :=
  match a with
  | Connect _ _ _ _ => negb (closed c) && negb (active c) && negb (timer c) && negb (wait_dns c) && bool_decide (events c = None) && bool_decide (log c = [])
  | Resolved _ _ _ _ => wait_dns c
  | Writable _ _ _ => listens c OSW_EVENT_WRITE
  | Error _ _ _ => bool_decide (is_Some (events c))
  | Timeout _ => timer c
  | Readable _ _ | Packages _ _ _ => listens c OSW_EVENT_READ
  | Send _ _ _ | Sleep _ | Wakeup _ => active c
  | Close => true
  end.

Definition fresh (high low : Z) : Client := MkClient false false None false false false false false None high low [].

Inductive reached (c0 : Client) : Client → Prop :=
  | reached_fresh : reached c0 c0
  | reached_step c c' a : reached c0 c → ready a c = true → perform a c = Some c' → reached c0 c'.

(** ** The order of the callbacks *)

(** Nothing yet, or connected, or at the end. *)
Inductive Phase := PStart | PConnected | PEnd.

Definition advance (p : option Phase) (e : Callback) : option Phase :=
  match p, e with
  | Some PStart, onConnect => Some PConnected
  | Some PStart, onError => Some PEnd
  | Some PConnected, (onReceive _ | onBufferFull | onBufferEmpty) => Some PConnected
  | Some PConnected, onClose => Some PEnd
  | _, _ => None
  end.

(** [None]: the callbacks do not come in an order that a program can expect. *)
Definition phase_of (l : list Callback) : option Phase := foldl advance (Some PStart) l.

Lemma phase_note c e : phase_of (log (note c e)) = advance (phase_of (log c)) e.
Proof. unfold phase_of. cbn. by rewrite foldl_app. Qed.

Lemma phase_next c c' e p q :
  phase_of (log c) = Some p → log c' = log c → advance (Some p) e = Some q → phase_of (log (note c' e)) = Some q.
Proof. intros Hp El Ha. by rewrite phase_note, El, Hp. Qed.

Definition quiet (c : Client) : Prop := timer c = false ∧ events c = None.

Definition settled (p : Phase) (c : Client) : Prop :=
  match p with
  | PStart => active c = false ∧ (closed c = true → quiet c) ∧ (wait_dns c = true → quiet c) ∧ (events c = None ∨ events c = Some OSW_EVENT_WRITE)
  | PConnected => active c = true ∧ closed c = false ∧ timer c = false ∧ wait_dns c = false
  | PEnd => active c = false ∧ closed c = true ∧ quiet c ∧ wait_dns c = false
  end.

Definition Legal (p : Phase) (c : Client) : Prop := phase_of (log c) = Some p ∧ settled p c.

(** The steps of a connected client that do not close it. *)
Lemma connected_same c c' :
  Legal PConnected c → active c' = active c → closed c' = closed c → timer c' = timer c → wait_dns c' = wait_dns c → log c' = log c →
  Legal PConnected c'.
Proof. intros [Hp (H1 & H2 & H3 & H4)] E1 E2 E3 E4 E5. split; [by rewrite E5|]. cbn. split_and!; congruence. Qed.

Lemma close_connected c : Legal PConnected c → Legal PEnd (close c).
Proof.
  intros [Hp (H1 & H2 & H3 & H4)]. unfold close. rewrite H2. cbn [active set_timer set_events mark_closed]. rewrite H1. split; [|done].
  by eapply (phase_next c).
Qed.

Lemma close_end c : Legal PEnd c → close c = c.
Proof. intros [_ (_ & H & _)]. unfold close. by rewrite H. Qed.

Lemma close_start c : Legal PStart c → Legal PStart (close c).
Proof.
  intros [Hp (H1 & H2 & H3 & H4)]. unfold close. destruct (closed c) eqn:Ec; [by split; [|split_and!; auto; rewrite Ec]|]. cbn. rewrite H1. split; [done|]. cbn. split_and!; auto; by split.
Qed.

(** A callback of a connected client. *)
Lemma call_connected c e (x : bool) :
  Legal PConnected c → advance (Some PConnected) e = Some PConnected → Legal (if x then PEnd else PConnected) (call e x c).
Proof.
  intros Hc He. assert (Legal PConnected (note c e)) as Hn.
  { destruct Hc as [Hp Hs]. split; [by eapply (phase_next c)|done]. }
  unfold call. destruct x; [by apply close_connected|done].
Qed.

(** The failure of a client that is not connected. *)
Lemma fail_start c (x : bool) :
  Legal PStart c → closed c = true → wait_dns c = false → Legal PEnd (call onError x c).
Proof.
  intros [Hp (H1 & H2 & H3 & H4)] Hc Hd. assert (Legal PEnd (note c onError)) as Hn.
  { split; [by eapply (phase_next c)|]. cbn. split_and!; auto. }
  unfold call. destruct x; [|done]. by rewrite close_end.
Qed.

Lemma close_closed c : closed (close c) = true ∧ wait_dns (close c) = wait_dns c.
Proof. unfold close. destruct (closed c) eqn:E; [done|]. cbn. by destruct (active c). Qed.

Lemma refuse_start c x : Legal PStart c → wait_dns c = false → Legal PEnd (call onError x (close c)).
Proof. intros Hc Hd. destruct (close_closed c) as [H1 H2]. apply fail_start; [by apply close_start|done|congruence]. Qed.

Lemma start_same c c' :
  Legal PStart c → active c' = false → closed c' = closed c → (timer c' = true → timer c = true) → (events c' = events c ∨ events c' = None) →
  wait_dns c' = wait_dns c → log c' = log c → Legal PStart c'.
Proof.
  intros [Hp (H1 & H2 & H3 & H4)] E1 E2 E3 E4 E5 E6. split; [by rewrite E6|]. cbn.
  assert (quiet c → quiet c') as Hq.
  { intros [Ht He]. split; [|destruct E4; congruence]. destruct (timer c'); [|done]. by rewrite <- E3. }
  split_and!; [done|rewrite E2; auto|rewrite E5; auto|]. destruct E4 as [E|E]; rewrite E; auto.
Qed.

Lemma start_connect_ok c a limit x :
  Legal PStart c → wait_dns c = false → ∃ p, Legal p (start_connect a limit x c).
Proof.
  intros Hc Hd. assert (∃ p, Legal p (call onError x (close (set_events (set_active c false) None)))) as Hfail.
  { exists PEnd. apply refuse_start; [|done]. apply (start_same c); auto. }
  unfold start_connect. destruct (closed c) eqn:Ec; [by destruct a|]. destruct a; [|by exists PStart|done]. exists PStart.
  destruct Hc as [Hp (H1 & H2 & H3 & H4)]. split; [done|]. cbn. rewrite Ec, Hd. split_and!; [done..|by right].
Qed.

Lemma packages_ok l c : Legal PConnected c → ∃ p, p ≠ PStart ∧ Legal p (packages l c).
Proof.
  revert c. induction l as [|[data x] l IH]; intros c Hc; [by exists PConnected|]. cbn [packages].
  pose proof (call_connected c (onReceive data) x Hc eq_refl) as Hn. destruct x.
  - rewrite (proj1 (proj2 (proj2 Hn))). by exists PEnd.
  - rewrite (proj1 (proj2 (proj2 Hn))). by apply IH.
Qed.

(** The phase in which each kind of step can come. *)
Lemma active_connected p c : Legal p c → active c = true → p = PConnected.
Proof. intros [_ Hs]. destruct p; cbn in Hs; [|done|]; destruct Hs as (? & _); congruence. Qed.

Lemma events_open p c : Legal p c → is_Some (events c) → p = PConnected ∨ p = PStart ∧ active c = false ∧ closed c = false ∧ wait_dns c = false ∧ events c = Some OSW_EVENT_WRITE.
Proof.
  intros [_ Hs] [e He]. destruct p; cbn in Hs; [right|by left|].
  - destruct Hs as (Ha & Hc & Hd & Hev). split_and!; try done.
    + destruct (closed c); [|done]. destruct Hc as [_ ?]; [done|]. congruence.
    + destruct (wait_dns c); [|done]. destruct Hd as [_ ?]; [done|]. congruence.
    + destruct Hev; congruence.
  - destruct Hs as (_ & _ & [_ ?] & _). congruence.
Qed.

Lemma remove_write_same c :
  let c' := remove_write_event c in active c' = active c ∧ closed c' = closed c ∧ timer c' = timer c ∧ wait_dns c' = wait_dns c ∧ log c' = log c.
Proof. unfold remove_write_event. destruct (events c); [|done]. by destruct (_ =? 0). Qed.

Lemma add_write_same c :
  let c' := add_write_event c in active c' = active c ∧ closed c' = closed c ∧ timer c' = timer c ∧ wait_dns c' = wait_dns c ∧ log c' = log c.
Proof. unfold add_write_event. destruct (events c); [|done]. by destruct (_ =? 0). Qed.

Lemma writable_connected n c c' : Legal PConnected c → writable_callback n c = Some c' → Legal PConnected c'.
Proof.
  intros Hc Hw. unfold writable_callback in Hw. destruct (_ =? 0) in Hw.
  - simplify_eq. destruct (remove_write_same c) as (? & ? & ? & ? & ?). by apply (connected_same c).
  - destruct n as [n|]; simplify_eq. set (c1 := set_output _ _ _).
    assert (Legal PConnected c1) by by apply (connected_same c).
    destruct (_ =? 0); [|done]. destruct (remove_write_same c1) as (? & ? & ? & ? & ?). by apply (connected_same c1).
Qed.

Lemma write_ok err n x c c' p : Legal p c → is_Some (events c) → onWrite err n x c = Some c' → ∃ p, Legal p c'.
Proof.
  intros Hc He. destruct (events_open p c Hc He) as [-> | (-> & Ha & Hcl & Hd & _)]; unfold onWrite.
  - pose proof Hc as [_ (Ha & _)]. rewrite Ha. destruct (writable_callback n c) as [c1|] eqn:Hw; [|done]. intros [= <-].
    pose proof (writable_connected n c c1 Hc Hw) as H1.
    destruct (_ && _); [|eauto]. eexists. apply call_connected; [|done]. by apply (connected_same c1).
  - rewrite Ha. destruct err as [err|]; intros [= <-]; [|eauto]. destruct (err =? 0).
    + unfold execute_onConnect, call. set (c1 := note _ _). assert (Legal PConnected c1) as H1.
      { destruct Hc as [Hp _]. split; [by eapply (phase_next c)|done]. }
      destruct x; [exists PEnd; by apply close_connected|eauto].
    + exists PEnd. apply refuse_start; [|done]. apply (start_same c); auto.
Qed.

Lemma read_connected p c : Legal p c → listens c OSW_EVENT_READ = true → p = PConnected.
Proof.
  intros Hc Hl. unfold listens in Hl. destruct (events c) as [e|] eqn:He; [|done].
  destruct (events_open p c Hc) as [?|(_ & _ & _ & _ & E)]; [eauto|done|]. rewrite He in E. by simplify_eq.
Qed.

Lemma legal_connect name a limit x c p : Legal p c → ready (Connect name a limit x) c = true → ∃ p, Legal p (connect_async name a limit x c).
Proof.
  intros Hc Hr. cbn in Hr. rewrite !andb_true_iff in Hr. destruct Hr as [[[[[Hcl Ha] Ht] Hd] He%bool_decide_eq_true] Hl%bool_decide_eq_true].
  apply negb_true_iff in Hd, Ht, Ha, Hcl. assert (p = PStart) as ->. { destruct Hc as [Hp _]. rewrite Hl in Hp. cbn in Hp. congruence. }
  unfold connect_async. destruct name; [by apply start_connect_ok| |eauto].
  exists PStart. destruct Hc as [Hp (H1 & H2 & H3 & H4)]. split; [done|]. cbn. split_and!; auto. by split.
Qed.

Lemma legal_resolved ok a limit x c p : Legal p c → wait_dns c = true → ∃ p, Legal p (onResolveCompleted ok a limit x c).
Proof.
  intros Hc Hr. assert (p = PStart) as ->.
  { destruct Hc as [_ Hs]. destruct p; cbn in Hs; [done| |]; destruct Hs as (_ & _ & _ & ?); congruence. }
  assert (Legal PStart (set_dns c false)) as Hc1. { destruct Hc as [Hp (H1 & H2 & H3 & H4)]. split; [done|]. by split_and!. }
  unfold onResolveCompleted. destruct ok; [by apply start_connect_ok|]. exists PEnd. apply refuse_start; [|done].
  apply (start_same (set_dns c false)); auto. by destruct Hc1 as [_ []].
Qed.

Lemma legal_timeout x c p : Legal p c → timer c = true → Legal PEnd (onTimeout x c).
Proof.
  intros Hc Hr. assert (p = PStart) as ->.
  { destruct Hc as [_ Hs]. destruct p; cbn in Hs; [done|destruct Hs as (_ & _ & ? & _)|destruct Hs as (_ & _ & [? _] & _)]; congruence. }
  apply refuse_start; [done|]. destruct Hc as [_ (_ & _ & Hd & _)]. destruct (wait_dns c); [|done]. destruct Hd; [done|]. congruence.
Qed.

Lemma legal_read a x c : Legal PConnected c → ∃ p, Legal p (onStreamRead a x c).
Proof.
  intros Hc. unfold onStreamRead.
  destruct a; [eexists; by apply call_connected|exists PEnd; by apply close_connected|eauto|exists PEnd; by apply close_connected].
Qed.

Lemma sleep_connected ok c : Legal PConnected c → Legal PConnected (sleep ok c).2.
Proof. intros Hc. apply (connected_same c); try done; unfold sleep; by destruct ok. Qed.

Lemma wakeup_connected ok c : Legal PConnected c → Legal PConnected (wakeup ok c).2.
Proof. intros Hc. apply (connected_same c); try done; unfold wakeup; by destruct ok. Qed.

Lemma legal_packages l n ok c : Legal PConnected c → ∃ p, Legal p (onStreamRead_protocol l n ok c).
Proof.
  intros Hc. unfold onStreamRead_protocol. destruct (packages_ok l c Hc) as (p & Hne & Hp). destruct p; [done| |].
  - destruct (n <? 0); [exists PEnd; by apply close_connected|]. destruct (_ && _); [|eauto]. exists PConnected.
    eapply connected_same; [by apply (sleep_connected ok)|done..].
  - exists PEnd. pose proof Hp as [_ (_ & Hcl & _)]. rewrite Hcl. destruct (n <? 0); [by rewrite close_end|done].
Qed.

Lemma legal_send a len x c : Legal PConnected c → ∃ p, Legal p (send_async a len x c).2.
Proof.
  intros Hc. unfold send_async. destruct a as [rest| |]; cbv zeta; [| |eauto].
  - set (c1 := if 0 <? rest then _ else c). assert (Legal PConnected c1) as H1.
    { unfold c1. destruct (0 <? rest); [|done]. destruct (listens c _); [by apply (connected_same c)|].
      destruct (add_write_same c) as (? & ? & ? & ? & ?). by apply (connected_same c). }
    destruct (_ && _); cbn [snd]; [|eauto]. eexists. apply call_connected; [|done]. by apply (connected_same c1).
  - destruct (_ && _); cbn [snd]; [eexists; apply call_connected; [|done]|exists PConnected]; by apply (connected_same c).
Qed.

Lemma legal_step c c' a p : Legal p c → ready a c = true → perform a c = Some c' → ∃ p, Legal p c'.
Proof.
  intros Hc Hr. destruct a as [name a limit x|ok a limit x|err n x|err n x|x|a x|l n ok|a len x|ok|ok|]; cbn [perform]; try intros [= <-].
  - by apply (legal_connect name a limit x c p).
  - by apply (legal_resolved ok a limit x c p).
  - intros H. eapply write_ok; [done| |done]. cbn in Hr. unfold listens in Hr. destruct (events c); [eauto|done].
  - apply bool_decide_eq_true in Hr. unfold onError_event. destruct (active c) eqn:Ha; [|by eapply write_ok].
    intros [= <-]. pose proof (active_connected p c Hc Ha) as ->. exists PEnd. by apply close_connected.
  - exists PEnd. by apply (legal_timeout x c p).
  - pose proof (read_connected p c Hc Hr) as ->. by apply legal_read.
  - pose proof (read_connected p c Hc Hr) as ->. by apply legal_packages.
  - pose proof (active_connected p c Hc Hr) as ->. by apply legal_send.
  - pose proof (active_connected p c Hc Hr) as ->. eexists. by apply sleep_connected.
  - pose proof (active_connected p c Hc Hr) as ->. eexists. by apply wakeup_connected.
  - destruct p; [exists PStart; by apply close_start|exists PEnd; by apply close_connected|exists PEnd; by rewrite (close_end c Hc)].
Qed.

(** The only step that ends the process. *)
Lemma perform_crash a c : perform a c = None → ∃ err x, a = Writable err None x ∧ active c = true ∧ buffered c ≠ 0.
Proof.
  destruct a as [name a limit x|ok a limit x|err n x|err n x|x|a x|l n ok|a len x|ok|ok|]; cbn [perform]; try done.
  - unfold onWrite, writable_callback. destruct (active c) eqn:Ha; [|by destruct err]. destruct (buffered c =? 0) eqn:Hb; [done|]. destruct n; [done|]. intros _.
    exists err, x. split_and!; [done..|]. by apply Z.eqb_neq.
  - unfold onError_event, onWrite. destruct (active c); [done|]. by destruct err.
Qed.

(** Whatever the network, the resolver, the timer and the program do in whatever order, and
    whichever callbacks close the client: [onConnect] comes at most once and before everything
    else, or [onError] comes instead of it; data and the notices of the output come only between
    [onConnect] and [onClose], which comes at most once; the client is [active] exactly in
    between; and after the last callback nothing is left that could call another one.  The steps
    end in a state except that the output breaks while some is buffered. *)
Theorem client_callbacks_ordered high low c :
  reached (fresh high low) c →
  ∃ p, phase_of (log c) = Some p ∧ (active c = true ↔ p = PConnected) ∧
    (p = PEnd → closed c = true ∧ ∀ a, ready a c = true → a = Close ∧ perform a c = Some c) ∧
    (∀ a, perform a c = None → p = PConnected ∧ buffered c ≠ 0 ∧ ∃ err x, a = Writable err None x).
Proof.
  intros Hre. assert (∃ p, Legal p c) as [p Hc].
  { induction Hre as [|c c' a _ [p IH] Hr Hs]; [exists PStart; split; [done|]; cbn; split_and!; [done..|by left]|by eapply legal_step]. }
  exists p. split; [by destruct Hc|]. split; [split; [by apply active_connected|intros ->; by destruct Hc as [_ []]]|]. split.
  - intros ->. pose proof Hc as [_ (Ha & Hcl & [Ht He] & Hd)]. split; [done|]. intros a Hr. destruct a; cbn in Hr; unfold listens in Hr;
      rewrite ?Hcl, ?Ha, ?Ht, ?He, ?Hd in Hr; try done. cbn. by rewrite (close_end c Hc).
  - intros a Hn. destruct (perform_crash a c Hn) as (err & x & ? & Ha & ?). split; [by apply (active_connected p c)|]. eauto.
Qed.

(** The steps one after the other. *)
Definition run (l : list Action) (c : Client) : option Client := foldl (λ c a, c ← c; perform a c) (Some c) l.

(** A program that closes the client while its host name is resolved still gets [onError]. *)
Example error_after_close :
  log <$> run [Connect Lookup Connecting false false; Close; Resolved true Connecting false false] (fresh 100 0) = Some [onError].
Proof. vm_compute. done. Qed.

(** The peer resets a connection that has output left, outside of a server. *)
Example broken_output_crashes :
  run [Connect IsAddress Connecting false false; Writable (Some 0) None false; Send (Queued 10) 10 false; Writable (Some 0) None false] (fresh 100 0) = None.
Proof. vm_compute. done. Qed.

(** ** Blocking sends *)

(** [Client_tcp_send_sync]: the answers of the kernel to the sends. *)
Inductive SendAnswer := Sent (n : Z) | SendFailed (errno : Z).

Fixpoint send_sync (kernel : list SendAnswer) (data wire : bytes) (written : Z) : option (Z * bytes) :=
  if bool_decide (data = []) then Some (written, wire)
  else
    match kernel with
    | [] => None
    | Sent n :: kernel => send_sync kernel (drop (Z.to_nat n) data) (wire ++ take (Z.to_nat n) data) (written + n)
    | SendFailed errno :: kernel =>
      if (errno =? EINTR) || (errno =? EAGAIN) then send_sync kernel data wire written else Some (-1, wire)
    end.

(** The kernel takes some of what is offered. *)
Fixpoint fair (kernel : list SendAnswer) (left_ : Z) : Prop :=
  match kernel with
  | [] => left_ = 0
  | Sent n :: kernel => left_ = 0 ∨ 1 <= n <= left_ ∧ fair kernel (left_ - n)
  | SendFailed errno :: kernel => left_ = 0 ∨ (errno = EINTR ∨ errno = EAGAIN) ∧ fair kernel left_
  end.

(** With a kernel that takes all data in the end, however it cuts it and whatever interrupts it, the
    send returns the length and the data is on the wire once and in order. *)
Theorem send_sync_exact kernel data wire written :
  fair kernel (zlen data) → send_sync kernel data wire written = Some (written + zlen data, wire ++ data).
Proof.
  revert data wire written. induction kernel as [|[n|errno] kernel IH]; intros data wire written Hf; cbn in *;
    (case_bool_decide as Hd; [subst; by rewrite zlen_nil, Z.add_0_r, app_nil_r|]);
    (assert (zlen data ≠ 0) as Hz by (intros ->%zlen_0; done)); [done| |].
  - destruct Hf as [?|[Hn Hf]]; [done|]. rewrite IH.
    + f_equal. f_equal; [unfold zlen in *; rewrite length_drop; lia|]. by rewrite <- (assoc_L (++)), take_drop.
    + replace (zlen (drop (Z.to_nat n) data)) with (zlen data - n) by (unfold zlen in *; rewrite length_drop; lia). done.
  - destruct Hf as [?|[He Hf]]; [done|]. destruct He as [-> | ->]; cbn; by apply IH.
Qed.

(** ** Client::shutdown *)

Record Shut := MkShut { shutdown_read : bool; shutdown_write : bool; shutdow_rw : bool }.

(** [is_closed]: there is no socket or it is closed; [ok]: the kernel's shutdown succeeds.  The
    result and whether the kernel was asked. *)
Definition shutdown (is_closed : bool) (how : Z) (ok : bool) (s : Shut) : Z * bool * Shut :=
  if is_closed then (-1, false, s)
  else if how =? SHUT_RD then
    if shutdown_read s || shutdow_rw s then (-1, false, s)
    else if ok then (0, true, MkShut true (shutdown_write s) (shutdow_rw s)) else (-1, true, s)
  else if how =? SHUT_WR then
    if shutdown_write s || shutdow_rw s then (-1, false, s)
    else if ok then (0, true, MkShut (shutdown_read s) true (shutdow_rw s)) else (-1, true, s)
  else if how =? SHUT_RDWR then
    if shutdow_rw s then (-1, false, s)
    else if ok then (0, true, MkShut true (shutdown_write s) (shutdow_rw s)) else (-1, true, s)
  else (-1, false, s).

(** A shutdown of both directions marks only the reading one: it can be repeated, and a later
    shutdown of the writing direction asks the kernel again. *)
Example shutdown_both_marks_one :
  let s := (shutdown false SHUT_RDWR true (MkShut false false false)).2 in
  (s, (shutdown false SHUT_RDWR true s).1, (shutdown false SHUT_WR true s).1) = (MkShut true false false, (0, true), (0, true)).
Proof. done. Qed.
